(* ===== verification/_CoqProject ===== *)
-Q . S2P
Prelude.v
Wp.v
GoStrings.v
Sha256.v
Calendar.v
CircuitBreaker.v
Concurrency.v
PlatformBilling.v
Outbox.v
Ledger.v
CreditPool.v
CreditPoolSpec.v
PoolFunding.v
PoolSystem.v
PoolTopup.v
QuotaCharge.v
QuotaChargeSpec.v
QuotaChargeSafety.v
ChannelKeys.v
SmartRouting.v
ChannelCache.v
ChannelCacheSpec.v
ChannelCooldown.v
ChannelCooldownSpec.v
ChannelSelect.v
ChannelSelectSpec.v
TimeFormat.v
Redis.v
SessionAffinity.v
RelayLoop.v
Window.v
RateLimit.v
RateLimitSpec.v
BusinessLimit.v
BusinessLimitSpec.v
BusinessWindows.v
LeaderElection.v
Json.v
Redemption.v
RedemptionSpec.v
Decimal.v
Prices.v
PriceTables.v
Settlement.v
SettlementSpec.v
PriceTablesSpec.v
StreamConvert.v
StreamConvertSpec.v
Sessions.v
StepUp.v
StepUpSpec.v
AuthSpec.v
TokenCache.v
TokenStore.v
TokenStoreSpec.v
TokenSystem.v
TokenRaces.v
TokenAuth.v
