(* ===== verification/Prelude.v ===== *)
(** * Lurus Hub: a verification library for the gateway's core

    Lurus Hub (internal/, Go) is a gateway in front of language-model providers.  A
    request is authenticated, charged against balances, sent through one of many
    upstream channels with failover, and settled at its actual cost.  This library
    models the parts that carry the program's own logic (money, prices, admission,
    sessions, API keys and the second factor, routing, and the answer in the caller's format) and
    proves what makes them correct.

    ** The program's parts and their models

    Money.
    - [Ledger]: users' and keys' balances, internal/adapter/repo/user.go, token.go,
      utils.go (the batch updater) and daily_quota_cron.go.  The tables are lists of
      records; an operation is a computation in a small state-and-error monad whose
      statements may each fail.
    - [PlatformBilling]: internal/pkg/common/billing_client.go, billing_breaker.go,
      billing_cache.go and internal/pkg/currency: the classification of the billing
      platform's answers, its breaker and the degraded admission.  Amounts are
      binary64, as in the code.
    - [Outbox]: internal/app/billing_outbox.go and billing_debit_outbox.go: parked
      settlements and debits, claimed and delivered by several workers, as a step
      relation.
    - [CreditPool], [CreditPoolSpec], [PoolFunding], [PoolSystem], [PoolTopup]: the
      tenants' shared credit pools, internal/adapter/repo/tenant_credit_pool.go,
      tenant_credit_pool_fund_event.go, the scheduled reset (internal/app/
      credit_pool_reset.go), the reconciliation, and the endpoints of
      internal/adapter/handler/tenant_credit_pool*.go and
      internal_credit_pool_fund.go.  [PoolSystem] composes them: any interleaving of
      their transactions.
    - [QuotaCharge], [QuotaChargeSpec], [QuotaChargeSafety]: the charge of one
      request, internal/app/pre_consume_quota.go, quota.go ([PreConsumeTokenQuota],
      [PostConsumeQuota]), quota_settle.go, quota_pool.go, tenant_quota.go and
      project_budget.go, on top of [Ledger], [PlatformBilling], [Outbox] and
      [CreditPool].  Every database statement and network call may fail as the
      environment [env] decides.
    - [Redemption], [RedemptionSpec]: redemption codes, provisioned batches and plan
      grants, internal/adapter/repo/redemption.go, provisioned_redemption.go,
      plan_quota_grant.go and their handlers, as transactions of the store of [Prelude].
    - [Decimal], [Prices], [PriceTables], [PriceTablesSpec]: the price tables of
      internal/pkg/setting/ratio_setting, as shipped and as administrators replace them,
      and the price of a request, internal/app/relay/helper/price.go.  The decimal library
      is behind the class [Decimals] with the laws [DecimalLaws].
    - [Settlement], [SettlementSpec]: what a served request is charged,
      [postConsumeQuota] of internal/app/relay/compatible_handler.go and the Claude and
      audio routes of internal/app/quota.go, and the cost shown for it
      (internal/app/relay/helper/perception.go).  The amount is what [QuotaCharge] books.

    Admission.
    - [Redis], [Window]: a server with the laws the code relies on, for lists, sorted sets
      and strings, and instances that keep them; the limiter that remembers every admission, which the
      others are compared with.
    - [RateLimit], [RateLimitSpec]: the limiters of internal/pkg/common/rate-limit.go,
      internal/pkg/common/limiter and internal/adapter/middleware/rate-limit*.go and
      model-rate-limit.go, over Redis and in process.
    - [BusinessLimit], [BusinessLimitSpec], [BusinessWindows]: requests and tokens per
      minute and the spend fuse, internal/adapter/middleware/business_rate_limit.go,
      cost_spike.go, internal/app/business_tpm.go, cost_spike.go.
    - [Concurrency]: the admission limit of internal/adapter/middleware/
      concurrency_limit.go.
    - [LeaderElection]: the lease by which one replica runs the scheduled work,
      internal/adapter/repo/leader_election.go and internal/lifecycle/leader_election.go.

    Identity.
    - [Sessions]: browser sessions and their registry, internal/adapter/repo/
      user_session.go, middleware/session_rotation.go, the end of the logins, the
      resolution of a request's identity in middleware/auth.go and the endpoints that end
      sessions.
    - [TokenCache], [TokenStore], [TokenStoreSpec], [TokenSystem], [TokenRaces],
      [TokenAuth]: API keys.  [TokenCache] is a token as a Redis hash
      (internal/pkg/common/redis.go, repo/token_cache.go); [TokenStore] its row, lookup,
      validation, edits, rotations, quota changes and refreshes (repo/token.go,
      app/token_service.go, token_rotation.go, handler/token.go, user_heartbeat.go), with
      the goroutines of [AsyncGo] as a list of tasks; [TokenSystem] all of it as a step
      relation in which reads, writes and tasks interleave; [TokenRaces] what races do;
      [TokenAuth] the middleware of the relay (middleware/auth.go, auth_token_context.go,
      auth_token_reject.go) with scopes, addresses, tenants and groups.  [TokenStoreSpec]
      proves the operations against any [discipline] on copies of a token that is
      [Closed]; the theorems of [TokenSystem] are two instances of its class [Policy].
    - [StepUp], [StepUpSpec], [AuthSpec]: the second factor, internal/app/totp/totp.go
      with its tables, enrolment and step-up verification (handler/totp.go,
      secure_verification.go, v2_admin_security.go) and the gate of middleware/
      secure_verification.go, on top of [Sessions].  The cipher is any AEAD; the check of
      a code at a time is a parameter.  [op] of [StepUpSpec] and [sop] of [AuthSpec] are
      the requests whose sequences the theorems range over.

    Routing.
    - [ChannelKeys]: the keys of a multi-key channel: internal/adapter/repo/channel.go
      ([GetNextEnabledKey], [handlerMultiKeyUpdate]), channel_key_ops.go (the smooth
      weighted rotation), channel_pool.go (cooldown of a key) and the reaper of
      internal/app/openrouter_pool/reaper.go.
    - [SmartRouting]: the performance scores of internal/app/hub/channel_scorer.go and
      the weight adjustment of smart_routing.go, in binary64.
    - [ChannelCache], [ChannelCacheSpec]: the routing table of internal/adapter/repo/
      channel_cache.go, its rebuild and the weighted selection from it, and the
      selection from the abilities table (ability.go).
    - [ChannelCooldown], [ChannelCooldownSpec]: the cooldowns after an upstream 429,
      internal/app/channel_cooldown.go, channel_cooldown_clear.go and
      openrouter_pool/cooldown.go, at the grain of their locks and Redis calls.
    - [ChannelSelect], [ChannelSelectSpec]: one selection for a request and the walk
      over its groups, internal/app/channel_select.go, channel_modality.go and
      internal/pkg/capability.  The repo is behind the class [Repo] with the laws
      [RepoLaws]; the routing table and the abilities table are its instances.
    - [SessionAffinity]: internal/app/session_affinity.go and internal/adapter/repo/
      channel_affinity.go, the binding of a conversation to a channel; the class
      [Resolves] states what a pin promises to the repo a request selects from.
    - [CircuitBreaker]: internal/pkg/resilience/circuitbreaker.go, a breaker and the
      registry of breakers.
    - [RelayLoop]: the attempt loop of [Relay] in internal/adapter/handler/relay.go,
      with [getChannel] and [shouldRetry], on top of [ChannelSelect].

    Answers.
    - [StreamConvert], [StreamConvertSpec]: the answer of an OpenAI-wire upstream for a
      caller on the Claude, Gemini or OpenAI wire, chunk by chunk or whole,
      internal/app/convert.go and internal/adapter/provider/openai/helper.go and
      relay-openai.go, and the usage the request is settled on.

    Shared.  [Prelude] (this file): 64-bit integers, times, results, the store of
    rows, notations, tactics and generic lemmas; [Wp]: weakest preconditions of
    computations on that store; [GoStrings]: the string functions
    the code uses, on bytes; [Sha256]: the digest of a request identifier;
    [Calendar]: civil dates; [TimeFormat]: the layouts times are printed in; [Json]: the
    lists of strings kept as JSON text.

    ** What the theorems show

    Each statement names its conditions; the ones that matter most are given here.

    - Charging is exact where the local ledger is authoritative: an admitted request that
      settles costs its user and key the actual amount, a refused one costs nothing on a
      healthy database, no admission overdraws; the advisory mode, a platform wallet, the
      write buffer and the playground are outside these statements.  Every platform hold
      is settled, released, parked or reported lost exactly once ([QuotaChargeSpec],
      [QuotaChargeSafety]).
    - The ledger of a pool explains its balance over every interleaving, what stale resets
      overwrite accounted for; a funding event is applied once; a top-up gives no free
      credit; a debit is atomic and bounded ([CreditPoolSpec], [PoolSystem], [PoolTopup]).
    - An outbox row is held by one worker and retried on its schedule ([Outbox]).
    - A plan period credits once, and a code once and once more for every write of an edit
      that opens it again after its use; a replayed batch gives its codes back
      ([RedemptionSpec]).
    - Both routes charge one plain usage alike, a priced request with tokens is never free
      on the OpenAI-compatible charge, the charge of a reported usage does not depend on the
      estimate the request was admitted on, and what is shown is what is charged
      ([SettlementSpec]); the checked tables stay well formed, and which of the shipped rows
      are lost is computed ([PriceTablesSpec]).
    - A limiter in the process admits as one that remembers every admission; its headers are
      exact; the token windows are exact sums ([RateLimitSpec], [BusinessLimitSpec],
      [BusinessWindows]); of the replicas, each with its own clock, at most one relies on a
      lease that outlasts the error of the clocks, the end of a shutdown aside
      ([LeaderElection]).
    - A step-up verification spends a credential and touches its own session only; when
      requests run one after the other, a code passes once, an enabled factor keeps its
      recovery codes and wrong codes are bounded; a revoked session stays out; a secret
      decrypts to what was encrypted ([StepUpSpec], [AuthSpec]).
    - A key authenticates as the token, user and tenant it was issued to, and an admitted
      request passed every gate of that token, whatever is under way; a retired key stays
      out once no enabled copy of it is left; a cached token reads back as it was; a
      scheduled rotation happens once; stored scopes grant what was asked
      ([TokenSystem], [TokenAuth], [TokenCache], [TokenRaces]).
    - A strict client of the Claude wire accepts the stream of thinking and text written for
      it and has the upstream's whole answer, and rejects one whose tool calls come after
      the first chunk; every stream is opened and closed at most once; the other wires keep
      the text ([StreamConvertSpec]).
    - Selection from the table refines a specification on the database rows, a draw is
      proportional to the weights, and the database path answers alike
      ([ChannelCacheSpec]); a weighted key rotation is fair from rest and while the weights
      stay ([ChannelKeys]).
    - What is selected for a request is eligible and not cooling, used channels come
      last, and "all cooling" reports the earliest recovery ([ChannelSelectSpec]); a
      session's pin never reaches beyond that and lasts exactly to its last deadline
      ([SessionAffinity]); the retry loop ends, within a stated bound ([RelayLoop]).
    - A cooldown marked in one step holds to its deadline, and a lifted one stays lifted,
      over the interleavings the statements name ([ChannelCooldownSpec]).
    - A breaker's reachable states are well formed ([CircuitBreaker]).
    - Where the code departs from its own comments or loses something, a theorem
      exhibits it; these are the ones of kind error.

    ** Bounds and fuel

    Integers that the code keeps in an int or int64 are [Z] with the wrap-around
    written out ([i64_add] and the like); a theorem that needs no overflow says so in
    its hypotheses.  The definitions that take fuel are the UTF-8 decoder and the
    trimming of [GoStrings] (the length of the text suffices), [format_digits] of
    [GoStrings] (a 64-bit number has at most 20 digits) and [relay] of [RelayLoop],
    whose theorem gives the fuel that suffices.  Reading a time never wraps.

    ** What is not modelled

    The translation of request and response bodies between vendor formats
    (the requests of internal/app/convert.go, the vendors of internal/adapter/provider
    other than the OpenAI wire), bearer tokens and the exchange with identity providers,
    the listing, v2 and provisioning endpoints of API keys, the HTTP handlers around these
    operations, logs, analytics and search, the option store, metrics, tracing, messaging,
    the web console and deployment.  The decoding of JSON objects, the
    parsing of decimal fractions, random numbers, clocks, Redis and the SQL database
    enter as arguments, as classes with the laws the code relies on, or as the
    environment's choices; the limiters and Redis read one clock, a replica of
    [LeaderElection] its own, and the session bindings the process's and the server's.
    Requests that read and write in several steps are cut into them where a statement is
    about their interleaving ([TokenSystem], [ChannelCooldown], [LeaderElection], [Outbox],
    the edits of [RedemptionSpec]) and are one step elsewhere, as the statements say.  Go
    maps are [gmap]s; where a range over one decides something, the order is an argument or the result is shown
    not to depend on it. *)

From Stdlib Require Export ZArith Lia Bool.
From stdpp Require Export base gmap strings list list_numbers sorting.

#[export] Set Default Goal Selector "!".

Declare Scope hub_scope.
Delimit Scope hub_scope with hub.
Open Scope Z_scope.
Open Scope hub_scope.

(** ** Machine integers

    Go's [int] and [int64] are 64-bit two's complement on every platform the
    gateway is built for: arithmetic wraps silently. *)

Definition i64_modulus : Z := 18446744073709551616.
Definition i64_half : Z := 9223372036854775808.
Definition i64_min : Z := - i64_half.
Definition i64_max : Z := i64_half - 1.

Definition in64 (z : Z) : Prop := i64_min <= z <= i64_max.

Definition in64b (z : Z) : bool := (i64_min <=? z) && (z <=? i64_max).

Definition wrap64 (z : Z) : Z := (z + i64_half) mod i64_modulus - i64_half.

Definition i64_add (a b : Z) : Z := wrap64 (a + b).
Definition i64_sub (a b : Z) : Z := wrap64 (a - b).
Definition i64_mul (a b : Z) : Z := wrap64 (a * b).

(** Saturation to the [int64] range, the behaviour of [time.Time.Sub]. *)
Definition sat64 (z : Z) : Z := Z.max i64_min (Z.min i64_max z).

Ltac unfold64 :=
  unfold in64, i64_add, i64_sub, i64_mul, i64_min, i64_max, i64_half, i64_modulus in *.

(** ** Go time

    A [time.Time] is a number of nanoseconds since the zero time (January 1,
    year 1, 00:00 UTC), so that [time.Time{}] is [0]; a [time.Duration] is an
    [int64] number of nanoseconds. *)

Definition nanosecond : Z := 1.
Definition second : Z := 1000000000.
Definition minute : Z := 60 * second.
Definition hour : Z := 60 * minute.

(** Seconds between the zero time and the Unix epoch. *)
Definition unix_offset : Z := 62135596800.

Definition time_zero : Z := 0.
Definition time_IsZero (t : Z) : bool := t =? time_zero.
Definition time_Sub (t u : Z) : Z := sat64 (t - u).
Definition time_Add (t d : Z) : Z := t + d.
Definition time_Unix (t : Z) : Z := t / second - unix_offset.
Definition time_of_unix (s : Z) : Z := (s + unix_offset) * second.

(** ** Results and the statement monad

    Fallible code returns a [result]; code that reads and writes the database
    is a function of a [store]: the tables, and the schedule of faults the
    database will raise.  One boolean is consumed per statement, [true] making
    that statement fail with a driver error; an empty schedule is a healthy
    database.  Every theorem quantifies over the schedule. *)

Inductive result (E A : Type) : Type :=
| Ok (a : A)
| Err (e : E).
Arguments Ok {E A} a.
Arguments Err {E A} e.

Definition is_ok {E A} (r : result E A) : bool :=
  match r with Ok _ => true | Err _ => false end.

Record store (T : Type) : Type := mkStore {
  tables : T;
  faults : list bool
}.
Arguments mkStore {T} _ _.
Arguments tables {T} _.
Arguments faults {T} _.

Definition M (T E A : Type) : Type := store T -> result E A * store T.

Definition ret {T E A} (a : A) : M T E A := fun s => (Ok a, s).
Definition throw {T E A} (e : E) : M T E A := fun s => (Err e, s).

Definition bind {T E A B} (m : M T E A) (k : A -> M T E B) : M T E B :=
  fun s =>
    match m s with
    | (Ok a, s') => k a s'
    | (Err e, s') => (Err e, s')
    end.

(** Run [m] and hand its outcome, error included, to [k]: [if err := m; ...]. *)
Definition catch {T E A B} (m : M T E A) (k : result E A -> M T E B) : M T E B :=
  fun s => let (r, s') := m s in k r s'.

Notation "'let!' x ':=' m 'in' k" := (bind m (fun x => k))
  (at level 10, x pattern, m at level 100, k at level 200)
  : hub_scope.
Notation "'try!' x ':=' m 'in' k" := (catch m (fun x => k))
  (at level 10, x pattern, m at level 100, k at level 200)
  : hub_scope.

(** The driver error a component reports for a failed statement. *)
Class DbError (E : Type) : Type := db_error : E.

Definition next_fault (fs : list bool) : bool * list bool :=
  match fs with
  | [] => (false, [])
  | f :: fs' => (f, fs')
  end.

(** One SQL statement: it fails with the driver error, or applies [f]. *)
Definition stmt {T E A} `{!DbError E} (f : T -> result E (A * T)) : M T E A :=
  fun s =>
    let (bad, fs) := next_fault (faults s) in
    if bad then (Err db_error, mkStore (tables s) fs)
    else match f (tables s) with
         | Ok (a, t') => (Ok a, mkStore t' fs)
         | Err e => (Err e, mkStore (tables s) fs)
         end.

(** A query: a statement that does not write. *)
Definition query {T E A} `{!DbError E} (f : T -> A) : M T E A :=
  stmt (fun t => Ok (f t, t)).

(** [DB.Transaction]: the tables of a body that returns an error, or whose
    commit fails, are rolled back. *)
Definition transaction {T E A} `{!DbError E} (m : M T E A) : M T E A :=
  fun s =>
    match m s with
    | (Ok a, s') =>
        let (bad, fs) := next_fault (faults s') in
        if bad then (Err db_error, mkStore (tables s) fs)
        else (Ok a, mkStore (tables s') fs)
    | (Err e, s') => (Err e, mkStore (tables s) (faults s'))
    end.

(** ** Tables

    A table is the list of its rows in primary-key order; [update_where] is
    [UPDATE ... WHERE], [affected] its [RowsAffected], [first_where] gorm's
    [First]. *)

Definition update_where {R} (P : R -> bool) (f : R -> R) (rows : list R) : list R :=
  (fun r => if P r then f r else r) <$> rows.

Definition affected {R} (P : R -> bool) (rows : list R) : nat :=
  length (List.filter P rows).

Definition first_where {R} (P : R -> bool) (rows : list R) : option R :=
  List.find P rows.

#[global] Arguments update_where : simpl never.
#[global] Arguments affected : simpl never.
#[global] Arguments first_where : simpl never.

(** ** Sums and lists *)

Definition sumZ {A} (f : A -> Z) (l : list A) : Z :=
  foldr (fun a z => f a + z) 0 l.

(** ** Executions of a step relation *)

Section Steps.
Context {S : Type} (step : S -> S -> Prop).

Inductive reachable (s0 : S) : S -> Prop :=
| reach_init : reachable s0 s0
| reach_step s s' : reachable s0 s -> step s s' -> reachable s0 s'.

Lemma reachable_ind_inv (P : S -> Prop) s0 :
  P s0 -> (forall s s', P s -> step s s' -> P s') ->
  forall s, reachable s0 s -> P s.
Proof. intros H0 Hstep s Hr. induction Hr; eauto. Qed.

Lemma reachable_trans s0 s1 s2 :
  reachable s0 s1 -> reachable s1 s2 -> reachable s0 s2.
Proof. intros H1 H2. induction H2; eauto using reachable. Qed.
End Steps.

(** ** Automation *)

Create HintDb hub discriminated.

(** Case analysis on the scrutinee of a match or conditional in the goal or in
    a hypothesis, keeping the equation. *)
Ltac split_match_in H :=
  match type of H with
  | context [match ?x with _ => _ end] =>
      lazymatch x with context [match _ with _ => _ end] => fail | _ => idtac end;
      let E := fresh "E" in destruct x eqn:E
  end.

Ltac split_match :=
  match goal with
  | |- context [match ?x with _ => _ end] =>
      lazymatch x with context [match _ with _ => _ end] => fail | _ => idtac end;
      let E := fresh "E" in destruct x eqn:E
  end.

(** Turn boolean comparisons into propositions. *)
Ltac bool_to_prop :=
  repeat match goal with
  | H : _ && _ = true |- _ => apply andb_true_iff in H as [? ?]
  | H : _ || _ = false |- _ => apply orb_false_iff in H as [? ?]
  | H : negb _ = true |- _ => apply negb_true_iff in H
  | H : negb _ = false |- _ => apply negb_false_iff in H
  | H : bool_decide _ = true |- _ => apply bool_decide_eq_true in H
  | H : bool_decide _ = false |- _ => apply bool_decide_eq_false in H
  | H : (_ =? _)%Z = true |- _ => apply Z.eqb_eq in H
  | H : (_ =? _)%Z = false |- _ => apply Z.eqb_neq in H
  | H : (_ <=? _)%Z = true |- _ => apply Z.leb_le in H
  | H : (_ <=? _)%Z = false |- _ => apply Z.leb_gt in H
  | H : (_ <? _)%Z = true |- _ => apply Z.ltb_lt in H
  | H : (_ <? _)%Z = false |- _ => apply Z.ltb_ge in H
  | H : (_ >=? _)%Z = _ |- _ => rewrite Z.geb_leb in H
  | H : (_ >? _)%Z = _ |- _ => rewrite Z.gtb_ltb in H
  end.

(** ** Lemmas on integers and time *)

Lemma in64b_spec z : in64b z = true <-> in64 z.
Proof. unfold in64b, in64. rewrite andb_true_iff, !Z.leb_le. tauto. Qed.

Lemma wrap64_range z : in64 (wrap64 z).
Proof.
  unfold wrap64. unfold64.
  pose proof (Z.mod_pos_bound (z + 9223372036854775808) 18446744073709551616).
  lia.
Qed.

Lemma wrap64_id z : in64 z -> wrap64 z = z.
Proof. unfold wrap64. unfold64. intros H. rewrite Z.mod_small; lia. Qed.

Lemma sat64_range z : in64 (sat64 z).
Proof. unfold sat64. unfold64. lia. Qed.

Lemma sat64_id z : in64 z -> sat64 z = z.
Proof. unfold sat64. unfold64. lia. Qed.

Lemma time_Sub_nonneg t u : u <= t -> 0 <= time_Sub t u.
Proof. unfold time_Sub, sat64. unfold64. lia. Qed.

Lemma time_Sub_ge t u d : 0 <= d <= i64_max -> d <= time_Sub t u <-> d <= t - u.
Proof. unfold time_Sub, sat64. unfold64. lia. Qed.

Lemma time_Unix_of_unix s : time_Unix (time_of_unix s) = s.
Proof.
  unfold time_Unix, time_of_unix, second. rewrite Z.div_mul by lia. lia.
Qed.

#[export] Hint Resolve wrap64_range sat64_range : hub.

(** ** Lemmas on the statement monad *)

Section Monad.
Context {T E A B : Type} `{!DbError E}.
Implicit Types (m : M T E A) (s : store T).

(** A computation that leaves the tables alone when it fails. *)
Definition atomic m : Prop :=
  forall s e s', m s = (Err e, s') -> tables s' = tables s.

(** A computation that never writes. *)
Definition readonly m : Prop :=
  forall s, tables (snd (m s)) = tables s.

(** A computation that keeps an invariant of the tables, whatever it returns. *)
Definition preserves (P : T -> Prop) m : Prop :=
  forall s, P (tables s) -> P (tables (snd (m s))).

Lemma transaction_atomic m : atomic (transaction m).
Proof.
  intros s e s'. unfold transaction.
  destruct (m s) as [[a|e'] s1]; [destruct (next_fault (faults s1)) as [[] fs]|];
    naive_solver.
Qed.

Lemma stmt_atomic (f : T -> result E (A * T)) : atomic (stmt f).
Proof.
  intros s e s'. unfold stmt. destruct (next_fault (faults s)) as [[] fs].
  - naive_solver.
  - destruct (f (tables s)) as [[a t']|e']; naive_solver.
Qed.

Lemma throw_atomic e : atomic (throw e : M T E A).
Proof. by intros s e' s' [= _ <-]. Qed.

Lemma ret_atomic a : atomic (ret a : M T E A).
Proof. by intros s e' s' [=]. Qed.

Lemma query_readonly (f : T -> A) : readonly (query f).
Proof. intros s. unfold query, stmt. by destruct (next_fault (faults s)) as [[] fs]. Qed.

Lemma readonly_preserves P m : readonly m -> preserves P m.
Proof. intros Hr s HP. by rewrite Hr. Qed.

Lemma transaction_preserves P m :
  (forall s a s', P (tables s) -> m s = (Ok a, s') -> P (tables s')) ->
  preserves P (transaction m).
Proof.
  intros Hm s HP. unfold transaction.
  destruct (m s) as [[a|e] s1] eqn:Em; simpl; [|done].
  destruct (next_fault (faults s1)) as [[] fs]; simpl; eauto.
Qed.

Lemma bind_preserves P m (k : A -> M T E B) :
  preserves P m ->
  (forall a s, P (tables s) -> P (tables (snd (k a s)))) ->
  forall s, P (tables s) -> P (tables (snd (bind m k s))).
Proof.
  intros Hm Hk s HP. unfold bind. specialize (Hm s HP).
  destruct (m s) as [[a|e] s1]; simpl in *; eauto.
Qed.

Lemma transaction_ok m s a s' :
  transaction m s = (Ok a, s') ->
  exists s1, m s = (Ok a, s1) /\ tables s' = tables s1.
Proof.
  unfold transaction. destruct (m s) as [[a'|e] s1] eqn:Em; [|naive_solver].
  destruct (next_fault (faults s1)) as [[] fs]; intros [= <- <-]. eauto.
Qed.

Lemma stmt_ok (f : T -> result E (A * T)) s a s' :
  stmt f s = (Ok a, s') -> f (tables s) = Ok (a, tables s').
Proof.
  unfold stmt. destruct (next_fault (faults s)) as [[] fs]; [naive_solver|].
  destruct (f (tables s)) as [[a' t']|e']; naive_solver.
Qed.

Lemma query_ok (f : T -> A) s a s' :
  query f s = (Ok a, s') -> a = f (tables s) /\ tables s' = tables s.
Proof. intros H%stmt_ok. naive_solver. Qed.

Lemma bind_ok m (k : A -> M T E B) s b s' :
  bind m k s = (Ok b, s') ->
  exists a s1, m s = (Ok a, s1) /\ k a s1 = (Ok b, s').
Proof. unfold bind. destruct (m s) as [[a|e] s1]; naive_solver. Qed.

(** With a healthy database a statement or a transaction does what its body
    does. *)
Lemma stmt_healthy (f : T -> result E (A * T)) t :
  stmt f (mkStore t []) =
  match f t with
  | Ok (a, t') => (Ok a, mkStore t' [])
  | Err e => (Err e, mkStore t [])
  end.
Proof. reflexivity. Qed.
End Monad.

(** A healthy database stays healthy: no statement schedules a fault. *)
Definition healthy {T E A} (m : M T E A) : Prop :=
  forall s, faults s = [] -> faults (snd (m s)) = [].

Section Healthy.
Context {T E : Type} `{!DbError E}.

Lemma healthy_ret {A} (a : A) : healthy (ret a : M T E A).
Proof. by intros s. Qed.

Lemma healthy_throw {A} e : healthy (throw e : M T E A).
Proof. by intros s. Qed.

Lemma healthy_stmt {A} (f : T -> result E (A * T)) : healthy (stmt f).
Proof. intros [t fs] Hs. simpl in Hs. subst. unfold stmt. simpl. by destruct (f t) as [[]|]. Qed.

Lemma healthy_query {A} (f : T -> A) : healthy (query f : M T E A).
Proof. apply healthy_stmt. Qed.

Lemma healthy_bind {A B} (m : M T E A) (k : A -> M T E B) :
  healthy m -> (forall a, healthy (k a)) -> healthy (bind m k).
Proof.
  intros Hm Hk s Hs. unfold bind. specialize (Hm s Hs).
  destruct (m s) as [[a|e] s']; simpl in *; [by apply Hk|done].
Qed.

Lemma healthy_catch {A B} (m : M T E A) (k : result E A -> M T E B) :
  healthy m -> (forall a, healthy (k a)) -> healthy (catch m k).
Proof.
  intros Hm Hk s Hs. unfold catch. specialize (Hm s Hs).
  destruct (m s) as [r s']; simpl in *. by apply Hk.
Qed.

Lemma healthy_transaction {A} (m : M T E A) : healthy m -> healthy (transaction m).
Proof.
  intros Hm s Hs. unfold transaction. specialize (Hm s Hs).
  destruct (m s) as [[a|e] s']; simpl in *; [|done]. by rewrite Hm.
Qed.
End Healthy.

#[export] Hint Resolve healthy_ret healthy_throw healthy_stmt healthy_query healthy_bind
  healthy_catch healthy_transaction : hub.

(** Healthiness of a composed computation, branch by branch. *)
Ltac solve_healthy :=
  repeat first
    [ apply healthy_ret | apply healthy_throw | apply healthy_query | apply healthy_stmt
    | apply healthy_transaction
    | apply healthy_bind; [|intros ?] | apply healthy_catch; [|intros ?]
    | match goal with |- healthy (match ?x with _ => _ end) => destruct x end
    | progress intros ? ].

Section Preserves.
Context {T E : Type} `{!DbError E} (P : T -> Prop).

Lemma preserves_ret {A} (a : A) : preserves P (ret a : M T E A).
Proof. by intros s. Qed.

Lemma preserves_throw {A} e : preserves P (throw e : M T E A).
Proof. by intros s. Qed.

Lemma preserves_query {A} (f : T -> A) : preserves P (query f : M T E A).
Proof. apply readonly_preserves, query_readonly. Qed.

Lemma preserves_bind {A B} (m : M T E A) (k : A -> M T E B) :
  preserves P m -> (forall a, preserves P (k a)) -> preserves P (bind m k).
Proof. intros Hm Hk. exact (bind_preserves P m k Hm Hk). Qed.

Lemma preserves_catch {A B} (m : M T E A) (k : result E A -> M T E B) :
  preserves P m -> (forall r, preserves P (k r)) -> preserves P (catch m k).
Proof.
  intros Hm Hk s HP. unfold catch. specialize (Hm s HP). destruct (m s) as [r s']. by apply Hk.
Qed.

Lemma preserves_stmt {A} (f : T -> result E (A * T)) :
  (forall t a t', P t -> f t = Ok (a, t') -> P t') -> preserves P (stmt f).
Proof.
  intros Hf s HP. unfold stmt. destruct (next_fault (faults s)) as [[] fs]; [done|].
  destruct (f (tables s)) as [[a t']|e] eqn:Ef; [|done]. by apply (Hf (tables s) a t').
Qed.

Lemma preserves_transaction {A} (m : M T E A) : preserves P m -> preserves P (transaction m).
Proof.
  intros Hm. apply transaction_preserves. intros s a s' HP Hs. specialize (Hm s HP). by rewrite Hs in Hm.
Qed.
End Preserves.

(** Preservation by a composed computation, branch by branch, down to its statements. *)
Ltac solve_preserves :=
  repeat first
    [ apply preserves_ret | apply preserves_throw | apply preserves_query | apply preserves_transaction
    | apply preserves_bind; [|intros ?] | apply preserves_catch; [|intros ?]
    | match goal with |- preserves _ (match ?x with _ => _ end) => destruct x end ].

(** Open every bind of a successful computation. *)
Ltac open_ok :=
  repeat match goal with
  | H : bind _ _ _ = (Ok _, _) |- _ =>
      let a := fresh "a" in let s := fresh "s" in
      let H1 := fresh "Hm" in
      apply bind_ok in H as (a & s & H1 & H)
  | H : transaction _ _ = (Ok _, _) |- _ =>
      let s := fresh "s" in let Ht := fresh "Ht" in
      apply transaction_ok in H as (s & H & Ht)
  | H : query _ _ = (Ok _, _) |- _ =>
      let Ht := fresh "Ht" in apply query_ok in H as [-> Ht]
  | H : stmt _ _ = (Ok _, _) |- _ => apply stmt_ok in H
  | H : ret _ _ = (Ok _, _) |- _ => injection H as ? ?; subst
  | H : throw _ _ = (Ok _, _) |- _ => discriminate H
  end.

(** ** Lemmas on tables *)

Lemma elem_of_update_where {R} P (f : R -> R) rows r :
  r ∈ update_where P f rows <->
  exists r0, r0 ∈ rows /\ r = if P r0 then f r0 else r0.
Proof. unfold update_where. rewrite list_elem_of_fmap. naive_solver. Qed.

Lemma affected_0 {R} (P : R -> bool) rows :
  affected P rows = 0%nat -> forall r, r ∈ rows -> P r = false.
Proof.
  unfold affected. intros H%nil_length_inv r Hr.
  destruct (P r) eqn:E; [|done].
  assert (r ∈ List.filter P rows) as Hin.
  { rewrite list_elem_of_In, filter_In, <- list_elem_of_In. done. }
  rewrite H in Hin. set_solver.
Qed.

Lemma update_where_none {R} P (f : R -> R) rows :
  (forall r, r ∈ rows -> P r = false) -> update_where P f rows = rows.
Proof.
  intros H. unfold update_where. rewrite <- (list_fmap_id rows) at 2.
  apply list_fmap_ext. intros i r Hr. rewrite H; [done|]. by apply list_elem_of_lookup_2 in Hr.
Qed.

Lemma update_where_proj {R A} (g : R -> A) P (f : R -> R) rows :
  (forall r, g (f r) = g r) -> g <$> update_where P f rows = g <$> rows.
Proof.
  intros H. unfold update_where. rewrite <- list_fmap_compose. apply list_fmap_ext.
  intros i r _. unfold compose. case_match; congruence.
Qed.

Lemma first_where_some {R} (P : R -> bool) rows r :
  first_where P rows = Some r -> r ∈ rows /\ P r = true.
Proof.
  unfold first_where. intros H%find_some. by rewrite list_elem_of_In.
Qed.

Lemma first_where_none {R} (P : R -> bool) rows :
  first_where P rows = None -> forall r, r ∈ rows -> P r = false.
Proof.
  unfold first_where. intros H r Hr. apply find_none with (x := r) in H; [done|].
  by apply list_elem_of_In.
Qed.

Lemma affected_pos {R} (P : R -> bool) rows r :
  r ∈ rows -> P r = true -> affected P rows <> 0%nat.
Proof. intros Hr HP H0. rewrite (affected_0 P rows H0 r Hr) in HP. done. Qed.

Lemma affected_neq_0 {R} (P : R -> bool) rows :
  affected P rows <> 0%nat -> exists r, r ∈ rows /\ P r = true.
Proof.
  unfold affected. destruct (List.filter P rows) as [|r rs] eqn:E; [done|]. intros _.
  exists r. assert (In r (List.filter P rows)) as Hin by (rewrite E; by left).
  apply filter_In in Hin. by rewrite list_elem_of_In.
Qed.

Lemma NoDup_fmap_filter {R K} (key : R -> K) (P : R -> bool) rows :
  NoDup (key <$> rows) -> NoDup (key <$> List.filter P rows).
Proof.
  induction rows as [|r rows IH]; simpl; [done|]. intros [Hn Hnd]%NoDup_cons.
  case_match; [|auto]. simpl. apply NoDup_cons. split; [|auto].
  intros (q & Hq & Hin)%list_elem_of_fmap. apply Hn. rewrite Hq.
  apply list_elem_of_fmap_2. apply list_elem_of_In, filter_In in Hin as [Hin _].
  by apply list_elem_of_In.
Qed.

(** Two rows of a table that agree on a key are the same row. *)
Lemma NoDup_fmap_inj {R K} (key : R -> K) rows r1 r2 :
  NoDup (key <$> rows) -> r1 ∈ rows -> r2 ∈ rows -> key r1 = key r2 -> r1 = r2.
Proof.
  induction rows as [|r rows IH]; simpl; intros Hnd H1 H2 Hk; [set_solver|].
  apply NoDup_cons in Hnd as [Hn Hnd].
  apply elem_of_cons in H1 as [->|H1]; apply elem_of_cons in H2 as [->|H2]; auto.
  - destruct Hn. rewrite Hk. by apply list_elem_of_fmap_2.
  - destruct Hn. rewrite <- Hk. by apply list_elem_of_fmap_2.
Qed.

(** ** Lemmas on sums *)

Lemma sumZ_app {A} (f : A -> Z) l1 l2 : sumZ f (l1 ++ l2) = sumZ f l1 + sumZ f l2.
Proof. induction l1 as [|x l1 IH]; simpl in *; [done|]. rewrite IH. lia. Qed.

Lemma sumZ_ext {A} (f g : A -> Z) l :
  (forall x, x ∈ l -> f x = g x) -> sumZ f l = sumZ g l.
Proof.
  induction l as [|x l IH]; simpl; intros H; [done|].
  rewrite (H x), IH; set_solver.
Qed.

Lemma sumZ_nonneg {A} (f : A -> Z) l : (forall x, x ∈ l -> 0 <= f x) -> 0 <= sumZ f l.
Proof.
  induction l as [|x l IH]; simpl; intros H; [done|].
  assert (0 <= f x) by (apply H; set_solver).
  assert (0 <= sumZ f l) by (apply IH; set_solver). lia.
Qed.

Lemma mjoin_cons {A} (x : list A) (xs : list (list A)) : mjoin (x :: xs) = x ++ mjoin xs.
Proof. done. Qed.
