(* ===== verification/Wp.v ===== *)
(** * Weakest preconditions of the statement monad

    [wp m Q t]: run on the tables [t], whatever faults are scheduled, [m] ends with a
    result and tables that satisfy [Q].  One rule per combinator, and a tactic that
    walks through a handler with them. *)

From S2P Require Import Prelude.

Definition wp {T E A} (m : M T E A) (Q : result E A -> T -> Prop) (t : T) : Prop :=
  forall fs, Q (m (mkStore t fs)).1 (tables (m (mkStore t fs)).2).

Section Rules.
Context {T E : Type} `{!DbError E}.
Implicit Types t : T.

Lemma wp_run {A} (m : M T E A) Q s r s' : wp m Q (tables s) -> m s = (r, s') -> Q r (tables s').
Proof. intros Hw He. destruct s as [t fs]. specialize (Hw fs). cbn [tables] in Hw. by rewrite He in Hw. Qed.

Lemma wp_mono {A} (m : M T E A) (Q Q' : result E A -> T -> Prop) t :
  wp m Q t -> (forall r t', Q r t' -> Q' r t') -> wp m Q' t.
Proof. intros Hw HQ fs. apply HQ, Hw. Qed.

Lemma wp_ret {A} (a : A) (Q : result E A -> T -> Prop) t : Q (Ok a) t -> wp (ret a) Q t.
Proof. by intros HQ fs. Qed.

Lemma wp_throw {A} e (Q : result E A -> T -> Prop) t : Q (Err e) t -> wp (throw e) Q t.
Proof. by intros HQ fs. Qed.

Lemma wp_catch {A B} (m : M T E A) (k : result E A -> M T E B) Q t :
  wp m (fun r t' => wp (k r) Q t') t -> wp (catch m k) Q t.
Proof.
  intros Hw fs. specialize (Hw fs). unfold catch. destruct (m (mkStore t fs)) as [r [t' fs']]. apply Hw.
Qed.

Lemma wp_bind {A B} (m : M T E A) (k : A -> M T E B) Q t :
  wp m (fun r t' => match r with Ok a => wp (k a) Q t' | Err e => Q (Err e) t' end) t -> wp (bind m k) Q t.
Proof.
  intros Hw fs. specialize (Hw fs). unfold bind. destruct (m (mkStore t fs)) as [[a|e] [t' fs']]; apply Hw.
Qed.

Lemma wp_stmt {A} (f : T -> result E (A * T)) Q t :
  Q (Err db_error) t ->
  (match f t with Ok (a, t') => Q (Ok a) t' | Err e => Q (Err e) t end) -> wp (stmt f) Q t.
Proof.
  intros He Hf fs. unfold stmt. cbn. destruct (next_fault fs) as [[] fs']; [done|].
  by destruct (f t) as [[a t']|e].
Qed.

Lemma wp_query {A} (f : T -> A) (Q : result E A -> T -> Prop) t :
  Q (Err db_error) t -> Q (Ok (f t)) t -> wp (query f) Q t.
Proof. intros He Hf. by apply wp_stmt. Qed.

Lemma wp_transaction {A} (m : M T E A) Q t :
  Q (Err db_error) t ->
  wp m (fun r t' => match r with Ok a => Q (Ok a) t' | Err e => Q (Err e) t end) t ->
  wp (transaction m) Q t.
Proof.
  intros He Hw fs. specialize (Hw fs). unfold transaction.
  destruct (m (mkStore t fs)) as [[a|e] [t' fs']]; cbn in *; [|done].
  by destruct (next_fault fs') as [[] fs''].
Qed.

Lemma wp_preserves {A} (m : M T E A) (P : T -> Prop) :
  (forall t, P t -> wp m (fun _ => P) t) -> preserves P m.
Proof. intros Hw [t fs] HP. exact (Hw t HP fs). Qed.

Lemma preserves_wp {A} (m : M T E A) (P : T -> Prop) t : preserves P m -> P t -> wp m (fun _ => P) t.
Proof. intros Hp HP fs. by apply (Hp (mkStore t fs)). Qed.
End Rules.

(** One step through a computation. *)
Ltac wp_step :=
  match goal with
  | |- wp (ret _) _ _ => apply wp_ret
  | |- wp (throw _) _ _ => apply wp_throw
  | |- wp (bind _ _) _ _ => apply wp_bind
  | |- wp (catch _ _) _ _ => apply wp_catch
  | |- wp (query _) _ _ => apply wp_query
  | |- wp (stmt _) _ _ => apply wp_stmt
  | |- wp (transaction _) _ _ => apply wp_transaction
  | |- wp (match ?x with _ => _ end) _ _ => destruct x eqn:?
  end.

(** Use a lemma about a sub-computation. *)
Tactic Notation "wp_use" uconstr(L) "as" simple_intropattern(p) := eapply wp_mono; [apply L|cbn beta; intros ? ? p].
