(* ===== verification/GoStrings.v ===== *)
(** * Go strings

    A Go string is a sequence of bytes.  This file models what the sources use
    of packages [strings], [strconv] and [unicode/utf8]: prefixes and suffixes,
    substring search, [TrimSpace], [Atoi], and the decoding of a byte string
    into code points that [[]rune(s)], [utf8.RuneCountInString] and
    [utf8.ValidString] share.  It also holds the acceptance test of a
    PostgreSQL text column of bounded width. *)

From S2P Require Import Prelude.
From Stdlib Require Import Ascii.

#[local] Ltac Zify.zify_post_hook ::= Z.to_euclidean_division_equations.

Module GoStrings.

Definition byte_of (c : ascii) : Z := Z.of_nat (nat_of_ascii c).
Definition ascii_of (b : Z) : ascii := ascii_of_nat (Z.to_nat b).

Definition bytes (s : string) : list Z := byte_of <$> String.list_ascii_of_string s.
Definition of_bytes (bs : list Z) : string := String.string_of_list_ascii (ascii_of <$> bs).

(** ** Package strings *)

Definition HasPrefix (s p : string) : bool := String.prefix p s.

Fixpoint HasSuffix (s q : string) : bool :=
  String.eqb s q ||
  match s with
  | EmptyString => false
  | String _ s' => HasSuffix s' q
  end.

Fixpoint TrimSuffix (s q : string) : string :=
  if String.eqb s q then EmptyString
  else match s with
       | EmptyString => EmptyString
       | String c s' => String c (TrimSuffix s' q)
       end.

Fixpoint Contains (s sub : string) : bool :=
  String.prefix sub s ||
  match s with
  | EmptyString => false
  | String _ s' => Contains s' sub
  end.

Definition TrimPrefix (s p : string) : string :=
  if String.prefix p s then String.substring (String.length p) (String.length s - String.length p) s
  else s.

(** [strings.Split] at a one-byte separator: always at least one piece. *)
Fixpoint Split (s : string) (sep : ascii) : list string :=
  match s with
  | EmptyString => [EmptyString]
  | String c s' =>
      if Ascii.eqb c sep then EmptyString :: Split s' sep
      else match Split s' sep with
           | p :: ps => String c p :: ps
           | [] => [String c EmptyString]
           end
  end.

(** [strings.Trim] with a one-byte cutset. *)
Fixpoint TrimLeftByte (s : string) (c : ascii) : string :=
  match s with
  | EmptyString => EmptyString
  | String d s' => if Ascii.eqb d c then TrimLeftByte s' c else s
  end.

Fixpoint TrimRightByte (s : string) (c : ascii) : string :=
  match s with
  | EmptyString => EmptyString
  | String d s' =>
      match TrimRightByte s' c with
      | EmptyString => if Ascii.eqb d c then EmptyString else String d EmptyString
      | t => String d t
      end
  end.

Definition TrimByte (s : string) (c : ascii) : string := TrimRightByte (TrimLeftByte s c) c.

(** ** UTF-8 *)

Definition cont (b : Z) : bool := (128 <=? b) && (b <=? 191).
Definition RuneError : Z := 65533.

(** The first code point of a byte sequence and its width, when the sequence
    starts with a well-formed encoding. *)
Definition decode1 (bs : list Z) : option (Z * nat) :=
  match bs with
  | [] => None
  | b0 :: rest =>
      if b0 <? 128 then Some (b0, 1%nat)
      else if (194 <=? b0) && (b0 <=? 223) then
        match rest with
        | b1 :: _ =>
            if cont b1 then Some ((b0 - 192) * 64 + (b1 - 128), 2%nat) else None
        | _ => None
        end
      else if (224 <=? b0) && (b0 <=? 239) then
        match rest with
        | b1 :: b2 :: _ =>
            let lo := if b0 =? 224 then 160 else 128 in
            let hi := if b0 =? 237 then 159 else 191 in
            if (lo <=? b1) && (b1 <=? hi) && cont b2
            then Some ((b0 - 224) * 4096 + (b1 - 128) * 64 + (b2 - 128), 3%nat)
            else None
        | _ => None
        end
      else if (240 <=? b0) && (b0 <=? 244) then
        match rest with
        | b1 :: b2 :: b3 :: _ =>
            let lo := if b0 =? 240 then 144 else 128 in
            let hi := if b0 =? 244 then 143 else 191 in
            if (lo <=? b1) && (b1 <=? hi) && cont b2 && cont b3
            then Some ((b0 - 240) * 262144 + (b1 - 128) * 4096 + (b2 - 128) * 64 + (b3 - 128), 4%nat)
            else None
        | _ => None
        end
      else None
  end.

(** Decoding with fuel: every round consumes at least one byte, so the length
    of the input is enough.  A malformed byte decodes to [RuneError]; the flag
    records whether the whole input was well formed. *)
Fixpoint decode_all (fuel : nat) (bs : list Z) : list Z * bool :=
  match fuel, bs with
  | _, [] => ([], true)
  | O, _ => ([], false)
  | S fuel', _ :: rest =>
      match decode1 bs with
      | Some (r, k) =>
          let (rs, ok) := decode_all fuel' (drop k bs) in (r :: rs, ok)
      | None =>
          let (rs, _) := decode_all fuel' rest in (RuneError :: rs, false)
      end
  end.

Definition runes (s : string) : list Z :=
  fst (decode_all (length (bytes s)) (bytes s)).
Definition ValidString (s : string) : bool :=
  snd (decode_all (length (bytes s)) (bytes s)).
Definition RuneCountInString (s : string) : nat := length (runes s).

Definition encode1 (r : Z) : list Z :=
  if r <? 128 then [r]
  else if r <? 2048 then [192 + r / 64; 128 + r mod 64]
  else if r <? 65536 then [224 + r / 4096; 128 + (r / 64) mod 64; 128 + r mod 64]
  else [240 + r / 262144; 128 + (r / 4096) mod 64; 128 + (r / 64) mod 64; 128 + r mod 64].

(** [string(rs)]. *)
Definition string_of_runes (rs : list Z) : string := of_bytes (mjoin (encode1 <$> rs)).

(** Does the string contain a NUL byte? *)
Definition has_nul (s : string) : bool := existsb (fun b => b =? 0) (bytes s).

(** A PostgreSQL text column of width [w] stores [s]. *)
Definition pg_text_ok (w : nat) (s : string) : bool :=
  ValidString s && negb (has_nul s) && (RuneCountInString s <=? w)%nat.

(** [strings.ToLower] as a comparison with ASCII text observes it: the code points
    whose lower case is ASCII; every other one stays outside ASCII. *)
Definition lower_rune (r : Z) : Z :=
  if (65 <=? r) && (r <=? 90) then r + 32
  else if r =? 304 then 105 else if r =? 8490 then 107 else r.

Definition ToLower (s : string) : string := string_of_runes (lower_rune <$> runes s).

(** ** [strconv.Atoi] *)

Definition digit (b : Z) : option Z :=
  if (48 <=? b) && (b <=? 57) then Some (b - 48) else None.

Fixpoint digits_val (acc : Z) (bs : list Z) : option Z :=
  match bs with
  | [] => Some acc
  | b :: bs' => match digit b with
                | Some d => digits_val (acc * 10 + d) bs'
                | None => None
                end
  end.

(** [None] is an error: no digits, a non-digit, or a value out of range. *)
Definition Atoi (s : string) : option Z :=
  let go (neg : bool) (bs : list Z) :=
    match bs with
    | [] => None
    | _ => match digits_val 0 bs with
           | Some n =>
               let v := if neg then - n else n in
               if in64b v then Some v else None
           | None => None
           end
    end in
  match bytes s with
  | 43 :: bs => go false bs
  | 45 :: bs => go true bs
  | bs => go false bs
  end.

(** The value beside the error, for a caller that drops the error: 0 where a byte that is
    no digit comes first, the nearest end of the range where the number runs over before. *)
Fixpoint ParseUint_value (acc : Z) (bs : list Z) : option Z :=
  match bs with
  | [] => Some acc
  | b :: bs' => match digit b with
                | Some d => let n := acc * 10 + d in
                            if n >=? i64_modulus then Some (i64_modulus - 1) else ParseUint_value n bs'
                | None => None
                end
  end.

Definition Atoi_value (s : string) : Z :=
  let go (neg : bool) (bs : list Z) :=
    match bs with
    | [] => 0
    | _ => match ParseUint_value 0 bs with
           | Some n => sat64 (if neg then - n else n)
           | None => 0
           end
    end in
  match bytes s with
  | 43 :: bs => go false bs
  | 45 :: bs => go true bs
  | bs => go false bs
  end.

Example ex_Atoi_value :
  (Atoi_value "5", Atoi_value "-3", Atoi_value "x", Atoi_value "99999999999999999999", Atoi_value "-99999999999999999999", Atoi_value "9223372036854775808")
  = (5, -3, 0, i64_max, i64_min, i64_max).
Proof. vm_compute. reflexivity. Qed.

(** ** [strconv.Itoa] *)

(** The digits of a positive number, least significant first, before [acc]. *)
Fixpoint format_digits (fuel : nat) (n : Z) (acc : list Z) : list Z :=
  match fuel with
  | O => acc
  | S fuel' =>
      if n >? 0 then format_digits fuel' (Z.quot n 10) ((48 + Z.rem n 10) :: acc) else acc
  end.

Definition Itoa (n : Z) : string :=
  if n =? 0 then "0"
  else of_bytes ((if n <? 0 then [45] else []) ++ format_digits 20 (Z.abs n) []).

(** ** [strings.Cut] at a one-byte separator *)

Fixpoint Cut (s : string) (sep : ascii) : option (string * string) :=
  match s with
  | EmptyString => None
  | String c s' =>
      if Ascii.eqb c sep then Some (EmptyString, s')
      else match Cut s' sep with
           | Some (a, b) => Some (String c a, b)
           | None => None
           end
  end.

(** [strings.SplitN] at a one-byte separator, for a positive count. *)
Fixpoint SplitN (s : string) (sep : ascii) (n : nat) : list string :=
  match n with
  | O => []
  | S O => [s]
  | S n' =>
      match Cut s sep with
      | Some (a, b) => a :: SplitN b sep n'
      | None => [s]
      end
  end.

(** ** [strings.TrimSpace] *)

(** Unicode white space. *)
Definition is_space (r : Z) : bool :=
  ((9 <=? r) && (r <=? 13)) || (r =? 32) || (r =? 133) || (r =? 160) || (r =? 5760) ||
  ((8192 <=? r) && (r <=? 8202)) || (r =? 8232) || (r =? 8233) || (r =? 8239) ||
  (r =? 8287) || (r =? 12288).

(** Drop the leading white space of a byte sequence. *)
Fixpoint trim_left (fuel : nat) (bs : list Z) : list Z :=
  match fuel with
  | O => bs
  | S fuel' =>
      match decode1 bs with
      | Some (r, k) => if is_space r then trim_left fuel' (drop k bs) else bs
      | None => bs
      end
  end.

(** The last code point of a byte sequence: the well-formed encoding, of up to
    four bytes, that ends it. *)
Definition last_rune (bs : list Z) : option (Z * nat) :=
  let n := length bs in
  let try1 k := match decode1 (drop (n - k) bs) with
                | Some (r, k') => if (k' =? k)%nat && (k <=? n)%nat then Some (r, k) else None
                | None => None
                end in
  match try1 1%nat with
  | Some x => Some x
  | None => match try1 2%nat with
            | Some x => Some x
            | None => match try1 3%nat with
                      | Some x => Some x
                      | None => try1 4%nat
                      end
            end
  end.

Fixpoint trim_right (fuel : nat) (bs : list Z) : list Z :=
  match fuel with
  | O => bs
  | S fuel' =>
      match last_rune bs with
      | Some (r, k) =>
          if is_space r then trim_right fuel' (take (length bs - k) bs) else bs
      | None => bs
      end
  end.

Definition TrimSpace (s : string) : string :=
  let bs := bytes s in
  let l := trim_left (length bs) bs in
  of_bytes (trim_right (length l) l).

End GoStrings.

Section StringFacts.
Import GoStrings.

Lemma HasPrefix_spec s p : HasPrefix s p = true <-> exists q, s = (p +:+ q).
Proof.
  unfold HasPrefix. revert s. induction p as [|c p IH]; intros s; simpl.
  - split; [by eauto|by destruct s].
  - destruct s as [|c' s]; simpl; [split; [done|by intros [q Hq]]|].
    destruct (ascii_dec c c') as [->|Hne].
    + rewrite IH. split; intros [q Hq]; exists q; [by rewrite Hq|by injection Hq].
    + split; [done|]. intros [q Hq]. by injection Hq.
Qed.

Lemma HasSuffix_spec s q : HasSuffix s q = true <-> exists p, s = (p +:+ q).
Proof.
  induction s as [|c s IH]; cbn [HasSuffix]; rewrite orb_true_iff, String.eqb_eq.
  - split.
    + intros [<-|?]; [by exists ""|done].
    + intros [[|c p] Hp]; [by left|discriminate Hp].
  - rewrite IH. split.
    + intros [<-|[p ->]]; [by exists ""|by exists (String c p)].
    + intros [[|c' p] Hp]; [by left|]. injection Hp as <- ->. right. by exists p.
Qed.

Lemma string_app_length p q : String.length (p +:+ q) = (String.length p + String.length q)%nat.
Proof.
  induction p as [|c p IH]; [done|].
  change (S (String.length (p +:+ q)) = S (String.length p + String.length q)). by rewrite IH.
Qed.

Lemma string_app_assoc p q r : (p +:+ q) +:+ r = p +:+ (q +:+ r).
Proof. induction p as [|c p IH]; [done|]. exact (f_equal (String c) IH). Qed.

Lemma TrimSuffix_app p q : TrimSuffix (p +:+ q) q = p.
Proof.
  induction p as [|c p IH].
  - change ("" +:+ q) with q. destruct q; cbn [TrimSuffix]; by rewrite String.eqb_refl.
  - change (String c p +:+ q) with (String c (p +:+ q)). cbn [TrimSuffix]. destruct (String.eqb (String c (p +:+ q)) q) eqn:E; [|by rewrite IH].
    apply String.eqb_eq in E. apply (f_equal String.length) in E.
    change (S (String.length (p +:+ q)) = String.length q) in E.
    rewrite string_app_length in E. lia.
Qed.

Lemma Contains_spec s sub : Contains s sub = true <-> exists p q, s = (p +:+ sub +:+ q).
Proof.
  induction s as [|c s IH]; cbn [Contains]; rewrite orb_true_iff;
    change (String.prefix sub ?x) with (HasPrefix x sub); rewrite HasPrefix_spec.
  - split.
    + intros [[q ->]|?]; [by exists "", q|done].
    + intros ([|? p] & q & Hp); [left; eauto|discriminate Hp].
  - rewrite IH. split.
    + intros [[q ->]|(p & q & ->)]; [by exists "", q|by exists (String c p), q].
    + intros ([|c' p] & q & Hp); [left; eauto|]. injection Hp as <- ->. eauto.
Qed.

(** Scalar values: what a decoded code point can be. *)
Definition scalar (r : Z) : Prop := 0 <= r < 55296 \/ 57344 <= r < 1114112.

Definition is_byte (b : Z) : Prop := 0 <= b < 256.

Lemma byte_of_range c : is_byte (byte_of c).
Proof. unfold is_byte, byte_of. pose proof (nat_ascii_bounded c). lia. Qed.

Lemma bytes_range s : Forall is_byte (bytes s).
Proof. unfold bytes. apply Forall_fmap, Forall_true. intros c. apply byte_of_range. Qed.

Lemma bytes_of_bytes bs : Forall is_byte bs -> bytes (of_bytes bs) = bs.
Proof.
  intros H. unfold bytes, of_bytes. rewrite String.list_ascii_of_string_of_list_ascii.
  rewrite <- list_fmap_compose. rewrite <- (list_fmap_id bs) at 2.
  apply list_fmap_ext. intros i b Hb. unfold compose, byte_of, ascii_of.
  rewrite Forall_lookup in H. specialize (H i b Hb). unfold is_byte in H.
  rewrite nat_ascii_embedding; [simpl; lia|].
  apply Nat2Z.inj_lt. rewrite Z2Nat.id by lia. lia.
Qed.

Ltac decide_cmp :=
  repeat match goal with
  | |- context [?a =? ?b] => destruct (Z.eqb_spec a b); try lia
  end;
  repeat match goal with
  | |- context [?a <? ?b] => destruct (Z.ltb_spec a b); try lia
  | |- context [?a <=? ?b] => destruct (Z.leb_spec a b); try lia
  end; simpl.

Lemma encode1_bytes r : scalar r -> Forall is_byte (encode1 r).
Proof. unfold scalar, encode1, is_byte. intros H. decide_cmp; repeat constructor; lia. Qed.

Lemma decode1_encode1 r rest :
  scalar r -> decode1 (encode1 r ++ rest) = Some (r, length (encode1 r)).
Proof.
  intros H. unfold scalar in H. unfold encode1, decode1, cont.
  destruct (Z.ltb_spec r 128); simpl.
  { decide_cmp. reflexivity. }
  destruct (Z.ltb_spec r 2048); simpl.
  { decide_cmp; do 2 f_equal; lia. }
  destruct (Z.ltb_spec r 65536); simpl.
  { decide_cmp; do 2 f_equal; lia. }
  decide_cmp; do 2 f_equal; lia.
Qed.

Lemma decode1_scalar bs r k :
  Forall is_byte bs -> decode1 bs = Some (r, k) -> scalar r /\ (1 <= k <= length bs)%nat.
Proof.
  intros Hb. unfold decode1, cont, scalar.
  destruct bs as [|b0 bs]; [done|].
  apply Forall_cons in Hb as [H0 Hb]. unfold is_byte in H0.
  destruct (Z.ltb_spec b0 128); [intros [= <- <-]; simpl; lia|].
  repeat (case_match; simplify_eq; try done); bool_to_prop; intros [= <- <-]; simpl;
    repeat match goal with H : context [if ?x =? ?y then _ else _] |- _ =>
      destruct (Z.eqb_spec x y) end; lia.
Qed.

Lemma decode_all_encode rs :
  Forall scalar rs -> forall n, (length (mjoin (encode1 <$> rs)) <= n)%nat ->
  decode_all n (mjoin (encode1 <$> rs)) = (rs, true).
Proof.
  induction 1 as [|r rs Hr Hrs IH]; intros n Hn; [by destruct n|].
  change (mjoin (encode1 <$> r :: rs)) with (encode1 r ++ mjoin (encode1 <$> rs)) in *.
  rewrite length_app in Hn.
  pose proof (decode1_encode1 r (mjoin (encode1 <$> rs)) Hr) as Hd.
  assert (length (encode1 r) <> 0)%nat as Hne by (unfold encode1; repeat case_match; simpl; lia).
  destruct n as [|n]; [lia|].
  destruct (encode1 r ++ mjoin (encode1 <$> rs)) as [|b bs] eqn:E.
  { destruct (encode1 r); simpl in *; done. }
  cbn [decode_all]. rewrite Hd, <- E, drop_app_length, IH by lia. done.
Qed.

Lemma decode_all_scalar n bs :
  Forall is_byte bs -> Forall scalar (fst (decode_all n bs)).
Proof.
  revert bs. induction n as [|n IH]; intros bs Hb; destruct bs as [|b bs];
    try apply Forall_nil_2.
  cbn [decode_all]. apply Forall_cons in Hb as Hb'. destruct Hb' as [_ Hb'].
  destruct (decode1 (b :: bs)) as [[r k]|] eqn:E.
  - specialize (IH (drop k (b :: bs)) (Forall_drop _ _ _ Hb)).
    apply decode1_scalar in E as [Hr _]; [|done].
    destruct (decode_all n (drop k (b :: bs))). simpl in *. by constructor.
  - specialize (IH bs Hb'). destruct (decode_all n bs). simpl in *.
    constructor; [|done]. unfold scalar, RuneError. lia.
Qed.

Lemma runes_scalar s : Forall scalar (runes s).
Proof. apply decode_all_scalar, bytes_range. Qed.

Lemma bytes_of_runes rs :
  Forall scalar rs -> bytes (string_of_runes rs) = mjoin (encode1 <$> rs).
Proof.
  intros H. unfold string_of_runes. apply bytes_of_bytes.
  induction H as [|r rs Hr Hrs IH]; [apply Forall_nil_2|].
  change (mjoin (encode1 <$> r :: rs)) with (encode1 r ++ mjoin (encode1 <$> rs)).
  apply Forall_app. split; [by apply encode1_bytes|done].
Qed.

(** Encoding scalar values and decoding them again gives them back. *)
Lemma runes_of_runes rs :
  Forall scalar rs ->
  runes (string_of_runes rs) = rs /\ ValidString (string_of_runes rs) = true.
Proof.
  intros H. unfold runes, ValidString. rewrite bytes_of_runes by done.
  by rewrite decode_all_encode.
Qed.

(** A truncated string has at most the requested number of code points and is
    well formed. *)
Lemma truncate_runes n s :
  let s' := string_of_runes (take n (runes s)) in
  (RuneCountInString s' <= n)%nat /\ ValidString s' = true.
Proof.
  intros s'. destruct (runes_of_runes (take n (runes s))) as [H1 H2].
  { apply Forall_take, runes_scalar. }
  unfold RuneCountInString. subst s'. rewrite H1, length_take. split; [lia|done].
Qed.

(** ASCII text: every byte is a code point of its own. *)
Lemma decode_all_ascii bs n :
  Forall (fun b => 0 <= b < 128) bs -> (length bs <= n)%nat -> decode_all n bs = (bs, true).
Proof.
  revert n. induction bs as [|b bs IH]; intros n Hb Hn; [by destruct n|].
  apply Forall_cons in Hb as [Hb Hbs]. destruct n as [|n]; simpl in *; [lia|].
  rewrite (proj2 (Z.ltb_lt b 128)) by lia. simpl. by rewrite IH by (done || lia).
Qed.

Lemma ascii_text_ok w bs :
  Forall (fun b => 0 < b < 128) bs -> (length bs <= w)%nat -> pg_text_ok w (of_bytes bs) = true.
Proof.
  intros Hb Hw. unfold pg_text_ok, ValidString, has_nul, RuneCountInString, runes.
  rewrite bytes_of_bytes by (eapply Forall_impl; [done|]; unfold is_byte; simpl; lia).
  rewrite decode_all_ascii; [|eapply Forall_impl; [done|]; simpl; lia|done]. simpl.
  rewrite (proj2 (Nat.leb_le _ _)) by done. rewrite andb_true_r, negb_true_iff.
  apply not_true_iff_false. intros (b & Hin & H0)%existsb_exists.
  rewrite Forall_forall in Hb. apply list_elem_of_In, Hb in Hin. bool_to_prop. lia.
Qed.

Lemma Atoi_range s n : Atoi s = Some n -> in64 n.
Proof.
  unfold Atoi. intros H.
  repeat (case_match; simplify_eq; try done); by apply in64b_spec.
Qed.

Lemma format_digits_val fuel n acc :
  0 <= n < 10 ^ Z.of_nat fuel ->
  digits_val 0 (format_digits fuel n acc) = digits_val n acc.
Proof.
  revert n acc. induction fuel as [|fuel IH]; intros n acc Hn.
  { simpl. change (10 ^ Z.of_nat 0) with 1 in Hn. by replace n with 0 by lia. }
  rewrite Nat2Z.inj_succ, Z.pow_succ_r in Hn by lia. simpl. rewrite Z.gtb_ltb.
  destruct (Z.ltb_spec 0 n); [|by replace n with 0 by lia].
  rewrite Z.quot_div_nonneg, Z.rem_mod_nonneg by lia.
  rewrite IH by (split; [apply Z.div_pos; lia|apply Z.div_lt_upper_bound; lia]).
  pose proof (Z.mod_pos_bound n 10 ltac:(lia)). cbn [digits_val].
  unfold digit. rewrite !(proj2 (Z.leb_le _ _)) by lia. simpl. f_equal.
  pose proof (Z.div_mod n 10 ltac:(lia)). lia.
Qed.

Lemma format_digits_bytes fuel n acc :
  Forall is_byte acc -> 0 <= n -> Forall is_byte (format_digits fuel n acc).
Proof.
  revert n acc. induction fuel as [|fuel IH]; intros n acc Hacc Hn; simpl; [done|].
  rewrite Z.gtb_ltb. destruct (Z.ltb_spec 0 n); [|done]. apply IH; [|apply Z.quot_pos; lia].
  constructor; [|done]. rewrite Z.rem_mod_nonneg by lia.
  pose proof (Z.mod_pos_bound n 10 ltac:(lia)). unfold is_byte. lia.
Qed.

Lemma format_digits_head n :
  0 < n < 10 ^ 20 -> exists d ds, format_digits 20 n [] = d :: ds /\ 48 <= d <= 57.
Proof.
  intros Hn. pose proof (format_digits_val 20 n [] ltac:(simpl; lia)) as Hv.
  destruct (format_digits 20 n []) as [|d ds]; simpl in Hv; [injection Hv; lia|].
  exists d, ds. split; [done|]. unfold digit in Hv.
  destruct ((48 <=? d) && (d <=? 57)) eqn:E; [|done]. bool_to_prop. lia.
Qed.

Lemma format_digits_digit fuel n acc d :
  0 <= n -> d ∈ format_digits fuel n acc -> 48 <= d <= 57 \/ d ∈ acc.
Proof.
  revert n acc. induction fuel as [|fuel IH]; intros n acc Hn; cbn; [by right|].
  destruct (Z.gtb_spec n 0); [|by right]. intros [Hd|[-> |Hd]%elem_of_cons]%IH; [by left| |by right|apply Z.quot_pos; lia].
  left. rewrite Z.rem_mod_nonneg by lia. pose proof (Z.mod_pos_bound n 10 ltac:(lia)). lia.
Qed.

Lemma Atoi_signed n : n <> 0 -> in64 n ->
  Atoi (of_bytes ((if n <? 0 then [45] else []) ++ format_digits 20 (Z.abs n) [])) = Some n.
Proof.
  intros H0 Hn. set (m := Z.abs n). assert (Hr : 0 < m < 10 ^ 20) by (unfold m; unfold64; lia).
  destruct (format_digits_head m Hr) as (d & ds & Hds & Hd).
  pose proof (format_digits_val 20 m [] ltac:(simpl; lia)) as Hv.
  pose proof (format_digits_bytes 20 m [] (List.Forall_nil _) ltac:(lia)) as Hb.
  rewrite Hds in *. unfold Atoi.
  rewrite bytes_of_bytes by (destruct (n <? 0); [constructor; [unfold is_byte; lia|done]|done]).
  destruct (Z.ltb_spec n 0); cbn [app].
  - rewrite Hv. simpl. replace (- m) with n by (unfold m; lia). by rewrite (proj2 (in64b_spec n)).
  - assert (d = 48 \/ d = 49 \/ d = 50 \/ d = 51 \/ d = 52 \/ d = 53 \/ d = 54 \/ d = 55 \/
            d = 56 \/ d = 57) as Hc by lia.
    assert (Hin : in64b m = true) by (apply in64b_spec; unfold m; unfold64; lia).
    replace n with m by (unfold m; lia).
    destruct Hc as [-> |[-> |[-> |[-> |[-> |[-> |[-> |[-> |[-> | ->]]]]]]]]];
      cbn iota; rewrite Hv; cbn [digits_val]; by rewrite Hin.
Qed.

Lemma Atoi_Itoa n : in64 n -> Atoi (Itoa n) = Some n.
Proof.
  intros Hn. unfold Itoa. destruct (Z.eqb_spec n 0) as [-> |H0]; [vm_compute; reflexivity|]. by apply Atoi_signed.
Qed.

Lemma Itoa_inj n m : in64 n -> in64 m -> Itoa n = Itoa m -> n = m.
Proof. intros Hn Hm H. apply Atoi_Itoa in Hn, Hm. congruence. Qed.

(** A number's text has none of the separators it is joined with. *)
Definition lacks (sep : ascii) (s : string) : Prop := sep ∉ String.list_ascii_of_string s.

Lemma Itoa_lacks_sep n sep :
  byte_of sep <> 45 \/ 0 <= n -> (byte_of sep < 48 \/ 57 < byte_of sep) -> lacks sep (Itoa n).
Proof.
  intros H1 H2 Hin. assert (Hb : byte_of sep ∈ bytes (Itoa n)) by by apply list_elem_of_fmap_2. clear Hin.
  unfold Itoa in Hb. destruct (n =? 0).
  - change (bytes "0") with [48] in Hb. apply list_elem_of_singleton in Hb. lia.
  - rewrite bytes_of_bytes in Hb.
    + apply elem_of_app in Hb as [Hb|Hb].
      * destruct (Z.ltb_spec n 0); [apply list_elem_of_singleton in Hb; lia|set_solver].
      * apply format_digits_digit in Hb as [Hb|Hb]; [lia|set_solver|lia].
    + apply Forall_app. split; [by destruct (n <? 0); repeat constructor; unfold is_byte; lia|].
      by apply format_digits_bytes; [|lia].
Qed.

Lemma Itoa_lacks n sep : byte_of sep <> 45 -> (byte_of sep < 48 \/ 57 < byte_of sep) -> lacks sep (Itoa n).
Proof. intros H. apply Itoa_lacks_sep. by left. Qed.

Lemma Cut_app sep a b : lacks sep a -> Cut (a +:+ String sep b) sep = Some (a, b).
Proof.
  unfold lacks. induction a as [|c a IH]; intros H.
  - change (EmptyString +:+ String sep b) with (String sep b). cbn [Cut]. by rewrite Ascii.eqb_refl.
  - change (String c a +:+ String sep b) with (String c (a +:+ String sep b)). cbn [Cut].
    apply not_elem_of_cons in H as [Hc Ha]. destruct (Ascii.eqb_spec c sep); [congruence|]. by rewrite IH.
Qed.

Lemma Split_lacks sep s : lacks sep s -> Split s sep = [s].
Proof.
  unfold lacks. induction s as [|c s IH]; cbn [Split]; intros H; [done|].
  apply not_elem_of_cons in H as [Hc Hs]. destruct (Ascii.eqb_spec c sep); [congruence|]. by rewrite IH.
Qed.

Lemma Split_app sep a b : lacks sep a -> Split (a +:+ String sep b) sep = a :: Split b sep.
Proof.
  unfold lacks. induction a as [|c a IH]; intros H.
  - change (EmptyString +:+ String sep b) with (String sep b). cbn [Split]. by rewrite Ascii.eqb_refl.
  - change (String c a +:+ String sep b) with (String c (a +:+ String sep b)). cbn [Split].
    apply not_elem_of_cons in H as [Hc Ha]. destruct (Ascii.eqb_spec c sep); [congruence|]. by rewrite IH.
Qed.

Lemma TrimPrefix_app p s : TrimPrefix (p +:+ s) p = s.
Proof.
  unfold TrimPrefix.
  assert (Hp : String.prefix p (p +:+ s) = true) by (apply (HasPrefix_spec (p +:+ s) p); eauto).
  rewrite Hp, string_app_length. replace (String.length p + String.length s - String.length p)%nat with (String.length s) by lia.
  clear Hp. induction p as [|c p IH]; [|exact IH].
  change (EmptyString +:+ s) with s. cbn [String.length].
  induction s as [|c s IH]; [done|]. cbn. by rewrite IH.
Qed.
End StringFacts.
