(* ===== verification/Sha256.v ===== *)
(** * SHA-256 and hexadecimal encoding

    Model of what the sources use of [crypto/sha256] and [encoding/hex]: the
    digest of a byte string (FIPS 180-4) and its lower-case hexadecimal form.
    Words are integers below [2^32]; additions wrap. *)

From S2P Require Import Prelude GoStrings.

Module Sha256.
Import GoStrings.

Definition w32 (z : Z) : Z := Z.land z 4294967295.
Definition rotr (n x : Z) : Z := Z.lor (Z.shiftr x n) (w32 (Z.shiftl x (32 - n))).

Definition K : list Z :=
  [1116352408; 1899447441; 3049323471; 3921009573; 961987163; 1508970993; 2453635748; 
2870763221; 3624381080; 310598401; 607225278; 1426881987; 1925078388; 2162078206; 2614888103; 
3248222580; 3835390401; 4022224774; 264347078; 604807628; 770255983; 1249150122; 1555081692; 
1996064986; 2554220882; 2821834349; 2952996808; 3210313671; 3336571891; 3584528711; 113926993; 
338241895; 666307205; 773529912; 1294757372; 1396182291; 1695183700; 1986661051; 2177026350; 
2456956037; 2730485921; 2820302411; 3259730800; 3345764771; 3516065817; 3600352804; 
4094571909; 275423344; 430227734; 506948616; 659060556; 883997877; 958139571; 1322822218; 
1537002063; 1747873779; 1955562222; 2024104815; 2227730452; 2361852424; 2428436474; 
2756734187; 3204031479; 3329325298].

Definition H0 : list Z :=
  [1779033703; 3144134277; 1013904242; 2773480762; 1359893119; 2600822924; 528734635; 
1541459225].

Definition Ch (x y z : Z) : Z := Z.lxor (Z.land x y) (Z.land (Z.lxor x 4294967295) z).
Definition Maj (x y z : Z) : Z := Z.lxor (Z.lxor (Z.land x y) (Z.land x z)) (Z.land y z).
Definition Sigma0 (x : Z) : Z := Z.lxor (Z.lxor (rotr 2 x) (rotr 13 x)) (rotr 22 x).
Definition Sigma1 (x : Z) : Z := Z.lxor (Z.lxor (rotr 6 x) (rotr 11 x)) (rotr 25 x).
Definition sigma0 (x : Z) : Z := Z.lxor (Z.lxor (rotr 7 x) (rotr 18 x)) (Z.shiftr x 3).
Definition sigma1 (x : Z) : Z := Z.lxor (Z.lxor (rotr 17 x) (rotr 19 x)) (Z.shiftr x 10).

(** A 32-bit word as its four big-endian bytes, and back. *)
Definition be32 (w : Z) : list Z :=
  [Z.land (Z.shiftr w 24) 255; Z.land (Z.shiftr w 16) 255; Z.land (Z.shiftr w 8) 255;
   Z.land w 255].

Fixpoint words (bs : list Z) : list Z :=
  match bs with
  | a :: b :: c :: d :: bs' =>
      (Z.shiftl a 24 + Z.shiftl b 16 + Z.shiftl c 8 + d) :: words bs'
  | _ => []
  end.

(** The message, a one bit, zeros up to 56 modulo 64, and the bit length. *)
Definition pad (bs : list Z) : list Z :=
  let n := Z.of_nat (length bs) in
  let zeros := (55 - n) mod 64 in
  bs ++ [128] ++ replicate (Z.to_nat zeros) 0 ++
  be32 (w32 (Z.shiftr (8 * n) 32)) ++ be32 (w32 (8 * n)).

(** The message schedule: sixteen words extended to sixty-four, kept in reverse. *)
Fixpoint extend (n : nat) (rev_ws : list Z) : list Z :=
  match n with
  | O => rev_ws
  | S n' =>
      let at_ i := nth i rev_ws 0 in
      extend n' (w32 (sigma1 (at_ 1%nat) + at_ 6%nat + sigma0 (at_ 14%nat) + at_ 15%nat) :: rev_ws)
  end.

Definition round (st : list Z) (kw : Z * Z) : list Z :=
  match st with
  | [a; b; c; d; e; f; g; h] =>
      let t1 := h + Sigma1 e + Ch e f g + fst kw + snd kw in
      let t2 := Sigma0 a + Maj a b c in
      [w32 (t1 + t2); a; b; c; w32 (d + t1); e; f; g]
  | _ => st
  end.

Definition compress (st : list Z) (block : list Z) : list Z :=
  let ws := rev (extend 48 (rev block)) in
  zip_with (fun x y => w32 (x + y)) st (foldl round st (zip K ws)).

Fixpoint blocks (n : nat) (ws : list Z) : list (list Z) :=
  match n with
  | O => []
  | S n' => take 16 ws :: blocks n' (drop 16 ws)
  end.

Definition sha256 (bs : list Z) : list Z :=
  let ws := words (pad bs) in
  mjoin (be32 <$> foldl compress H0 (blocks (length ws / 16) ws)).

(** ** [hex.EncodeToString] *)

Definition hexdigit (n : Z) : Z := if n <? 10 then 48 + n else 87 + n.
Definition hex (bs : list Z) : list Z :=
  mjoin ((fun b => [hexdigit (Z.shiftr b 4); hexdigit (Z.land b 15)]) <$> bs).
Definition EncodeToString (bs : list Z) : string := of_bytes (hex bs).

End Sha256.

Section Sha256Facts.
Import GoStrings Sha256.

(** The published test vectors. *)
Example sha256_empty :
  EncodeToString (sha256 []) =
  "e3b0c44298fc1c149afbf4c8996fb92427ae41e4649b934ca495991b7852b855".
Proof. vm_compute. reflexivity. Qed.

Example sha256_abc :
  EncodeToString (sha256 (bytes "abc")) =
  "ba7816bf8f01cfea414140de5dae2223b00361a396177a9cb410ff61f20015ad".
Proof. vm_compute. reflexivity. Qed.

Example sha256_two_blocks :
  EncodeToString (sha256 (bytes "abcdbcdecdefdefgefghfghighijhijkijkljklmklmnlmnomnopnopq")) =
  "248d6a61d20638b8e5c026930c3e6039a33ce45964ff2167f6ecedd419db06c1".
Proof. vm_compute. reflexivity. Qed.

Lemma be32_bytes w : Forall is_byte (be32 w).
Proof.
  unfold be32. repeat apply List.Forall_cons; try apply List.Forall_nil; unfold is_byte;
    change 255 with (Z.ones 8); rewrite Z.land_ones by lia;
    change (2 ^ 8) with 256; apply Z.mod_pos_bound; lia.
Qed.

(** Every block keeps eight state words, so that the digest has 32 bytes. *)
Lemma round_length st kw : length (round st kw) = length st.
Proof. unfold round. repeat case_match; done. Qed.

Lemma rounds_length kws st : length (foldl round st kws) = length st.
Proof. revert st. induction kws as [|kw kws IH]; intros st; simpl; [done|]. by rewrite IH, round_length. Qed.

Lemma compress_length st block : length (compress st block) = length st.
Proof. unfold compress. rewrite length_zip_with, rounds_length. lia. Qed.

Lemma compressed_length bls st : length (foldl compress st bls) = length st.
Proof. revert st. induction bls as [|b bls IH]; intros st; simpl; [done|]. by rewrite IH, compress_length. Qed.

Lemma joined_length st : length (mjoin (be32 <$> st)) = (4 * length st)%nat.
Proof.
  induction st as [|w st IH]; [done|]. rewrite fmap_cons, mjoin_cons, length_app, IH.
  simpl. lia.
Qed.

Lemma joined_bytes st : Forall is_byte (mjoin (be32 <$> st)).
Proof.
  induction st as [|w st IH]; [constructor|]. rewrite fmap_cons, mjoin_cons. apply Forall_app. split; [apply be32_bytes|done].
Qed.

Lemma sha256_length bs : length (sha256 bs) = 32%nat.
Proof. unfold sha256. by rewrite joined_length, compressed_length. Qed.

Lemma sha256_bytes bs : Forall is_byte (sha256 bs).
Proof. apply joined_bytes. Qed.

(** Hexadecimal text is printable ASCII, two digits per byte. *)
Lemma hexdigit_ascii n : 0 <= n < 16 -> 48 <= hexdigit n <= 102.
Proof. unfold hexdigit. case_match; bool_to_prop; lia. Qed.

Lemma hex_length bs : length (hex bs) = (2 * length bs)%nat.
Proof.
  unfold hex. induction bs as [|b bs IH]; [done|]. rewrite fmap_cons, mjoin_cons, length_app, IH.
  simpl. lia.
Qed.

Lemma hex_ascii bs : Forall is_byte bs -> Forall (fun b => 48 <= b <= 102) (hex bs).
Proof.
  unfold hex. induction 1 as [|b bs Hb _ IH]; [constructor|].
  rewrite fmap_cons, mjoin_cons. simpl. unfold is_byte in Hb. constructor; [|constructor; [|done]]; apply hexdigit_ascii.
  - rewrite Z.shiftr_div_pow2 by lia. change (2 ^ 4) with 16.
    split; [apply Z.div_pos; lia|apply Z.div_lt_upper_bound; lia].
  - change 15 with (Z.ones 4). rewrite Z.land_ones by lia. apply Z.mod_pos_bound. lia.
Qed.
End Sha256Facts.
