(* ===== verification/Calendar.v ===== *)
(** * The proleptic Gregorian calendar, as package [time] computes it

    The billing code schedules by calendar: credit pools are refilled at the
    next UTC midnight, Monday or first of the month, quota windows close at the
    first of the next month.  This file models what those computations use of
    Go's package [time] ([Year], [Month], [Day], [Weekday], [Date] with its
    normalisation) on day numbers counted from January 1, year 1, and proves
    the two directions of the correspondence between day numbers and dates. *)

From S2P Require Import Prelude.

(** Let [lia] see quotients and remainders. *)
#[local] Ltac Zify.zify_post_hook ::= Z.to_euclidean_division_equations.

Module Calendar.

Definition day_ns : Z := 24 * hour.

(** The day number of an instant, in UTC. *)
Definition day_of (t : Z) : Z := t / day_ns.

Definition isLeap (y : Z) : bool :=
  (y mod 4 =? 0) && (negb (y mod 100 =? 0) || (y mod 400 =? 0)).

Definition leap_day (y : Z) : Z := if isLeap y then 1 else 0.

(** Cycle decomposition of a day number: 400, 100, 4 and 1 years. *)
Definition n400 (z : Z) : Z := z / 146097.
Definition r400 (z : Z) : Z := z mod 146097.
Definition n100 (z : Z) : Z := let n := r400 z / 36524 in n - n / 4.
Definition r100 (z : Z) : Z := r400 z - 36524 * n100 z.
Definition n4 (z : Z) : Z := r100 z / 1461.
Definition r4 (z : Z) : Z := r100 z - 1461 * n4 z.
Definition n1 (z : Z) : Z := let n := r4 z / 365 in n - n / 4.

Definition year (z : Z) : Z := 400 * n400 z + 100 * n100 z + 4 * n4 z + n1 z + 1.
Definition yday (z : Z) : Z := r4 z - 365 * n1 z.

(** Days of a common year before the first day of the [i]-th month (from 0). *)
Definition daysBefore (i : Z) : Z :=
  match i with
  | 0 => 0 | 1 => 31 | 2 => 59 | 3 => 90 | 4 => 120 | 5 => 151 | 6 => 181
  | 7 => 212 | 8 => 243 | 9 => 273 | 10 => 304 | 11 => 334 | _ => 365
  end.

(** Month (1 to 12) and day of the month of a day of the year. *)
Definition month_day (leap : bool) (yd : Z) : Z * Z :=
  if leap && (yd =? 31 + 29 - 1) then (2, 29)
  else
    let d := if leap && (yd >? 31 + 29 - 1) then yd - 1 else yd in
    let m := d / 31 in
    if d >=? daysBefore (m + 1)
    then (m + 2, d - daysBefore (m + 1) + 1)
    else (m + 1, d - daysBefore m + 1).

Definition month (z : Z) : Z := fst (month_day (isLeap (year z)) (yday z)).
Definition mday (z : Z) : Z := snd (month_day (isLeap (year z)) (yday z)).

(** Sunday is 0; day 0 was a Monday. *)
Definition Weekday (z : Z) : Z := (z + 1) mod 7.

(** Days before January 1 of year [y]. *)
Definition days_before_year (y : Z) : Z :=
  365 * (y - 1) + (y - 1) / 4 - (y - 1) / 100 + (y - 1) / 400.

(** Days of the year before the first day of month [m] (1 to 12). *)
Definition days_before_month (leap : bool) (m : Z) : Z :=
  daysBefore (m - 1) + (if leap && (m >=? 3) then 1 else 0).

(** [time.Date(y, m, d, 0, 0, 0, 0, time.UTC)] as a day number: the month is
    normalised into the year, the day may be out of its month's range. *)
Definition Date (y m d : Z) : Z :=
  let y' := y + (m - 1) / 12 in
  let m' := (m - 1) mod 12 + 1 in
  days_before_year y' + days_before_month (isLeap y') m' + (d - 1).

(** The instant at midnight UTC of a day number. *)
Definition midnight (z : Z) : Z := z * day_ns.

End Calendar.

Section CalendarFacts.
Import Calendar.

Lemma day_ns_pos : 0 < day_ns.
Proof. reflexivity. Qed.

Ltac cycles :=
  unfold year, yday, n1, r4, n4, r100, n100, r400, n400, days_before_year in *.

Lemma cycle_bounds z :
  0 <= n100 z <= 3 /\ 0 <= n4 z <= 24 /\ 0 <= n1 z <= 3 /\
  0 <= r100 z /\ 0 <= r4 z <= 1460 /\ 0 <= yday z <= 365.
Proof.
  assert (0 <= r400 z < 146097) as H0 by (unfold r400; lia).
  assert (0 <= n100 z <= 3) as H1 by (unfold n100; lia).
  assert (0 <= r100 z <= 36524) as H2 by (unfold r100, n100; lia).
  assert (0 <= n4 z <= 24) as H3 by (unfold n4; lia).
  assert (0 <= r4 z <= 1460) as H4 by (unfold r4, n4; lia).
  assert (0 <= n1 z <= 3) as H5 by (unfold n1; lia).
  assert (0 <= yday z <= 365) as H6 by (unfold yday, n1; lia).
  lia.
Qed.

Lemma year_yday z : days_before_year (year z) + yday z = z.
Proof.
  pose proof (cycle_bounds z) as Hb.
  assert (z = 146097 * n400 z + r400 z) as Hz by (unfold n400, r400; lia).
  unfold yday, r4, r100 in *. unfold days_before_year, year.
  set (a := n400 z) in *. set (b := n100 z) in *. set (c := n4 z) in *. set (e := n1 z) in *.
  replace (400 * a + 100 * b + 4 * c + e + 1 - 1) with (400 * a + 100 * b + 4 * c + e) by lia.
  lia.
Qed.

Lemma isLeap_cases y :
  isLeap y = true <-> y mod 4 = 0 /\ (y mod 100 <> 0 \/ y mod 400 = 0).
Proof.
  unfold isLeap. rewrite andb_true_iff, orb_true_iff, negb_true_iff, !Z.eqb_eq, Z.eqb_neq.
  tauto.
Qed.

Lemma year_length y :
  days_before_year (y + 1) = days_before_year y + 365 + leap_day y.
Proof.
  unfold days_before_year, leap_day. replace (y + 1 - 1) with y by lia.
  destruct (isLeap y) eqn:E.
  - apply isLeap_cases in E. lia.
  - assert (~ (y mod 4 = 0 /\ (y mod 100 <> 0 \/ y mod 400 = 0))) as H.
    { rewrite <- isLeap_cases. congruence. }
    lia.
Qed.

Lemma leap_day_range y : 0 <= leap_day y <= 1.
Proof. unfold leap_day. case_match; lia. Qed.

Lemma days_before_year_mono y y' :
  y <= y' -> days_before_year y <= days_before_year y'.
Proof. unfold days_before_year. intros H. lia. Qed.

Lemma yday_bound z : 0 <= yday z < 365 + leap_day (year z).
Proof.
  pose proof (cycle_bounds z) as (Hb & Hc & He & Hr100 & Hr4 & Hy).
  split; [lia|]. unfold leap_day. destruct (isLeap (year z)) eqn:E; [lia|].
  assert (~ (year z mod 4 = 0 /\ (year z mod 100 <> 0 \/ year z mod 400 = 0))) as H.
  { rewrite <- isLeap_cases. congruence. }
  unfold year in H.
  assert (n1 z = 3 -> n4 z = 24 /\ n100 z <> 3) as H3.
  { intros E3. rewrite E3 in H. lia. }
  destruct (decide (n1 z = 3)) as [E3|E3].
  - destruct (H3 E3) as [E4 E100].
    revert E3 E4 E100. cycles. lia.
  - revert E3. cycles. lia.
Qed.

(** The year and day of the year are the only decomposition of a day number. *)
Lemma year_unique y yd :
  0 <= yd < 365 + leap_day y ->
  year (days_before_year y + yd) = y /\ yday (days_before_year y + yd) = yd.
Proof.
  intros Hyd. set (z := days_before_year y + yd).
  pose proof (year_yday z) as Hz. pose proof (yday_bound z) as Hb.
  assert (year z = y) as Hy.
  { pose proof (year_length y). pose proof (year_length (year z)).
    destruct (Z.lt_trichotomy (year z) y) as [Hlt|[Heq|Hgt]]; [|done|].
    - pose proof (days_before_year_mono (year z + 1) y ltac:(lia)). lia.
    - pose proof (days_before_year_mono (y + 1) (year z) ltac:(lia)). lia. }
  split; [done|]. rewrite Hy in *. lia.
Qed.

Definition days_in (leap : bool) (m : Z) : Z :=
  days_before_month leap (m + 1) - days_before_month leap m.

(** The tables agree: every day of the year lies in the month it is mapped to. *)
Definition month_table_ok (leap : bool) (yd : Z) : bool :=
  let (m, d) := month_day leap yd in
  (1 <=? m) && (m <=? 12) && (1 <=? d) && (d <=? days_in leap m) &&
  (days_before_month leap m + d - 1 =? yd).

Lemma month_table (leap : bool) :
  forallb (month_table_ok leap) (seqZ 0 (if leap then 366 else 365)) = true.
Proof. destruct leap; vm_compute; reflexivity. Qed.

Lemma month_day_spec (leap : bool) yd :
  0 <= yd < 365 + (if leap then 1 else 0) ->
  let (m, d) := month_day leap yd in
  1 <= m <= 12 /\ 1 <= d <= days_in leap m /\ days_before_month leap m + d - 1 = yd.
Proof.
  intros H. pose proof (month_table leap) as Ht. rewrite forallb_forall in Ht.
  specialize (Ht yd). rewrite <- list_elem_of_In, elem_of_seqZ in Ht.
  specialize (Ht ltac:(destruct leap; lia)). unfold month_table_ok in Ht.
  destruct (month_day leap yd) as [m d]. bool_to_prop. lia.
Qed.

(** The months of a year are disjoint. *)
Definition month_starts_ok (leap : bool) : bool :=
  forallb (fun m => (0 <? days_in leap m) && (days_in leap m <=? 31) &&
    forallb (fun m' => days_before_month leap (m + 1) <=? days_before_month leap m')
      (seqZ (m + 1) (12 - m))) (seqZ 1 12).

Lemma month_starts leap m m' :
  1 <= m <= 12 -> m < m' <= 12 ->
  days_before_month leap (m + 1) <= days_before_month leap m'.
Proof.
  intros Hm Hm'. assert (month_starts_ok leap = true) as H by (destruct leap; reflexivity).
  unfold month_starts_ok in H. rewrite forallb_forall in H.
  specialize (H m). rewrite <- list_elem_of_In, elem_of_seqZ in H.
  specialize (H ltac:(lia)). bool_to_prop. rewrite forallb_forall in *.
  match goal with H : forall x, _ |- _ => specialize (H m') end.
  rewrite <- list_elem_of_In, elem_of_seqZ in *. lia.
Qed.

Lemma days_in_range leap m : 1 <= m <= 12 -> 0 < days_in leap m <= 31.
Proof.
  intros Hm. assert (month_starts_ok leap = true) as H by (destruct leap; reflexivity).
  unfold month_starts_ok in H. rewrite forallb_forall in H.
  specialize (H m). rewrite <- list_elem_of_In, elem_of_seqZ in H.
  specialize (H ltac:(lia)). bool_to_prop. lia.
Qed.

Lemma days_before_month_le (leap : bool) m d :
  1 <= m <= 12 -> 1 <= d <= days_in leap m ->
  0 <= days_before_month leap m + d - 1 < 365 + (if leap then 1 else 0).
Proof.
  intros Hm Hd.
  assert (days_before_month leap (m + 1) <= 365 + (if leap then 1 else 0) /\
          0 <= days_before_month leap m) as [H1 H2].
  { assert (forallb (fun m => (days_before_month leap (m + 1) <=? 365 + (if leap then 1 else 0))
              && (0 <=? days_before_month leap m)) (seqZ 1 12) = true) as H
      by (destruct leap; reflexivity).
    rewrite forallb_forall in H. specialize (H m).
    rewrite <- list_elem_of_In, elem_of_seqZ in H. specialize (H ltac:(lia)).
    bool_to_prop. lia. }
  unfold days_in in Hd. lia.
Qed.

Lemma month_day_unique leap m d :
  1 <= m <= 12 -> 1 <= d <= days_in leap m ->
  month_day leap (days_before_month leap m + d - 1) = (m, d).
Proof.
  intros Hm Hd. pose proof (days_before_month_le leap m d Hm Hd) as Hr.
  pose proof (month_day_spec leap _ Hr) as Hs.
  destruct (month_day leap _) as [m' d']. destruct Hs as (Hm' & Hd' & He).
  unfold days_in in *.
  destruct (Z.lt_trichotomy m m') as [Hlt|[Heq|Hgt]].
  - pose proof (month_starts leap m m' Hm ltac:(lia)). lia.
  - subst m'. f_equal. lia.
  - pose proof (month_starts leap m' m Hm' ltac:(lia)). lia.
Qed.

Lemma month_mday z :
  1 <= month z <= 12 /\ 1 <= mday z <= days_in (isLeap (year z)) (month z) /\
  days_before_month (isLeap (year z)) (month z) + mday z - 1 = yday z.
Proof.
  pose proof (yday_bound z) as H. unfold leap_day in H.
  pose proof (month_day_spec (isLeap (year z)) (yday z) H) as Hs.
  unfold month, mday. by destruct (month_day _ _).
Qed.

Lemma Date_in_range y m d :
  1 <= m <= 12 ->
  Date y m d = days_before_year y + days_before_month (isLeap y) m + (d - 1).
Proof.
  intros Hm. unfold Date.
  replace ((m - 1) / 12) with 0 by lia. replace ((m - 1) mod 12 + 1) with m by lia.
  by rewrite Z.add_0_r.
Qed.

(** Reading a date back from the day number it was computed from. *)
Lemma Date_of_day z k : Date (year z) (month z) (mday z + k) = z + k.
Proof.
  pose proof (month_mday z) as (Hm & Hd & He). rewrite Date_in_range by done.
  pose proof (year_yday z). lia.
Qed.

Lemma day_of_Date y m d :
  1 <= m <= 12 -> 1 <= d <= days_in (isLeap y) m ->
  year (Date y m d) = y /\ month (Date y m d) = m /\ mday (Date y m d) = d.
Proof.
  intros Hm Hd. rewrite Date_in_range by done.
  pose proof (days_before_month_le _ _ _ Hm Hd) as Hr.
  replace (days_before_year y + days_before_month (isLeap y) m + (d - 1))
    with (days_before_year y + (days_before_month (isLeap y) m + d - 1)) by lia.
  destruct (year_unique y (days_before_month (isLeap y) m + d - 1)) as [Hy Hyd].
  { unfold leap_day. lia. }
  unfold month, mday. rewrite Hy, Hyd, month_day_unique by done. done.
Qed.

Lemma year_start leap : days_before_month leap 1 = 0.
Proof. by destruct leap. Qed.

Lemma year_end (leap : bool) : days_before_month leap 13 = 365 + (if leap then 1 else 0).
Proof. by destruct leap. Qed.

(** The first day of the next month, from any day of a month. *)
Definition next_month (z : Z) : Z := Date (year z) (month z + 1) 1.

Lemma next_month_eq z :
  next_month z = z - mday z + 1 + days_in (isLeap (year z)) (month z).
Proof.
  pose proof (month_mday z) as (Hm & Hd & He). pose proof (year_yday z) as Hy.
  unfold next_month. destruct (decide (month z = 12)) as [E|E].
  - unfold Date. rewrite E. replace ((12 + 1 - 1) / 12) with 1 by lia.
    replace ((12 + 1 - 1) mod 12 + 1) with 1 by lia.
    rewrite year_length. rewrite E in *. unfold leap_day, days_in in *.
    change (12 + 1) with 13 in *. rewrite year_end in *. rewrite year_start. lia.
  - rewrite Date_in_range by lia. unfold days_in. lia.
Qed.

Lemma next_month_first z : mday (next_month z) = 1 /\ z < next_month z <= z + 31.
Proof.
  pose proof (month_mday z) as (Hm & Hd & He).
  pose proof (days_in_range (isLeap (year z)) (month z) Hm) as Hr.
  split; [|rewrite next_month_eq; lia].
  unfold next_month. destruct (decide (month z = 12)) as [E|E].
  - rewrite E. replace (Date (year z) (12 + 1) 1) with (Date (year z + 1) 1 1).
    + apply day_of_Date; [lia|]. pose proof (days_in_range (isLeap (year z + 1)) 1). lia.
    + unfold Date. change ((1 - 1) / 12) with 0. change ((12 + 1 - 1) / 12) with 1.
      rewrite (Z.add_0_r (year z + 1)). reflexivity.
  - apply day_of_Date; [lia|].
    pose proof (days_in_range (isLeap (year z)) (month z + 1)). lia.
Qed.

(** No day in between is a first of the month. *)
Lemma next_month_least z x : z < x -> x < next_month z -> mday x <> 1.
Proof.
  intros Hzx Hx. pose proof (month_mday z) as (Hm & Hd & He).
  rewrite next_month_eq in Hx.
  rewrite <- (Z.sub_add z x), (Z.add_comm (x - z) z), <- Date_of_day.
  destruct (day_of_Date (year z) (month z) (mday z + (x - z))) as (_ & _ & ->); lia.
Qed.

Lemma Weekday_range z : 0 <= Weekday z < 7.
Proof. unfold Weekday. lia. Qed.

Lemma day_of_midnight z : day_of (midnight z) = z.
Proof. unfold day_of, midnight. apply Z.div_mul. discriminate. Qed.

(** A day begins after an instant iff its number is larger. *)
Lemma midnight_after t z : t < midnight z <-> day_of t < z.
Proof.
  unfold midnight, day_of. pose proof (Z.div_mod t day_ns ltac:(discriminate)) as H.
  pose proof (Z.mod_pos_bound t day_ns day_ns_pos). pose proof day_ns_pos. nia.
Qed.

End CalendarFacts.
