(* ===== verification/CircuitBreaker.v ===== *)
(** * Per-channel circuit breakers

    Model of internal/pkg/resilience/circuitbreaker.go.

    [Breaker] is the per-channel state machine ([breaker], [allow],
    [recordSuccess], [recordFailure], [recordInconclusive], [admitsIn]) and
    [Registry] the map of breakers with its read-only views ([AllOpen],
    [Snapshot]).  The mutex of a breaker makes each method atomic, so a method
    is a function from a breaker to its result and the next breaker; the clock
    is passed as the readings the method takes, in order.  The state field only
    ever holds the three declared constants, which are the constructors of
    [State]. *)

From S2P Require Import Prelude.

Module Breaker.

Inductive State :=
| StateClosed
| StateOpen
| StateHalfOpen.

#[global] Instance State_eq_dec : EqDecision State.
Proof. solve_decision. Defined.

Definition State_String (s : State) : string :=
  match s with
  | StateClosed => "closed"
  | StateOpen => "open"
  | StateHalfOpen => "half_open"
  end.

Record breaker := mkBreaker {
  state : State;
  consecutiveFails : Z;
  lastFailTime : Z;
  halfOpenSince : Z;
  threshold : Z;
  timeout : Z;
  halfOpenTimeout : Z;
  failureWindow : Z
}.

(** The mutable fields of a breaker, set together. *)
Definition set_fields (b : breaker) (st : State) (fails last since : Z) : breaker :=
  {| state := st; consecutiveFails := fails; lastFailTime := last;
     halfOpenSince := since; threshold := threshold b; timeout := timeout b;
     halfOpenTimeout := halfOpenTimeout b; failureWindow := failureWindow b |}.

(** [now1] is the reading the deadline is tested against, [now2] the reading
    stored when the probe is admitted. *)
Definition allow (now1 now2 : Z) (b : breaker) : bool * breaker :=
  match state b with
  | StateClosed => (true, b)
  | StateOpen =>
      if time_Sub now1 (lastFailTime b) >=? timeout b then
        (true, set_fields b StateHalfOpen (consecutiveFails b) (lastFailTime b) now2)
      else (false, b)
  | StateHalfOpen =>
      if time_Sub now1 (halfOpenSince b) >=? halfOpenTimeout b then
        (true, set_fields b StateHalfOpen (consecutiveFails b) (lastFailTime b) now2)
      else (false, b)
  end.

Definition recordSuccess (b : breaker) : (State * State) * breaker :=
  ((state b, StateClosed),
   set_fields b StateClosed 0 (lastFailTime b) time_zero).

Definition recordFailure (now : Z) (b : breaker) : (State * State) * breaker :=
  let prev := state b in
  let fails0 :=
    if bool_decide (state b = StateClosed) && (failureWindow b >? 0) &&
       (consecutiveFails b >? 0) &&
       (time_Sub now (lastFailTime b) >? failureWindow b)
    then 0 else consecutiveFails b in
  let fails := i64_add fails0 1 in
  let b1 := set_fields b (state b) fails now (halfOpenSince b) in
  let b2 :=
    match state b1 with
    | StateClosed =>
        if consecutiveFails b1 >=? threshold b1
        then set_fields b1 StateOpen fails now (halfOpenSince b1) else b1
    | StateHalfOpen => set_fields b1 StateOpen fails now time_zero
    | StateOpen => b1
    end in
  ((prev, state b2), b2).

Definition recordInconclusive (now : Z) (b : breaker) : (State * State) * breaker :=
  let prev := state b in
  let b1 :=
    if bool_decide (state b = StateHalfOpen)
    then set_fields b StateOpen (consecutiveFails b) now time_zero
    else b in
  ((prev, state b1), b1).

Definition getState (b : breaker) : State := state b.

Definition admitsIn (now : Z) (b : breaker) : Z * bool :=
  match state b with
  | StateOpen =>
      let wait := i64_sub (timeout b) (time_Sub now (lastFailTime b)) in
      if wait <=? 0 then (0, false) else (wait, true)
  | StateHalfOpen =>
      let wait := i64_sub (halfOpenTimeout b) (time_Sub now (halfOpenSince b)) in
      if wait <=? 0 then (0, false) else (wait, true)
  | StateClosed => (0, false)
  end.

(** ** The machine as a step relation over time

    A configuration is a breaker and the last clock reading; readings never go
    back. *)

Definition config : Type := Z * breaker.

Inductive step : config -> config -> Prop :=
| step_allow t b t1 t2 :
    t <= t1 -> t1 <= t2 ->
    step (t, b) (t2, snd (allow t1 t2 b))
| step_success t b t1 :
    t <= t1 -> step (t, b) (t1, snd (recordSuccess b))
| step_failure t b t1 :
    t <= t1 -> step (t, b) (t1, snd (recordFailure t1 b))
| step_inconclusive t b t1 :
    t <= t1 -> step (t, b) (t1, snd (recordInconclusive t1 b)).

(** Invariant of a configuration: a closed breaker is below its threshold, the
    probe stamp is set only while half open, and no stamp is in the future. *)
Definition wf (c : config) : Prop :=
  let (t, b) := c in
  1 <= threshold b <= i64_max /\
  0 < timeout b <= i64_max /\
  0 < halfOpenTimeout b <= i64_max /\
  0 <= failureWindow b <= i64_max /\
  0 <= lastFailTime b <= t /\
  0 <= halfOpenSince b <= t /\
  (state b = StateClosed -> 0 <= consecutiveFails b < threshold b) /\
  (state b <> StateHalfOpen -> halfOpenSince b = time_zero).

(** Repeated admission checks at the given readings. *)
Fixpoint allow_run (b : breaker) (ts : list (Z * Z)) : list bool * breaker :=
  match ts with
  | [] => ([], b)
  | (t1, t2) :: ts' =>
      let (ok, b1) := allow t1 t2 b in
      let (oks, b2) := allow_run b1 ts' in
      (ok :: oks, b2)
  end.

(** Failures reported at the given readings. *)
Definition fail_run (b : breaker) (ts : list Z) : breaker :=
  fold_left (fun b t => snd (recordFailure t b)) ts b.

(** Successive failures close enough to count as one run. *)
Fixpoint one_run (window last : Z) (ts : list Z) : Prop :=
  match ts with
  | [] => True
  | t :: ts' => last <= t /\ (window = 0 \/ t - last <= window) /\ one_run window t ts'
  end.

End Breaker.

Module Registry.
Import Breaker.

Record Config := mkConfig {
  Threshold : Z;
  Timeout : Z;
  HalfOpenTimeout : Z;
  FailureWindow : Z;
  OnStateChange : bool   (** whether a callback is installed *)
}.

Definition defaultHalfOpenTimeout : Z := 60 * second.

Record Registry := mkRegistry {
  breakers : gmap Z breaker;
  cfg : Config
}.

Definition NewRegistry (c : Config) : Registry :=
  {| breakers := ∅; cfg := c |}.

Definition newBreaker (c : Config) : breaker :=
  let hot := HalfOpenTimeout c in
  let hot := if hot <=? 0
             then (if Timeout c <=? 0 then defaultHalfOpenTimeout else Timeout c)
             else hot in
  {| state := StateClosed; consecutiveFails := 0; lastFailTime := time_zero;
     halfOpenSince := time_zero; threshold := Threshold c; timeout := Timeout c;
     halfOpenTimeout := hot; failureWindow := FailureWindow c |}.

Definition set_breaker (r : Registry) (id : Z) (b : breaker) : Registry :=
  {| breakers := <[id := b]> (breakers r); cfg := cfg r |}.

Definition getOrCreate (r : Registry) (channelID : Z) : breaker * Registry :=
  match breakers r !! channelID with
  | Some b => (b, r)
  | None =>
      let b := newBreaker (cfg r) in
      (b, set_breaker r channelID b)
  end.

Definition Allow (now1 now2 : Z) (r : Registry) (channelID : Z) : bool * Registry :=
  let (b, r1) := getOrCreate r channelID in
  let (ok, b1) := allow now1 now2 b in
  (ok, set_breaker r1 channelID b1).

(** A state-change callback: channel, previous and current state. *)
Definition callback : Type := Z * State * State.

Definition notify (r : Registry) (channelID : Z) (tr : State * State) : list callback :=
  let (prev, curr) := tr in
  if negb (bool_decide (prev = curr)) && OnStateChange (cfg r)
  then [(channelID, prev, curr)] else [].

Definition RecordSuccess (r : Registry) (channelID : Z) : list callback * Registry :=
  let (b, r1) := getOrCreate r channelID in
  let (tr, b1) := recordSuccess b in
  (notify r channelID tr, set_breaker r1 channelID b1).

Definition RecordFailure (now : Z) (r : Registry) (channelID : Z) : list callback * Registry :=
  let (b, r1) := getOrCreate r channelID in
  let (tr, b1) := recordFailure now b in
  (notify r channelID tr, set_breaker r1 channelID b1).

Definition RecordInconclusive (now : Z) (r : Registry) (channelID : Z) : list callback * Registry :=
  let (b, r1) := getOrCreate r channelID in
  let (tr, b1) := recordInconclusive now b in
  (notify r channelID tr, set_breaker r1 channelID b1).

Definition GetState (r : Registry) (channelID : Z) : State * Registry :=
  let (b, r1) := getOrCreate r channelID in (getState b, r1).

(** The first loop of [AllOpen]: the listed breakers, or a miss. *)
Fixpoint collect (r : Registry) (ids : list Z) : option (list breaker) :=
  match ids with
  | [] => Some []
  | id :: ids' =>
      match breakers r !! id with
      | None => None
      | Some b =>
          match collect r ids' with
          | None => None
          | Some bs => Some (b :: bs)
          end
      end
  end.

(** The second loop: [now i] is the reading taken for the [i]-th breaker,
    [soonest] the minimum so far. *)
Fixpoint soonest_loop (now : nat -> Z) (i : nat) (bs : list breaker) (soonest : Z) : bool * Z :=
  match bs with
  | [] => (true, soonest)
  | b :: bs' =>
      let (wait, open) := admitsIn (now i) b in
      if negb open then (false, 0)
      else
        let soonest' := if (i =? 0)%nat || (wait <? soonest) then wait else soonest in
        soonest_loop now (S i) bs' soonest'
  end.

Definition AllOpen (now : nat -> Z) (r : Registry) (ids : list Z) : bool * Z :=
  match ids with
  | [] => (false, 0)
  | _ =>
      match collect r ids with
      | None => (false, 0)
      | Some bs => soonest_loop now 0 bs 0
      end
  end.

Definition Cleanup (r : Registry) (active : gset Z) : Registry :=
  {| breakers := filter (fun kv => fst kv ∈ active) (breakers r); cfg := cfg r |}.

Record BreakerSnapshot := mkSnapshot {
  snap_ChannelID : Z;
  snap_State : string;
  snap_ConsecutiveFails : Z;
  snap_Threshold : Z;
  snap_LastFailUnix : Z;
  snap_ProbeEligibleUnix : Z
}.

Definition snapshot_one (id : Z) (b : breaker) : BreakerSnapshot :=
  let lastUnix := if time_IsZero (lastFailTime b) then 0 else time_Unix (lastFailTime b) in
  let eligible :=
    if negb (time_IsZero (lastFailTime b)) && bool_decide (state b = StateOpen)
    then time_Unix (time_Add (lastFailTime b) (timeout b)) else 0 in
  let eligible :=
    if bool_decide (state b = StateHalfOpen) && negb (time_IsZero (halfOpenSince b))
    then time_Unix (time_Add (halfOpenSince b) (halfOpenTimeout b)) else eligible in
  {| snap_ChannelID := id; snap_State := State_String (state b);
     snap_ConsecutiveFails := consecutiveFails b; snap_Threshold := threshold b;
     snap_LastFailUnix := lastUnix; snap_ProbeEligibleUnix := eligible |}.

Definition snapshot_le (a b : BreakerSnapshot) : Prop :=
  snap_ChannelID a <= snap_ChannelID b.

#[global] Instance snapshot_le_dec a b : Decision (snapshot_le a b).
Proof. unfold snapshot_le. apply _. Defined.

Definition Snapshot (r : Registry) : list BreakerSnapshot :=
  merge_sort snapshot_le
    ((fun '(id, b) => snapshot_one id b) <$> map_to_list (breakers r)).

End Registry.

(** ** Properties of one breaker *)

Section BreakerFacts.
Import Breaker.
Implicit Types (b : breaker) (t now : Z).

Ltac fin :=
  repeat split; intros;
  first [congruence | lia | (unfold time_zero in *; lia)
        | match goal with H : _ -> _ = time_zero |- _ => apply H; congruence end
        | match goal with H : _ -> _ /\ _ |- _ => apply H; congruence end].

Lemma allow_wf t b t1 t2 :
  wf (t, b) -> t <= t1 -> t1 <= t2 -> wf (t2, snd (allow t1 t2 b)).
Proof.
  intros (Hth & Hto & Hho & Hfw & Hl & Hs & Hc & Hz) H1 H2.
  unfold allow, set_fields. destruct (state b) eqn:Est; [|case_match..];
    simpl; rewrite ?Est; fin.
Qed.

Lemma recordFailure_wf t b t1 :
  wf (t, b) -> t <= t1 -> wf (t1, snd (recordFailure t1 b)).
Proof.
  intros (Hth & Hto & Hho & Hfw & Hl & Hs & Hc & Hz) H1.
  unfold recordFailure, set_fields. cbv zeta. destruct (state b) eqn:Est; simpl.
  - specialize (Hc eq_refl). rewrite Hz in * by congruence.
    set (k := if _ && _ then 0 else _).
    assert (0 <= k < threshold b) as Hk by (subst k; case_match; lia).
    unfold i64_add. rewrite wrap64_id by (unfold64; lia).
    destruct (k + 1 >=? threshold b) eqn:Ek; bool_to_prop; simpl; fin.
  - fin.
  - fin.
Qed.

Lemma step_wf c c' : wf c -> step c c' -> wf c'.
Proof.
  intros Hwf Hstep. destruct Hstep as [t b t1 t2|t b t1|t b t1|t b t1];
    [by apply (allow_wf t) | | by apply (recordFailure_wf t) | ];
    destruct Hwf as (Hth & Hto & Hho & Hfw & Hl & Hs & Hc & Hz).
  - unfold recordSuccess, set_fields. simpl. fin.
  - unfold recordInconclusive, set_fields. simpl. case_bool_decide; simpl; fin.
Qed.

Lemma half_open_refuses b t1 t2 :
  state b = StateHalfOpen -> 0 <= halfOpenTimeout b <= i64_max ->
  t1 < halfOpenSince b + halfOpenTimeout b ->
  allow t1 t2 b = (false, b).
Proof.
  intros Hst Hr Ht. unfold allow. rewrite Hst, Z.geb_leb.
  destruct (_ <=? _) eqn:E; [|done]. bool_to_prop.
  apply time_Sub_ge in E; lia.
Qed.

Lemma half_open_refuses_all b ts :
  state b = StateHalfOpen -> 0 <= halfOpenTimeout b <= i64_max ->
  Forall (fun r => fst r < halfOpenSince b + halfOpenTimeout b) ts ->
  allow_run b ts = (replicate (length ts) false, b).
Proof.
  intros Hst Hr Hts. induction Hts as [|[t1 t2] ts Ht Hts IH]; simpl; [done|].
  rewrite half_open_refuses by done. by rewrite IH.
Qed.

Lemma recordFailure_closed b t :
  state b = StateClosed -> 0 <= consecutiveFails b < threshold b ->
  threshold b <= i64_max -> 0 <= failureWindow b <= i64_max ->
  (failureWindow b = 0 \/ t - lastFailTime b <= failureWindow b) ->
  snd (recordFailure t b) =
  set_fields b (if consecutiveFails b + 1 >=? threshold b then StateOpen else StateClosed)
    (consecutiveFails b + 1) t (halfOpenSince b).
Proof.
  intros Hst Hc Hth Hfw Hw. unfold recordFailure. rewrite Hst. simpl.
  set (k := if _ && _ then 0 else _).
  assert (k = consecutiveFails b) as ->.
  { subst k. destruct (_ && _) eqn:E; [|done]. bool_to_prop.
    assert (~ failureWindow b < time_Sub t (lastFailTime b)); [|lia].
    unfold time_Sub, sat64. unfold64. lia. }
  unfold i64_add. rewrite wrap64_id by (unfold64; lia).
  by destruct (_ >=? _).
Qed.

Lemma fail_run_cons b t ts : fail_run b (t :: ts) = fail_run (snd (recordFailure t b)) ts.
Proof. reflexivity. Qed.

Lemma fail_run_open b ts : state b = StateOpen -> state (fail_run b ts) = StateOpen.
Proof.
  revert b. induction ts as [|t ts IH]; intros b Hst; [done|].
  rewrite fail_run_cons. apply IH. unfold recordFailure. by rewrite Hst.
Qed.

Lemma fail_run_closed b ts :
  state b = StateClosed -> 0 <= consecutiveFails b < threshold b ->
  threshold b <= i64_max -> 0 <= failureWindow b <= i64_max ->
  one_run (failureWindow b) (lastFailTime b) ts ->
  state (fail_run b ts) =
  if consecutiveFails b + Z.of_nat (length ts) >=? threshold b
  then StateOpen else StateClosed.
Proof.
  revert b. induction ts as [|t ts IH]; intros b Hst Hc Hth Hfw Hrun.
  - simpl. rewrite Hst. destruct (_ >=? _) eqn:E; [|done]. bool_to_prop. lia.
  - destruct Hrun as (Hle & Hw & Hrun).
    rewrite fail_run_cons, recordFailure_closed by done. simpl length.
    destruct (consecutiveFails b + 1 >=? threshold b) eqn:E; bool_to_prop.
    + rewrite fail_run_open by done.
      destruct (_ >=? _) eqn:E2; [done|]. bool_to_prop. lia.
    + rewrite IH by (simpl; solve [done | lia]). simpl.
      replace (consecutiveFails b + 1 + Z.of_nat (length ts))
        with (consecutiveFails b + Z.of_nat (S (length ts))) by lia. done.
Qed.

Lemma wait_refuses d now since :
  0 < d <= i64_max -> since <= now ->
  let wait := i64_sub d (time_Sub now since) in
  (wait <=? 0) = (time_Sub now since >=? d) /\
  (0 < wait -> wait = since + d - now).
Proof.
  intros Hd Hs wait.
  assert (wait = d - time_Sub now since) as Hw.
  { subst wait. unfold i64_sub. apply wrap64_id.
    pose proof (time_Sub_nonneg now since Hs). pose proof (sat64_range (now - since)).
    unfold time_Sub in *. unfold64. lia. }
  split.
  - rewrite Hw, Z.geb_leb. apply eq_true_iff_eq. rewrite !Z.leb_le. lia.
  - rewrite Hw. unfold time_Sub, sat64. unfold64. lia.
Qed.

Lemma admitsIn_allow t b now now2 :
  wf (t, b) -> t <= now -> snd (admitsIn now b) = negb (fst (allow now now2 b)).
Proof.
  intros (Hth & Hto & Hho & Hfw & Hl & Hs & _) Ht. unfold admitsIn, allow.
  destruct (state b) eqn:Est; simpl; [done| |].
  - destruct (wait_refuses (timeout b) now (lastFailTime b)) as [-> _]; try lia.
    by destruct (_ >=? _).
  - destruct (wait_refuses (halfOpenTimeout b) now (halfOpenSince b)) as [-> _]; try lia.
    by destruct (_ >=? _).
Qed.

Lemma admitsIn_wait_spec t b now w :
  wf (t, b) -> t <= now -> admitsIn now b = (w, true) ->
  0 < w /\ forall now1 now2, now <= now1 ->
    fst (allow now1 now2 b) = (now + w <=? now1).
Proof.
  intros (Hth & Hto & Hho & Hfw & Hl & Hs & _) Ht. unfold admitsIn, allow.
  destruct (state b) eqn:Est; [done| |];
    [set (d := timeout b) in *; set (s0 := lastFailTime b) in *
    |set (d := halfOpenTimeout b) in *; set (s0 := halfOpenSince b) in *];
    destruct (wait_refuses d now s0) as [_ Hw]; try lia; simpl in Hw;
    (destruct (_ <=? 0) eqn:E; [done|]); bool_to_prop; intros [= <-];
    (split; [done|]); intros now1 now2 H1; rewrite Hw by done;
    (destruct (time_Sub now1 s0 >=? d) eqn:E1; bool_to_prop; simpl; symmetry;
      [apply Z.leb_le; apply time_Sub_ge in E1; lia
      |apply Z.leb_gt; unfold time_Sub, sat64 in E1; unfold64; lia]).
Qed.

End BreakerFacts.

#[export] Hint Resolve step_wf : hub.

Section RegistryFacts.
Import Breaker Registry.
Implicit Types (r : Registry) (b : breaker) (id : Z).

(** A configuration an operator can set: a positive threshold and cooldown. *)
Definition valid_config (c : Config) : Prop :=
  1 <= Threshold c <= i64_max /\ 0 < Timeout c <= i64_max /\
  HalfOpenTimeout c <= i64_max /\ 0 <= FailureWindow c <= i64_max.

Lemma newBreaker_wf c t : valid_config c -> 0 <= t -> wf (t, newBreaker c).
Proof.
  intros (Hth & Hto & Hho & Hfw) Ht. unfold newBreaker, time_zero. simpl.
  destruct (HalfOpenTimeout c <=? 0) eqn:E1, (Timeout c <=? 0) eqn:E2; bool_to_prop;
    repeat split; intros; try congruence; try lia.
Qed.

(** Every breaker of the registry is well formed at time [t]. *)
Definition wf_registry (t : Z) (r : Registry) : Prop :=
  forall id b, breakers r !! id = Some b -> wf (t, b).

Lemma collect_spec r ids bs :
  collect r ids = Some bs <-> Forall2 (fun id b => breakers r !! id = Some b) ids bs.
Proof.
  revert bs. induction ids as [|id ids IH]; intros bs; simpl.
  - split; [intros [= <-]; constructor|intros H; by inversion H].
  - split.
    + destruct (breakers r !! id) as [b|] eqn:Eb; [|done].
      destruct (collect r ids) as [bs'|]; [|done].
      intros [= <-]. constructor; [done|]. by apply IH.
    + intros H. inversion H as [|? b ? bs' Hb Hbs]; subst.
      rewrite Hb. by rewrite (proj2 (IH bs') Hbs).
Qed.

Lemma collect_total r ids :
  (forall i id, ids !! i = Some id -> is_Some (breakers r !! id)) ->
  exists bs, collect r ids = Some bs.
Proof.
  induction ids as [|id ids IH]; intros H; simpl; [by eauto|].
  destruct (H 0%nat id eq_refl) as [b ->].
  destruct IH as [bs ->]; [intros i; apply (H (S i))|]. eauto.
Qed.

Lemma soonest_loop_spec now i bs m :
  let res := soonest_loop now i bs m in
  (fst res = true <-> forall k b, bs !! k = Some b -> snd (admitsIn (now (i + k)%nat) b) = true) /\
  (fst res = false -> snd res = 0) /\
  (fst res = true -> bs <> [] \/ i <> 0%nat ->
     (i <> 0%nat -> snd res <= m) /\
     (forall k b, bs !! k = Some b -> snd res <= fst (admitsIn (now (i + k)%nat) b)) /\
     ((i <> 0%nat /\ snd res = m) \/
      exists k b, bs !! k = Some b /\ snd res = fst (admitsIn (now (i + k)%nat) b))).
Proof.
  revert i m. induction bs as [|b bs IH]; intros i m; simpl.
  - split; [by split|]. split; [done|]. intros _ [?|Hi]; [done|].
    split; [lia|]. split; [done|]. left. done.
  - destruct (admitsIn (now i) b) as [w o] eqn:Ea. destruct o; simpl.
    + set (m' := if _ || _ then w else m). specialize (IH (S i) m').
      destruct (soonest_loop now (S i) bs m') as [ok d]; simpl in IH |- *.
      destruct IH as (IH1 & IH2 & IH3).
      assert (Hk0 : (i + 0 = i)%nat) by lia.
      split; [|split; [done|]].
      * rewrite IH1. split.
        -- intros H [|k] b' Hb'; simpl in Hb'; simplify_eq.
           ++ by rewrite Hk0, Ea.
           ++ rewrite <- (H k b' Hb'). do 3 f_equal. lia.
        -- intros H k b' Hb'. rewrite <- (H (S k) b' Hb'). do 3 f_equal. lia.
      * intros Hok Hne. destruct (IH3 Hok ltac:(right; lia)) as (H1 & H2 & H3).
        specialize (H1 ltac:(lia)).
        assert (m' <= w /\ (i <> 0%nat -> m' <= m)) as [Hw Hm].
        { subst m'. destruct ((i =? 0)%nat) eqn:Ei; simpl.
          - apply Nat.eqb_eq in Ei. lia.
          - destruct (w <? m) eqn:Ew; bool_to_prop; lia. }
        split; [lia|]. split.
        -- intros [|k] b' Hb'; simpl in Hb'; simplify_eq.
           ++ rewrite Hk0, Ea. simpl. lia.
           ++ replace (i + S k)%nat with (S i + k)%nat by lia. by apply H2.
        -- destruct H3 as [[_ ->]|(k & b' & Hb' & ->)].
           ++ subst m'. destruct ((i =? 0)%nat) eqn:Ei; simpl.
              ** right. exists 0%nat, b. simpl. by rewrite Hk0, Ea.
              ** apply Nat.eqb_neq in Ei. destruct (w <? m); [|by left].
                 right. exists 0%nat, b. simpl. by rewrite Hk0, Ea.
           ++ right. exists (S k), b'. split; [done|]. do 3 f_equal. lia.
    + split; [|done]. split; [done|]. intros H.
      specialize (H 0%nat b eq_refl). replace (i + 0)%nat with i in H by lia.
      by rewrite Ea in H.
Qed.

Lemma getOrCreate_lookup r id id' :
  breakers (snd (getOrCreate r id)) !! id' =
  if decide (id = id') then Some (fst (getOrCreate r id)) else breakers r !! id'.
Proof.
  unfold getOrCreate. destruct (breakers r !! id) eqn:E; simpl; case_decide; simplify_map_eq; done.
Qed.

Lemma set_breaker_getOrCreate_lookup r id id' b :
  breakers (set_breaker (snd (getOrCreate r id)) id b) !! id' =
  if decide (id = id') then Some b else breakers r !! id'.
Proof.
  simpl. rewrite lookup_insert. case_decide; [done|].
  rewrite getOrCreate_lookup. by rewrite decide_False.
Qed.

#[global] Instance snapshot_le_total : Total snapshot_le.
Proof. intros a b. unfold snapshot_le. lia. Qed.
#[global] Instance snapshot_le_trans : Transitive snapshot_le.
Proof. intros a b c. unfold snapshot_le. lia. Qed.

Lemma snapshot_perm r :
  Snapshot r ≡ₚ ((fun '(id, b) => snapshot_one id b) <$> map_to_list (breakers r)).
Proof. apply merge_sort_Permutation. Qed.

End RegistryFacts.

(** ** Properties *)

Section Properties.
Import Breaker Registry.

(** C33. Every configuration a breaker can reach from its creation, under any
    sequence of admission checks and reports with a clock that never goes back,
    is well formed: a closed breaker is strictly below its threshold, the probe
    stamp is cleared outside half open, and no stamp lies in the future. *)
Theorem breaker_reachable_wf c t0 x :
  valid_config c -> 0 <= t0 ->
  reachable step (t0, newBreaker c) x -> wf x.
Proof.
  intros Hc Ht. apply reachable_ind_inv; [by apply newBreaker_wf|].
  eauto with hub.
Qed.

(** The half-open probe is exclusive: once an open breaker has admitted a
    probe at reading [t2], every further admission check before
    [t2 + halfOpenTimeout] is refused and leaves the breaker as it is. *)
Theorem probe_exclusive b b' t1 t2 ts :
  state b = StateOpen -> 0 <= halfOpenTimeout b <= i64_max ->
  allow t1 t2 b = (true, b') ->
  Forall (fun r => fst r < t2 + halfOpenTimeout b) ts ->
  allow_run b' ts = (replicate (length ts) false, b').
Proof.
  unfold allow. intros -> Hr. case_match; [|done]. intros [= <-] Hts.
  by apply half_open_refuses_all.
Qed.

(** A breaker trips exactly at its threshold: after a run of failures close
    enough to count as consecutive, a fresh breaker is open if the run has at
    least [Threshold] failures and closed otherwise. *)
Theorem trips_at_threshold c ts :
  valid_config c -> one_run (FailureWindow c) time_zero ts ->
  state (fail_run (newBreaker c) ts) =
  if Z.of_nat (length ts) >=? Threshold c then StateOpen else StateClosed.
Proof.
  intros Hc Hrun. pose proof (newBreaker_wf c 0 Hc ltac:(lia)) as Hwf.
  destruct Hwf as (Hth & _ & _ & Hfw & _ & _ & Hcl & _).
  rewrite fail_run_closed; simpl in *; auto; lia.
Qed.

(** [admitsIn] is the exact view of [allow]: it reports a refusal exactly
    when [allow] refuses at the same reading, and the wait it reports is the
    delay after which [allow] admits, no earlier and no later. *)
Theorem admitsIn_exact t b now :
  wf (t, b) -> t <= now ->
  (forall now2, snd (admitsIn now b) = negb (fst (allow now now2 b))) /\
  (forall w now1 now2, admitsIn now b = (w, true) -> now <= now1 ->
     fst (allow now1 now2 b) = (now + w <=? now1)).
Proof.
  intros Hwf Ht. split.
  - intros now2. by apply (admitsIn_allow t).
  - intros w now1 now2 Hw. by apply (admitsIn_wait_spec t b now w Hwf Ht Hw).
Qed.

(** [AllOpen] answers true exactly when the list is not empty and every
    listed channel has a breaker that refuses at the reading taken for it; the
    wait is then the minimum of the listed waits, and 0 otherwise. *)
Theorem AllOpen_exact t now r ids :
  wf_registry t r -> (forall i, t <= now i) ->
  let res := AllOpen now r ids in
  (fst res = true <->
     ids <> [] /\
     forall i id, ids !! i = Some id ->
       exists b, breakers r !! id = Some b /\ fst (allow (now i) (now i) b) = false) /\
  (fst res = false -> snd res = 0) /\
  (fst res = true ->
     (forall i id b, ids !! i = Some id -> breakers r !! id = Some b ->
        snd res <= fst (admitsIn (now i) b)) /\
     (exists i id b, ids !! i = Some id /\ breakers r !! id = Some b /\
        snd res = fst (admitsIn (now i) b))).
Proof.
  intros Hwf Hnow. unfold AllOpen. destruct ids as [|id0 ids0].
  { simpl. split; [|done]. split; [done|]. intros [H _]. done. }
  set (ids := id0 :: ids0).
  destruct (collect r ids) as [bs|] eqn:Ec.
  2: { simpl. split; [|done]. split; [done|]. intros [_ H]. exfalso.
       destruct (collect_total r ids) as [bs Hbs]; [|congruence].
       intros i id Hid. destruct (H i id Hid) as (b & -> & _). eauto. }
  apply collect_spec in Ec as Hf.
  destruct (soonest_loop_spec now 0 bs 0) as (H1 & H2 & H3).
  assert (bs <> []) as Hbs by (intros ->; inversion Hf).
  split; [|split; [done|]].
  - rewrite H1. split.
    + intros H. split; [done|]. intros i id Hid.
      destruct (Forall2_lookup_l _ _ _ _ _ Hf Hid) as (b & Hb & Hl).
      exists b. split; [done|]. specialize (H i b Hb).
      rewrite (admitsIn_allow t _ _ (now i)) in H by eauto. by apply negb_true_iff in H.
    + intros [_ H] k b Hb.
      destruct (Forall2_lookup_r _ _ _ _ _ Hf Hb) as (id & Hid & Hl).
      destruct (H k id Hid) as (b' & Hb' & Hal). simplify_eq.
      rewrite (admitsIn_allow t _ _ (now k)) by eauto. simpl. by rewrite Hal.
  - intros Hok. destruct (H3 Hok (or_introl Hbs)) as (_ & Hle & Hex). split.
    + intros i id b Hid Hb.
      destruct (Forall2_lookup_l _ _ _ _ _ Hf Hid) as (b' & Hb' & Hl). simplify_eq.
      by apply Hle.
    + destruct Hex as [[? _]|(k & b & Hb & ->)]; [done|].
      destruct (Forall2_lookup_r _ _ _ _ _ Hf Hb) as (id & Hid & Hl). eauto 10.
Qed.

(** Channels are independent: reporting an outcome for one channel, or
    asking for admission on it, leaves the breaker of every other channel
    untouched. *)
Theorem registry_frame r id id' now1 now2 :
  id <> id' ->
  breakers (snd (Allow now1 now2 r id)) !! id' = breakers r !! id' /\
  breakers (snd (RecordSuccess r id)) !! id' = breakers r !! id' /\
  breakers (snd (RecordFailure now1 r id)) !! id' = breakers r !! id' /\
  breakers (snd (RecordInconclusive now1 r id)) !! id' = breakers r !! id'.
Proof.
  intros Hne.
  assert (H : forall b, breakers (set_breaker (snd (getOrCreate r id)) id b) !! id'
                        = breakers r !! id').
  { intros b. rewrite set_breaker_getOrCreate_lookup. by rewrite decide_False. }
  unfold Allow, RecordSuccess, RecordFailure, RecordInconclusive.
  destruct (getOrCreate r id) as [b r1]; simpl in H.
  destruct (allow now1 now2 b), (recordFailure now1 b), (recordInconclusive now1 b).
  simpl. repeat split; apply H.
Qed.

(** [Snapshot] lists every known breaker exactly once, in increasing channel
    order, and each entry is the view of that channel's breaker. *)
Theorem Snapshot_sorted_complete r :
  StronglySorted snapshot_le (Snapshot r) /\
  NoDup (snap_ChannelID <$> Snapshot r) /\
  forall s, s ∈ Snapshot r <->
    exists id b, breakers r !! id = Some b /\ s = snapshot_one id b.
Proof.
  split; [apply (StronglySorted_merge_sort _); exact _|]. split.
  - rewrite snapshot_perm, <- list_fmap_compose.
    assert ((snap_ChannelID ∘ (fun '(id, b) => snapshot_one id b) <$> map_to_list (breakers r))
            = (map_to_list (breakers r)).*1) as ->.
    { apply list_fmap_ext. by intros _ [id b] _. }
    apply NoDup_fst_map_to_list.
  - intros s. rewrite snapshot_perm, list_elem_of_fmap. split.
    + intros ([id b] & -> & H). apply elem_of_map_to_list in H. eauto.
    + intros (id & b & H & ->). exists (id, b). by rewrite elem_of_map_to_list.
Qed.

End Properties.

(** ** Witnesses *)

Section Witnesses.
Import Breaker Registry.

Definition cfg0 : Config := mkConfig 2 (30 * second) 0 0 true.
Definition t0 : Z := 1000 * second.
(** [cfg0]'s breaker after its second failure, and the half-open one after a
    probe 30 seconds later. *)
Definition tripped : breaker := fail_run (newBreaker cfg0) [t0; t0].
Definition probing : breaker :=
  snd (allow (t0 + 30 * second) (t0 + 30 * second) tripped).

Lemma cfg0_valid : valid_config cfg0.
Proof. unfold valid_config, cfg0; vm_compute; intuition congruence. Defined.

Lemma breaker_reachable_wf_witness :
  wf (t0, tripped) /\ state tripped = StateOpen.
Proof.
  split; [|vm_compute; reflexivity].
  apply (breaker_reachable_wf cfg0 0); [exact cfg0_valid|lia|].
  apply (reach_step _ _ (t0, snd (recordFailure t0 (newBreaker cfg0)))).
  - apply (reach_step _ _ (0, newBreaker cfg0)); [apply reach_init|].
    apply step_failure. vm_compute. discriminate.
  - apply step_failure. lia.
Defined.

Lemma probe_exclusive_witness :
  allow_run probing [(t0 + 31 * second, t0 + 31 * second); (t0 + 59 * second, t0 + 59 * second)]
  = ([false; false], probing).
Proof.
  apply (probe_exclusive tripped probing (t0 + 30 * second) (t0 + 30 * second)
           [(t0 + 31 * second, t0 + 31 * second); (t0 + 59 * second, t0 + 59 * second)]);
    [vm_compute; reflexivity|vm_compute; intuition congruence|vm_compute; reflexivity|].
  repeat constructor; vm_compute; reflexivity.
Defined.

Lemma trips_at_threshold_witness :
  state (fail_run (newBreaker cfg0) [t0]) = StateClosed /\
  state (fail_run (newBreaker cfg0) [t0; t0 + 1]) = StateOpen.
Proof.
  split.
  - rewrite (trips_at_threshold cfg0 [t0]); [reflexivity|exact cfg0_valid|].
    simpl. split; [vm_compute; discriminate|]. auto.
  - rewrite (trips_at_threshold cfg0 [t0; t0 + 1]); [reflexivity|exact cfg0_valid|].
    simpl. split; [vm_compute; discriminate|]. split; [auto|].
    split; [vm_compute; discriminate|]. auto.
Defined.

Lemma wf_tripped : wf (t0, tripped).
Proof. vm_compute. intuition congruence. Defined.

Lemma admitsIn_exact_witness :
  admitsIn (t0 + second) tripped = (29 * second, true) /\
  fst (allow (t0 + 30 * second) 0 tripped) = true.
Proof.
  assert (t0 <= t0 + second) as H by (vm_compute; discriminate).
  split; [vm_compute; reflexivity|].
  rewrite (proj2 (admitsIn_exact t0 tripped (t0 + second) wf_tripped H)
             (29 * second) (t0 + 30 * second) 0);
    vm_compute; [reflexivity|reflexivity|discriminate].
Defined.

Definition reg0 : Registry := set_breaker (NewRegistry cfg0) 7 tripped.

Lemma AllOpen_exact_witness :
  fst (AllOpen (fun _ => t0 + second) reg0 [7]) = true.
Proof.
  assert (wf_registry t0 reg0) as Hwf.
  { intros id b. unfold reg0, set_breaker. simpl. rewrite lookup_insert.
    case_decide; [|by rewrite lookup_empty]. intros [= <-]. apply wf_tripped. }
  apply (proj1 (AllOpen_exact t0 (fun _ => t0 + second) reg0 [7] Hwf
                  ltac:(intros; vm_compute; discriminate))).
  split; [done|]. intros [|i] id Hid; simpl in Hid; [|done].
  injection Hid as <-. exists tripped. split; [|vm_compute]; reflexivity.
Defined.

Lemma registry_frame_witness :
  breakers (snd (RecordFailure t0 reg0 8)) !! 7 = Some tripped.
Proof.
  rewrite (proj1 (proj2 (proj2 (registry_frame reg0 8 7 t0 t0 ltac:(done))))).
  reflexivity.
Defined.

End Witnesses.
