(* ===== verification/Concurrency.v ===== *)
(** * In-flight concurrency limits

    Model of internal/adapter/middleware/concurrency_limit.go: the slot sets of
    leases per token and per tenant, their in-process and Redis backends, and
    the middleware that holds the slots across a relay request.

    The in-process table is one map guarded by a mutex, so an acquire is one
    step.  The Redis acquire is a sequence of commands that other replicas can
    interleave with; its commands are the steps of [redis_step]. *)

From S2P Require Import Prelude GoStrings.

Module Concurrency.
Import GoStrings.

Definition concurrencyDefaultLeaseTTLSeconds : Z := 1800.

Definition concurrencyTokenKeyPrefix : string := "cc:tok:".
Definition concurrencyTenantKeyPrefix : string := "cc:tenant:".

(** [secs] is RELAY_CONCURRENCY_LEASE_TTL as read from the environment. *)
Definition concurrencyLeaseTTL (secs : Z) : Z :=
  let secs := if secs <=? 0 then concurrencyDefaultLeaseTTLSeconds else secs in
  i64_mul secs second.

(** ** In-process backend *)

(** Lease id to admission time. *)
Abbreviation slots := (gmap string Z).
(** Key to slot set; an absent key has no slots. *)
Abbreviation table := (gmap string slots).

(** The leases that have not outlived the TTL. *)
Definition live (ttl now : Z) (sl : slots) : slots :=
  filter (fun kv => time_Sub now (snd kv) <= ttl) sl.

Definition ccLocalAcquire (key leaseID : string) (limit ttl now : Z) (t : table) : bool * table :=
  let sl := live ttl now (default ∅ (t !! key)) in
  if Z.of_nat (size sl) >=? limit then (false, <[key := sl]> t)
  else (true, <[key := <[leaseID := now]> sl]> t).

Definition ccLocalRelease (key leaseID : string) (t : table) : table :=
  match t !! key with
  | None => t
  | Some sl =>
      let sl := delete leaseID sl in
      if decide (sl = ∅) then delete key t else <[key := sl]> t
  end.

(** ** The middleware on the in-process backend *)

Inductive cc_verdict :=
| CcNext
| CcReject (scope : string) (limit : Z).

(** The keys of a request that are limited, in the order they are acquired. *)
Definition token_key (tokenID : string) : string := concurrencyTokenKeyPrefix +:+ tokenID.
Definition tenant_key (tenantID : string) : string := concurrencyTenantKeyPrefix +:+ tenantID.

(** [RelayConcurrencyLimit] up to the point where it hands over to the relay:
    the verdict, the keys whose release is deferred, and the table.  A missing
    token or tenant is [None]; [now1] and [now2] are the two clock readings. *)
Definition cc_enter (tokenLimit tenantLimit ttl : Z) (token tenant : option string)
    (leaseID : string) (now1 now2 : Z) (t : table) : cc_verdict * list string * table :=
  if (tokenLimit <=? 0) && (tenantLimit <=? 0) then (CcNext, [], t)
  else
    let tenant_leg (held : list string) (t : table) :=
      if tenantLimit >? 0 then
        match tenant with
        | None => (CcNext, held, t)
        | Some id =>
            let (ok, t') := ccLocalAcquire (tenant_key id) leaseID tenantLimit ttl now2 t in
            if ok then (CcNext, held ++ [tenant_key id], t')
            else (CcReject "tenant" tenantLimit, held, t')
        end
      else (CcNext, held, t) in
    if tokenLimit >? 0 then
      match token with
      | None => tenant_leg [] t
      | Some id =>
          let (ok, t') := ccLocalAcquire (token_key id) leaseID tokenLimit ttl now1 t in
          if ok then tenant_leg [token_key id] t'
          else (CcReject "token" tokenLimit, [], t')
      end
    else tenant_leg [] t.

(** The deferred releases, last acquired first. *)
Definition cc_exit (held : list string) (leaseID : string) (t : table) : table :=
  foldl (fun t key => ccLocalRelease key leaseID t) t (rev held).

(** ** Redis backend *)

(** The sorted set of one key: lease to score, in milliseconds. *)
Abbreviation zset := (gmap string Z).

(** Where an acquire of the Redis backend stands. *)
Inductive cc_pc :=
| PcPrune   (* about to ZREMRANGEBYSCORE *)
| PcCard    (* about to ZCARD *)
| PcAdd     (* the count was under the limit, about to ZADD *)
| PcAdmitted
| PcRefused.

#[global] Instance cc_pc_eq_dec : EqDecision cc_pc.
Proof. solve_decision. Defined.

Record caller := mkCaller {
  c_lease : string;
  c_now : Z;  (* milliseconds *)
  c_pc : cc_pc
}.

Definition set_pc (pc : cc_pc) (c : caller) : caller := mkCaller (c_lease c) (c_now c) pc.

(** One command of one caller. *)
Definition redis_command (limit ttl : Z) (c : caller) (z : zset) : caller * zset :=
  match c_pc c with
  | PcPrune => (set_pc PcCard c, filter (fun kv => c_now c - ttl < snd kv) z)
  | PcCard =>
      if Z.of_nat (size z) >=? limit then (set_pc PcRefused c, z) else (set_pc PcAdd c, z)
  | PcAdd => (set_pc PcAdmitted c, <[c_lease c := c_now c]> z)
  | PcAdmitted | PcRefused => (c, z)
  end.

(** [ccRedisAcquire] with no one else in between. *)
Definition ccRedisAcquire (limit ttl : Z) (lease : string) (now : Z) (z : zset) : bool * zset :=
  let c := mkCaller lease now PcPrune in
  let (c, z) := redis_command limit ttl c z in
  let (c, z) := redis_command limit ttl c z in
  let (c, z) := redis_command limit ttl c z in
  (bool_decide (c_pc c = PcAdmitted), z).

(** The callers of one key, and a schedule: which caller runs its next command. *)
Definition redis_run (limit ttl : Z) (sched : list nat) (cs : list caller) (z : zset)
    : list caller * zset :=
  foldl (fun '(cs, z) i =>
    match cs !! i with
    | None => (cs, z)
    | Some c => let (c', z') := redis_command limit ttl c z in (<[i := c']> cs, z')
    end) (cs, z) sched.

End Concurrency.

Section ConcurrencyFacts.
Import GoStrings Concurrency.
Implicit Types (t : table) (sl : slots) (key lease : string).

(** Every slot set is within the limit of its key. *)
Definition within (lim : string -> Z) t : Prop :=
  forall key sl, t !! key = Some sl -> Z.of_nat (size sl) <= lim key.

Lemma live_size ttl now sl : (size (live ttl now sl) <= size sl)%nat.
Proof.
  unfold live. rewrite <- !size_dom. apply subseteq_size. apply dom_filter_subseteq.
Qed.

Lemma live_spec ttl now sl lease at_ :
  live ttl now sl !! lease = Some at_ <-> sl !! lease = Some at_ /\ time_Sub now at_ <= ttl.
Proof. unfold live. by rewrite map_lookup_filter_Some. Qed.

Lemma acquire_within lim key lease ttl now t :
  within lim t -> 0 <= lim key ->
  within lim (snd (ccLocalAcquire key lease (lim key) ttl now t)).
Proof.
  intros Hw Hpos. unfold ccLocalAcquire. set (sl := live ttl now (default ∅ (t !! key))).
  assert (Hsl : Z.of_nat (size sl) <= lim key).
  { pose proof (live_size ttl now (default ∅ (t !! key))). fold sl in H.
    destruct (t !! key) as [sl0|] eqn:E; simpl in *.
    - specialize (Hw key sl0 E). lia.
    - rewrite map_size_empty in H. lia. }
  rewrite Z.geb_leb. destruct (Z.leb_spec (lim key) (Z.of_nat (size sl))); simpl; intros k s0.
  - rewrite lookup_insert_Some. intros [[<- <-]|[_ Hk]]; [lia|by apply (Hw k)].
  - rewrite lookup_insert_Some. intros [[<- <-]|[_ Hk]]; [|by apply (Hw k)].
    destruct (sl !! lease) as [a|] eqn:El.
    + rewrite map_size_insert_Some by eauto. lia.
    + rewrite map_size_insert_None by done. lia.
Qed.

Lemma release_within lim key lease t : within lim t -> within lim (ccLocalRelease key lease t).
Proof.
  intros Hw. unfold ccLocalRelease. destruct (t !! key) as [sl|] eqn:E; [|done].
  case_decide; intros k s0.
  - rewrite lookup_delete_Some. intros [_ Hk]. by apply (Hw k).
  - rewrite lookup_insert_Some. intros [[<- <-]|[_ Hk]]; [|by apply (Hw k)].
    specialize (Hw key sl E). pose proof (map_size_delete lease sl) as Hd.
    destruct (sl !! lease); simpl in Hd; lia.
Qed.

(** A lease is released from a key. *)
Definition no_lease key lease t : Prop := forall sl, t !! key = Some sl -> sl !! lease = None.

Lemma release_no_lease key lease t : no_lease key lease (ccLocalRelease key lease t).
Proof.
  unfold ccLocalRelease, no_lease. destruct (t !! key) as [sl|] eqn:E; [|by rewrite E].
  case_decide; intros s0.
  - by rewrite lookup_delete_eq.
  - rewrite lookup_insert_eq. intros [= <-]. apply lookup_delete_eq.
Qed.

Lemma release_keeps key lease key' lease' t :
  no_lease key' lease' t -> no_lease key' lease' (ccLocalRelease key lease t).
Proof.
  intros Hn. unfold ccLocalRelease. destruct (t !! key) as [sl|] eqn:E; [|done].
  case_decide; intros s0.
  - rewrite lookup_delete_Some. intros [_ Hk]. by apply Hn.
  - rewrite lookup_insert_Some. intros [[<- <-]|[_ Hk]]; [|by apply Hn].
    specialize (Hn sl E). rewrite lookup_delete. by case_decide.
Qed.

(** A failed acquire, or an acquire of another key, adds no lease. *)
Lemma acquire_no_lease key lease limit ttl now t key' :
  no_lease key' lease t ->
  (key' <> key \/ fst (ccLocalAcquire key lease limit ttl now t) = false) ->
  no_lease key' lease (snd (ccLocalAcquire key lease limit ttl now t)).
Proof.
  intros Hn Hor. unfold ccLocalAcquire in *.
  set (sl := live ttl now (default ∅ (t !! key))) in *.
  assert (Hlive : key' = key -> sl !! lease = None).
  { intros ->. unfold sl. destruct (t !! key) as [s0|] eqn:E; simpl.
    - apply eq_None_not_Some. intros [a [Ha _]%live_spec]. specialize (Hn s0 E). congruence.
    - unfold live. by rewrite map_filter_empty. }
  destruct (_ >=? limit); simpl in *; intros s0.
  - rewrite lookup_insert_Some. intros [[<- <-]|[_ Hk]]; [auto|by apply Hn].
  - destruct Hor as [Hne|]; [|done]. rewrite lookup_insert_ne by done. apply Hn.
Qed.

Lemma exit_no_lease held lease t key :
  (key ∈ held \/ no_lease key lease t) -> no_lease key lease (cc_exit held lease t).
Proof.
  unfold cc_exit. assert (key ∈ held <-> key ∈ rev held) as -> by (rewrite !list_elem_of_In; apply in_rev).
  generalize (rev held) as ks. intros ks. revert t.
  induction ks as [|k ks IH]; intros t Hor; simpl.
  { destruct Hor as [Hin|]; [inversion Hin|done]. }
  apply IH. destruct Hor as [[->|Hin]%elem_of_cons|Hn].
  - right. apply release_no_lease.
  - by left.
  - right. by apply release_keeps.
Qed.
End ConcurrencyFacts.

(** ** Theorems *)

Section ConcurrencyProperties.
Import GoStrings Concurrency.

(** One admission or release of the in-process backend; the limit of a key is
    fixed. *)
Inductive cc_step (lim : string -> Z) (t : table) : table -> Prop :=
| cc_acquire key lease ttl now :
    0 <= lim key -> cc_step lim t (snd (ccLocalAcquire key lease (lim key) ttl now t))
| cc_release key lease : cc_step lim t (ccLocalRelease key lease t).

(** The in-process cap holds: after any sequence of acquires and releases,
    of any leases at any times and with any lease TTLs, no key holds more slots
    than its limit. *)
Theorem ccLocal_bound lim t :
  reachable (cc_step lim) ∅ t -> forall key sl, t !! key = Some sl -> Z.of_nat (size sl) <= lim key.
Proof.
  intros Hr. change (within lim t). revert t Hr. apply reachable_ind_inv.
  - intros key sl Hk. by rewrite lookup_empty in Hk.
  - intros t t' Hw [key lease ttl now Hpos|key lease].
    + by apply acquire_within.
    + by apply release_within.
Qed.

(** A request leaves no slot behind.  For a request whose lease id is new,
    whatever the limits, the ids and the verdict, running the deferred releases
    after the middleware leaves its lease in no slot set, also when the tenant
    leg refused after the token leg had admitted. *)
Theorem cc_request_releases tokenLimit tenantLimit ttl token tenant lease now1 now2 t :
  (forall key, no_lease key lease t) ->
  let '(v, held, t') := cc_enter tokenLimit tenantLimit ttl token tenant lease now1 now2 t in
  forall key, no_lease key lease (cc_exit held lease t').
Proof.
  intros Hnew.
  assert (Htenant : forall held t0, (forall key, key ∈ held \/ no_lease key lease t0) ->
    let '(v, held', t') :=
      (if tenantLimit >? 0 then
         match tenant with
         | None => (CcNext, held, t0)
         | Some id =>
             let (ok, t'') := ccLocalAcquire (tenant_key id) lease tenantLimit ttl now2 t0 in
             if ok then (CcNext, held ++ [tenant_key id], t'')
             else (CcReject "tenant" tenantLimit, held, t'')
         end
       else (CcNext, held, t0)) in
    forall key, no_lease key lease (cc_exit held' lease t')).
  { intros held t0 H0. destruct (tenantLimit >? 0); [|intros key; by apply exit_no_lease].
    destruct tenant as [id|]; [|intros key; by apply exit_no_lease].
    pose proof (fun key => acquire_no_lease (tenant_key id) lease tenantLimit ttl now2 t0 key) as Ha.
    destruct (ccLocalAcquire _ _ _ _ _ _) as [ok t1]. simpl in Ha.
    destruct ok; intros key; apply exit_no_lease; destruct (H0 key) as [Hin|Hn]; try (by left).
    - left. apply elem_of_app. by left.
    - destruct (decide (key = tenant_key id)) as [->|Hne]; [left|right; apply Ha; auto].
      apply elem_of_app. right. by apply list_elem_of_singleton.
    - right. apply Ha; auto. }
  unfold cc_enter. destruct (_ && _); [intros key; apply exit_no_lease; auto|].
  destruct (tokenLimit >? 0); [|apply Htenant; auto].
  destruct token as [id|]; [|apply Htenant; auto].
  pose proof (fun key => acquire_no_lease (token_key id) lease tokenLimit ttl now1 t key) as Ha.
  destruct (ccLocalAcquire _ _ _ _ _ _) as [ok t1]. simpl in Ha. destruct ok.
  - apply Htenant. intros key. destruct (decide (key = token_key id)) as [->|Hne].
    + left. by apply list_elem_of_singleton.
    + right. apply Ha; auto.
  - intros key. apply exit_no_lease. right. apply Ha; auto.
Qed.

(** The Redis cap can be overrun.  The acquire reads the count and adds the
    lease in separate commands, so with one free slot two replicas that
    interleave both see room and both are admitted: one slot more than the
    limit.  Run one after the other, the second is refused. *)
Theorem ccRedis_overadmits limit ttl now (z : zset) l1 l2 :
  (forall lease at_, z !! lease = Some at_ -> now - ttl < at_) ->
  Z.of_nat (size z) + 1 = limit -> z !! l1 = None -> z !! l2 = None -> l1 <> l2 -> 0 < ttl ->
  let a := mkCaller l1 now PcPrune in
  let b := mkCaller l2 now PcPrune in
  let '(cs, z') := redis_run limit ttl [0; 1; 0; 1; 0; 1]%nat [a; b] z in
  (c_pc <$> cs) = [PcAdmitted; PcAdmitted] /\ Z.of_nat (size z') = limit + 1 /\
  let (ok1, z1) := ccRedisAcquire limit ttl l1 now z in
  ok1 = true /\ ccRedisAcquire limit ttl l2 now z1 = (false, z1).
Proof.
  intros Hlive Hsize H1 H2 Hne Httl.
  assert (Hprune : filter (fun kv : string * Z => now - ttl < snd kv) z = z).
  { apply map_filter_id. intros lease at_ Hl. simpl. by eapply Hlive. }
  assert (Hroom : (Z.of_nat (size z) >=? limit) = false) by (rewrite Z.geb_leb; apply Z.leb_gt; lia).
  assert (Hprune1 : filter (fun kv : string * Z => now - ttl < snd kv) (<[l1 := now]> z)
                    = <[l1 := now]> z).
  { apply map_filter_id. intros lease at_. rewrite lookup_insert_Some. simpl.
    intros [[_ <-]|[_ Hl]]; [lia|by eapply Hlive]. }
  assert (Hsize1 : size (<[l1 := now]> z) = S (size z)) by by apply map_size_insert_None.
  unfold redis_run, ccRedisAcquire. simpl. unfold redis_command; simpl.
  rewrite !Hprune; simpl. rewrite !Hroom; simpl.
  split_and!; [done| |done|].
  - rewrite map_size_insert_None, Hsize1; [lia|]. by rewrite lookup_insert_ne.
  - rewrite Hprune1. simpl. replace (Z.of_nat (size (<[l1 := now]> z)) >=? limit) with true; [done|].
    symmetry. rewrite Z.geb_leb. apply Z.leb_le. lia.
Qed.
End ConcurrencyProperties.

Section ConcurrencyWitnesses.
Import GoStrings Concurrency.

Lemma ccLocal_bound_witness :
  fst (ccLocalAcquire "k" "a" 1 5 10 ∅) = true /\
  match snd (ccLocalAcquire "k" "a" 1 5 10 ∅) !! "k" with
  | Some sl => Z.of_nat (size sl) <= 1
  | None => False
  end.
Proof.
  split; [reflexivity|].
  pose proof (ccLocal_bound (fun _ => 1) (snd (ccLocalAcquire "k" "a" 1 5 10 ∅))) as H.
  specialize (fun R => H R "k" _ eq_refl). apply H.
  eapply reach_step; [apply reach_init|].
  apply (cc_acquire (fun _ => 1) ∅ "k" "a" 5 10). lia.
Defined.

Lemma cc_request_releases_witness :
  snd (fst (cc_enter 1 0 5 (Some "7") None "lease" 10 10 ∅)) = [token_key "7"] /\
  no_lease (token_key "7") "lease"
    (cc_exit (snd (fst (cc_enter 1 0 5 (Some "7") None "lease" 10 10 ∅))) "lease"
       (snd (cc_enter 1 0 5 (Some "7") None "lease" 10 10 ∅))).
Proof.
  split; [reflexivity|].
  pose proof (cc_request_releases 1 0 5 (Some "7") None "lease" 10 10 ∅) as H.
  destruct (cc_enter _ _ _ _ _ _ _ _ _) as [[v held] t']. apply H.
  intros key sl Hk. by rewrite lookup_empty in Hk.
Defined.

Lemma ccRedis_overadmits_witness :
  let a := mkCaller "a" 10 PcPrune in
  let b := mkCaller "b" 10 PcPrune in
  let '(cs, z') := redis_run 1 5 [0; 1; 0; 1; 0; 1]%nat [a; b] ∅ in
  (c_pc <$> cs) = [PcAdmitted; PcAdmitted] /\ Z.of_nat (size z') = 2 /\
  let (ok1, z1) := ccRedisAcquire 1 5 "a" 10 ∅ in
  ok1 = true /\ ccRedisAcquire 1 5 "b" 10 z1 = (false, z1).
Proof.
  apply (ccRedis_overadmits 1 5 10 ∅ "a" "b").
  - intros lease at_ Hl. by rewrite lookup_empty in Hl.
  - reflexivity.
  - reflexivity.
  - reflexivity.
  - discriminate.
  - lia.
Defined.
End ConcurrencyWitnesses.
