(* ===== verification/PlatformBilling.v ===== *)
(** * The platform wallet's client side

    Model of internal/pkg/currency (quota to yuan), of the error values and the
    HTTP classification of internal/pkg/common/billing_client.go, of the breaker
    of internal/pkg/common/billing_breaker.go and of the admission policies of
    internal/pkg/common/billing_cache.go.

    Amounts are IEEE doubles ([spec_float]).  The platform is an argument: what
    came back over HTTP.  The wallet cache and the degraded-spend counter live in
    Redis; what a read of them answered is an argument too. *)

From Stdlib Require Import SpecFloat.
From stdpp Require Import pretty.
From S2P Require Import Prelude GoStrings.

Module PlatformBilling.
Import GoStrings.

(** ** Doubles *)

Abbreviation float64 := spec_float.

Definition f64_of_int (z : Z) : float64 := binary_normalize 53 1024 z 0 false.
Definition f64_mul : float64 -> float64 -> float64 := SFmul 53 1024.
Definition f64_div : float64 -> float64 -> float64 := SFdiv 53 1024.
Definition f64_zero : float64 := S754_zero false.

(** [a > b]. *)
Definition f64_gt (a b : float64) : bool := SFltb b a.

(** [int64(math.Round(x))]: half away from zero; what does not fit in an int64
    converts to the smallest one, as on amd64. *)
Definition round64 (x : float64) : Z :=
  match x with
  | S754_zero _ => 0
  | S754_finite s m e =>
      let a := if 0 <=? e then Z.pos m * 2 ^ e
               else (Z.pos m + 2 ^ (- e - 1)) / 2 ^ (- e) in
      let z := if s then - a else a in
      if in64b z then z else i64_min
  | _ => i64_min
  end.

(** [int(x)]: towards zero. *)
Definition trunc64 (x : float64) : Z :=
  match x with
  | S754_zero _ => 0
  | S754_finite s m e =>
      let a := if 0 <=? e then Z.pos m * 2 ^ e else Z.pos m / 2 ^ (- e) in
      let z := if s then - a else a in
      if in64b z then z else i64_min
  | _ => i64_min
  end.

(** ** Currency *)

(** [var QuotaPerUnit = 500 * 1000.0]; both rates can be changed at run time. *)
Definition QuotaPerUnit : float64 := f64_of_int 500000.
Definition DefaultUSDExchangeRate : float64 := f64_div (f64_of_int 73) (f64_of_int 10).
Definition CNYUnits4PerYuan : Z := 10000.

Record rates := mkRates {
  quota_per_unit : float64;
  usd_exchange_rate : float64
}.

Definition default_rates : rates := mkRates QuotaPerUnit DefaultUSDExchangeRate.

Definition LucToLut (r : rates) : float64 :=
  let rate := if SFleb (usd_exchange_rate r) f64_zero then DefaultUSDExchangeRate
              else usd_exchange_rate r in
  f64_div (quota_per_unit r) rate.

Definition QuotaToCNY (r : rates) (quota : Z) : float64 := f64_div (f64_of_int quota) (LucToLut r).

Definition CNYToUnits4 (cny : float64) : Z := round64 (f64_mul cny (f64_of_int CNYUnits4PerYuan)).

Definition GetTrustQuota (r : rates) : Z := trunc64 (f64_mul (f64_of_int 10) (quota_per_unit r)).

(** ** Error values *)

Inductive goerr :=
| ErrInsufficientBalance
| InsufficientBalanceError (TopupURL : string)
| PlatformRejectedError (Op : string) (Status : Z) (Reason : string)
| Errorf (msg : string)
| Wrapf (pre : string) (err : goerr).   (* fmt.Errorf("pre%w", err) *)

Fixpoint Error (e : goerr) : string :=
  match e with
  | ErrInsufficientBalance | InsufficientBalanceError _ => "insufficient_balance"
  | PlatformRejectedError op st rsn =>
      op +:+ " rejected by billing service: status=" +:+ pretty st +:+ " reason=" +:+ rsn
  | Errorf msg => msg
  | Wrapf pre err => pre +:+ Error err
  end.

(** [errors.Is(err, ErrInsufficientBalance)]. *)
Fixpoint is_insufficient (e : goerr) : bool :=
  match e with
  | ErrInsufficientBalance | InsufficientBalanceError _ => true
  | Wrapf _ err => is_insufficient err
  | _ => false
  end.

(** [errors.As(err, &rejected)]. *)
Fixpoint as_rejected (e : goerr) : option (string * Z * string) :=
  match e with
  | PlatformRejectedError op st rsn => Some (op, st, rsn)
  | Wrapf _ err => as_rejected err
  | _ => None
  end.

Fixpoint PlatformTopupURL (e : goerr) : string :=
  match e with
  | InsufficientBalanceError url => url
  | Wrapf _ err => PlatformTopupURL err
  | _ => ""
  end.

Definition platformAnswered (err : option goerr) : bool :=
  match err with
  | None => false
  | Some e =>
      if is_insufficient e then true
      else match as_rejected e with
           | Some _ => true
           | None => Contains (Error e) (Error ErrInsufficientBalance)
           end
  end.

Definition StatusOK : Z := 200.
Definition StatusCreated : Z := 201.
Definition StatusBadRequest : Z := 400.
Definition StatusPaymentRequired : Z := 402.
Definition StatusNotFound : Z := 404.
Definition StatusConflict : Z := 409.

Definition isPreAuthVerdict (status : Z) : bool :=
  (status =? StatusBadRequest) || (status =? StatusNotFound) || (status =? StatusConflict).

Definition PreAuthRetryIsFutile (e : goerr) : bool :=
  match as_rejected e with
  | None => false
  | Some (_, st, _) => (st =? StatusNotFound) || (st =? StatusConflict)
  end.

Definition insufficientBalanceCode : string := "insufficient_balance".

Definition mayCarryInsufficientBalance (status : Z) : bool :=
  (status =? StatusBadRequest) || (status =? StatusPaymentRequired) || (status =? StatusConflict).

(** ** The HTTP calls *)

(** What a call brought back: no answer at all, or a status with the decoded
    body: its error code (the empty string when it did not parse), the absolute
    top-up link found in it (the empty string when there is none), and the hold id
    of a success body ([None] when it did not decode). *)
Inductive http :=
| NoAnswer
| Answer (status : Z) (code link : string) (preAuthID : option Z).

Definition reason (code : string) : string := if String.eqb code "" then "unknown" else code.

Definition insufficientBalanceErr (link : string) : goerr :=
  if String.eqb link "" then ErrInsufficientBalance else InsufficientBalanceError link.

Definition PreAuthorize (configured : bool) (reply : http) : result goerr Z :=
  if negb configured then Err (Errorf "billing service not configured")
  else match reply with
  | NoAnswer => Err (Errorf "billing service unavailable")
  | Answer status code link body =>
      if mayCarryInsufficientBalance status then
        if String.eqb (reason code) insufficientBalanceCode then Err (insufficientBalanceErr link)
        else if negb (status =? StatusBadRequest) then Err (Errorf "billing service unavailable")
        else Err (PlatformRejectedError "pre-authorize" status (reason code))
      else if negb (status =? StatusOK) && negb (status =? StatusCreated) then
        Err (Errorf "billing service unavailable")
      else match body with
           | None => Err (Errorf "billing service error")
           | Some id => Ok id
           end
  end.

Definition SettlePreAuth (configured : bool) (reply : http) : result goerr unit :=
  if negb configured then Err (Errorf "billing service not configured")
  else match reply with
  | NoAnswer => Err (Errorf "settle: billing service unreachable")
  | Answer status code _ body =>
      if negb (status =? StatusOK) then
        if isPreAuthVerdict status then Err (PlatformRejectedError "settle" status (reason code))
        else Err (Errorf ("settle failed: " +:+ reason code))
      else match body with
           | None => Err (Errorf "settle response decode failed")
           | Some _ => Ok tt
           end
  end.

Definition ReleasePreAuth (configured : bool) (reply : http) : result goerr unit :=
  if negb configured then Err (Errorf "billing service not configured")
  else match reply with
  | NoAnswer => Err (Errorf "release: billing service unreachable")
  | Answer status code _ _ =>
      if negb (status =? StatusOK) then
        if isPreAuthVerdict status then Err (PlatformRejectedError "release" status (reason code))
        else Err (Errorf ("release failed: " +:+ reason code))
      else Ok tt
  end.

(** ** The breaker *)

Definition BillingBreakerDefaultThreshold : Z := 3.
Definition BillingBreakerDefaultTimeout : Z := 15 * second.
Definition BillingBreakerDefaultHalfOpenTimeout : Z := 15 * second.

Inductive bstate := BClosed | BOpen | BHalfOpen.

#[global] Instance bstate_eq_dec : EqDecision bstate.
Proof. solve_decision. Defined.

Record platformBreaker := mkBreaker {
  b_fails : Z;
  b_lastFail : Z;
  b_state : bstate;
  b_halfOpenSince : Z;
  b_threshold : Z;
  b_timeout : Z;
  b_halfOpenTimeout : Z
}.

Definition billingBreaker : platformBreaker :=
  mkBreaker 0 time_zero BClosed time_zero BillingBreakerDefaultThreshold
    BillingBreakerDefaultTimeout BillingBreakerDefaultHalfOpenTimeout.

Definition ConfigureBillingBreaker (threshold timeout halfOpenTimeout : Z) (b : platformBreaker)
    : platformBreaker :=
  mkBreaker 0 time_zero BClosed time_zero
    (if threshold >? 0 then threshold else b_threshold b)
    (if timeout >? 0 then timeout else b_timeout b)
    (if halfOpenTimeout >? 0 then halfOpenTimeout else b_halfOpenTimeout b).

Definition errCircuitOpen : goerr :=
  Errorf "billing service temporarily unavailable (circuit open)".
Definition errProbing : goerr := Errorf "billing service recovering (probe in progress)".

(** [None] is a nil error.  The seconds left in the circuit-open text are left
    out. *)
Definition BillingBreakerAllow (now : Z) (b : platformBreaker) : option goerr * platformBreaker :=
  match b_state b with
  | BClosed => (None, b)
  | BOpen =>
      if time_Sub now (b_lastFail b) >=? b_timeout b
      then (None, mkBreaker (b_fails b) (b_lastFail b) BHalfOpen now (b_threshold b) (b_timeout b)
                    (b_halfOpenTimeout b))
      else (Some errCircuitOpen, b)
  | BHalfOpen =>
      if time_Sub now (b_halfOpenSince b) >=? b_halfOpenTimeout b
      then (None, mkBreaker (b_fails b) (b_lastFail b) BHalfOpen now (b_threshold b) (b_timeout b)
                    (b_halfOpenTimeout b))
      else (Some errProbing, b)
  end.

Definition BillingBreakerIsOpen (b : platformBreaker) : bool := bool_decide (b_state b = BOpen).

Definition BillingBreakerState (b : platformBreaker) : string :=
  match b_state b with BOpen => "open" | BHalfOpen => "half_open" | BClosed => "closed" end.

Definition BillingBreakerSuccess (b : platformBreaker) : platformBreaker :=
  mkBreaker 0 (b_lastFail b) BClosed time_zero (b_threshold b) (b_timeout b) (b_halfOpenTimeout b).

Definition BillingBreakerFailure (now : Z) (b : platformBreaker) : platformBreaker :=
  let fails := i64_add (b_fails b) 1 in
  match b_state b with
  | BClosed =>
      mkBreaker fails now (if fails >=? b_threshold b then BOpen else BClosed) (b_halfOpenSince b)
        (b_threshold b) (b_timeout b) (b_halfOpenTimeout b)
  | BHalfOpen =>
      mkBreaker fails now BOpen time_zero (b_threshold b) (b_timeout b) (b_halfOpenTimeout b)
  | BOpen =>
      mkBreaker fails now BOpen (b_halfOpenSince b) (b_threshold b) (b_timeout b)
        (b_halfOpenTimeout b)
  end.

(** [canceled] is [errors.Is(ctx.Err(), context.Canceled)]. *)
Definition recordBillingOutcome (canceled : bool) (now : Z) (err : option goerr)
    (b : platformBreaker) : platformBreaker :=
  match err with
  | None => BillingBreakerSuccess b
  | Some _ =>
      if platformAnswered err then BillingBreakerSuccess b
      else if canceled then b
      else BillingBreakerFailure now b
  end.

Definition err_of {A} (r : result goerr A) : option goerr :=
  match r with Ok _ => None | Err e => Some e end.

(** A call through the breaker: the answer [reply], asked for at [now] and
    recorded at [now'].  The shape of [PreAuthorizeWithBreaker],
    [SettleWithBreaker] and [ReleaseWithBreaker]; the flag says whether the
    platform was called. *)
Definition with_breaker {A} (reply : result goerr A) (canceled : bool) (now now' : Z)
    (b : platformBreaker) : result goerr A * bool * platformBreaker :=
  let (refused, b) := BillingBreakerAllow now b in
  match refused with
  | Some e => (Err e, false, b)
  | None => (reply, true, recordBillingOutcome canceled now' (err_of reply) b)
  end.

(** ** Admission policies *)

Definition walletTrustThreshold : float64 := f64_of_int 10.

(** [cached] is what [GetCachedWalletBalance] answered. *)
Definition ShouldSkipPreAuth (enabled : bool) (cached : option float64) (estimatedLB : float64)
    : bool :=
  if negb enabled then false
  else match cached with
  | None => false
  | Some balance =>
      f64_gt balance walletTrustThreshold && f64_gt balance (f64_mul estimatedLB (f64_of_int 3))
  end.

Definition degradeAdmissible (breakerOpen : bool) (cached : option float64) (estimatedLB : float64)
    (preAuthErr : option goerr) : bool :=
  if negb breakerOpen then false
  else if platformAnswered preAuthErr then false
  else match cached with
  | None => false
  | Some balance =>
      f64_gt balance walletTrustThreshold && f64_gt balance (f64_mul estimatedLB (f64_of_int 3))
  end.

(** [current] is the tenant's counter ([None] without Redis) and [incr_ok] whether
    the increment went through. *)
Definition reserveDegradedSpend (cap : float64) (current : option float64) (incr_ok : bool) : bool :=
  match current with
  | None => false
  | Some cur => if SFleb cap cur then false else incr_ok
  end.

Definition TryDegradedPreAuth (b : platformBreaker) (cached : option float64)
    (cap : float64) (current : option float64) (incr_ok : bool) (estimatedLB : float64)
    (preAuthErr : option goerr) : bool :=
  degradeAdmissible (BillingBreakerIsOpen b) cached estimatedLB preAuthErr &&
  reserveDegradedSpend cap current incr_ok.

End PlatformBilling.

Section PlatformBillingFacts.
Import GoStrings PlatformBilling.
Implicit Types (b : platformBreaker) (e : goerr).

(** One reported outcome: whether our caller had given up, when, and the error. *)
Definition report : Type := bool * Z * option goerr.

(** The report counts as an answer of the platform. *)
Definition answered (r : report) : bool :=
  match r.2 with None => true | Some _ => platformAnswered r.2 end.

Definition record (b : platformBreaker) (r : report) : platformBreaker :=
  recordBillingOutcome r.1.1 r.1.2 r.2 b.

(** Calls that got no answer since the last one that did. *)
Definition unanswered (rs : list report) : Z :=
  foldl (fun n r => if answered r then 0 else if r.1.1 then n else n + 1) 0 rs.

Lemma unanswered_app rs r :
  unanswered (rs ++ [r]) =
  if answered r then 0 else if r.1.1 then unanswered rs else unanswered rs + 1.
Proof. unfold unanswered. by rewrite foldl_app. Qed.

Lemma unanswered_range rs : 0 <= unanswered rs <= Z.of_nat (length rs).
Proof.
  induction rs as [|r rs IH] using rev_ind; [done|].
  rewrite unanswered_app, length_app. simpl. repeat case_match; lia.
Qed.

Lemma record_cases b r :
  record b r = if answered r then BillingBreakerSuccess b
               else if r.1.1 then b else BillingBreakerFailure r.1.2 b.
Proof.
  destruct r as [[canceled now] [e|]]; [|done]. unfold record, recordBillingOutcome, answered.
  cbn [fst snd]. by destruct (platformAnswered (Some e)).
Qed.

Lemma breaker_count b rs :
  b_state b = BClosed -> b_fails b = 0 -> 0 < b_threshold b ->
  Z.of_nat (length rs) <= i64_max ->
  let b' := foldl record b rs in
  b_threshold b' = b_threshold b /\ b_fails b' = unanswered rs /\
  b_state b' = if unanswered rs >=? b_threshold b then BOpen else BClosed.
Proof.
  intros Hst Hf Ht. induction rs as [|r rs IH] using rev_ind; intros Hlen.
  - simpl. rewrite Hst, Hf. change (unanswered []) with 0.
    rewrite Z.geb_leb, (proj2 (Z.leb_gt _ _)) by lia. done.
  - rewrite length_app in Hlen. simpl in Hlen.
    destruct (IH ltac:(lia)) as (H1 & H2 & H3). clear IH.
    rewrite foldl_app. cbn [foldl]. set (b1 := foldl record b rs) in *. cbn zeta in *.
    pose proof (unanswered_range rs) as Hr.
    rewrite record_cases, unanswered_app. destruct (answered r).
    { rewrite Z.geb_leb, (proj2 (Z.leb_gt _ _)) by lia. cbn. done. }
    destruct (r.1.1); [done|]. unfold BillingBreakerFailure.
    assert (Hadd : i64_add (b_fails b1) 1 = unanswered rs + 1).
    { unfold i64_add. rewrite wrap64_id; [lia|]. unfold64. unfold i64_max, i64_half in Hlen. lia. }
    rewrite Hadd, H3. destruct (unanswered rs >=? b_threshold b) eqn:E; cbn [b_threshold b_fails b_state].
    + rewrite Z.geb_leb in E. bool_to_prop. rewrite Z.geb_leb, (proj2 (Z.leb_le _ _)) by lia. done.
    + by rewrite H1.
Qed.

Lemma not_a_verdict msg :
  Contains msg "insufficient_balance" = false -> platformAnswered (Some (Errorf msg)) = false.
Proof. done. Qed.
End PlatformBillingFacts.

Section PlatformBillingProperties.
Import GoStrings PlatformBilling.

(** The billing breaker counts only silence.  Fed any sequence of call
    outcomes, a fresh breaker is open exactly when the calls that got no answer
    since the last one that did reach the threshold, calls our own side gave up
    on not counting; and no state wedges it: once the cooldown and the probe
    deadline have passed, a call is admitted whatever the state. *)
Theorem billing_breaker_counts (b : platformBreaker) (rs : list report) (now : Z) :
  b_state b = BClosed -> b_fails b = 0 -> 0 < b_threshold b ->
  Z.of_nat (length rs) <= i64_max ->
  let b' := foldl record b rs in
  b_state b' = (if unanswered rs >=? b_threshold b then BOpen else BClosed) /\
  forall c : platformBreaker,
    b_timeout c <= time_Sub now (b_lastFail c) ->
    b_halfOpenTimeout c <= time_Sub now (b_halfOpenSince c) ->
    fst (BillingBreakerAllow now c) = None.
Proof.
  intros Hst Hf Ht Hlen b'. split; [by apply breaker_count|].
  intros c H1 H2. unfold BillingBreakerAllow. rewrite !Z.geb_leb.
  destruct (b_state c); [done| |]; by rewrite (proj2 (Z.leb_le _ _)).
Qed.

(** A refusal by the platform is never served unsecured.  When a
    pre-authorisation through the breaker fails, the failure counts as the
    platform's verdict exactly when the platform was asked and answered either
    insufficient_balance under 400, 402 or 409, or any other 400; and after a
    verdict the breaker is closed and the degraded path refuses, whatever the
    cache and the spend counter hold. *)
Theorem verdict_never_degrades configured reply canceled now now' (b : platformBreaker) e called b' :
  with_breaker (PreAuthorize configured reply) canceled now now' b = (Err e, called, b') ->
  (platformAnswered (Some e) = true <->
     called = true /\ configured = true /\
     exists status code link body, reply = Answer status code link body /\
       ((mayCarryInsufficientBalance status = true /\ code = "insufficient_balance") \/
        status = StatusBadRequest)) /\
  (platformAnswered (Some e) = true ->
     b_state b' = BClosed /\
     forall cached cap current incr_ok est,
       TryDegradedPreAuth b' cached cap current incr_ok est (Some e) = false).
Proof.
  intros H. split.
  - unfold with_breaker in H. destruct (BillingBreakerAllow now b) as [[e'|] b1] eqn:Ea.
    { injection H as <- <- <-. assert (platformAnswered (Some e') = false) as ->.
      { revert Ea. unfold BillingBreakerAllow. repeat case_match; naive_solver. }
      naive_solver. }
    unfold PreAuthorize in H. destruct configured; [|injection H as <- <- <-; vm_compute; naive_solver].
    cbn [negb] in H. destruct reply as [|status code link body].
    { injection H as <- <- <-. vm_compute. naive_solver. }
    destruct (mayCarryInsufficientBalance status) eqn:Em.
    + destruct (String.eqb (reason code) insufficientBalanceCode) eqn:Ec.
      { injection H as <- <- <-. apply String.eqb_eq in Ec.
        assert (code = "insufficient_balance") as ->.
        { revert Ec. unfold reason. by destruct (String.eqb code ""). }
        split; [|by destruct (String.eqb link "") eqn:El; unfold insufficientBalanceErr; rewrite El].
        intros _. split_and!; [done..|]. eexists _, _, _, _. split; [done|]. by left. }
      assert (Hne : code <> "insufficient_balance") by (intros ->; discriminate Ec).
      destruct (status =? StatusBadRequest) eqn:Eb; cbn [negb] in H; injection H as <- <- <-.
      * apply Z.eqb_eq in Eb. split; [|done]. intros _. split_and!; [done..|].
        eexists _, _, _, _. split; [done|]. by right.
      * apply Z.eqb_neq in Eb. vm_compute (platformAnswered _). naive_solver.
    + assert (Hs : status <> StatusBadRequest) by (intros ->; discriminate Em).
      destruct (negb (status =? StatusOK) && negb (status =? StatusCreated));
        [|destruct body; [discriminate H|]]; injection H as <- <- <-;
        vm_compute (platformAnswered _); naive_solver.
  - intros Hv. unfold TryDegradedPreAuth, degradeAdmissible. rewrite Hv. split; [|intros; by case_match].
    unfold with_breaker in H. destruct (BillingBreakerAllow now b) as [[e'|] b1] eqn:Ea.
    { injection H as <- <- <-. revert Ea Hv. unfold BillingBreakerAllow.
      repeat case_match; naive_solver. }
    destruct (PreAuthorize configured reply) as [id|e0]; [discriminate H|]. cbn [err_of] in H.
    assert (Hb : b' = recordBillingOutcome canceled now' (Some e0) b1) by congruence.
    assert (e0 = e) as -> by congruence. rewrite Hb. unfold recordBillingOutcome. by rewrite Hv.
Qed.
End PlatformBillingProperties.

Section PlatformBillingWitnesses.
Import GoStrings PlatformBilling.

Definition no_answer_at (t : Z) : report := (false, t, Some (Errorf "billing service unavailable")).

Lemma billing_breaker_counts_witness :
  b_state (foldl record billingBreaker (no_answer_at <$> [1; 2; 3])) = BOpen.
Proof.
  destruct (billing_breaker_counts billingBreaker (no_answer_at <$> [1; 2; 3]) 4) as [H _];
    [reflexivity|reflexivity|reflexivity|discriminate|].
  rewrite H. reflexivity.
Defined.

Lemma verdict_never_degrades_witness :
  let e := PlatformRejectedError "pre-authorize" 400 "wallet_frozen" in
  platformAnswered (Some e) = true /\
  forall cached cap current incr_ok est,
    TryDegradedPreAuth billingBreaker cached cap current incr_ok est (Some e) = false.
Proof.
  set (e := PlatformRejectedError "pre-authorize" 400 "wallet_frozen").
  assert (H : with_breaker (PreAuthorize true (Answer 400 "wallet_frozen" "" None)) false 5 6
                billingBreaker = (Err e, true, billingBreaker)) by (vm_compute; reflexivity).
  split; [reflexivity|].
  apply (verdict_never_degrades true (Answer 400 "wallet_frozen" "" None) false 5 6 billingBreaker
           e true billingBreaker H). reflexivity.
Defined.
End PlatformBillingWitnesses.
