(* ===== verification/Outbox.v ===== *)
(** * The billing outboxes

    Model of internal/app/billing_outbox.go, internal/app/billing_debit_outbox.go
    and internal/domain/entity/billing_outbox.go: wallet movements whose live
    call failed are parked in a table and retried by the replicas' tickers.  A
    worker claims due rows by flipping them to [processing] in one statement,
    calls the platform for each, and writes the outcome if the row is still
    [processing].

    The two tables share the claim statement through the class [OutboxRow].  An
    amount is stored and passed on, never computed with.  What the platform
    answers to a call is an argument. *)

From Stdlib Require Import SpecFloat.
From S2P Require Import Prelude GoStrings Concurrency PlatformBilling.

Module Outbox.
Import GoStrings PlatformBilling.

Definition outboxActionSettle : string := "settle".
Definition outboxActionRelease : string := "release".
Definition outboxMaxRetries : Z := 10.

Inductive status := pending | processing | done_ | failed.

#[global] Instance status_eq_dec : EqDecision status.
Proof. solve_decision. Defined.

Definition outboxMaxBackoff : Z := 5 * minute.
Definition outboxClaimLease : Z := 5 * minute.
Definition outboxBatch : nat := 50.
Definition outboxCallTimeout : Z := 5 * second.

(** How long the platform keeps a hold settleable. *)
Definition PreAuthHoldTTL : Z := hour.

(** [time.Duration(math.Pow(2, retry)) * 5 * time.Second], capped.  [2^retry] is
    exact as a float, and converts exactly below [2^63]. *)
Definition outboxBackoff (retry : Z) : Z :=
  let d := i64_mul (i64_mul (2 ^ retry) 5) second in
  Z.min d outboxMaxBackoff.

(** The loop [for retry := 1; retry < outboxMaxRetries; retry++]. *)
Definition OutboxRetryHorizon : Z :=
  sumZ outboxBackoff (seqZ 1 (outboxMaxRetries - 1)).

Record BillingOutbox := mkBox {
  b_ID : Z;
  b_AccountID : Z;
  b_PreAuthID : Z;
  b_Action : string;
  b_AmountLB : float64;
  b_Status : status;
  b_RetryCount : Z;
  b_NextRetry : Z;
  b_Error : string;
  b_CreatedAt : Z;
  b_UpdatedAt : Z
}.

Record BillingDebitOutbox := mkDebit {
  t_ID : Z;
  t_AccountID : Z;
  t_RefID : string;
  t_AmountLB : float64;
  t_TxType : string;
  t_Description : string;
  t_ProductID : string;
  t_Status : status;
  t_RetryCount : Z;
  t_NextRetry : Z;
  t_Error : string;
  t_CreatedAt : Z;
  t_UpdatedAt : Z
}.

(** ** The columns the two tables share *)

Class OutboxRow (R : Type) : Type := {
  row_id : R -> Z;
  row_status : R -> status;
  row_retries : R -> Z;
  row_next : R -> Z;
  row_updated : R -> Z;
  (** status, retry count, next retry, error and update time replaced *)
  row_set : status -> Z -> Z -> string -> Z -> R -> R;
  row_error : R -> string;
  row_set_spec st n nx err up r :
    row_id (row_set st n nx err up r) = row_id r /\
    row_status (row_set st n nx err up r) = st /\
    row_retries (row_set st n nx err up r) = n /\
    row_next (row_set st n nx err up r) = nx /\
    row_updated (row_set st n nx err up r) = up
}.

#[global] Program Instance BillingOutbox_row : OutboxRow BillingOutbox := {|
  row_id := b_ID;
  row_status := b_Status;
  row_retries := b_RetryCount;
  row_next := b_NextRetry;
  row_updated := b_UpdatedAt;
  row_set st n nx err up r :=
    mkBox (b_ID r) (b_AccountID r) (b_PreAuthID r) (b_Action r) (b_AmountLB r) st n nx err
      (b_CreatedAt r) up;
  row_error := b_Error
|}.
Next Obligation. done. Qed.

#[global] Program Instance BillingDebitOutbox_row : OutboxRow BillingDebitOutbox := {|
  row_id := t_ID;
  row_status := t_Status;
  row_retries := t_RetryCount;
  row_next := t_NextRetry;
  row_updated := t_UpdatedAt;
  row_set st n nx err up r :=
    mkDebit (t_ID r) (t_AccountID r) (t_RefID r) (t_AmountLB r) (t_TxType r) (t_Description r)
      (t_ProductID r) st n nx err (t_CreatedAt r) up;
  row_error := t_Error
|}.
Next Obligation. done. Qed.

(** ** The claim statement *)

Section Claim.
Context {R : Type} `{!OutboxRow R}.

(** [(status = 'pending' AND next_retry <= now) OR (status = 'processing' AND
    updated_at <= now - lease)]. *)
Definition claimable (now : Z) (r : R) : bool :=
  match row_status r with
  | pending => row_next r <=? now
  | processing => row_updated r <=? now - outboxClaimLease
  | _ => false
  end.

Definition next_le (a b : R) : Prop := row_next a <= row_next b.

#[global] Instance next_le_dec a b : Decision (next_le a b).
Proof. unfold next_le. apply _. Defined.

(** [ORDER BY next_retry ASC LIMIT 50]. *)
Definition claim_ids (now : Z) (rows : list R) : list Z :=
  row_id <$> take outboxBatch (merge_sort next_le (List.filter (claimable now) rows)).

Definition claimed_row (now : Z) (r : R) : R :=
  row_set processing (row_retries r) (row_next r) (row_error r) now r.

(** The updated table and the rows the statement returns. *)
Definition claimOutboxRows (now : Z) (rows : list R) : list R * list R :=
  let ids := claim_ids now rows in
  let sel r := bool_decide (row_id r ∈ ids) in
  let rows' := update_where sel (claimed_row now) rows in
  (List.filter sel rows', rows').

(** ** The outcome of a call *)

(** What the platform said: it did it, it refused for good (404 or 409), or the
    call failed in a way a retry may cure. *)
Inductive verdict := Done | Futile (err : string) | Failed (err : string).

(** What the worker computes from the row it claimed: the new status, retry
    count, next retry and error.  [hold] is true for the settle/release table,
    where a final refusal ends the entry. *)
Definition outcome (v : verdict) (now : Z) (hold : bool) (c : R) : status * Z * Z * string :=
  match v with
  | Done => (done_, row_retries c, row_next c, "")
  | Futile err | Failed err =>
      let n := row_retries c + 1 in
      let futile := match v with Futile _ => hold | _ => false end in
      if futile then (failed, n, row_next c, err)
      else if n >=? outboxMaxRetries then (failed, n, row_next c, err)
      else (pending, n, now + outboxBackoff n, err)
  end.

(** [UPDATE ... WHERE id = ? AND status = 'processing'].  [c] is the row as the
    claim returned it; [r] is the row in the table, which may have moved on: a
    success leaves its retry columns alone, and a debit that fails for good
    leaves its [next_retry] alone. *)
Definition outcome_row (v : verdict) (now : Z) (hold : bool) (c r : R) : R :=
  let '(st, n, nx, err) := outcome v now hold c in
  match st with
  | done_ => row_set done_ (row_retries r) (row_next r) err now r
  | failed => row_set failed n (if hold then nx else row_next r) err now r
  | _ => row_set st n nx err now r
  end.

Definition write_outcome (v : verdict) (now : Z) (hold : bool) (c : R) (rows : list R) : list R :=
  update_where (fun r => (row_id r =? row_id c) && bool_decide (row_status r = processing))
    (outcome_row v now hold c) rows.
End Claim.
#[global] Arguments claimOutboxRows : simpl never.

(** ** Tables and operations *)

Record outboxdb := mkOb {
  holds : list BillingOutbox;
  debits : list BillingDebitOutbox;
  seq_hold : Z;
  seq_debit : Z
}.

Inductive outbox_err := ErrNotInitialized | ErrEnqueue | ErrOutboxDB.

#[global] Instance outbox_err_db : DbError outbox_err := ErrOutboxDB.

Abbreviation B A := (M outboxdb outbox_err A).

Definition enqueue_hold (accountID preAuthID : Z) (action : string) (amountLB : float64) (now : Z) : B unit :=
  stmt (fun db =>
    if existsb (fun r => (b_PreAuthID r =? preAuthID) && String.eqb (b_Action r) action) (holds db)
    then Err ErrOutboxDB
    else Ok (tt, mkOb (holds db ++ [mkBox (seq_hold db) accountID preAuthID action amountLB pending
                                      0 now "" now now])
                   (debits db) (seq_hold db + 1) (seq_debit db))).

(** [initialized] is [billingOutboxDB != nil]. *)
Definition EnqueueSettle (initialized : bool) (accountID preAuthID : Z) (amountLB : float64) (now : Z)
    : B unit :=
  if negb initialized then throw ErrNotInitialized
  else enqueue_hold accountID preAuthID outboxActionSettle amountLB now.

Definition EnqueueRelease (initialized : bool) (accountID preAuthID now : Z) : B unit :=
  if negb initialized then throw ErrNotInitialized
  else enqueue_hold accountID preAuthID outboxActionRelease f64_zero now.

Definition EnqueueDebit (initialized : bool) (accountID : Z) (amountLB : float64)
    (txType description productID refID : string) (now : Z) : B unit :=
  if negb initialized then throw ErrNotInitialized
  else stmt (fun db =>
    if existsb (fun r => String.eqb (t_RefID r) refID) (debits db) ||
       negb (pg_text_ok 96 refID && pg_text_ok 32 txType && pg_text_ok 255 description &&
             pg_text_ok 64 productID)
    then Err ErrOutboxDB
    else Ok (tt, mkOb (holds db)
                   (debits db ++ [mkDebit (seq_debit db) accountID refID amountLB txType description
                                    productID pending 0 now "" now now])
                   (seq_hold db) (seq_debit db + 1))).

(** What the platform answers for a row ([None] is success), and the clock at its
    outcome. *)
Definition oracle R := R -> option goerr * Z.

Definition verdict_of (r : option goerr) : verdict :=
  match r with
  | None => Done
  | Some e => if PreAuthRetryIsFutile e then Futile (Error e) else Failed (Error e)
  end.

(** The movement reported as lost when a final refusal hits a settle. *)
Inductive lost := Lost (stage : string) (accountID : Z) (amountLB : float64) (ref : Z).

Fixpoint hold_loop (platform : oracle BillingOutbox) (entries : list BillingOutbox)
    : B (list lost) :=
  match entries with
  | [] => ret []
  | e :: entries' =>
      let (r, now) := platform e in
      let v := verdict_of (if String.eqb (b_Action e) outboxActionSettle ||
                              String.eqb (b_Action e) outboxActionRelease
                           then r else Some (Errorf ("unknown action: " +:+ b_Action e))) in
      let lost_now :=
        match v with
        | Futile _ => if String.eqb (b_Action e) outboxActionSettle
                      then [Lost "settle" (b_AccountID e) (b_AmountLB e) (b_PreAuthID e)] else []
        | _ => []
        end in
      (* the result of the update is not checked *)
      try! _ := stmt (fun db => Ok (tt, mkOb (write_outcome v now true e (holds db)) (debits db)
                                          (seq_hold db) (seq_debit db))) in
      let! rest := hold_loop platform entries' in
      ret (lost_now ++ rest)
  end.

Fixpoint debit_loop (platform : oracle BillingDebitOutbox) (entries : list BillingDebitOutbox)
    : B unit :=
  match entries with
  | [] => ret tt
  | e :: entries' =>
      let (r, now) := platform e in
      try! _ := stmt (fun db => Ok (tt, mkOb (holds db) (write_outcome (verdict_of r) now false e (debits db))
                                          (seq_hold db) (seq_debit db))) in
      debit_loop platform entries'
  end.

Definition claim_holds (now : Z) : B (list BillingOutbox) :=
  stmt (fun db =>
    let (entries, rows) := claimOutboxRows now (holds db) in
    Ok (entries, mkOb rows (debits db) (seq_hold db) (seq_debit db))).

Definition claim_debits (now : Z) : B (list BillingDebitOutbox) :=
  stmt (fun db =>
    let (entries, rows) := claimOutboxRows now (debits db) in
    Ok (entries, mkOb (holds db) rows (seq_hold db) (seq_debit db))).

Definition processDebitOutbox (platform : oracle BillingDebitOutbox) (now : Z) : B unit :=
  try! claimed := claim_debits now in
  match claimed with
  | Err _ => ret tt
  | Ok entries => debit_loop platform entries
  end.

(** One tick: the queue-depth gauge, the parked debits, then the parked holds. *)
Definition ProcessBillingOutbox (initialized : bool) (platform : oracle BillingOutbox)
    (wallet : oracle BillingDebitOutbox) (now1 now2 : Z) : B (list lost) :=
  if negb initialized then ret []
  else
    try! _ := query (fun db => affected (fun r =>
      bool_decide (b_Status r = pending) || bool_decide (b_Status r = processing)) (holds db)) in
    let! _ := processDebitOutbox wallet now1 in
    let! entries := claim_holds now2 in
    hold_loop platform entries.

(** ** The replicas' workers

    The table and the claims in flight: rows a worker was handed and has not
    written back.  A claim step assumes that no claim in flight has outlived
    its lease; a worker may also die and never write back. *)

Section Workers.
Context {R : Type} `{!OutboxRow R}.

Record workers := mkWorkers {
  rows : list R;
  flight : list R
}.

Definition drop_claim (c : R) (fl : list R) : list R :=
  List.filter (fun x => negb (row_id x =? row_id c)) fl.

Inductive worker_step (s : workers) : workers -> Prop :=
| ws_enqueue r :
    row_status r = pending -> row_retries r = 0 -> row_id r ∉ row_id <$> rows s ->
    worker_step s (mkWorkers (rows s ++ [r]) (flight s))
| ws_claim now :
    (forall c, c ∈ flight s -> now < row_updated c + outboxClaimLease) ->
    worker_step s (mkWorkers (snd (claimOutboxRows now (rows s)))
                     (flight s ++ fst (claimOutboxRows now (rows s))))
| ws_outcome c v now hold :
    c ∈ flight s ->
    worker_step s (mkWorkers (write_outcome v now hold c (rows s)) (drop_claim c (flight s)))
| ws_crash c :
    c ∈ flight s -> worker_step s (mkWorkers (rows s) (drop_claim c (flight s))).

Definition terminal (r : R) : bool :=
  match row_status r with done_ | failed => true | _ => false end.
End Workers.
Arguments workers : clear implicits.

End Outbox.

Section OutboxFacts.
Import GoStrings Outbox.
Context {R : Type} `{!OutboxRow R}.
Implicit Types (r c : R) (s : workers R).

(** Claims in flight are exclusive: no row is in flight twice, and the row of a
    claim in flight is still in the table as the claim left it. *)
Record workers_wf s : Prop := {
  ww_ids : NoDup (row_id <$> rows s);
  ww_flight : NoDup (row_id <$> flight s);
  ww_owned : forall c, c ∈ flight s -> c ∈ rows s /\ row_status c = processing;
  ww_retries : forall r, r ∈ rows s -> 0 <= row_retries r <= outboxMaxRetries /\
    (terminal r = false -> row_retries r < outboxMaxRetries)
}.

Lemma row_set_id st n nx err up r : row_id (row_set st n nx err up r) = row_id r.
Proof. apply row_set_spec. Qed.

Lemma row_set_status st n nx err up r : row_status (row_set st n nx err up r) = st.
Proof. apply row_set_spec. Qed.

Lemma row_set_retries st n nx err up r : row_retries (row_set st n nx err up r) = n.
Proof. apply row_set_spec. Qed.

Lemma row_set_next st n nx err up r : row_next (row_set st n nx err up r) = nx.
Proof. apply row_set_spec. Qed.

Lemma row_set_updated st n nx err up r : row_updated (row_set st n nx err up r) = up.
Proof. apply row_set_spec. Qed.

Lemma outcome_row_id v now hold c r : row_id (outcome_row v now hold c r) = row_id r.
Proof. unfold outcome_row. destruct (outcome v now hold c) as [[[[] n] nx] err]; apply row_set_id. Qed.

Lemma in_filter (P : R -> bool) (l : list R) x : x ∈ List.filter P l <-> x ∈ l /\ P x = true.
Proof. by rewrite !list_elem_of_In, filter_In. Qed.

(** Every claimed id is the id of a claimable row. *)
Lemma claim_ids_claimable now (l : list R) i :
  i ∈ claim_ids now l -> exists r, r ∈ l /\ row_id r = i /\ claimable now r = true.
Proof.
  unfold claim_ids. intros (r & -> & Hr)%list_elem_of_fmap.
  apply elem_of_take in Hr as (j & Hr & _). apply list_elem_of_lookup_2 in Hr.
  rewrite merge_sort_Permutation in Hr. apply in_filter in Hr as [? ?]. eauto.
Qed.

Lemma row_unique (l : list R) r1 r2 :
  NoDup (row_id <$> l) -> r1 ∈ l -> r2 ∈ l -> row_id r1 = row_id r2 -> r1 = r2.
Proof. apply NoDup_fmap_inj. Qed.

Lemma claimed_rows now (l : list R) x :
  NoDup (row_id <$> l) -> x ∈ fst (claimOutboxRows now l) ->
  exists r, r ∈ l /\ claimable now r = true /\ x = claimed_row now r.
Proof.
  intros Hnd Hx. unfold claimOutboxRows in Hx. cbn [fst] in Hx.
  apply in_filter in Hx as [(r & Hr & ->)%elem_of_update_where Hsel].
  exists r. destruct (bool_decide (row_id r ∈ claim_ids now l)) eqn:E.
  - apply bool_decide_eq_true in E. apply claim_ids_claimable in E as (q & Hq & Hid & Hc).
    by assert (q = r) as -> by by apply (row_unique l).
  - congruence.
Qed.

Lemma claim_table now (l : list R) :
  row_id <$> snd (claimOutboxRows now l) = row_id <$> l.
Proof. apply update_where_proj. intros r. apply row_set_id. Qed.

(** A row that is not claimable is left as it is. *)
Lemma claim_keeps now (l : list R) r :
  NoDup (row_id <$> l) -> r ∈ l -> claimable now r = false -> r ∈ snd (claimOutboxRows now l).
Proof.
  intros Hnd Hr Hc. unfold claimOutboxRows. simpl. apply elem_of_update_where. exists r.
  split; [done|]. case_bool_decide as E; [|done].
  apply claim_ids_claimable in E as (q & Hq & Hid & Hcq).
  assert (q = r) as -> by by apply (row_unique l). congruence.
Qed.

Lemma claimed_ids_nodup now (l : list R) :
  NoDup (row_id <$> l) -> NoDup (row_id <$> fst (claimOutboxRows now l)).
Proof.
  intros Hnd. unfold claimOutboxRows. simpl. apply NoDup_fmap_filter.
  rewrite update_where_proj; [done|]. intros r. apply row_set_id.
Qed.

Lemma claim_wf s now :
  workers_wf s -> (forall c, c ∈ flight s -> now < row_updated c + outboxClaimLease) ->
  workers_wf (mkWorkers (snd (claimOutboxRows now (rows s)))
                (flight s ++ fst (claimOutboxRows now (rows s)))).
Proof.
  intros [H1 H2 H3 H4] Hlease.
  assert (Hnot : forall c, c ∈ flight s -> claimable now c = false).
  { intros c Hc. unfold claimable. rewrite (proj2 (H3 c Hc)). specialize (Hlease c Hc).
    apply Z.leb_gt. lia. }
  split; cbn [rows flight].
  - by rewrite claim_table.
  - rewrite fmap_app. apply NoDup_app. split; [done|]. split; [|by apply claimed_ids_nodup].
    intros i (c & -> & Hc)%list_elem_of_fmap (x & Hid & Hx)%list_elem_of_fmap.
    apply claimed_rows in Hx as (r & Hr & Hcl & ->); [|done].
    unfold claimed_row in Hid. rewrite row_set_id in Hid.
    assert (c = r) as -> by (apply (row_unique (rows s)); auto; by apply H3).
    rewrite Hnot in Hcl; done.
  - intros c [Hc|Hc]%elem_of_app.
    + split; [|by apply H3]. apply claim_keeps; auto. by apply H3.
    + apply in_filter in Hc as [Hc Hsel]. split; [done|].
      apply elem_of_update_where in Hc as (r & Hr & ->).
      destruct (bool_decide (row_id r ∈ claim_ids now (rows s))) eqn:E; [|congruence].
      apply row_set_status.
  - intros r (r0 & Hr0 & ->)%elem_of_update_where. case_bool_decide as E; [|by apply H4].
    apply claim_ids_claimable in E as (q & Hq & Hid & Hcq).
    assert (q = r0) as -> by by apply (row_unique (rows s)).
    unfold claimed_row, terminal. rewrite row_set_retries, row_set_status.
    destruct (H4 r0 Hr0) as [Hb Ht]. split; [done|]. intros _. apply Ht.
    unfold claimable, terminal in *. by destruct (row_status r0).
Qed.

Lemma drop_claim_spec c (fl : list R) x : x ∈ drop_claim c fl <-> x ∈ fl /\ row_id x <> row_id c.
Proof. unfold drop_claim. rewrite in_filter, negb_true_iff, Z.eqb_neq. done. Qed.

Lemma crash_wf s c : workers_wf s -> workers_wf (mkWorkers (rows s) (drop_claim c (flight s))).
Proof.
  intros [H1 H2 H3 H4]. split; cbn [rows flight]; [done| | |done].
  - by apply NoDup_fmap_filter.
  - intros x [Hx _]%drop_claim_spec. auto.
Qed.

Lemma outcome_bounds v now hold c :
  0 <= row_retries c < outboxMaxRetries ->
  let '(st, n, nx, err) := outcome v now hold c in
  st <> processing /\ 0 <= n <= outboxMaxRetries /\ (st = pending -> n < outboxMaxRetries).
Proof.
  intros Hc. assert (forall b : bool, let '(st, n, nx, err) :=
     if b then (failed, row_retries c + 1, row_next c, "") else
     if row_retries c + 1 >=? outboxMaxRetries then (failed, row_retries c + 1, row_next c, "")
     else (pending, row_retries c + 1, now + outboxBackoff (row_retries c + 1), "") in
     st <> processing /\ 0 <= n <= outboxMaxRetries /\ (st = pending -> n < outboxMaxRetries)) as Hf.
  { intros []; [split_and!; [done|lia..|done]|].
    rewrite Z.geb_leb. destruct (Z.leb_spec outboxMaxRetries (row_retries c + 1));
      split_and!; (done || lia). }
  unfold outcome. destruct v as [|err|err].
  - split_and!; [done|lia..|done].
  - specialize (Hf hold). destruct hold; [done|]. by destruct (_ >=? _).
  - specialize (Hf false). by destruct (_ >=? _).
Qed.

Lemma outcome_wf s c v now hold :
  workers_wf s -> c ∈ flight s ->
  workers_wf (mkWorkers (write_outcome v now hold c (rows s)) (drop_claim c (flight s))).
Proof.
  intros [H1 H2 H3 H4] Hc. destruct (H3 c Hc) as [Hcin Hcst].
  assert (Hret : 0 <= row_retries c < outboxMaxRetries).
  { destruct (H4 c Hcin) as [? Ht]. split; [lia|]. apply Ht. unfold terminal. by rewrite Hcst. }
  split; cbn [rows flight].
  - unfold write_outcome. rewrite update_where_proj; [done|]. intros r. apply outcome_row_id.
  - by apply NoDup_fmap_filter.
  - intros x [Hx Hne]%drop_claim_spec. destruct (H3 x Hx) as [Hxin Hxst]. split; [|done].
    apply elem_of_update_where. exists x. split; [done|].
    by rewrite (proj2 (Z.eqb_neq _ _)).
  - intros r (r0 & Hr0 & ->)%elem_of_update_where.
    destruct (_ && _) eqn:E; [|by apply H4]. bool_to_prop.
    pose proof (outcome_bounds v now hold c Hret) as Ho. unfold outcome_row, terminal.
    destruct (outcome v now hold c) as [[[st n] nx] err]. destruct Ho as (Hnp & Hn & Hp).
    destruct st; [|done|..]; rewrite row_set_retries, row_set_status.
    + auto.
    + destruct (H4 r0 Hr0). by split.
    + by split.
Qed.

Lemma enqueue_wf s r :
  workers_wf s -> row_status r = pending -> row_retries r = 0 -> row_id r ∉ row_id <$> rows s ->
  workers_wf (mkWorkers (rows s ++ [r]) (flight s)).
Proof.
  intros [H1 H2 H3 H4] Hst Hr Hid. split; cbn [rows flight]; auto.
  - rewrite fmap_app. apply NoDup_app. split; [done|]. split; [|apply NoDup_singleton].
    by intros i Hi ->%list_elem_of_singleton.
  - intros c Hc. destruct (H3 c Hc). split; [|done]. apply elem_of_app. by left.
  - intros x [Hx|Hx%list_elem_of_singleton]%elem_of_app; [by apply H4|]. subst.
    rewrite Hr. unfold outboxMaxRetries. lia.
Qed.

Lemma worker_step_wf s s' : workers_wf s -> worker_step s s' -> workers_wf s'.
Proof.
  intros Hwf [r|now|c v now hold|c].
  - by apply enqueue_wf.
  - by apply claim_wf.
  - by apply outcome_wf.
  - by apply crash_wf.
Qed.

Lemma workers_empty_wf : workers_wf (mkWorkers [] []).
Proof. split; simpl; try apply NoDup_nil_2; set_solver. Qed.

Lemma reachable_workers_wf s : reachable worker_step (mkWorkers [] []) s -> workers_wf s.
Proof.
  revert s. apply reachable_ind_inv; [apply workers_empty_wf|].
  intros s s' Hwf Hs. by eapply worker_step_wf.
Qed.
End OutboxFacts.

(** ** Theorems *)

Section OutboxProperties.
Import GoStrings Concurrency Outbox.
Context {R : Type} `{!OutboxRow R}.

(** C34. A parked movement is worked on by one worker at a time.  In every state
    the replicas can reach, whatever they claim, write back or abandon, provided
    that no claim step runs while a claim in flight has outlived its lease: the
    ids in flight are distinct, each row in flight is still in the table exactly
    as its claim left it, marked processing, and has retries left. *)
Theorem outbox_exclusive (s : workers R) :
  reachable worker_step (mkWorkers [] []) s ->
  NoDup (row_id <$> flight s) /\
  forall c, c ∈ flight s -> c ∈ rows s /\ row_status c = processing /\
    row_retries c < outboxMaxRetries.
Proof.
  intros [H1 H2 H3 H4]%reachable_workers_wf.
  split; [done|]. intros c Hc. destruct (H3 c Hc) as [Hin Hst]. split_and!; [done..|].
  apply H4; [done|]. unfold terminal. by rewrite Hst.
Qed.

Lemma terminal_step (s s' : workers R) r :
  workers_wf s -> worker_step s s' -> r ∈ rows s -> terminal r = true -> r ∈ rows s'.
Proof.
  intros Hwf Hstep Hr Ht. destruct Hstep as [q|now|c v now hold|c]; cbn [rows].
  - apply elem_of_app. by left.
  - apply claim_keeps; [apply Hwf|done|]. unfold terminal, claimable in *.
    by destruct (row_status r).
  - apply elem_of_update_where. exists r. split; [done|].
    unfold terminal in Ht. rewrite (bool_decide_eq_false_2 (row_status r = processing)).
    + by rewrite andb_false_r.
    + intros E. by rewrite E in Ht.
  - done.
Qed.

(** Done and failed are final: from any reachable state, a row that reached
    one of them is never claimed again and never changes. *)
Theorem outbox_terminal_final (s s' : workers R) r :
  reachable worker_step (mkWorkers [] []) s -> reachable worker_step s s' ->
  r ∈ rows s -> terminal r = true ->
  r ∈ rows s' /\ forall now, claimable now r = false.
Proof.
  intros Hs Hs' Hr Ht. split.
  2: { intros now. unfold terminal, claimable in *. by destruct (row_status r). }
  pose proof (reachable_workers_wf s Hs) as Hwf.
  assert (workers_wf s' /\ r ∈ rows s') as [_ ?]; [|done].
  clear Hs. induction Hs' as [|s1 s2 _ IH Hstep]; [done|]. destruct IH as [Hwf1 Hin].
  split; [by eapply worker_step_wf|by eapply terminal_step].
Qed.

(** A failed attempt made the moment the row is due. *)
Definition fail_when_due (hold : bool) (err : string) (r : R) : R :=
  let c := claimed_row (row_next r) r in
  outcome_row (Failed err) (row_next r) hold c c.

Lemma sumZ_seqZ_last f n : 0 <= n -> sumZ f (seqZ 1 (n + 1)) = sumZ f (seqZ 1 n) + f (n + 1).
Proof.
  intros Hn. rewrite seqZ_app by lia. rewrite sumZ_app, (seqZ_cons (1 + n)), (seqZ_nil _ (Z.pred 1)) by lia.
  cbn [sumZ foldr]. replace (1 + n) with (n + 1) by lia. lia.
Qed.

Lemma fail_when_due_step hold err (r : R) :
  let n := row_retries r + 1 in
  row_retries (fail_when_due hold err r) = n /\
  row_status (fail_when_due hold err r) = (if n >=? outboxMaxRetries then failed else pending) /\
  (n < outboxMaxRetries -> row_next (fail_when_due hold err r) = row_next r + outboxBackoff n).
Proof.
  intros n. unfold fail_when_due, outcome_row, outcome, claimed_row. rewrite row_set_retries, row_set_next.
  fold n. destruct (n >=? outboxMaxRetries) eqn:E; rewrite Z.geb_leb in E; bool_to_prop.
  - rewrite row_set_retries, row_set_status. split_and!; [done..|lia].
  - rewrite row_set_retries, row_set_status, row_set_next. done.
Qed.

(** The retry schedule of an entry whose every attempt fails: after [n]
    failures, [n < 10], it is pending with [n] retries and due the first [n]
    backoffs after it was enqueued; the tenth attempt, due [OutboxRetryHorizon]
    after the first, ends it as failed. *)
Theorem outbox_schedule hold err (r : R) :
  row_status r = pending -> row_retries r = 0 ->
  (forall n, (n < 10)%nat ->
     let q := Nat.iter n (fail_when_due hold err) r in
     row_status q = pending /\ row_retries q = Z.of_nat n /\
     row_next q = row_next r + sumZ outboxBackoff (seqZ 1 (Z.of_nat n))) /\
  row_status (Nat.iter 10 (fail_when_due hold err) r) = failed /\
  row_next (Nat.iter 9 (fail_when_due hold err) r) = row_next r + OutboxRetryHorizon.
Proof.
  intros Hst Hret.
  assert (Hall : forall n, (n < 10)%nat ->
     let q := Nat.iter n (fail_when_due hold err) r in
     row_status q = pending /\ row_retries q = Z.of_nat n /\
     row_next q = row_next r + sumZ outboxBackoff (seqZ 1 (Z.of_nat n))).
  { induction n as [|n IH]; intros Hn; simpl.
    { split_and!; [done|done|lia]. }
    destruct (IH ltac:(lia)) as (_ & Hq2 & Hq3). clear IH.
    set (q := Nat.iter n (fail_when_due hold err) r) in *.
    destruct (fail_when_due_step hold err q) as (H1 & H2 & H3). rewrite Hq2 in *.
    unfold outboxMaxRetries in *. rewrite H1, H2, H3 by lia. rewrite Hq3.
    rewrite Z.geb_leb, (proj2 (Z.leb_gt _ _)) by lia.
    replace (Z.of_nat (S n)) with (Z.of_nat n + 1) by lia.
    rewrite sumZ_seqZ_last by lia. split_and!; [done|lia|lia]. }
  split; [done|]. split.
  - destruct (Hall 9%nat ltac:(lia)) as (_ & Hq & _).
    rewrite (Nat.iter_succ 9 (fail_when_due hold err)).
    destruct (fail_when_due_step hold err (Nat.iter 9 (fail_when_due hold err) r)) as (_ & H2 & _).
    rewrite H2, Hq. reflexivity.
  - apply (Hall 9%nat). lia.
Qed.
End OutboxProperties.

Section OutboxBudget.
Import PlatformBilling Concurrency Outbox.

Lemma backoff_range n : 1 <= n <= 30 -> 10 * second <= outboxBackoff n <= outboxMaxBackoff.
Proof.
  intros Hn. unfold outboxBackoff.
  assert (Hp : 2 <= 2 ^ n <= 2 ^ 30).
  { split; [change 2 with (2 ^ 1) at 1|]; apply Z.pow_le_mono_r; lia. }
  change (2 ^ 30) with 1073741824 in Hp.
  unfold i64_mul. rewrite (wrap64_id (2 ^ n * 5)) by (unfold64; lia).
  unfold outboxMaxBackoff, minute, second in *.
  rewrite wrap64_id by (unfold64; lia). lia.
Qed.

(** The time budgets fit.  Every backoff up to the thirtieth is between ten
    seconds and five minutes (the thirty-first would overflow to a negative
    delay, which ten retries never reach); the whole retry horizon plus the
    longest request a concurrency lease admits ends before the platform drops
    the hold; and a batch of claims, each call at its timeout, is worked off
    within the claim lease. *)
Theorem outbox_time_budget :
  (forall n, 1 <= n <= 30 -> 10 * second <= outboxBackoff n <= outboxMaxBackoff) /\
  outboxBackoff 31 < 0 /\
  OutboxRetryHorizon = 1510 * second /\
  concurrencyLeaseTTL 0 + OutboxRetryHorizon < PreAuthHoldTTL /\
  Z.of_nat outboxBatch * outboxCallTimeout < outboxClaimLease.
Proof. split; [apply backoff_range|]. vm_compute. done. Qed.
End OutboxBudget.

Section OutboxWitnesses.
Import PlatformBilling Concurrency Outbox.

Definition demo_box : BillingOutbox :=
  mkBox 1 500 77 "settle" f64_zero pending 0 100 "" 100 100.

Definition demo_claimed : workers BillingOutbox :=
  mkWorkers (snd (claimOutboxRows 200 [demo_box])) ([] ++ fst (claimOutboxRows 200 [demo_box])).

Lemma demo_claimed_reachable : reachable worker_step (mkWorkers [] []) demo_claimed.
Proof.
  apply (reach_step _ _ (mkWorkers [demo_box] [])).
  - apply (reach_step _ _ (mkWorkers [] [])); [apply reach_init|].
    apply (ws_enqueue (mkWorkers [] []) demo_box); [done|done|set_solver].
  - apply (ws_claim (mkWorkers [demo_box] []) 200). set_solver.
Qed.

Lemma outbox_exclusive_witness :
  flight demo_claimed = [claimed_row 200 demo_box] /\
  forall c, c ∈ flight demo_claimed -> c ∈ rows demo_claimed /\ row_status c = processing /\
    row_retries c < outboxMaxRetries.
Proof. split; [vm_compute; reflexivity|]. apply (outbox_exclusive demo_claimed demo_claimed_reachable). Defined.

Definition demo_finished : workers BillingOutbox :=
  mkWorkers (write_outcome Done 210 true (claimed_row 200 demo_box) (rows demo_claimed))
    (drop_claim (claimed_row 200 demo_box) (flight demo_claimed)).

Lemma outbox_terminal_final_witness :
  row_set done_ 0 100 "" 210 (claimed_row 200 demo_box) ∈ rows demo_finished /\
  forall now, claimable now (row_set done_ 0 100 "" 210 (claimed_row 200 demo_box)) = false.
Proof.
  apply (outbox_terminal_final demo_finished demo_finished).
  - apply (reach_step _ _ demo_claimed); [apply demo_claimed_reachable|].
    apply (ws_outcome demo_claimed (claimed_row 200 demo_box) Done 210 true). vm_compute. left.
  - apply reach_init.
  - vm_compute. left.
  - reflexivity.
Defined.

Lemma outbox_schedule_witness :
  row_status (Nat.iter 10 (fail_when_due true "down") demo_box) = failed /\
  row_next (Nat.iter 9 (fail_when_due true "down") demo_box) = 100 + OutboxRetryHorizon.
Proof. exact (proj2 (outbox_schedule true "down" demo_box eq_refl eq_refl)). Defined.
End OutboxWitnesses.
