(* ===== verification/Ledger.v ===== *)
(** * The local quota ledger

    Model of the quota columns of the users and tokens tables and their writers:
    internal/adapter/repo/user.go, internal/adapter/repo/token.go, the write
    buffer of internal/adapter/repo/utils.go and the daily allowance of
    internal/adapter/repo/daily_quota_cron.go.

    [users.quota] and [users.daily_used] are PostgreSQL [integer] columns: a sum
    that leaves 32 bits is a driver error.  [tokens.remain_quota] and
    [tokens.used_quota] are [bigint].  The Redis mirrors of these columns are
    refreshed in the background and only ever read as a value that may be stale;
    such a reading is an argument of the reader. *)

From S2P Require Import Prelude GoStrings.

Module Ledger.
Import GoStrings.

(** ** Rows *)

Record User := mkUser {
  u_ID : Z;
  u_Quota : Z;
  u_Group : string;
  u_DailyQuota : Z;
  u_DailyUsed : Z;
  u_LastDailyReset : Z;
  u_BaseGroup : string;
  u_FallbackGroup : string;
  u_Deleted : bool
}.

Record Token := mkToken {
  k_ID : Z;
  k_TenantID : string;
  k_RemainQuota : Z;
  k_UsedQuota : Z;
  k_AccessedTime : Z;
  k_Deleted : bool
}.

(** The tables, and the write buffer: pending deltas by id. *)
Record ledgerdb := mkLedger {
  users : list User;
  tokens : list Token;
  pend_users : gmap Z Z;
  pend_tokens : gmap Z Z
}.

Definition set_users (us : list User) (db : ledgerdb) : ledgerdb :=
  mkLedger us (tokens db) (pend_users db) (pend_tokens db).
Definition set_tokens (ks : list Token) (db : ledgerdb) : ledgerdb :=
  mkLedger (users db) ks (pend_users db) (pend_tokens db).
Definition set_pend_users (m : gmap Z Z) (db : ledgerdb) : ledgerdb :=
  mkLedger (users db) (tokens db) m (pend_tokens db).
Definition set_pend_tokens (m : gmap Z Z) (db : ledgerdb) : ledgerdb :=
  mkLedger (users db) (tokens db) (pend_users db) m.

Inductive ledger_err := ErrNegative | ErrIdEmpty | ErrNotFound | ErrLedgerDB.

#[global] Instance ledger_err_db : DbError ledger_err := ErrLedgerDB.

Abbreviation L A := (M ledgerdb ledger_err A).

(** [id = ? AND deleted_at IS NULL]. *)
Definition user_is (id : Z) (u : User) : bool := (u_ID u =? id) && negb (u_Deleted u).
Definition token_is (id : Z) (k : Token) : bool := (k_ID k =? id) && negb (k_Deleted k).

Definition in32b (z : Z) : bool := (-2147483648 <=? z) && (z <=? 2147483647).

Definition set_quota (q : Z) (u : User) : User :=
  mkUser (u_ID u) q (u_Group u) (u_DailyQuota u) (u_DailyUsed u) (u_LastDailyReset u)
    (u_BaseGroup u) (u_FallbackGroup u) (u_Deleted u).
Definition set_group (g : string) (u : User) : User :=
  mkUser (u_ID u) (u_Quota u) g (u_DailyQuota u) (u_DailyUsed u) (u_LastDailyReset u)
    (u_BaseGroup u) (u_FallbackGroup u) (u_Deleted u).
Definition set_daily (used last : Z) (u : User) : User :=
  mkUser (u_ID u) (u_Quota u) (u_Group u) (u_DailyQuota u) used last
    (u_BaseGroup u) (u_FallbackGroup u) (u_Deleted u).
Definition set_remain (remain used now : Z) (k : Token) : Token :=
  mkToken (k_ID k) (k_TenantID k) remain used now (k_Deleted k).

(** [UPDATE users SET quota = quota + delta WHERE cond]. *)
Definition update_users (cond : User -> bool) (delta : Z) : L nat :=
  stmt (fun db =>
    if forallb (fun u => negb (cond u) || in32b (u_Quota u + delta)) (users db)
    then Ok (affected cond (users db),
             set_users (update_where cond (fun u => set_quota (u_Quota u + delta) u) (users db)) db)
    else Err ErrLedgerDB).

(** [UPDATE tokens SET remain_quota = remain_quota + delta, used_quota =
    used_quota - delta, accessed_time = now WHERE cond]. *)
Definition update_tokens (cond : Token -> bool) (delta now : Z) : L nat :=
  stmt (fun db =>
    if forallb (fun k => negb (cond k) ||
                  (in64b (k_RemainQuota k + delta) && in64b (k_UsedQuota k - delta))) (tokens db)
    then Ok (affected cond (tokens db),
             set_tokens (update_where cond (fun k =>
               set_remain (k_RemainQuota k + delta) (k_UsedQuota k - delta) now k) (tokens db)) db)
    else Err ErrLedgerDB).

(** ** The write buffer *)

(** [addNewRecord]: Go adds machine integers. *)
Definition addNewRecord (id value : Z) (m : gmap Z Z) : gmap Z Z :=
  match m !! id with
  | None => <[id := value]> m
  | Some v => <[id := i64_add v value]> m
  end.

(** A step of the process, not of the database: it cannot fail. *)
Definition buffer (f : ledgerdb -> ledgerdb) : L unit :=
  fun s => (Ok tt, mkStore (f (tables s)) (faults s)).

(** ** Users *)

Definition increaseUserQuota (id quota : Z) : L unit :=
  let! _ := update_users (user_is id) quota in ret tt.

Definition decreaseUserQuota (id quota : Z) : L unit :=
  let! _ := update_users (user_is id) (- quota) in ret tt.

(** [batch] is [common.BatchUpdateEnabled]; [db] forces a direct write. *)
Definition IncreaseUserQuota (batch : bool) (id quota : Z) (db : bool) : L unit :=
  if quota <? 0 then throw ErrNegative
  else if negb db && batch then
    buffer (fun t => set_pend_users (addNewRecord id quota (pend_users t)) t)
  else increaseUserQuota id quota.

Definition DecreaseUserQuota (batch : bool) (id quota : Z) : L unit :=
  if quota <? 0 then throw ErrNegative
  else if batch then
    buffer (fun t => set_pend_users (addNewRecord id (wrap64 (- quota)) (pend_users t)) t)
  else decreaseUserQuota id quota.

Definition DecreaseUserQuotaIfEnough (id quota : Z) : L bool :=
  if quota <? 0 then throw ErrNegative
  else
    let! n := update_users (fun u => user_is id u && (u_Quota u >=? quota)) (- quota) in
    ret (negb (n =? 0)%nat).

(** [cached] is what Redis answered, [None] when it is off or has no entry.  A
    query that matches no row leaves the zero value. *)
Definition GetUserQuota (id : Z) (cached : option Z) : L Z :=
  match cached with
  | Some q => ret q
  | None =>
      let! r := query (fun db => first_where (user_is id) (users db)) in
      ret (match r with Some u => u_Quota u | None => 0 end)
  end.

(** ** Tokens *)

Definition increaseTokenQuota (id quota now : Z) : L unit :=
  let! _ := update_tokens (token_is id) quota now in ret tt.

Definition decreaseTokenQuota (id quota now : Z) : L unit :=
  let! _ := update_tokens (token_is id) (- quota) now in ret tt.

Definition IncreaseTokenQuota (batch : bool) (id quota now : Z) : L unit :=
  if quota <? 0 then throw ErrNegative
  else if batch then
    buffer (fun t => set_pend_tokens (addNewRecord id quota (pend_tokens t)) t)
  else increaseTokenQuota id quota now.

Definition DecreaseTokenQuota (batch : bool) (id quota now : Z) : L unit :=
  if quota <? 0 then throw ErrNegative
  else if batch then
    buffer (fun t => set_pend_tokens (addNewRecord id (wrap64 (- quota)) (pend_tokens t)) t)
  else decreaseTokenQuota id quota now.

Definition DecreaseTokenQuotaIfEnough (id quota now : Z) : L bool :=
  if quota <? 0 then throw ErrNegative
  else
    let! n := update_tokens (fun k => token_is id k && (k_RemainQuota k >=? quota)) (- quota) now in
    ret (negb (n =? 0)%nat).

Definition GetTokenById (id : Z) : L Token :=
  if id =? 0 then throw ErrIdEmpty
  else
    let! r := query (fun db => first_where (token_is id) (tokens db)) in
    match r with Some k => ret k | None => throw ErrNotFound end.

(** ** The flush *)

(** One buffer is swapped for an empty one, then written id by id; a write that
    fails is logged and lost.  A map is walked in some order: here by its list of
    bindings. *)
Fixpoint flush_users (kvs : list (Z * Z)) : L unit :=
  match kvs with
  | [] => ret tt
  | (id, v) :: kvs' => try! _ := increaseUserQuota id v in flush_users kvs'
  end.

Fixpoint flush_tokens (kvs : list (Z * Z)) (now : Z) : L unit :=
  match kvs with
  | [] => ret tt
  | (id, v) :: kvs' => try! _ := increaseTokenQuota id v now in flush_tokens kvs' now
  end.

(** [batchUpdate], the user and token legs. *)
Definition batchUpdate (now : Z) : L unit :=
  fun s =>
    let us := map_to_list (pend_users (tables s)) in
    let ks := map_to_list (pend_tokens (tables s)) in
    (let! _ := buffer (set_pend_users ∅) in
     let! _ := flush_users us in
     let! _ := buffer (set_pend_tokens ∅) in
     flush_tokens ks now) s.

(** ** The daily allowance *)

Definition NeedsDailyResetAt (lastReset now : Z) : bool :=
  if lastReset =? 0 then true else Z.quot now 86400 >? Z.quot lastReset 86400.

Record DailyQuotaInfo := mkInfo {
  i_DailyQuota : Z;
  i_DailyUsed : Z;
  i_DailyRemaining : Z;
  i_BaseGroup : string;
  i_FallbackGroup : string;
  i_CurrentGroup : string;
  i_IsUsingFallback : bool;
  i_NeedsReset : bool
}.

(** [First]: the row, or an error. *)
Definition first_user (id : Z) : L User :=
  let! r := query (fun db => first_where (user_is id) (users db)) in
  match r with Some u => ret u | None => throw ErrNotFound end.

Definition daily_info (now : Z) (u : User) : DailyQuotaInfo :=
  mkInfo (u_DailyQuota u) (u_DailyUsed u)
    (if u_DailyQuota u >? 0 then Z.max 0 (u_DailyQuota u - u_DailyUsed u) else -1)
    (u_BaseGroup u) (u_FallbackGroup u) (u_Group u)
    (negb (String.eqb (u_FallbackGroup u) "") && String.eqb (u_Group u) (u_FallbackGroup u))
    (NeedsDailyResetAt (u_LastDailyReset u) now).

Definition GetUserDailyQuotaInfo (id now : Z) : L DailyQuotaInfo :=
  let! u := first_user id in ret (daily_info now u).

Definition IncreaseDailyUsed (id amount : Z) : L unit :=
  if amount <? 0 then throw ErrNegative
  else stmt (fun db =>
    if forallb (fun u => negb (user_is id u) || in32b (u_DailyUsed u + amount)) (users db)
    then Ok (tt, set_users (update_where (user_is id)
                   (fun u => set_daily (u_DailyUsed u + amount) (u_LastDailyReset u) u) (users db)) db)
    else Err ErrLedgerDB).

Definition todayStart (now : Z) : Z := Z.quot now 86400 * 86400.

Definition ResetDailyQuota (id now : Z) : L unit :=
  let cond u := user_is id u && (u_LastDailyReset u <? todayStart now) in
  stmt (fun db => Ok (tt, set_users (update_where cond (set_daily 0 now) (users db)) db)).

(** [SwitchToFallbackGroup] and [RestoreToBaseGroup] differ in the column they
    copy into [group]. *)
Definition switch_group (target : User -> string) (id : Z) : L unit :=
  let! u := first_user id in
  if String.eqb (target u) "" || String.eqb (u_Group u) (target u) then ret tt
  else stmt (fun db =>
    Ok (tt, set_users (update_where (user_is id) (set_group (target u)) (users db)) db)).

Definition SwitchToFallbackGroup : Z -> L unit := switch_group u_FallbackGroup.
Definition RestoreToBaseGroup : Z -> L unit := switch_group u_BaseGroup.

Definition ProcessDailyQuotaReset (id now : Z) : L unit :=
  let! _ := ResetDailyQuota id now in
  RestoreToBaseGroup id.

Definition DailyQuotaResetBatchSize : nat := 100.

(** [daily_quota > 0 AND (last_daily_reset < ? OR last_daily_reset = 0)]. *)
Definition needs_reset (now : Z) (u : User) : bool :=
  negb (u_Deleted u) && (u_DailyQuota u >? 0) &&
  ((u_LastDailyReset u <? todayStart now) || (u_LastDailyReset u =? 0)).

Definition GetUsersNeedingDailyReset (limit : nat) (now : Z) : L (list User) :=
  query (fun db => take limit (List.filter (needs_reset now) (users db))).

Fixpoint reset_users (us : list User) (now : Z) : L unit :=
  match us with
  | [] => ret tt
  | u :: us' => try! _ := ProcessDailyQuotaReset (u_ID u) now in reset_users us' now
  end.

Definition processDailyQuotaResets (now : Z) : L unit :=
  try! got := GetUsersNeedingDailyReset DailyQuotaResetBatchSize now in
  match got with
  | Err _ => ret tt
  | Ok us => reset_users us now
  end.

Definition CheckAndHandleDailyQuotaExhaustion (id quotaToConsume now : Z) : L bool :=
  let! info := GetUserDailyQuotaInfo id now in
  if i_DailyQuota info <=? 0 then ret false
  else
    let! info :=
      if i_NeedsReset info then
        try! _ := ProcessDailyQuotaReset id now in GetUserDailyQuotaInfo id now
      else ret info in
    if i64_add (i_DailyUsed info) quotaToConsume >? i_DailyQuota info then
      if negb (i_IsUsingFallback info) && negb (String.eqb (i_FallbackGroup info) "") then
        try! _ := SwitchToFallbackGroup id in ret true
      else ret true
    else ret false.

Definition PostConsumeDailyQuota (id quotaConsumed now : Z) : L unit :=
  if quotaConsumed <=? 0 then ret tt
  else
    let! _ := IncreaseDailyUsed id quotaConsumed in
    let! info := GetUserDailyQuotaInfo id now in
    if i_DailyQuota info <=? 0 then ret tt
    else if (i_DailyUsed info >=? i_DailyQuota info) && negb (i_IsUsingFallback info) &&
            negb (String.eqb (i_FallbackGroup info) "")
    then SwitchToFallbackGroup id
    else ret tt.

End Ledger.

Section LedgerFacts.
Import GoStrings Ledger.
Implicit Types (u : User) (k : Token) (db : ledgerdb) (kvs : list (Z * Z)).

(** The deltas recorded for an id. *)
Definition delta_of (ds : list (Z * Z)) (id : Z) : Z :=
  sumZ (fun d => if d.1 =? id then d.2 else 0) ds.

(** What a run of buffered calls leaves in the buffer. *)
Definition buffered (ds : list (Z * Z)) (m : gmap Z Z) : gmap Z Z :=
  foldl (fun m d => addNewRecord d.1 d.2 m) m ds.

Lemma delta_of_app ds1 ds2 id : delta_of (ds1 ++ ds2) id = delta_of ds1 id + delta_of ds2 id.
Proof. apply sumZ_app. Qed.

Lemma delta_of_cons i v ds id :
  delta_of ((i, v) :: ds) id = (if i =? id then v else 0) + delta_of ds id.
Proof. done. Qed.

Lemma delta_of_notin ds id : id ∉ ds.*1 -> delta_of ds id = 0.
Proof.
  induction ds as [|[i w] ds IH]; [done|]. cbn [fmap list_fmap fst].
  intros [Hne Hnin]%not_elem_of_cons. rewrite delta_of_cons, IH by done.
  by rewrite (proj2 (Z.eqb_neq i id)) by done.
Qed.

Lemma delta_of_in ds id v : NoDup ds.*1 -> (id, v) ∈ ds -> delta_of ds id = v.
Proof.
  induction ds as [|[i w] ds IH]; [set_solver|]. cbn [fmap list_fmap fst].
  intros [Hnin Hnd]%NoDup_cons Hin. rewrite delta_of_cons.
  apply elem_of_cons in Hin as [[= <- <-]|Hin].
  - rewrite Z.eqb_refl, delta_of_notin by done. lia.
  - rewrite IH by done. rewrite (proj2 (Z.eqb_neq i id)); [lia|].
    intros ->. apply Hnin. by apply (list_elem_of_fmap_2 fst) in Hin.
Qed.

Lemma delta_of_map (m : gmap Z Z) id : delta_of (map_to_list m) id = default 0 (m !! id).
Proof.
  destruct (m !! id) as [v|] eqn:E; simpl.
  - apply delta_of_in; [apply NoDup_fst_map_to_list|]. by apply elem_of_map_to_list.
  - apply delta_of_notin. intros ((i & v) & -> & Hin)%list_elem_of_fmap.
    apply elem_of_map_to_list in Hin. cbn [fst] in E. congruence.
Qed.

Lemma delta_of_bound ds id : Z.abs (delta_of ds id) <= sumZ (fun d => Z.abs d.2) ds.
Proof.
  induction ds as [|[i v] ds IH]; [done|]. unfold delta_of in *. simpl. destruct (i =? id); lia.
Qed.

Lemma buffered_lookup ds id :
  sumZ (fun d => Z.abs d.2) ds <= i64_max ->
  default 0 (buffered ds ∅ !! id) = delta_of ds id.
Proof.
  induction ds as [|[i v] ds IH] using rev_ind; intros Hb; [unfold buffered; cbn [foldl]; by rewrite lookup_empty|].
  rewrite sumZ_app in Hb. cbn [sumZ foldr snd] in Hb.
  pose proof (delta_of_bound ds id) as Hd.
  unfold buffered. rewrite foldl_app. cbn [foldl fst snd].
  change (foldl _ ∅ ds) with (buffered ds ∅). specialize (IH ltac:(lia)).
  rewrite delta_of_app. unfold delta_of at 2. cbn [sumZ foldr fst snd].
  unfold addNewRecord. destruct (Z.eqb_spec i id) as [->|Hne].
  - destruct (buffered ds ∅ !! id) as [w|] eqn:E; simpl in IH; rewrite lookup_insert_eq; simpl;
      [|lia].
    unfold i64_add. rewrite wrap64_id; [lia|]. unfold64. unfold i64_max, i64_half in Hb. lia.
  - destruct (buffered ds ∅ !! i); rewrite lookup_insert_ne by done; lia.
Qed.

(** A row with the delta of its id applied. *)
Definition credited (f : Z -> Z) u : User :=
  if u_Deleted u then u else set_quota (u_Quota u + f (u_ID u)) u.

Lemma set_quota_id u : set_quota (u_Quota u) u = u.
Proof. by destruct u. Qed.

Lemma credited_0 (us : list User) : credited (fun _ => 0) <$> us = us.
Proof.
  rewrite <- (list_fmap_id us) at 2. apply list_fmap_ext. intros i u _. unfold credited.
  case_match; [done|]. by rewrite Z.add_0_r, set_quota_id.
Qed.

Lemma credited_ext f g (us : list User) :
  (forall u, u ∈ us -> f (u_ID u) = g (u_ID u)) -> credited f <$> us = credited g <$> us.
Proof.
  intros H. apply list_fmap_ext. intros i u Hu. apply list_elem_of_lookup_2 in Hu.
  unfold credited. by rewrite H.
Qed.

Lemma increaseUserQuota_healthy id v db :
  (forall u, u ∈ users db -> u_ID u = id -> u_Deleted u = false -> in32b (u_Quota u + v) = true) ->
  increaseUserQuota id v (mkStore db []) =
    (Ok tt, mkStore (set_users (credited (fun i => if i =? id then v else 0) <$> users db) db) []).
Proof.
  intros Hfit. unfold increaseUserQuota, update_users, bind. rewrite stmt_healthy.
  rewrite (proj2 (forallb_forall _ (users db))).
  - unfold ret. do 3 f_equal. unfold update_where. apply list_fmap_ext. intros i u _.
    unfold credited, user_is. destruct (u_ID u =? id); destruct (u_Deleted u); simpl; try done;
      by rewrite Z.add_0_r, set_quota_id.
  - intros u Hu. unfold user_is. destruct (u_ID u =? id) eqn:E; [|done].
    destruct (u_Deleted u) eqn:Ed; [done|]. simpl. apply Hfit; [by apply list_elem_of_In|lia|done].
Qed.

Lemma flush_users_healthy kvs db :
  NoDup kvs.*1 ->
  (forall id v u, (id, v) ∈ kvs -> u ∈ users db -> u_ID u = id -> u_Deleted u = false ->
     in32b (u_Quota u + v) = true) ->
  flush_users kvs (mkStore db []) =
    (Ok tt, mkStore (set_users (credited (delta_of kvs) <$> users db) db) []).
Proof.
  revert db. induction kvs as [|[id v] kvs IH]; intros db Hnd Hfit.
  - simpl. rewrite (credited_ext _ (fun _ => 0)) by done. rewrite credited_0. by destruct db.
  - cbn [flush_users]. unfold catch. rewrite increaseUserQuota_healthy; [|intros; eapply Hfit; [by left|done..]].
    apply NoDup_cons in Hnd as [Hnin Hnd].
    rewrite IH; [|done|].
    + do 2 f_equal. destruct db as [us ks pu pk]. unfold set_users. cbn [users tokens pend_users pend_tokens].
      f_equal. rewrite <- list_fmap_compose. apply list_fmap_ext. intros i u _.
      unfold compose, credited. destruct (u_Deleted u) eqn:Ed; [by rewrite Ed|].
      destruct u as [a q g dq du ld bg fg dd]. cbn [u_Deleted] in Ed. subst dd.
      unfold set_quota. cbn [u_ID u_Quota u_Group u_DailyQuota u_DailyUsed u_LastDailyReset
        u_BaseGroup u_FallbackGroup u_Deleted]. f_equal. rewrite delta_of_cons, (Z.eqb_sym id a). lia.
    + intros id' v' u' Hin Hu Hid Hdel. cbn [set_users users] in Hu.
      apply list_elem_of_fmap in Hu as (u & -> & Hu).
      assert (Hne : id' <> id).
      { intros ->. apply Hnin. by apply (list_elem_of_fmap_2 fst) in Hin. }
      unfold credited in *. destruct (u_Deleted u) eqn:Ed.
      { rewrite Ed in Hdel. discriminate. }
      cbn [u_ID set_quota u_Quota] in *.
      rewrite (proj2 (Z.eqb_neq (u_ID u) id)) by congruence. rewrite Z.add_0_r.
      eapply Hfit; [by right|done..].
Qed.

(** A run of buffered user writes, as signed deltas. *)
Definition record_user (d : Z * Z) : L unit :=
  if 0 <=? d.2 then IncreaseUserQuota true d.1 d.2 false else DecreaseUserQuota true d.1 (- d.2).

Fixpoint record_users (ds : list (Z * Z)) : L unit :=
  match ds with
  | [] => ret tt
  | d :: ds' => let! _ := record_user d in record_users ds'
  end.

Lemma record_users_ok ds db :
  (forall d, d ∈ ds -> in64 d.2) ->
  record_users ds (mkStore db []) =
    (Ok tt, mkStore (set_pend_users (buffered ds (pend_users db)) db) []).
Proof.
  revert db. induction ds as [|[i v] ds IH]; intros db Hin; [by destruct db|].
  assert (Hv : in64 v) by apply (Hin (i, v) ltac:(by left)).
  cbn [record_users]. unfold bind, record_user. cbn [fst snd].
  assert (Hone : (if 0 <=? v then IncreaseUserQuota true i v false else DecreaseUserQuota true i (- v))
            (mkStore db []) = (Ok tt, mkStore (set_pend_users (addNewRecord i v (pend_users db)) db) [])).
  { unfold IncreaseUserQuota, DecreaseUserQuota. destruct (Z.leb_spec 0 v).
    - rewrite (proj2 (Z.ltb_ge v 0)) by lia. done.
    - rewrite (proj2 (Z.ltb_ge (- v) 0)) by lia. by rewrite Z.opp_involutive, (wrap64_id v). }
  rewrite Hone, IH by (intros; apply Hin; by right). by destruct db.
Qed.
End LedgerFacts.

Section LedgerProperties.
Import GoStrings Ledger.

(** Buffering changes when, not what.  On a healthy database, any run of
    buffered user credits and debits followed by the flush moves every live
    user's quota by the sum of its deltas, touches no other column and no other
    row, and leaves the buffer empty, provided the sums fit their integers. *)
Theorem batch_flush_exact (ds : list (Z * Z)) (db : ledgerdb) (now : Z) :
  pend_users db = ∅ -> pend_tokens db = ∅ ->
  sumZ (fun d => Z.abs d.2) ds <= i64_max ->
  (forall u, u ∈ users db -> in32b (u_Quota u + delta_of ds (u_ID u)) = true) ->
  (let! _ := record_users ds in batchUpdate now) (mkStore db []) =
    (Ok tt, mkStore (set_users (credited (delta_of ds) <$> users db) db) []).
Proof.
  intros Hpu Hpk Hsum Hfit. unfold bind. rewrite record_users_ok.
  2: { intros d Hd. pose proof (delta_of_bound [d] d.1) as Hb.
       assert (Z.abs d.2 <= sumZ (fun d => Z.abs d.2) ds).
       { clear -Hd. induction ds as [|d' ds IH]; [set_solver|]. cbn [sumZ foldr].
         assert (0 <= sumZ (fun d => Z.abs d.2) ds) by (apply sumZ_nonneg; lia).
         apply elem_of_cons in Hd as [->|Hd]; [|specialize (IH Hd)]; unfold sumZ in *; lia. }
       unfold64. unfold i64_max, i64_half in Hsum. lia. }
  unfold batchUpdate, bind, buffer. cbn [tables faults pend_users pend_tokens set_pend_users].
  rewrite Hpu, Hpk, map_to_list_empty.
  rewrite flush_users_healthy.
  - cbn [flush_tokens]. destruct db as [us ks pu pk]. cbn in Hpu, Hpk. subst. unfold ret. do 2 f_equal.
    unfold set_pend_tokens, set_users, set_pend_users. cbn [users tokens pend_users pend_tokens].
    f_equal. apply credited_ext. intros u _.
    rewrite delta_of_map. by apply buffered_lookup.
  - apply NoDup_fst_map_to_list.
  - intros id v u Hin Hu Hid Hdel. apply elem_of_map_to_list in Hin.
    pose proof (buffered_lookup ds id Hsum) as Hl. rewrite Hin in Hl. simpl in Hl.
    rewrite Hl, <- Hid. apply Hfit. destruct db; done.
Qed.
End LedgerProperties.

Section LedgerWitnesses.
Import GoStrings Ledger.

Definition demo_user : User := mkUser 7 1000 "default" 0 0 0 "" "" false.
Definition demo_token : Token := mkToken 3 "acme" 500 0 0 false.
Definition demo_ledger : ledgerdb := mkLedger [demo_user] [demo_token] ∅ ∅.

Lemma batch_flush_exact_witness :
  exists s, (let! _ := record_users [(7, -30); (9, 4); (7, 10)] in batchUpdate 5)
              (mkStore demo_ledger []) = (Ok tt, s) /\ u_Quota <$> users (tables s) = [980].
Proof.
  eexists. split.
  - apply (batch_flush_exact [(7, -30); (9, 4); (7, 10)] demo_ledger 5); [done|done|discriminate|].
    intros u Hu. apply list_elem_of_singleton in Hu as ->. reflexivity.
  - reflexivity.
Defined.
End LedgerWitnesses.
