(* ===== verification/CreditPool.v ===== *)
(** * Tenant credit pools

    Model of internal/adapter/repo/tenant_credit_pool.go and
    internal/domain/entity/tenant_credit_pool.go: the pool row, its append-only
    draw ledger, and the operations that move a balance (debit, overdraft
    debit, top-up, hand-back, scheduled reset).  A pool transaction is a
    computation of the statement monad over [pooldb]; the clock readings inside
    one call are one argument [now].

    PostgreSQL facts the model keeps: [bigint] arithmetic raises an error
    instead of wrapping, a text column rejects over-wide, NUL-bearing or
    malformed text, [UPDATE ... WHERE] on one row is atomic, and a transaction
    that fails leaves no trace. *)

From S2P Require Import Prelude GoStrings Calendar.

Module CreditPool.
Import GoStrings Calendar.

(** ** Entities *)

Definition PoolResetNone : string := "none".
Definition PoolResetDaily : string := "daily".
Definition PoolResetWeekly : string := "weekly".
Definition PoolResetMonthly : string := "monthly".

Definition PoolMaxBalanceUnlimited : Z := -1.

Definition PoolDrawDirectionDebit : Z := 1.
Definition PoolDrawDirectionCredit : Z := -1.

Definition PoolDrawReasonRelayDebit : string := "relay_debit".
Definition PoolDrawReasonTopup : string := "topup".
Definition PoolDrawReasonReset : string := "reset".
Definition PoolDrawReasonAdjustment : string := "adjustment".
Definition PoolDrawReasonOverdraft : string := "relay_overdraft".

Record TenantCreditPool := mkPool {
  p_ID : Z;
  p_TenantID : string;
  p_ParentTenantID : option string;
  p_CreatedByUserID : Z;
  p_CurrentBalance : Z;
  p_MaxBalance : Z;
  p_ResetPeriod : string;
  p_LastResetAt : Z;
  p_NextResetAt : option Z;
  p_AlertThresholdPct : Z;
  p_AlertFiredAt : option Z;
  p_CreatedAt : Z;
  p_UpdatedAt : Z
}.

Definition IsUnlimited (p : TenantCreditPool) : bool :=
  p_MaxBalance p =? PoolMaxBalanceUnlimited.

Definition IsExhausted (p : TenantCreditPool) : bool :=
  negb (IsUnlimited p) && (p_CurrentBalance p <=? 0).

Definition ShouldAlert (p : TenantCreditPool) : bool :=
  if IsUnlimited p || (p_MaxBalance p <=? 0) then false
  else
    let threshold := Z.quot (i64_mul (p_MaxBalance p) (p_AlertThresholdPct p)) 100 in
    p_CurrentBalance p <? threshold.

Record TenantCreditPoolDraw := mkDraw {
  d_ID : Z;
  d_PoolID : Z;
  d_TenantID : string;
  d_TokenID : Z;
  d_LogID : Z;
  d_Direction : Z;
  d_Amount : Z;
  d_Reason : string;
  d_ActorUserID : Z;
  d_CreatedAt : Z
}.

Record CreditPoolFundEvent := mkEvent {
  e_ID : Z;
  e_EventID : string;
  e_TenantID : string;
  e_PoolID : Z;
  e_Amount : Z;
  e_NewBalance : Z;
  e_Source : string;
  e_CreatedAt : Z
}.

(** ** Tables *)

Record pooldb := mkDb {
  pools : list TenantCreditPool;
  draws : list TenantCreditPoolDraw;
  fundEvents : list CreditPoolFundEvent;
  seq_pool : Z;
  seq_draw : Z;
  seq_event : Z
}.

Definition empty_db : pooldb := mkDb [] [] [] 1 1 1.

Definition set_pools (db : pooldb) (ps : list TenantCreditPool) : pooldb :=
  mkDb ps (draws db) (fundEvents db) (seq_pool db) (seq_draw db) (seq_event db).
Definition set_events (db : pooldb) (es : list CreditPoolFundEvent) : pooldb :=
  mkDb (pools db) (draws db) es (seq_pool db) (seq_draw db) (seq_event db).

Inductive pool_err :=
| ErrPoolExhausted
| ErrPoolNotFound
| ErrPoolWouldExceedCeiling
| ErrNotPositive
| ErrNoTenant
| ErrOverdraftNotFound
| ErrInvalidEventID
| ErrFundEventExists
| errFundEventNotStranded
| ErrStrandedTopupManuallyClosed
| ErrStrandedArgs
| ErrUniqueViolation
| ErrRecordNotFound
| ErrDB.

#[global] Instance pool_err_eq_dec : EqDecision pool_err.
Proof. solve_decision. Defined.

#[global] Instance pool_err_db : DbError pool_err := ErrDB.

Abbreviation P A := (M pooldb pool_err A).

(** ** Statements *)

(** The row with its balance moved to [bal] at [now]. *)
Definition set_balance (bal now : Z) (p : TenantCreditPool) : TenantCreditPool :=
  mkPool (p_ID p) (p_TenantID p) (p_ParentTenantID p) (p_CreatedByUserID p) bal
    (p_MaxBalance p) (p_ResetPeriod p) (p_LastResetAt p) (p_NextResetAt p)
    (p_AlertThresholdPct p) (p_AlertFiredAt p) (p_CreatedAt p) now.

(** The row as a scheduled reset writes it. *)
Definition set_reset (bal now : Z) (next : option Z) (p : TenantCreditPool) : TenantCreditPool :=
  mkPool (p_ID p) (p_TenantID p) (p_ParentTenantID p) (p_CreatedByUserID p) bal
    (p_MaxBalance p) (p_ResetPeriod p) now next
    (p_AlertThresholdPct p) None (p_CreatedAt p) now.

(** [UPDATE tenant_credit_pools SET current_balance = current_balance + delta
    WHERE cond].  The sum is evaluated on the rows of [eval], which contain
    those of [cond]; a sum outside [bigint] is a driver error.  Returns the
    number of rows affected. *)
Definition update_balance (eval cond : TenantCreditPool -> bool) (delta now : Z) : P nat :=
  stmt (fun db =>
    if forallb (fun p => negb (eval p) || in64b (p_CurrentBalance p + delta)) (pools db)
    then Ok (affected cond (pools db),
             set_pools db (update_where cond
               (fun p => set_balance (p_CurrentBalance p + delta) now p) (pools db)))
    else Err ErrDB).

(** [INSERT INTO tenant_credit_pool_draws]. *)
Definition insert_draw (poolID : Z) (tenantID : string) (tokenID logID direction amount : Z)
    (reason : string) (actor now : Z) : P unit :=
  stmt (fun db =>
    if pg_text_ok 36 tenantID && pg_text_ok 32 reason
    then Ok (tt, mkDb (pools db)
               (draws db ++ [mkDraw (seq_draw db) poolID tenantID tokenID logID direction
                               amount reason actor now])
               (fundEvents db) (seq_pool db) (seq_draw db + 1) (seq_event db))
    else Err ErrDB).

Definition by_id (poolID : Z) (p : TenantCreditPool) : bool := p_ID p =? poolID.

Definition by_tenant (tenantID : string) (p : TenantCreditPool) : bool :=
  String.eqb (p_TenantID p) tenantID.

(** [SELECT current_balance ... WHERE id = ?]. *)
Definition read_balance (poolID : Z) : P Z :=
  let! r := query (fun db => first_where (by_id poolID) (pools db)) in
  match r with
  | Some p => ret (p_CurrentBalance p)
  | None => throw ErrRecordNotFound
  end.

(** ** Operations *)

Definition GetTenantCreditPool (tenantID : string) : P TenantCreditPool :=
  let! r := query (fun db => first_where (by_tenant tenantID) (pools db)) in
  match r with
  | Some p => ret p
  | None => throw ErrPoolNotFound
  end.

Definition nextResetAt (period : string) (from : Z) : option Z :=
  let z := day_of from in
  if String.eqb period PoolResetDaily then
    Some (midnight (Date (year z) (month z) (mday z + 1)))
  else if String.eqb period PoolResetWeekly then
    let daysUntilMonday := Z.rem (8 - Weekday z) 7 in
    let daysUntilMonday := if daysUntilMonday =? 0 then 7 else daysUntilMonday in
    Some (midnight (Date (year z) (month z) (mday z + daysUntilMonday)))
  else if String.eqb period PoolResetMonthly then
    Some (midnight (Date (year z) (month z + 1) 1))
  else None.

Definition CreateTenantCreditPool (tenantID : string) (createdBy maxBalance : Z)
    (resetPeriod : string) (alertPct now : Z) : P TenantCreditPool :=
  let resetPeriod := if String.eqb resetPeriod "" then PoolResetMonthly else resetPeriod in
  let alertPct := if (alertPct <=? 0) || (alertPct >? 100) then 80 else alertPct in
  stmt (fun db =>
    let pool := mkPool (seq_pool db) tenantID None createdBy 0 maxBalance resetPeriod now
                  (nextResetAt resetPeriod now) alertPct None now now in
    if existsb (by_tenant tenantID) (pools db) ||
       negb (pg_text_ok 36 tenantID && pg_text_ok 16 resetPeriod)
    then Err ErrDB
    else Ok (pool, mkDb (pools db ++ [pool]) (draws db) (fundEvents db)
                     (seq_pool db + 1) (seq_draw db) (seq_event db))).

Definition DebitPoolInTx (poolID : Z) (tenantID : string) (amount tokenID logID now : Z) : P unit :=
  if amount <=? 0 then throw ErrNotPositive
  else
    let cond p := by_id poolID p && (p_CurrentBalance p >=? amount) in
    let! n := update_balance cond cond (- amount) now in
    if (n =? 0)%nat then throw ErrPoolExhausted
    else insert_draw poolID tenantID tokenID logID PoolDrawDirectionDebit amount
           PoolDrawReasonRelayDebit 0 now.

Definition DebitPool (poolID : Z) (tenantID : string) (amount tokenID logID now : Z) : P unit :=
  if amount <=? 0 then throw ErrNotPositive
  else transaction (DebitPoolInTx poolID tenantID amount tokenID logID now).

Definition OverdraftDebitPool (poolID : Z) (tenantID : string) (amount tokenID logID now : Z) : P Z :=
  if amount <=? 0 then throw ErrNotPositive
  else transaction (
    let! n := update_balance (by_id poolID) (by_id poolID) (- amount) now in
    if (n =? 0)%nat then throw ErrOverdraftNotFound
    else
      let! newBalance := read_balance poolID in
      let! _ := insert_draw poolID tenantID tokenID logID PoolDrawDirectionDebit amount
                  PoolDrawReasonOverdraft 0 now in
      ret newBalance).

(** The rows a credit of [amount] may land on: [id = ? AND (max_balance = -1 OR
    current_balance + ? <= max_balance)]. *)
Definition fits_ceiling (poolID amount : Z) (p : TenantCreditPool) : bool :=
  by_id poolID p &&
  ((p_MaxBalance p =? PoolMaxBalanceUnlimited) ||
   (p_CurrentBalance p + amount <=? p_MaxBalance p)).

Definition topupPoolInTx (poolID : Z) (tenantID : string) (amount actor : Z) (reason : string)
    (now : Z) : P Z :=
  let! n := update_balance (by_id poolID) (fits_ceiling poolID amount) amount now in
  if (n =? 0)%nat then throw ErrPoolWouldExceedCeiling
  else
    let! newBalance := read_balance poolID in
    let! _ := insert_draw poolID tenantID 0 0 PoolDrawDirectionCredit amount reason actor now in
    ret newBalance.

Definition TopupPool (poolID : Z) (tenantID : string) (amount actor : Z) (reason : string)
    (now : Z) : P Z :=
  if amount <=? 0 then throw ErrNotPositive
  else
    let reason := if String.eqb reason "" then PoolDrawReasonTopup else reason in
    transaction (topupPoolInTx poolID tenantID amount actor reason now).

Definition poolDrawReasonMaxLen : nat := 32.

(** [if runes := []rune(s); len(runes) > 32 { s = string(runes[:32]) }]. *)
Definition truncate_reason (s : string) : string :=
  if (poolDrawReasonMaxLen <? RuneCountInString s)%nat
  then string_of_runes (take poolDrawReasonMaxLen (runes s)) else s.

Definition CreditPoolAdjustment (tenantID : string) (amount : Z) (reason : string) (now : Z)
    : P unit :=
  if amount <=? 0 then throw ErrNotPositive
  else if String.eqb tenantID "" then throw ErrNoTenant
  else
    try! got := GetTenantCreditPool tenantID in
    match got with
    | Err ErrPoolNotFound => ret tt
    | Err e => throw e
    | Ok pool =>
        if IsUnlimited pool then ret tt
        else
          let drawReason :=
            if String.eqb reason "" then PoolDrawReasonAdjustment
            else PoolDrawReasonAdjustment +:+ ":" +:+ reason in
          let drawReason := truncate_reason drawReason in
          transaction (
            let! _ := topupPoolInTx (p_ID pool) tenantID amount 0 drawReason now in
            ret tt)
    end.

(** ** Scheduled resets *)

Inductive reset_action := PoolResetActionReset | PoolResetActionObserved.

Record PoolResetResult := mkResult {
  r_TenantID : string;
  r_PoolID : Z;
  r_Delta : Z;
  r_MaxBalance : Z;
  r_Action : reset_action;
  r_NextResetAt : option Z
}.

(** [next_reset_at IS NOT NULL AND next_reset_at <= now AND reset_period NOT IN
    ('none', '') AND max_balance > 0]. *)
Definition is_due (now : Z) (p : TenantCreditPool) : bool :=
  match p_NextResetAt p with
  | None => false
  | Some t => t <=? now
  end && negb (String.eqb (p_ResetPeriod p) PoolResetNone) &&
  negb (String.eqb (p_ResetPeriod p) "") && (p_MaxBalance p >? 0).

(** [id = ? AND next_reset_at = ?]; a NULL never compares equal. *)
Definition reset_cas (pool p : TenantCreditPool) : bool :=
  by_id (p_ID pool) p &&
  match p_NextResetAt p, p_NextResetAt pool with
  | Some a, Some b => a =? b
  | _, _ => false
  end.

(** [pool] is the row as listed, possibly stale; the update writes its
    ceiling. *)
Definition resetOnePoolInTx (pool : TenantCreditPool) (delta now : Z) (next : option Z) : P bool :=
  transaction (
    let! n := stmt (fun db =>
      Ok (affected (reset_cas pool) (pools db),
          set_pools db (update_where (reset_cas pool)
            (set_reset (p_MaxBalance pool) now next) (pools db)))) in
    if (n =? 0)%nat then ret false
    else
      let! _ := insert_draw (p_ID pool) (p_TenantID pool) 0 0 PoolDrawDirectionCredit delta
                  PoolDrawReasonReset 0 now in
      ret true).

Definition reset_result (pool : TenantCreditPool) (delta : Z) (act : reset_action)
    (next : option Z) : PoolResetResult :=
  mkResult (p_TenantID pool) (p_ID pool) delta (p_MaxBalance pool) act next.

(** The loop over the listed pools.  The Go function returns the results so far
    together with the error that stopped it, so the error is part of the
    value. *)
Fixpoint reset_loop (due : list TenantCreditPool) (now : Z) (enforce : bool)
    (results : list PoolResetResult) : P (list PoolResetResult * option pool_err) :=
  match due with
  | [] => ret (results, None)
  | pool :: due' =>
      let delta := i64_sub (p_MaxBalance pool) (p_CurrentBalance pool) in
      let next := nextResetAt (p_ResetPeriod pool) now in
      if negb enforce then
        reset_loop due' now enforce
          (results ++ [reset_result pool delta PoolResetActionObserved next])
      else
        try! applied := resetOnePoolInTx pool delta now next in
        match applied with
        | Err e => ret (results, Some e)
        | Ok false => reset_loop due' now enforce results
        | Ok true =>
            reset_loop due' now enforce
              (results ++ [reset_result pool delta PoolResetActionReset next])
        end
  end.

Definition ResetDuePools (now : Z) (enforce : bool) : P (list PoolResetResult * option pool_err) :=
  try! due := query (fun db => List.filter (is_due now) (pools db)) in
  match due with
  | Err e => ret ([], Some e)
  | Ok due => reset_loop due now enforce []
  end.

(** [ListPoolDraws]: one page of a pool's ledger, newest first, and the total.
    [OFFSET]/[LIMIT] are modelled for a non-negative offset. *)
Definition draw_newer (a b : TenantCreditPoolDraw) : Prop := d_CreatedAt b <= d_CreatedAt a.

#[global] Instance draw_newer_dec a b : Decision (draw_newer a b).
Proof. unfold draw_newer. apply _. Defined.

Definition clamp_limit (limit : Z) : Z :=
  let limit := if limit <=? 0 then 50 else limit in
  if limit >? 200 then 200 else limit.

Definition ListPoolDraws (poolID : Z) (offset : nat) (limit : Z)
    : P (list TenantCreditPoolDraw * Z) :=
  let limit := clamp_limit limit in
  let of_pool (d : TenantCreditPoolDraw) := d_PoolID d =? poolID in
  let! total := query (fun db => Z.of_nat (affected of_pool (draws db))) in
  let! page := query (fun db =>
    take (Z.to_nat limit) (drop offset (merge_sort draw_newer (List.filter of_pool (draws db))))) in
  ret (page, total).

End CreditPool.

(** ** The ledger invariant *)

Section LedgerFacts.
Import GoStrings Calendar CreditPool.
Implicit Types (db : pooldb) (p : TenantCreditPool) (d : TenantCreditPoolDraw) (pid : Z).

(** What a draw adds to its pool: [- direction * amount]. *)
Definition signed d : Z := - d_Direction d * d_Amount d.

(** What the draws of a pool add up to, the balance the audit trail explains. *)
Definition ledger pid (ds : list TenantCreditPoolDraw) : Z :=
  sumZ (fun d => if d_PoolID d =? pid then signed d else 0) ds.

(** A key of the fund-event table. *)
Definition event_key (e : CreditPoolFundEvent) : string * string := (e_TenantID e, e_EventID e).

(** By how much a pool's balance differs from its draws: by nothing, unless a reset
    overwrote a balance it had not read. *)
Class Drift := drift : Z -> Z.
Definition no_drift : Drift := fun _ => 0.

Record wf_db {D : Drift} db : Prop := {
  wf_ids : NoDup (p_ID <$> pools db);
  wf_tenants : NoDup (p_TenantID <$> pools db);
  wf_seq : forall p, p ∈ pools db -> p_ID p < seq_pool db;
  wf_draws : forall d, d ∈ draws db -> d_PoolID d < seq_pool db;
  wf_range : forall p, p ∈ pools db -> in64 (p_CurrentBalance p) /\ in64 (p_MaxBalance p);
  wf_conserved : forall p, p ∈ pools db -> p_CurrentBalance p = ledger (p_ID p) (draws db) + drift (p_ID p);
  wf_events : NoDup (event_key <$> fundEvents db);
  wf_drift : forall pid, seq_pool db <= pid -> drift pid = 0
}.

Lemma empty_db_wf : wf_db (D := no_drift) empty_db.
Proof. split; simpl; try apply NoDup_nil_2; try done; set_solver. Qed.

Lemma ledger_app pid ds d :
  ledger pid (ds ++ [d]) = ledger pid ds + if d_PoolID d =? pid then signed d else 0.
Proof. unfold ledger. rewrite sumZ_app. simpl. lia. Qed.

Lemma ledger_fresh pid ds :
  (forall d, d ∈ ds -> d_PoolID d <> pid) -> ledger pid ds = 0.
Proof.
  unfold ledger. induction ds as [|d ds IH]; intros H; simpl; [done|].
  rewrite IH by set_solver. destruct (Z.eqb_spec (d_PoolID d) pid); [|lia].
  exfalso. apply (H d); set_solver.
Qed.

Lemma pool_unique {D : Drift} db p q : wf_db db -> p ∈ pools db -> q ∈ pools db -> p_ID p = p_ID q -> p = q.
Proof. intros Hwf. apply NoDup_fmap_inj, Hwf. Qed.

(** A balance move recorded by a draw: the shape of every balance-changing
    transaction.  [f] rewrites the selected row, whose id is the draw's pool; what the
    draw does not account for is drift. *)
Lemma move_drift (D D' : Drift) db cond f pid d sd :
  wf_db (D := D) db ->
  (forall p, cond p = true -> p_ID p = pid) ->
  (forall p, p_ID (f p) = p_ID p /\ p_TenantID (f p) = p_TenantID p) ->
  affected cond (pools db) <> 0%nat ->
  (forall p, p ∈ pools db -> cond p = true ->
     p_CurrentBalance (f p) = p_CurrentBalance p + signed d + (D' pid - D pid) /\
     in64 (p_CurrentBalance (f p)) /\ in64 (p_MaxBalance (f p))) ->
  d_PoolID d = pid -> (forall id, id <> pid -> D' id = D id) ->
  wf_db (D := D') (mkDb (update_where cond f (pools db)) (draws db ++ [d]) (fundEvents db)
           (seq_pool db) sd (seq_event db)).
Proof.
  intros Hwf Hid Hf Haff Hmove Hd HD. pose proof Hwf as [H1 H2 H3 H4 H5 H6 H7 H8]. unfold drift in *.
  assert (exists r, r ∈ pools db /\ cond r = true) as (r & Hr & Hcr).
  { by apply affected_neq_0. }
  split; simpl.
  - rewrite update_where_proj by apply Hf. done.
  - rewrite update_where_proj by apply Hf. done.
  - intros p (p0 & Hp0 & ->)%elem_of_update_where.
    case_match; [rewrite (proj1 (Hf p0))|]; auto.
  - intros d' [Hd'|Hd'%list_elem_of_singleton]%elem_of_app; [auto|]. subst.
    rewrite <- (Hid r Hcr). auto.
  - intros p (p0 & Hp0 & ->)%elem_of_update_where. case_match; [|auto].
    by apply Hmove.
  - intros p (p0 & Hp0 & ->)%elem_of_update_where. rewrite ledger_app, Hd. unfold drift.
    destruct (cond p0) eqn:Ec.
    + rewrite (proj1 (Hf p0)). destruct (Hmove p0 Hp0 Ec) as [-> _].
      rewrite (H6 p0 Hp0), (Hid p0 Ec), Z.eqb_refl. lia.
    + destruct (Z.eqb_spec pid (p_ID p0)) as [E|E]; [|rewrite H6, HD by auto; lia].
      assert (p0 = r) as -> by (apply (pool_unique (D := D) db); auto; rewrite (Hid r Hcr); done).
      congruence.
  - done.
  - intros id Hle. unfold drift. rewrite HD; [auto|]. intros ->. specialize (H3 r Hr). rewrite (Hid r Hcr) in H3. lia.
Qed.

Context {D : Drift}.

Lemma move_wf db cond f pid d sd :
  wf_db db ->
  (forall p, cond p = true -> p_ID p = pid) ->
  (forall p, p_ID (f p) = p_ID p /\ p_TenantID (f p) = p_TenantID p) ->
  affected cond (pools db) <> 0%nat ->
  (forall p, p ∈ pools db -> cond p = true ->
     p_CurrentBalance (f p) = p_CurrentBalance p + signed d /\
     in64 (p_CurrentBalance (f p)) /\ in64 (p_MaxBalance (f p))) ->
  d_PoolID d = pid ->
  wf_db (mkDb (update_where cond f (pools db)) (draws db ++ [d]) (fundEvents db)
           (seq_pool db) sd (seq_event db)).
Proof.
  intros Hwf Hid Hf Haff Hmove Hd. apply (move_drift D D db cond f pid); auto.
  intros p Hp Hc. destruct (Hmove p Hp Hc) as [-> ?]. split; [lia|done].
Qed.

Lemma wf_set_events db es :
  wf_db db -> NoDup (event_key <$> es) -> wf_db (set_events db es).
Proof. intros [] ?. by split. Qed.

(** ** Statement specifications *)

Lemma update_balance_ok eval cond delta now (s s' : store pooldb) n :
  update_balance eval cond delta now s = (Ok n, s') ->
  n = affected cond (pools (tables s)) /\
  tables s' = set_pools (tables s) (update_where cond
     (fun p => set_balance (p_CurrentBalance p + delta) now p) (pools (tables s))) /\
  (forall p, p ∈ pools (tables s) -> eval p = true -> in64 (p_CurrentBalance p + delta)).
Proof.
  unfold update_balance. intros H%stmt_ok.
  destruct (forallb _ _) eqn:E; [|done]. injection H as <- <-. split; [done|]. split; [done|].
  intros p Hp He. rewrite forallb_forall in E. specialize (E p).
  rewrite <- list_elem_of_In in E. specialize (E Hp). rewrite He in E. simpl in E.
  by apply in64b_spec.
Qed.

Lemma insert_draw_ok pid tid tok log dir amt rsn act now (s s' : store pooldb) u :
  insert_draw pid tid tok log dir amt rsn act now s = (Ok u, s') ->
  exists d, d_PoolID d = pid /\ signed d = - dir * amt /\
    d_Direction d = dir /\ d_Amount d = amt /\ d_Reason d = rsn /\
    tables s' = mkDb (pools (tables s)) (draws (tables s) ++ [d]) (fundEvents (tables s))
                  (seq_pool (tables s)) (seq_draw (tables s) + 1) (seq_event (tables s)).
Proof.
  unfold insert_draw. intros H%stmt_ok. case_match; [|done]. injection H as _ Ht.
  eexists (mkDraw _ _ _ _ _ _ _ _ _ _). rewrite <- Ht. unfold signed. simpl. eauto 10.
Qed.

Lemma read_balance_readonly pid : readonly (read_balance pid).
Proof.
  intros s. unfold read_balance, bind.
  pose proof (query_readonly (E := pool_err) (fun db => first_where (by_id pid) (pools db)) s) as H.
  destruct (query _ s) as [[[p|]|e] s1]; simpl in *; done.
Qed.

Lemma read_balance_ok pid (s s' : store pooldb) b :
  read_balance pid s = (Ok b, s') ->
  tables s' = tables s /\ exists p, p ∈ pools (tables s) /\ p_ID p = pid /\ p_CurrentBalance p = b.
Proof.
  unfold read_balance. intros H. open_ok. case_match; open_ok.
  match goal with E : first_where _ _ = Some _ |- _ => apply first_where_some in E as [? ?] end.
  unfold by_id in *. bool_to_prop. eauto.
Qed.

End LedgerFacts.

Section PoolFacts.
Import GoStrings Calendar CreditPool.
Context {D : Drift}.
Implicit Types (db : pooldb) (p : TenantCreditPool) (pid amt now : Z) (tid : string).

(** What a balance-moving transaction leaves: [f] on the rows of [cond], and the
    draw [d] appended. *)
Definition moved db cond f d : pooldb :=
  mkDb (update_where cond f (pools db)) (draws db ++ [d]) (fundEvents db)
    (seq_pool db) (seq_draw db + 1) (seq_event db).

Lemma by_id_spec pid p : by_id pid p = true <-> p_ID p = pid.
Proof. unfold by_id. apply Z.eqb_eq. Qed.

Lemma fits_ceiling_spec pid amt p :
  fits_ceiling pid amt p = true <->
  p_ID p = pid /\ (IsUnlimited p = true \/ p_CurrentBalance p + amt <= p_MaxBalance p).
Proof.
  unfold fits_ceiling, IsUnlimited. rewrite andb_true_iff, orb_true_iff, by_id_spec, Z.leb_le.
  done.
Qed.

(** A balance update that selected a row, followed by its draw. *)
Lemma move_tables db s1 s2 s3 eval cond delta now n pid tid tok log dir amt rsn act u :
  tables s1 = db ->
  update_balance eval cond delta now s1 = (Ok n, s2) -> (n =? 0)%nat = false ->
  (exists s2', tables s2' = tables s2 /\
     insert_draw pid tid tok log dir amt rsn act now s2' = (Ok u, s3)) ->
  exists d, d_PoolID d = pid /\ d_Direction d = dir /\ d_Amount d = amt /\ d_Reason d = rsn /\
    affected cond (pools db) <> 0%nat /\
    (forall p, p ∈ pools db -> eval p = true -> in64 (p_CurrentBalance p + delta)) /\
    tables s3 = moved db cond (fun p => set_balance (p_CurrentBalance p + delta) now p) d.
Proof.
  intros <- (-> & Ht2 & Hr)%update_balance_ok Hn%Nat.eqb_neq (s2' & E2 & Hd).
  apply insert_draw_ok in Hd as (d & ? & ? & ? & ? & ? & Ht3).
  exists d. split_and!; [done..|]. rewrite Ht3, E2, Ht2. done.
Qed.

Lemma DebitPoolInTx_ok pid tid amt tok log now s s' u :
  DebitPoolInTx pid tid amt tok log now s = (Ok u, s') ->
  0 < amt /\ exists d p,
    d_PoolID d = pid /\ d_Direction d = PoolDrawDirectionDebit /\ d_Amount d = amt /\
    d_Reason d = PoolDrawReasonRelayDebit /\
    p ∈ pools (tables s) /\ p_ID p = pid /\ amt <= p_CurrentBalance p /\
    tables s' = moved (tables s) (fun p => by_id pid p && (p_CurrentBalance p >=? amt))
                  (fun p => set_balance (p_CurrentBalance p + - amt) now p) d.
Proof.
  unfold DebitPoolInTx. destruct (amt <=? 0) eqn:Ea; [done|]. intros H. bool_to_prop. open_ok.
  destruct (a =? 0)%nat eqn:En; [done|].
  destruct (move_tables (tables s) s s0 s' _ _ (- amt) now a pid tid tok log
              PoolDrawDirectionDebit amt PoolDrawReasonRelayDebit 0 u eq_refl Hm En)
    as (d & ? & ? & ? & ? & Haff & _ & Ht); [by eauto|].
  split; [lia|]. apply affected_neq_0 in Haff as (p & Hp & Hc).
  bool_to_prop. rewrite by_id_spec in *. exists d, p. split_and!; done.
Qed.

Lemma topupPoolInTx_ok pid tid amt act rsn now s s' b :
  topupPoolInTx pid tid amt act rsn now s = (Ok b, s') ->
  exists d,
    d_PoolID d = pid /\ d_Direction d = PoolDrawDirectionCredit /\ d_Amount d = amt /\
    d_Reason d = rsn /\
    affected (fits_ceiling pid amt) (pools (tables s)) <> 0%nat /\
    (forall p, p ∈ pools (tables s) -> p_ID p = pid -> in64 (p_CurrentBalance p + amt)) /\
    tables s' = moved (tables s) (fits_ceiling pid amt)
                  (fun p => set_balance (p_CurrentBalance p + amt) now p) d /\
    exists q, q ∈ pools (tables s') /\ p_ID q = pid /\ p_CurrentBalance q = b.
Proof.
  unfold topupPoolInTx. intros H. open_ok. destruct (a =? 0)%nat eqn:En; [done|]. open_ok.
  apply read_balance_ok in Hm0 as (Ht1 & q & Hq & Hqid & Hqb).
  destruct (move_tables (tables s) s s0 s' _ _ amt now a pid tid 0 0
              PoolDrawDirectionCredit amt rsn act a1 eq_refl Hm En)
    as (d & ? & ? & ? & ? & Haff & Hr & Ht); [by eauto|].
  exists d. split_and!; try done.
  - intros p Hp Hid. apply Hr; [done|]. by apply by_id_spec.
  - exists q. split_and!; [|done..]. rewrite Ht. simpl.
    apply update_balance_ok in Hm as (_ & E & _). by rewrite E in Hq.
Qed.

Lemma OverdraftDebitPool_ok pid tid amt tok log now s s' b :
  OverdraftDebitPool pid tid amt tok log now s = (Ok b, s') ->
  0 < amt /\ exists d,
    d_PoolID d = pid /\ d_Direction d = PoolDrawDirectionDebit /\ d_Amount d = amt /\
    d_Reason d = PoolDrawReasonOverdraft /\
    affected (by_id pid) (pools (tables s)) <> 0%nat /\
    (forall p, p ∈ pools (tables s) -> p_ID p = pid -> in64 (p_CurrentBalance p + - amt)) /\
    tables s' = moved (tables s) (by_id pid)
                  (fun p => set_balance (p_CurrentBalance p + - amt) now p) d /\
    exists q, q ∈ pools (tables s') /\ p_ID q = pid /\ p_CurrentBalance q = b.
Proof.
  unfold OverdraftDebitPool. destruct (amt <=? 0) eqn:Ea; [done|]. intros H. bool_to_prop. open_ok.
  rename s0 into s3. destruct (a =? 0)%nat eqn:En; [done|]. open_ok.
  split; [lia|]. apply read_balance_ok in Hm0 as (Ht1 & q & Hq & Hqid & Hqb).
  destruct (move_tables (tables s) s s1 s3 _ _ (- amt) now a pid tid tok log
              PoolDrawDirectionDebit amt PoolDrawReasonOverdraft 0 a1 eq_refl Hm En)
    as (d & ? & ? & ? & ? & Haff & Hr & Hts); [by eauto|].
  exists d. rewrite Ht, Hts. split_and!; try done.
  - intros p Hp Hid. apply Hr; [done|]. by apply by_id_spec.
  - exists q. split_and!; [|done..]. simpl.
    apply update_balance_ok in Hm as (_ & E & _). by rewrite E in Hq.
Qed.

(** Debits and credits keep the invariant. *)
Lemma moved_wf db cond pid delta now d :
  wf_db db ->
  (forall p, cond p = true -> p_ID p = pid) ->
  affected cond (pools db) <> 0%nat ->
  (forall p, p ∈ pools db -> cond p = true -> in64 (p_CurrentBalance p + delta)) ->
  d_PoolID d = pid -> signed d = delta ->
  wf_db (moved db cond (fun p => set_balance (p_CurrentBalance p + delta) now p) d).
Proof.
  intros Hwf Hc Ha Hr Hd Hs. apply (move_wf db cond _ pid); auto.
  intros p Hp Hcp. simpl. rewrite Hs. split; [done|]. split; [by apply Hr|].
  by apply (wf_range _ Hwf).
Qed.

Lemma DebitPool_preserves pid tid amt tok log now :
  preserves wf_db (DebitPool pid tid amt tok log now).
Proof.
  unfold DebitPool. destruct (amt <=? 0); [by intros s|].
  apply transaction_preserves.
  intros s u s' Hwf (Ha & d & p & Hd & Hdir & Hamt & _ & Hp & Hpid & Hle & ->)%DebitPoolInTx_ok.
  apply (moved_wf _ _ pid); auto.
  - intros q Hq. bool_to_prop. by apply by_id_spec.
  - apply affected_pos with p; [done|]. rewrite andb_true_iff, Z.geb_leb, Z.leb_le, by_id_spec. done.
  - intros q Hq Hcq. bool_to_prop. pose proof (wf_range _ Hwf q Hq). unfold64. lia.
  - unfold signed. rewrite Hdir, Hamt. unfold PoolDrawDirectionDebit. lia.
Qed.

Lemma OverdraftDebitPool_preserves pid tid amt tok log now :
  preserves wf_db (OverdraftDebitPool pid tid amt tok log now).
Proof.
  intros s Hwf.
  destruct (OverdraftDebitPool pid tid amt tok log now s) as [[b|e] s'] eqn:E; simpl.
  - apply OverdraftDebitPool_ok in E as (Ha & d & Hd & Hdir & Hamt & _ & Haff & Hr & -> & _).
    apply (moved_wf _ _ pid); auto.
    + intros q. apply by_id_spec.
    + intros q Hq. rewrite by_id_spec. auto.
    + unfold signed. rewrite Hdir, Hamt. unfold PoolDrawDirectionDebit. lia.
  - unfold OverdraftDebitPool in E. destruct (amt <=? 0).
    + by injection E as <- <-.
    + apply transaction_atomic in E. by rewrite E.
Qed.

Lemma topupPoolInTx_wf pid tid amt act rsn now s s' b :
  wf_db (tables s) -> topupPoolInTx pid tid amt act rsn now s = (Ok b, s') -> wf_db (tables s').
Proof.
  intros Hwf (d & Hd & Hdir & Hamt & _ & Haff & Hr & -> & _)%topupPoolInTx_ok.
  apply (moved_wf _ _ pid); auto.
  - intros q. rewrite fits_ceiling_spec. tauto.
  - intros q Hq. rewrite fits_ceiling_spec. intros [? _]. auto.
  - unfold signed. rewrite Hdir, Hamt. unfold PoolDrawDirectionCredit. lia.
Qed.

Lemma TopupPool_preserves pid tid amt act rsn now :
  preserves wf_db (TopupPool pid tid amt act rsn now).
Proof.
  unfold TopupPool. destruct (amt <=? 0); [by intros s|].
  apply transaction_preserves. intros. eapply topupPoolInTx_wf; eauto.
Qed.

Lemma GetTenantCreditPool_readonly tid : readonly (GetTenantCreditPool tid).
Proof.
  intros s. unfold GetTenantCreditPool, bind.
  pose proof (query_readonly (E := pool_err)
    (fun db => first_where (by_tenant tid) (pools db)) s) as H.
  destruct (query _ s) as [[[p|]|e] s1]; simpl in *; done.
Qed.

Lemma CreditPoolAdjustment_preserves tid amt rsn now :
  preserves wf_db (CreditPoolAdjustment tid amt rsn now).
Proof.
  intros s Hwf. unfold CreditPoolAdjustment, catch.
  destruct (amt <=? 0); [done|]. destruct (String.eqb tid ""); [done|].
  pose proof (GetTenantCreditPool_readonly tid s) as Hro.
  destruct (GetTenantCreditPool tid s) as [[p|e] s1]; simpl in Hro; rewrite <- Hro in Hwf.
  - destruct (IsUnlimited p); [done|]. revert Hwf. apply transaction_preserves.
    intros s2 u s3 Hwf Hok. open_ok. eapply topupPoolInTx_wf; eauto.
  - by destruct e.
Qed.

Lemma CreateTenantCreditPool_preserves tid by_ mx per pct now :
  in64 mx -> preserves wf_db (CreateTenantCreditPool tid by_ mx per pct now).
Proof.
  intros Hmx s Hwf.
  destruct (CreateTenantCreditPool tid by_ mx per pct now s) as [[p|e] s'] eqn:E; simpl.
  2: { apply stmt_atomic in E. by rewrite E. }
  apply stmt_ok in E. destruct (existsb _ _ || _) eqn:Ex; [done|]. injection E as _ <-.
  apply orb_false_iff in Ex as [H _]. destruct Hwf as [H1 H2 H3 H4 H5 H6 H7 H8].
  assert (Hnew : forall q, q ∈ pools (tables s) -> p_TenantID q <> tid).
  { intros q Hq Heq. apply not_true_iff_false in H. apply H, existsb_exists.
    exists q. split; [by apply list_elem_of_In|]. by apply String.eqb_eq. }
  split; simpl; try rewrite fmap_app; simpl.
  - apply NoDup_app. split; [done|]. split; [|apply NoDup_singleton].
    intros x (q & -> & Hq)%list_elem_of_fmap Hx%list_elem_of_singleton.
    specialize (H3 q Hq). simpl in Hx. lia.
  - apply NoDup_app. split; [done|]. split; [|apply NoDup_singleton].
    intros x (q & -> & Hq)%list_elem_of_fmap Hx%list_elem_of_singleton.
    by apply (Hnew q Hq).
  - intros q [Hq|Hq%list_elem_of_singleton]%elem_of_app; [specialize (H3 q Hq); lia|].
    subst. simpl. lia.
  - intros d Hd. specialize (H4 d Hd). lia.
  - intros q [Hq|Hq%list_elem_of_singleton]%elem_of_app; [auto|]. subst. simpl.
    split; [unfold64; lia|done].
  - intros q [Hq|Hq%list_elem_of_singleton]%elem_of_app; [auto|]. subst. simpl.
    rewrite ledger_fresh, H8; [done|lia|]. intros d Hd. specialize (H4 d Hd). lia.
  - done.
  - intros id Hle. apply H8. lia.
Qed.

(** ** Resets *)

Lemma reset_cas_id pool p : reset_cas pool p = true -> p_ID p = p_ID pool.
Proof. unfold reset_cas. intros H. bool_to_prop. by apply by_id_spec. Qed.

(** What a reset that applies adds to the drift of its pool: the ceiling it sets, less the
    balance it finds and the draw it books, which was computed from the row it listed. *)
Definition overwrites (pool : TenantCreditPool) db : Z :=
  match first_where (by_id (p_ID pool)) (pools db) with
  | Some row => p_MaxBalance pool - (p_CurrentBalance row + i64_sub (p_MaxBalance pool) (p_CurrentBalance pool))
  | None => 0
  end.

Definition applied (r : result pool_err bool) : bool := match r with Ok b => b | Err _ => false end.

Definition drift_by (pid lost : Z) (D0 : Drift) : Drift := fun id => if id =? pid then D0 id + lost else D0 id.

Lemma first_by_id db p : wf_db db -> p ∈ pools db -> first_where (by_id (p_ID p)) (pools db) = Some p.
Proof.
  intros Hwf Hp. destruct (first_where _ _) as [q|] eqn:E.
  - apply first_where_some in E as [Hq Hc]. apply by_id_spec in Hc. f_equal. by apply (pool_unique db).
  - apply (first_where_none _ _ E) in Hp. by rewrite (proj2 (by_id_spec _ _)) in Hp.
Qed.

(** A reset, whichever row it listed, keeps every other row and accounts for its own but for
    what it overwrites. *)
Lemma resetOne_drift pool now next s r s' :
  wf_db (tables s) -> in64 (p_MaxBalance pool) ->
  resetOnePoolInTx pool (i64_sub (p_MaxBalance pool) (p_CurrentBalance pool)) now next s = (r, s') ->
  wf_db (D := if applied r then drift_by (p_ID pool) (overwrites pool (tables s)) D else D) (tables s') /\
  forall q, q ∈ pools (tables s) -> p_ID q <> p_ID pool -> q ∈ pools (tables s').
Proof.
  intros Hwf Hmax Hrun. destruct r as [ap|e].
  2: { apply transaction_atomic in Hrun. by rewrite Hrun. }
  unfold resetOnePoolInTx in Hrun. open_ok. rewrite Ht. clear Ht.
  injection Hm as Hn Ht. destruct (a =? 0)%nat eqn:En; open_ok.
  - apply Nat.eqb_eq in En. rewrite <- Ht.
    rewrite update_where_none by (by apply affected_0). by destruct (tables s).
  - apply insert_draw_ok in Hm as (d & Hd & Hs & _ & _ & _ & Ht3).
    apply Nat.eqb_neq in En. rewrite Ht3, <- Ht. simpl. split.
    + apply (move_drift D _ _ (reset_cas pool) _ (p_ID pool)); auto.
      * apply reset_cas_id.
      * intros p Hp Hc. apply reset_cas_id in Hc. simpl. unfold drift_by. rewrite Z.eqb_refl. rewrite Hs.
        unfold overwrites. rewrite <- Hc, (first_by_id _ p Hwf Hp). pose proof (wf_range _ Hwf p Hp).
        unfold PoolDrawDirectionCredit. split_and!; [lia|done|tauto].
      * intros id Hne. unfold drift_by. by rewrite (proj2 (Z.eqb_neq _ _)).
    + intros q Hq Hne. apply elem_of_update_where. exists q. split; [done|].
      destruct (reset_cas pool q) eqn:E; [|done]. apply reset_cas_id in E. done.
Qed.

(** A reset that commits against the row it listed overwrites nothing. *)
Lemma overwrites_fresh pool db :
  wf_db db -> pool ∈ pools db -> in64 (p_MaxBalance pool - p_CurrentBalance pool) -> overwrites pool db = 0.
Proof.
  intros Hwf Hin Hgap. unfold overwrites. rewrite (first_by_id _ pool Hwf Hin). unfold i64_sub. rewrite wrap64_id by done. lia.
Qed.

Lemma wf_same_drift (D1 D2 : Drift) db : (forall pid, D1 pid = D2 pid) -> wf_db (D := D1) db -> wf_db (D := D2) db.
Proof.
  intros He [H1 H2 H3 H4 H5 H6 H7 H8]. unfold drift in *. split; try done; unfold drift.
  - intros p Hp. by rewrite <- He, <- H6.
  - intros id Hid. by rewrite <- He, H8.
Qed.

Lemma resetOne_fresh pool now next s r s' :
  wf_db (tables s) -> pool ∈ pools (tables s) ->
  in64 (p_MaxBalance pool - p_CurrentBalance pool) ->
  resetOnePoolInTx pool (i64_sub (p_MaxBalance pool) (p_CurrentBalance pool)) now next s
    = (r, s') ->
  wf_db (tables s') /\
  forall q, q ∈ pools (tables s) -> p_ID q <> p_ID pool -> q ∈ pools (tables s').
Proof.
  intros Hwf Hin Hgap Hrun. pose proof (overwrites_fresh pool _ Hwf Hin Hgap) as H0.
  apply resetOne_drift in Hrun as [Hwf' Hkeep]; [|done|by apply (wf_range _ Hwf)]. split; [|done].
  rewrite H0 in Hwf'. destruct (applied r); [|done]. refine (wf_same_drift _ _ _ _ Hwf'). intros pid. unfold drift_by. destruct (pid =? _); lia.
Qed.

Lemma reset_loop_wf due now enforce acc s :
  NoDup (p_ID <$> due) ->
  (forall p, p ∈ due -> in64 (p_MaxBalance p - p_CurrentBalance p)) ->
  (forall p, p ∈ due -> p ∈ pools (tables s)) ->
  wf_db (tables s) -> wf_db (tables (snd (reset_loop due now enforce acc s))).
Proof.
  revert acc s. induction due as [|pool due IH]; intros acc s Hnd Hgap Hin Hwf; [done|].
  apply NoDup_cons in Hnd as [Hni Hnd]. simpl. destruct enforce; simpl.
  - unfold catch. destruct (resetOnePoolInTx _ _ _ _ s) as [r s1] eqn:Er.
    apply resetOne_fresh in Er as [Hwf1 Hkeep]; auto; [|set_solver..].
    assert (forall p, p ∈ due -> p ∈ pools (tables s1)) as Hin1.
    { intros p Hp. apply Hkeep; [set_solver|]. intros E. apply Hni. rewrite <- E.
      by apply list_elem_of_fmap_2. }
    destruct r as [[]|e]; [..|done]; apply IH; auto; set_solver.
  - apply IH; auto; set_solver.
Qed.

(** No due pool's gap to its ceiling overflows. *)
Definition gaps_fit now db : Prop :=
  forall p, p ∈ pools db -> is_due now p = true -> in64 (p_MaxBalance p - p_CurrentBalance p).

Lemma ResetDuePools_wf now enforce s :
  gaps_fit now (tables s) -> wf_db (tables s) ->
  wf_db (tables (snd (ResetDuePools now enforce s))).
Proof.
  intros Hgap Hwf. unfold ResetDuePools, catch, query, stmt.
  destruct (next_fault (faults s)) as [[] fs]; [done|]. simpl.
  apply reset_loop_wf; simpl; auto.
  - apply NoDup_fmap_filter, Hwf.
  - intros p Hp. rewrite list_elem_of_In, filter_In, <- list_elem_of_In in Hp.
    destruct Hp. by apply Hgap.
  - intros p Hp. rewrite list_elem_of_In, filter_In, <- list_elem_of_In in Hp. tauto.
Qed.

End PoolFacts.
