(* ===== verification/CreditPoolSpec.v ===== *)
(** * What the tenant credit pools promise

    Properties of the operations of CreditPool.v: the functional behaviour of a
    debit on every branch, atomicity under every fault schedule, bounds on the
    balances a debit or a credit can produce, the debit/hand-back round trip,
    the reset schedule and the scheduled reset pass, and the reset that races a
    debit. *)

From S2P Require Import Prelude GoStrings Calendar CreditPool.

Section Healthy.
Import GoStrings Calendar CreditPool.
Context {D : Drift}.
Implicit Types (db : pooldb) (p : TenantCreditPool) (pid amt now : Z) (tid : string).

(** ** Rows of one pool *)

(** In a well-formed table a condition that includes the id selects at most the
    row with that id. *)
Lemma update_where_row db p cond f g :
  wf_db db -> p ∈ pools db -> cond p = true -> g p = f p ->
  (forall q, cond q = true -> p_ID q = p_ID p) ->
  update_where cond f (pools db) = update_where (by_id (p_ID p)) g (pools db).
Proof.
  intros Hwf Hp Hc Hg Hid. unfold update_where. apply list_fmap_ext.
  intros i q Hq%list_elem_of_lookup_2. destruct (by_id (p_ID p) q) eqn:E.
  - apply by_id_spec in E. assert (q = p) as -> by by apply (pool_unique db).
    by rewrite Hc.
  - destruct (cond q) eqn:Ec; [|done]. apply Hid, by_id_spec in Ec. congruence.
Qed.

Lemma moved_row db p f g d :
  wf_db db -> p ∈ pools db -> f p = g p ->
  moved db (by_id (p_ID p)) f d = moved db (by_id (p_ID p)) g d.
Proof.
  intros Hwf Hp Hfg. unfold moved. f_equal. apply update_where_row; auto.
  - by apply by_id_spec.
  - intros q. apply by_id_spec.
Qed.

Lemma affected_row db p cond :
  wf_db db -> p ∈ pools db -> (forall q, cond q = true -> p_ID q = p_ID p) ->
  cond p = false -> affected cond (pools db) = 0%nat.
Proof.
  intros Hwf Hp Hid Hc. destruct (decide (affected cond (pools db) = 0%nat)) as [|Hn]; [done|].
  apply affected_neq_0 in Hn as (q & Hq & Hcq).
  assert (q = p) as -> by (apply (pool_unique db); auto). congruence.
Qed.

(** The balance statement on a pool that is there, database healthy. *)
Lemma update_balance_row db p (eval cond : TenantCreditPool -> bool) delta now :
  wf_db db -> p ∈ pools db ->
  (forall q, cond q = true -> p_ID q = p_ID p) ->
  (forall q, eval q = true -> p_ID q = p_ID p) ->
  (eval p = true -> in64 (p_CurrentBalance p + delta)) ->
  update_balance eval cond delta now (mkStore db []) =
  if cond p
  then (Ok (affected cond (pools db)),
        mkStore (set_pools db (update_where (by_id (p_ID p))
          (set_balance (p_CurrentBalance p + delta) now) (pools db))) [])
  else (Ok 0%nat, mkStore db []).
Proof.
  intros Hwf Hp Hid Hev Hin. unfold update_balance. rewrite stmt_healthy.
  replace (forallb _ _) with true.
  2: { symmetry. apply forallb_forall. intros q Hq%list_elem_of_In.
       destruct (eval q) eqn:E; [|done]. simpl.
       assert (q = p) as -> by (apply (pool_unique db); auto).
       by apply in64b_spec, Hin. }
  destruct (cond p) eqn:Ec.
  - by rewrite (update_where_row db p cond _ (set_balance (p_CurrentBalance p + delta) now)).
  - rewrite (affected_row db p) by done. rewrite update_where_none; [by destruct db|].
    apply affected_0. by apply (affected_row db p).
Qed.

Lemma affected_some db p cond :
  p ∈ pools db -> cond p = true -> (affected cond (pools db) =? 0)%nat = false.
Proof. intros Hp Hc. apply Nat.eqb_neq. by apply affected_pos with p. Qed.

(** What a balance move leaves: the pool's row at balance [bal], one draw more. *)
Definition booked db p bal now tid tok log dir amt rsn act : pooldb :=
  moved db (by_id (p_ID p)) (set_balance bal now)
    (mkDraw (seq_draw db) (p_ID p) tid tok log dir amt rsn act now).

Lemma insert_draw_healthy db pid tid tok log dir amt rsn act now :
  pg_text_ok 36 tid = true -> pg_text_ok 32 rsn = true ->
  insert_draw pid tid tok log dir amt rsn act now (mkStore db []) =
  (Ok tt, mkStore (mkDb (pools db) (draws db ++ [mkDraw (seq_draw db) pid tid tok log dir
             amt rsn act now]) (fundEvents db) (seq_pool db) (seq_draw db + 1) (seq_event db)) []).
Proof. intros H1 H2. unfold insert_draw. rewrite stmt_healthy, H1, H2. done. Qed.

Lemma read_balance_row db p g :
  wf_db db -> p ∈ pools db -> (forall q, p_ID (g q) = p_ID q) ->
  read_balance (p_ID p) (mkStore (set_pools db (update_where (by_id (p_ID p)) g (pools db))) []) =
  (Ok (p_CurrentBalance (g p)),
   mkStore (set_pools db (update_where (by_id (p_ID p)) g (pools db))) []).
Proof.
  intros Hwf Hp Hg. unfold read_balance, bind, query. rewrite stmt_healthy. simpl.
  destruct (first_where _ _) as [r|] eqn:E.
  - apply first_where_some in E as [Hr%elem_of_update_where Hid%by_id_spec].
    destruct Hr as (r0 & Hr0 & ->). destruct (by_id (p_ID p) r0) eqn:E0.
    + apply by_id_spec in E0. by rewrite (pool_unique db r0 p).
    + by apply by_id_spec in Hid; rewrite Hid in E0.
  - exfalso. assert (g p ∈ update_where (by_id (p_ID p)) g (pools db)) as Hin.
    { apply elem_of_update_where. exists p. split; [done|].
      by rewrite (proj2 (by_id_spec _ _)). }
    apply (first_where_none _ _ E) in Hin. apply not_true_iff_false in Hin.
    by apply Hin, by_id_spec.
Qed.

(** The crediting core on a pool that is there, database healthy. *)
Lemma topupPoolInTx_row db p tid amt act rsn now :
  wf_db db -> p ∈ pools db -> in64 (p_CurrentBalance p + amt) ->
  pg_text_ok 36 tid = true -> pg_text_ok 32 rsn = true ->
  topupPoolInTx (p_ID p) tid amt act rsn now (mkStore db []) =
  if fits_ceiling (p_ID p) amt p
  then (Ok (p_CurrentBalance p + amt),
        mkStore (booked db p (p_CurrentBalance p + amt) now tid 0 0 PoolDrawDirectionCredit
                   amt rsn act) [])
  else (Err ErrPoolWouldExceedCeiling, mkStore db []).
Proof.
  intros Hwf Hp Hin Ht Hr. unfold topupPoolInTx, bind.
  rewrite (update_balance_row db p); auto.
  2: { intros q. rewrite fits_ceiling_spec. tauto. }
  2: { intros q. apply by_id_spec. }
  destruct (fits_ceiling (p_ID p) amt p) eqn:Ef; [|done]. rewrite (affected_some db p) by done.
  rewrite (read_balance_row db p) by done. rewrite insert_draw_healthy by done. done.
Qed.

Lemma relay_debit_text : pg_text_ok 32 PoolDrawReasonRelayDebit = true.
Proof. reflexivity. Qed.

(** A debit of a pool that is there, database healthy. *)
Lemma DebitPool_row db p tid amt tok log now :
  wf_db db -> p ∈ pools db -> pg_text_ok 36 tid = true ->
  DebitPool (p_ID p) tid amt tok log now (mkStore db []) =
  if amt <=? 0 then (Err ErrNotPositive, mkStore db [])
  else if p_CurrentBalance p <? amt then (Err ErrPoolExhausted, mkStore db [])
  else (Ok tt, mkStore (booked db p (p_CurrentBalance p - amt) now tid tok log
                          PoolDrawDirectionDebit amt PoolDrawReasonRelayDebit 0) []).
Proof.
  intros Hwf Hp Ht. unfold DebitPool. destruct (amt <=? 0) eqn:Ea; [done|].
  unfold transaction, DebitPoolInTx, bind. rewrite Ea. bool_to_prop.
  assert (forall q, by_id (p_ID p) q && (p_CurrentBalance q >=? amt) = true -> p_ID q = p_ID p)
    as Hid.
  { intros q Hq. bool_to_prop. by apply by_id_spec. }
  rewrite (update_balance_row db p); auto.
  2: { intros H. bool_to_prop. pose proof (wf_range _ Hwf p Hp). unfold64. lia. }
  rewrite Z.geb_leb, Z.ltb_antisym, (proj2 (by_id_spec (p_ID p) p)) by done. simpl.
  destruct (amt <=? p_CurrentBalance p) eqn:Eb; [|done].
  rewrite (affected_some db p); [|done|].
  2: { by rewrite Z.geb_leb, Eb, (proj2 (by_id_spec (p_ID p) p)). }
  rewrite insert_draw_healthy by done. done.
Qed.

(** The row a booking leaves for its pool, and the ledger after it. *)
Lemma booked_row db p bal now tid tok log dir amt rsn act :
  p ∈ pools db ->
  set_balance bal now p ∈ pools (booked db p bal now tid tok log dir amt rsn act).
Proof.
  intros Hp. apply elem_of_update_where. exists p. split; [done|].
  by rewrite (proj2 (by_id_spec _ _)).
Qed.
End Healthy.

(** ** Debits *)

Section DebitProperties.
Import GoStrings Calendar CreditPool.
Context {D : Drift}.

(** [DebitPool] on every branch, for a pool of a well-formed database that
    raises no fault: a non-positive amount is refused; an amount above the
    balance is [ErrPoolExhausted] and leaves the tables as they were; any other
    amount lowers the balance by exactly the amount and appends exactly the
    matching [relay_debit] draw, every other row untouched. *)
Theorem DebitPool_spec db p tid amt tok log now :
  wf_db db -> p ∈ pools db -> pg_text_ok 36 tid = true ->
  DebitPool (p_ID p) tid amt tok log now (mkStore db []) =
  if amt <=? 0 then (Err ErrNotPositive, mkStore db [])
  else if p_CurrentBalance p <? amt then (Err ErrPoolExhausted, mkStore db [])
  else (Ok tt, mkStore (booked db p (p_CurrentBalance p - amt) now tid tok log
                          PoolDrawDirectionDebit amt PoolDrawReasonRelayDebit 0) []).
Proof. apply DebitPool_row. Qed.

Lemma DebitPool_atomic pid tid amt tok log now : atomic (DebitPool pid tid amt tok log now).
Proof.
  unfold DebitPool. destruct (amt <=? 0); [apply throw_atomic|apply transaction_atomic].
Qed.

Lemma OverdraftDebitPool_atomic pid tid amt tok log now :
  atomic (OverdraftDebitPool pid tid amt tok log now).
Proof.
  unfold OverdraftDebitPool. destruct (amt <=? 0); [apply throw_atomic|apply transaction_atomic].
Qed.

Lemma TopupPool_atomic pid tid amt act rsn now : atomic (TopupPool pid tid amt act rsn now).
Proof.
  unfold TopupPool. destruct (amt <=? 0); [apply throw_atomic|apply transaction_atomic].
Qed.

Lemma CreditPoolAdjustment_atomic tid amt rsn now : atomic (CreditPoolAdjustment tid amt rsn now).
Proof.
  intros s e s'. unfold CreditPoolAdjustment, catch.
  destruct (amt <=? 0); [apply throw_atomic|].
  destruct (String.eqb tid ""); [apply throw_atomic|].
  pose proof (GetTenantCreditPool_readonly tid s) as Hro.
  destruct (GetTenantCreditPool tid s) as [[p|e1] s1]; simpl in Hro; rewrite <- Hro.
  - destruct (IsUnlimited p); [apply ret_atomic|]. apply transaction_atomic.
  - destruct e1; first [apply throw_atomic | apply ret_atomic].
Qed.

(** Under every schedule of database faults, and on every table, a pool
    operation that reports an error has changed nothing: the balance update and
    its ledger row commit together or not at all. *)
Theorem pool_ops_atomic pid tid amt tok log act rsn by_ mx per pct pool delta next now :
  atomic (DebitPool pid tid amt tok log now) /\
  atomic (OverdraftDebitPool pid tid amt tok log now) /\
  atomic (TopupPool pid tid amt act rsn now) /\
  atomic (CreditPoolAdjustment tid amt rsn now) /\
  atomic (CreateTenantCreditPool tid by_ mx per pct now) /\
  atomic (resetOnePoolInTx pool delta now next).
Proof.
  split_and!.
  - apply DebitPool_atomic.
  - apply OverdraftDebitPool_atomic.
  - apply TopupPool_atomic.
  - apply CreditPoolAdjustment_atomic.
  - apply stmt_atomic.
  - apply transaction_atomic.
Qed.

(** Whatever the database does, a debit never leaves a balance below zero
    that it moved, and a top-up or a hand-back never leaves a finite pool above
    its ceiling that it moved: each row after the call is an unchanged row, or
    the addressed pool's row moved by the amount within those bounds. *)
Theorem pool_balance_bounds pid tid amt tok log act rsn now s q :
  (q ∈ pools (tables (snd (DebitPool pid tid amt tok log now s))) ->
   exists p, p ∈ pools (tables s) /\
     (q = p \/ p_ID p = pid /\ q = set_balance (p_CurrentBalance p - amt) now p /\
               0 < amt /\ 0 <= p_CurrentBalance q)) /\
  (q ∈ pools (tables (snd (TopupPool pid tid amt act rsn now s))) ->
   exists p, p ∈ pools (tables s) /\
     (q = p \/ p_ID p = pid /\ q = set_balance (p_CurrentBalance p + amt) now p /\
               0 < amt /\ (IsUnlimited q = true \/ p_CurrentBalance q <= p_MaxBalance q))).
Proof.
  split.
  - unfold DebitPool. destruct (amt <=? 0) eqn:Ea; simpl; [by eauto|].
    destruct (transaction _ s) as [[u|e] s'] eqn:E; simpl; intros Hq.
    2: { apply transaction_atomic in E. rewrite E in Hq. eauto. }
    open_ok. apply DebitPoolInTx_ok in E as (Ha & d & p & _ & _ & _ & _ & _ & _ & _ & Ht2).
    rewrite Ht, Ht2 in Hq. apply elem_of_update_where in Hq as (r & Hr & ->).
    exists r. split; [done|]. destruct (by_id pid r && _) eqn:Ec; [right|by left].
    bool_to_prop. rewrite by_id_spec in *. simpl. split_and!; [done|done|lia|lia].
  - unfold TopupPool. destruct (amt <=? 0) eqn:Ea; simpl; [by eauto|].
    destruct (transaction _ s) as [[u|e] s'] eqn:E; simpl; intros Hq.
    2: { apply transaction_atomic in E. rewrite E in Hq. eauto. }
    open_ok. apply topupPoolInTx_ok in E as (d & _ & _ & _ & _ & _ & _ & Ht2 & _).
    rewrite Ht, Ht2 in Hq. apply elem_of_update_where in Hq as (r & Hr & ->).
    exists r. split; [done|]. destruct (fits_ceiling pid amt r) eqn:Ec; [right|by left].
    bool_to_prop. apply fits_ceiling_spec in Ec as [? ?].
    split_and!; [done|done|lia|done].
Qed.
End DebitProperties.


(** ** Round trip of a debit and its hand-back *)

Section RoundTrip.
Import GoStrings Calendar CreditPool.
Context {D : Drift}.
Implicit Types (db : pooldb) (p : TenantCreditPool).

Lemma update_where_twice (pid : Z) (f g : TenantCreditPool -> TenantCreditPool) rows :
  (forall q, p_ID (f q) = p_ID q) ->
  update_where (by_id pid) g (update_where (by_id pid) f rows) =
  update_where (by_id pid) (fun q => g (f q)) rows.
Proof.
  intros Hf. unfold update_where. rewrite <- list_fmap_compose. apply list_fmap_ext.
  intros i q _. unfold compose. destruct (by_id pid q) eqn:E; [|by rewrite E].
  apply by_id_spec in E. by rewrite (proj2 (by_id_spec _ _)) by (by rewrite Hf).
Qed.

Lemma DebitPool_row_wf db p now tid tok log amt :
  wf_db db -> p ∈ pools db -> pg_text_ok 36 tid = true -> 0 < amt <= p_CurrentBalance p ->
  wf_db (booked db p (p_CurrentBalance p - amt) now tid tok log
           PoolDrawDirectionDebit amt PoolDrawReasonRelayDebit 0).
Proof.
  intros Hwf Hp Ht Hamt.
  pose proof (DebitPool_preserves (p_ID p) tid amt tok log now (mkStore db []) Hwf) as H.
  rewrite (DebitPool_row db p) in H by done.
  rewrite (proj2 (Z.leb_gt _ _)), (proj2 (Z.ltb_ge _ _)) in H by lia. done.
Qed.

Lemma GetTenantCreditPool_row db p :
  wf_db db -> p ∈ pools db ->
  GetTenantCreditPool (p_TenantID p) (mkStore db []) = (Ok p, mkStore db []).
Proof.
  intros Hwf Hp. unfold GetTenantCreditPool, bind, query. rewrite stmt_healthy.
  destruct (first_where _ _) as [r|] eqn:E.
  - apply first_where_some in E as [Hr Hid%String.eqb_eq].
    assert (r = p) as -> by (by apply (NoDup_fmap_inj p_TenantID (pools db)); [apply Hwf|..]).
    done.
  - apply (first_where_none _ _ E) in Hp. unfold by_tenant in Hp.
    by rewrite String.eqb_refl in Hp.
Qed.

(** The reason a hand-back is recorded under. *)
Definition handback_reason (reason : string) : string :=
  truncate_reason (if String.eqb reason "" then PoolDrawReasonAdjustment
                   else PoolDrawReasonAdjustment +:+ ":" +:+ reason).

Lemma CreditPoolAdjustment_row db p amt reason now :
  wf_db db -> p ∈ pools db -> p_TenantID p <> "" -> 0 < amt ->
  IsUnlimited p = false -> p_CurrentBalance p + amt <= p_MaxBalance p ->
  pg_text_ok 36 (p_TenantID p) = true -> pg_text_ok 32 (handback_reason reason) = true ->
  CreditPoolAdjustment (p_TenantID p) amt reason now (mkStore db []) =
  (Ok tt, mkStore (booked db p (p_CurrentBalance p + amt) now (p_TenantID p) 0 0
            PoolDrawDirectionCredit amt (handback_reason reason) 0) []).
Proof.
  intros Hwf Hp Hne Hamt Hlim Hfit Ht Hr. unfold CreditPoolAdjustment, catch.
  rewrite (proj2 (Z.leb_gt _ _)) by lia. rewrite (proj2 (String.eqb_neq _ _)) by done.
  rewrite GetTenantCreditPool_row by done. rewrite Hlim.
  unfold transaction, bind. fold (handback_reason reason).
  rewrite (topupPoolInTx_row db p); auto.
  - replace (fits_ceiling _ _ _) with true; [done|]. symmetry. apply fits_ceiling_spec. auto.
  - pose proof (wf_range _ Hwf p Hp). unfold64. lia.
Qed.

(** A debit and its hand-back cancel: on a healthy, well-formed database,
    debiting a finite pool that is within its ceiling and then crediting the
    same amount back with [CreditPoolAdjustment] succeeds and restores the
    balance, leaves every other row alone, and records exactly the two draws,
    which add up to nothing. *)
Theorem debit_handback db p amt tok log reason t1 t2 :
  wf_db db -> p ∈ pools db -> p_TenantID p <> "" ->
  0 < amt <= p_CurrentBalance p -> p_CurrentBalance p <= p_MaxBalance p ->
  IsUnlimited p = false ->
  pg_text_ok 36 (p_TenantID p) = true -> pg_text_ok 32 (handback_reason reason) = true ->
  exists s1 s2 d1 d2,
    DebitPool (p_ID p) (p_TenantID p) amt tok log t1 (mkStore db []) = (Ok tt, s1) /\
    CreditPoolAdjustment (p_TenantID p) amt reason t2 s1 = (Ok tt, s2) /\
    pools (tables s2) =
      update_where (by_id (p_ID p)) (set_balance (p_CurrentBalance p) t2) (pools db) /\
    draws (tables s2) = draws db ++ [d1; d2] /\ signed d1 + signed d2 = 0.
Proof.
  intros Hwf Hp Hne Hamt Hmax Hlim Ht Hr.
  rewrite DebitPool_row by done.
  rewrite (proj2 (Z.leb_gt _ _)), (proj2 (Z.ltb_ge _ _)) by lia.
  pose proof (DebitPool_row_wf db p t1 (p_TenantID p) tok log amt Hwf Hp Ht Hamt) as Hwf1.
  pose proof (booked_row db p (p_CurrentBalance p - amt) t1 (p_TenantID p) tok log
    PoolDrawDirectionDebit amt PoolDrawReasonRelayDebit 0 Hp) as Hp1.
  set (db1 := booked _ _ _ _ _ _ _ _ _ _ _) in *.
  set (p1 := set_balance (p_CurrentBalance p - amt) t1 p) in *.
  pose proof (CreditPoolAdjustment_row db1 p1 amt reason t2 Hwf1 Hp1 Hne) as Hc.
  eexists (mkStore db1 []), _, _, _. split; [done|]. split.
  { apply Hc; [lia|done|simpl; lia|done|done]. }
  simpl. split_and!.
  - rewrite update_where_twice by done. unfold update_where. apply list_fmap_ext.
    intros i q _. destruct (by_id (p_ID p) q); [|done]. unfold set_balance; simpl.
    f_equal. lia.
  - by rewrite <- app_assoc.
  - unfold signed, PoolDrawDirectionDebit, PoolDrawDirectionCredit. simpl. lia.
Qed.
End RoundTrip.

(** ** The reset schedule *)

Section Schedule.
Import GoStrings Calendar CreditPool.

(** The periods that are scheduled, and the days a period resets on. *)
Definition scheduled (period : string) : bool :=
  String.eqb period PoolResetDaily || String.eqb period PoolResetWeekly ||
  String.eqb period PoolResetMonthly.

Definition boundary (period : string) (z : Z) : bool :=
  if String.eqb period PoolResetDaily then true
  else if String.eqb period PoolResetWeekly then Weekday z =? 1
  else if String.eqb period PoolResetMonthly then mday z =? 1
  else false.

(** The days until the next Monday, as the code computes them. *)
Lemma days_until_monday z :
  let k := Z.rem (8 - Weekday z) 7 in
  let k := if k =? 0 then 7 else k in
  1 <= k <= 7 /\ Weekday (z + k) = 1 /\ forall x, z < x -> x < z + k -> Weekday x <> 1.
Proof.
  unfold Weekday. pose proof (Z.mod_pos_bound (z + 1) 7 ltac:(lia)) as Hw.
  pose proof (Z.div_mod (z + 1) 7 ltac:(lia)) as Hz. set (w := (z + 1) mod 7) in *.
  set (c := (z + 1) / 7) in *. clearbody w c.
  assert (w = 0 \/ w = 1 \/ w = 2 \/ w = 3 \/ w = 4 \/ w = 5 \/ w = 6) as Hc by lia.
  destruct Hc as [-> | [-> | [-> | [-> | [-> | [-> | ->]]]]]];
    (match goal with |- context [Z.rem ?a ?b] =>
       let r := eval vm_compute in (Z.rem a b) in change (Z.rem a b) with r end);
    cbv zeta; cbn [Z.eqb Pos.eqb]; (split; [lia|split; [|intros x Hx1 Hx2]]); Z.to_euclidean_division_equations; lia.
Qed.

Lemma nextResetAt_boundary period t u :
  nextResetAt period t = Some u ->
  exists z, u = midnight z /\ boundary period z = true /\ t < u /\
    forall z', boundary period z' = true -> t < midnight z' -> z <= z'.
Proof.
  unfold nextResetAt, boundary. intros H.
  destruct (String.eqb period PoolResetDaily).
  { injection H as <-. rewrite Date_of_day. exists (day_of t + 1).
    rewrite midnight_after. split_and!; [done|done|lia|].
    intros z' _ Hz'%midnight_after. lia. }
  destruct (String.eqb period PoolResetWeekly).
  { injection H as <-. rewrite Date_of_day.
    pose proof (days_until_monday (day_of t)) as Hm. cbv zeta in Hm.
    set (k := if _ =? 0 then 7 else _) in *. clearbody k. destruct Hm as (Hk & Hm & Hleast).
    exists (day_of t + k). rewrite midnight_after.
    split_and!; [done|by apply Z.eqb_eq|lia|].
    intros z' Hz'%Z.eqb_eq Ht%midnight_after.
    apply Z.nlt_ge. intros Hlt. by apply (Hleast z'). }
  destruct (String.eqb period PoolResetMonthly); [|done].
  injection H as <-. destruct (next_month_first (day_of t)) as [Hd Hr].
  pose proof (next_month_least (day_of t)) as Hleast.
  unfold next_month in *. set (z := Date _ _ _) in *. clearbody z. exists z. rewrite midnight_after.
  split_and!; [done|by apply Z.eqb_eq|apply Hr|].
  intros z' Hz'%Z.eqb_eq Ht%midnight_after.
  apply Z.nlt_ge. intros Hlt. by apply (Hleast z').
Qed.

(** [nextResetAt] is the schedule its comment describes, for every instant:
    the result is a UTC midnight of the period (any day, a Monday, the first of
    a month), strictly after the given instant, and the earliest such; there is
    none exactly for the periods that are not scheduled. *)
Theorem nextResetAt_spec period t :
  match nextResetAt period t with
  | None => scheduled period = false
  | Some u => exists z, u = midnight z /\ boundary period z = true /\ t < u /\
      forall z', boundary period z' = true -> t < midnight z' -> z <= z'
  end.
Proof.
  destruct (nextResetAt period t) as [u|] eqn:E; [by apply nextResetAt_boundary|].
  unfold nextResetAt in E. unfold scheduled.
  destruct (String.eqb period PoolResetDaily); [done|].
  destruct (String.eqb period PoolResetWeekly); [done|].
  by destruct (String.eqb period PoolResetMonthly).
Qed.

(** [ShouldAlert] is exact for every ceiling that leaves room for the
    percentage: for a finite pool with [0 < max_balance <= MaxInt64 / 100] and a
    percentage between 0 and 100 it fires iff the balance is below the floor of
    [max_balance * pct / 100], with no overflow; and it never fires for an
    unlimited or zero-ceiling pool. *)
Theorem ShouldAlert_exact p :
  0 <= p_AlertThresholdPct p <= 100 -> p_MaxBalance p <= i64_max / 100 ->
  ShouldAlert p = true <->
  IsUnlimited p = false /\ 0 < p_MaxBalance p /\
  100 * (p_CurrentBalance p + 1) <= p_MaxBalance p * p_AlertThresholdPct p.
Proof.
  intros Hpct Hmax. unfold ShouldAlert. destruct (IsUnlimited p) eqn:Eu; simpl.
  { split; [done|by intros [? _]]. }
  destruct (p_MaxBalance p <=? 0) eqn:Em; bool_to_prop.
  { split; [done|lia]. }
  rewrite Z.ltb_lt. unfold i64_mul. rewrite wrap64_id.
  2: { unfold64. change ((9223372036854775808 - 1) / 100) with 92233720368547758 in Hmax. nia. }
  rewrite Z.quot_div_nonneg by nia.
  pose proof (Z.div_mod (p_MaxBalance p * p_AlertThresholdPct p) 100 ltac:(lia)).
  pose proof (Z.mod_pos_bound (p_MaxBalance p * p_AlertThresholdPct p) 100 ltac:(lia)).
  lia.
Qed.
End Schedule.

(** ** The scheduled reset pass *)

Section ResetPass.
Import GoStrings Calendar CreditPool.
Context {D : Drift}.
Implicit Types (db : pooldb) (p : TenantCreditPool).

(** The row a reset at [now] writes, and its draw. *)
Definition reset_row now p : TenantCreditPool :=
  set_reset (p_MaxBalance p) now (nextResetAt (p_ResetPeriod p) now) p.

Definition reset_draw now (i : Z) p : TenantCreditPoolDraw :=
  mkDraw i (p_ID p) (p_TenantID p) 0 0 PoolDrawDirectionCredit
    (p_MaxBalance p - p_CurrentBalance p) PoolDrawReasonReset 0 now.

Lemma reset_cas_self db p q :
  wf_db db -> p ∈ pools db -> q ∈ pools db -> is_Some (p_NextResetAt p) ->
  reset_cas p q = by_id (p_ID p) q.
Proof.
  intros Hwf Hp Hq [u Hu]. unfold reset_cas. destruct (by_id (p_ID p) q) eqn:E; [|done].
  apply by_id_spec in E. assert (q = p) as -> by by apply (pool_unique db).
  rewrite Hu. by rewrite Z.eqb_refl.
Qed.

(** The CAS of a listed row [p] against a row with the same schedule. *)
Lemma resetOne_row db p q delta now :
  wf_db db -> q ∈ pools db -> p_ID q = p_ID p -> p_NextResetAt q = p_NextResetAt p ->
  is_Some (p_NextResetAt p) -> pg_text_ok 36 (p_TenantID p) = true ->
  resetOnePoolInTx p delta now (nextResetAt (p_ResetPeriod p) now) (mkStore db []) =
  (Ok true, mkStore (moved db (by_id (p_ID p))
     (set_reset (p_MaxBalance p) now (nextResetAt (p_ResetPeriod p) now))
     (mkDraw (seq_draw db) (p_ID p) (p_TenantID p) 0 0 PoolDrawDirectionCredit delta
        PoolDrawReasonReset 0 now)) []).
Proof.
  intros Hwf Hq Hid Hnext [u Hu] Ht. unfold resetOnePoolInTx, transaction, bind.
  rewrite stmt_healthy.
  assert (reset_cas p q = true) as Hc.
  { unfold reset_cas. rewrite Hnext, Hu, (proj2 (by_id_spec _ _) Hid), Z.eqb_refl. done. }
  rewrite (affected_some db q) by done. rewrite insert_draw_healthy by done.
  unfold moved. simpl. do 3 f_equal. rewrite <- Hid.
  apply (update_where_row db q); auto. intros r Hr. rewrite Hid. by apply reset_cas_id.
Qed.

(** The tables after resetting the rows of [due] in order. *)
Definition reset_all now (due : list TenantCreditPool) db : pooldb :=
  foldl (fun db p => moved db (by_id (p_ID p)) (reset_row now) (reset_draw now (seq_draw db) p))
    db due.

Lemma reset_all_pools now due db :
  wf_db db -> NoDup (p_ID <$> due) -> (forall p, p ∈ due -> p ∈ pools db) ->
  pools (reset_all now due db) =
  (fun p => if existsb (by_id (p_ID p)) due then reset_row now p else p) <$> pools db.
Proof.
  intros _ Hnd _. revert db Hnd. induction due as [|p due IH]; intros db Hnd; simpl.
  { by rewrite list_fmap_id. }
  apply NoDup_cons in Hnd as [Hni Hnd]. rewrite (IH _ Hnd). simpl. unfold update_where.
  rewrite <- list_fmap_compose. apply list_fmap_ext. intros i q _. unfold compose.
  replace (by_id (p_ID q) p) with (by_id (p_ID p) q) by apply Z.eqb_sym.
  destruct (by_id (p_ID p) q) eqn:E; simpl; [|done].
  replace (existsb _ due) with false; [done|]. symmetry. apply not_true_iff_false.
  intros (r & Hr & Hid)%existsb_exists. apply by_id_spec in Hid, E. apply Hni.
  rewrite <- E, <- Hid. by apply list_elem_of_fmap_2, list_elem_of_In.
Qed.

Lemma reset_all_draws now due db :
  (fun d => (d_PoolID d, signed d)) <$> draws (reset_all now due db) =
  ((fun d => (d_PoolID d, signed d)) <$> draws db) ++
  ((fun p => (p_ID p, p_MaxBalance p - p_CurrentBalance p)) <$> due).
Proof.
  revert db. induction due as [|p due IH]; intros db; simpl; [by rewrite app_nil_r|].
  rewrite IH. simpl. rewrite fmap_app, <- app_assoc. simpl.
  replace (signed (reset_draw now (seq_draw db) p)) with (p_MaxBalance p - p_CurrentBalance p);
    [done|].
  unfold signed, reset_draw, PoolDrawDirectionCredit. cbn [d_Direction d_Amount]. lia.
Qed.

Lemma reset_loop_row due now acc db :
  wf_db db -> NoDup (p_ID <$> due) -> (forall p, p ∈ due -> p ∈ pools db) ->
  (forall p, p ∈ due -> is_Some (p_NextResetAt p) /\ pg_text_ok 36 (p_TenantID p) = true /\
     in64 (p_MaxBalance p - p_CurrentBalance p)) ->
  reset_loop due now true acc (mkStore db []) =
  (Ok (acc ++ ((fun p => reset_result p (p_MaxBalance p - p_CurrentBalance p) PoolResetActionReset
                  (nextResetAt (p_ResetPeriod p) now)) <$> due), None),
   mkStore (reset_all now due db) []).
Proof.
  revert acc db. induction due as [|p due IH]; intros acc db Hwf Hnd Hin Hdue; simpl.
  { by rewrite app_nil_r. }
  apply NoDup_cons in Hnd as [Hni Hnd]. unfold catch.
  destruct (Hdue p) as (Hn & Ht & Hgap); [set_solver|].
  assert (Hp : p ∈ pools db) by (apply Hin; set_solver).
  pose proof (resetOne_row db p p (i64_sub (p_MaxBalance p) (p_CurrentBalance p)) now
    Hwf Hp eq_refl eq_refl Hn Ht) as Hrun.
  rewrite Hrun. apply (resetOne_fresh p) in Hrun as [Hwf1 Hkeep]; [|done..].
  rewrite IH; [|done|done|intros q Hq; apply Hkeep; [apply Hin; by right|]
                |intros q Hq; apply Hdue; by right].
  - unfold i64_sub. rewrite wrap64_id by done. rewrite <- app_assoc.
    rewrite (moved_row db p _ (reset_row now)) by done. done.
  - intros E. apply Hni. rewrite <- E. by apply list_elem_of_fmap_2.
Qed.

Lemma is_due_some now p : is_due now p = true -> is_Some (p_NextResetAt p).
Proof. unfold is_due. destruct (p_NextResetAt p); [by eauto|done]. Qed.

(** A reset row is not due again at the same instant. *)
Lemma reset_row_not_due now p : is_due now (reset_row now p) = false.
Proof.
  unfold is_due, reset_row. simpl.
  destruct (nextResetAt (p_ResetPeriod p) now) as [u|] eqn:E; [|done].
  apply nextResetAt_boundary in E as (z & _ & _ & Hlt & _).
  by rewrite (proj2 (Z.leb_gt _ _)).
Qed.

Lemma existsb_due db now p :
  wf_db db -> p ∈ pools db ->
  existsb (by_id (p_ID p)) (List.filter (is_due now) (pools db)) = is_due now p.
Proof.
  intros Hwf Hp. destruct (is_due now p) eqn:E.
  - apply existsb_exists. exists p. rewrite filter_In, <- list_elem_of_In.
    split; [done|]. by apply by_id_spec.
  - apply not_true_iff_false. intros (q & Hq & Hid%by_id_spec)%existsb_exists.
    apply filter_In in Hq as [Hq%list_elem_of_In Hdue].
    assert (q = p) as -> by by apply (pool_unique db). congruence.
Qed.

(** An enforced reset pass on a healthy database, undisturbed by other
    writers, does what it announces: it succeeds, refills exactly the due pools
    to their ceiling and schedules their next reset, touches no other pool,
    reports one result per due pool, appends one draw per due pool that
    accounts for its refill, keeps the ledger invariant, and leaves no pool due
    at that instant, so running it again changes nothing. *)
Theorem ResetDuePools_enforce now db :
  wf_db db -> gaps_fit now db ->
  (forall p, p ∈ pools db -> pg_text_ok 36 (p_TenantID p) = true) ->
  let due := List.filter (is_due now) (pools db) in
  exists db' rs,
    ResetDuePools now true (mkStore db []) = (Ok (rs, None), mkStore db' []) /\
    pools db' = update_where (is_due now) (reset_row now) (pools db) /\
    (r_PoolID <$> rs) = (p_ID <$> due) /\
    (fun d => (d_PoolID d, signed d)) <$> draws db' =
      ((fun d => (d_PoolID d, signed d)) <$> draws db) ++
      ((fun p => (p_ID p, p_MaxBalance p - p_CurrentBalance p)) <$> due) /\
    wf_db db' /\
    ResetDuePools now true (mkStore db' []) = (Ok ([], None), mkStore db' []).
Proof.
  intros Hwf Hgap Ht due.
  assert (Hdue : forall p, p ∈ due -> p ∈ pools db /\ is_due now p = true).
  { intros p Hp. unfold due in Hp. by rewrite list_elem_of_In, filter_In, <- list_elem_of_In in Hp. }
  assert (Hpools : pools (reset_all now due db) =
                   update_where (is_due now) (reset_row now) (pools db)).
  { rewrite reset_all_pools; [|done|by apply NoDup_fmap_filter, Hwf|naive_solver].
    apply list_fmap_ext. intros i p Hp%list_elem_of_lookup_2. unfold due.
    by rewrite existsb_due. }
  assert (Hrun : ResetDuePools now true (mkStore db []) =
     (Ok ((fun p => reset_result p (p_MaxBalance p - p_CurrentBalance p) PoolResetActionReset
            (nextResetAt (p_ResetPeriod p) now)) <$> due, None),
      mkStore (reset_all now due db) [])).
  { unfold ResetDuePools, catch, query. rewrite stmt_healthy.
    apply (reset_loop_row due now []); [done|by apply NoDup_fmap_filter, Hwf|naive_solver|].
    intros p [Hp Hd]%Hdue. split_and!; [by eapply is_due_some|auto|by apply Hgap]. }
  exists (reset_all now due db). eexists. split; [exact Hrun|]. split_and!.
  - done.
  - by rewrite <- list_fmap_compose.
  - apply reset_all_draws.
  - pose proof (ResetDuePools_wf now true (mkStore db []) Hgap Hwf) as H. by rewrite Hrun in H.
  - unfold ResetDuePools, catch, query. rewrite stmt_healthy. rewrite Hpools.
    replace (List.filter _ _) with (@nil TenantCreditPool); [done|].
    symmetry. apply nil_length_inv. fold (affected (is_due now)
      (update_where (is_due now) (reset_row now) (pools db))).
    destruct (decide (affected (is_due now) (update_where (is_due now) (reset_row now) (pools db))
      = 0%nat)) as [|Hn]; [done|].
    apply affected_neq_0 in Hn as (q & (p & Hp & ->)%elem_of_update_where & Hq).
    destruct (is_due now p) eqn:E; [by rewrite reset_row_not_due in Hq|congruence].
Qed.

End ResetPass.

Section StaleReset.
Import GoStrings Calendar CreditPool.
Implicit Types (db : pooldb) (p : TenantCreditPool).

(** A debit that commits between the listing of a due pool and its reset is
    erased without trace: the reset's guard compares only the schedule, its
    draw records the gap as listed, and the pool ends at its ceiling although
    its draws add up to [amt] less.  The law "seed - sum of draws = balance"
    that the comments of the reset promise does not survive this interleaving. *)
Theorem stale_reset_breaks_ledger db p amt tok log t now :
  wf_db (D := no_drift) db -> p ∈ pools db -> is_due now p = true ->
  pg_text_ok 36 (p_TenantID p) = true ->
  in64 (p_MaxBalance p - p_CurrentBalance p) -> 0 < amt <= p_CurrentBalance p ->
  exists s1 s2 q,
    DebitPool (p_ID p) (p_TenantID p) amt tok log t (mkStore db []) = (Ok tt, s1) /\
    resetOnePoolInTx p (i64_sub (p_MaxBalance p) (p_CurrentBalance p)) now
      (nextResetAt (p_ResetPeriod p) now) s1 = (Ok true, s2) /\
    q ∈ pools (tables s2) /\ p_ID q = p_ID p /\ p_CurrentBalance q = p_MaxBalance p /\
    ledger (p_ID p) (draws (tables s2)) = p_MaxBalance p - amt.
Proof.
  intros Hwf Hp Hdue Ht Hgap Hamt. rewrite (DebitPool_row (D := no_drift)) by done.
  rewrite (proj2 (Z.leb_gt _ _)), (proj2 (Z.ltb_ge _ _)) by lia.
  pose proof (DebitPool_row_wf db p t (p_TenantID p) tok log amt Hwf Hp Ht Hamt) as Hwf1.
  pose proof (booked_row db p (p_CurrentBalance p - amt) t (p_TenantID p) tok log
    PoolDrawDirectionDebit amt PoolDrawReasonRelayDebit 0 Hp) as Hp1.
  set (db1 := booked _ _ _ _ _ _ _ _ _ _ _) in *.
  set (p1 := set_balance (p_CurrentBalance p - amt) t p) in *.
  eexists (mkStore db1 []), _, (set_reset (p_MaxBalance p) now _ p1).
  split; [done|]. rewrite (resetOne_row (D := no_drift) db1 p p1);
    [|done|done|done|done|by eapply is_due_some|done].
  split; [done|]. split_and!.
  - apply elem_of_update_where. exists p1. split; [done|].
    by rewrite (proj2 (by_id_spec _ _)).
  - done.
  - done.
  - simpl. rewrite !ledger_app. simpl. rewrite Z.eqb_refl.
    pose proof (wf_conserved _ Hwf p Hp) as Hled. unfold drift, no_drift in Hled.
    unfold signed, PoolDrawDirectionDebit, PoolDrawDirectionCredit, i64_sub. simpl.
    rewrite wrap64_id by done. lia.
Qed.
End StaleReset.

(** ** Witnesses *)

Section PoolWitnesses.
Import GoStrings Calendar CreditPool.

Definition demo_t0 : Z := time_of_unix 1700000000.
Definition demo_later : Z := time_of_unix 1702000000.

(** A tenant's pool, created with ceiling 100 and topped up by 40. *)
Definition demo_db : pooldb :=
  let s1 := snd (CreateTenantCreditPool "acme" 7 100 "monthly" 80 demo_t0 (mkStore empty_db [])) in
  tables (snd (TopupPool 1 "acme" 40 7 "" demo_t0 s1)).

Definition demo_pool : TenantCreditPool :=
  mkPool 1 "acme" None 7 40 100 "monthly" demo_t0 (Some (time_of_unix 1701388800)) 80 None
    demo_t0 demo_t0.

Lemma demo_wf : wf_db (D := no_drift) demo_db.
Proof.
  apply TopupPool_preserves, CreateTenantCreditPool_preserves; [|apply empty_db_wf].
  unfold64. lia.
Qed.

Lemma demo_pools : pools demo_db = [demo_pool].
Proof. vm_compute. reflexivity. Qed.

Lemma demo_in : demo_pool ∈ pools demo_db.
Proof. rewrite demo_pools. by left. Qed.

Lemma DebitPool_spec_witness :
  DebitPool 1 "acme" 15 3 9 demo_later (mkStore demo_db []) =
  (Ok tt, mkStore (booked demo_db demo_pool 25 demo_later "acme" 3 9 PoolDrawDirectionDebit 15
                     PoolDrawReasonRelayDebit 0) []).
Proof. apply (DebitPool_spec demo_db demo_pool "acme" 15 3 9 demo_later demo_wf demo_in eq_refl). Defined.

Lemma pool_balance_bounds_witness :
  exists p, p ∈ pools demo_db /\
    (set_balance 25 demo_later demo_pool = p \/ p_ID p = 1 /\
     set_balance 25 demo_later demo_pool = set_balance (p_CurrentBalance p - 15) demo_later p /\
     0 < 15 /\ 0 <= p_CurrentBalance (set_balance 25 demo_later demo_pool)).
Proof.
  apply (proj1 (pool_balance_bounds 1 "acme" 15 3 9 0 "" demo_later (mkStore demo_db [])
    (set_balance 25 demo_later demo_pool))).
  vm_compute. left.
Defined.

Lemma debit_handback_witness :
  exists s1 s2 d1 d2,
    DebitPool 1 "acme" 15 3 9 demo_later (mkStore demo_db []) = (Ok tt, s1) /\
    CreditPoolAdjustment "acme" 15 "task_refund" demo_later s1 = (Ok tt, s2) /\
    pools (tables s2) =
      update_where (by_id 1) (set_balance 40 demo_later) (pools demo_db) /\
    draws (tables s2) = draws demo_db ++ [d1; d2] /\ signed d1 + signed d2 = 0.
Proof.
  apply (debit_handback demo_db demo_pool 15 3 9 "task_refund" demo_later demo_later
    demo_wf demo_in); [discriminate|simpl; lia|simpl; lia|reflexivity..].
Defined.

Lemma ShouldAlert_exact_witness :
  ShouldAlert demo_pool = true <->
  IsUnlimited demo_pool = false /\ 0 < 100 /\ 100 * (40 + 1) <= 100 * 80.
Proof. apply (ShouldAlert_exact demo_pool); [simpl; lia|vm_compute; discriminate]. Defined.

Lemma ResetDuePools_enforce_witness :
  exists db' rs,
    ResetDuePools demo_later true (mkStore demo_db []) = (Ok (rs, None), mkStore db' []) /\
    pools db' = update_where (is_due demo_later) (reset_row demo_later) (pools demo_db) /\
    (r_PoolID <$> rs) = [1].
Proof.
  destruct (ResetDuePools_enforce demo_later demo_db demo_wf) as (db' & rs & H1 & H2 & H3 & _).
  - intros p Hp _. rewrite demo_pools in Hp. apply list_elem_of_singleton in Hp as ->.
    unfold64. simpl. lia.
  - intros p Hp. rewrite demo_pools in Hp. apply list_elem_of_singleton in Hp as ->. reflexivity.
  - exists db', rs. rewrite H3, demo_pools. split_and!; [done|by rewrite H2, demo_pools|].
    vm_compute. reflexivity.
Defined.

Lemma stale_reset_breaks_ledger_witness :
  exists s1 s2 q,
    DebitPool 1 "acme" 15 3 9 demo_later (mkStore demo_db []) = (Ok tt, s1) /\
    resetOnePoolInTx demo_pool 60 demo_later (nextResetAt "monthly" demo_later) s1 = (Ok true, s2) /\
    q ∈ pools (tables s2) /\ p_ID q = 1 /\ p_CurrentBalance q = 100 /\
    ledger 1 (draws (tables s2)) = 85.
Proof.
  apply (stale_reset_breaks_ledger demo_db demo_pool 15 3 9 demo_later demo_later
    demo_wf demo_in); [vm_compute; reflexivity|reflexivity|unfold64; simpl; lia|simpl; lia].
Defined.
End PoolWitnesses.
