(* ===== verification/PoolFunding.v ===== *)
(** * Idempotent funding and stranded top-ups

    Model of internal/adapter/repo/tenant_credit_pool_fund_event.go (the fund
    events and the idempotent credit) and of
    internal/app/credit_pool_reconcile.go (the stranded-debit state machine and
    its sweep).  A fund event's [Source] is the state of that machine; the
    unique key of the table is [(tenant_id, event_id)]. *)

From S2P Require Import Prelude GoStrings Calendar CreditPool.

Module PoolFunding.
Import GoStrings CreditPool.

(** ** Fund events *)

Definition PoolFundEventIDMaxLen : nat := 128.

(** [None] when the key is acceptable. *)
Definition ValidateFundEventID (eventID : string) : option pool_err :=
  if String.eqb eventID "" then Some ErrInvalidEventID
  else if (PoolFundEventIDMaxLen <? RuneCountInString eventID)%nat then Some ErrInvalidEventID
  else if has_nul eventID then Some ErrInvalidEventID
  else if negb (ValidString eventID) then Some ErrInvalidEventID
  else None.

Definition by_event (tenantID eventID : string) (e : CreditPoolFundEvent) : bool :=
  String.eqb (e_TenantID e) tenantID && String.eqb (e_EventID e) eventID.

(** [INSERT INTO credit_pool_fund_events]: the unique index on (tenant_id,
    event_id) and the column widths. *)
Definition insert_event (eventID tenantID : string) (poolID amount newBalance : Z)
    (source : string) (now : Z) : P CreditPoolFundEvent :=
  stmt (fun db =>
    if negb (pg_text_ok 128 eventID && pg_text_ok 36 tenantID && pg_text_ok 64 source)
    then Err ErrDB
    else if existsb (by_event tenantID eventID) (fundEvents db) then Err ErrUniqueViolation
    else
      let e := mkEvent (seq_event db) eventID tenantID poolID amount newBalance source now in
      Ok (e, mkDb (pools db) (draws db) (fundEvents db ++ [e]) (seq_pool db) (seq_draw db)
               (seq_event db + 1))).

Definition find_event (tenantID eventID : string) : P (option CreditPoolFundEvent) :=
  query (fun db => first_where (by_event tenantID eventID) (fundEvents db)).

Definition LookupFundEvent (tenantID eventID : string) : P (option CreditPoolFundEvent) :=
  if String.eqb tenantID "" || String.eqb eventID "" then ret None
  else find_event tenantID eventID.

Definition RecordTerminalFundEvent (poolID : Z) (tenantID eventID : string) (amount : Z)
    (source : string) (now : Z) : P unit :=
  match ValidateFundEventID eventID with
  | Some e => throw e
  | None =>
      try! r := insert_event eventID tenantID poolID amount 0 source now in
      match r with
      | Ok _ => ret tt
      | Err ErrUniqueViolation => ret tt
      | Err e => throw e
      end
  end.

(** The two ways a fund call carries an event: written now, or found
    ([ErrFundEventExists] next to the row). *)
Inductive funding :=
| Funded (e : CreditPoolFundEvent)
| Replayed (e : CreditPoolFundEvent).

Definition fund_tx (poolID : Z) (tenantID : string) (amount : Z) (eventID source : string)
    (actor : Z) (drawReason : string) (now : Z) : P CreditPoolFundEvent :=
  transaction (
    let! newBalance := topupPoolInTx poolID tenantID amount actor drawReason now in
    try! ins := insert_event eventID tenantID poolID amount newBalance source now in
    match ins with
    | Ok e => ret e
    | Err ErrUniqueViolation => throw ErrFundEventExists
    | Err e => throw e
    end).

(** The part of [FundPoolIdempotentWithReason] after the fast path. *)
Definition fund_fresh (poolID : Z) (tenantID : string) (amount : Z)
    (eventID source : string) (actor : Z) (drawReason : string) (now : Z) : P funding :=
  let drawReason := if String.eqb drawReason "" then PoolDrawReasonTopup else drawReason in
  let drawReason := truncate_reason drawReason in
  try! funded := fund_tx poolID tenantID amount eventID source actor drawReason now in
  match funded with
  | Ok e => ret (Funded e)
  | Err ErrFundEventExists =>
      let! race := find_event tenantID eventID in
      match race with
      | Some e => ret (Replayed e)
      | None => throw ErrRecordNotFound
      end
  | Err e => throw e
  end.

Definition FundPoolIdempotentWithReason (poolID : Z) (tenantID : string) (amount : Z)
    (eventID source : string) (actor : Z) (drawReason : string) (now : Z) : P funding :=
  if amount <=? 0 then throw ErrNotPositive
  else match ValidateFundEventID eventID with
  | Some e => throw e
  | None =>
      try! existing := find_event tenantID eventID in
      match existing with
      | Ok (Some e) => ret (Replayed e)
      | _ => fund_fresh poolID tenantID amount eventID source actor drawReason now
      end
  end.

Definition FundPoolIdempotent (poolID : Z) (tenantID : string) (amount : Z)
    (eventID source : string) (actor now : Z) : P funding :=
  FundPoolIdempotentWithReason poolID tenantID amount eventID source actor
    PoolDrawReasonTopup now.

(** ** Stranded top-ups *)

Definition FundEventSourceStranded : string := "topup_stranded".
Definition FundEventSourceReconciled : string := "topup_reconciled".
Definition FundEventSourceManuallyClosed : string := "topup_manually_closed".

Definition creditPoolReconcileBatchSize : nat := 100.

Definition has_source (src : string) (e : CreditPoolFundEvent) : bool :=
  String.eqb (e_Source e) src.

Definition set_source (src : string) (e : CreditPoolFundEvent) : CreditPoolFundEvent :=
  mkEvent (e_ID e) (e_EventID e) (e_TenantID e) (e_PoolID e) (e_Amount e) (e_NewBalance e)
    src (e_CreatedAt e).

Definition set_new_balance (b : Z) (e : CreditPoolFundEvent) : CreditPoolFundEvent :=
  mkEvent (e_ID e) (e_EventID e) (e_TenantID e) (e_PoolID e) (e_Amount e) b
    (e_Source e) (e_CreatedAt e).

Definition RecordStrandedTopup (eventID tenantID : string) (poolID amount now : Z) : P unit :=
  if String.eqb eventID "" || (amount <=? 0) then throw ErrStrandedArgs
  else
    try! r := insert_event eventID tenantID poolID amount 0 FundEventSourceStranded now in
    match r with
    | Ok _ => ret tt
    | Err ErrUniqueViolation => ret tt
    | Err e => throw e
    end.

(** [UPDATE credit_pool_fund_events SET f WHERE cond], rows affected. *)
Definition update_events (cond : CreditPoolFundEvent -> bool)
    (f : CreditPoolFundEvent -> CreditPoolFundEvent) : P nat :=
  stmt (fun db => Ok (affected cond (fundEvents db),
                      set_events db (update_where cond f (fundEvents db)))).

Definition finalizeStrandedTopup (eventID tenantID : string) (now : Z) : P CreditPoolFundEvent :=
  transaction (
    let! claimed := update_events
      (fun e => by_event tenantID eventID e && has_source FundEventSourceStranded e)
      (set_source FundEventSourceReconciled) in
    if (claimed =? 0)%nat then throw errFundEventNotStranded
    else
      let! found := find_event tenantID eventID in
      match found with
      | None => throw ErrRecordNotFound
      | Some evt =>
          let! credited := update_balance (by_id (e_PoolID evt))
            (fits_ceiling (e_PoolID evt) (e_Amount evt)) (e_Amount evt) now in
          if (credited =? 0)%nat then throw ErrPoolWouldExceedCeiling
          else
            let! newBalance := read_balance (e_PoolID evt) in
            let! _ := update_events (by_event tenantID eventID) (set_new_balance newBalance) in
            let! _ := insert_draw (e_PoolID evt) (e_TenantID evt) 0 0 PoolDrawDirectionCredit
                        (e_Amount evt) PoolDrawReasonTopup 0 now in
            ret (set_new_balance newBalance (set_source FundEventSourceReconciled evt))
      end).

(** The outcome of [TryFinalizeStrandedTopup]: the event, whether the key was
    handled, and the error. *)
Record finalize_outcome := mkOutcome {
  o_event : option CreditPoolFundEvent;
  o_handled : bool;
  o_err : option pool_err
}.

Definition TryFinalizeStrandedTopup (eventID tenantID : string) (now : Z) : P finalize_outcome :=
  try! found := query (fun db => first_where (fun e => by_event tenantID eventID e &&
      (has_source FundEventSourceStranded e || has_source FundEventSourceReconciled e ||
       has_source FundEventSourceManuallyClosed e)) (fundEvents db)) in
  match found with
  | Err e => ret (mkOutcome None false (Some e))
  | Ok None => ret (mkOutcome None false None)
  | Ok (Some evt) =>
      if has_source FundEventSourceReconciled evt then ret (mkOutcome (Some evt) true None)
      else if has_source FundEventSourceManuallyClosed evt
      then ret (mkOutcome (Some evt) true (Some ErrStrandedTopupManuallyClosed))
      else
        try! r := finalizeStrandedTopup eventID tenantID now in
        match r with
        | Ok settled => ret (mkOutcome (Some settled) true None)
        | Err errFundEventNotStranded =>
            try! closed := find_event tenantID eventID in
            match closed with
            | Ok (Some c) => ret (mkOutcome (Some c) true None)
            | Ok None => ret (mkOutcome None true (Some ErrRecordNotFound))
            | Err e => ret (mkOutcome None true (Some e))
            end
        | Err e => ret (mkOutcome (Some evt) true (Some e))
        end
  end.

Fixpoint reconcile_loop (refs : list (string * string)) (now : Z) (reconciled failed : Z)
    : P (Z * Z) :=
  match refs with
  | [] => ret (reconciled, failed)
  | (id, tenantID) :: refs' =>
      try! r := finalizeStrandedTopup id tenantID now in
      match r with
      | Ok _ => reconcile_loop refs' now (reconciled + 1) failed
      | Err errFundEventNotStranded => reconcile_loop refs' now reconciled failed
      | Err _ => reconcile_loop refs' now reconciled (failed + 1)
      end
  end.

Definition stranded_refs (db : pooldb) : list (string * string) :=
  (fun e => (e_EventID e, e_TenantID e)) <$>
  take creditPoolReconcileBatchSize
    (List.filter (has_source FundEventSourceStranded) (fundEvents db)).

(** One sweep: the events reconciled and the events that failed again.  (The
    open-events gauge and the failure counters of the log line are not part of
    the tables.) *)
Definition ReconcileStrandedTopups (now : Z) : P (Z * Z) :=
  let! refs := query stranded_refs in
  reconcile_loop refs now 0 0.

End PoolFunding.

Section FundingFacts.
Import GoStrings CreditPool PoolFunding.
Context {D : Drift}.
Implicit Types (db : pooldb) (e evt : CreditPoolFundEvent) (tid ev src : string).

Lemma by_event_spec tid ev e : by_event tid ev e = true <-> event_key e = (tid, ev).
Proof.
  unfold by_event, event_key. rewrite andb_true_iff, !String.eqb_eq.
  split; [by intros [-> ->]|by intros [= -> ->]].
Qed.

Lemma has_source_spec src e : has_source src e = true <-> e_Source e = src.
Proof. apply String.eqb_eq. Qed.

Lemma event_unique db e1 e2 :
  wf_db db -> e1 ∈ fundEvents db -> e2 ∈ fundEvents db -> event_key e1 = event_key e2 -> e1 = e2.
Proof. intros Hwf. apply NoDup_fmap_inj, Hwf. Qed.

(** The key of a fund event is taken. *)
Definition key_taken tid ev db : Prop := (tid, ev) ∈ event_key <$> fundEvents db.

Lemma key_taken_spec tid ev db :
  key_taken tid ev db <-> existsb (by_event tid ev) (fundEvents db) = true.
Proof.
  unfold key_taken. rewrite existsb_exists, list_elem_of_fmap. split.
  - intros (e & He & Hin). exists e. by rewrite by_event_spec, <- list_elem_of_In.
  - intros (e & Hin & He). exists e. apply by_event_spec in He.
    split; [done|by apply list_elem_of_In].
Qed.

(** ** Statements *)

Lemma insert_event_ok ev tid pid amt nb src now (s s' : store pooldb) e :
  insert_event ev tid pid amt nb src now s = (Ok e, s') ->
  e = mkEvent (seq_event (tables s)) ev tid pid amt nb src now /\
  ~ key_taken tid ev (tables s) /\
  tables s' = mkDb (pools (tables s)) (draws (tables s)) (fundEvents (tables s) ++ [e])
                (seq_pool (tables s)) (seq_draw (tables s)) (seq_event (tables s) + 1).
Proof.
  unfold insert_event. intros H%stmt_ok. destruct (negb _); [done|].
  destruct (existsb _ _) eqn:E; [done|]. injection H as <- <-.
  split; [done|]. rewrite key_taken_spec, E. done.
Qed.

Lemma insert_event_wf ev tid pid amt nb src now (s s' : store pooldb) e :
  wf_db (tables s) ->
  insert_event ev tid pid amt nb src now s = (Ok e, s') -> wf_db (tables s').
Proof.
  intros Hwf (-> & Hnew & ->)%insert_event_ok. destruct Hwf. split; simpl; auto.
  rewrite fmap_app. apply NoDup_app. split; [done|]. split; [|apply NoDup_singleton].
  intros k Hk ->%list_elem_of_singleton. by apply Hnew.
Qed.

Lemma update_events_ok cond f (s s' : store pooldb) n :
  update_events cond f s = (Ok n, s') ->
  n = affected cond (fundEvents (tables s)) /\
  tables s' = set_events (tables s) (update_where cond f (fundEvents (tables s))).
Proof. intros H%stmt_ok. by injection H as <- <-. Qed.

(** ** Funding *)

Lemma fund_tx_ok pid tid amt ev src act rsn now s s' e :
  fund_tx pid tid amt ev src act rsn now s = (Ok e, s') ->
  exists s1 b,
    topupPoolInTx pid tid amt act rsn now s = (Ok b, s1) /\
    ~ key_taken tid ev (tables s) /\ event_key e = (tid, ev) /\
    e_Amount e = amt /\ e_NewBalance e = b /\ e_Source e = src /\ e_PoolID e = pid /\
    tables s' = mkDb (pools (tables s1)) (draws (tables s1)) (fundEvents (tables s) ++ [e])
                  (seq_pool (tables s1)) (seq_draw (tables s1)) (seq_event (tables s) + 1).
Proof.
  unfold fund_tx. intros H. open_ok. unfold catch in H.
  destruct (insert_event _ _ _ _ _ _ _ s1) as [[e'|e'] s2] eqn:Ei; [|by destruct e'].
  open_ok. exists s1, a. apply insert_event_ok in Ei as (He & Hnew & Ht2).
  pose proof (topupPoolInTx_ok _ _ _ _ _ _ _ _ _ Hm) as (d & _ & _ & _ & _ & _ & _ & Ht1 & _).
  rewrite Ht, Ht2. rewrite He at 1 2 3 4 5. rewrite Ht1 in *.
  split_and!; [done|exact Hnew|done..].
Qed.

Lemma fund_tx_wf pid tid amt ev src act rsn now s s' e :
  wf_db (tables s) -> fund_tx pid tid amt ev src act rsn now s = (Ok e, s') -> wf_db (tables s').
Proof.
  intros Hwf H. unfold fund_tx in H. open_ok. unfold catch in H.
  destruct (insert_event _ _ _ _ _ _ _ s1) as [[e'|e'] s2] eqn:Ei; [|by destruct e'].
  open_ok. rewrite Ht. apply topupPoolInTx_wf in Hm; [|done]. by eapply insert_event_wf.
Qed.

Lemma find_event_readonly tid ev : readonly (find_event tid ev).
Proof. apply query_readonly. Qed.

(** The tables after a fund call: those of a committed funding transaction, or
    the ones before. *)
Lemma fund_fresh_cases pid tid amt ev src act rsn now s :
  tables (snd (fund_fresh pid tid amt ev src act rsn now s)) = tables s \/
  exists s2 e rsn',
    fund_tx pid tid amt ev src act rsn' now s = (Ok e, s2) /\
    fund_fresh pid tid amt ev src act rsn now s = (Ok (Funded e), s2).
Proof.
  unfold fund_fresh, catch. set (rsn' := truncate_reason _).
  destruct (fund_tx pid tid amt ev src act rsn' now s) as [[e|e] s2] eqn:Ef.
  { right. by exists s2, e, rsn'. }
  left. assert (Ht : tables s2 = tables s) by by apply transaction_atomic in Ef.
  destruct e; try done. unfold bind. pose proof (find_event_readonly tid ev s2) as H2.
  destruct (find_event tid ev s2) as [[[]|] s3]; simpl in *; congruence.
Qed.

Lemma fund_cases pid tid amt ev src act rsn now s :
  tables (snd (FundPoolIdempotentWithReason pid tid amt ev src act rsn now s)) = tables s \/
  exists s1 s2 e rsn',
    tables s1 = tables s /\ fund_tx pid tid amt ev src act rsn' now s1 = (Ok e, s2) /\
    FundPoolIdempotentWithReason pid tid amt ev src act rsn now s = (Ok (Funded e), s2).
Proof.
  unfold FundPoolIdempotentWithReason. destruct (amt <=? 0); [by left|].
  destruct (ValidateFundEventID ev); [by left|]. unfold catch.
  pose proof (find_event_readonly tid ev s) as H1.
  destruct (find_event tid ev s) as [r s1]. simpl in H1. rewrite <- H1.
  destruct (fund_fresh_cases pid tid amt ev src act rsn now s1) as [Hf|(s2 & e & rsn' & Hf1 & Hf2)];
    destruct r as [[e0|]|]; eauto 10.
Qed.

Lemma FundPool_preserves pid tid amt ev src act rsn now :
  preserves wf_db (FundPoolIdempotentWithReason pid tid amt ev src act rsn now).
Proof.
  intros s Hwf. destruct (fund_cases pid tid amt ev src act rsn now s)
    as [->|(s1 & s2 & e & rsn' & Ht & Htx & ->)]; [done|].
  simpl. eapply fund_tx_wf; [|done]. by rewrite Ht.
Qed.

Lemma recorded_preserves (Q : pooldb -> Prop) ev tid pid amt src now
    (k : result pool_err CreditPoolFundEvent -> P unit) :
  (forall r s, tables (snd (k r s)) = tables s) ->
  (forall s e s', Q (tables s) ->
     insert_event ev tid pid amt 0 src now s = (Ok e, s') -> Q (tables s')) ->
  preserves Q (catch (insert_event ev tid pid amt 0 src now) k).
Proof.
  intros Hk Hi s HP. unfold catch.
  destruct (insert_event ev tid pid amt 0 src now s) as [r s'] eqn:E. rewrite Hk.
  destruct r as [e|e]; [by eapply Hi|]. apply stmt_atomic in E. by rewrite E.
Qed.

Lemma RecordStrandedTopup_preserves ev tid pid amt now :
  preserves wf_db (RecordStrandedTopup ev tid pid amt now).
Proof.
  unfold RecordStrandedTopup. destruct (_ || _); [by intros s|].
  apply recorded_preserves; [|intros; by eapply insert_event_wf].
  intros [e|[]] s; done.
Qed.

Lemma RecordTerminalFundEvent_preserves pid tid ev amt src now :
  preserves wf_db (RecordTerminalFundEvent pid tid ev amt src now).
Proof.
  unfold RecordTerminalFundEvent. destruct (ValidateFundEventID ev); [by intros s|].
  apply recorded_preserves; [|intros; by eapply insert_event_wf].
  intros [e|[]] s; done.
Qed.

(** ** Settling a stranded event *)

(** The event as a settlement leaves it. *)
Definition settle (b : Z) e : CreditPoolFundEvent :=
  set_new_balance b (set_source FundEventSourceReconciled e).

Lemma first_event db tid ev e :
  wf_db db -> e ∈ fundEvents db -> event_key e = (tid, ev) ->
  forall f, (forall x, event_key (f x) = event_key x) ->
  first_where (by_event tid ev) (update_where (by_event tid ev) f (fundEvents db)) = Some (f e).
Proof.
  intros Hwf He Hk f Hf. destruct (first_where _ _) as [x|] eqn:E.
  - apply first_where_some in E as [(y & Hy & ->)%elem_of_update_where Hx].
    destruct (by_event tid ev y) eqn:Ey; [|congruence].
    apply by_event_spec in Ey. f_equal. f_equal. apply (event_unique db); auto; congruence.
  - exfalso. assert (f e ∈ update_where (by_event tid ev) f (fundEvents db)) as Hin.
    { apply elem_of_update_where. exists e. split; [done|].
      by rewrite (proj2 (by_event_spec _ _ _) Hk). }
    apply (first_where_none _ _ E) in Hin. apply not_true_iff_false in Hin.
    apply Hin, by_event_spec. by rewrite Hf.
Qed.

(** In a well-formed table the claim selects the one row with the key. *)
Lemma claim_row db tid ev src e f :
  wf_db db -> e ∈ fundEvents db -> event_key e = (tid, ev) -> e_Source e = src ->
  update_where (fun x => by_event tid ev x && has_source src x) f (fundEvents db) =
  update_where (by_event tid ev) f (fundEvents db).
Proof.
  intros Hwf He Hk Hs. unfold update_where. apply list_fmap_ext.
  intros i x Hx%list_elem_of_lookup_2. destruct (by_event tid ev x) eqn:Ex; [|done].
  apply by_event_spec in Ex.
  assert (x = e) as -> by (apply (event_unique db); auto; congruence).
  by rewrite (proj2 (has_source_spec _ _) Hs).
Qed.

Lemma update_events_twice tid ev f g (es : list CreditPoolFundEvent) :
  (forall x, event_key (f x) = event_key x) ->
  update_where (by_event tid ev) g (update_where (by_event tid ev) f es) =
  update_where (by_event tid ev) (fun x => g (f x)) es.
Proof.
  intros Hf. unfold update_where. rewrite <- list_fmap_compose. apply list_fmap_ext.
  intros i x _. unfold compose. destruct (by_event tid ev x) eqn:E; [|by rewrite E].
  apply by_event_spec in E. by rewrite (proj2 (by_event_spec _ _ _)) by (by rewrite Hf).
Qed.

(** A settlement that commits: the row was stranded, its pool is credited by
    its amount under the ceiling, one draw is appended and the row is closed
    with the new balance. *)
Lemma finalize_ok ev tid now s r s' :
  wf_db (tables s) -> finalizeStrandedTopup ev tid now s = (Ok r, s') ->
  exists e d b,
    e ∈ fundEvents (tables s) /\ event_key e = (tid, ev) /\ e_Source e = FundEventSourceStranded /\
    r = settle b e /\
    d_PoolID d = e_PoolID e /\ d_Direction d = PoolDrawDirectionCredit /\ d_Amount d = e_Amount e /\
    affected (fits_ceiling (e_PoolID e) (e_Amount e)) (pools (tables s)) <> 0%nat /\
    (forall p, p ∈ pools (tables s) -> p_ID p = e_PoolID e -> in64 (p_CurrentBalance p + e_Amount e)) /\
    tables s' = set_events
      (moved (tables s) (fits_ceiling (e_PoolID e) (e_Amount e))
         (fun p => set_balance (p_CurrentBalance p + e_Amount e) now p) d)
      (update_where (by_event tid ev) (settle b) (fundEvents (tables s))) /\
    exists q, q ∈ pools (tables s') /\ p_ID q = e_PoolID e /\ p_CurrentBalance q = b.
Proof.
  intros Hwf H. unfold finalizeStrandedTopup in H. open_ok. rewrite Ht. clear s' Ht.
  rename s0 into s'. apply update_events_ok in Hm as [-> Ht1].
  destruct (_ =? 0)%nat eqn:En; [done|]. apply Nat.eqb_neq in En.
  apply affected_neq_0 in En as (e & He & Hc). bool_to_prop.
  rewrite by_event_spec in *. rewrite has_source_spec in *.
  unfold find_event in H. open_ok. rewrite Ht1 in *. cbn [fundEvents set_events] in *.
  rewrite (claim_row (tables s) tid ev _ e) in * by done.
  rewrite (first_event (tables s) tid ev e) in H by done. open_ok.
  destruct (a =? 0)%nat eqn:En; [done|]. open_ok.
  apply read_balance_ok in Hm0 as (Ht3 & q & Hq & Hqid & Hqb).
  apply update_events_ok in Hm1 as [_ Ht4].
  apply insert_draw_ok in Hm2 as (d & Hd & _ & Hdir & Hamt & _ & Ht5).
  apply update_balance_ok in Hm as (-> & Ht2 & Hr).
  rewrite Ht in *. cbn in Hr, Ht2, Hd, Hamt, En, Hqid.
  exists e, d, a0. rewrite Ht2 in *. rewrite Ht3 in *. rewrite Ht4 in *. rewrite Ht5.
  cbn. split_and!; try done.
  - by apply Nat.eqb_neq.
  - intros p Hp Hid. apply Hr; [done|]. by apply by_id_spec.
  - unfold moved, set_events. cbn. f_equal.
    apply (update_events_twice tid ev (set_source FundEventSourceReconciled)
             (set_new_balance a0)). done.
  - exists q. done.
Qed.

Lemma settled_keys tid ev b (es : list CreditPoolFundEvent) :
  event_key <$> update_where (by_event tid ev) (settle b) es = event_key <$> es.
Proof. by apply update_where_proj. Qed.

Lemma finalize_wf ev tid now s r s' :
  wf_db (tables s) -> finalizeStrandedTopup ev tid now s = (Ok r, s') -> wf_db (tables s').
Proof.
  intros Hwf (e & d & b & _ & _ & _ & _ & Hd & Hdir & Hamt & Haff & Hr & -> & _)%finalize_ok; [|done].
  apply wf_set_events.
  - apply (moved_wf _ _ (e_PoolID e)); auto.
    + intros q. rewrite fits_ceiling_spec. tauto.
    + intros q Hq. rewrite fits_ceiling_spec. intros [? _]. auto.
    + unfold signed. rewrite Hdir, Hamt. unfold PoolDrawDirectionCredit. lia.
  - rewrite settled_keys. apply Hwf.
Qed.

Lemma finalize_atomic ev tid now : atomic (finalizeStrandedTopup ev tid now).
Proof. apply transaction_atomic. Qed.

Lemma finalize_preserves ev tid now : preserves wf_db (finalizeStrandedTopup ev tid now).
Proof.
  intros s Hwf. destruct (finalizeStrandedTopup ev tid now s) as [[r|e] s'] eqn:E; simpl.
  - by eapply finalize_wf.
  - apply finalize_atomic in E. by rewrite E.
Qed.
End FundingFacts.
