(* ===== verification/PoolSystem.v ===== *)
(** * The credit-pool system

    All writers of the pool tables together: relay debits, overdrafts, top-ups,
    hand-backs, pool creation, idempotent funding, the stranded-debit state
    machine and scheduled resets, stale ones included.  The deletion of a pool, which
    books a draw and leaves the balance, is in [PoolTopup] and not among them.  A step
    is one of these calls run at any time under any schedule of database faults, so a
    path is any interleaving of the replicas' transactions.  The theorems of this file are about every path. *)

From S2P Require Import Prelude GoStrings Calendar CreditPool CreditPoolSpec PoolFunding.

Module PoolSystem.
Import GoStrings CreditPool PoolFunding.

Inductive op :=
| ODebit (pid : Z) (tid : string) (amt tok log : Z)
| OOverdraft (pid : Z) (tid : string) (amt tok log : Z)
| OTopup (pid : Z) (tid : string) (amt actor : Z) (reason : string)
| OAdjust (tid : string) (amt : Z) (reason : string)
| OCreate (tid : string) (by_ mx : Z) (period : string) (pct : Z)
| OFund (pid : Z) (tid : string) (amt : Z) (ev src : string) (actor : Z) (reason : string)
| OTerminal (pid : Z) (tid ev : string) (amt : Z) (src : string)
| OStranded (ev tid : string) (pid amt : Z)
| OFinalize (ev tid : string)
| OReset (listed : TenantCreditPool).

Definition op_outcome {A} (r : result pool_err A * store pooldb) : bool * pooldb :=
  (is_ok (fst r), tables (snd r)).

(** One call at [now] against tables [db], with the faults [fs] ahead of it. *)
Definition exec (o : op) (now : Z) (fs : list bool) (db : pooldb) : bool * pooldb :=
  let s := mkStore db fs in
  match o with
  | ODebit pid tid amt tok log => op_outcome (DebitPool pid tid amt tok log now s)
  | OOverdraft pid tid amt tok log => op_outcome (OverdraftDebitPool pid tid amt tok log now s)
  | OTopup pid tid amt act rsn => op_outcome (TopupPool pid tid amt act rsn now s)
  | OAdjust tid amt rsn => op_outcome (CreditPoolAdjustment tid amt rsn now s)
  | OCreate tid by_ mx per pct => op_outcome (CreateTenantCreditPool tid by_ mx per pct now s)
  | OFund pid tid amt ev src act rsn =>
      op_outcome (FundPoolIdempotentWithReason pid tid amt ev src act rsn now s)
  | OTerminal pid tid ev amt src => op_outcome (RecordTerminalFundEvent pid tid ev amt src now s)
  | OStranded ev tid pid amt => op_outcome (RecordStrandedTopup ev tid pid amt now s)
  | OFinalize ev tid => op_outcome (finalizeStrandedTopup ev tid now s)
  | OReset p =>
      op_outcome (resetOnePoolInTx p (i64_sub (p_MaxBalance p) (p_CurrentBalance p)) now
                 (nextResetAt (p_ResetPeriod p) now) s)
  end.

(** What the callers guarantee: a ceiling is an [int64].  A reset may have listed its row at
    any earlier time. *)
Definition allowed (o : op) (db : pooldb) : Prop :=
  match o with
  | OCreate _ _ mx _ _ => in64 mx
  | OReset p => in64 (p_MaxBalance p)
  | _ => True
  end.

(** A path as the list of its calls, and how many of them settled the stranded
    event with the given key. *)
Definition call := (op * Z * list bool)%type.

Definition settles (ev tid : string) (o : op) : bool :=
  match o with
  | OFinalize ev' tid' => String.eqb ev' ev && String.eqb tid' tid
  | _ => false
  end.

Fixpoint run (calls : list call) (db : pooldb) : pooldb :=
  match calls with
  | [] => db
  | (o, now, fs) :: calls' => run calls' (snd (exec o now fs db))
  end.

Fixpoint settlements (ev tid : string) (calls : list call) (db : pooldb) : nat :=
  match calls with
  | [] => 0%nat
  | (o, now, fs) :: calls' =>
      let (ok, db') := exec o now fs db in
      ((if settles ev tid o && ok then 1 else 0) + settlements ev tid calls' db')%nat
  end.

(** What the resets of a path overwrote of the pool [pid]: what was debited or credited
    between the listing of its row and the commit of the reset. *)
Definition call_overwrites (pid : Z) (o : op) (now : Z) (fs : list bool) (db : pooldb) : Z :=
  match o with
  | OReset p =>
      if (pid =? p_ID p) &&
         applied (fst (resetOnePoolInTx p (i64_sub (p_MaxBalance p) (p_CurrentBalance p)) now
                         (nextResetAt (p_ResetPeriod p) now) (mkStore db fs)))
      then overwrites p db else 0
  | _ => 0
  end.



Fixpoint all_allowed (calls : list call) (db : pooldb) : Prop :=
  match calls with
  | [] => True
  | (o, now, fs) :: calls' => allowed o db /\ all_allowed calls' (snd (exec o now fs db))
  end.

End PoolSystem.

Section SystemFacts.
Import GoStrings CreditPool PoolFunding PoolSystem.
Implicit Types (db : pooldb) (e : CreditPoolFundEvent) (tid ev : string).

Lemma exec_wf {D : Drift} o now fs db :
  allowed o db -> wf_db db ->
  wf_db (D := fun pid => drift pid + call_overwrites pid o now fs db) (snd (exec o now fs db)).
Proof.
  intros Ha Hwf.
  assert (match o with OReset _ => False | _ => True end -> wf_db (snd (exec o now fs db)) ->
    wf_db (D := fun pid => drift pid + call_overwrites pid o now fs db) (snd (exec o now fs db))) as Hother.
  { intros Ho. apply wf_same_drift. intros pid. unfold call_overwrites, drift. destruct o; [lia..|done]. }
  destruct o; try (apply Hother; [done|]; simpl in *).
  - by apply (DebitPool_preserves _ _ _ _ _ _ (mkStore db fs)).
  - by apply (OverdraftDebitPool_preserves _ _ _ _ _ _ (mkStore db fs)).
  - by apply (TopupPool_preserves _ _ _ _ _ _ (mkStore db fs)).
  - by apply (CreditPoolAdjustment_preserves _ _ _ _ (mkStore db fs)).
  - by apply (CreateTenantCreditPool_preserves _ _ _ _ _ _ Ha (mkStore db fs)).
  - by apply (FundPool_preserves _ _ _ _ _ _ _ _ (mkStore db fs)).
  - by apply (RecordTerminalFundEvent_preserves _ _ _ _ _ _ (mkStore db fs)).
  - by apply (RecordStrandedTopup_preserves _ _ _ _ _ (mkStore db fs)).
  - by apply (finalize_preserves _ _ _ (mkStore db fs)).
  - simpl in *. destruct (resetOnePoolInTx _ _ _ _ (mkStore db fs)) as [r s'] eqn:E.
    pose proof (resetOne_drift listed now _ (mkStore db fs) r s' Hwf Ha E) as [Hwf' _]. refine (wf_same_drift _ _ _ _ Hwf').
    intros pid. unfold drift, drift_by. cbn [fst tables]. destruct (applied r); cbn [andb]; destruct (pid =? p_ID listed); cbn; lia.
Qed.

(** ** Fund-event rows over a step *)

(** How a call may change the fund events: rows keep their key, pool and amount
    and their source, except that a stranded row may become reconciled; rows
    are added under free keys. *)
Definition events_advance (es es' : list CreditPoolFundEvent) : Prop :=
  forall e, e ∈ es -> exists e', e' ∈ es' /\ event_key e' = event_key e /\
    e_PoolID e' = e_PoolID e /\ e_Amount e' = e_Amount e /\
    (e_Source e' = e_Source e \/
     e_Source e = FundEventSourceStranded /\ e_Source e' = FundEventSourceReconciled).

Lemma events_advance_refl es : events_advance es es.
Proof. intros e He. exists e. auto 10. Qed.

Lemma events_advance_app es e : events_advance es (es ++ [e]).
Proof. intros x Hx. exists x. rewrite elem_of_app. auto 10. Qed.

Lemma events_advance_settle {D : Drift} db tid ev b e :
  wf_db db -> e ∈ fundEvents db -> event_key e = (tid, ev) ->
  e_Source e = FundEventSourceStranded ->
  events_advance (fundEvents db)
    (update_where (by_event tid ev) (settle b) (fundEvents db)).
Proof.
  intros Hwf He Hk Hs x Hx. destruct (by_event tid ev x) eqn:Ex.
  - apply by_event_spec in Ex.
    assert (x = e) as -> by (apply (event_unique db); auto; congruence).
    exists (settle b e). split; [|by auto 10].
    apply elem_of_update_where. exists e. split; [done|].
    by rewrite (proj2 (by_event_spec _ _ _)).
  - exists x. split; [|by auto 10]. apply elem_of_update_where. exists x. by rewrite Ex.
Qed.

(** A call that keeps the fund events on success keeps them. *)
Lemma keeps_events {A} (m : P A) s :
  atomic m ->
  (forall s a s', m s = (Ok a, s') -> fundEvents (tables s') = fundEvents (tables s)) ->
  fundEvents (tables (snd (m s))) = fundEvents (tables s).
Proof.
  intros Ha Hm. destruct (m s) as [[a|e] s'] eqn:E; simpl; [by eapply Hm|].
  by rewrite (Ha _ _ _ E).
Qed.

(** The calls of the pool repository leave the fund events alone. *)
Definition pool_only (o : op) : bool :=
  match o with
  | OFund _ _ _ _ _ _ _ | OTerminal _ _ _ _ _ | OStranded _ _ _ _ | OFinalize _ _ => false
  | _ => true
  end.

Lemma pool_only_events o now fs db :
  pool_only o = true -> fundEvents (snd (exec o now fs db)) = fundEvents db.
Proof.
  destruct o; simpl; try done; intros _.
  - apply (keeps_events (DebitPool pid tid amt tok log now) (mkStore db fs));
      [apply DebitPool_atomic|]. intros s u s' H. unfold DebitPool in H.
    destruct (amt <=? 0); [done|]. open_ok.
    apply DebitPoolInTx_ok in H as (_ & d & p & _ & _ & _ & _ & _ & _ & _ & Ht2). by rewrite Ht, Ht2.
  - apply (keeps_events (OverdraftDebitPool pid tid amt tok log now) (mkStore db fs));
      [apply OverdraftDebitPool_atomic|].
    intros s u s' (_ & d & _ & _ & _ & _ & _ & _ & -> & _)%OverdraftDebitPool_ok. done.
  - apply (keeps_events (TopupPool pid tid amt actor reason now) (mkStore db fs));
      [apply TopupPool_atomic|]. intros s u s' H. unfold TopupPool in H.
    destruct (amt <=? 0); [done|]. open_ok.
    apply topupPoolInTx_ok in H as (d & _ & _ & _ & _ & _ & _ & Ht2 & _). by rewrite Ht, Ht2.
  - apply (keeps_events (CreditPoolAdjustment tid amt reason now) (mkStore db fs));
      [apply CreditPoolAdjustment_atomic|]. intros s u s'. unfold CreditPoolAdjustment, catch.
    destruct (amt <=? 0); [done|]. destruct (String.eqb tid ""); [done|].
    pose proof (GetTenantCreditPool_readonly tid s) as Hro.
    destruct (GetTenantCreditPool tid s) as [[p|e1] s1]; simpl in Hro; rewrite <- Hro.
    + destruct (IsUnlimited p); [by intros [= _ <-]|]. intros H. open_ok.
      apply topupPoolInTx_ok in Hm as (d & _ & _ & _ & _ & _ & _ & Ht2 & _). by rewrite Ht, Ht2.
    + destruct e1; try done. by intros [= _ <-].
  - apply (keeps_events (CreateTenantCreditPool tid by_ mx period pct now) (mkStore db fs));
      [apply stmt_atomic|]. intros s u s' H%stmt_ok.
    destruct (existsb _ _ || _); [done|]. by injection H as _ <-.
  - apply (keeps_events (resetOnePoolInTx listed
      (i64_sub (p_MaxBalance listed) (p_CurrentBalance listed)) now
      (nextResetAt (p_ResetPeriod listed) now)) (mkStore db fs)); [apply transaction_atomic|].
    intros s u s' H. unfold resetOnePoolInTx in H. open_ok. rewrite Ht. injection Hm as _ Ht1.
    destruct (a =? 0)%nat; open_ok; [by rewrite <- Ht1|].
    apply insert_draw_ok in Hm as (d & _ & _ & _ & _ & _ & ->). by rewrite <- Ht1.
Qed.

Lemma recorded_events ev tid pid amt src now s (k : result pool_err CreditPoolFundEvent -> P unit) :
  (forall r s, tables (snd (k r s)) = tables s) ->
  events_advance (fundEvents (tables s))
    (fundEvents (tables (snd (catch (insert_event ev tid pid amt 0 src now) k s)))).
Proof.
  intros Hk. apply (recorded_preserves
    (fun db => events_advance (fundEvents (tables s)) (fundEvents db))); [done| |apply events_advance_refl].
  intros s1 e s2 Hadv (_ & _ & ->)%insert_event_ok. intros x Hx.
  destruct (Hadv x Hx) as (y & Hy & ?). exists y. split; [|done]. simpl. apply elem_of_app. by left.
Qed.

Lemma exec_events {D : Drift} o now fs db :
  wf_db db -> events_advance (fundEvents db) (fundEvents (snd (exec o now fs db))).
Proof.
  intros Hwf. destruct (pool_only o) eqn:Eo.
  { rewrite pool_only_events by done. apply events_advance_refl. }
  destruct o; try done; simpl.
  - destruct (fund_cases pid tid amt ev src actor reason now (mkStore db fs))
      as [->|(s1 & s2 & e & rsn' & Ht & Htx & ->)]; [apply events_advance_refl|]. simpl.
    apply fund_tx_ok in Htx as (s3 & b & _ & _ & _ & _ & _ & _ & _ & ->). simpl. rewrite Ht.
    apply events_advance_app.
  - unfold RecordTerminalFundEvent. destruct (ValidateFundEventID ev); [apply events_advance_refl|].
    apply (recorded_events ev tid pid amt src now (mkStore db fs)). intros [e|[]] s; done.
  - unfold RecordStrandedTopup. destruct (_ || _); [apply events_advance_refl|].
    apply (recorded_events ev tid pid amt _ now (mkStore db fs)). intros [e|[]] s; done.
  - destruct (finalizeStrandedTopup ev tid now (mkStore db fs)) as [[r|e] s'] eqn:E; simpl.
    + apply finalize_ok in E as (e & d & b & He & Hk & Hs & _ & _ & _ & _ & _ & _ & -> & _); [|done].
      by apply (events_advance_settle db tid ev b e).
    + apply finalize_atomic in E. rewrite E. apply events_advance_refl.
Qed.

(** ** Settlements *)

(** The event of the key exists and is not stranded: it is closed for good. *)
Definition closed tid ev db : Prop :=
  exists e, e ∈ fundEvents db /\ event_key e = (tid, ev) /\ e_Source e <> FundEventSourceStranded.

Lemma closed_stays {D : Drift} o now fs db tid ev :
  wf_db db -> closed tid ev db -> closed tid ev (snd (exec o now fs db)).
Proof.
  intros Hwf (e & He & Hk & Hs). destruct (exec_events o now fs db Hwf e He)
    as (e' & He' & Hk' & _ & _ & Hs'). exists e'. split_and!; [done|congruence|].
  destruct Hs' as [->|[? _]]; congruence.
Qed.

(** A call that settles the key closes it, and only an open key is settled. *)
Lemma settle_closes {D : Drift} o now fs db tid ev :
  wf_db db -> settles ev tid o = true -> fst (exec o now fs db) = true ->
  ~ closed tid ev db /\ closed tid ev (snd (exec o now fs db)).
Proof.
  intros Hwf Ho Hok. destruct o; try done. simpl in *. bool_to_prop.
  rewrite String.eqb_eq in *. subst.
  destruct (finalizeStrandedTopup ev tid now (mkStore db fs)) as [[r|e] s'] eqn:E; [|done]. simpl.
  apply finalize_ok in E as (e & d & b & He & Hk & Hs & _ & _ & _ & _ & _ & _ & -> & _); [|done].
  split.
  - intros (x & Hx & Hkx & Hsx). assert (x = e) by (apply (event_unique db); auto; congruence).
    congruence.
  - exists (settle b e). split_and!; [|done|done]. simpl. apply elem_of_update_where. exists e.
    split; [done|]. by rewrite (proj2 (by_event_spec _ _ _)).
Qed.

Lemma settlements_bound ev tid calls : forall {D : Drift} db,
  wf_db db -> all_allowed calls db ->
  (settlements ev tid calls db <= 1)%nat /\
  (closed tid ev db -> settlements ev tid calls db = 0%nat).
Proof.
  induction calls as [|[[o now] fs] calls IH]; intros D db Hwf Hall; simpl.
  { split; [lia|done]. }
  destruct Hall as [Ha Hall]. pose proof (exec_wf o now fs db Ha Hwf) as Hwf'.
  pose proof (closed_stays o now fs db tid ev Hwf) as Hstay.
  pose proof (settle_closes o now fs db tid ev Hwf) as Hset.
  destruct (exec o now fs db) as [ok db'] eqn:E. simpl in *.
  destruct (IH _ db' Hwf' Hall) as [IH1 IH2].
  destruct (settles ev tid o && ok) eqn:Es; simpl.
  - bool_to_prop. destruct Hset as [Hn Hc]; [done..|]. rewrite (IH2 Hc). split; [lia|done].
  - split; [done|auto].
Qed.
End SystemFacts.

(** ** Theorems *)

Section SystemProperties.
Import GoStrings CreditPool PoolFunding PoolSystem.




(** A stranded debit is compensated at most once: along any sequence of
    calls, by any mix of sweeps and client retries and under any faults, at most
    one call settles the fund event with a given key. *)
Theorem stranded_settled_once {D : Drift} ev tid calls db :
  wf_db db -> all_allowed calls db -> (settlements ev tid calls db <= 1)%nat.
Proof. intros Hwf Hall. apply (settlements_bound ev tid calls db Hwf Hall). Qed.

Lemma run_key_taken calls tid ev : forall {D : Drift} db,
  wf_db db -> all_allowed calls db -> key_taken tid ev db -> key_taken tid ev (run calls db).
Proof.
  induction calls as [|[[o now] fs] calls IH]; intros D db Hwf Hall Hk; simpl; [done|].
  destruct Hall as [Ha Hall]. refine (IH _ _ (exec_wf o now fs db Ha Hwf) Hall _).
  apply list_elem_of_fmap in Hk as (e & Hk & He).
  destruct (exec_events o now fs db Hwf e He) as (e' & He' & Hk' & _).
  apply list_elem_of_fmap. exists e'. split; [congruence|done].
Qed.

Lemma fund_taken pid tid amt ev src act rsn now s :
  key_taken tid ev (tables s) ->
  tables (snd (FundPoolIdempotentWithReason pid tid amt ev src act rsn now s)) = tables s.
Proof.
  intros Hk. destruct (fund_cases pid tid amt ev src act rsn now s)
    as [->|(s1 & s2 & e & rsn' & Ht & Htx & _)]; [done|].
  apply fund_tx_ok in Htx as (_ & _ & _ & Hn & _). by rewrite Ht in Hn.
Qed.

(** C6. Funding is exactly-once per key.  A fund call that reports a fresh credit
    has raised the pool's balance by the amount, recorded that balance, appended
    one draw for it and claimed the key; and after any further calls of any
    kind, every replay of the key, with whatever amount, pool, source or reason
    and under whatever faults, leaves the tables untouched. *)
Theorem fund_exactly_once {D : Drift} pid tid amt ev src act rsn now s e s1 :
  wf_db (tables s) ->
  FundPoolIdempotentWithReason pid tid amt ev src act rsn now s = (Ok (Funded e), s1) ->
  (exists p d, p ∈ pools (tables s) /\ p_ID p = pid /\
     pools (tables s1) =
       update_where (by_id pid) (set_balance (p_CurrentBalance p + amt) now) (pools (tables s)) /\
     e_NewBalance e = p_CurrentBalance p + amt /\
     draws (tables s1) = draws (tables s) ++ [d] /\ d_PoolID d = pid /\ signed d = amt /\
     key_taken tid ev (tables s1)) /\
  (forall calls, all_allowed calls (tables s1) ->
   forall pid' amt' src' act' rsn' now' fs,
   tables (snd (FundPoolIdempotentWithReason pid' tid amt' ev src' act' rsn' now'
     (mkStore (run calls (tables s1)) fs))) = run calls (tables s1)).
Proof.
  intros Hwf Hrun. pose proof (FundPool_preserves pid tid amt ev src act rsn now s Hwf) as Hwf1.
  rewrite Hrun in Hwf1. simpl in Hwf1.
  assert (exists s0 rsn', tables s0 = tables s /\
            fund_tx pid tid amt ev src act rsn' now s0 = (Ok e, s1)) as (s0 & rsn' & Ht & Htx).
  { unfold FundPoolIdempotentWithReason in Hrun. destruct (amt <=? 0); [done|].
    destruct (ValidateFundEventID ev); [done|]. unfold catch in Hrun.
    pose proof (find_event_readonly tid ev s) as Hro.
    destruct (find_event tid ev s) as [r s0]. simpl in Hro. exists s0.
    assert (fund_fresh pid tid amt ev src act rsn now s0 = (Ok (Funded e), s1)) as Hf.
    { by destruct r as [[]|]. }
    unfold fund_fresh, catch in Hf. set (rsn' := truncate_reason _) in Hf. exists rsn'.
    destruct (fund_tx _ _ _ _ _ _ _ _ s0) as [[e'|e'] s2]; [by injection Hf as -> ->|].
    exfalso. destruct e'; try done. unfold bind in Hf.
    by destruct (find_event tid ev s2) as [[[]|] s3]. }
  apply fund_tx_ok in Htx as (s2 & b & Htop & _ & Hk & _ & Hb & _ & _ & Ht1).
  assert (Htaken : key_taken tid ev (tables s1)).
  { rewrite Ht1. apply list_elem_of_fmap. exists e. split; [done|].
    simpl. apply elem_of_app. right. by apply list_elem_of_singleton. }
  split.
  - apply topupPoolInTx_ok in Htop as (d & Hd & Hdir & Hamt & _ & Haff & _ & Ht2 & q & Hq & Hqid & Hqb).
    rewrite Ht in *. apply affected_neq_0 in Haff as (p & Hp & Hc).
    pose proof Hc as Hc'. apply fits_ceiling_spec in Hc' as [Hpid _].
    assert (Hpools : pools (tables s2) =
      update_where (by_id pid) (set_balance (p_CurrentBalance p + amt) now) (pools (tables s))).
    { rewrite Ht2. simpl. rewrite <- Hpid in *. apply update_where_row; auto.
      intros r Hr. by apply fits_ceiling_spec in Hr as [? _]. }
    exists p, d. rewrite Ht1. simpl. split_and!; try done.
    + rewrite Hb, <- Hqb. rewrite Hpools in Hq. apply elem_of_update_where in Hq as (r & Hr & ->).
      destruct (by_id pid r) eqn:Er; [done|]. by rewrite (proj2 (by_id_spec _ _)) in Er.
    + by rewrite Ht2.
    + unfold signed. rewrite Hdir, Hamt. unfold PoolDrawDirectionCredit. lia.
    + by rewrite Ht1 in Htaken.
  - intros calls Hall pid' amt' src' act' rsn2 now' fs. rewrite fund_taken; [done|].
    exact (run_key_taken calls tid ev _ Hwf1 Hall Htaken).
Qed.

Lemma ValidateFundEventID_iff eventID :
  ValidateFundEventID eventID = None <-> eventID <> "" /\ pg_text_ok 128 eventID = true.
Proof.
  unfold ValidateFundEventID, pg_text_ok, PoolFundEventIDMaxLen.
  rewrite !andb_true_iff, negb_true_iff, Nat.leb_le.
  destruct (String.eqb_spec eventID "") as [->|Hne]; [naive_solver|].
  destruct (Nat.ltb_spec 128 (RuneCountInString eventID)); [split; [done|lia]|].
  destruct (has_nul eventID); [split; [done|naive_solver]|].
  destruct (ValidString eventID); simpl; [naive_solver|]. split; [done|naive_solver].
Qed.

(** The key check is exactly the column's: [ValidateFundEventID] accepts an
    event id iff it is non-empty and a PostgreSQL [varchar(128)] stores it. *)
Theorem ValidateFundEventID_exact eventID :
  ValidateFundEventID eventID = None <-> eventID <> "" /\ pg_text_ok 128 eventID = true.
Proof. apply ValidateFundEventID_iff. Qed.

(** Settling a stranded debit on a healthy database, the outcome on both
    branches: when the amount fits under the pool's ceiling the pool is credited
    by exactly the event's amount, the draw is appended, the event is closed
    with the new balance and that event is returned; when it does not fit,
    nothing changes and the event stays open, reported with the ceiling error. *)
Theorem TryFinalize_spec {D : Drift} db e p now :
  wf_db db -> e ∈ fundEvents db -> e_Source e = FundEventSourceStranded ->
  p ∈ pools db -> p_ID p = e_PoolID e -> in64 (p_CurrentBalance p + e_Amount e) ->
  pg_text_ok 36 (e_TenantID e) = true ->
  let b := p_CurrentBalance p + e_Amount e in
  TryFinalizeStrandedTopup (e_EventID e) (e_TenantID e) now (mkStore db []) =
  if fits_ceiling (p_ID p) (e_Amount e) p
  then (Ok (mkOutcome (Some (settle b e)) true None),
        mkStore (set_events
          (booked db p b now (e_TenantID e) 0 0 PoolDrawDirectionCredit (e_Amount e)
             PoolDrawReasonTopup 0)
          (update_where (by_event (e_TenantID e) (e_EventID e)) (settle b) (fundEvents db))) [])
  else (Ok (mkOutcome (Some e) true (Some ErrPoolWouldExceedCeiling)), mkStore db []).
Proof.
  intros Hwf He Hs Hp Hpid Hin Ht b. assert (event_key e = (e_TenantID e, e_EventID e)) as Hk by done.
  assert (Hfound : first_where (fun x => by_event (e_TenantID e) (e_EventID e) x &&
      (has_source FundEventSourceStranded x || has_source FundEventSourceReconciled x ||
       has_source FundEventSourceManuallyClosed x)) (fundEvents db) = Some e).
  { destruct (first_where _ _) as [x|] eqn:E.
    - apply first_where_some in E as [Hx Hc]. bool_to_prop. rewrite by_event_spec in *.
      f_equal. apply (event_unique db); auto; congruence.
    - exfalso. apply (first_where_none _ _ E) in He.
      rewrite (proj2 (by_event_spec _ _ _) Hk), (proj2 (has_source_spec _ _) Hs) in He. done. }
  unfold TryFinalizeStrandedTopup, catch, query. rewrite stmt_healthy, Hfound.
  unfold has_source. rewrite Hs. cbn [String.eqb].
  replace (String.eqb FundEventSourceStranded FundEventSourceReconciled) with false by done.
  replace (String.eqb FundEventSourceStranded FundEventSourceManuallyClosed) with false by done.
  unfold finalizeStrandedTopup, transaction, bind at 1, update_events. rewrite stmt_healthy.
  rewrite (proj2 (Nat.eqb_neq _ _)).
  2: { apply affected_pos with e; [done|].
       by rewrite (proj2 (by_event_spec _ _ _) Hk), (proj2 (has_source_spec _ _) Hs). }
  rewrite (claim_row db _ _ _ e) by done.
  unfold bind at 1, find_event, query. rewrite stmt_healthy. cbn [fundEvents set_events].
  rewrite (first_event db _ _ e) by done. cbn [e_PoolID e_Amount set_source].
  set (db1 := set_events db _). unfold bind at 1. rewrite <- Hpid.
  assert (wf_db db1) as Hwf1.
  { apply wf_set_events; [done|]. rewrite update_where_proj by done. apply Hwf. }
  rewrite (update_balance_row db1 p); auto.
  2: { intros q. rewrite fits_ceiling_spec. tauto. }
  2: { intros q. apply by_id_spec. }
  destruct (fits_ceiling (p_ID p) (e_Amount e) p) eqn:Ef; [|done].
  rewrite (affected_some db1 p) by done. unfold bind at 1.
  rewrite (read_balance_row db1 p) by done. unfold bind. rewrite stmt_healthy.
  rewrite insert_draw_healthy by done. cbn. rewrite update_events_twice by done. done.
Qed.
End SystemProperties.

(** ** Witnesses *)

Section SystemWitnesses.
Import GoStrings CreditPool PoolFunding PoolSystem.





(** A debit stranded under key "k", a failed and a successful settlement, and a
    second attempt. *)
Definition demo_calls : list call :=
  [(OStranded "k" "acme" 1 10, demo_later, []);
   (OFinalize "k" "acme", demo_later, [false; true]);
   (OFinalize "k" "acme", demo_later, []);
   (OFinalize "k" "acme", demo_later, [])].

Lemma stranded_settled_once_witness :
  settlements "k" "acme" demo_calls demo_db = 1%nat /\
  (settlements "k" "acme" demo_calls demo_db <= 1)%nat.
Proof.
  split; [vm_compute; reflexivity|].
  apply (stranded_settled_once "k" "acme" demo_calls demo_db demo_wf). repeat split.
Defined.

Lemma fund_exactly_once_witness :
  exists e s1,
    FundPoolIdempotentWithReason 1 "acme" 10 "evt-1" "outbox" 0 "" demo_later (mkStore demo_db [])
      = (Ok (Funded e), s1) /\
    forall fs, tables (snd (FundPoolIdempotentWithReason 1 "acme" 25 "evt-1" "outbox" 0 ""
      demo_later (mkStore (tables s1) fs))) = tables s1.
Proof.
  destruct (FundPoolIdempotentWithReason 1 "acme" 10 "evt-1" "outbox" 0 "" demo_later
              (mkStore demo_db [])) as [[[e|e]|e] s1] eqn:E;
    [|vm_compute in E; discriminate E..].
  exists e, s1. split; [done|]. intros fs.
  apply (proj2 (fund_exactly_once 1 "acme" 10 "evt-1" "outbox" 0 "" demo_later
    (mkStore demo_db []) e s1 demo_wf E) [] I).
Defined.

Definition demo_stranded_event : CreditPoolFundEvent :=
  mkEvent 1 "k" "acme" 1 10 0 FundEventSourceStranded demo_later.

Definition demo_stranded : pooldb :=
  snd (exec (OStranded "k" "acme" 1 10) demo_later [] demo_db).

Lemma TryFinalize_spec_witness :
  TryFinalizeStrandedTopup "k" "acme" demo_later (mkStore demo_stranded []) =
  (Ok (mkOutcome (Some (settle 50 demo_stranded_event)) true None),
   mkStore (set_events
     (booked demo_stranded demo_pool 50 demo_later "acme" 0 0 PoolDrawDirectionCredit 10
        PoolDrawReasonTopup 0)
     (update_where (by_event "acme" "k") (settle 50) (fundEvents demo_stranded))) []).
Proof.
  apply (TryFinalize_spec (D := no_drift) demo_stranded demo_stranded_event demo_pool demo_later).
  - refine (wf_same_drift _ _ _ _ (exec_wf (OStranded "k" "acme" 1 10) demo_later [] demo_db I demo_wf)). done.
  - vm_compute. left.
  - reflexivity.
  - vm_compute. left.
  - reflexivity.
  - unfold64. simpl. lia.
  - reflexivity.
Defined.
End SystemWitnesses.
