(* ===== verification/PoolTopup.v ===== *)
(** * Credit-pool endpoints and the relay gate

    Model of internal/adapter/handler/tenant_credit_pool.go,
    tenant_credit_pool_revert.go and internal_credit_pool_fund.go (the pool
    endpoints), internal/adapter/middleware/pool_balance_check.go (the gate in
    front of every relay group), internal/pkg/setting/credit_pool_setting.go and
    internal/app/credit_pool_reset.go (the modes of the scheduled reset).

    The platform wallet is another service: its replies are an argument
    [reply], and the calls a handler makes, with their replies, are part of its
    result.  A request is the values the handler reads from it; a response is
    its status, error code and reported balance. *)

From S2P Require Import Prelude GoStrings Sha256 Calendar CreditPool CreditPoolSpec PoolFunding PoolSystem.
From Stdlib Require Import Ascii.

Module PoolTopup.
Import GoStrings Sha256 CreditPool PoolFunding.

Record response := mkResp {
  status : Z;
  error_code : string;
  new_balance : option Z
}.

Definition fail (st : Z) (code : string) : response := mkResp st code None.

(** ** Calls to the wallet, and handlers

    A handler reads and writes the tables and calls the wallet; it never
    aborts, every branch ends in a response. *)

Section Wallet.
Context {Amt : Type}.

Inductive wcall :=
| WDebit (account : Z) (amount : Amt) (key : string)
| WCredit (account : Z) (amount : Amt) (key : string).

Definition trace := list (wcall * bool).

Definition H (A : Type) : Type := store pooldb -> A * trace * store pooldb.

Definition hret {A} (a : A) : H A := fun s => (a, [], s).

Definition hbind {A B} (m : H A) (k : A -> H B) : H B :=
  fun s =>
    let '(a, t1, s1) := m s in
    let '(b, t2, s2) := k a s1 in
    (b, t1 ++ t2, s2).

(** A repository call, its error handed to the handler. *)
Definition hdb {A} (m : P A) : H (result pool_err A) :=
  fun s => let (r, s') := m s in (r, [], s').

(** A wallet call: [true] when the platform confirms it. *)
Definition hwallet (reply : wcall -> bool) (c : wcall) : H bool :=
  fun s => (reply c, [(c, reply c)], s).

End Wallet.
Arguments wcall : clear implicits.
Arguments trace : clear implicits.
Arguments H : clear implicits.

Notation "'do!' x ':=' m 'in' k" := (hbind m (fun x => k))
  (at level 10, x pattern, m at level 100, k at level 200) : hub_scope.

(** ** Keys of a top-up *)

Definition poolTopupFundSourceAdmin : string := "admin_topup".
Definition poolTopupFundSourceReverted : string := "topup_reverted".

Inductive poolTopupKeyVerdict :=
| poolTopupKeySettled
| poolTopupKeyAmountMismatch
| poolTopupKeyReverted
| poolTopupKeyStranded
| poolTopupKeyForeign.

Definition classifyPoolTopupKey (evt : CreditPoolFundEvent) (poolID amount : Z)
    : poolTopupKeyVerdict :=
  if has_source poolTopupFundSourceAdmin evt then
    if negb (e_PoolID evt =? poolID) then poolTopupKeyForeign
    else if negb (e_Amount evt =? amount) then poolTopupKeyAmountMismatch
    else poolTopupKeySettled
  else if has_source poolTopupFundSourceReverted evt then poolTopupKeyReverted
  else if has_source FundEventSourceStranded evt || has_source FundEventSourceReconciled evt ||
          has_source FundEventSourceManuallyClosed evt then poolTopupKeyStranded
  else poolTopupKeyForeign.

(** The two headers, and the UUID drawn when both are blank; the flag says
    whether the caller supplied the key. *)
Definition poolTopupIdempotencyKey (idem x_idem uuid : string) : string * bool :=
  let k := TrimSpace idem in
  if negb (String.eqb k "") then (k, true)
  else
    let k := TrimSpace x_idem in
    if negb (String.eqb k "") then (k, true)
    else ("pool-topup:" +:+ uuid, false).

Definition poolTopupCollisionEventID (idemKey : string) : string :=
  "pool-topup-collision:" +:+ EncodeToString (take 16 (sha256 (bytes idemKey))).

(** ** Top-up from the wallet *)

Section Topup.
Context {Amt : Type}.
(** [float64(amount) / currency.LucToLut()] and the test against 0.00005. *)
Variable walletAmountOf : Z -> Amt.
Variable below_granularity : Amt -> bool.
Variable reply : wcall Amt -> bool.

Definition revertPoolTopupDebit (accountID : Z) (walletAmount : Amt) (tenantID : string)
    (poolID amount : Z) (idemKey strandedEventID : string) (now : Z) : H Amt bool :=
  do! reverted := hwallet reply (WCredit accountID walletAmount (idemKey +:+ ":revert")) in
  if reverted then hret true
  else
    do! _ := hdb (RecordStrandedTopup strandedEventID tenantID poolID amount now) in
    hret false.

(** The pre-debit reading of the key's slot: a response, or go on. *)
Definition topup_precheck (pool : TenantCreditPool) (tenantID : string) (amount : Z)
    (idemKey : string) (supplied : bool) : H Amt (option response) :=
  if negb supplied then hret None
  else match ValidateFundEventID idemKey with
  | Some _ => hret (Some (fail 400 "POOL_TOPUP_KEY_INVALID"))
  | None =>
      do! prior := hdb (LookupFundEvent tenantID idemKey) in
      match prior with
      | Err _ => hret (Some (fail 503 "POOL_TOPUP_KEY_UNVERIFIABLE"))
      | Ok None => hret None
      | Ok (Some evt) =>
          match classifyPoolTopupKey evt (p_ID pool) amount with
          | poolTopupKeySettled => hret (Some (mkResp 200 "" (Some (e_NewBalance evt))))
          | poolTopupKeyAmountMismatch => hret (Some (fail 409 "POOL_TOPUP_KEY_AMOUNT_MISMATCH"))
          | poolTopupKeyReverted => hret (Some (fail 409 "POOL_TOPUP_KEY_REVERTED"))
          | poolTopupKeyForeign => hret (Some (fail 409 "POOL_TOPUP_KEY_COLLISION"))
          | poolTopupKeyStranded => hret None
          end
      end
  end.

(** The error branch of an owned stranded event. *)
Definition finalize_error (e : pool_err) : response :=
  match e with
  | ErrPoolWouldExceedCeiling => fail 409 "POOL_CEILING_EXCEEDED"
  | ErrStrandedTopupManuallyClosed => fail 409 "POOL_TOPUP_INTENT_CLOSED"
  | _ => fail 500 "POOL_TOPUP_FAILED"
  end.

(** The credit, after a debit that succeeded and no stranded event to settle. *)
Definition topup_credit (pool : TenantCreditPool) (tenantID : string) (amount : Z)
    (reason : string) (actorID accountID : Z) (walletAmount : Amt) (idemKey : string) (now : Z)
    : H Amt response :=
  do! event := hdb (FundPoolIdempotentWithReason (p_ID pool) tenantID amount idemKey
                      poolTopupFundSourceAdmin actorID reason now) in
  match event with
  | Ok (Replayed evt) =>
      match classifyPoolTopupKey evt (p_ID pool) amount with
      | poolTopupKeySettled => hret (mkResp 200 "" (Some (e_NewBalance evt)))
      | poolTopupKeyForeign =>
          do! _ := revertPoolTopupDebit accountID walletAmount tenantID (p_ID pool) amount
                     idemKey (poolTopupCollisionEventID idemKey) now in
          hret (fail 409 "POOL_TOPUP_KEY_COLLISION")
      | _ => hret (fail 409 "POOL_TOPUP_KEY_IN_USE")
      end
  | Err terr =>
      do! back := revertPoolTopupDebit accountID walletAmount tenantID (p_ID pool) amount
                    idemKey idemKey now in
      do! _ := (if back
                then hdb (RecordTerminalFundEvent (p_ID pool) tenantID idemKey amount
                            poolTopupFundSourceReverted now)
                else hret (Ok tt)) in
      match terr with
      | ErrPoolWouldExceedCeiling => hret (fail 409 "POOL_CEILING_EXCEEDED")
      | _ => hret (fail 500 "POOL_TOPUP_FAILED")
      end
  | Ok (Funded evt) => hret (mkResp 200 "" (Some (e_NewBalance evt)))
  end.

(** [TopupCreditPool].  [body] is the bound request ([None] when binding fails),
    [actor] the acting user and its platform account. *)
Definition TopupCreditPool (tenantID : string) (body : option (Z * string))
    (actor : option (Z * option Z)) (idem x_idem uuid : string) (now : Z) : H Amt response :=
  do! got := hdb (GetTenantCreditPool tenantID) in
  match got with
  | Err _ => hret (fail 404 "POOL_NOT_FOUND")
  | Ok pool =>
      match body with
      | None => hret (fail 400 "")
      | Some (amount, reason) =>
          if amount <=? 0 then hret (fail 400 "")
          else match actor with
          | None => hret (fail 401 "")
          | Some (_, None) => hret (fail 412 "")
          | Some (actorID, Some accountID) =>
              if accountID <=? 0 then hret (fail 412 "")
              else
                let walletAmount := walletAmountOf amount in
                if below_granularity walletAmount then hret (fail 400 "")
                else
                  let (idemKey, supplied) := poolTopupIdempotencyKey idem x_idem uuid in
                  do! answered := topup_precheck pool tenantID amount idemKey supplied in
                  match answered with
                  | Some r => hret r
                  | None =>
                      do! debited := hwallet reply (WDebit accountID walletAmount idemKey) in
                      if negb debited then hret (fail 402 "WALLET_DEBIT_FAILED")
                      else
                        do! fin := hdb (TryFinalizeStrandedTopup idemKey tenantID now) in
                        match fin with
                        | Ok (mkOutcome evt true None) =>
                            hret (mkResp 200 "" (e_NewBalance <$> evt))
                        | Ok (mkOutcome _ true (Some e)) => hret (finalize_error e)
                        | _ =>
                            topup_credit pool tenantID amount reason actorID accountID
                              walletAmount idemKey now
                        end
                  end
          end
      end
  end.
End Topup.

(** ** Platform funding *)

(** [formatInt64]: digits from the least significant, in a 20-byte buffer. *)
Definition formatInt64 (n : Z) : string :=
  if n =? 0 then "0"
  else
    let neg := n <? 0 in
    let n := if neg then wrap64 (- n) else n in
    let ds := format_digits 20 n [] in
    of_bytes (if neg then 45 :: ds else ds).

(** A request to fund a pool: event id, amount, source. *)
Definition InternalFundCreditPool (slug : string) (tenant : option string) (key_allowed : bool)
    (body : option (string * Z * string)) (now : Z) : P (response * bool) :=
  if String.eqb slug "" then ret (fail 400 "MISSING_TENANT_SLUG", false)
  else match tenant with
  | None => ret (fail 404 "TENANT_NOT_FOUND", false)
  | Some tenantID =>
      if negb key_allowed then ret (fail 403 "TENANT_NOT_AUTHORIZED", false)
      else match body with
      | None => ret (fail 400 "INVALID_REQUEST", false)
      | Some (eventID, amount, source) =>
          if String.eqb eventID "" then ret (fail 400 "MISSING_EVENT_ID", false)
          else if amount <=? 0 then ret (fail 400 "INVALID_AMOUNT", false)
          else
            let source := if String.eqb source "" then "platform-billing-outbox" else source in
            try! got := GetTenantCreditPool tenantID in
            match got with
            | Err ErrPoolNotFound => ret (fail 404 "POOL_NOT_FOUND", false)
            | Err _ => ret (fail 500 "POOL_READ_FAILED", false)
            | Ok pool =>
                try! r := FundPoolIdempotent (p_ID pool) tenantID amount eventID source 0 now in
                match r with
                | Err ErrPoolWouldExceedCeiling => ret (fail 409 "POOL_CEILING_EXCEEDED", false)
                | Err _ => ret (fail 500 "FUND_FAILED", false)
                | Ok (Replayed e) => ret (mkResp 200 "" (Some (e_NewBalance e)), true)
                | Ok (Funded e) => ret (mkResp 200 "" (Some (e_NewBalance e)), false)
                end
            end
      end
  end.

(** ** Administration and views *)

Definition CreateCreditPool (tenantID : string) (tenant_exists : bool)
    (body : option (Z * string * Z)) (actorID now : Z) : P response :=
  if String.eqb tenantID "" then ret (fail 400 "")
  else if negb tenant_exists then ret (fail 404 "")
  else
    try! existing := GetTenantCreditPool tenantID in
    match existing with
    | Ok _ => ret (fail 409 "POOL_ALREADY_EXISTS")
    | Err _ =>
        match body with
        | None => ret (fail 400 "")
        | Some (maxBalance, resetPeriod, alertPct) =>
            if (maxBalance <? 0) && negb (maxBalance =? PoolMaxBalanceUnlimited)
            then ret (fail 400 "")
            else
              try! r := CreateTenantCreditPool tenantID actorID maxBalance resetPeriod alertPct now in
              match r with
              | Err _ => ret (fail 500 "")
              | Ok pool => ret (mkResp 201 "" (Some (p_CurrentBalance pool)))
              end
        end
    end.

Definition GetCreditPool (tenantID : string) : P (response * option TenantCreditPool) :=
  try! got := GetTenantCreditPool tenantID in
  match got with
  | Err ErrPoolNotFound => ret (fail 404 "POOL_NOT_FOUND", None)
  | Err _ => ret (fail 500 "", None)
  | Ok pool => ret (mkResp 200 "" (Some (p_CurrentBalance pool)), Some pool)
  end.

Record endUserPoolView := mkView {
  v_CurrentBalance : option Z;
  v_MaxBalance : option Z;
  v_Health : string
}.

Definition poolHealthForEndUser (pool : TenantCreditPool) : string :=
  if p_MaxBalance pool =? PoolMaxBalanceUnlimited then "unlimited"
  else if p_CurrentBalance pool <=? 0 then "red"
  else if i64_mul (p_CurrentBalance pool) 5 <? p_MaxBalance pool then "yellow"
  else "green".

(** [ctx] is the tenant of the authenticated token, [slug] the tenant the URL
    names. *)
Definition GetCreditPoolForEndUser (ctx slug : option string)
    : P (response * option endUserPoolView) :=
  match ctx with
  | None => ret (fail 401 "UNAUTHENTICATED", None)
  | Some ctxTenant =>
      match slug with
      | None => ret (fail 404 "TENANT_NOT_FOUND", None)
      | Some tenantID =>
          if negb (String.eqb tenantID ctxTenant) then ret (fail 403 "TENANT_MISMATCH", None)
          else
            try! got := GetTenantCreditPool tenantID in
            match got with
            | Err ErrPoolNotFound =>
                ret (mkResp 200 "" None, Some (mkView None None "unlimited"))
            | Err _ => ret (fail 500 "POOL_READ_FAILED", None)
            | Ok pool =>
                let mb := if negb (p_MaxBalance pool =? PoolMaxBalanceUnlimited)
                          then Some (p_MaxBalance pool) else None in
                ret (mkResp 200 "" (Some (p_CurrentBalance pool)),
                     Some (mkView (Some (p_CurrentBalance pool)) mb (poolHealthForEndUser pool)))
            end
      end
  end.

(** [DeleteCreditPool]: the ceiling is set to zero and a draw for the balance is
    recorded; a failed draw is only logged. *)
Definition set_max (mx now : Z) (p : TenantCreditPool) : TenantCreditPool :=
  mkPool (p_ID p) (p_TenantID p) (p_ParentTenantID p) (p_CreatedByUserID p) (p_CurrentBalance p)
    mx (p_ResetPeriod p) (p_LastResetAt p) (p_NextResetAt p)
    (p_AlertThresholdPct p) (p_AlertFiredAt p) (p_CreatedAt p) now.

Definition DeleteCreditPool (tenantID : string) (actorID now : Z) : P response :=
  try! got := GetTenantCreditPool tenantID in
  match got with
  | Err _ => ret (fail 404 "POOL_NOT_FOUND")
  | Ok pool =>
      try! upd := stmt (fun db => Ok (tt, set_pools db
        (update_where (by_id (p_ID pool)) (set_max 0 now) (pools db)))) in
      match upd with
      | Err _ => ret (fail 500 "")
      | Ok _ =>
          try! _ := insert_draw (p_ID pool) tenantID 0 0 PoolDrawDirectionDebit
                      (p_CurrentBalance pool) PoolDrawReasonAdjustment actorID now in
          ret (mkResp 200 "" None)
      end
  end.

(** ** The relay gate *)

Definition CreditPoolRequiredOff : string := "off".
Definition CreditPoolRequiredLog : string := "log".
Definition CreditPoolRequiredEnforce : string := "enforce".

Definition GetCreditPoolRequired (raw : string) : string :=
  if String.eqb raw "" || String.eqb raw CreditPoolRequiredOff then CreditPoolRequiredOff
  else if String.eqb raw CreditPoolRequiredLog then CreditPoolRequiredLog
  else if String.eqb raw CreditPoolRequiredEnforce then CreditPoolRequiredEnforce
  else CreditPoolRequiredOff.

Inductive gate :=
| Next
| Reject (st : Z) (code : string).

(** [env] is CREDIT_POOL_REQUIRED, [tenant] the tenant of the request. *)
Definition PoolBalanceCheck (env : string) (tenant : option string) : P gate :=
  match tenant with
  | None => ret Next
  | Some tenantID =>
      if String.eqb tenantID "" then ret Next
      else
        try! got := GetTenantCreditPool tenantID in
        match got with
        | Err ErrPoolNotFound =>
            if String.eqb (GetCreditPoolRequired env) CreditPoolRequiredEnforce
            then ret (Reject 402 "pool_not_configured")
            else ret Next
        | Err _ => ret Next
        | Ok pool =>
            if IsUnlimited pool then ret Next
            else if IsExhausted pool then ret (Reject 402 "pool_exhausted")
            else ret Next
        end
  end.

(** ** Modes of the scheduled reset *)

Definition CreditPoolResetModeObserve : string := "observe".
Definition CreditPoolResetModeEnforce : string := "enforce".

Definition normalizeCreditPoolResetMode (mode : string) : string :=
  if String.eqb mode CreditPoolResetModeEnforce then CreditPoolResetModeEnforce
  else CreditPoolResetModeObserve.

Definition creditPoolResetModeEnv (env : string) : string :=
  if String.eqb env CreditPoolResetModeEnforce then CreditPoolResetModeEnforce
  else CreditPoolResetModeObserve.

Definition resetDuePoolsWithMode (mode : string) (now : Z)
    : P (list PoolResetResult * option pool_err) :=
  ResetDuePools now (String.eqb mode CreditPoolResetModeEnforce).

Definition ResetDuePoolsWithMode (mode : string) (now : Z)
    : P (list PoolResetResult * option pool_err) :=
  resetDuePoolsWithMode (normalizeCreditPoolResetMode mode) now.

(** [InternalResetDuePools]: the query parameter overrides the environment, an
    unknown one is refused. *)
Definition InternalResetDuePools (mode env : string) (now : Z)
    : P (response * list PoolResetResult) :=
  let run mode :=
    try! r := ResetDuePoolsWithMode mode now in
    match r with
    | Ok (results, None) => ret (mkResp 200 "" None, results)
    | _ => ret (fail 500 "", [])
    end in
  if String.eqb mode "" then run (creditPoolResetModeEnv env)
  else if negb (String.eqb mode CreditPoolResetModeObserve) &&
          negb (String.eqb mode CreditPoolResetModeEnforce)
  then ret (fail 400 "", [])
  else run mode.

End PoolTopup.

Section TopupFacts.
Import GoStrings Sha256 CreditPool PoolFunding PoolTopup.
Implicit Types (s : store pooldb) (tid ev : string).

(** ** Repository calls as the handlers see them *)

Lemma LookupFundEvent_readonly tid ev : readonly (LookupFundEvent tid ev).
Proof.
  unfold LookupFundEvent. destruct (_ || _); [by intros s|apply find_event_readonly].
Qed.

Lemma healthy_update_balance ok co d now : healthy (update_balance ok co d now).
Proof. apply healthy_stmt. Qed.
Lemma healthy_insert_draw pid tid tok log dir amt rsn act now :
  healthy (insert_draw pid tid tok log dir amt rsn act now).
Proof. apply healthy_stmt. Qed.
Lemma healthy_insert_event ev tid pid amt nb src now :
  healthy (insert_event ev tid pid amt nb src now).
Proof. apply healthy_stmt. Qed.
Lemma healthy_find_event tid ev : healthy (find_event tid ev).
Proof. apply healthy_query. Qed.
Lemma healthy_read_balance pid : healthy (read_balance pid).
Proof. unfold read_balance. solve_healthy. Qed.
Lemma healthy_topup pid tid amt act rsn now : healthy (topupPoolInTx pid tid amt act rsn now).
Proof.
  unfold topupPoolInTx. solve_healthy; auto using healthy_update_balance, healthy_insert_draw,
    healthy_read_balance.
Qed.

Lemma healthy_fund pid tid amt ev src act rsn now :
  healthy (FundPoolIdempotentWithReason pid tid amt ev src act rsn now).
Proof.
  unfold FundPoolIdempotentWithReason, fund_fresh, fund_tx.
  solve_healthy; auto using healthy_find_event, healthy_topup, healthy_insert_event.
Qed.

Lemma healthy_TryFinalize ev tid now : healthy (TryFinalizeStrandedTopup ev tid now).
Proof.
  unfold TryFinalizeStrandedTopup, finalizeStrandedTopup, update_events.
  solve_healthy; auto using healthy_find_event, healthy_update_balance, healthy_read_balance,
    healthy_insert_draw.
Qed.

Lemma healthy_Get tid : healthy (GetTenantCreditPool tid).
Proof. unfold GetTenantCreditPool. solve_healthy. Qed.

Lemma healthy_Lookup tid ev : healthy (LookupFundEvent tid ev).
Proof. unfold LookupFundEvent. solve_healthy. Qed.

(** Only a settlement that answers without an error moves anything. *)
Lemma TryFinalize_cases ev tid now s :
  exists o s', TryFinalizeStrandedTopup ev tid now s = (Ok o, s') /\
    (tables s' = tables s \/ o_handled o = true /\ o_err o = None).
Proof.
  unfold TryFinalizeStrandedTopup, catch.
  match goal with |- context [query ?f s] =>
    pose proof (query_readonly (E := pool_err) f s) as H1; destruct (query f s) as [r s1] end.
  simpl in H1. destruct r as [[evt|]|]; [|by eauto 10..].
  destruct (has_source _ evt); [by eauto 10|]. destruct (has_source _ evt); [by eauto 10|].
  destruct (finalizeStrandedTopup ev tid now s1) as [[r|e] s2] eqn:E; [by eauto 10|].
  apply finalize_atomic in E.
  destruct e; try (eexists _, _; split; [done|]; left; congruence).
  pose proof (find_event_readonly tid ev s2) as H2.
  destruct (find_event tid ev s2) as [r3 s3]. simpl in H2. destruct r3 as [[]|]; eexists _, _; (split; [done|]); left; congruence.
Qed.

(** A replayed fund call returns a row that holds the key. *)
Lemma find_event_taken tid ev s e s' :
  find_event tid ev s = (Ok (Some e), s') -> key_taken tid ev (tables s').
Proof.
  intros H. unfold find_event in H. apply query_ok in H as [H ->]. symmetry in H.
  apply first_where_some in H as [Hin Hk%by_event_spec].
  apply list_elem_of_fmap. by exists e.
Qed.

Lemma fund_replayed pid tid amt ev src act rsn now s e s' :
  FundPoolIdempotentWithReason pid tid amt ev src act rsn now s = (Ok (Replayed e), s') ->
  key_taken tid ev (tables s').
Proof.
  unfold FundPoolIdempotentWithReason. destruct (amt <=? 0); [done|].
  destruct (ValidateFundEventID ev); [done|]. unfold catch.
  destruct (find_event tid ev s) as [r s1] eqn:E1.
  assert (fund_fresh pid tid amt ev src act rsn now s1 = (Ok (Replayed e), s') ->
          key_taken tid ev (tables s')) as Hf.
  { unfold fund_fresh, catch. destruct (fund_tx _ _ _ _ _ _ _ _ s1) as [[e1|e1] s2]; [done|].
    destruct e1; try done. unfold bind.
    destruct (find_event tid ev s2) as [[[e2|]|] s3] eqn:E2; try done.
    intros [= <- <-]. by eapply find_event_taken. }
  destruct r as [[e0|]|]; [|done..]. intros [= <- <-]. by eapply find_event_taken.
Qed.

Lemma insert_event_healthy ev tid pid amt nb src now s :
  faults s = [] -> pg_text_ok 128 ev = true -> pg_text_ok 36 tid = true ->
  pg_text_ok 64 src = true ->
  insert_event ev tid pid amt nb src now s = (Err ErrUniqueViolation, s) /\
    key_taken tid ev (tables s) \/
  exists e s', insert_event ev tid pid amt nb src now s = (Ok e, s') /\
    key_taken tid ev (tables s').
Proof.
  intros Hs H1 H2 H3. destruct s as [db fs]. simpl in Hs. subst.
  unfold insert_event. rewrite stmt_healthy, H1, H2, H3. simpl.
  destruct (existsb _ _) eqn:E; [left; by rewrite key_taken_spec|].
  right. eexists _, _. split; [done|]. unfold key_taken. simpl. rewrite fmap_app, elem_of_app.
  right. by apply list_elem_of_singleton.
Qed.

(** A stranded debit recorded on a healthy database is there afterwards. *)
Lemma RecordStranded_healthy ev tid pid amt now s :
  faults s = [] -> ev <> "" -> 0 < amt -> pg_text_ok 128 ev = true -> pg_text_ok 36 tid = true ->
  key_taken tid ev (tables (snd (RecordStrandedTopup ev tid pid amt now s))).
Proof.
  intros Hs Hne Hamt Hev Ht. unfold RecordStrandedTopup.
  rewrite (proj2 (String.eqb_neq _ _)), (proj2 (Z.leb_gt _ _)) by (done || lia). simpl.
  unfold catch.
  destruct (insert_event_healthy ev tid pid amt 0 FundEventSourceStranded now s)
    as [[-> Hk]|(e & s' & -> & Hk)]; done.
Qed.

Lemma record_pools ev tid pid amt src now s (k : result pool_err CreditPoolFundEvent -> P unit) :
  (forall r s, tables (snd (k r s)) = tables s) ->
  pools (tables (snd (catch (insert_event ev tid pid amt 0 src now) k s))) = pools (tables s).
Proof.
  intros Hk. apply (recorded_preserves (fun db => pools db = pools (tables s))); [done| |done].
  intros s1 e s2 Hp (_ & _ & ->)%insert_event_ok. done.
Qed.

Lemma RecordStranded_pools ev tid pid amt now s :
  pools (tables (snd (RecordStrandedTopup ev tid pid amt now s))) = pools (tables s).
Proof.
  unfold RecordStrandedTopup. destruct (_ || _); [done|]. apply record_pools.
  intros [e|[]] s1; done.
Qed.

Lemma RecordTerminal_pools pid tid ev amt src now s :
  pools (tables (snd (RecordTerminalFundEvent pid tid ev amt src now s))) = pools (tables s).
Proof.
  unfold RecordTerminalFundEvent. destruct (ValidateFundEventID ev); [done|]. apply record_pools.
  intros [e|[]] s1; done.
Qed.

(** The id a colliding debit is stranded under always fits the column. *)
Lemma collision_id_ok key :
  poolTopupCollisionEventID key <> "" /\ pg_text_ok 128 (poolTopupCollisionEventID key) = true.
Proof.
  set (h := hex (take 16 (sha256 (bytes key)))).
  assert (Hh : Forall (fun b => 48 <= b <= 102) h).
  { apply hex_ascii, Forall_take, sha256_bytes. }
  assert (E : poolTopupCollisionEventID key = of_bytes (bytes "pool-topup-collision:" ++ h)) by done.
  rewrite E. split; [done|]. apply ascii_text_ok.
  - apply Forall_app. split; [|eapply Forall_impl; [done|]; simpl; lia].
    apply Forall_forall. intros b Hb.
    assert (forallb (fun b => (0 <? b) && (b <? 128)) (bytes "pool-topup-collision:") = true)
      as Hall by done.
    rewrite forallb_forall in Hall. apply list_elem_of_In, Hall in Hb. bool_to_prop. lia.
  - rewrite length_app. unfold h. rewrite hex_length, length_take, sha256_length. simpl. lia.
Qed.
End TopupFacts.

(** ** The top-up handler *)

Section HandlerFacts.
Import GoStrings CreditPool PoolFunding PoolTopup.
Context {Amt : Type} (wa : Z -> Amt) (small : Amt -> bool) (reply : wcall Amt -> bool).
Implicit Types (s : store pooldb) (tid key : string) (pool : TenantCreditPool).

Lemma revert_spec acct (w : Amt) tid pid amt key sid now s b t s' :
  revertPoolTopupDebit reply acct w tid pid amt key sid now s = (b, t, s') ->
  pools (tables s') = pools (tables s) /\
  t = [(WCredit acct w (key +:+ ":revert"), b)] /\
  (b = false -> faults s = [] -> sid <> "" -> 0 < amt -> pg_text_ok 128 sid = true ->
   pg_text_ok 36 tid = true -> key_taken tid sid (tables s')).
Proof.
  unfold revertPoolTopupDebit, hbind, hwallet, hdb, hret.
  destruct (reply _) eqn:Er; [by intros [= <- <- <-]|].
  pose proof (RecordStranded_pools sid tid pid amt now s) as Hp.
  pose proof (RecordStranded_healthy sid tid pid amt now s) as Hk.
  destruct (RecordStrandedTopup sid tid pid amt now s) as [r s1]. simpl in *.
  intros [= <- <- <-]. auto.
Qed.

Lemma precheck_spec pool tid amt key supplied s (r : option response) t s' :
  topup_precheck (Amt := Amt) pool tid amt key supplied s = (r, t, s') ->
  t = [] /\ tables s' = tables s /\ (faults s = [] -> faults s' = []) /\
  (r = None -> supplied = true -> ValidateFundEventID key = None).
Proof.
  unfold topup_precheck. destruct supplied; simpl; [|by intros [= <- <- <-]].
  destruct (ValidateFundEventID key); [by intros [= <- <- <-]|].
  unfold hbind, hdb. pose proof (LookupFundEvent_readonly tid key s) as Hro.
  pose proof (healthy_Lookup tid key s) as Hh.
  destruct (LookupFundEvent tid key s) as [prior s1]. simpl in *.
  destruct prior as [[evt|]|]; [destruct (classifyPoolTopupKey _ _ _)|..];
    by intros [= <- <- <-].
Qed.

(** What the credit leaves, whichever way it ends. *)
Lemma credit_spec pool tid amt rsn actor acct (w : Amt) key now s r t s' :
  topup_credit reply pool tid amt rsn actor acct w key now s = (r, t, s') ->
  (pools (tables s') = pools (tables s) \/ status r = 200 /\ t = []) /\
  (faults s = [] -> key <> "" -> 0 < amt -> pg_text_ok 128 key = true ->
   pg_text_ok 36 tid = true ->
   status r = 200 \/ t = [(WCredit acct w (key +:+ ":revert"), true)] \/
   key_taken tid key (tables s') \/ key_taken tid (poolTopupCollisionEventID key) (tables s')) /\
  (t = [] \/ exists b, t = [(WCredit acct w (key +:+ ":revert"), b)]).
Proof.
  unfold topup_credit, hbind, hdb.
  pose proof (fund_cases (p_ID pool) tid amt key poolTopupFundSourceAdmin actor rsn now s) as Hc.
  pose proof (healthy_fund (p_ID pool) tid amt key poolTopupFundSourceAdmin actor rsn now s) as Hh.
  destruct (FundPoolIdempotentWithReason _ _ _ _ _ _ _ _ s) as [ev s1] eqn:Ef. simpl in Hc, Hh.
  destruct ev as [[evt|evt]|terr].
  - intros [= <- <- <-]. split_and!; [by right|by left|by left].
  - assert (Ht : tables s1 = tables s) by (by destruct Hc as [|(? & ? & ? & ? & ? & ? & [=])]).
    apply fund_replayed in Ef as Hk. rewrite <- Ht.
    destruct (classifyPoolTopupKey evt (p_ID pool) amt);
      try (intros [= <- <- <-]; split_and!; [by left|by auto|by left]).
    destruct (revertPoolTopupDebit _ _ _ _ _ _ _ _ _ s1) as [[b t1] s2] eqn:Er.
    apply revert_spec in Er as (Hp & -> & Hstr). intros [= <- <- <-].
    split_and!; [by left| |by eauto]. intros Hs Hne Hamt Hkey Ht36. right.
    destruct b; [by left|]. right. right. destruct (collision_id_ok key). by apply Hstr; auto.
  - assert (Ht : tables s1 = tables s) by (by destruct Hc as [|(? & ? & ? & ? & ? & ? & [=])]).
    rewrite <- Ht.
    destruct (revertPoolTopupDebit _ _ _ _ _ _ _ _ _ s1) as [[b t1] s2] eqn:Er.
    apply revert_spec in Er as (Hp & -> & Hstr). destruct b.
    + pose proof (RecordTerminal_pools (p_ID pool) tid key amt poolTopupFundSourceReverted now s2)
        as Hp2.
      destruct (RecordTerminalFundEvent _ _ _ _ _ _ s2) as [r2 s3]. simpl in Hp2.
      destruct terr; intros [= <- <- <-]; (split_and!; [left; congruence| |]); eauto.
    + destruct terr; intros [= <- <- <-]; (split_and!; [left; done| |by eauto]);
        intros Hs Hne Hamt Hkey Ht36; right; right; left; apply Hstr; auto.
Qed.

(** The ways a top-up request goes: answered without a wallet call, refused by
    the wallet, settled as a stranded intent, or credited. *)
Lemma topup_shape tid body actor idem x_idem uuid now s r t s' :
  TopupCreditPool wa small reply tid body actor idem x_idem uuid now s = (r, t, s') ->
  t = [] /\ tables s' = tables s \/
  exists pool amount reason actorID acct s1,
    let (key, supplied) := poolTopupIdempotencyKey idem x_idem uuid in
    let debit := WDebit acct (wa amount) key in
    body = Some (amount, reason) /\ actor = Some (actorID, Some acct) /\ 0 < amount /\
    tables s1 = tables s /\ (faults s = [] -> faults s1 = []) /\
    (supplied = true -> ValidateFundEventID key = None) /\
    (t = [(debit, false)] /\ tables s' = tables s \/
     exists o s2, TryFinalizeStrandedTopup key tid now s1 = (Ok o, s2) /\
       (o_handled o = true /\ t = [(debit, true)] /\ s' = s2 /\
          (o_err o = None -> status r = 200) \/
        o_handled o = false /\ exists t2, t = (debit, true) :: t2 /\
          topup_credit reply pool tid amount reason actorID acct (wa amount) key now s2
            = (r, t2, s'))).
Proof.
  unfold TopupCreditPool, hbind at 1, hdb at 1. intros Hrun.
  pose proof (GetTenantCreditPool_readonly tid s) as H0. pose proof (healthy_Get tid s) as Hh0.
  destruct (GetTenantCreditPool tid s) as [got s0]. simpl in H0, Hh0.
  destruct got as [pool|]; [|by injection Hrun as <- <- <-; auto].
  destruct body as [[amount reason]|]; [|by injection Hrun as <- <- <-; auto].
  destruct (amount <=? 0) eqn:Ea; [by injection Hrun as <- <- <-; auto|]. bool_to_prop.
  destruct actor as [[actorID [acct|]]|]; [|by injection Hrun as <- <- <-; auto..].
  destruct (acct <=? 0); [by injection Hrun as <- <- <-; auto|].
  destruct (small (wa amount)); [by injection Hrun as <- <- <-; auto|].
  destruct (poolTopupIdempotencyKey idem x_idem uuid) as [key supplied]. unfold hbind at 1 in Hrun.
  destruct (topup_precheck pool tid amount key supplied s0) as [[ans t1] s1] eqn:Ep.
  apply precheck_spec in Ep as (-> & H1 & Hh1 & Hval).
  destruct ans as [r0|]; [injection Hrun as <- <- <-; left; split; [done|congruence]|].
  right. exists pool, amount, reason, actorID, acct, s1.
  split_and!; [done|done|lia|congruence|auto|auto|].
  unfold hbind at 1, hwallet in Hrun.
  destruct (reply _); simpl in Hrun; [right|left; injection Hrun as <- <- <-; by rewrite H1].
  unfold hbind, hdb in Hrun.
  destruct (TryFinalize_cases key tid now s1) as (o & s2 & Efin & Hc). rewrite Efin in Hrun.
  exists o, s2. split; [done|]. destruct o as [evt [] [e|]]; simpl.
  1-2: injection Hrun as <- <- <-; left; by split_and!.
  1-2: destruct (topup_credit _ _ _ _ _ _ _ _ _ _ s2) as [[r2 t2] s3] eqn:Ec;
    injection Hrun as <- <- <-; right; eauto.
Qed.
End HandlerFacts.

(** ** Theorems *)

Section TopupProperties.
Import GoStrings CreditPool PoolFunding PoolTopup.

Lemma TryFinalize_handled ev tid now s o s' :
  TryFinalizeStrandedTopup ev tid now s = (Ok o, s') -> o_handled o = true ->
  key_taken tid ev (tables s).
Proof.
  unfold TryFinalizeStrandedTopup, catch. intros Hrun Hh.
  match type of Hrun with context [query ?f s] => destruct (query f s) as [r s1] eqn:Eq end.
  destruct r as [[evt|]|].
  - apply query_ok in Eq as [Eq _]. symmetry in Eq.
    apply first_where_some in Eq as [Hin Hc]. bool_to_prop. rewrite by_event_spec in *.
    apply list_elem_of_fmap. by exists evt.
  - by injection Hrun as <- <-.
  - by injection Hrun as <- <-.
Qed.

(** The key a debit is made under is a storable event id. *)
Lemma topup_key_ok idem x_idem uuid :
  pg_text_ok 128 ("pool-topup:" +:+ uuid) = true ->
  let (key, supplied) := poolTopupIdempotencyKey idem x_idem uuid in
  (supplied = true -> ValidateFundEventID key = None) -> key <> "" /\ pg_text_ok 128 key = true.
Proof.
  intros Huuid. destruct (poolTopupIdempotencyKey idem x_idem uuid) as [k supplied] eqn:Ek.
  intros Hval. destruct supplied; [by apply ValidateFundEventID_iff, Hval|].
  unfold poolTopupIdempotencyKey in Ek. repeat case_match; try done.
  injection Ek as <-. split; [done|exact Huuid].
Qed.

(** C7. No free pool credit.  Whatever the wallet replies and whatever the
    database does, a top-up request that changed any pool answered 200 and made
    exactly one wallet call: the confirmed debit of this request's amount,
    account and key. *)
Theorem topup_no_free_credit {Amt} (wa : Z -> Amt) small reply tid body actor idem x_idem uuid now
    s r t s' :
  TopupCreditPool wa small reply tid body actor idem x_idem uuid now s = (r, t, s') ->
  pools (tables s') <> pools (tables s) ->
  status r = 200 /\
  exists amount reason actorID accountID,
    body = Some (amount, reason) /\ actor = Some (actorID, Some accountID) /\
    t = [(WDebit accountID (wa amount) (fst (poolTopupIdempotencyKey idem x_idem uuid)), true)].
Proof.
  intros Hrun Hne. apply topup_shape in Hrun as [[_ Ht]|(pool & amount & reason & actorID & acct & s1 & Hrun)].
  { by rewrite Ht in Hne. }
  destruct (poolTopupIdempotencyKey idem x_idem uuid) as [key supplied].
  destruct Hrun as (Hb & Ha & _ & H1 & _ & _ & Hrun).
  destruct Hrun as [[_ Ht]|(o & s2 & Efin & Hrun)]; [by rewrite Ht in Hne|].
  destruct (TryFinalize_cases key tid now s1) as (o' & s2' & Efin' & Hc).
  rewrite Efin in Efin'. injection Efin' as <- <-. rewrite <- H1 in Hne.
  destruct Hrun as [(Hh & Ht & -> & Hst)|(Hh & t2 & Ht & Hcr)].
  - destruct Hc as [Hc|[_ He]]; [by rewrite Hc in Hne|]. split; [auto|]. eauto 10.
  - destruct Hc as [Hc|[? _]]; [|congruence]. rewrite <- Hc in Hne.
    apply credit_spec in Hcr as ([Hp|[Hst Ht2]] & _); [done|]. subst. split; [done|]. eauto 10.
Qed.

(** No lost debit.  With a healthy database and any replies of the wallet,
    a confirmed wallet debit of a top-up request is accounted for: the request
    answered 200, or the debit was given back, or a fund event holds the key
    (or the key derived for a collision), where the stranded sweep or an
    operator finds it. *)
Theorem topup_debit_accounted {Amt} (wa : Z -> Amt) small reply tid body actor idem x_idem uuid now
    s r t s' acct w key :
  faults s = [] -> pg_text_ok 36 tid = true -> pg_text_ok 128 ("pool-topup:" +:+ uuid) = true ->
  TopupCreditPool wa small reply tid body actor idem x_idem uuid now s = (r, t, s') ->
  (WDebit acct w key, true) ∈ t ->
  status r = 200 \/ (WCredit acct w (key +:+ ":revert"), true) ∈ t \/
  key_taken tid key (tables s') \/ key_taken tid (poolTopupCollisionEventID key) (tables s').
Proof.
  intros Hs Ht36 Huuid Hrun Hin.
  apply topup_shape in Hrun as [[-> _]|(pool & amount & reason & actorID & acct' & s1 & Hrun)].
  { by inversion Hin. }
  pose proof (topup_key_ok idem x_idem uuid Huuid) as Hkey.
  destruct (poolTopupIdempotencyKey idem x_idem uuid) as [k supplied].
  destruct Hrun as (_ & _ & Hpos & H1 & Hh1 & Hval & Hrun). specialize (Hkey Hval) as [Hne Hk].
  destruct Hrun as [[-> _]|(o & s2 & Efin & Hrun)].
  { apply list_elem_of_singleton in Hin. congruence. }
  pose proof (healthy_TryFinalize k tid now s1 (Hh1 Hs)) as Hh2. rewrite Efin in Hh2.
  destruct Hrun as [(Hh & -> & -> & Hst)|(Hh & t2 & -> & Hcr)].
  - apply list_elem_of_singleton in Hin. injection Hin as -> -> ->.
    destruct (TryFinalize_cases k tid now s1) as (o' & s2' & Efin' & Hc).
    rewrite Efin in Efin'. injection Efin' as <- <-.
    destruct Hc as [Hc|[_ He]]; [|by auto]. right. right. left. rewrite Hc.
    by eapply TryFinalize_handled.
  - apply credit_spec in Hcr as (_ & Hacc & Htr).
    apply elem_of_cons in Hin as [[= -> -> ->]|Hin].
    2: { destruct Htr as [->|[b ->]]; [by inversion Hin|].
         apply list_elem_of_singleton in Hin. discriminate. }
    destruct (Hacc Hh2 Hne Hpos Hk Ht36) as [|[->|[|]]]; [by auto| |by auto..].
    right. left. right. by apply list_elem_of_singleton.
Qed.
End TopupProperties.

(** ** The gate, deletion and the reset modes *)

Section GateProperties.
Import GoStrings CreditPool PoolFunding PoolTopup.
Context {D : Drift}.

Lemma GetTenantCreditPool_none db tid :
  (forall p, p ∈ pools db -> p_TenantID p <> tid) ->
  GetTenantCreditPool tid (mkStore db []) = (Err ErrPoolNotFound, mkStore db []).
Proof.
  intros Hno. unfold GetTenantCreditPool, bind, query. rewrite stmt_healthy.
  destruct (first_where _ _) as [p|] eqn:E; [|done].
  apply first_where_some in E as [Hp Ht%String.eqb_eq]. by apply Hno in Hp.
Qed.

Lemma PoolBalanceCheck_readonly env tenant : readonly (PoolBalanceCheck env tenant).
Proof.
  intros s. unfold PoolBalanceCheck. destruct tenant as [tid|]; [|done].
  destruct (String.eqb tid ""); [done|]. unfold catch.
  pose proof (GetTenantCreditPool_readonly tid s) as H.
  destruct (GetTenantCreditPool tid s) as [[p|e] s']; simpl in *.
  - by repeat case_match.
  - destruct e; try done. by case_match.
Qed.

Lemma gate_row env db p :
  wf_db db -> p ∈ pools db -> p_TenantID p <> "" ->
  PoolBalanceCheck env (Some (p_TenantID p)) (mkStore db []) =
  (Ok (if IsExhausted p then Reject 402 "pool_exhausted" else Next), mkStore db []).
Proof.
  intros Hwf Hp Hne. unfold PoolBalanceCheck, catch.
  rewrite (proj2 (String.eqb_neq _ _)) by done. rewrite GetTenantCreditPool_row by done.
  unfold IsExhausted. by destruct (IsUnlimited p); [|destruct (p_CurrentBalance p <=? 0)].
Qed.

(** The relay gate, on every branch of its table: it never writes; it fails
    open when the database fails the lookup; a tenant with a pool is rejected
    exactly when the pool is finite and its balance is not positive; a tenant
    without a pool is rejected exactly when CREDIT_POOL_REQUIRED is [enforce]. *)
Theorem PoolBalanceCheck_spec env tid db :
  wf_db db -> tid <> "" ->
  readonly (PoolBalanceCheck env (Some tid)) /\
  (forall fs, fst (PoolBalanceCheck env (Some tid) (mkStore db (true :: fs))) = Ok Next) /\
  (forall p, p ∈ pools db -> p_TenantID p = tid ->
     fst (PoolBalanceCheck env (Some tid) (mkStore db [])) =
     Ok (if IsExhausted p then Reject 402 "pool_exhausted" else Next)) /\
  ((forall p, p ∈ pools db -> p_TenantID p <> tid) ->
     fst (PoolBalanceCheck env (Some tid) (mkStore db [])) =
     Ok (if String.eqb env "enforce" then Reject 402 "pool_not_configured" else Next)).
Proof.
  intros Hwf Hne. split_and!.
  - apply PoolBalanceCheck_readonly.
  - intros fs. unfold PoolBalanceCheck. by rewrite (proj2 (String.eqb_neq _ _)).
  - intros p Hp <-. by rewrite gate_row.
  - intros Hno. unfold PoolBalanceCheck, catch. rewrite (proj2 (String.eqb_neq _ _)) by done.
    rewrite GetTenantCreditPool_none by done. unfold GetCreditPoolRequired, CreditPoolRequiredOff,
      CreditPoolRequiredLog, CreditPoolRequiredEnforce.
    destruct (String.eqb_spec env ""); [by subst|]. destruct (String.eqb_spec env "off"); [by subst|].
    destruct (String.eqb_spec env "log"); [by subst|].
    by destruct (String.eqb_spec env "enforce").
Qed.

Lemma OverdraftDebitPool_row db p tid amt tok log now :
  wf_db db -> p ∈ pools db -> 0 < amt -> in64 (p_CurrentBalance p - amt) ->
  pg_text_ok 36 tid = true ->
  OverdraftDebitPool (p_ID p) tid amt tok log now (mkStore db []) =
  (Ok (p_CurrentBalance p - amt),
   mkStore (booked db p (p_CurrentBalance p - amt) now tid tok log PoolDrawDirectionDebit amt
              PoolDrawReasonOverdraft 0) []).
Proof.
  intros Hwf Hp Hamt Hin Ht. unfold OverdraftDebitPool.
  rewrite (proj2 (Z.leb_gt _ _)) by lia. unfold transaction, bind.
  rewrite (update_balance_row db p); auto.
  2-3: intros q; apply by_id_spec.
  rewrite (proj2 (by_id_spec _ _)) by done. rewrite (affected_some db p) by (by try apply by_id_spec).
  rewrite (read_balance_row db p) by done. rewrite insert_draw_healthy by done. done.
Qed.

(** Debt keeps the gate shut until it is repaid: after an overdraft debit of
    a finite pool the gate rejects its tenant iff the new balance is not
    positive, and a later top-up reopens it iff it brings the balance above
    zero. *)
Theorem overdraft_gate env db p amt tok log t1 topup t2 :
  wf_db db -> p ∈ pools db -> p_TenantID p <> "" -> IsUnlimited p = false ->
  pg_text_ok 36 (p_TenantID p) = true -> 0 < amt -> in64 (p_CurrentBalance p - amt) ->
  0 < topup -> p_CurrentBalance p - amt + topup <= p_MaxBalance p ->
  exists s1 s2,
    OverdraftDebitPool (p_ID p) (p_TenantID p) amt tok log t1 (mkStore db [])
      = (Ok (p_CurrentBalance p - amt), s1) /\
    fst (PoolBalanceCheck env (Some (p_TenantID p)) s1) =
      Ok (if p_CurrentBalance p - amt <=? 0 then Reject 402 "pool_exhausted" else Next) /\
    TopupPool (p_ID p) (p_TenantID p) topup 0 "" t2 s1
      = (Ok (p_CurrentBalance p - amt + topup), s2) /\
    fst (PoolBalanceCheck env (Some (p_TenantID p)) s2) =
      Ok (if p_CurrentBalance p - amt + topup <=? 0 then Reject 402 "pool_exhausted" else Next).
Proof.
  intros Hwf Hp Hne Hlim Ht Hamt Hin Htop Hfit.
  pose proof (OverdraftDebitPool_row db p (p_TenantID p) amt tok log t1 Hwf Hp Hamt Hin Ht) as E1.
  pose proof (OverdraftDebitPool_preserves (p_ID p) (p_TenantID p) amt tok log t1 (mkStore db []) Hwf)
    as Hwf1. rewrite E1 in Hwf1. simpl in Hwf1.
  pose proof (booked_row db p (p_CurrentBalance p - amt) t1 (p_TenantID p) tok log
    PoolDrawDirectionDebit amt PoolDrawReasonOverdraft 0 Hp) as Hp1.
  set (db1 := booked _ _ _ _ _ _ _ _ _ _ _) in *.
  set (p1 := set_balance (p_CurrentBalance p - amt) t1 p) in *.
  assert (E2 : TopupPool (p_ID p) (p_TenantID p) topup 0 "" t2 (mkStore db1 []) =
    (Ok (p_CurrentBalance p - amt + topup),
     mkStore (booked db1 p1 (p_CurrentBalance p - amt + topup) t2 (p_TenantID p) 0 0
                PoolDrawDirectionCredit topup PoolDrawReasonTopup 0) [])).
  { unfold TopupPool. rewrite (proj2 (Z.leb_gt _ _)) by lia. unfold transaction. simpl.
    change (p_ID p) with (p_ID p1). rewrite (topupPoolInTx_row db1 p1); auto.
    - replace (fits_ceiling _ _ _) with true; [done|]. symmetry. apply fits_ceiling_spec.
      split; [done|]. right. simpl. lia.
    - pose proof (wf_range _ Hwf p Hp). simpl. unfold64. lia. }
  pose proof (TopupPool_preserves (p_ID p) (p_TenantID p) topup 0 "" t2 (mkStore db1 []) Hwf1)
    as Hwf2. rewrite E2 in Hwf2. simpl in Hwf2.
  pose proof (booked_row db1 p1 (p_CurrentBalance p - amt + topup) t2 (p_TenantID p) 0 0
    PoolDrawDirectionCredit topup PoolDrawReasonTopup 0 Hp1) as Hp2.
  eexists _, _. split; [exact E1|]. split_and!; [|exact E2|].
  - pose proof (gate_row env db1 p1 Hwf1 Hp1 Hne) as G. unfold IsExhausted in G.
    change (IsUnlimited p1) with (IsUnlimited p) in G. rewrite Hlim in G.
    exact (f_equal fst G).
  - pose proof (gate_row env _ _ Hwf2 Hp2 Hne) as G. unfold IsExhausted in G.
    change (IsUnlimited _) with (IsUnlimited p) in G. rewrite Hlim in G.
    exact (f_equal fst G).
Qed.

(** Deleting a pool does not close the gate.  [DeleteCreditPool] lowers the
    ceiling and leaves the balance, so a pool deleted with a positive balance
    answers 200 and still admits relay traffic (its comment says the gate then
    blocks new debits); and the draw it records has no balance change behind
    it, so the pool's draws no longer add up to its balance. *)
Theorem delete_leaves_pool_spendable env db p actor now :
  wf_db (D := no_drift) db -> p ∈ pools db -> p_TenantID p <> "" -> pg_text_ok 36 (p_TenantID p) = true ->
  0 < p_CurrentBalance p ->
  exists s q,
    DeleteCreditPool (p_TenantID p) actor now (mkStore db []) = (Ok (mkResp 200 "" None), s) /\
    q ∈ pools (tables s) /\ p_ID q = p_ID p /\ p_MaxBalance q = 0 /\
    p_CurrentBalance q = p_CurrentBalance p /\
    fst (PoolBalanceCheck env (Some (p_TenantID p)) s) = Ok Next /\
    ledger (p_ID p) (draws (tables s)) = 0.
Proof.
  intros Hwf Hp Hne Ht Hpos. unfold DeleteCreditPool, catch.
  rewrite (GetTenantCreditPool_row (D := no_drift)) by done. rewrite stmt_healthy. rewrite insert_draw_healthy by done.
  eexists _, (set_max 0 now p). split; [done|]. split_and!; [|done..| |].
  - simpl. apply elem_of_update_where. exists p. by rewrite (proj2 (by_id_spec _ _)).
  - unfold PoolBalanceCheck, catch, GetTenantCreditPool, bind, query.
    rewrite (proj2 (String.eqb_neq _ _)) by done. rewrite stmt_healthy. simpl.
    destruct (first_where _ _) as [q|] eqn:E.
    + apply first_where_some in E as [(r & Hr & ->)%elem_of_update_where Hq].
      assert (r = p) as ->.
      { apply (NoDup_fmap_inj p_TenantID (pools db)); [apply Hwf|done|done|].
        apply String.eqb_eq in Hq. by destruct (by_id (p_ID p) r). }
      rewrite (proj2 (by_id_spec _ _)) by done. unfold IsUnlimited, IsExhausted. simpl.
      by rewrite (proj2 (Z.leb_gt _ _)).
    + exfalso. assert (set_max 0 now p ∈ update_where (by_id (p_ID p)) (set_max 0 now) (pools db)) as Hin.
      { apply elem_of_update_where. exists p. by rewrite (proj2 (by_id_spec _ _)). }
      apply (first_where_none _ _ E) in Hin. unfold by_tenant in Hin. simpl in Hin.
      by rewrite String.eqb_refl in Hin.
  - simpl. rewrite ledger_app. simpl. rewrite Z.eqb_refl.
    pose proof (wf_conserved _ Hwf p Hp) as Hled. unfold drift, no_drift in Hled.
    unfold signed, PoolDrawDirectionDebit. simpl. lia.
Qed.

Lemma observe_loop_readonly due now acc : readonly (reset_loop due now false acc).
Proof. revert acc. induction due as [|p due IH]; intros acc s; simpl; [done|]. apply IH. Qed.

Lemma observe_readonly now : readonly (ResetDuePools now false).
Proof.
  intros s. unfold ResetDuePools, catch.
  pose proof (query_readonly (E := pool_err) (fun db => List.filter (is_due now) (pools db)) s) as H.
  destruct (query _ s) as [[due|e] s']; simpl in *; [|done]. by rewrite observe_loop_readonly.
Qed.

(** A reset pass must be switched on to write: for every mode parameter and
    environment value, the endpoint leaves the tables alone under every fault
    schedule unless the parameter is exactly [enforce], or is absent and the
    environment is exactly [enforce]; an unknown parameter is refused with
    400. *)
Theorem reset_needs_enforce mode env now s :
  (mode <> "enforce" -> (mode = "" -> env <> "enforce") ->
   tables (snd (InternalResetDuePools mode env now s)) = tables s) /\
  (mode <> "" -> mode <> "observe" -> mode <> "enforce" ->
   fst (InternalResetDuePools mode env now s) = Ok (fail 400 "", [])).
Proof.
  assert (Hobs : forall m, m <> "enforce" -> readonly (ResetDuePoolsWithMode m now)).
  { intros m Hm. unfold ResetDuePoolsWithMode, normalizeCreditPoolResetMode,
      CreditPoolResetModeEnforce. rewrite (proj2 (String.eqb_neq _ _)) by done.
    apply observe_readonly. }
  unfold InternalResetDuePools, CreditPoolResetModeObserve, CreditPoolResetModeEnforce. split.
  - intros Hm Henv.
    assert (Hrun : forall m, m <> "enforce" -> tables (snd (catch (ResetDuePoolsWithMode m now)
      (fun r => match r with
                | Ok (results, None) => ret (mkResp 200 "" None, results)
                | _ => ret (fail 500 "", []) end) s)) = tables s).
    { intros m Hm'. specialize (Hobs m Hm' s). unfold catch.
      destruct (ResetDuePoolsWithMode m now s) as [[[rs [e|]]|e] s1]; done. }
    destruct (String.eqb_spec mode "") as [->|].
    { apply Hrun. unfold creditPoolResetModeEnv, CreditPoolResetModeEnforce,
        CreditPoolResetModeObserve. destruct (String.eqb_spec env "enforce"); [by destruct Henv|done]. }
    destruct (negb _ && negb _); [done|]. by apply Hrun.
  - intros H1 H2 H3. rewrite !(proj2 (String.eqb_neq _ _)) by done. done.
Qed.

(** ** [formatInt64] *)

(** [formatInt64] and [strconv.Atoi] round-trip for every [int64] but the
    smallest: negating MinInt64 overflows, no digit is written and the result is
    a bare minus sign. *)
Theorem formatInt64_roundtrip n :
  in64 n -> if n =? i64_min then formatInt64 n = "-" else Atoi (formatInt64 n) = Some n.
Proof.
  intros Hn. destruct (Z.eqb_spec n i64_min) as [->|Hmin]; [vm_compute; reflexivity|].
  unfold formatInt64. destruct (Z.eqb_spec n 0) as [->|H0]; [vm_compute; reflexivity|].
  replace (if n <? 0 then wrap64 (- n) else n) with (Z.abs n)
    by (destruct (Z.ltb_spec n 0); [rewrite wrap64_id|]; unfold64; lia).
  rewrite <- (Atoi_signed n) by (done || unfold64; lia). by destruct (n <? 0).
Qed.
End GateProperties.

(** ** Witnesses *)

Section TopupWitnesses.
Import GoStrings CreditPool PoolFunding PoolTopup.

(** A wallet that confirms every debit and refuses every refund. *)
Definition demo_reply (c : wcall Z) : bool :=
  match c with WDebit _ _ _ => true | WCredit _ _ _ => false end.

Definition demo_topup (amount : Z) : response * trace Z * store pooldb :=
  TopupCreditPool (fun a => a) (fun a => a <? 1) demo_reply "acme" (Some (amount, "refill"))
    (Some (7, Some 500)) "key-1" "" "uuid" demo_later (mkStore demo_db []).

Lemma topup_no_free_credit_witness :
  status (fst (fst (demo_topup 30))) = 200 /\
  exists amount reason actorID accountID,
    Some (30, "refill") = Some (amount, reason) /\
    Some (7, Some 500) = Some (actorID, Some accountID) /\
    snd (fst (demo_topup 30)) =
      [(WDebit accountID amount (fst (poolTopupIdempotencyKey "key-1" "" "uuid")), true)].
Proof.
  apply (topup_no_free_credit (fun a : Z => a) (fun a => a <? 1) demo_reply "acme"
    (Some (30, "refill")) (Some (7, Some 500)) "key-1" "" "uuid" demo_later (mkStore demo_db [])
    _ _ (snd (demo_topup 30))).
  - unfold demo_topup. by destruct (TopupCreditPool _ _ _ _ _ _ _ _ _ _ _) as [[? ?] ?].
  - vm_compute. discriminate.
Defined.

(** A top-up over the ceiling whose refund fails: the debit is stranded. *)
Lemma topup_debit_accounted_witness :
  status (fst (fst (demo_topup 90))) = 200 \/
  (WCredit 500 90 ("key-1" +:+ ":revert"), true) ∈ snd (fst (demo_topup 90)) \/
  key_taken "acme" "key-1" (tables (snd (demo_topup 90))) \/
  key_taken "acme" (poolTopupCollisionEventID "key-1") (tables (snd (demo_topup 90))).
Proof.
  apply (topup_debit_accounted (fun a : Z => a) (fun a => a <? 1) demo_reply "acme"
    (Some (90, "refill")) (Some (7, Some 500)) "key-1" "" "uuid" demo_later (mkStore demo_db [])
    _ _ (snd (demo_topup 90)) 500 90 "key-1").
  - reflexivity.
  - reflexivity.
  - reflexivity.
  - unfold demo_topup. by destruct (TopupCreditPool _ _ _ _ _ _ _ _ _ _ _) as [[? ?] ?].
  - vm_compute. left.
Defined.

Lemma PoolBalanceCheck_spec_witness :
  fst (PoolBalanceCheck "enforce" (Some "acme") (mkStore demo_db [])) = Ok Next /\
  fst (PoolBalanceCheck "enforce" (Some "other") (mkStore demo_db [])) =
    Ok (Reject 402 "pool_not_configured").
Proof.
  split.
  - apply (PoolBalanceCheck_spec "enforce" "acme" demo_db demo_wf ltac:(discriminate))
      with (p := demo_pool); [apply demo_in|reflexivity].
  - apply (PoolBalanceCheck_spec "enforce" "other" demo_db demo_wf ltac:(discriminate)).
    intros p Hp. rewrite demo_pools in Hp. apply list_elem_of_singleton in Hp as ->. discriminate.
Defined.

Lemma overdraft_gate_witness :
  exists s1 s2,
    OverdraftDebitPool 1 "acme" 55 3 9 demo_later (mkStore demo_db []) = (Ok (-15), s1) /\
    fst (PoolBalanceCheck "" (Some "acme") s1) = Ok (Reject 402 "pool_exhausted") /\
    TopupPool 1 "acme" 16 0 "" demo_later s1 = (Ok 1, s2) /\
    fst (PoolBalanceCheck "" (Some "acme") s2) = Ok Next.
Proof.
  apply (overdraft_gate "" demo_db demo_pool 55 3 9 demo_later 16 demo_later demo_wf demo_in);
    [discriminate|reflexivity|reflexivity|lia|unfold64; simpl; lia|lia|simpl; lia].
Defined.

Lemma delete_leaves_pool_spendable_witness :
  exists s q,
    DeleteCreditPool "acme" 7 demo_later (mkStore demo_db []) = (Ok (mkResp 200 "" None), s) /\
    q ∈ pools (tables s) /\ p_ID q = 1 /\ p_MaxBalance q = 0 /\ p_CurrentBalance q = 40 /\
    fst (PoolBalanceCheck "" (Some "acme") s) = Ok Next /\
    ledger 1 (draws (tables s)) = 0.
Proof.
  apply (delete_leaves_pool_spendable "" demo_db demo_pool 7 demo_later demo_wf demo_in);
    [discriminate|reflexivity|simpl; lia].
Defined.

Lemma reset_needs_enforce_witness :
  tables (snd (InternalResetDuePools "" "on" demo_later (mkStore demo_db []))) = demo_db.
Proof.
  apply (proj1 (reset_needs_enforce "" "on" demo_later (mkStore demo_db []))); discriminate.
Defined.

Lemma formatInt64_roundtrip_witness : Atoi (formatInt64 (-120)) = Some (-120).
Proof. apply (formatInt64_roundtrip (-120)). unfold64. lia. Defined.
End TopupWitnesses.
