(* ===== verification/QuotaCharge.v ===== *)
(** * Charging a relay request

    Model of the money path of a request: internal/app/pre_consume_quota.go
    (admission and pre-deduction), internal/app/quota.go ([PreConsumeTokenQuota],
    [PostConsumeQuota]), internal/app/quota_settle.go (the platform wallet leg),
    internal/app/quota_pool.go (the tenant pool leg), internal/app/tenant_quota.go
    and internal/app/project_budget.go (the monthly gates).

    The state of a request is a [world]: the local ledger, the pool tables, the
    outboxes, the billing breaker, the fields of RelayInfo the path writes, and
    the wallet calls made.  What the request reads from elsewhere (the gin
    context, flags, Redis, the platform's answers, the clock) is an [env].

    Background closures run at the point that starts them.  Metrics, logs, e-mails,
    threshold alerts, usage reports and the rate windows move no money and are
    left out, as are the reads made only to word an error message. *)

From Stdlib Require Import SpecFloat.
From stdpp Require Import pretty.
From S2P Require Import Prelude GoStrings Calendar PlatformBilling Outbox Ledger CreditPool.

Module QuotaCharge.
Import GoStrings Calendar PlatformBilling Outbox Ledger CreditPool.

(** ** State *)

(** The fields of RelayInfo that identify the request. *)
Record RelayInfo := mkRelay {
  UserId : Z;
  TokenId : Z;
  TokenUnlimited : bool;
  IsPlayground : bool;
  IdentityAccountID : Z;
  ProjectId : Z;
  SourceProduct : string
}.

(** The fields of RelayInfo that the money path writes. *)
Record progress := mkProgress {
  PlatformPreAuthID : Z;
  PlatformGoverned : bool;
  WalletAuthoritative : bool;
  FinalPreConsumedQuota : Z;
  UserQuota : Z;
  WalletChargeCNY4 : Z
}.

Definition set_preauth (id : Z) (r : progress) : progress :=
  mkProgress id (PlatformGoverned r) (WalletAuthoritative r) (FinalPreConsumedQuota r)
    (UserQuota r) (WalletChargeCNY4 r).
Definition set_governed (r : progress) : progress :=
  mkProgress (PlatformPreAuthID r) true (WalletAuthoritative r) (FinalPreConsumedQuota r)
    (UserQuota r) (WalletChargeCNY4 r).
Definition set_authoritative (r : progress) : progress :=
  mkProgress (PlatformPreAuthID r) (PlatformGoverned r) true (FinalPreConsumedQuota r)
    (UserQuota r) (WalletChargeCNY4 r).
Definition set_final (q : Z) (r : progress) : progress :=
  mkProgress (PlatformPreAuthID r) (PlatformGoverned r) (WalletAuthoritative r) q
    (UserQuota r) (WalletChargeCNY4 r).
Definition set_user_quota (q : Z) (r : progress) : progress :=
  mkProgress (PlatformPreAuthID r) (PlatformGoverned r) (WalletAuthoritative r)
    (FinalPreConsumedQuota r) q (WalletChargeCNY4 r).
Definition set_charge (c : Z) (r : progress) : progress :=
  mkProgress (PlatformPreAuthID r) (PlatformGoverned r) (WalletAuthoritative r)
    (FinalPreConsumedQuota r) (UserQuota r) c.

(** Calls that reached the platform, and movements nothing will retry. *)
Inductive event :=
| EvPreAuth (accountID : Z) (amountLB : float64) (answer : result goerr Z)
| EvSettle (preAuthID : Z) (amountLB : float64) (ok : bool)
| EvRelease (preAuthID : Z) (ok : bool)
| EvDebit (accountID : Z) (amountLB : float64) (refID : string) (ok : bool)
| EvLost (stage : string) (accountID preAuthID : Z).

Record world := mkWorld {
  led : ledgerdb;
  pool : pooldb;
  box : outboxdb;
  brk : platformBreaker;
  rel : progress;
  trace : list event
}.

(** A monthly gate: its switch, the cap the lookup found and the spend the query
    summed, [None] standing for a failed read. *)
Record gate := mkGate {
  g_enabled : bool;
  g_cap : option Z;
  g_used : option Z
}.

Record env := mkEnv {
  now : Z;
  unified : bool;               (* BillingUnifiedEnabled *)
  advisory_flag : bool;         (* LocalLedgerAdvisory *)
  batch : bool;                 (* BatchUpdateEnabled *)
  outbox_ready : bool;          (* billingOutboxDB != nil *)
  configured : bool;            (* IdentityServiceURL is set *)
  tenantID : string;            (* the gin context's tenant_id *)
  token_quota : Z;              (* the gin context's token_quota *)
  wallet_authoritative : bool;  (* TenantWalletAuthoritative(tenant_id) *)
  cached_quota : option Z;      (* the user quota in Redis *)
  exchange : rates;
  skip_enabled : bool;          (* BILLING_WALLET_TRUST_SKIP_PREAUTH *)
  cached_balance : option float64;
  spend_cap : float64;
  spend_current : option float64;
  spend_incr_ok : bool;
  tenant_gate : gate;
  project_gate : gate;
  canceled : bool;              (* the request's context was canceled *)
  preauth_reply : http;
  settle_reply : http;
  release_reply : http;
  debit_reply : option goerr;
  uuid : string
}.

(** ** Computations on the world *)

Definition C (A : Type) : Type := store world -> A * store world.

Definition cret {A} (a : A) : C A := fun s => (a, s).
Definition cbind {A B} (m : C A) (k : A -> C B) : C B := fun s => let (a, s') := m s in k a s'.

Notation "'do' x '<-' m ';' k" := (cbind m (fun x => k))
  (at level 10, x pattern, m at level 100, k at level 200) : hub_scope.

Definition modify (f : world -> world) : C unit :=
  fun s => (tt, mkStore (f (tables s)) (faults s)).
Definition get_rel : C progress := fun s => (rel (tables s), s).

Definition set_led (l : ledgerdb) (w : world) : world :=
  mkWorld l (pool w) (box w) (brk w) (rel w) (trace w).
Definition set_pool (p : pooldb) (w : world) : world :=
  mkWorld (led w) p (box w) (brk w) (rel w) (trace w).
Definition set_box (o : outboxdb) (w : world) : world :=
  mkWorld (led w) (pool w) o (brk w) (rel w) (trace w).
Definition set_brk (b : platformBreaker) (w : world) : world :=
  mkWorld (led w) (pool w) (box w) b (rel w) (trace w).
Definition set_rel (r : progress) (w : world) : world :=
  mkWorld (led w) (pool w) (box w) (brk w) r (trace w).
Definition add_event (ev : event) (w : world) : world :=
  mkWorld (led w) (pool w) (box w) (brk w) (rel w) (trace w ++ [ev]).

Definition on_rel (f : progress -> progress) : C unit := modify (fun w => set_rel (f (rel w)) w).
Definition emit (ev : event) : C unit := modify (add_event ev).

(** Run a computation on one component; its error is a value here. *)
Definition lift {T E A} (get : world -> T) (put : T -> world -> world) (m : M T E A)
    : C (result E A) :=
  fun s =>
    let (r, s') := m (mkStore (get (tables s)) (faults s)) in
    (r, mkStore (put (tables s') (tables s)) (faults s')).

Definition on_led {A} (m : L A) : C (result ledger_err A) := lift led set_led m.
Definition on_pool {A} (m : P A) : C (result pool_err A) := lift pool set_pool m.
Definition on_box {A} (m : B A) : C (result outbox_err A) := lift box set_box m.

(** A platform call through the breaker, recorded if it was made. *)
Definition call {A} (e : env) (canc : bool) (reply : result goerr A) (ev : bool -> event)
    : C (result goerr A) :=
  fun s =>
    let '(r, called, b) := with_breaker reply canc (now e) (now e) (brk (tables s)) in
    let w := set_brk b (tables s) in
    (r, mkStore (if called then add_event (ev (is_ok r)) w else w) (faults s)).

(** ** The holds *)

Definition releasePlatformPreAuth (e : env) (info : RelayInfo) : C unit :=
  do r <- get_rel;
  let id := PlatformPreAuthID r in
  if id <=? 0 then cret tt
  else
    do ans <- call e false (ReleasePreAuth (configured e) (release_reply e)) (EvRelease id);
    match ans with
    | Ok _ => cret tt
    | Err _ =>
        do parked <- on_box (EnqueueRelease (outbox_ready e) (IdentityAccountID info) id (now e));
        match parked with
        | Ok _ => cret tt
        | Err _ => emit (EvLost "preauth_release" (IdentityAccountID info) id)
        end
    end.

Definition abandonPreAuth (e : env) (info : RelayInfo) : C unit :=
  do r <- get_rel;
  if PlatformPreAuthID r <=? 0 then cret tt
  else
    do _ <- releasePlatformPreAuth e info;
    on_rel (set_preauth 0).

Definition settleOrPark (e : env) (accountID : Z) (amountLB : float64) : C unit :=
  do r <- get_rel;
  let id := PlatformPreAuthID r in
  do ans <- call e false (SettlePreAuth (configured e) (settle_reply e)) (EvSettle id amountLB);
  do _ <- on_rel (set_charge (CNYToUnits4 amountLB));
  do _ <- match ans with
          | Ok _ => cret tt
          | Err _ =>
              do parked <- on_box (EnqueueSettle (outbox_ready e) accountID id amountLB (now e));
              match parked with
              | Ok _ => cret tt
              | Err _ => emit (EvLost "settle" accountID id)
              end
          end;
  on_rel (set_preauth 0).

Definition DefaultSourceProduct : string := "llm-api".

Definition sourceProductOf (info : RelayInfo) : string :=
  if String.eqb (SourceProduct info) "" then DefaultSourceProduct else SourceProduct info.

(** The debit without a hold; [debitWalletGRPC] does not go through the breaker. *)
Definition legacyDebit (e : env) (info : RelayInfo) (accountID : Z) (amountLB : float64) : C unit :=
  let refID := "llm-usage:" +:+ uuid e in
  let desc := "relay userId=" +:+ pretty (UserId info) in
  do _ <- emit (EvDebit accountID amountLB refID (bool_decide (debit_reply e = None)));
  match debit_reply e with
  | None => cret tt
  | Some _ =>
      do parked <- on_box (EnqueueDebit (outbox_ready e) accountID amountLB "llm_usage" desc
                             (sourceProductOf info) refID (now e));
      match parked with
      | Ok _ => cret tt
      | Err _ => emit (EvLost "debit" accountID 0)
      end
  end.

Definition settlePlatformWallet (e : env) (info : RelayInfo) (totalQuota preConsumedQuota : Z)
    (localQuotaConsistent advisory : bool) : C unit :=
  do r <- get_rel;
  let acct := IdentityAccountID info in
  if (acct >? 0) && (totalQuota >? 0) then
    let amountLB := QuotaToCNY (exchange e) totalQuota in
    if PlatformPreAuthID r >? 0 then
      if negb localQuotaConsistent && negb advisory then abandonPreAuth e info
      else settleOrPark e acct amountLB
    else if localQuotaConsistent || advisory then
      do _ <- on_rel (set_charge (CNYToUnits4 amountLB));
      legacyDebit e info acct amountLB
    else cret tt
  else if (acct >? 0) && (totalQuota <=? 0) && (preConsumedQuota >? 0) &&
          (PlatformPreAuthID r >? 0)
  then abandonPreAuth e info
  else cret tt.

(** ** The tenant pool *)

(** Whether a debit was recorded. *)
Definition debitTenantPool (e : env) (info : RelayInfo) (quota : Z) : C bool :=
  do tok <- on_led (GetTokenById (TokenId info));
  match tok with
  | Err _ => cret false
  | Ok k =>
      if String.eqb (k_TenantID k) "" then cret false
      else
        do got <- on_pool (GetTenantCreditPool (k_TenantID k));
        match got with
        | Err _ => cret false
        | Ok p =>
            if IsUnlimited p then cret false
            else
              do d <- on_pool (DebitPool (p_ID p) (k_TenantID k) quota (TokenId info) 0 (now e));
              match d with
              | Ok _ => cret true
              | Err ErrPoolExhausted =>
                  do o <- on_pool (OverdraftDebitPool (p_ID p) (k_TenantID k) quota (TokenId info)
                                     0 (now e));
                  cret (is_ok o)
              | Err _ => cret false
              end
        end
  end.

Definition creditTenantPool (e : env) (info : RelayInfo) (quota : Z) (rsn : string) : C unit :=
  do tok <- on_led (GetTokenById (TokenId info));
  match tok with
  | Err _ => cret tt
  | Ok k =>
      if String.eqb (k_TenantID k) "" then cret tt
      else
        do _ <- on_pool (CreditPoolAdjustment (k_TenantID k) quota rsn (now e));
        cret tt
  end.

(** ** After the request *)

(** The user leg of a charge of [quota]: a debit, or a credit of the opposite. *)
Definition user_leg (e : env) (info : RelayInfo) (quota : Z) : C (result ledger_err unit) :=
  if quota >? 0 then on_led (DecreaseUserQuota (batch e) (UserId info) quota)
  else on_led (IncreaseUserQuota (batch e) (UserId info) (wrap64 (- quota)) false).

Definition token_leg (e : env) (info : RelayInfo) (quota : Z) : C (result ledger_err unit) :=
  if quota >? 0 then on_led (DecreaseTokenQuota (batch e) (TokenId info) quota (time_Unix (now e)))
  else on_led (IncreaseTokenQuota (batch e) (TokenId info) (wrap64 (- quota)) (time_Unix (now e))).

(** Phase 3's undoing of phase 1; its own failure is only logged. *)
Definition compensate_user (e : env) (info : RelayInfo) (quota : Z) : C unit :=
  do _ <- if quota >? 0 then on_led (IncreaseUserQuota (batch e) (UserId info) quota false)
          else on_led (DecreaseUserQuota (batch e) (UserId info) (wrap64 (- quota)));
  cret tt.

(** Phase 2.5. *)
Definition pool_phase (e : env) (info : RelayInfo) (total : Z) : C bool :=
  if (total >? 0) && (TokenId info >? 0) then debitTenantPool e info total else cret false.

(** Phase 3: [None], or the error of the token write, compensated. *)
Definition token_phase (e : env) (info : RelayInfo) (quota total : Z) (poolDebited : bool)
    : C (option ledger_err) :=
  if negb (IsPlayground info) && (TokenId info >? 0) then
    do w <- token_leg e info quota;
    match w with
    | Ok _ => cret None
    | Err err =>
        do _ <- if UserId info >? 0 then compensate_user e info quota else cret tt;
        do _ <- if poolDebited then creditTenantPool e info total "token_write" else cret tt;
        cret (Some err)
    end
  else cret None.

(** Everything after the user write. *)
Definition post_phases (e : env) (info : RelayInfo) (quota preConsumedQuota : Z) (advisory : bool)
    : C (option ledger_err) :=
  let total := i64_add quota preConsumedQuota in
  do _ <- if (UserId info >? 0) && (total >? 0)
          then on_led (PostConsumeDailyQuota (UserId info) total (time_Unix (now e)))
          else cret (Ok tt);
  do poolDebited <- pool_phase e info total;
  do terr <- token_phase e info quota total poolDebited;
  let consistent := match terr with None => true | Some _ => false end in
  do _ <- settlePlatformWallet e info total preConsumedQuota consistent advisory;
  cret (if negb consistent && negb advisory then terr else None).

(** [None] is a nil error. *)
Definition PostConsumeQuota (e : env) (info : RelayInfo) (quota preConsumedQuota : Z)
    : C (option ledger_err) :=
  do r <- get_rel;
  let advisory := PlatformGoverned r && (advisory_flag e || WalletAuthoritative r) in
  if UserId info >? 0 then
    do w <- user_leg e info quota;
    match w with
    | Err err => if negb advisory then cret (Some err)
                 else post_phases e info quota preConsumedQuota advisory
    | Ok _ => post_phases e info quota preConsumedQuota advisory
    end
  else post_phases e info quota preConsumedQuota advisory.

Definition ReturnPreConsumedQuota (e : env) (info : RelayInfo) : C unit :=
  do r <- get_rel;
  do _ <- if negb (FinalPreConsumedQuota r =? 0)
          then PostConsumeQuota e info (wrap64 (- FinalPreConsumedQuota r)) 0
          else cret None;
  abandonPreAuth e info.

(** ** Before the request *)

Inductive ErrorCode :=
| ErrorCodeQueryDataError
| ErrorCodeInsufficientUserQuota
| ErrorCodeBillingUnavailable
| ErrorCodeTenantQuotaExceeded
| ErrorCodeProjectBudgetExceeded
| ErrorCodeTokenQuotaExhausted
| ErrorCodeUpdateDataError.

Record NewAPIError := mkAPIError {
  errorCode : ErrorCode;
  StatusCode : Z;
  RetryAfterUnix : Z;
  TopupURL : string
}.

Definition StatusInternalServerError : Z := 500.
Definition StatusServiceUnavailable : Z := 503.

Definition insufficientUserQuotaError : NewAPIError :=
  mkAPIError ErrorCodeInsufficientUserQuota StatusPaymentRequired 0 "".

Definition billingUnavailableRetryAfter : Z := 5 * second.

Definition preAuthFailure (now : Z) (err : goerr) : NewAPIError :=
  if is_insufficient err then
    mkAPIError ErrorCodeInsufficientUserQuota StatusPaymentRequired 0 (PlatformBilling.PlatformTopupURL err)
  else match as_rejected err with
  | Some _ => mkAPIError ErrorCodeInsufficientUserQuota StatusPaymentRequired 0 ""
  | None => mkAPIError ErrorCodeBillingUnavailable StatusServiceUnavailable
              (time_Unix (time_Add now billingUnavailableRetryAfter)) ""
  end.

Definition nextMonthStartUnix (now : Z) : Z :=
  let z := day_of now in time_Unix (midnight (Date (year z) (month z + 1) 1)).

(** The comparison the two monthly gates share. *)
Definition over_cap (g : gate) (requested : Z) : bool :=
  match g_cap g with
  | None => false
  | Some cap =>
      if cap <=? 0 then false
      else match g_used g with
           | None => false
           | Some used => i64_add used requested >? cap
           end
  end.

Definition enforceTenantQuota (e : env) (requested : Z) : option NewAPIError :=
  if negb (g_enabled (tenant_gate e)) || String.eqb (tenantID e) "" then None
  else if over_cap (tenant_gate e) requested
  then Some (mkAPIError ErrorCodeTenantQuotaExceeded StatusPaymentRequired
               (nextMonthStartUnix (now e)) "")
  else None.

Definition enforceProjectBudget (e : env) (projectID requested : Z) : option NewAPIError :=
  if negb (g_enabled (project_gate e)) || (projectID =? 0) || String.eqb (tenantID e) "" then None
  else if over_cap (project_gate e) requested
  then Some (mkAPIError ErrorCodeProjectBudgetExceeded StatusPaymentRequired
               (nextMonthStartUnix (now e)) "")
  else None.

Inductive token_err := ErrTokenQuotaInsufficient | TokenErr (err : ledger_err).

Definition PreConsumeTokenQuota (e : env) (info : RelayInfo) (quota : Z)
    : C (result token_err unit) :=
  let of_write (w : result ledger_err unit) : result token_err unit :=
    match w with Ok _ => Ok tt | Err err => Err (TokenErr err) end in
  if quota <? 0 then cret (Err (TokenErr ErrNegative))
  else if IsPlayground info then cret (Ok tt)
  else if TokenUnlimited info then
    do w <- on_led (DecreaseTokenQuota (batch e) (TokenId info) quota (time_Unix (now e)));
    cret (of_write w)
  else
    do w <- on_led (DecreaseTokenQuotaIfEnough (TokenId info) quota (time_Unix (now e)));
    cret match w with
         | Err err => Err (TokenErr err)
         | Ok false => Err ErrTokenQuotaInsufficient
         | Ok true => Ok tt
         end.

Definition rollbackTokenFreeze (e : env) (info : RelayInfo) (quota : Z) : C unit :=
  do _ <- on_led (IncreaseTokenQuota (batch e) (TokenId info) quota (time_Unix (now e)));
  cret tt.

Definition platformPreAuthorize (e : env) (estimatedQuota : Z) (info : RelayInfo)
    : C (option NewAPIError) :=
  let estimatedLB := QuotaToCNY (exchange e) estimatedQuota in
  if ShouldSkipPreAuth (skip_enabled e) (cached_balance e) estimatedLB then
    do _ <- on_rel set_governed; cret None
  else
    let reply := PreAuthorize (configured e) (preauth_reply e) in
    do ans <- call e (canceled e) reply (fun _ => EvPreAuth (IdentityAccountID info) estimatedLB reply);
    match ans with
    | Err err => fun s =>
        if TryDegradedPreAuth (brk (tables s)) (cached_balance e) (spend_cap e) (spend_current e)
             (spend_incr_ok e) estimatedLB (Some err)
        then (do _ <- on_rel set_governed; cret None) s
        else (Some (preAuthFailure (now e) err), s)
    | Ok id =>
        do _ <- on_rel (fun r => set_governed (set_preauth id r)); cret None
    end.

(** A refusal after the hold: release it, then answer. *)
Definition refuse (e : env) (info : RelayInfo) (err : NewAPIError) : C (option NewAPIError) :=
  do _ <- abandonPreAuth e info; cret (Some err).

(** The local pre-deduction of [pre > 0] and the recording of what was taken. *)
Definition pre_deduct (e : env) (info : RelayInfo) (pre : Z) (advisory : bool)
    : C (option NewAPIError) :=
  do w <- PreConsumeTokenQuota e info pre;
  match w with
  | Err err =>
      match err, advisory with
      | TokenErr _, true => do _ <- on_rel (set_final 0); cret None
      | ErrTokenQuotaInsufficient, _ =>
          refuse e info (mkAPIError ErrorCodeTokenQuotaExhausted StatusPaymentRequired 0 "")
      | TokenErr _, false =>
          refuse e info (mkAPIError ErrorCodeUpdateDataError StatusInternalServerError 0 "")
      end
  | Ok _ =>
      if UserId info =? 0 then do _ <- on_rel (set_final pre); cret None
      else if advisory then
        do u <- on_led (DecreaseUserQuota (batch e) (UserId info) pre);
        match u with
        | Ok _ => do _ <- on_rel (set_final pre); cret None
        | Err _ =>
            do _ <- rollbackTokenFreeze e info pre;
            do _ <- on_rel (set_final 0); cret None
        end
      else
        do u <- on_led (DecreaseUserQuotaIfEnough (UserId info) pre);
        match u with
        | Ok true => do _ <- on_rel (set_final pre); cret None
        | Ok false =>
            do _ <- rollbackTokenFreeze e info pre;
            refuse e info insufficientUserQuotaError
        | Err _ =>
            do _ <- rollbackTokenFreeze e info pre;
            refuse e info (mkAPIError ErrorCodeUpdateDataError StatusInternalServerError 0 "")
        end
  end.

(** The gates after the balance check, and the trust shortcut. *)
Definition pre_gates (e : env) (info : RelayInfo) (pre userQuota : Z) (advisory : bool)
    : C (option NewAPIError) :=
  match enforceTenantQuota e pre with
  | Some err => refuse e info err
  | None =>
      match enforceProjectBudget e (ProjectId info) pre with
      | Some err => refuse e info err
      | None =>
          let trustQuota := GetTrustQuota (exchange e) in
          do _ <- on_rel (set_user_quota userQuota);
          let pre := if (userQuota >? trustQuota) &&
                        (TokenUnlimited info || (token_quota e >? trustQuota)) then 0 else pre in
          if pre >? 0 then pre_deduct e info pre advisory
          else do _ <- on_rel (set_final pre); cret None
      end
  end.

(** From the hold on. *)
Definition pre_local (e : env) (pre : Z) (info : RelayInfo) : C (option NewAPIError) :=
  do r <- get_rel;
  let global := advisory_flag e && PlatformGoverned r in
  let per_tenant := negb global && PlatformGoverned r && wallet_authoritative e in
  do _ <- if per_tenant then on_rel set_authoritative else cret tt;
  let advisory := global || per_tenant in
  if UserId info =? 0 then pre_gates e info pre 0 advisory
  else
    do got <- on_led (GetUserQuota (UserId info) (cached_quota e));
    match got with
    | Err _ => cret (Some (mkAPIError ErrorCodeQueryDataError StatusInternalServerError 0 ""))
    | Ok userQuota =>
        if ((userQuota <=? 0) || (i64_sub userQuota pre <? 0)) && negb advisory
        then refuse e info insufficientUserQuotaError
        else pre_gates e info pre userQuota advisory
    end.

Definition PreConsumeQuota (e : env) (pre : Z) (info : RelayInfo) : C (option NewAPIError) :=
  do r <- get_rel;
  if PlatformPreAuthID r >? 0 then
    do _ <- on_rel set_governed; pre_local e pre info
  else if unified e && (IdentityAccountID info >? 0) && (pre >? 0) then
    do refused <- platformPreAuthorize e pre info;
    match refused with
    | Some err => cret (Some err)
    | None => pre_local e pre info
    end
  else pre_local e pre info.

End QuotaCharge.
