(* ===== verification/QuotaChargeSpec.v ===== *)
(** * What charging a request guarantees

    Theorems on the computations of QuotaCharge: what a request costs, when it is
    refused, and what becomes of its hold. *)

From Stdlib Require Import SpecFloat.
From S2P Require Import Prelude GoStrings Calendar PlatformBilling Outbox Ledger CreditPool QuotaCharge.

(** Equality of tuples of integers. *)
Ltac pair_eq := repeat match goal with |- (_, _) = (_, _) => f_equal end; try lia.

(** ** Views of the ledger *)

Section LedgerViews.
Import GoStrings Ledger.
Implicit Types (u : User) (k : Token) (db : ledgerdb).

(** The columns a charge moves, with the row's identity. *)
Definition ubal u : Z * bool * Z := (u_ID u, u_Deleted u, u_Quota u).
Definition kbal k : Z * bool * Z * Z := (k_ID k, k_Deleted k, k_RemainQuota k, k_UsedQuota k).
Definition uview db := ubal <$> users db.
Definition kview db := kbal <$> tokens db.

Definition ucharge (id a : Z) (r : Z * bool * Z) : Z * bool * Z :=
  let '(i, d, q) := r in (i, d, if (i =? id) && negb d then q - a else q).
Definition kcharge (id a : Z) (r : Z * bool * Z * Z) : Z * bool * Z * Z :=
  let '(i, d, q, u) := r in
  if (i =? id) && negb d then (i, d, q - a, u + a) else (i, d, q, u).

Lemma ucharge_compose id a b (l : list (Z * bool * Z)) :
  ucharge id a <$> (ucharge id b <$> l) = ucharge id (a + b) <$> l.
Proof.
  rewrite <- list_fmap_compose. apply list_fmap_ext. intros n [[i d] q] _. unfold compose, ucharge.
  destruct (_ && _); pair_eq.
Qed.

Lemma kcharge_compose id a b (l : list (Z * bool * Z * Z)) :
  kcharge id a <$> (kcharge id b <$> l) = kcharge id (a + b) <$> l.
Proof.
  rewrite <- list_fmap_compose. apply list_fmap_ext. intros n [[[i d] q] u] _. unfold compose, kcharge.
  destruct ((i =? id) && negb d) eqn:E; cbn; rewrite E; [|done]. pair_eq.
Qed.

Lemma ucharge_0 id (l : list (Z * bool * Z)) : ucharge id 0 <$> l = l.
Proof.
  rewrite <- (list_fmap_id l) at 2. apply list_fmap_ext. intros n [[i d] q] _. cbn.
  destruct (_ && _); pair_eq.
Qed.

Lemma kcharge_0 id (l : list (Z * bool * Z * Z)) : kcharge id 0 <$> l = l.
Proof.
  rewrite <- (list_fmap_id l) at 2. apply list_fmap_ext. intros n [[[i d] q] u] _. cbn.
  destruct (_ && _); [|done]. by rewrite Z.sub_0_r, Z.add_0_r.
Qed.

(** A write of the users that adds [delta] to the rows of [cond], which are all
    the live rows of [id]. *)
Lemma update_users_view cond delta id (s s' : store ledgerdb) n :
  update_users cond delta s = (Ok n, s') ->
  (forall u, u ∈ users (tables s) -> cond u = user_is id u) ->
  uview (tables s') = ucharge id (- delta) <$> uview (tables s) /\
  kview (tables s') = kview (tables s).
Proof.
  intros H%stmt_ok Hc. case_match; [|discriminate]. injection H as <- H. rewrite <- H.
  split; [|done]. unfold uview, set_users, update_where. cbn [users].
  rewrite <- !list_fmap_compose. apply list_fmap_ext. intros i u Hu. unfold compose.
  apply list_elem_of_lookup_2 in Hu. rewrite (Hc u Hu). unfold user_is, ubal, ucharge.
  destruct ((u_ID u =? id) && negb (u_Deleted u)); cbn; pair_eq.
Qed.

Lemma update_tokens_view cond delta now id (s s' : store ledgerdb) n :
  update_tokens cond delta now s = (Ok n, s') ->
  (forall k, k ∈ tokens (tables s) -> cond k = token_is id k) ->
  kview (tables s') = kcharge id (- delta) <$> kview (tables s) /\
  uview (tables s') = uview (tables s).
Proof.
  intros H%stmt_ok Hc. case_match; [|discriminate]. injection H as <- H. rewrite <- H.
  split; [|done]. unfold kview, set_tokens, update_where. cbn [tokens].
  rewrite <- !list_fmap_compose. apply list_fmap_ext. intros i k Hk. unfold compose.
  apply list_elem_of_lookup_2 in Hk. rewrite (Hc k Hk). unfold token_is, kbal, kcharge.
  destruct ((k_ID k =? id) && negb (k_Deleted k)); cbn; [|done]. pair_eq.
Qed.

(** The net charge of a successful direct write. *)
Lemma DecreaseUserQuota_view id q (s s' : store ledgerdb) x :
  DecreaseUserQuota false id q s = (Ok x, s') ->
  uview (tables s') = ucharge id q <$> uview (tables s) /\ kview (tables s') = kview (tables s).
Proof.
  unfold DecreaseUserQuota, decreaseUserQuota. destruct (q <? 0); [discriminate|]. intros H.
  apply bind_ok in H as (n & s1 & H & [= _ <-]).
  apply (update_users_view _ _ id) in H; [|done]. by rewrite Z.opp_involutive in H.
Qed.

Lemma IncreaseUserQuota_view id q (s s' : store ledgerdb) x :
  IncreaseUserQuota false id q false s = (Ok x, s') ->
  uview (tables s') = ucharge id (- q) <$> uview (tables s) /\ kview (tables s') = kview (tables s).
Proof.
  unfold IncreaseUserQuota, increaseUserQuota. destruct (q <? 0); [discriminate|]. intros H.
  apply bind_ok in H as (n & s1 & H & [= _ <-]). by apply (update_users_view _ _ id) in H.
Qed.

Lemma DecreaseTokenQuota_view id q now (s s' : store ledgerdb) x :
  DecreaseTokenQuota false id q now s = (Ok x, s') ->
  kview (tables s') = kcharge id q <$> kview (tables s) /\ uview (tables s') = uview (tables s).
Proof.
  unfold DecreaseTokenQuota, decreaseTokenQuota. destruct (q <? 0); [discriminate|]. intros H.
  apply bind_ok in H as (n & s1 & H & [= _ <-]).
  apply (update_tokens_view _ _ _ id) in H; [|done]. by rewrite Z.opp_involutive in H.
Qed.

Lemma IncreaseTokenQuota_view id q now (s s' : store ledgerdb) x :
  IncreaseTokenQuota false id q now s = (Ok x, s') ->
  kview (tables s') = kcharge id (- q) <$> kview (tables s) /\ uview (tables s') = uview (tables s).
Proof.
  unfold IncreaseTokenQuota, increaseTokenQuota. destruct (q <? 0); [discriminate|]. intros H.
  apply bind_ok in H as (n & s1 & H & [= _ <-]). by apply (update_tokens_view _ _ _ id) in H.
Qed.

(** The live row of a user or a token is unique. *)
Definition unique_ids db : Prop :=
  NoDup (u_ID <$> users db) /\ NoDup (k_ID <$> tokens db).

Lemma DecreaseUserQuotaIfEnough_view id q (s s' : store ledgerdb) :
  NoDup (u_ID <$> users (tables s)) ->
  DecreaseUserQuotaIfEnough id q s = (Ok true, s') ->
  uview (tables s') = ucharge id q <$> uview (tables s) /\ kview (tables s') = kview (tables s).
Proof.
  intros Hnd. unfold DecreaseUserQuotaIfEnough. destruct (q <? 0); [discriminate|]. intros H.
  apply bind_ok in H as (n & s1 & H & [= Hn <-]).
  pose proof H as Hn'. apply stmt_ok in Hn'. case_match; [|discriminate]. injection Hn' as <- _.
  assert (Hpos : affected (fun u => user_is id u && (u_Quota u >=? q)) (users (tables s)) <> 0%nat).
  { intros E. by rewrite E in Hn. }
  apply affected_neq_0 in Hpos as (u0 & Hu0 & [Hi0 Hq0]%andb_true_iff).
  apply (update_users_view _ _ id) in H; [by rewrite Z.opp_involutive in H|].
  intros u Hu. destruct (user_is id u) eqn:E; [|done]. simpl.
  assert (u = u0) as ->; [|done].
  apply (NoDup_fmap_inj u_ID (users (tables s))); [done..|].
  unfold user_is in *. bool_to_prop. lia.
Qed.

Lemma DecreaseTokenQuotaIfEnough_view id q now (s s' : store ledgerdb) :
  NoDup (k_ID <$> tokens (tables s)) ->
  DecreaseTokenQuotaIfEnough id q now s = (Ok true, s') ->
  kview (tables s') = kcharge id q <$> kview (tables s) /\ uview (tables s') = uview (tables s).
Proof.
  intros Hnd. unfold DecreaseTokenQuotaIfEnough. destruct (q <? 0); [discriminate|]. intros H.
  apply bind_ok in H as (n & s1 & H & [= Hn <-]).
  pose proof H as Hn'. apply stmt_ok in Hn'. case_match; [|discriminate]. injection Hn' as <- _.
  assert (Hpos : affected (fun k => token_is id k && (k_RemainQuota k >=? q)) (tokens (tables s)) <> 0%nat).
  { intros E. by rewrite E in Hn. }
  apply affected_neq_0 in Hpos as (k0 & Hk0 & [Hi0 Hq0]%andb_true_iff).
  apply (update_tokens_view _ _ _ id) in H; [by rewrite Z.opp_involutive in H|].
  intros k Hk. destruct (token_is id k) eqn:E; [|done]. simpl.
  assert (k = k0) as ->; [|done].
  apply (NoDup_fmap_inj k_ID (tokens (tables s))); [done..|].
  unfold token_is in *. bool_to_prop. lia.
Qed.
End LedgerViews.

(** ** What a computation leaves alone *)

Section Keeps.
Import GoStrings PlatformBilling Outbox Ledger CreditPool QuotaCharge.

(** A computation that never changes the observation [f]. *)
Definition keeps {X A} (f : world -> X) (m : C A) : Prop :=
  forall s, f (tables (snd (m s))) = f (tables s).

Definition lkeeps {X A} (f : ledgerdb -> X) (m : L A) : Prop :=
  forall s, f (tables (snd (m s))) = f (tables s).

Context {X : Type} (f : world -> X).

Lemma keeps_ret {A} (a : A) : keeps f (cret a).
Proof. by intros s. Qed.

Lemma keeps_bind {A B} (m : C A) (k : A -> C B) :
  keeps f m -> (forall a, keeps f (k a)) -> keeps f (cbind m k).
Proof.
  intros Hm Hk s. unfold cbind. specialize (Hm s). destruct (m s) as [a s1]. cbn in *.
  by rewrite Hk.
Qed.

Lemma keeps_get_rel : keeps f get_rel.
Proof. by intros s. Qed.

Lemma keeps_modify g : (forall w, f (g w) = f w) -> keeps f (modify g).
Proof. intros H s. apply H. Qed.

Lemma keeps_lift {T E A} get put (m : M T E A) :
  (forall t w, f (put t w) = f w) -> keeps f (lift get put m).
Proof. intros H s. unfold lift. destruct (m _) as [r s']. apply H. Qed.

Lemma keeps_call {A} e canc (reply : result goerr A) ev :
  (forall b w, f (set_brk b w) = f w) -> (forall v w, f (add_event v w) = f w) ->
  keeps f (call e canc reply ev).
Proof.
  intros H1 H2 s. unfold call. destruct (with_breaker _ _ _ _ _) as [[r called] b]. cbn.
  destruct called; by rewrite ?H2, H1.
Qed.

Lemma keeps_on_led {A} (g : ledgerdb -> X) (m : L A) :
  (forall w, f w = g (led w)) -> lkeeps g m -> keeps f (on_led m).
Proof.
  intros Hf Hm s. unfold on_led, lift. specialize (Hm (mkStore (led (tables s)) (faults s))).
  destruct (m _) as [r s']. cbn in *. by rewrite !Hf.
Qed.
End Keeps.

Create HintDb charge.

(** The branches of a computation, one observation; what is known of its calls
    comes from the database. *)
Ltac solve_keeps :=
  cbv zeta;
  repeat match goal with
  | |- keeps _ (QuotaCharge.cret _) => apply keeps_ret
  | |- keeps _ QuotaCharge.get_rel => apply keeps_get_rel
  | |- keeps _ (QuotaCharge.modify _) => apply keeps_modify; by intros
  | |- keeps _ (QuotaCharge.on_rel _) => apply keeps_modify; by intros
  | |- keeps _ (QuotaCharge.emit _) => apply keeps_modify; by intros
  | |- keeps _ (QuotaCharge.on_led _) => apply keeps_lift; by intros
  | |- keeps _ (QuotaCharge.on_pool _) => apply keeps_lift; by intros
  | |- keeps _ (QuotaCharge.on_box _) => apply keeps_lift; by intros
  | |- keeps _ (QuotaCharge.lift _ _ _) => apply keeps_lift; by intros
  | |- keeps _ (QuotaCharge.call _ _ _ _) => apply keeps_call; by intros
  | |- keeps _ (QuotaCharge.cbind _ _) => apply keeps_bind; [|intros ?]
  | |- keeps _ (match ?x with _ => _ end) => destruct x
  | |- keeps _ (if ?x then _ else _) => destruct x
  | |- keeps _ _ => solve [auto with charge]
  end.

Section LedgerKeeps.
Import GoStrings Ledger.

(** The observation of the ledger no daily-allowance write touches. *)
Definition views (db : ledgerdb) :=
  (uview db, kview db, u_ID <$> users db, k_ID <$> tokens db).

Lemma lkeeps_ret {X A} (g : ledgerdb -> X) (a : A) : lkeeps g (ret a).
Proof. by intros s. Qed.

Lemma lkeeps_throw {X A} (g : ledgerdb -> X) e : lkeeps g (throw e : L A).
Proof. by intros s. Qed.

Lemma lkeeps_bind {X A B} (g : ledgerdb -> X) (m : L A) (k : A -> L B) :
  lkeeps g m -> (forall a, lkeeps g (k a)) -> lkeeps g (bind m k).
Proof.
  intros Hm Hk s. unfold bind. specialize (Hm s). destruct (m s) as [[a|e] s1]; cbn in *; [|done].
  by rewrite Hk.
Qed.

Lemma lkeeps_stmt {X A} (g : ledgerdb -> X) (h : ledgerdb -> result ledger_err (A * ledgerdb)) :
  (forall db a db', h db = Ok (a, db') -> g db' = g db) -> lkeeps g (stmt h).
Proof.
  intros Hh s. unfold stmt. destruct (next_fault (faults s)) as [[] fs]; [done|].
  destruct (h (tables s)) as [[a db']|e] eqn:E; [|done]. cbn. by apply (Hh _ a).
Qed.

Lemma lkeeps_query {X A} (g : ledgerdb -> X) (h : ledgerdb -> A) : lkeeps g (query h).
Proof. apply lkeeps_stmt. by intros db a db' [= _ <-]. Qed.

Lemma views_users cond (h : User -> User) db :
  (forall u, ubal (h u) = ubal u /\ u_ID (h u) = u_ID u) ->
  views (set_users (update_where cond h (users db)) db) = views db.
Proof.
  intros Hh. unfold views, uview, kview, set_users. cbn [users tokens].
  by rewrite !update_where_proj by apply Hh.
Qed.

Lemma PostConsumeDailyQuota_views id q now : lkeeps views (PostConsumeDailyQuota id q now).
Proof.
  unfold PostConsumeDailyQuota, IncreaseDailyUsed, GetUserDailyQuotaInfo, SwitchToFallbackGroup,
    switch_group, first_user.
  repeat first
    [ apply lkeeps_ret | apply lkeeps_throw | apply lkeeps_query
    | apply lkeeps_bind; [|intros ?]
    | match goal with |- lkeeps _ (match ?x with _ => _ end) => destruct x end
    | match goal with |- lkeeps _ (if ?x then _ else _) => destruct x end
    | apply lkeeps_stmt; intros ? ? ?; repeat case_match; intros [= _ <-]; by apply views_users ].
Qed.

Lemma GetTokenById_keeps {X} (g : ledgerdb -> X) id : lkeeps g (GetTokenById id).
Proof.
  unfold GetTokenById. destruct (id =? 0); [apply lkeeps_throw|].
  apply lkeeps_bind; [apply lkeeps_query|]. intros [k|]; [apply lkeeps_ret|apply lkeeps_throw].
Qed.

Lemma GetUserQuota_keeps {X} (g : ledgerdb -> X) id cached : lkeeps g (GetUserQuota id cached).
Proof.
  unfold GetUserQuota. destruct cached; [apply lkeeps_ret|].
  apply lkeeps_bind; [apply lkeeps_query|]. intros ?. apply lkeeps_ret.
Qed.
End LedgerKeeps.

Section ChargeKeeps.
Import GoStrings PlatformBilling Outbox Ledger CreditPool QuotaCharge.

Lemma keeps_get_token {X} (f : world -> X) id :
  (forall s, f s = f (set_led (led s) s)) -> keeps f (on_led (GetTokenById id)).
Proof.
  intros Hf s. unfold on_led, lift.
  pose proof (GetTokenById_keeps (fun db => db) id (mkStore (led (tables s)) (faults s))) as Hk.
  destruct (GetTokenById id _) as [r s']. cbn in *. by rewrite Hk, <- Hf.
Qed.

(** The wallet leg and the refusals write neither the ledger nor the pools. *)
Definition local (w : world) := (led w, pool w).

Lemma releasePlatformPreAuth_local e info : keeps local (releasePlatformPreAuth e info).
Proof. unfold releasePlatformPreAuth. solve_keeps. Qed.
#[local] Hint Resolve releasePlatformPreAuth_local : charge.

Lemma abandonPreAuth_local e info : keeps local (abandonPreAuth e info).
Proof. unfold abandonPreAuth. solve_keeps. Qed.
#[local] Hint Resolve abandonPreAuth_local : charge.

Lemma settlePlatformWallet_local e info total pre cons adv :
  keeps local (settlePlatformWallet e info total pre cons adv).
Proof.
  unfold settlePlatformWallet, settleOrPark, legacyDebit. solve_keeps.
Qed.

Lemma platformPreAuthorize_local e est info : keeps local (platformPreAuthorize e est info).
Proof.
  unfold platformPreAuthorize. solve_keeps. intros s. by destruct (TryDegradedPreAuth _ _ _ _ _ _ _).
Qed.

Lemma refuse_local e info err : keeps local (refuse e info err).
Proof. unfold refuse. solve_keeps. Qed.

Lemma debitTenantPool_led e info q : keeps led (debitTenantPool e info q).
Proof.
  unfold debitTenantPool. apply keeps_bind; [by apply keeps_get_token; intros []|].
  intros [k|err]; solve_keeps.
Qed.

Lemma creditTenantPool_led e info q rsn : keeps led (creditTenantPool e info q rsn).
Proof.
  unfold creditTenantPool. apply keeps_bind; [by apply keeps_get_token; intros []|].
  intros [k|err]; solve_keeps.
Qed.

(** The ledger and pool legs leave the hold alone. *)
Definition holdview (w : world) := (rel w, trace w, box w, brk w).

Lemma on_led_hold {A} (m : L A) : keeps holdview (on_led m).
Proof. solve_keeps. Qed.
Lemma on_pool_hold {A} (m : P A) : keeps holdview (on_pool m).
Proof. solve_keeps. Qed.

Lemma debitTenantPool_hold e info q : keeps holdview (debitTenantPool e info q).
Proof. unfold debitTenantPool. solve_keeps. Qed.
Lemma token_phase_hold e info q total pd : keeps holdview (token_phase e info q total pd).
Proof.
  unfold token_phase, token_leg, compensate_user, creditTenantPool. solve_keeps.
Qed.
End ChargeKeeps.

(** ** The local legs *)

Section Legs.
Import GoStrings PlatformBilling Outbox Ledger CreditPool QuotaCharge.
Implicit Types (s : store world) (info : RelayInfo) (e : env).

Lemma on_led_inv {A} (m : L A) s r s' :
  on_led m s = (r, s') ->
  exists t, m (mkStore (led (tables s)) (faults s)) = (r, t) /\
    tables s' = set_led (tables t) (tables s) /\ faults s' = faults t.
Proof.
  unfold on_led, lift. destruct (m _) as [r0 t]. intros [= <- <-]. by exists t.
Qed.

(** What a run of the ledger alone changed of the balances. *)
Definition charged s s' (info : RelayInfo) (a b : Z) : Prop :=
  uview (led (tables s')) = ucharge (UserId info) a <$> uview (led (tables s)) /\
  kview (led (tables s')) = kcharge (TokenId info) b <$> kview (led (tables s)).

Lemma charged_refl s s' info : led (tables s') = led (tables s) -> charged s s' info 0 0.
Proof. intros E. unfold charged. by rewrite E, ucharge_0, kcharge_0. Qed.

Lemma charged_trans s1 s2 s3 info a b a' b' :
  charged s1 s2 info a b -> charged s2 s3 info a' b' -> charged s1 s3 info (a' + a) (b' + b).
Proof.
  intros [H1 H2] [H3 H4]. unfold charged. by rewrite H3, H4, H1, H2, ucharge_compose, kcharge_compose.
Qed.

Lemma charged_views s s' info :
  views (led (tables s')) = views (led (tables s)) -> charged s s' info 0 0.
Proof.
  unfold views. intros [= H1 H2 _ _]. unfold charged. by rewrite H1, H2, ucharge_0, kcharge_0.
Qed.

Lemma wrap64_opp q : i64_min < q <= i64_max -> wrap64 (- q) = - q.
Proof. intros Hq. apply wrap64_id. unfold64. unfold i64_min, i64_max, i64_half in *. lia. Qed.

Lemma user_leg_charged e info q s s' x :
  batch e = false -> i64_min < q <= i64_max ->
  user_leg e info q s = (Ok x, s') -> charged s s' info q 0.
Proof.
  intros Hb Hq. unfold user_leg. rewrite Hb. destruct (q >? 0);
    intros (t & H & Ht & _)%on_led_inv; unfold charged; rewrite Ht; cbn [led set_led]; rewrite kcharge_0.
  - by apply DecreaseUserQuota_view in H.
  - apply IncreaseUserQuota_view in H. by rewrite wrap64_opp, Z.opp_involutive in H by done.
Qed.

Lemma token_leg_charged e info q s s' x :
  batch e = false -> i64_min < q <= i64_max ->
  token_leg e info q s = (Ok x, s') -> charged s s' info 0 q.
Proof.
  intros Hb Hq. unfold token_leg. rewrite Hb. destruct (q >? 0);
    intros (t & H & Ht & _)%on_led_inv; unfold charged; rewrite Ht; cbn [led set_led]; rewrite ucharge_0.
  - by apply DecreaseTokenQuota_view in H as [??].
  - apply IncreaseTokenQuota_view in H. rewrite wrap64_opp, Z.opp_involutive in H by done. tauto.
Qed.

(** The phases after the user write charge the token, and nobody else. *)
Lemma post_phases_charged e info q pre s s' :
  batch e = false -> i64_min < q <= i64_max -> IsPlayground info = false -> 0 < TokenId info ->
  post_phases e info q pre false s = (None, s') -> charged s s' info 0 q.
Proof.
  intros Hb Hq Hpg Htok. unfold post_phases, cbind. set (total := i64_add q pre).
  match goal with |- context [(if ?c then ?a else ?b) s] =>
    destruct ((if c then a else b) s) as [r1 s1] eqn:E1 end.
  assert (H1 : charged s s1 info 0 0).
  { revert E1. destruct (_ && _).
    - intros (t & H & Ht & _)%on_led_inv. apply charged_views. rewrite Ht. cbn [led set_led].
      pose proof (PostConsumeDailyQuota_views (UserId info) total (time_Unix (now e))
        (mkStore (led (tables s)) (faults s))) as Hv. by rewrite H in Hv.
    - intros [= <- <-]. by apply charged_refl. }
  destruct (pool_phase e info total s1) as [pd s2] eqn:E2.
  assert (H2 : charged s1 s2 info 0 0).
  { apply charged_refl. revert E2. unfold pool_phase, cret.
    destruct ((total >? 0) && (TokenId info >? 0)); [|intros E2; by simplify_eq].
    intros E2. pose proof (debitTenantPool_led e info total s1) as Hk. by rewrite E2 in Hk. }
  destruct (token_phase e info q total pd s2) as [terr s3] eqn:E3.
  destruct terr as [err|].
  { cbn [negb andb]. destruct (settlePlatformWallet _ _ _ _ _ _ _). discriminate. }
  assert (H3 : charged s2 s3 info 0 q).
  { revert E3. unfold token_phase. rewrite Hpg. rewrite (proj2 (Z.gtb_lt _ _)) by lia. cbn [negb andb].
    unfold cbind. destruct (token_leg e info q s2) as [[x|err] s2'] eqn:E.
    - intros [= <-]. by eapply token_leg_charged.
    - repeat match goal with |- context [let (_, _) := ?m in _] => destruct m end. discriminate. }
  pose proof (settlePlatformWallet_local e info total pre true false s3) as Hs.
  destruct (settlePlatformWallet _ _ _ _ _ _ _) as [r4 s4]. cbn in Hs. intros [= <-].
  assert (H4 : charged s3 s4 info 0 0) by (apply charged_refl; unfold local in Hs; congruence).
  pose proof (charged_trans _ _ _ _ _ _ _ _ H1 (charged_trans _ _ _ _ _ _ _ _ H2
    (charged_trans _ _ _ _ _ _ _ _ H3 H4))) as H.
  by rewrite ?Z.add_0_l, ?Z.add_0_r in H.
Qed.

Lemma PostConsumeQuota_charged e info q pre s s' :
  batch e = false -> advisory_flag e = false -> WalletAuthoritative (rel (tables s)) = false ->
  i64_min < q <= i64_max -> IsPlayground info = false -> 0 < TokenId info -> 0 < UserId info ->
  PostConsumeQuota e info q pre s = (None, s') -> charged s s' info q q.
Proof.
  intros Hb Ha Hw Hq Hpg Htok Huser. unfold PostConsumeQuota, cbind, get_rel.
  rewrite Ha, Hw. cbn [orb]. rewrite andb_false_r, (proj2 (Z.gtb_lt _ _)) by lia. cbn [negb].
  destruct (user_leg e info q s) as [[x|err] s1] eqn:E1; [|discriminate]. intros E2.
  apply user_leg_charged in E1; [|done..]. apply post_phases_charged in E2; [|done..].
  pose proof (charged_trans _ _ _ _ _ _ _ _ E1 E2) as H. by rewrite Z.add_0_l, Z.add_0_r in H.
Qed.
End Legs.

(** ** Admission *)

Section Admission.
Import GoStrings PlatformBilling Outbox Ledger CreditPool QuotaCharge.
Implicit Types (s : store world) (info : RelayInfo) (e : env).

Definition auth (w : world) : bool := WalletAuthoritative (rel w).

Lemma releasePlatformPreAuth_auth e info : keeps auth (releasePlatformPreAuth e info).
Proof. unfold releasePlatformPreAuth. solve_keeps. Qed.
#[local] Hint Resolve releasePlatformPreAuth_auth : charge.

Lemma abandonPreAuth_auth e info : keeps auth (abandonPreAuth e info).
Proof. unfold abandonPreAuth. solve_keeps. Qed.
#[local] Hint Resolve abandonPreAuth_auth : charge.

Lemma platformPreAuthorize_auth e est info : keeps auth (platformPreAuthorize e est info).
Proof.
  unfold platformPreAuthorize. solve_keeps. intros s. by destruct (TryDegradedPreAuth _ _ _ _ _ _ _).
Qed.

Lemma pre_deduct_auth e info pre adv : keeps auth (pre_deduct e info pre adv).
Proof. unfold pre_deduct, PreConsumeTokenQuota, rollbackTokenFreeze, refuse. solve_keeps. Qed.
#[local] Hint Resolve pre_deduct_auth : charge.

Lemma pre_gates_auth e info pre uq adv : keeps auth (pre_gates e info pre uq adv).
Proof. unfold pre_gates, refuse. solve_keeps. Qed.

Lemma refuse_not_none e info err s s' : refuse e info err s = (None, s') -> False.
Proof. unfold refuse, cbind, cret. by destruct (abandonPreAuth e info s). Qed.

Lemma PreConsumeTokenQuota_charged e info q s s' :
  batch e = false -> IsPlayground info = false -> NoDup (k_ID <$> tokens (led (tables s))) ->
  PreConsumeTokenQuota e info q s = (Ok tt, s') ->
  charged s s' info 0 q /\ users (led (tables s')) = users (led (tables s)) /\
  rel (tables s') = rel (tables s).
Proof.
  intros Hb Hpg Hnd. unfold PreConsumeTokenQuota, cbind. rewrite Hpg, Hb.
  destruct (q <? 0); [discriminate|].
  assert (Hust : forall t cond d now n t', update_tokens cond d now t = (Ok n, t') ->
            users (tables t') = users (tables t)).
  { intros t cond d nw n t' H%stmt_ok. case_match; [|discriminate]. by injection H as <- <-. }
  destruct (TokenUnlimited info).
  - destruct (on_led _ s) as [[x|err] s1] eqn:E; cbn; [|discriminate]. intros [= <-].
    apply on_led_inv in E as (t & H & Ht & _). unfold charged. rewrite Ht. cbn [led set_led rel].
    rewrite ucharge_0. pose proof (DecreaseTokenQuota_view _ _ _ _ _ _ H) as [-> ->].
    split_and!; [done|done| |done]. unfold DecreaseTokenQuota, decreaseTokenQuota in H.
    destruct (q <? 0); [discriminate|]. apply bind_ok in H as (n & t1 & H & [= _ <-]).
    by apply Hust in H.
  - destruct (on_led _ s) as [[[]|err] s1] eqn:E; cbn; try discriminate. intros [= <-].
    apply on_led_inv in E as (t & H & Ht & _). unfold charged. rewrite Ht. cbn [led set_led rel].
    rewrite ucharge_0. pose proof (DecreaseTokenQuotaIfEnough_view _ _ _ (mkStore _ _) _ Hnd H) as [-> ->].
    split_and!; [done|done| |done]. unfold DecreaseTokenQuotaIfEnough in H.
    destruct (q <? 0); [discriminate|]. apply bind_ok in H as (n & t1 & H & [= _ <-]).
    by apply Hust in H.
Qed.

Lemma pre_deduct_charged e info pre s s' :
  batch e = false -> IsPlayground info = false -> UserId info <> 0 ->
  unique_ids (led (tables s)) ->
  pre_deduct e info pre false s = (None, s') ->
  FinalPreConsumedQuota (rel (tables s')) = pre /\ charged s s' info pre pre.
Proof.
  intros Hb Hpg Hu [Hndu Hndk]. unfold pre_deduct, cbind.
  destruct (PreConsumeTokenQuota e info pre s) as [[[]|err] s1] eqn:E1.
  2: { destruct err; intros H; by apply refuse_not_none in H. }
  apply PreConsumeTokenQuota_charged in E1 as (H1 & Husers & _); [|done..].
  rewrite (proj2 (Z.eqb_neq _ _)) by done.
  destruct (on_led _ s1) as [[[]|err] s2] eqn:E2.
  - intros [= <-]. apply on_led_inv in E2 as (t & H & Ht & _).
    apply DecreaseUserQuotaIfEnough_view in H; [|cbn; by rewrite Husers].
    split; [done|]. assert (H2 : charged s1 s2 info pre 0).
    { unfold charged. rewrite Ht. cbn [led set_led]. by rewrite kcharge_0. }
    pose proof (charged_trans _ _ _ _ _ _ _ _ H1 H2) as H3.
    by rewrite Z.add_0_r, Z.add_0_l in H3.
  - destruct (rollbackTokenFreeze e info pre s2). intros H. by apply refuse_not_none in H.
  - destruct (rollbackTokenFreeze e info pre s2). intros H. by apply refuse_not_none in H.
Qed.

Lemma pre_gates_charged e info pre uq s s' :
  batch e = false -> IsPlayground info = false -> UserId info <> 0 -> 0 <= pre ->
  unique_ids (led (tables s)) ->
  pre_gates e info pre uq false s = (None, s') ->
  let f := FinalPreConsumedQuota (rel (tables s')) in
  0 <= f <= pre /\ charged s s' info f f.
Proof.
  intros Hb Hpg Hu Hpre Hids. unfold pre_gates.
  destruct (enforceTenantQuota e pre) as [err|]; [intros H; by apply refuse_not_none in H|].
  destruct (enforceProjectBudget e (ProjectId info) pre) as [err|];
    [intros H; by apply refuse_not_none in H|].
  unfold cbind. cbn zeta. set (s1 := snd (on_rel (set_user_quota uq) s)).
  assert (Es : on_rel (set_user_quota uq) s = (tt, s1)) by done. rewrite Es.
  set (p := if _ && _ then 0 else pre). assert (Hp : 0 <= p <= pre) by (unfold p; case_match; lia).
  destruct (p >? 0) eqn:E.
  - intros H. apply pre_deduct_charged in H as [-> H]; [|done..]. done.
  - intros [= <-]. cbn. rewrite Z.gtb_ltb in E. bool_to_prop. assert (p = 0) as -> by lia.
    split; [lia|]. by apply charged_refl.
Qed.

Lemma pre_local_charged e pre info s s' :
  batch e = false -> advisory_flag e = false -> wallet_authoritative e = false ->
  IsPlayground info = false -> UserId info <> 0 -> 0 <= pre -> unique_ids (led (tables s)) ->
  pre_local e pre info s = (None, s') ->
  let f := FinalPreConsumedQuota (rel (tables s')) in
  0 <= f <= pre /\ charged s s' info f f /\ auth (tables s') = auth (tables s).
Proof.
  intros Hb Ha Hw Hpg Hu Hpre Hids. unfold pre_local, cbind, get_rel. rewrite Ha, Hw.
  cbn [andb orb negb]. rewrite andb_false_r. cbn [orb].
  rewrite (proj2 (Z.eqb_neq _ _)) by done. unfold cret at 1.
  destruct (on_led _ s) as [[uq|err] s1] eqn:E1; [|discriminate].
  assert (H1 : led (tables s1) = led (tables s) /\ auth (tables s1) = auth (tables s)).
  { apply on_led_inv in E1 as (t & H & Ht & _). rewrite Ht. split; [|done]. cbn.
    pose proof (GetUserQuota_keeps (fun db => db) (UserId info) (cached_quota e)
      (mkStore (led (tables s)) (faults s))) as Hk. by rewrite H in Hk. }
  destruct H1 as [Hled Hauth].
  match goal with |- context [if ?c then refuse _ _ _ else _] => destruct c end.
  { intros H. by apply refuse_not_none in H. }
  intros H. pose proof (pre_gates_auth e info pre uq false s1) as Hk. rewrite H in Hk. cbn in Hk.
  rewrite Hk, Hauth. apply pre_gates_charged in H as (Hf & Hc); [|done..|by rewrite Hled].
  split_and!; [lia|lia| |done]. unfold charged in *. by rewrite Hled in Hc.
Qed.

Lemma PreConsumeQuota_charged e pre info s s' :
  batch e = false -> advisory_flag e = false -> wallet_authoritative e = false ->
  IsPlayground info = false -> UserId info <> 0 -> 0 <= pre -> unique_ids (led (tables s)) ->
  PreConsumeQuota e pre info s = (None, s') ->
  let f := FinalPreConsumedQuota (rel (tables s')) in
  0 <= f <= pre /\ charged s s' info f f /\ auth (tables s') = auth (tables s).
Proof.
  intros Hb Ha Hw Hpg Hu Hpre Hids. unfold PreConsumeQuota, cbind, get_rel.
  destruct (PlatformPreAuthID _ >? 0).
  { intros H. cbn zeta. change (auth (tables s)) with (auth (tables (snd (on_rel set_governed s)))).
    by apply (pre_local_charged e pre info (snd (on_rel set_governed s))). }
  destruct (_ && _); [|by apply pre_local_charged].
  destruct (platformPreAuthorize e pre info s) as [[err|] s1] eqn:E; [discriminate|]. intros H.
  pose proof (platformPreAuthorize_local e pre info s) as Hl. rewrite E in Hl. cbn in Hl.
  pose proof (platformPreAuthorize_auth e pre info s) as Hau. rewrite E in Hau. cbn in Hau.
  unfold local in Hl. injection Hl as Hled _.
  apply pre_local_charged in H; [|done..|by rewrite Hled]. unfold charged in *.
  by rewrite Hled, Hau in H.
Qed.
End Admission.

(** ** The fate of a hold *)

Section Holds.
Import GoStrings PlatformBilling Outbox Ledger CreditPool QuotaCharge.
Implicit Types (s : store world) (info : RelayInfo) (e : env) (w : world).

(** The event grants the hold [id]. *)
Definition grants (id : Z) (ev : event) : bool :=
  match ev with EvPreAuth _ _ (Ok i) => i =? id | _ => false end.

(** The event ends the hold [id]: the platform settled or released it, or nothing
    is left to try. *)
Definition ends (id : Z) (ev : event) : bool :=
  match ev with
  | EvSettle i _ true | EvRelease i true => i =? id
  | EvLost stage _ i => negb (String.eqb stage "debit") && (i =? id)
  | _ => false
  end.

(** The rows that park a movement of the hold. *)
Definition parked_rows (id : Z) (rows : list BillingOutbox) : nat :=
  affected (fun r => b_PreAuthID r =? id) rows.

(** How often the hold was granted, and how often it has been dealt with: ended,
    or parked for the outbox. *)
Definition granted (id : Z) w : nat := affected (grants id) (trace w).
Definition disposals (id : Z) w : nat :=
  (affected (ends id) (trace w) + parked_rows id (holds (box w)))%nat.

Definition hold_of w : Z := PlatformPreAuthID (rel w).

(** Grants not yet dealt with, and of those the ones the request no longer has. *)
Definition tally (id : Z) w : Z := Z.of_nat (granted id w) - Z.of_nat (disposals id w).
Definition astray (id : Z) w : Z := tally id w - if hold_of w =? id then 1 else 0.

Lemma affected_snoc {R} (P : R -> bool) (l : list R) x :
  affected P (l ++ [x]) = (affected P l + if P x then 1 else 0)%nat.
Proof.
  unfold affected. rewrite List.filter_app, length_app. f_equal. simpl. by destruct (P x).
Qed.

Lemma tally_event id ev w :
  tally id (add_event ev w) =
  tally id w + (if grants id ev then 1 else 0) - (if ends id ev then 1 else 0).
Proof.
  unfold tally, granted, disposals. cbn [trace box add_event]. rewrite !affected_snoc.
  destruct (grants id ev), (ends id ev); lia.
Qed.

(** The outbox write of the hold [h]. *)
Definition parks (h : Z) (m : B unit) : Prop :=
  forall id t r t', m t = (r, t') ->
    parked_rows id (holds (tables t')) =
    (parked_rows id (holds (tables t)) + if is_ok r && (h =? id)%Z then 1 else 0)%nat.

Lemma enqueue_hold_parks h acct action amt nw : parks h (enqueue_hold acct h action amt nw).
Proof.
  intros id t r t' H. destruct r as [x|err].
  - apply stmt_ok in H. case_match; [discriminate|]. injection H as _ H. rewrite <- H. cbn [holds].
    unfold parked_rows. by rewrite affected_snoc.
  - apply stmt_atomic in H. rewrite H. simpl. lia.
Qed.

Lemma EnqueueSettle_parks h ok acct amt nw : parks h (EnqueueSettle ok acct h amt nw).
Proof.
  unfold EnqueueSettle. destruct ok; [apply enqueue_hold_parks|].
  intros id t r t' [= <- <-]. simpl. lia.
Qed.

Lemma EnqueueRelease_parks h ok acct nw : parks h (EnqueueRelease ok acct h nw).
Proof.
  unfold EnqueueRelease. destruct ok; [apply enqueue_hold_parks|].
  intros id t r t' [= <- <-]. simpl. lia.
Qed.

(** Parking counts once, whether it went into the table or was lost. *)
Lemma park_tally (m : B unit) stage acct h id s r s' :
  parks h m -> String.eqb stage "debit" = false ->
  (do parked <- on_box m;
   match parked with Ok _ => cret tt | Err _ => emit (EvLost stage acct h) end) s = (r, s') ->
  tally id (tables s') = tally id (tables s) - (if h =? id then 1 else 0) /\
  rel (tables s') = rel (tables s).
Proof.
  intros Hm Hst. unfold cbind, on_box, lift.
  destruct (m _) as [[x|err] t] eqn:E; apply (Hm id) in E; cbn [is_ok tables andb] in E;
    unfold emit, modify, cret; cbn [tables faults]; intros [= <- <-]; split; try done;
    cbn [tables]; rewrite ?tally_event; cbn [grants ends]; rewrite ?Hst; cbn [negb andb];
    unfold tally, granted, disposals; cbn [trace box set_box]; case_match; lia.
Qed.

(** A call through the breaker counts when it succeeds. *)
Lemma call_tally {A} e canc (reply : result goerr A) ev h id s r s' :
  (forall b, grants id (ev b) = false /\ ends id (ev b) = b && (h =? id)) ->
  call e canc reply ev s = (r, s') ->
  tally id (tables s') = tally id (tables s) - (if is_ok r && (h =? id) then 1 else 0) /\
  rel (tables s') = rel (tables s).
Proof.
  intros Hev. unfold call. destruct (with_breaker _ _ _ _ _) as [[r0 called] b] eqn:E.
  intros [= <- <-]. destruct called; cbn [tables].
  - split; [|done]. rewrite tally_event. destruct (Hev (is_ok r0)) as [-> ->].
    change (tally id (set_brk b (tables s))) with (tally id (tables s)). lia.
  - split; [|done]. change (tally id (set_brk b (tables s))) with (tally id (tables s)).
    assert (is_ok r0 = false) as ->; [|simpl; lia].
    revert E. unfold with_breaker.
    destruct (BillingBreakerAllow _ _) as [[err|] b1]; intros; by simplify_eq.
Qed.

Lemma releasePlatformPreAuth_tally e info id s x s' :
  0 < hold_of (tables s) -> releasePlatformPreAuth e info s = (x, s') ->
  tally id (tables s') = tally id (tables s) - (if hold_of (tables s) =? id then 1 else 0).
Proof.
  unfold hold_of. set (h := PlatformPreAuthID (rel (tables s))). intros Hid.
  unfold releasePlatformPreAuth, cbind at 1, get_rel. fold h. cbn zeta.
  rewrite (proj2 (Z.leb_gt _ _)) by done. unfold cbind at 1.
  destruct (call _ _ _ _ s) as [r s2] eqn:Ec.
  apply (call_tally _ _ _ _ h id) in Ec as [Hc Hr]; [|intros []; done].
  destruct r as [y|err]; cbn [is_ok andb] in Hc.
  - by intros [= _ <-].
  - intros H. eapply park_tally in H as [H _]; [|apply EnqueueRelease_parks|done]. rewrite H. lia.
Qed.

Lemma settleOrPark_tally e acct amt id s x s' :
  settleOrPark e acct amt s = (x, s') ->
  tally id (tables s') = tally id (tables s) - (if hold_of (tables s) =? id then 1 else 0) /\
  hold_of (tables s') = 0.
Proof.
  unfold hold_of at 1. set (h := PlatformPreAuthID (rel (tables s))).
  unfold settleOrPark, cbind at 1, get_rel. fold h. cbn zeta. unfold cbind at 1.
  destruct (call _ _ _ _ s) as [r s1] eqn:Ec.
  apply (call_tally _ _ _ _ h id) in Ec as [Hc Hr]; [|intros []; done].
  unfold cbind at 1. set (s2 := snd (on_rel (set_charge (CNYToUnits4 amt)) s1)).
  change (on_rel (set_charge (CNYToUnits4 amt)) s1) with (tt, s2).
  change (tally id (tables s1)) with (tally id (tables s2)) in Hc.
  destruct r as [y|err]; cbn [is_ok andb] in Hc; unfold cbind at 1.
  - by intros [= _ <-].
  - match goal with |- context [let (_, _) := ?m s2 in _] => destruct (m s2) as [z s3] eqn:E end.
    eapply park_tally in E as [H _]; [|apply EnqueueSettle_parks|done].
    intros [= _ <-]. split; [|done]. change (tally id (tables s3) = tally id (tables s) - (if h =? id then 1 else 0)).
    rewrite H. lia.
Qed.

(** Nothing a request does makes a hold go astray. *)

Lemma abandonPreAuth_cases e info s :
  (hold_of (tables s) <= 0 /\ snd (abandonPreAuth e info s) = s) \/
  (0 < hold_of (tables s) /\
   exists x s1, releasePlatformPreAuth e info s = (x, s1) /\
     snd (abandonPreAuth e info s) = snd (on_rel (set_preauth 0) s1)).
Proof.
  unfold abandonPreAuth, cbind, get_rel.
  change (PlatformPreAuthID (rel (tables s))) with (hold_of (tables s)).
  destruct (Z.leb_spec (hold_of (tables s)) 0); [by left|]. right. split; [done|].
  destruct (releasePlatformPreAuth e info s) as [x s1]. eauto.
Qed.

Lemma abandonPreAuth_hold e info s : hold_of (tables (snd (abandonPreAuth e info s))) <= 0.
Proof.
  destruct (abandonPreAuth_cases e info s) as [[Hle ->]|(_ & x & s1 & _ & ->)]; [done|].
  cbn. lia.
Qed.

Context (id : Z) (Hpos : 0 < id).

Lemma abandonPreAuth_astray e info : keeps (astray id) (abandonPreAuth e info).
Proof.
  intros s. destruct (abandonPreAuth_cases e info s) as [[_ ->]|(Hh & x & s1 & E & ->)]; [done|].
  apply (releasePlatformPreAuth_tally _ _ id) in E; [|done]. unfold astray at 1.
  change (tally id (tables (snd (on_rel (set_preauth 0) s1)))) with (tally id (tables s1)).
  change (hold_of (tables (snd (on_rel (set_preauth 0) s1)))) with 0.
  rewrite E, (proj2 (Z.eqb_neq 0 id)) by lia. unfold astray. lia.
Qed.

Lemma settleOrPark_astray e acct amt : keeps (astray id) (settleOrPark e acct amt).
Proof.
  intros s. destruct (settleOrPark e acct amt s) as [x s'] eqn:E.
  apply (settleOrPark_tally _ _ _ id) in E as [H1 H2]. cbn [snd]. unfold astray.
  rewrite H1, H2, (proj2 (Z.eqb_neq 0 id)) by lia. lia.
Qed.

Lemma emit_astray ev :
  grants id ev = false -> ends id ev = false -> keeps (astray id) (emit ev).
Proof.
  intros H1 H2 s. unfold astray, emit, modify. cbn [snd tables]. rewrite tally_event, H1, H2.
  change (hold_of (add_event ev (tables s))) with (hold_of (tables s)). lia.
Qed.

Lemma EnqueueDebit_astray ok acct amt ty desc prod ref nw :
  keeps (astray id) (on_box (EnqueueDebit ok acct amt ty desc prod ref nw)).
Proof.
  intros s. unfold on_box, lift.
  assert (H : holds (tables (snd (EnqueueDebit ok acct amt ty desc prod ref nw
            (mkStore (box (tables s)) (faults s))))) = holds (box (tables s))).
  { unfold EnqueueDebit. destruct ok; [|done]. cbn [negb]. unfold stmt. cbn [tables faults].
    destruct (next_fault (faults s)) as [[] fs]; [done|]. by destruct (existsb _ _ || _). }
  destruct (EnqueueDebit _ _ _ _ _ _ _ _ _) as [r t]. cbn [snd tables] in *.
  unfold astray, tally, granted, disposals, hold_of. cbn [trace box rel set_box]. by rewrite H.
Qed.
#[local] Hint Resolve abandonPreAuth_astray settleOrPark_astray EnqueueDebit_astray : charge.

Lemma legacyDebit_astray e info acct amt : keeps (astray id) (legacyDebit e info acct amt).
Proof.
  unfold legacyDebit. cbn zeta. apply keeps_bind; [by apply emit_astray|]. intros _.
  destruct (debit_reply e) as [err|]; [|apply keeps_ret]. apply keeps_bind; [auto with charge|].
  intros [[]|err']; [apply keeps_ret|by apply emit_astray].
Qed.
#[local] Hint Resolve legacyDebit_astray : charge.

Lemma settlePlatformWallet_astray e info total pre cons adv :
  keeps (astray id) (settlePlatformWallet e info total pre cons adv).
Proof. unfold settlePlatformWallet. solve_keeps. Qed.
#[local] Hint Resolve settlePlatformWallet_astray : charge.

Lemma PostConsumeQuota_astray e info q pre : keeps (astray id) (PostConsumeQuota e info q pre).
Proof.
  unfold PostConsumeQuota, post_phases, user_leg, pool_phase, token_phase, token_leg,
    compensate_user, debitTenantPool, creditTenantPool. solve_keeps.
Qed.
#[local] Hint Resolve PostConsumeQuota_astray : charge.

Lemma ReturnPreConsumedQuota_astray e info : keeps (astray id) (ReturnPreConsumedQuota e info).
Proof. unfold ReturnPreConsumedQuota. solve_keeps. Qed.

Lemma pre_local_astray e pre info : keeps (astray id) (pre_local e pre info).
Proof.
  unfold pre_local, pre_gates, pre_deduct, PreConsumeTokenQuota, rollbackTokenFreeze, refuse.
  solve_keeps.
Qed.

Lemma platformPreAuthorize_astray e est info s :
  hold_of (tables s) <= 0 ->
  astray id (tables (snd (platformPreAuthorize e est info s))) = astray id (tables s).
Proof.
  intros Hh. assert (Hne : (hold_of (tables s) =? id) = false) by (apply Z.eqb_neq; lia).
  unfold platformPreAuthorize. cbn zeta. destruct (ShouldSkipPreAuth _ _ _); [done|].
  set (reply := PreAuthorize (configured e) (preauth_reply e)). set (amt := QuotaToCNY _ _).
  unfold cbind at 1. destruct (call _ _ _ _ s) as [r s1] eqn:E. revert E. unfold call.
  destruct (with_breaker _ _ _ _ _) as [[r0 called] b] eqn:Eb. intros [= <- <-].
  set (w1 := if called then _ else _).
  assert (Hr0 : (called = false /\ exists err, r0 = Err err) \/ (called = true /\ r0 = reply)).
  { revert Eb. unfold with_breaker. destruct (BillingBreakerAllow _ _) as [[err|] b1];
      intros [= <- <- <-]; [left|right]; eauto. }
  assert (Hh1 : hold_of w1 = hold_of (tables s)) by (unfold w1; by destruct called).
  assert (Ht : tally id w1 = tally id (tables s) + match r0 with Ok i => if i =? id then 1 else 0 | Err _ => 0 end).
  { unfold w1. destruct Hr0 as [(-> & err & ->)|[-> ->]].
    - change (tally id (set_brk b (tables s))) with (tally id (tables s)). lia.
    - rewrite tally_event. change (tally id (set_brk b (tables s))) with (tally id (tables s)).
      cbn [grants ends]. destruct reply; lia. }
  destruct r0 as [i|err].
  - change (tally id w1 - (if i =? id then 1 else 0) = astray id (tables s)).
    rewrite Ht. unfold astray. rewrite Hne. lia.
  - assert (Hw : astray id w1 = astray id (tables s)).
    { unfold astray. rewrite Ht, Hh1, Hne. lia. }
    by destruct (TryDegradedPreAuth _ _ _ _ _ _ _).
Qed.

Lemma PreConsumeQuota_astray e pre info : keeps (astray id) (PreConsumeQuota e pre info).
Proof.
  intros s. unfold PreConsumeQuota, cbind at 1, get_rel.
  change (PlatformPreAuthID (rel (tables s))) with (hold_of (tables s)).
  destruct (hold_of (tables s) >? 0) eqn:E.
  { apply keeps_bind; [solve_keeps|]. intros _. apply pre_local_astray. }
  rewrite Z.gtb_ltb in E. bool_to_prop.
  destruct (_ && _); [|apply pre_local_astray]. unfold cbind.
  pose proof (platformPreAuthorize_astray e pre info s ltac:(lia)) as Hp.
  destruct (platformPreAuthorize e pre info s) as [[err|] s1]; cbn [snd] in *; [done|].
  by rewrite pre_local_astray.
Qed.
End Holds.

(** ** When the hold is let go *)

Section HoldCleared.
Import GoStrings PlatformBilling Outbox Ledger CreditPool QuotaCharge.
Implicit Types (s : store world) (info : RelayInfo) (e : env) (w : world).

Lemma refuse_hold e info err s r s' : refuse e info err s = (r, s') -> hold_of (tables s') <= 0.
Proof.
  unfold refuse, cbind, cret. pose proof (abandonPreAuth_hold e info s) as Hh.
  destruct (abandonPreAuth e info s) as [x s1]. by intros [= _ <-].
Qed.

Lemma pre_deduct_refusal e info pre adv s err s' :
  pre_deduct e info pre adv s = (Some err, s') -> hold_of (tables s') <= 0.
Proof.
  unfold pre_deduct, cbind. destruct (PreConsumeTokenQuota e info pre s) as [[[]|terr] s1].
  - destruct (UserId info =? 0); [discriminate|]. destruct adv.
    + destruct (on_led _ s1) as [[]]; [discriminate|].
      destruct (rollbackTokenFreeze _ _ _ _). discriminate.
    + destruct (on_led _ s1) as [[[]|uerr] s2]; [discriminate| |];
        destruct (rollbackTokenFreeze _ _ _ _) as [x s3]; apply refuse_hold.
  - destruct terr, adv; first [apply refuse_hold | discriminate].
Qed.

Lemma pre_local_refusal e pre info s err s' :
  pre_local e pre info s = (Some err, s') ->
  errorCode err = ErrorCodeQueryDataError \/ hold_of (tables s') <= 0.
Proof.
  assert (Hg : forall uq adv s1, pre_gates e info pre uq adv s1 = (Some err, s') ->
    hold_of (tables s') <= 0).
  { intros uq adv s1. unfold pre_gates. destruct (enforceTenantQuota e pre); [apply refuse_hold|].
    destruct (enforceProjectBudget _ _ _); [apply refuse_hold|]. unfold cbind. cbn zeta.
    destruct (on_rel _ s1) as [x s2]. destruct (_ >? 0); [apply pre_deduct_refusal|discriminate]. }
  unfold pre_local, cbind, get_rel. cbn zeta.
  match goal with |- context [(if ?c then ?a else ?b) s] =>
    destruct ((if c then a else b) s) as [x s1] end.
  destruct (UserId info =? 0); [intros H; right; by eapply Hg|].
  destruct (on_led _ s1) as [[uq|uerr] s2]; [|intros [= <- _]; by left].
  right. match goal with H : context [if ?c then refuse _ _ _ else _] |- _ => destruct c end;
    [by eapply refuse_hold|by eapply Hg].
Qed.

Lemma platformPreAuthorize_refusal e est info s err s' :
  platformPreAuthorize e est info s = (Some err, s') -> hold_of (tables s') = hold_of (tables s).
Proof.
  unfold platformPreAuthorize. cbn zeta. destruct (ShouldSkipPreAuth _ _ _); [discriminate|].
  unfold cbind at 1. destruct (call _ _ _ _ s) as [[i|cerr] s1] eqn:E; [discriminate|].
  destruct (TryDegradedPreAuth _ _ _ _ _ _ _); [discriminate|]. intros [= _ <-].
  revert E. unfold call. destruct (with_breaker _ _ _ _ _) as [[r0 called] b].
  intros [= _ <-]. by destruct called.
Qed.

Lemma settlePlatformWallet_hold e info total pre cons adv s :
  0 < IdentityAccountID info -> 0 < total \/ 0 < pre ->
  hold_of (tables (snd (settlePlatformWallet e info total pre cons adv s))) <= 0.
Proof.
  intros Hacct Hor. unfold settlePlatformWallet, cbind at 1, get_rel. cbn zeta.
  change (PlatformPreAuthID (rel (tables s))) with (hold_of (tables s)).
  rewrite (proj2 (Z.gtb_lt _ _)) by lia. cbn [andb].
  destruct (total >? 0) eqn:Et; destruct (hold_of (tables s) >? 0) eqn:Eh;
    rewrite Z.gtb_ltb in Et, Eh; bool_to_prop.
  - destruct (_ && _); [apply abandonPreAuth_hold|].
    destruct (settleOrPark _ _ _ s) as [x s1] eqn:E.
    apply (settleOrPark_tally _ _ _ 1) in E as [_ E]. cbn. lia.
  - destruct (_ || _); [|done].
    pose proof (keeps_bind hold_of (on_rel (set_charge (CNYToUnits4 (QuotaToCNY (exchange e) total))))
      (fun _ => legacyDebit e info (IdentityAccountID info) (QuotaToCNY (exchange e) total))) as Hk.
    rewrite Hk; [done|solve_keeps|]. intros _. unfold legacyDebit. solve_keeps.
  - rewrite (proj2 (Z.leb_le _ _)), (proj2 (Z.gtb_lt _ _)) by lia. apply abandonPreAuth_hold.
  - rewrite andb_false_r. done.
Qed.

Lemma post_phases_hold e info q pre adv s :
  0 < IdentityAccountID info -> 0 < i64_add q pre \/ 0 < pre ->
  hold_of (tables (snd (post_phases e info q pre adv s))) <= 0.
Proof.
  intros Hacct Hor. unfold post_phases, cbind. cbn zeta.
  match goal with |- context [(if ?c then ?a else ?b) s] =>
    destruct ((if c then a else b) s) as [x1 s1] end.
  destruct (pool_phase e info (i64_add q pre) s1) as [pd s2].
  destruct (token_phase e info q (i64_add q pre) pd s2) as [terr s3].
  pose proof (settlePlatformWallet_hold e info (i64_add q pre) pre
    match terr with None => true | Some _ => false end adv s3 Hacct Hor) as Hh.
  by destruct (settlePlatformWallet _ _ _ _ _ _ s3) as [x4 s4].
Qed.
End HoldCleared.

(** ** Properties *)

Section ChargeProperties.
Import GoStrings PlatformBilling Outbox Ledger CreditPool QuotaCharge.

(** C1. A request is charged what it cost, once. Where the local ledger is authoritative
    (neither the advisory mode nor a platform wallet), the write buffer is off, the
    request is not a playground one and estimate and cost are nonnegative int64 values:
    whatever the database faults and whatever was pre-deducted (the trust shortcut
    included), when admission let a request through and its settlement at the actual cost
    [a] reported no error, the user's balance and the key's remaining quota have dropped
    by exactly [a], the key's used quota has grown by [a], and no other row's balance has
    moved. *)
Theorem charge_exact e1 e2 info pre a (s s1 s2 : store world) :
  batch e1 = false -> batch e2 = false ->
  advisory_flag e1 = false -> wallet_authoritative e1 = false -> advisory_flag e2 = false ->
  WalletAuthoritative (rel (tables s)) = false ->
  IsPlayground info = false -> 0 < UserId info -> 0 < TokenId info ->
  unique_ids (led (tables s)) -> 0 <= pre <= i64_max -> 0 <= a <= i64_max ->
  PreConsumeQuota e1 pre info s = (None, s1) ->
  let f := FinalPreConsumedQuota (rel (tables s1)) in
  PostConsumeQuota e2 info (i64_sub a f) f s1 = (None, s2) ->
  uview (led (tables s2)) = ucharge (UserId info) a <$> uview (led (tables s)) /\
  kview (led (tables s2)) = kcharge (TokenId info) a <$> kview (led (tables s)).
Proof.
  intros Hb1 Hb2 Ha1 Hw1 Ha2 Hwa Hpg Hu Hk Hids Hpre Ha Hadm f Hpost.
  apply PreConsumeQuota_charged in Hadm as (Hf & Hc1 & Hauth); [|done|done|done|done|lia|lia|done].
  fold f in Hf, Hc1.
  assert (Hsub : i64_sub a f = a - f).
  { unfold i64_sub. apply wrap64_id. unfold64. unfold i64_max, i64_half in *. lia. }
  rewrite Hsub in Hpost.
  apply PostConsumeQuota_charged in Hpost;
    [|done|done|unfold auth in Hauth; by rewrite Hauth| |done|done|done].
  - pose proof (charged_trans _ _ _ _ _ _ _ _ Hc1 Hpost) as Hc. by rewrite Z.sub_add in Hc.
  - unfold i64_min, i64_max, i64_half in *. lia.
Qed.

(** The holds of a request are accounted for: every grant is still the request's
    hold or was dealt with exactly once. *)
Definition accounted (w : world) : Prop :=
  forall id, 0 < id ->
    granted id w = (disposals id w + if (hold_of w =? id)%Z then 1 else 0)%nat.

(** Any call the relay makes for one request, in any environment, under any
    faults. *)
Inductive request_step (info : RelayInfo) (w : world) : world -> Prop :=
| rs_pre e pre fs :
    request_step info w (tables (snd (PreConsumeQuota e pre info (mkStore w fs))))
| rs_post e q pre fs :
    request_step info w (tables (snd (PostConsumeQuota e info q pre (mkStore w fs))))
| rs_return e fs :
    request_step info w (tables (snd (ReturnPreConsumedQuota e info (mkStore w fs)))).

Lemma accounted_astray w : accounted w <-> forall id, 0 < id -> astray id w = 0.
Proof.
  unfold accounted, astray, tally. split; intros H id Hid; specialize (H id Hid);
    destruct (hold_of w =? id)%Z; lia.
Qed.

(** C2. No hold is lost or handled twice.  After any sequence of admissions,
    settlements and refunds of a request, in any order, whatever the platform
    answers and whichever writes fail, each hold the platform granted is either
    still recorded on the request or has been dealt with exactly once: settled or
    released by the platform, parked in the outbox, or reported lost. *)
Theorem holds_accounted info (w w' : world) :
  accounted w -> reachable (request_step info) w w' -> accounted w'.
Proof.
  intros H Hr. apply accounted_astray. pose proof (proj1 (accounted_astray w) H) as H0.
  clear H. revert w' Hr.
  apply (reachable_ind_inv _ (fun w => forall id, 0 < id -> astray id w = 0)); [done|].
  intros w1 w2 H1 [e pre fs|e q pre fs|e fs] id Hid;
    rewrite <- (H1 id Hid).
  - by apply PreConsumeQuota_astray.
  - by apply PostConsumeQuota_astray.
  - by apply ReturnPreConsumedQuota_astray.
Qed.

(** A request that is over keeps no hold.  Under any faults: a refusal leaves
    none unless the balance itself could not be read; a settlement of a linked
    account that charges something, or that ends what was pre-consumed, leaves none
    unless it stopped at the failed user write; and handing the pre-consumption
    back always lets go of it. *)
Theorem hold_let_go e info pre q s :
  (forall err s', PreConsumeQuota e pre info s = (Some err, s') ->
     errorCode err = ErrorCodeQueryDataError \/ hold_of (tables s') <= 0) /\
  (forall r s', PostConsumeQuota e info q pre s = (r, s') ->
     0 < IdentityAccountID info -> 0 < i64_add q pre \/ 0 < pre ->
     (exists err s1, user_leg e info q s = (Err err, s1) /\ r = Some err /\ s' = s1) \/
     hold_of (tables s') <= 0) /\
  hold_of (tables (snd (ReturnPreConsumedQuota e info s))) <= 0.
Proof.
  split_and!.
  - intros err s'. unfold PreConsumeQuota, cbind, get_rel.
    change (PlatformPreAuthID (rel (tables s))) with (hold_of (tables s)).
    destruct (hold_of (tables s) >? 0) eqn:Eh; [apply pre_local_refusal|].
    destruct (_ && _); [|apply pre_local_refusal].
    destruct (platformPreAuthorize e pre info s) as [[perr|] s1] eqn:E; [|apply pre_local_refusal].
    intros [= <- <-]. right. apply platformPreAuthorize_refusal in E.
    rewrite Z.gtb_ltb in Eh. bool_to_prop. lia.
  - intros r s' H Hacct Hor.
    assert (Hp : forall adv s1, post_phases e info q pre adv s1 = (r, s') -> hold_of (tables s') <= 0).
    { intros adv s1 Hp. pose proof (post_phases_hold e info q pre adv s1 Hacct Hor) as Hh.
      by rewrite Hp in Hh. }
    revert H. unfold PostConsumeQuota, cbind, get_rel. cbn zeta.
    destruct (UserId info >? 0); [|intros H; right; by eapply Hp].
    destruct (user_leg e info q s) as [[x|err] s1]; [intros H; right; by eapply Hp|].
    destruct (negb _); [|intros H; right; by eapply Hp]. intros [= <- <-]. left. eauto.
  - unfold ReturnPreConsumedQuota, cbind, get_rel.
    match goal with |- context [(if ?c then ?a else ?b) s] =>
      destruct ((if c then a else b) s) as [x s1] end.
    apply abandonPreAuth_hold.
Qed.
End ChargeProperties.
