(* ===== verification/QuotaChargeSafety.v ===== *)
(** * Charging a request: overdraft, refusals, refunds

    Further theorems on QuotaCharge: admission never overdraws, a refusal costs
    nothing, a failed settlement never reaches the wallet, what a second refund
    does, and the two ways a hold can be left behind. *)

From Stdlib Require Import SpecFloat.
From S2P Require Import Prelude GoStrings Calendar PlatformBilling Outbox Ledger CreditPool QuotaCharge QuotaChargeSpec.

(** ** Solvency *)

Section Solvency.
Import GoStrings PlatformBilling Outbox Ledger CreditPool QuotaCharge.
Implicit Types (s : store world) (info : RelayInfo) (e : env).

(** No balance below zero. *)
Definition solvent (db : ledgerdb) : Prop :=
  (forall u, u ∈ users db -> 0 <= u_Quota u) /\ (forall k, k ∈ tokens db -> 0 <= k_RemainQuota k).

Lemma update_users_solvent cond delta :
  (forall u, cond u = true -> 0 <= u_Quota u -> 0 <= u_Quota u + delta) ->
  preserves solvent (update_users cond delta).
Proof.
  intros Hc s [Hu Hk]. unfold update_users, stmt.
  destruct (next_fault (faults s)) as [[] fs]; [done|]. destruct (forallb _ _); [|done]. cbn [snd tables].
  split; [|exact Hk]. intros u (u0 & Hin & ->)%elem_of_update_where.
  specialize (Hu u0 Hin). destruct (cond u0) eqn:E; [|done]. cbn. by apply Hc.
Qed.

Lemma update_tokens_solvent cond delta now :
  (forall k, cond k = true -> 0 <= k_RemainQuota k -> 0 <= k_RemainQuota k + delta) ->
  preserves solvent (update_tokens cond delta now).
Proof.
  intros Hc s [Hu Hk]. unfold update_tokens, stmt.
  destruct (next_fault (faults s)) as [[] fs]; [done|]. destruct (forallb _ _); [|done]. cbn [snd tables].
  split; [done|]. intros k (k0 & Hin & ->)%elem_of_update_where.
  specialize (Hk k0 Hin). destruct (cond k0) eqn:E; [|done]. cbn. by apply Hc.
Qed.

Lemma bind_solvent {A B} (m : L A) (k : A -> L B) :
  preserves solvent m -> (forall a, preserves solvent (k a)) -> preserves solvent (bind m k).
Proof. intros Hm Hk s. apply bind_preserves; [done|]. intros a s1. apply Hk. Qed.

Lemma DecreaseUserQuotaIfEnough_solvent id q : preserves solvent (DecreaseUserQuotaIfEnough id q).
Proof.
  unfold DecreaseUserQuotaIfEnough. destruct (q <? 0); [by intros s|].
  apply bind_solvent; [|by intros n s]. apply update_users_solvent. intros u H _.
  rewrite Z.geb_leb in H. bool_to_prop. lia.
Qed.

Lemma DecreaseTokenQuotaIfEnough_solvent id q now :
  preserves solvent (DecreaseTokenQuotaIfEnough id q now).
Proof.
  unfold DecreaseTokenQuotaIfEnough. destruct (q <? 0); [by intros s|].
  apply bind_solvent; [|by intros n s]. apply update_tokens_solvent. intros k H _.
  rewrite Z.geb_leb in H. bool_to_prop. lia.
Qed.

Lemma IncreaseTokenQuota_solvent b id q now : preserves solvent (IncreaseTokenQuota b id q now).
Proof.
  unfold IncreaseTokenQuota, increaseTokenQuota. destruct (Z.ltb_spec q 0); [by intros s|].
  destruct b; [by intros s|]. apply bind_solvent; [|by intros n s].
  apply update_tokens_solvent. intros k _. lia.
Qed.

(** Lifted to the world. *)
Definition csolvent {A} (m : C A) : Prop :=
  forall s, solvent (led (tables s)) -> solvent (led (tables (snd (m s)))).

Lemma csolvent_ret {A} (a : A) : csolvent (cret a).
Proof. by intros s. Qed.

Lemma csolvent_bind {A B} (m : C A) (k : A -> C B) :
  csolvent m -> (forall a, csolvent (k a)) -> csolvent (cbind m k).
Proof.
  intros Hm Hk s Hs. unfold cbind. specialize (Hm s Hs). destruct (m s) as [a s1]. by apply Hk.
Qed.

Lemma csolvent_local {A} (m : C A) : keeps local m -> csolvent m.
Proof. intros Hm s Hs. specialize (Hm s). unfold local in Hm. by injection Hm as -> _. Qed.

Lemma csolvent_led {A} (m : L A) : preserves solvent m -> csolvent (on_led m).
Proof.
  intros Hm s Hs. unfold on_led, lift. specialize (Hm (mkStore (led (tables s)) (faults s)) Hs).
  by destruct (m _) as [r t].
Qed.

Lemma csolvent_on_rel f : csolvent (on_rel f).
Proof. by intros s. Qed.

Lemma rollback_solvent e info q : csolvent (rollbackTokenFreeze e info q).
Proof.
  apply csolvent_bind; [apply csolvent_led, IncreaseTokenQuota_solvent|]. intros _. apply csolvent_ret.
Qed.

Lemma refuse_solvent e info err : csolvent (refuse e info err).
Proof. apply csolvent_local, refuse_local. Qed.

Lemma pre_deduct_solvent e info pre :
  TokenUnlimited info = false -> csolvent (pre_deduct e info pre false).
Proof.
  intros Hlim. unfold pre_deduct. apply csolvent_bind.
  - unfold PreConsumeTokenQuota. rewrite Hlim. repeat case_match; try apply csolvent_ret.
    apply csolvent_bind; [apply csolvent_led, DecreaseTokenQuotaIfEnough_solvent|].
    intros w. apply csolvent_ret.
  - intros [x|[|terr]]; [|apply refuse_solvent..]. destruct (UserId info =? 0).
    { apply csolvent_bind; [apply csolvent_on_rel|]. intros _. apply csolvent_ret. }
    apply csolvent_bind; [apply csolvent_led, DecreaseUserQuotaIfEnough_solvent|].
    intros [[]|uerr]; apply csolvent_bind; try apply rollback_solvent; try apply csolvent_on_rel;
      intros _; first [apply csolvent_ret | apply refuse_solvent].
Qed.

Lemma pre_local_solvent e pre info :
  advisory_flag e = false -> wallet_authoritative e = false -> TokenUnlimited info = false ->
  csolvent (pre_local e pre info).
Proof.
  intros Ha Hw Hlim.
  assert (Hg : forall uq, csolvent (pre_gates e info pre uq false)).
  { intros uq. unfold pre_gates. destruct (enforceTenantQuota e pre); [apply refuse_solvent|].
    destruct (enforceProjectBudget _ _ _); [apply refuse_solvent|].
    apply csolvent_bind; [apply csolvent_on_rel|]. intros _.
    match goal with |- csolvent (if ?c then _ else _) => destruct c end; [by apply pre_deduct_solvent|].
    apply csolvent_bind; [apply csolvent_on_rel|]. intros _. apply csolvent_ret. }
  unfold pre_local. rewrite Ha, Hw. cbn [andb]. apply csolvent_bind; [by intros s|]. intros r.
  rewrite andb_false_r. cbn [orb]. apply csolvent_bind; [apply csolvent_ret|]. intros _.
  destruct (UserId info =? 0); [apply Hg|]. apply csolvent_bind.
  - apply csolvent_led. intros s Hs.
    pose proof (GetUserQuota_keeps (fun db => db) (UserId info) (cached_quota e) s) as Hk.
    cbn beta in Hk. by rewrite Hk.
  - intros [uq|uerr]; [|apply csolvent_ret].
    match goal with |- csolvent (if ?c then _ else _) => destruct c end; [apply refuse_solvent|apply Hg].
Qed.
End Solvency.

(** ** Refusals *)

Section Refusals.
Import GoStrings PlatformBilling Outbox Ledger CreditPool QuotaCharge.
Implicit Types (s : store world) (info : RelayInfo) (e : env).

Definition tokens_fit (db : ledgerdb) : Prop :=
  forall k, k ∈ tokens db -> in64b (k_RemainQuota k) = true /\ in64b (k_UsedQuota k) = true.

Lemma healthy_user_debit id q : healthy (DecreaseUserQuotaIfEnough id q).
Proof. unfold DecreaseUserQuotaIfEnough, update_users. solve_healthy. Qed.

Lemma healthy_token_debit b id q now : healthy (DecreaseTokenQuota b id q now).
Proof.
  unfold DecreaseTokenQuota, decreaseTokenQuota, update_tokens. solve_healthy. done.
Qed.

Lemma healthy_token_debit_if id q now : healthy (DecreaseTokenQuotaIfEnough id q now).
Proof. unfold DecreaseTokenQuotaIfEnough, update_tokens. solve_healthy. Qed.

(** A failed or refused debit writes nothing. *)
Lemma DecreaseUserQuotaIfEnough_refused id q (t t' : store ledgerdb) r :
  DecreaseUserQuotaIfEnough id q t = (r, t') -> r <> Ok true -> tables t' = tables t.
Proof.
  unfold DecreaseUserQuotaIfEnough. destruct (q <? 0); [by intros [= _ <-]|]. unfold bind.
  destruct (update_users _ _ t) as [[n|err] t1] eqn:E.
  - intros [= <- <-] Hr. destruct n; [|done]. apply stmt_ok in E. case_match; [|discriminate].
    injection E as Hn Ht. rewrite <- Ht. unfold set_users.
    rewrite update_where_none by by apply affected_0. by destruct (tables t).
  - intros [= _ <-] _. by apply stmt_atomic in E.
Qed.

Lemma DecreaseTokenQuotaIfEnough_refused id q now (t t' : store ledgerdb) r :
  DecreaseTokenQuotaIfEnough id q now t = (r, t') -> r <> Ok true -> tables t' = tables t.
Proof.
  unfold DecreaseTokenQuotaIfEnough. destruct (q <? 0); [by intros [= _ <-]|]. unfold bind.
  destruct (update_tokens _ _ _ t) as [[n|err] t1] eqn:E.
  - intros [= <- <-] Hr. destruct n; [|done]. apply stmt_ok in E. case_match; [|discriminate].
    injection E as Hn Ht. rewrite <- Ht. unfold set_tokens.
    rewrite update_where_none by by apply affected_0. by destruct (tables t).
  - intros [= _ <-] _. by apply stmt_atomic in E.
Qed.

Lemma DecreaseTokenQuota_refused id q now (t t' : store ledgerdb) err :
  DecreaseTokenQuota false id q now t = (Err err, t') -> tables t' = tables t.
Proof.
  unfold DecreaseTokenQuota, decreaseTokenQuota. destruct (q <? 0); [by intros [= _ <-]|]. unfold bind.
  destruct (update_tokens _ _ _ t) as [[n|err'] t1] eqn:E; intros [= _ <-]. by apply stmt_atomic in E.
Qed.

(** The credit that undoes a debit goes through on a healthy database. *)
Lemma IncreaseTokenQuota_undoes id q now db :
  0 <= q ->
  (forall k, k ∈ tokens db -> token_is id k = true ->
     in64b (k_RemainQuota k + q) = true /\ in64b (k_UsedQuota k - q) = true) ->
  exists db', IncreaseTokenQuota false id q now (mkStore db []) = (Ok tt, mkStore db' []).
Proof.
  intros Hq Hfit. unfold IncreaseTokenQuota, increaseTokenQuota. rewrite (proj2 (Z.ltb_ge q 0)) by done.
  unfold update_tokens, bind. rewrite stmt_healthy. rewrite (proj2 (forallb_forall _ (tokens db))); [eauto|].
  intros k Hk. destruct (token_is id k) eqn:E; [|done]. apply list_elem_of_In in Hk.
  destruct (Hfit k Hk E) as [-> ->]. done.
Qed.

(** Rows of a charged table, through the view. *)
Lemma kview_fit db db' id q k :
  kview db' = kcharge id q <$> kview db -> tokens_fit db -> k ∈ tokens db' -> token_is id k = true ->
  in64b (k_RemainQuota k + q) = true /\ in64b (k_UsedQuota k - q) = true.
Proof.
  intros Hv Hfit Hk Hid. apply (list_elem_of_fmap_2 kbal) in Hk. change (kbal <$> tokens db') with (kview db') in Hk.
  rewrite Hv in Hk. unfold kview in Hk. rewrite <- list_fmap_compose in Hk.
  apply list_elem_of_fmap in Hk as (k0 & E & Hk0). destruct (Hfit k0 Hk0) as [H1 H2].
  unfold compose, kbal, kcharge in E. unfold token_is in Hid.
  destruct ((k_ID k0 =? id) && negb (k_Deleted k0)) eqn:Ek; injection E as E1 E2 E3 E4.
  - rewrite E3, E4. by rewrite Z.sub_add, Z.add_simpl_r.
  - by rewrite E1, E2, Ek in Hid.
Qed.

Lemma on_led_healthy {A} (m : L A) s r s' :
  healthy m -> on_led m s = (r, s') -> faults s = [] -> faults s' = [].
Proof.
  intros Hm (t & H & _ & ->)%on_led_inv Hf. specialize (Hm (mkStore (led (tables s)) (faults s)) Hf). by rewrite H in Hm.
Qed.

Lemma PreConsumeTokenQuota_healthy e info q s r s' :
  PreConsumeTokenQuota e info q s = (r, s') -> faults s = [] -> faults s' = [].
Proof.
  unfold PreConsumeTokenQuota, cbind. destruct (q <? 0); [by intros [= _ <-]|].
  destruct (IsPlayground info); [by intros [= _ <-]|].
  destruct (TokenUnlimited info); destruct (on_led _ s) as [w s1] eqn:E;
    intros H; assert (s' = s1) as -> by (by injection H); revert E; apply on_led_healthy.
  - apply healthy_token_debit.
  - apply healthy_token_debit_if.
Qed.

Lemma PreConsumeTokenQuota_refused e info q s err s' :
  batch e = false -> PreConsumeTokenQuota e info q s = (Err err, s') ->
  led (tables s') = led (tables s).
Proof.
  intros Hb. unfold PreConsumeTokenQuota, cbind. rewrite Hb.
  destruct (q <? 0); [by intros [= _ <-]|]. destruct (IsPlayground info); [discriminate|].
  destruct (TokenUnlimited info); destruct (on_led _ s) as [r s1] eqn:E;
    apply on_led_inv in E as (t & H & Ht & _); intros H'; assert (s' = s1) as -> by (by injection H');
    rewrite Ht; cbn [led set_led].
  - destruct r as [x|lerr]; [discriminate|]. by apply DecreaseTokenQuota_refused in H.
  - apply (DecreaseTokenQuotaIfEnough_refused _ _ _ _ _ _ H). intros ->. discriminate.
Qed.

(** Undoing the key's debit. *)
Lemma rollback_undoes e info q s0 s s' x :
  batch e = false -> 0 <= q -> faults s = [] -> tokens_fit (led (tables s0)) ->
  charged s0 s info 0 q -> rollbackTokenFreeze e info q s = (x, s') -> charged s0 s' info 0 0.
Proof.
  intros Hb Hq Hf Hfit Hc. unfold rollbackTokenFreeze, cbind. rewrite Hb.
  destruct (on_led _ s) as [r s1] eqn:E. intros [= _ <-].
  apply on_led_inv in E as (t & H & Ht & _). rewrite Hf in H.
  destruct (IncreaseTokenQuota_undoes (TokenId info) q (time_Unix (now e)) (led (tables s)) Hq) as [db' Hok].
  { intros k Hk Hid. eapply kview_fit; [apply Hc|done..]. }
  rewrite H in Hok. injection Hok as -> ->. apply IncreaseTokenQuota_view in H as [Hk Hu].
  cbn [tables] in Hk, Hu, Ht. destruct Hc as [Hcu Hck]. unfold charged. rewrite Ht. cbn [led set_led].
  rewrite Hk, Hu, Hcu, Hck, kcharge_compose. by rewrite Z.add_opp_diag_l.
Qed.

Lemma pre_deduct_refusal_free e info pre s err s' :
  batch e = false -> IsPlayground info = false -> 0 <= pre -> faults s = [] ->
  unique_ids (led (tables s)) -> tokens_fit (led (tables s)) ->
  pre_deduct e info pre false s = (Some err, s') -> charged s s' info 0 0.
Proof.
  intros Hb Hpg Hpre Hf [Hndu Hndk] Hfit. unfold pre_deduct, cbind.
  destruct (PreConsumeTokenQuota e info pre s) as [[[]|terr] s1] eqn:E1.
  - pose proof (PreConsumeTokenQuota_healthy _ _ _ _ _ _ E1 Hf) as Hf1.
    apply PreConsumeTokenQuota_charged in E1 as (Hc1 & Hus & _); [|done..].
    destruct (UserId info =? 0); [discriminate|].
    destruct (on_led _ s1) as [r s2] eqn:E2. apply on_led_inv in E2 as (t & H & Ht & Hft).
    assert (Hf2 : faults s2 = []).
    { rewrite Hft. pose proof (healthy_user_debit (UserId info) pre (mkStore (led (tables s1)) (faults s1)) Hf1) as Hh.
      by rewrite H in Hh. }
    assert (Hroll : r <> Ok true -> forall aerr x s3, rollbackTokenFreeze e info pre s2 = (x, s3) ->
      refuse e info aerr s3 = (Some err, s') -> charged s s' info 0 0).
    { intros Hr aerr x s3 E3 E4. apply DecreaseUserQuotaIfEnough_refused in H; [|done].
      assert (Hc2 : charged s s2 info 0 pre).
      { unfold charged in *. rewrite Ht. cbn [led set_led]. by rewrite H. }
      apply (rollback_undoes _ _ _ s) in E3; [|done..].
      pose proof (refuse_local e info aerr s3) as Hl. rewrite E4 in Hl. unfold local in Hl.
      cbn [snd] in Hl. injection Hl as Hl _. unfold charged in *. by rewrite Hl. }
    destruct r as [[]|uerr]; [discriminate| |]; destruct (rollbackTokenFreeze e info pre s2) as [x s3] eqn:E3;
      intros E4; eapply Hroll; done.
  - apply PreConsumeTokenQuota_refused in E1; [|done]. intros H. apply charged_refl. rewrite <- E1.
    destruct terr; match goal with _ : refuse _ _ ?e0 _ = _ |- _ =>
      pose proof (refuse_local e info e0 s1) as Hl end; rewrite H in Hl; unfold local in Hl;
      cbn [snd] in Hl; by injection Hl.
Qed.

Lemma PreConsumeQuota_pool e pre info : keeps pool (PreConsumeQuota e pre info).
Proof.
  assert (Hab : keeps pool (abandonPreAuth e info)).
  { intros s. pose proof (abandonPreAuth_local e info s) as Hk. unfold local in Hk. by injection Hk. }
  assert (Hpa : keeps pool (platformPreAuthorize e pre info)).
  { intros s. pose proof (platformPreAuthorize_local e pre info s) as Hk. unfold local in Hk.
    by injection Hk. }
  unfold PreConsumeQuota, pre_local, pre_gates, pre_deduct, PreConsumeTokenQuota,
    rollbackTokenFreeze, refuse. solve_keeps.
Qed.
End Refusals.

(** ** The wallet of a failed settlement *)

Section Uncharged.
Import GoStrings PlatformBilling Outbox Ledger CreditPool QuotaCharge.
Implicit Types (s : store world) (info : RelayInfo) (e : env) (w : world).

Definition is_charge (ev : event) : bool :=
  match ev with EvSettle _ _ _ | EvDebit _ _ _ _ => true | _ => false end.

(** The charges made, and those parked for the outbox to make. *)
Definition wallet_view w :=
  (List.filter is_charge (trace w),
   List.filter (fun r => String.eqb (b_Action r) outboxActionSettle) (holds (box w)),
   debits (box w)).

Lemma wallet_view_event ev w : is_charge ev = false -> wallet_view (add_event ev w) = wallet_view w.
Proof.
  intros H. unfold wallet_view. cbn [trace box add_event]. rewrite List.filter_app. simpl.
  by rewrite H, app_nil_r.
Qed.

Lemma call_wallet {A} e canc (reply : result goerr A) ev :
  (forall b, is_charge (ev b) = false) -> keeps wallet_view (call e canc reply ev).
Proof.
  intros Hev s. unfold call. destruct (with_breaker _ _ _ _ _) as [[r called] b]. cbn [snd tables].
  destruct called; [by rewrite wallet_view_event|done].
Qed.

Lemma EnqueueRelease_wallet ok acct id nw : keeps wallet_view (on_box (EnqueueRelease ok acct id nw)).
Proof.
  intros s. unfold on_box, lift, EnqueueRelease, enqueue_hold. destruct ok; [|done]. cbn [negb].
  unfold stmt. cbn [tables faults]. destruct (next_fault (faults s)) as [[] fs]; [done|].
  destruct (existsb _ _); [done|]. cbn [snd tables]. unfold wallet_view.
  cbn [trace box set_box holds debits]. rewrite List.filter_app. simpl. by rewrite app_nil_r.
Qed.

Lemma abandonPreAuth_wallet e info : keeps wallet_view (abandonPreAuth e info).
Proof.
  unfold abandonPreAuth, releasePlatformPreAuth. cbn zeta.
  apply keeps_bind; [by intros s|]. intros r. destruct (_ <=? 0); [by intros s|].
  apply keeps_bind; [|by intros _ s]. apply keeps_bind; [by intros s|]. intros r'.
  destruct (_ <=? 0); [by intros s|]. apply keeps_bind; [by apply call_wallet|].
  intros [x|err]; [by intros s|]. apply keeps_bind; [apply EnqueueRelease_wallet|].
  intros [y|oerr]; [by intros s|]. intros s. by apply wallet_view_event.
Qed.

Lemma settle_inconsistent_wallet e info total pre :
  keeps wallet_view (settlePlatformWallet e info total pre false false).
Proof.
  unfold settlePlatformWallet. cbn zeta. cbn [negb andb orb].
  apply keeps_bind; [by intros s|]. intros r.
  repeat match goal with |- keeps _ (if ?c then _ else _) => destruct c end;
    first [apply abandonPreAuth_wallet | by intros s].
Qed.

Lemma wallet_of_hold w w' : holdview w' = holdview w -> wallet_view w' = wallet_view w.
Proof. unfold holdview, wallet_view. by intros [= _ -> -> _]. Qed.
End Uncharged.

(** ** Refunds *)

Section Refunds.
Import GoStrings PlatformBilling Outbox Ledger CreditPool QuotaCharge.
Implicit Types (s : store world) (info : RelayInfo) (e : env).

(** The rows of the request can take a credit of [f]. *)
Definition room info f (db : ledgerdb) : Prop :=
  (forall u, u ∈ users db -> user_is (UserId info) u = true -> in32b (u_Quota u + f) = true) /\
  (forall k, k ∈ tokens db -> token_is (TokenId info) k = true ->
     in64b (k_RemainQuota k + f) = true /\ in64b (k_UsedQuota k - f) = true).

Lemma IncreaseUserQuota_room id f db :
  0 <= f ->
  (forall u, u ∈ users db -> user_is id u = true -> in32b (u_Quota u + f) = true) ->
  exists db', IncreaseUserQuota false id f false (mkStore db []) = (Ok tt, mkStore db' []) /\
    tokens db' = tokens db.
Proof.
  intros Hf Hfit. unfold IncreaseUserQuota, increaseUserQuota. rewrite (proj2 (Z.ltb_ge f 0)) by done.
  cbn [andb negb]. unfold update_users, bind. rewrite stmt_healthy.
  rewrite (proj2 (forallb_forall _ (users db))); [by eexists|].
  intros u Hu. destruct (user_is id u) eqn:E; [|done]. apply list_elem_of_In in Hu.
  by rewrite (Hfit u Hu E).
Qed.

Lemma uview_room db db' id g u :
  uview db' = ucharge id g <$> uview db -> u ∈ users db' -> user_is id u = true ->
  exists u0, u0 ∈ users db /\ user_is id u0 = true /\ u_Quota u = u_Quota u0 - g.
Proof.
  intros Hv Hu Hid. apply (list_elem_of_fmap_2 ubal) in Hu.
  change (ubal <$> users db') with (uview db') in Hu. rewrite Hv in Hu. unfold uview in Hu.
  rewrite <- list_fmap_compose in Hu. apply list_elem_of_fmap in Hu as (u0 & E & Hu0).
  exists u0. unfold compose, ubal, ucharge in E. unfold user_is in *. injection E as E1 E2 E3.
  rewrite E1, E2 in Hid. rewrite Hid in E3. done.
Qed.

Lemma kview_room db db' id g k :
  kview db' = kcharge id g <$> kview db -> k ∈ tokens db' -> token_is id k = true ->
  exists k0, k0 ∈ tokens db /\ token_is id k0 = true /\
    k_RemainQuota k = k_RemainQuota k0 - g /\ k_UsedQuota k = k_UsedQuota k0 + g.
Proof.
  intros Hv Hk Hid. apply (list_elem_of_fmap_2 kbal) in Hk.
  change (kbal <$> tokens db') with (kview db') in Hk. rewrite Hv in Hk. unfold kview in Hk.
  rewrite <- list_fmap_compose in Hk. apply list_elem_of_fmap in Hk as (k0 & E & Hk0).
  exists k0. unfold compose, kbal, kcharge in E. unfold token_is in *.
  destruct ((k_ID k0 =? id) && negb (k_Deleted k0)) eqn:Ek; injection E as E1 E2 E3 E4; [done|].
  by rewrite E1, E2, Ek in Hid.
Qed.

Lemma room_charged s s' info a g :
  charged s s' info a a -> room info (g - a) (led (tables s)) -> room info g (led (tables s')).
Proof.
  intros [Hu Hk] [Ru Rk]. split.
  - intros u Hin Hid. destruct (uview_room _ _ _ _ u Hu Hin Hid) as (u0 & Hin0 & Hid0 & ->).
    replace (u_Quota u0 - a + g) with (u_Quota u0 + (g - a)) by lia. by apply Ru.
  - intros k Hin Hid. destruct (kview_room _ _ _ _ k Hk Hin Hid) as (k0 & Hin0 & Hid0 & -> & ->).
    replace (k_RemainQuota k0 - a + g) with (k_RemainQuota k0 + (g - a)) by lia.
    replace (k_UsedQuota k0 + a - g) with (k_UsedQuota k0 - (g - a)) by lia. by apply Rk.
Qed.

(** A refund on a healthy database with room. *)
Lemma refund_ok e info f s :
  batch e = false -> 0 < f <= i64_max -> faults s = [] ->
  IsPlayground info = false -> 0 < UserId info -> 0 < TokenId info ->
  room info f (led (tables s)) ->
  exists s', PostConsumeQuota e info (wrap64 (- f)) 0 s = (None, s') /\
    charged s s' info (- f) (- f) /\ faults s' = [] /\ rel (tables s') = rel (tables s).
Proof.
  intros Hb Hf Hfs Hpg Hu Hk [Ru Rk].
  assert (Hw : wrap64 (- f) = - f) by (apply wrap64_opp; unfold i64_min, i64_max, i64_half in *; lia).
  assert (Hww : wrap64 (- wrap64 (- f)) = f).
  { rewrite Hw, Z.opp_involutive. apply wrap64_id. unfold64. unfold i64_max, i64_half in *. lia. }
  assert (Htot : i64_add (- f) 0 = - f) by (unfold i64_add; by rewrite Z.add_0_r).
  destruct (IncreaseUserQuota_room (UserId info) f (led (tables s)) ltac:(lia) Ru) as (db1 & E1 & Ht1).
  destruct (IncreaseTokenQuota_undoes (TokenId info) f (time_Unix (now e)) db1 ltac:(lia)) as (db2 & E2).
  { rewrite Ht1. done. }
  pose proof (IncreaseUserQuota_view _ _ _ _ _ E1) as [V1 V2].
  pose proof (IncreaseTokenQuota_view _ _ _ _ _ _ E2) as [V3 V4]. cbn [tables] in *.
  exists (mkStore (set_led db2 (tables s)) []). split.
  - unfold PostConsumeQuota, post_phases, pool_phase, token_phase, user_leg, token_leg, cbind, get_rel.
    rewrite !Hww, Hw, Hb, Hpg, Htot. rewrite (proj2 (Z.gtb_lt (UserId info) 0)) by lia.
    rewrite (Z.gtb_ltb (- f)), (proj2 (Z.ltb_ge 0 (- f))) by lia. cbn [andb negb].
    rewrite (proj2 (Z.gtb_lt (TokenId info) 0)) by lia.
    unfold on_led, lift. rewrite Hfs, E1. cbn [tables faults cret led set_led]. rewrite E2.
    cbn [tables faults]. unfold settlePlatformWallet, cbind, get_rel. cbn [tables rel set_led].
    rewrite (Z.gtb_ltb (- f)), (proj2 (Z.ltb_ge 0 (- f))) by lia. rewrite !andb_false_r. done.
  - split; [|done]. unfold charged. cbn [tables led set_led].
    by rewrite V3, V4, V1, V2.
Qed.

Lemma ReturnPreConsumedQuota_refunds e info s :
  let f := FinalPreConsumedQuota (rel (tables s)) in
  batch e = false -> 0 < f <= i64_max -> faults s = [] ->
  IsPlayground info = false -> 0 < UserId info -> 0 < TokenId info -> PlatformPreAuthID (rel (tables s)) = 0 ->
  room info f (led (tables s)) ->
  let s' := snd (ReturnPreConsumedQuota e info s) in
  charged s s' info (- f) (- f) /\ faults s' = [] /\ rel (tables s') = rel (tables s).
Proof.
  intros f Hb Hf Hfs Hpg Hu Hk Hh Hr.
  destruct (refund_ok e info f s Hb Hf Hfs Hpg Hu Hk Hr) as (s1 & E & Hc & Hfs1 & Hrel).
  unfold ReturnPreConsumedQuota, cbind, get_rel. fold f. rewrite (proj2 (Z.eqb_neq f 0)) by lia.
  cbn [negb]. rewrite E.
  destruct (abandonPreAuth_cases e info s1) as [[_ ->]|[Hpos _]]; [done|].
  unfold hold_of in Hpos. rewrite Hrel, Hh in Hpos. lia.
Qed.
End Refunds.

(** ** The failures that strand a hold *)

Section Stranded.
Import GoStrings PlatformBilling Outbox Ledger CreditPool QuotaCharge.
Implicit Types (s : store world) (info : RelayInfo) (e : env).

Lemma preauth_granted e est info s id code link :
  skip_enabled e = false -> b_state (brk (tables s)) = BClosed -> configured e = true ->
  preauth_reply e = Answer StatusOK code link (Some id) ->
  exists b, platformPreAuthorize e est info s =
    (None, mkStore (set_rel (set_governed (set_preauth id (rel (tables s))))
       (add_event (EvPreAuth (IdentityAccountID info) (QuotaToCNY (exchange e) est) (Ok id))
          (set_brk b (tables s)))) (faults s)).
Proof.
  intros Hskip Hbrk Hconf Hreply. unfold platformPreAuthorize, ShouldSkipPreAuth. rewrite Hskip.
  cbn [negb]. cbn zeta. unfold cbind at 1, call, with_breaker, BillingBreakerAllow.
  rewrite Hbrk, Hreply, Hconf.
  assert (PreAuthorize true (Answer StatusOK code link (Some id)) = Ok id) as -> by done.
  eexists. reflexivity.
Qed.

Lemma pre_local_unreadable e pre info s fs :
  faults s = true :: fs -> UserId info <> 0 -> cached_quota e = None ->
  exists s', pre_local e pre info s =
    (Some (mkAPIError ErrorCodeQueryDataError StatusInternalServerError 0 ""), s') /\
    hold_of (tables s') = hold_of (tables s) /\ trace (tables s') = trace (tables s) /\
    box (tables s') = box (tables s).
Proof.
  intros Hfs Hu Hcache. unfold pre_local, cbind, get_rel. cbn zeta.
  rewrite (proj2 (Z.eqb_neq _ _)) by done. unfold on_led, lift, GetUserQuota. rewrite Hcache.
  unfold bind, query, stmt.
  match goal with |- context [(if ?c then _ else _) s] => destruct c end;
    cbn [on_rel modify cret faults tables]; unfold cret; rewrite Hfs; cbn [next_fault faults tables];
    eexists; split_and!; reflexivity.
Qed.
End Stranded.

Section SafetyProperties.
Import GoStrings Calendar PlatformBilling Outbox Ledger CreditPool QuotaCharge.

(** C3. Admission never overdraws.  Where the local ledger is authoritative and
    the key has a limit, admitting or refusing a request never takes a user's
    balance or a key's remaining quota below zero, whatever balance the pre-check
    read (a stale cached one included), whatever the platform answers and whichever
    statements fail: the conditional updates decide, not the reading. *)
Theorem preconsume_solvent e pre info (s : store world) :
  advisory_flag e = false -> wallet_authoritative e = false -> TokenUnlimited info = false ->
  solvent (led (tables s)) -> solvent (led (tables (snd (PreConsumeQuota e pre info s)))).
Proof.
  intros Ha Hw Hlim. revert s. change (csolvent (PreConsumeQuota e pre info)).
  unfold PreConsumeQuota. apply csolvent_bind; [by intros s|]. intros r.
  pose proof (pre_local_solvent e pre info Ha Hw Hlim) as Hl.
  destruct (_ >? 0); [apply csolvent_bind; [apply csolvent_on_rel|by intros _]|].
  destruct (_ && _); [|done]. apply csolvent_bind; [apply csolvent_local, platformPreAuthorize_local|].
  intros [err|]; [apply csolvent_ret|done].
Qed.

(** C4. A refusal is free. On a healthy database, where the local ledger is authoritative,
    the write buffer is off and the key quotas are within int64, a refused request of a
    key (not one of the playground) leaves every balance as it was, the key's debit that
    was already taken included, and no pool is touched. *)
Theorem preconsume_refusal_free e pre info (s : store world) err s' :
  batch e = false -> advisory_flag e = false -> wallet_authoritative e = false ->
  IsPlayground info = false -> 0 <= pre -> faults s = [] ->
  unique_ids (led (tables s)) -> tokens_fit (led (tables s)) ->
  PreConsumeQuota e pre info s = (Some err, s') ->
  uview (led (tables s')) = uview (led (tables s)) /\
  kview (led (tables s')) = kview (led (tables s)) /\
  pool (tables s') = pool (tables s).
Proof.
  intros Hb Ha Hw Hpg Hpre Hfs Hids Hfit H.
  cut (charged s s' info 0 0).
  { intros [H1 H2]. rewrite ucharge_0, kcharge_0 in *. split_and!; [done..|].
    pose proof (PreConsumeQuota_pool e pre info s) as Hk. by rewrite H in Hk. }
  assert (Hrefuse : forall s1 aerr, led (tables s1) = led (tables s) ->
    refuse e info aerr s1 = (Some err, s') -> charged s s' info 0 0).
  { intros s1 aerr Hl E. apply charged_refl. rewrite <- Hl.
    pose proof (refuse_local e info aerr s1) as Hk. rewrite E in Hk. by injection Hk. }
  assert (Hgates : forall uq s1, led (tables s1) = led (tables s) -> faults s1 = [] ->
    pre_gates e info pre uq false s1 = (Some err, s') -> charged s s' info 0 0).
  { intros uq s1 Hl Hf1. unfold pre_gates. destruct (enforceTenantQuota e pre); [by apply Hrefuse|].
    destruct (enforceProjectBudget _ _ _); [by apply Hrefuse|]. unfold cbind. cbn zeta.
    match goal with |- context [if ?c >? 0 then _ else _] => destruct (Z.gtb_spec c 0) end; [|discriminate].
    intros E. assert (Hc : charged (snd (on_rel (set_user_quota uq) s1)) s' info 0 0).
    { eapply pre_deduct_refusal_free; [done|done| |done|cbn; by rewrite Hl|cbn; by rewrite Hl|exact E]. lia. }
    unfold charged in *. cbn [snd tables led on_rel modify set_rel] in Hc. by rewrite Hl in Hc. }
  assert (Hlocal : forall s1, led (tables s1) = led (tables s) -> faults s1 = [] ->
    pre_local e pre info s1 = (Some err, s') -> charged s s' info 0 0).
  { intros s1 Hl Hf1. unfold pre_local, cbind, get_rel. rewrite Ha, Hw. cbn [andb orb negb].
    rewrite andb_false_r. cbn [orb]. unfold cret at 1.
    destruct (UserId info =? 0); [by apply Hgates|].
    destruct (on_led _ s1) as [[uq|uerr] s2] eqn:E1; apply on_led_inv in E1 as (t & E & Ht & Hft);
      pose proof (GetUserQuota_keeps (fun db => db) (UserId info) (cached_quota e)
        (mkStore (led (tables s1)) (faults s1))) as Hk; rewrite E in Hk; cbn in Hk.
    - assert (Hl2 : led (tables s2) = led (tables s)) by (rewrite Ht; cbn; by rewrite Hk).
      assert (Hf2 : faults s2 = []).
      { rewrite Hft. revert E. unfold GetUserQuota, query, stmt, bind, ret. rewrite Hf1.
        destruct (cached_quota e); cbn; by intros [= _ <-]. }
      match goal with |- context [if ?c then refuse _ _ _ else _] => destruct c end;
        [by apply Hrefuse|by apply Hgates].
    - intros [= _ <-]. apply charged_refl. rewrite Ht. cbn. by rewrite Hk. }
  revert H. unfold PreConsumeQuota, cbind, get_rel. destruct (_ >? 0); [by apply Hlocal|].
  destruct (_ && _); [|by apply Hlocal].
  pose proof (platformPreAuthorize_local e pre info s) as Hpl.
  assert (Hpf : faults (snd (platformPreAuthorize e pre info s)) = []).
  { unfold platformPreAuthorize. cbn zeta. destruct (ShouldSkipPreAuth _ _ _); [done|].
    unfold cbind at 1, call. destruct (with_breaker _ _ _ _ _) as [[[i|perr] called] b]; [done|].
    by destruct (TryDegradedPreAuth _ _ _ _ _ _ _). }
  destruct (platformPreAuthorize e pre info s) as [[perr|] s1]; cbn [snd] in *;
    unfold local in Hpl; injection Hpl as Hl _.
  - intros [= _ <-]. by apply charged_refl.
  - by apply Hlocal.
Qed.

(** A settlement that failed never reaches the wallet.  Where the local ledger
    is authoritative, under any faults and whatever the platform answers: when
    settling reports an error, no settle and no debit was sent to the platform and
    none was parked for later; the hold, if any, can only have been released. *)
Theorem failed_settlement_uncharged e info q pre (s : store world) err s' :
  PlatformGoverned (rel (tables s)) && (advisory_flag e || WalletAuthoritative (rel (tables s))) = false ->
  PostConsumeQuota e info q pre s = (Some err, s') ->
  wallet_view (tables s') = wallet_view (tables s).
Proof.
  intros Hadv. unfold PostConsumeQuota, cbind, get_rel. rewrite Hadv. cbn [negb].
  assert (Hpost : forall s1, wallet_view (tables s1) = wallet_view (tables s) ->
    post_phases e info q pre false s1 = (Some err, s') -> wallet_view (tables s') = wallet_view (tables s)).
  { intros s1 H1. unfold post_phases, cbind. cbn zeta.
    match goal with |- context [(if ?c then ?a else ?b) s1] =>
      destruct ((if c then a else b) s1) as [x2 s2] eqn:E2 end.
    assert (H2 : wallet_view (tables s2) = wallet_view (tables s)).
    { rewrite <- H1. revert E2. case_match; [|by intros [= _ <-]]. intros E2. apply wallet_of_hold.
      pose proof (on_led_hold (PostConsumeDailyQuota (UserId info) (i64_add q pre) (time_Unix (now e))) s1) as Hk.
      by rewrite E2 in Hk. }
    destruct (pool_phase e info (i64_add q pre) s2) as [pd s3] eqn:E3.
    assert (H3 : wallet_view (tables s3) = wallet_view (tables s)).
    { rewrite <- H2. revert E3. unfold pool_phase.
      destruct ((i64_add q pre >? 0) && (TokenId info >? 0)); [|by intros [= _ <-]].
      intros E3. apply wallet_of_hold. pose proof (debitTenantPool_hold e info (i64_add q pre) s2) as Hk.
      by rewrite E3 in Hk. }
    pose proof (token_phase_hold e info q (i64_add q pre) pd s3) as Hk.
    destruct (token_phase e info q (i64_add q pre) pd s3) as [terr s4]. cbn [snd] in Hk.
    apply wallet_of_hold in Hk.
    destruct terr as [terr|]; [|destruct (settlePlatformWallet _ _ _ _ _ _ _); discriminate].
    pose proof (settle_inconsistent_wallet e info (i64_add q pre) pre s4) as Hs.
    destruct (settlePlatformWallet _ _ _ _ _ _ _) as [x5 s5]. cbn [snd] in Hs. intros [= _ <-].
    congruence. }
  destruct (UserId info >? 0); [|by apply Hpost].
  assert (Hk : keeps holdview (user_leg e info q)).
  { unfold user_leg. destruct (q >? 0); apply on_led_hold. }
  specialize (Hk s). destruct (user_leg e info q s) as [[x|uerr] s1]; cbn [snd] in Hk;
    apply wallet_of_hold in Hk; [by apply Hpost|]. by intros [= _ <-].
Qed.

(** Handing the pre-consumption back is exact once and not idempotent.  On a
    healthy database, with no hold left and room in the columns, the first call
    gives the user and the key back exactly what was pre-consumed; a second call
    gives it to them again. *)
Theorem refund_twice e info (s : store world) :
  let f := FinalPreConsumedQuota (rel (tables s)) in
  batch e = false -> 0 < f -> 2 * f <= i64_max -> faults s = [] ->
  IsPlayground info = false -> 0 < UserId info -> 0 < TokenId info ->
  PlatformPreAuthID (rel (tables s)) = 0 ->
  room info f (led (tables s)) -> room info (2 * f) (led (tables s)) ->
  let s1 := snd (ReturnPreConsumedQuota e info s) in
  let s2 := snd (ReturnPreConsumedQuota e info s1) in
  (uview (led (tables s1)) = ucharge (UserId info) (- f) <$> uview (led (tables s)) /\
   kview (led (tables s1)) = kcharge (TokenId info) (- f) <$> kview (led (tables s))) /\
  (uview (led (tables s2)) = ucharge (UserId info) (- (2 * f)) <$> uview (led (tables s)) /\
   kview (led (tables s2)) = kcharge (TokenId info) (- (2 * f)) <$> kview (led (tables s))).
Proof.
  intros f Hb Hf Hf2 Hfs Hpg Hu Hk Hh R1 R2 s1 s2.
  destruct (ReturnPreConsumedQuota_refunds e info s Hb ltac:(lia) Hfs Hpg Hu Hk Hh R1)
    as (Hc1 & Hfs1 & Hrel1). fold s1 in Hc1, Hfs1, Hrel1. fold f in Hc1.
  assert (R : room info f (led (tables s1))).
  { eapply room_charged; [exact Hc1|]. by replace (f - - f) with (2 * f) by lia. }
  assert (Hf1 : FinalPreConsumedQuota (rel (tables s1)) = f) by by rewrite Hrel1.
  destruct (ReturnPreConsumedQuota_refunds e info s1 Hb) as (Hc2 & _);
    [rewrite Hf1; lia|done..|by rewrite Hrel1|by rewrite Hf1|].
  rewrite Hf1 in Hc2. fold s2 in Hc2. split; [exact Hc1|].
  pose proof (charged_trans _ _ _ _ _ _ _ _ Hc1 Hc2) as Hc.
  replace (- f + - f) with (- (2 * f)) in Hc by lia. exact Hc.
Qed.

(** A refused playground request pays its key.  The playground path skips the
    key's debit but not its rollback: when the cached balance lets a request past
    the pre-check and the conditional debit then refuses it, the request is
    answered 402 and the key's remaining quota has grown by the pre-consumption,
    its used quota shrunk by as much, although nothing had been taken from it. *)
Theorem playground_refusal_mints e pre info (s : store world) q :
  batch e = false -> unified e = false -> advisory_flag e = false -> wallet_authoritative e = false ->
  g_enabled (tenant_gate e) = false -> g_enabled (project_gate e) = false ->
  cached_quota e = Some q -> 0 < pre <= q -> q <= i64_max -> q <= GetTrustQuota (exchange e) ->
  IsPlayground info = true -> UserId info <> 0 -> PlatformPreAuthID (rel (tables s)) = 0 ->
  faults s = [] ->
  (forall u, u ∈ users (led (tables s)) -> user_is (UserId info) u = true -> u_Quota u < pre) ->
  room info pre (led (tables s)) ->
  exists s', PreConsumeQuota e pre info s = (Some insufficientUserQuotaError, s') /\
    uview (led (tables s')) = uview (led (tables s)) /\
    kview (led (tables s')) = kcharge (TokenId info) (- pre) <$> kview (led (tables s)).
Proof.
  intros Hb Hun Ha Hw Hg1 Hg2 Hq Hpre Hqm Htrust Hpg Hu Hh Hfs Hpoor [_ Rk].
  destruct (IncreaseTokenQuota_undoes (TokenId info) pre (time_Unix (now e)) (led (tables s)) ltac:(lia) Rk)
    as [db' Ek].
  pose proof (IncreaseTokenQuota_view _ _ _ _ _ _ Ek) as [Vk Vu]. cbn [tables] in Vk, Vu.
  assert (Eu : DecreaseUserQuotaIfEnough (UserId info) pre (mkStore (led (tables s)) []) =
            (Ok false, mkStore (led (tables s)) [])).
  { unfold DecreaseUserQuotaIfEnough. rewrite (proj2 (Z.ltb_ge pre 0)) by lia.
    unfold update_users, bind. rewrite stmt_healthy.
    assert (Hnone : forall u, u ∈ users (led (tables s)) -> user_is (UserId info) u && (u_Quota u >=? pre) = false).
    { intros u Hin. destruct (user_is (UserId info) u) eqn:E; [|done]. specialize (Hpoor u Hin E).
      cbn. rewrite Z.geb_leb. apply Z.leb_gt. lia. }
    rewrite (proj2 (forallb_forall _ _)).
    2: { intros u Hin. apply list_elem_of_In in Hin. by rewrite (Hnone u Hin). }
    unfold set_users. rewrite update_where_none by done.
    assert (affected (fun u => user_is (UserId info) u && (u_Quota u >=? pre)) (users (led (tables s))) = 0%nat) as ->.
    { destruct (affected _ _) eqn:E; [done|]. exfalso.
      destruct (affected_neq_0 (fun u => user_is (UserId info) u && (u_Quota u >=? pre)) (users (led (tables s))))
        as (u & Hin & Hc); [by rewrite E|]. by rewrite (Hnone u Hin) in Hc. }
    unfold ret. by destruct (led (tables s)). }
  exists (mkStore (set_led db' (set_rel (set_user_quota q (rel (tables s))) (tables s))) []).
  split; [|by rewrite <- Vk, <- Vu].
  unfold PreConsumeQuota, cbind, get_rel. rewrite Hh, Hun. cbn [Z.gtb Z.compare andb].
  unfold pre_local, cbind, get_rel. rewrite Ha, Hw. cbn [andb orb negb]. rewrite andb_false_r. cbn [orb].
  rewrite (proj2 (Z.eqb_neq _ _)) by done. unfold cret at 1.
  unfold on_led at 1, lift, GetUserQuota. rewrite Hq. unfold ret. cbn [tables faults].
  assert (i64_sub q pre = q - pre) as ->.
  { unfold i64_sub. apply wrap64_id. unfold64. unfold i64_max, i64_half in *. lia. }
  rewrite (proj2 (Z.leb_gt q 0)), (proj2 (Z.ltb_ge (q - pre) 0)) by lia. cbn [orb andb].
  unfold pre_gates, enforceTenantQuota, enforceProjectBudget. rewrite Hg1, Hg2. cbn [negb orb].
  unfold cbind. rewrite (Z.gtb_ltb q), (proj2 (Z.ltb_ge _ q)) by lia. cbn [andb]. cbn zeta.
  rewrite (proj2 (Z.gtb_lt pre 0)) by lia.
  unfold pre_deduct, PreConsumeTokenQuota, cbind. rewrite (proj2 (Z.ltb_ge pre 0)) by lia. rewrite Hpg.
  unfold cret at 1. rewrite (proj2 (Z.eqb_neq _ _)) by done.
  unfold on_led, lift. cbn [on_rel modify tables faults led set_rel set_led]. rewrite Hfs.
  replace (led (tables s)) with (led (set_led (led (tables s)) (tables s))) in Eu by done.
  cbn [led set_led] in *. rewrite Eu. cbn [tables faults].
  unfold rollbackTokenFreeze, cbind, on_led, lift. rewrite Hb. cbn [tables faults led set_led].
  rewrite Ek. unfold refuse, cbind, abandonPreAuth, get_rel. cbn [tables rel set_led set_rel set_user_quota].
  unfold cret at 1, cbind. cbn [tables rel set_led set_rel set_user_quota PlatformPreAuthID].
  rewrite Hh. by destruct s as [[]].
Qed.

(** Two failures leave a hold behind.  When the platform has granted a hold
    and the read of the balance then fails, the refusal neither releases nor parks
    it; and when the user write of a settlement fails, the settlement stops there
    and the hold is neither settled nor released.  Either way the request still
    carries the hold and only the platform's expiry will free it. *)
Theorem hold_left_behind e info pre q (s : store world) fs :
  faults s = true :: fs -> UserId info > 0 -> IdentityAccountID info > 0 ->
  (PlatformPreAuthID (rel (tables s)) = 0 -> unified e = true -> pre > 0 -> cached_quota e = None ->
   configured e = true -> skip_enabled e = false -> b_state (brk (tables s)) = BClosed ->
   forall id code link, preauth_reply e = Answer StatusOK code link (Some id) -> 0 < id ->
   exists s', PreConsumeQuota e pre info s =
     (Some (mkAPIError ErrorCodeQueryDataError StatusInternalServerError 0 ""), s') /\
     hold_of (tables s') = id /\ disposals id (tables s') = disposals id (tables s)) /\
  (0 < PlatformPreAuthID (rel (tables s)) -> batch e = false -> i64_min < q <= i64_max ->
   PlatformGoverned (rel (tables s)) && (advisory_flag e || WalletAuthoritative (rel (tables s))) = false ->
   PostConsumeQuota e info q pre s = (Some ErrLedgerDB, mkStore (tables s) fs)).
Proof.
  intros Hfs Hu Hacct. split.
  - intros Hh Hun Hpre Hcache Hconf Hskip Hbrk id code link Hreply Hid.
    unfold PreConsumeQuota, cbind, get_rel. rewrite Hh, Hun. cbn [Z.gtb Z.compare andb].
    rewrite (proj2 (Z.gtb_lt (IdentityAccountID info) 0)), (proj2 (Z.gtb_lt pre 0)) by lia. cbn [andb].
    destruct (preauth_granted e pre info s id code link) as [b ->]; [done..|].
    match goal with |- context [pre_local e pre info ?s1] =>
      destruct (pre_local_unreadable e pre info s1 fs) as (s' & -> & H1 & H2 & H3); [done|lia|done|] end.
    exists s'. rewrite H1. split_and!; [done|done|]. unfold disposals. rewrite H2, H3.
    cbn [tables trace box set_rel add_event set_brk]. rewrite affected_snoc. cbn. lia.
  - intros Hh Hb Hq Hadv. unfold PostConsumeQuota, cbind, get_rel. rewrite Hadv. cbn [negb].
    rewrite (proj2 (Z.gtb_lt (UserId info) 0)) by lia. unfold user_leg. rewrite Hb.
    destruct (q >? 0) eqn:E; rewrite Z.gtb_ltb in E; bool_to_prop; unfold on_led, lift.
    + unfold DecreaseUserQuota, decreaseUserQuota, bind, update_users, stmt.
      rewrite (proj2 (Z.ltb_ge q 0)) by lia. cbn [faults tables]. rewrite Hfs. by destruct s as [[]].
    + rewrite wrap64_opp by done.
      unfold IncreaseUserQuota, increaseUserQuota, bind, update_users, stmt.
      rewrite (proj2 (Z.ltb_ge (- q) 0)) by lia. cbn [faults tables negb andb]. rewrite Hfs.
      by destruct s as [[]].
Qed.

Lemma nextMonthStartUnix_eq t : nextMonthStartUnix t = time_Unix (midnight (next_month (day_of t))).
Proof. unfold nextMonthStartUnix, next_month. reflexivity. Qed.

(** The monthly gate.  A tenant's request is refused exactly when enforcement
    is on, the tenant is known and has a positive cap, the month's spend could be
    read, and the spend plus the request exceeds the cap; the refusal is a 402 whose
    retry time is the first instant of the next calendar month, UTC: midnight of the
    first first-of-month day after now. *)
Theorem tenant_gate_spec e requested :
  match enforceTenantQuota e requested with
  | None =>
      g_enabled (tenant_gate e) = false \/ tenantID e = "" \/
      forall cap used, g_cap (tenant_gate e) = Some cap -> g_used (tenant_gate e) = Some used ->
        cap <= 0 \/ i64_add used requested <= cap
  | Some err =>
      g_enabled (tenant_gate e) = true /\ tenantID e <> "" /\
      (exists cap used, g_cap (tenant_gate e) = Some cap /\ g_used (tenant_gate e) = Some used /\
         0 < cap < i64_add used requested) /\
      StatusCode err = StatusPaymentRequired /\
      exists z, RetryAfterUnix err = time_Unix (midnight z) /\ mday z = 1 /\
        now e < midnight z /\
        forall z', mday z' = 1 -> now e < midnight z' -> z <= z'
  end.
Proof.
  unfold enforceTenantQuota.
  destruct (g_enabled (tenant_gate e)) eqn:Eg; cbn [negb orb]; [|by left].
  destruct (String.eqb (tenantID e) "") eqn:Et; [right; left; by apply String.eqb_eq|].
  apply String.eqb_neq in Et. destruct (over_cap (tenant_gate e) requested) eqn:Eo.
  - unfold over_cap in Eo. destruct (g_cap (tenant_gate e)) as [cap|]; [|discriminate].
    destruct (Z.leb_spec cap 0); [discriminate|].
    destruct (g_used (tenant_gate e)) as [used|]; [|discriminate]. rewrite Z.gtb_ltb in Eo. bool_to_prop.
    split_and!; [done|done|by exists cap, used|done|].
    exists (next_month (day_of (now e))).
    destruct (next_month_first (day_of (now e))) as [H1 H2].
    split_and!; [apply nextMonthStartUnix_eq|done|apply midnight_after; lia|].
    intros z' Hz' Hlt%midnight_after. destruct (Z.le_gt_cases (next_month (day_of (now e))) z') as [Hle|Hgt]; [done|].
    exfalso. by apply (next_month_least (day_of (now e)) z').
  - right. right. intros cap used Ec Eu. unfold over_cap in Eo. rewrite Ec, Eu in Eo.
    destruct (Z.leb_spec cap 0); [by left|]. right. rewrite Z.gtb_ltb in Eo. bool_to_prop. lia.
Qed.
End SafetyProperties.

Section ChargeWitnesses.
Import GoStrings PlatformBilling Outbox Ledger CreditPool QuotaCharge.

Definition off : gate := mkGate false None None.

(** A gateway that pre-authorises on the platform, which grants hold 77. *)
Definition demo_env : env :=
  mkEnv (time_of_unix 1700000000) true false false true true "acme" 500 false None default_rates
    false None f64_zero None false off off false
    (Answer StatusOK "" "" (Some 77)) (Answer StatusOK "" "" (Some 77)) (Answer StatusOK "" "" None)
    None "u".

(** A gateway without unified billing, whose cache says the user has 900. *)
Definition demo_local_env : env :=
  mkEnv (time_of_unix 1700000000) false false false true true "acme" 500 false (Some 900) default_rates
    false None f64_zero None false off off false NoAnswer NoAnswer NoAnswer None "u".

Definition demo_info : RelayInfo := mkRelay 7 3 false false 42 0 "".
Definition demo_playground : RelayInfo := mkRelay 7 3 false true 42 0 "".

Definition fresh : progress := mkProgress 0 false false 0 0 0.
Definition demo_world : world :=
  mkWorld demo_ledger empty_db (mkOb [] [] 1 1) billingBreaker fresh [].

(** The same user with nothing left. *)
Definition demo_poor : world :=
  mkWorld (mkLedger [mkUser 7 10 "default" 0 0 0 "" "" false] [demo_token] ∅ ∅) empty_db
    (mkOb [] [] 1 1) billingBreaker fresh [].

Lemma demo_unique : unique_ids (led demo_world).
Proof. split; apply NoDup_singleton. Qed.

Lemma demo_poor_unique : unique_ids (led demo_poor).
Proof. split; apply NoDup_singleton. Qed.

Lemma charge_exact_witness :
  let s := mkStore demo_world [] in
  let s1 := snd (PreConsumeQuota demo_env 40 demo_info s) in
  let s2 := snd (PostConsumeQuota demo_env demo_info (100 - 40) 40 s1) in
  uview (led (tables s2)) = [(7, false, 900)] /\ kview (led (tables s2)) = [(3, false, 400, 100)].
Proof.
  intros s s1 s2.
  destruct (charge_exact demo_env demo_env demo_info 40 100 s s1 s2) as [H1 H2];
    [reflexivity|reflexivity|reflexivity|reflexivity|reflexivity|reflexivity|reflexivity|reflexivity
    |reflexivity|exact demo_unique|split; discriminate|split; discriminate
    |vm_compute; reflexivity|vm_compute; reflexivity|].
  rewrite H1, H2. split; reflexivity.
Defined.

Lemma demo_accounted : accounted demo_world.
Proof.
  intros [|p|p] Hid; [lia|reflexivity|lia].
Qed.

Lemma holds_accounted_witness :
  accounted (tables (snd (PreConsumeQuota demo_env 40 demo_info (mkStore demo_world [])))).
Proof.
  apply (holds_accounted demo_info demo_world); [exact demo_accounted|].
  eapply reach_step; [apply reach_init|]. apply rs_pre.
Defined.

Lemma preconsume_solvent_witness :
  solvent (led (tables (snd (PreConsumeQuota demo_local_env 40 demo_info (mkStore demo_poor [false; true]))))).
Proof.
  refine (preconsume_solvent demo_local_env 40 demo_info (mkStore demo_poor [false; true])
    eq_refl eq_refl eq_refl _). split; intros r Hr; apply list_elem_of_singleton in Hr as ->; discriminate.
Defined.

Lemma preconsume_refusal_free_witness :
  let s := mkStore demo_poor [] in
  let s' := snd (PreConsumeQuota demo_local_env 40 demo_info s) in
  kview (led (tables s')) = [(3, false, 500, 0)].
Proof.
  intros s s'.
  destruct (preconsume_refusal_free demo_local_env 40 demo_info s insufficientUserQuotaError s')
    as (_ & H & _);
    [reflexivity|reflexivity|reflexivity|reflexivity|discriminate|reflexivity|exact demo_poor_unique
    | |vm_compute; reflexivity|rewrite H; reflexivity].
  intros k Hk. apply list_elem_of_singleton in Hk as ->. split; reflexivity.
Defined.

(** The settlement of a request whose key write, its sixth statement, fails. *)
Lemma failed_settlement_uncharged_witness :
  let s := mkStore demo_poor [false; false; false; false; false; true] in
  let s' := snd (PostConsumeQuota demo_env demo_info 5 0 s) in
  wallet_view (tables s') = ([], [], []).
Proof.
  intros s s'.
  rewrite (failed_settlement_uncharged demo_env demo_info 5 0 s ErrLedgerDB s');
    vm_compute; reflexivity.
Defined.

Definition demo_consumed : world :=
  mkWorld demo_ledger empty_db (mkOb [] [] 1 1) billingBreaker (mkProgress 0 false false 40 1000 0) [].

Lemma demo_room f : 0 <= f <= 80 -> room demo_info f demo_ledger.
Proof.
  intros Hf. split; intros r Hr _; apply list_elem_of_singleton in Hr as ->;
    unfold in32b, in64b, i64_min, i64_max, i64_half; cbn; lia.
Qed.

Lemma refund_twice_witness :
  let s1 := snd (ReturnPreConsumedQuota demo_env demo_info (mkStore demo_consumed [])) in
  let s2 := snd (ReturnPreConsumedQuota demo_env demo_info s1) in
  uview (led (tables s1)) = [(7, false, 1040)] /\ uview (led (tables s2)) = [(7, false, 1080)].
Proof.
  intros s1 s2.
  destruct (refund_twice demo_env demo_info (mkStore demo_consumed [])) as [[H1 _] [H2 _]];
    [reflexivity|reflexivity|discriminate|reflexivity|reflexivity|reflexivity|reflexivity|reflexivity
    | | |].
  - apply demo_room. split; discriminate.
  - apply demo_room. split; discriminate.
  - subst s1 s2. rewrite H1, H2. split; reflexivity.
Defined.

Lemma playground_refusal_mints_witness :
  exists s', PreConsumeQuota demo_local_env 40 demo_playground (mkStore demo_poor []) =
      (Some insufficientUserQuotaError, s') /\
    kview (led (tables s')) = [(3, false, 540, -40)].
Proof.
  destruct (playground_refusal_mints demo_local_env 40 demo_playground (mkStore demo_poor []) 900)
    as (s' & H & _ & Hk);
    [reflexivity|reflexivity|reflexivity|reflexivity|reflexivity|reflexivity|reflexivity|lia|discriminate
    |vm_compute; discriminate|reflexivity|discriminate|reflexivity|reflexivity| | |].
  - intros u Hu _. apply list_elem_of_singleton in Hu as ->. reflexivity.
  - split; intros r Hr _; apply list_elem_of_singleton in Hr as ->; done.
  - exists s'. split; [exact H|]. rewrite Hk. reflexivity.
Defined.

Lemma hold_left_behind_witness :
  exists s', PreConsumeQuota demo_env 40 demo_info (mkStore demo_world [true]) =
      (Some (mkAPIError ErrorCodeQueryDataError StatusInternalServerError 0 ""), s') /\
    hold_of (tables s') = 77 /\ disposals 77 (tables s') = 0%nat.
Proof.
  destruct (hold_left_behind demo_env demo_info 40 0 (mkStore demo_world [true]) [])
    as [H _]; [reflexivity..|].
  apply (H eq_refl eq_refl eq_refl eq_refl eq_refl eq_refl eq_refl 77 "" "" eq_refl eq_refl).
Defined.
End ChargeWitnesses.
