(* ===== verification/ChannelKeys.v ===== *)
(** * The keys of a channel

    A channel is one upstream account pool.  A multi-key channel rotates among its
    keys (random, polling, or smooth weighted round-robin), parks a key that was
    rate limited until a deadline, and disables itself when no key is left; the
    pool reaper brings parked keys back.  This file models the channel row
    (internal/domain/entity/channel.go), key selection ([GetNextEnabledKey],
    [nextWeighted], [KeyIfRoutable]), the writes on key state
    ([handlerMultiKeyUpdate], [applyMultiKeyCooldownOpt], [ClearMultiKeyCooldown],
    [reapChannel], the console's disable_key) and the reading of an upstream's 429
    ([ParseCooldownUntil]).

    A Go map is a [gmap]: a nil map and an empty one answer alike.  [rand.Intn n]
    is [Intn r n] for an arbitrary integer [r].  The decoding of a JSON array of
    keys, of a JSON error body and of a decimal number are arguments. *)

From S2P Require Import Prelude GoStrings.

Module ChannelKeys.
Import GoStrings.

(** ** Data *)

Definition ChannelStatusUnknown : Z := 0.
Definition ChannelStatusEnabled : Z := 1.
Definition ChannelStatusManuallyDisabled : Z := 2.
Definition ChannelStatusAutoDisabled : Z := 3.

Definition MultiKeyModeRandom : string := "random".
Definition MultiKeyModePolling : string := "polling".
Definition MultiKeyModeWeighted : string := "weighted".

Definition DefaultKeyWeight : Z := 50.
Definition MaxKeyWeight : Z := 100.

Record ChannelInfo := mkInfo {
  IsMultiKey : bool;
  MultiKeySize : Z;
  MultiKeyStatusList : gmap Z Z;
  MultiKeyDisabledReason : gmap Z string;
  MultiKeyDisabledTime : gmap Z Z;
  MultiKeyPollingIndex : Z;
  MultiKeyMode : string;
  MultiKeyCooldownUntil : gmap Z Z;
  MultiKeyWeight : gmap Z Z
}.

(** The columns of a channel that routing reads.  [StatusReason] and [StatusTime]
    are the two entries of the other_info column that routing writes; [Keys] is
    the cache of the split key list. *)
Record Channel := mkChannel {
  Id : Z;
  TenantId : string;
  Type_ : Z;
  Key : string;
  Status : Z;
  Weight : option Z;
  Models : string;
  Group : string;
  Priority : option Z;
  Info : ChannelInfo;
  StatusReason : string;
  StatusTime : Z;
  Keys : list string
}.

Definition set_info (i : ChannelInfo) (c : Channel) : Channel :=
  mkChannel (Id c) (TenantId c) (Type_ c) (Key c) (Status c) (Weight c) (Models c) (Group c)
    (Priority c) i (StatusReason c) (StatusTime c) (Keys c).

Definition set_status (st : Z) (c : Channel) : Channel :=
  mkChannel (Id c) (TenantId c) (Type_ c) (Key c) st (Weight c) (Models c) (Group c)
    (Priority c) (Info c) (StatusReason c) (StatusTime c) (Keys c).

Definition set_status_info (st : Z) (reason : string) (at_ : Z) (c : Channel) : Channel :=
  mkChannel (Id c) (TenantId c) (Type_ c) (Key c) st (Weight c) (Models c) (Group c)
    (Priority c) (Info c) reason at_ (Keys c).

Definition set_polling (p : Z) (i : ChannelInfo) : ChannelInfo :=
  mkInfo (IsMultiKey i) (MultiKeySize i) (MultiKeyStatusList i) (MultiKeyDisabledReason i)
    (MultiKeyDisabledTime i) p (MultiKeyMode i) (MultiKeyCooldownUntil i) (MultiKeyWeight i).

Definition set_key_state (st : gmap Z Z) (rs : gmap Z string) (ts cd : gmap Z Z) (i : ChannelInfo)
    : ChannelInfo :=
  mkInfo (IsMultiKey i) (MultiKeySize i) st rs ts (MultiKeyPollingIndex i) (MultiKeyMode i) cd
    (MultiKeyWeight i).

Definition comma : Ascii.ascii := Ascii.ascii_of_nat 44.

Definition GetPriority (c : Channel) : Z := default 0 (Priority c).
(** [int] of a uint. *)
Definition GetWeight (c : Channel) : Z := wrap64 (default 0 (Weight c)).

Definition GetModels (c : Channel) : list string :=
  if String.eqb (Models c) "" then [] else Split (TrimByte (Models c) comma) comma.

Definition GetGroups (c : Channel) : list string :=
  if String.eqb (Group c) "" then [] else TrimSpace <$> Split (TrimByte (Group c) comma) comma.

Definition KeyWeight (i : ChannelInfo) (idx : Z) : Z :=
  default DefaultKeyWeight (MultiKeyWeight i !! idx).

(** [math/rand.Intn] on an arbitrary source value. *)
Definition Intn (r n : Z) : Z := r mod n.

Definition newline : Ascii.ascii := Ascii.ascii_of_nat 10.

(** [weightedCursor.state]: per channel, the accumulated weight of each key. *)
Notation cursors := (gmap Z (gmap Z Z)).

Section Keys.
(** [json.Unmarshal] into a list of raw messages. *)
Context (json_array : string -> option (list string)).

Definition GetKeys (c : Channel) : list string :=
  if String.eqb (Key c) "" then []
  else match Keys c with
  | _ :: _ => Keys c
  | [] =>
      let lines := Split (TrimByte (Key c) newline) newline in
      let trimmed := TrimSpace (Key c) in
      if HasPrefix trimmed "[" then
        match json_array trimmed with Some arr => arr | None => lines end
      else lines
  end.

(** ** Smooth weighted round-robin *)

(** The loop over the candidates. *)
Fixpoint weigh (weight : Z -> Z) (candidates : list Z) (cur : gmap Z Z) (live : gset Z)
    (total : Z) (best : option Z) : gmap Z Z * gset Z * Z * option Z :=
  match candidates with
  | [] => (cur, live, total, best)
  | i :: rest =>
      let w := weight i in
      if w <=? 0 then weigh weight rest cur live total best
      else
        let c := i64_add (default 0 (cur !! i)) w in
        let cur' := <[i := c]> cur in
        let best' :=
          match best with
          | None => Some i
          | Some b => if c >? default 0 (cur' !! b) then Some i else Some b
          end in
        weigh weight rest cur' ({[i]} ∪ live) (i64_add total w) best'
  end.

Definition nextWeighted (channelID : Z) (candidates : list Z) (weight : Z -> Z) (st : cursors)
    : option Z * cursors :=
  let cur := default ∅ (st !! channelID) in
  let '(cur1, live, total, best) := weigh weight candidates cur ∅ 0 None in
  let cur2 : gmap Z Z := filter (fun kv => kv.1 ∈ live) cur1 in
  match best with
  | None => (None, <[channelID := cur2]> st)
  | Some b => (Some b, <[channelID := <[b := i64_sub (default 0 (cur2 !! b)) total]> cur2]> st)
  end.

Definition ResetWeightedCursor (channelID : Z) (st : cursors) : cursors := delete channelID st.

(** ** The next key *)

Inductive key_err :=
| ErrNoAvailableKey
| ErrAllKeysCooling (retryAfterUnix : Z)
| ErrGetChannelFailed.

Definition getStatus (i : ChannelInfo) (idx : Z) : Z :=
  default ChannelStatusEnabled (MultiKeyStatusList i !! idx).

Definition key_enabled (i : ChannelInfo) (idx : Z) : bool := getStatus i idx =? ChannelStatusEnabled.

Definition indexes {A} (l : list A) : list Z := seqZ 0 (Z.of_nat (length l)).

Definition enabledIdx (i : ChannelInfo) (keys : list string) : list Z :=
  List.filter (key_enabled i) (indexes keys).

(** The scan of the cooldowns: [None] when some key is down without a deadline. *)
Fixpoint cooling_scan (i : ChannelInfo) (idxs : list Z) (earliest : Z) : option Z :=
  match idxs with
  | [] => Some earliest
  | idx :: rest =>
      if key_enabled i idx then cooling_scan i rest earliest
      else match MultiKeyCooldownUntil i !! idx with
      | None => None
      | Some until =>
          if until <=? 0 then None
          else cooling_scan i rest (if (earliest =? 0) || (until <? earliest) then until else earliest)
      end
  end.

Definition no_key_error (i : ChannelInfo) (keys : list string) : key_err :=
  if (0 <? size (MultiKeyCooldownUntil i))%nat then
    match cooling_scan i (indexes keys) 0 with
    | Some earliest => if earliest >? 0 then ErrAllKeysCooling earliest else ErrNoAvailableKey
    | None => ErrNoAvailableKey
    end
  else ErrNoAvailableKey.

Definition key_at (keys : list string) (idx : Z) : string := nth (Z.to_nat idx) keys "".

(** The positions a polling rotation visits, from [start]. *)
Definition poll_order (start n : Z) : list Z := (fun i => (start + i) mod n) <$> seqZ 0 n.

(** [cached] is the answer of [CacheGetChannelInfo], [r] the random source. *)
Definition GetNextEnabledKey (cached : option ChannelInfo) (r : Z) (c : Channel) (st : cursors)
    : result key_err (string * Z) * Channel * cursors :=
  let i := Info c in
  if negb (IsMultiKey i) then (Ok (Key c, 0), c, st)
  else
    let keys := GetKeys c in
    let n := Z.of_nat (length keys) in
    match keys with
    | [] => (Err ErrNoAvailableKey, c, st)
    | _ :: _ =>
        match enabledIdx i keys with
        | [] => (Err (no_key_error i keys), c, st)
        | first :: others =>
            let en := first :: others in
            if String.eqb (MultiKeyMode i) MultiKeyModeRandom then
              let idx := nth (Z.to_nat (Intn r (Z.of_nat (length en)))) en 0 in
              (Ok (key_at keys idx, idx), c, st)
            else if String.eqb (MultiKeyMode i) MultiKeyModeWeighted then
              let (pick, st') := nextWeighted (Id c) en (KeyWeight i) st in
              match pick with
              | None => (Err ErrNoAvailableKey, c, st')
              | Some idx => (Ok (key_at keys idx, idx), c, st')
              end
            else if String.eqb (MultiKeyMode i) MultiKeyModePolling then
              match cached with
              | None => (Err ErrGetChannelFailed, c, st)
              | Some ci =>
                  let p := MultiKeyPollingIndex ci in
                  let start := if (p <? 0) || (p >=? n) then 0 else p in
                  match List.find (key_enabled i) (poll_order start n) with
                  | Some idx =>
                      (Ok (key_at keys idx, idx), set_info (set_polling ((idx + 1) mod n) i) c, st)
                  | None => (Ok (key_at keys first, first), c, st)
                  end
              end
            else (Ok (key_at keys first, first), c, st)
        end
    end.

Definition KeyIfRoutable (c : Channel) (idx : Z) : option string :=
  if negb (IsMultiKey (Info c)) then None
  else if (idx <? 0) || (idx >=? Z.of_nat (length (GetKeys c))) then None
  else if negb (key_enabled (Info c) idx) then None
  else if String.eqb (MultiKeyMode (Info c)) MultiKeyModeWeighted && (KeyWeight (Info c) idx <=? 0)
  then None
  else Some (key_at (GetKeys c) idx).

(** ** Writes on the key state *)

(** The position of a key, as the two loops that look one up find it. *)
Definition key_position (keys : list string) (usingKey : string) : option Z :=
  Z.of_nat <$> (fst <$> list_find (fun k => k = usingKey) keys).

Definition handlerMultiKeyUpdate (usingKey : string) (status : Z) (reason : string) (now : Z)
    (c : Channel) : Channel :=
  let keys := GetKeys c in
  match keys with
  | [] => set_status status c
  | _ :: _ =>
      let keyIndex := default 0 (key_position keys usingKey) in
      let i := Info c in
      let i' :=
        if status =? ChannelStatusEnabled then
          set_key_state (delete keyIndex (MultiKeyStatusList i)) (MultiKeyDisabledReason i)
            (MultiKeyDisabledTime i) (MultiKeyCooldownUntil i) i
        else
          set_key_state (<[keyIndex := status]> (MultiKeyStatusList i))
            (<[keyIndex := reason]> (MultiKeyDisabledReason i))
            (<[keyIndex := now]> (MultiKeyDisabledTime i)) (MultiKeyCooldownUntil i) i in
      let c' := set_info i' c in
      if Z.of_nat (size (MultiKeyStatusList i')) >=? MultiKeySize i'
      then set_status_info ChannelStatusAutoDisabled "All keys are disabled" now c'
      else c'
  end.

(** The earliest deadline among the keys that are not enabled; the map is visited
    in some order, which the minimum does not depend on. *)
Definition earliest_of (st : gmap Z Z) (cds : list (Z * Z)) : Z :=
  fold_left (fun earliest (kv : Z * Z) =>
    if bool_decide (st !! kv.1 = Some ChannelStatusEnabled) then earliest
    else if (earliest =? 0) || (kv.2 <? earliest) then kv.2 else earliest) cds 0.

(** The channel, and the returned deadline. *)
Definition applyMultiKeyCooldownOpt (usingKey : string) (cooldownUntil : Z) (reason : string)
    (keepStatus : bool) (now : Z) (c : Channel) : Channel * Z :=
  match key_position (GetKeys c) usingKey with
  | None => (c, 0)
  | Some keyIndex =>
      let i := Info c in
      let i' := set_key_state (<[keyIndex := ChannelStatusAutoDisabled]> (MultiKeyStatusList i))
                  (<[keyIndex := reason]> (MultiKeyDisabledReason i))
                  (<[keyIndex := now]> (MultiKeyDisabledTime i))
                  (<[keyIndex := cooldownUntil]> (MultiKeyCooldownUntil i)) i in
      let c' := set_info i' c in
      if Z.of_nat (size (MultiKeyStatusList i')) <? MultiKeySize i' then (c', 0)
      else
        (if keepStatus then c'
         else set_status_info ChannelStatusAutoDisabled "All keys are cooling or disabled" now c',
         earliest_of (MultiKeyStatusList i') (map_to_list (MultiKeyCooldownUntil i')))
  end.

Definition clear_key (keyIndex : Z) (i : ChannelInfo) : ChannelInfo :=
  set_key_state (delete keyIndex (MultiKeyStatusList i)) (delete keyIndex (MultiKeyDisabledReason i))
    (delete keyIndex (MultiKeyDisabledTime i)) (delete keyIndex (MultiKeyCooldownUntil i)) i.

Definition ClearMultiKeyCooldown (keyIndex : Z) (c : Channel) : Channel :=
  set_info (clear_key keyIndex (Info c)) c.

(** The keys whose deadline has passed at [nowUnix]. *)
Definition expired_keys (nowUnix : Z) (i : ChannelInfo) : list Z :=
  fst <$> List.filter (fun kv : Z * Z => negb ((kv.2 <=? 0) || (nowUnix <? kv.2)))
            (map_to_list (MultiKeyCooldownUntil i)).

(** One channel of the reaper's pass: the channel to save, if any, and whether its
    abilities are switched back on. *)
Definition reapChannel (nowUnix : Z) (c : Channel) : option (Channel * bool) :=
  if negb (IsMultiKey (Info c)) then None
  else match expired_keys nowUnix (Info c) with
  | [] => None
  | ks =>
      let c' := fold_left (fun c k => ClearMultiKeyCooldown k c) ks c in
      if (Status c' =? ChannelStatusAutoDisabled) &&
         (Z.of_nat (size (MultiKeyStatusList (Info c'))) <? MultiKeySize (Info c'))
      then Some (set_status_info ChannelStatusEnabled "Pool keys recovered" nowUnix c', true)
      else Some (c', false)
  end.

(** The console's disable_key; [None] when the index is out of range. *)
Definition disable_key (keyIndex : Z) (c : Channel) : option Channel :=
  let i := Info c in
  if (keyIndex <? 0) || (keyIndex >=? MultiKeySize i) then None
  else Some (set_info (set_key_state (<[keyIndex := ChannelStatusManuallyDisabled]> (MultiKeyStatusList i))
                         (MultiKeyDisabledReason i) (MultiKeyDisabledTime i)
                         (MultiKeyCooldownUntil i) i) c).
End Keys.
End ChannelKeys.

(** ** Smooth weighted round-robin, proved *)

Section WeightedFacts.
Import GoStrings ChannelKeys.
Implicit Types (weight : Z -> Z) (cur : gmap Z Z).

Definition acc (cur : gmap Z Z) (i : Z) : Z := default 0 (cur !! i).

(** A weight as the rotation counts it. *)
Definition eff (weight : Z -> Z) (i : Z) : Z := Z.max 0 (weight i).

Definition picked (i : Z) (ps : list Z) : Z := sumZ (fun p => if p =? i then 1 else 0) ps.

Lemma acc_insert cur i v j : acc (<[i := v]> cur) j = if decide (i = j) then v else acc cur j.
Proof. unfold acc. rewrite lookup_insert. by case_decide. Qed.

Lemma eff_nonneg weight i : 0 <= eff weight i.
Proof. unfold eff. lia. Qed.

Lemma sumZ_eff_nonneg weight l : 0 <= sumZ (eff weight) l.
Proof. apply sumZ_nonneg. intros. apply eff_nonneg. Qed.

Lemma sumZ_eff_elem weight l i : i ∈ l -> eff weight i <= sumZ (eff weight) l.
Proof.
  intros [l1 [l2 ->]]%list_elem_of_split. rewrite sumZ_app. cbn [sumZ].
  pose proof (sumZ_eff_nonneg weight l1). pose proof (sumZ_eff_nonneg weight l2).
  change (sumZ (eff weight) (i :: l2)) with (eff weight i + sumZ (eff weight) l2). lia.
Qed.

(** One pass over the candidates adds each its weight and finds a maximum. *)
Lemma weigh_spec weight cands : forall cur live total best cur' live' total' best',
  NoDup cands -> (forall b, best = Some b -> b ∉ cands) ->
  (forall i, i ∈ cands -> 0 < weight i -> in64 (acc cur i + weight i)) ->
  0 <= total -> total + sumZ (eff weight) cands <= i64_max ->
  weigh weight cands cur live total best = (cur', live', total', best') ->
  (forall j, acc cur' j = acc cur j + (if decide (j ∈ cands) then eff weight j else 0)) /\
  (forall j, j ∈ live' <-> j ∈ live \/ (j ∈ cands /\ 0 < weight j)) /\
  total' = total + sumZ (eff weight) cands /\
  match best' with
  | None => best = None /\ forall i, i ∈ cands -> weight i <= 0
  | Some b => (best = Some b \/ (b ∈ cands /\ 0 < weight b)) /\
              (forall a, best = Some a -> acc cur a <= acc cur' b) /\
              (forall i, i ∈ cands -> 0 < weight i -> acc cur' i <= acc cur' b)
  end.
Proof.
  induction cands as [|i cands IH]; intros cur live total best cur' live' total' best' Hnd Hb Hin Ht Hsum Hw.
  - cbn [weigh] in Hw. injection Hw as <- <- <- <-. split_and!.
    + intros j. case_decide; [set_solver|lia].
    + set_solver.
    + cbn. lia.
    + destruct best as [b|]; [|set_solver]. split_and!; [by left| |set_solver]. intros a [= ->]. lia.
  - apply NoDup_cons in Hnd as [Hi Hnd].
    change (sumZ (eff weight) (i :: cands)) with (eff weight i + sumZ (eff weight) cands) in *.
    pose proof (sumZ_eff_nonneg weight cands) as Hpos.
    cbn [weigh] in Hw. destruct (weight i <=? 0) eqn:Hwi; bool_to_prop.
    + assert (eff weight i = 0) as Hz by (unfold eff; lia).
      apply IH in Hw as (Hacc & Hlive & Htot & Hbest); [|done| |set_solver|done|lia].
      2:{ intros b Hbb. specialize (Hb b Hbb). set_solver. }
      split_and!.
      * intros j. rewrite Hacc. destruct (decide (j = i)) as [->|Hne].
        -- rewrite decide_False by done. rewrite decide_True by set_solver. lia.
        -- f_equal. apply decide_ext. set_solver.
      * intros j. rewrite Hlive. split; [set_solver|]. intros [?|[[->|?]%elem_of_cons ?]]; [by left|lia|by right].
      * lia.
      * destruct best' as [b|].
        -- destruct Hbest as (H1 & H2 & H3). split_and!; [set_solver|done|].
           intros j [->|Hj]%elem_of_cons Hjw; [lia|by apply H3].
        -- destruct Hbest as [H1 H2]. split; [done|]. intros j [->|Hj]%elem_of_cons; [lia|by apply H2].
    + assert (eff weight i = weight i) as Hz by (unfold eff; lia).
      assert (i64_add (default 0 (cur !! i)) (weight i) = acc cur i + weight i) as Hadd.
      { unfold i64_add. apply wrap64_id. apply Hin; [set_solver|lia]. }
      rewrite Hadd in Hw. set (v := acc cur i + weight i) in *.
      assert (i64_add total (weight i) = total + weight i) as Hadd2.
      { unfold i64_add. apply wrap64_id. unfold in64, i64_min, i64_max in *. lia. }
      rewrite Hadd2 in Hw.
      set (nb := match best with
                 | None => Some i
                 | Some b => if v >? default 0 (<[i:=v]> cur !! b) then Some i else Some b
                 end) in Hw.
      assert (Hnb : exists b, nb = Some b /\ (b = i \/ best = Some b) /\ v <= acc (<[i := v]> cur) b /\
                forall a, best = Some a -> acc cur a <= acc (<[i := v]> cur) b).
      { unfold nb. destruct best as [a|].
        - assert (a <> i) by (specialize (Hb a eq_refl); set_solver).
          destruct (v >? _) eqn:E; rewrite Z.gtb_ltb in E; bool_to_prop;
            fold (acc (<[i:=v]> cur) a) in E.
          + rewrite acc_insert, decide_False in E by done.
            exists i. rewrite acc_insert, decide_True by done. split_and!; [done|by left|lia|].
            intros a' [= <-]. lia.
          + exists a. split_and!; [done|by right|lia|]. intros a' [= <-].
            rewrite acc_insert, decide_False by done. lia.
        - exists i. rewrite acc_insert, decide_True by done. split_and!; [done|by left|lia|done]. }
      destruct Hnb as (b0 & Hnb & Horigin & Hvb & Hprev). rewrite Hnb in Hw.
      apply IH in Hw as (Hacc & Hlive & Htot & Hbest); [|done| | |lia|lia].
      2:{ intros b [= <-]. destruct Horigin as [->|Ho]; [done|]. specialize (Hb b0 Ho). set_solver. }
      2:{ intros j Hj Hjw. rewrite acc_insert, decide_False by (intros ->; done). apply Hin; set_solver. }
      split_and!.
      * intros j. rewrite Hacc, acc_insert. destruct (decide (i = j)) as [<-|Hne].
        -- rewrite decide_False by done. rewrite decide_True by set_solver. unfold v. lia.
        -- f_equal. apply decide_ext. set_solver.
      * intros j. rewrite Hlive. split.
        -- intros [[Hj|?]%elem_of_union|[? ?]]; [|by left|right; set_solver].
           apply elem_of_singleton in Hj as ->. right. split; [set_solver|lia].
        -- intros [?|[[->|?]%elem_of_cons ?]]; [left|left|right]; set_solver.
      * lia.
      * destruct best' as [b|]; [|by destruct Hbest].
        destruct Hbest as (H1 & H2 & H3). specialize (H2 b0 eq_refl). split_and!.
        -- destruct H1 as [[= <-]|[? ?]]; [|right; split; [set_solver|done]].
           destruct Horigin as [->|Ho]; [right; split; [set_solver|lia]|by left].
        -- intros a Ha. specialize (Hprev a Ha). lia.
        -- intros j [->|Hj]%elem_of_cons Hjw; [|by apply H3].
           rewrite Hacc, acc_insert, decide_True, decide_False by done. lia.
Qed.

Lemma picked_app i ps qs : picked i (ps ++ qs) = picked i ps + picked i qs.
Proof. apply sumZ_app. Qed.

Lemma sumZ_plus {A} (f g : A -> Z) l : sumZ (fun x => f x + g x) l = sumZ f l + sumZ g l.
Proof.
  induction l as [|x l IH]; [done|].
  change (f x + g x + sumZ (fun x => f x + g x) l = f x + sumZ f l + (g x + sumZ g l)). lia.
Qed.

Lemma sumZ_scale {A} (f : A -> Z) c l : sumZ (fun x => c * f x) l = c * sumZ f l.
Proof.
  induction l as [|x l IH]; [cbn; lia|].
  change (c * f x + sumZ (fun x => c * f x) l = c * (f x + sumZ f l)). lia.
Qed.

Lemma sumZ_le {A} (f g : A -> Z) l : (forall x, x ∈ l -> f x <= g x) -> sumZ f l <= sumZ g l.
Proof.
  induction l as [|x l IH]; intros H; [done|].
  change (f x + sumZ f l <= g x + sumZ g l).
  assert (f x <= g x) by (apply H; set_solver). assert (sumZ f l <= sumZ g l) by (apply IH; set_solver). lia.
Qed.

Lemma sumZ_zero_each {A} (f : A -> Z) l :
  (forall x, x ∈ l -> 0 <= f x) -> sumZ f l = 0 -> forall x, x ∈ l -> f x = 0.
Proof.
  induction l as [|y l IH]; intros Hn Hs x Hx; [set_solver|].
  change (f y + sumZ f l = 0) in Hs.
  assert (0 <= f y) by (apply Hn; set_solver).
  assert (0 <= sumZ f l) by (apply sumZ_nonneg; set_solver).
  apply elem_of_cons in Hx as [->|Hx]; [lia|]. apply IH; [set_solver|lia|done].
Qed.

(** Every pick is counted for exactly one candidate. *)
Lemma sumZ_picked l ps : NoDup l -> (forall p, p ∈ ps -> p ∈ l) ->
  sumZ (fun i => picked i ps) l = Z.of_nat (length ps).
Proof.
  intros Hnd. induction ps as [|p ps IH]; intros Hin.
  - unfold picked. cbn. induction l as [|i l IHl]; [done|].
    apply NoDup_cons in Hnd as [_ Hnd]. change (0 + sumZ (fun _ : Z => 0) l = 0).
    pose proof (IHl Hnd ltac:(set_solver)) as Hl. cbn in Hl. lia.
  - change (sumZ (fun i => picked i (p :: ps)) l)
      with (sumZ (fun i => (if p =? i then 1 else 0) + picked i ps) l).
    rewrite sumZ_plus, IH by set_solver.
    assert (Hone : forall l', NoDup l' -> p ∈ l' -> sumZ (fun i => if p =? i then 1 else 0) l' = 1).
    { clear. induction l' as [|i l' IH]; intros Hnd Hp; [set_solver|].
      apply NoDup_cons in Hnd as [Hi Hnd].
      change ((if p =? i then 1 else 0) + sumZ (fun i => if p =? i then 1 else 0) l' = 1).
      destruct (Z.eqb_spec p i) as [->|Hne].
      - rewrite (sumZ_ext _ (fun _ => 0 * 0)).
        + rewrite sumZ_scale. lia.
        + intros j Hj. destruct (Z.eqb_spec i j) as [->|]; [done|lia].
      - rewrite IH; [lia|done|set_solver]. }
    rewrite Hone by set_solver. cbn [length]. lia.
Qed.

Context (ch : Z) (weight : Z -> Z) (cands : list Z).
Hypothesis cands_nodup : NoDup cands.
Let total := sumZ (eff weight) cands.
Hypothesis total_pos : 0 < total.
Hypothesis total_fits : total * (total + 1) <= i64_max.

(** Where a rotation stands after the picks [ps]. *)
Record turning (ps : list Z) (cur : gmap Z Z) : Prop := mkTurning {
  turning_acc i : i ∈ cands -> acc cur i = Z.of_nat (length ps) * eff weight i - total * picked i ps;
  turning_low i : i ∈ cands -> - total < acc cur i;
  turning_out i : i ∉ cands -> acc cur i = 0;
  turning_in p : p ∈ ps -> p ∈ cands /\ 0 < weight p
}.

Lemma turning_sum ps cur : turning ps cur -> sumZ (acc cur) cands = 0.
Proof.
  intros Ht. rewrite (sumZ_ext _ (fun i => Z.of_nat (length ps) * eff weight i + - total * picked i ps)).
  - rewrite sumZ_plus, !sumZ_scale, sumZ_picked; [unfold total; lia|done|].
    intros p Hp. by apply (turning_in _ _ Ht).
  - intros i Hi. rewrite (turning_acc _ _ Ht i Hi). lia.
Qed.

Lemma picked_nonneg i ps : 0 <= picked i ps.
Proof. apply sumZ_nonneg. intros p _. case_match; lia. Qed.

Lemma picked_0 i ps : i ∉ ps -> picked i ps = 0.
Proof.
  intros Hi. unfold picked. rewrite (sumZ_ext _ (fun _ => 0 * 0)); [rewrite sumZ_scale; lia|].
  intros p Hp. destruct (Z.eqb_spec p i) as [->|]; [done|lia].
Qed.

(** One step of the rotation. *)
Lemma turning_step ps st :
  (Z.of_nat (length ps) < total) -> turning ps (default ∅ (st !! ch)) ->
  exists b st', nextWeighted ch cands weight st = (Some b, st') /\
    turning (ps ++ [b]) (default ∅ (st' !! ch)) /\ (forall ch', ch' <> ch -> st' !! ch' = st !! ch').
Proof.
  intros Hk Ht. set (cur := default ∅ (st !! ch)) in *. unfold nextWeighted. fold cur.
  destruct (weigh weight cands cur ∅ 0 None) as [[[cur1 live] tot] best] eqn:Hw.
  assert (Hin64 : forall i, i ∈ cands -> 0 < weight i -> in64 (acc cur i + weight i)).
  { intros i Hi Hwi. pose proof (turning_low _ _ Ht i Hi). pose proof (turning_acc _ _ Ht i Hi) as Hacc.
    pose proof (picked_nonneg i ps). pose proof (sumZ_eff_elem weight cands i Hi) as He. fold total in He.
    assert (weight i <= total) by (unfold eff in He; lia).
    assert (0 <= eff weight i) by apply eff_nonneg.
    unfold in64, i64_min, i64_max in *. nia. }
  apply weigh_spec in Hw as (Hacc & Hlive & Htot & Hbest); [|done|done|done|lia|unfold total in *; nia].
  assert (Hpos : 0 < sumZ (acc cur1) cands).
  { rewrite (sumZ_ext _ (fun i => acc cur i + eff weight i)).
    - rewrite sumZ_plus, (turning_sum ps) by done. fold total. lia.
    - intros i Hi. by rewrite Hacc, decide_True by done. }
  destruct best as [b|].
  2:{ destruct Hbest as [_ Hall]. exfalso.
      assert (total = 0); [|lia]. unfold total. rewrite (sumZ_ext _ (fun _ => 0 * 0)); [rewrite sumZ_scale; lia|].
      intros i Hi. specialize (Hall i Hi). unfold eff. lia. }
  destruct Hbest as ([Hb|[Hb Hwb]] & _ & Hmax); [done|].
  assert (Hbpos : 0 < acc cur1 b).
  { destruct (decide (0 < acc cur1 b)) as [|Hn]; [done|exfalso].
    assert (sumZ (acc cur1) cands <= sumZ (fun _ => 0 * 0) cands); [|rewrite sumZ_scale in *; lia].
    apply sumZ_le. intros i Hi. destruct (decide (0 < weight i)) as [Hwi|Hwi].
    - specialize (Hmax i Hi Hwi). lia.
    - rewrite Hacc, decide_True by done. rewrite (turning_acc _ _ Ht i Hi).
      assert (eff weight i = 0) as -> by (unfold eff; lia).
      pose proof (picked_nonneg i ps). nia. }
  eexists b, _. split; [done|].
  set (cur2 := filter (fun kv : Z * Z => kv.1 ∈ live) cur1).
  assert (Hkeep : forall i, i ∈ live -> acc cur2 i = acc cur1 i).
  { intros i Hi. unfold acc, cur2. rewrite map_lookup_filter.
    destruct (cur1 !! i) as [v|]; [|done]. simpl. by rewrite option_guard_True. }
  assert (Hgone : forall i, i ∉ live -> acc cur2 i = 0).
  { intros i Hi. unfold acc, cur2. rewrite map_lookup_filter.
    destruct (cur1 !! i) as [v|]; [|done]. simpl. by rewrite option_guard_False. }
  assert (Hlb : b ∈ live) by (apply Hlive; auto).
  assert (Hsub : i64_sub (default 0 (cur2 !! b)) tot = acc cur1 b - total).
  { change (default 0 (cur2 !! b)) with (acc cur2 b). rewrite Hkeep by done. unfold i64_sub.
    rewrite Htot, Z.add_0_l. fold total. apply wrap64_id.
    rewrite Hacc, decide_True by done.
    pose proof (Hin64 b Hb Hwb). assert (eff weight b = weight b) as -> by (unfold eff; lia).
    rewrite Hacc, decide_True in Hbpos by done. unfold eff in Hbpos.
    unfold in64, i64_min, i64_max in *. lia. }
  rewrite Hsub. split; [|intros ch' Hne; by rewrite lookup_insert_ne].
  rewrite lookup_insert_eq. cbn [from_option id].
  assert (Hone : forall i, picked i [b] = if b =? i then 1 else 0) by (intros; unfold picked; cbn; lia).
  split.
  - intros i Hi. rewrite acc_insert, length_app, picked_app, Hone. cbn [length].
    destruct (decide (b = i)) as [<-|Hne].
    + rewrite Z.eqb_refl, Hacc, decide_True, (turning_acc _ _ Ht) by done. lia.
    + replace (b =? i) with false by (symmetry; by apply Z.eqb_neq).
      destruct (decide (0 < weight i)) as [Hwi|Hwi].
      * rewrite Hkeep by (apply Hlive; auto).
        rewrite Hacc, decide_True, (turning_acc _ _ Ht) by done. lia.
      * rewrite Hgone by (rewrite Hlive; set_unfold; naive_solver lia).
        assert (eff weight i = 0) as -> by (unfold eff; lia).
        rewrite picked_0; [lia|]. intros Hp. by destruct (turning_in _ _ Ht i Hp).
  - intros i Hi. rewrite acc_insert. destruct (decide (b = i)) as [<-|Hne]; [lia|].
    destruct (decide (i ∈ live)) as [Hl|Hl]; [|rewrite Hgone by done; lia].
    rewrite Hkeep, Hacc, decide_True by done.
    pose proof (turning_low _ _ Ht i Hi). pose proof (eff_nonneg weight i). lia.
  - intros i Hi. rewrite acc_insert, decide_False by (intros ->; done). apply Hgone.
    rewrite Hlive. set_unfold. naive_solver.
  - intros p [Hp|Hp]%elem_of_app; [by apply (turning_in _ _ Ht)|].
    apply list_elem_of_singleton in Hp as ->. done.
Qed.

(** Consecutive picks. *)
Fixpoint rotation (k : nat) (st : cursors) : list (option Z) * cursors :=
  match k with
  | O => ([], st)
  | S k' => let (p, st1) := nextWeighted ch cands weight st in
            let (ps, st2) := rotation k' st1 in (p :: ps, st2)
  end.

Lemma rotation_turning k : forall ps st,
  Z.of_nat (length ps + k) <= total -> turning ps (default ∅ (st !! ch)) ->
  exists qs st', rotation k st = (Some <$> qs, st') /\ length qs = k /\
    turning (ps ++ qs) (default ∅ (st' !! ch)) /\ (forall ch', ch' <> ch -> st' !! ch' = st !! ch').
Proof.
  induction k as [|k IH]; intros ps st Hk Ht.
  - exists [], st. by rewrite app_nil_r.
  - destruct (turning_step ps st) as (b & st1 & Hn & Ht1 & Ho1); [lia|done|].
    destruct (IH (ps ++ [b]) st1) as (qs & st2 & Hr & Hlen & Ht2 & Ho2); [rewrite length_app; cbn; lia|done|].
    exists (b :: qs), st2. cbn [rotation]. rewrite Hn, Hr. split_and!; [done|cbn; lia| |].
    + by rewrite <- app_assoc in Ht2.
    + intros ch' Hne. by rewrite Ho2, Ho1.
Qed.

(** The cursor is at rest: every accumulated weight is zero. *)
Definition at_rest (st : cursors) : Prop := forall i, acc (default ∅ (st !! ch)) i = 0.

Lemma rotation_cycle st : at_rest st ->
  exists qs st', rotation (Z.to_nat total) st = (Some <$> qs, st') /\
    (forall i, i ∈ cands -> picked i qs = eff weight i) /\ (forall i, i ∈ qs -> i ∈ cands /\ 0 < weight i) /\
    at_rest st' /\ (forall ch', ch' <> ch -> st' !! ch' = st !! ch').
Proof.
  intros Hrest. destruct (rotation_turning (Z.to_nat total) [] st) as (qs & st' & Hr & Hlen & Ht & Ho).
  { cbn. lia. }
  { split; [intros i Hi; rewrite Hrest; unfold picked; cbn; lia|intros i Hi; rewrite Hrest; lia
           |intros i _; apply Hrest|set_solver]. }
  cbn [app] in Ht.
  assert (Hge : forall i, i ∈ cands -> 0 <= eff weight i - picked i qs).
  { intros i Hi. pose proof (turning_low _ _ Ht i Hi) as Hlow. rewrite (turning_acc _ _ Ht i Hi) in Hlow.
    rewrite Hlen, Z2Nat.id in Hlow by lia. nia. }
  assert (Hsum : sumZ (fun i => eff weight i - picked i qs) cands = 0).
  { rewrite (sumZ_ext _ (fun i => eff weight i + -1 * picked i qs)) by (intros; lia).
    rewrite sumZ_plus, sumZ_scale, sumZ_picked; [fold total; lia|done|].
    intros p Hp. by apply (turning_in _ _ Ht). }
  assert (Heq : forall i, i ∈ cands -> picked i qs = eff weight i).
  { intros i Hi. pose proof (sumZ_zero_each _ _ Hge Hsum i Hi) as Hz. cbn in Hz. lia. }
  exists qs, st'. split_and!; [done|done|apply (turning_in _ _ Ht)| |done].
  intros i. destruct (decide (i ∈ cands)) as [Hi|Hi]; [|by apply (turning_out _ _ Ht)].
  rewrite (turning_acc _ _ Ht i Hi), Heq, Hlen by done. lia.
Qed.
End WeightedFacts.

(** ** Key selection, proved *)

Section KeyFacts.
Import GoStrings ChannelKeys.
Context (json_array : string -> option (list string)).
Implicit Types (c : Channel) (st : cursors).

Lemma elem_of_indexes {A} (l : list A) idx : idx ∈ indexes l <-> 0 <= idx < Z.of_nat (length l).
Proof. unfold indexes. rewrite elem_of_seqZ. lia. Qed.

Lemma elem_of_enabledIdx (i : ChannelInfo) keys idx :
  idx ∈ enabledIdx i keys <-> 0 <= idx < Z.of_nat (length keys) /\ key_enabled i idx = true.
Proof.
  unfold enabledIdx. rewrite list_elem_of_In, List.filter_In, <- list_elem_of_In, elem_of_indexes. done.
Qed.

Lemma weigh_best weight cands : forall cur live total best cur' live' total' best',
  weigh weight cands cur live total best = (cur', live', total', best') ->
  match best' with
  | None => best = None /\ forall i, i ∈ cands -> weight i <= 0
  | Some b => best = Some b \/ (b ∈ cands /\ 0 < weight b)
  end.
Proof.
  induction cands as [|i cands IH]; intros cur live total best cur' live' total' best' Hw.
  - cbn [weigh] in Hw. injection Hw as <- <- <- <-. destruct best; [by left|set_solver].
  - cbn [weigh] in Hw. destruct (weight i <=? 0) eqn:E; bool_to_prop; apply IH in Hw.
    + destruct best' as [b|]; [set_solver|]. destruct Hw as [-> Hall]. split; [done|].
      intros j [->|Hj]%elem_of_cons; [done|auto].
    + destruct best' as [b|].
      * destruct Hw as [Hb|[? ?]]; [|right; set_solver].
        destruct best as [b0|]; [destruct (_ >? _)|]; injection Hb as <-; (by left) || (right; split; [set_solver|lia]).
      * destruct Hw as [Hb _]. destruct best as [b0|]; [by destruct (_ >? _)|done].
Qed.

Lemma nextWeighted_pick ch cands weight st p st' :
  nextWeighted ch cands weight st = (p, st') ->
  match p with
  | Some b => b ∈ cands /\ 0 < weight b
  | None => forall i, i ∈ cands -> weight i <= 0
  end.
Proof.
  unfold nextWeighted. destruct (weigh _ _ _ _ _ _) as [[[cur1 live] tot] best] eqn:Hw.
  apply weigh_best in Hw. destruct best as [b|]; intros [= <- <-].
  - by destruct Hw as [|?].
  - by destruct Hw.
Qed.

Lemma KeyIfRoutable_spec c idx k :
  KeyIfRoutable json_array c idx = Some k <->
  IsMultiKey (Info c) = true /\ idx ∈ enabledIdx (Info c) (GetKeys json_array c) /\
  (MultiKeyMode (Info c) = MultiKeyModeWeighted -> 0 < KeyWeight (Info c) idx) /\
  k = key_at (GetKeys json_array c) idx.
Proof.
  unfold KeyIfRoutable. rewrite elem_of_enabledIdx.
  destruct (IsMultiKey (Info c)); cbn [negb]; [|naive_solver].
  destruct ((idx <? 0) || (idx >=? Z.of_nat (length (GetKeys json_array c)))) eqn:Er.
  { rewrite Z.geb_leb, orb_true_iff, Z.ltb_lt, Z.leb_le in Er. split; [done|]. lia. }
  bool_to_prop. destruct (key_enabled (Info c) idx); cbn [negb]; [|naive_solver].
  destruct (String.eqb_spec (MultiKeyMode (Info c)) MultiKeyModeWeighted) as [Hm|Hm]; cbn [andb].
  - destruct (KeyWeight (Info c) idx <=? 0) eqn:Ew; bool_to_prop; [|naive_solver lia].
    split; [done|]. intros (_ & _ & Hw & _). specialize (Hw Hm). lia.
  - naive_solver lia.
Qed.

Lemma poll_order_range start n idx : 0 < n -> idx ∈ poll_order start n -> 0 <= idx < n.
Proof. intros Hn. unfold poll_order. rewrite list_elem_of_fmap. intros (j & -> & _). by apply Z.mod_pos_bound. Qed.

(** What the scan of the cooldowns answers. *)
Lemma cooling_scan_spec (i : ChannelInfo) idxs : forall e t,
  (forall idx, idx ∈ idxs -> key_enabled i idx = false) -> 0 <= e ->
  cooling_scan i idxs e = Some t ->
  (forall idx, idx ∈ idxs -> exists d, MultiKeyCooldownUntil i !! idx = Some d /\ t <= d) /\
  (e = 0 \/ t <= e) /\ 0 <= t /\
  (t = e \/ exists idx, idx ∈ idxs /\ MultiKeyCooldownUntil i !! idx = Some t) /\
  (e = 0 -> idxs <> [] -> exists idx, idx ∈ idxs /\ MultiKeyCooldownUntil i !! idx = Some t).
Proof.
  induction idxs as [|x idxs IH]; intros e t Hdown He.
  - cbn [cooling_scan]. intros [= <-]. split_and!; [set_solver|by right|done|by left|done].
  - cbn [cooling_scan]. rewrite (Hdown x) by set_solver.
    destruct (MultiKeyCooldownUntil i !! x) as [u|] eqn:Hu; [|done].
    destruct (u <=? 0) eqn:Hpos; [done|]. bool_to_prop. intros Hs.
    set (e1 := if (e =? 0) || (u <? e) then u else e) in *.
    assert (He1 : 0 < e1 <= u /\ (e = 0 \/ e1 <= e) /\ (e1 = u \/ e1 = e /\ e <> 0)).
    { unfold e1. destruct (e =? 0) eqn:E0, (u <? e) eqn:E1; cbn [orb]; bool_to_prop; lia. }
    apply IH in Hs as (Hall & Hle & Ht & Hat & _); [|set_solver|lia].
    assert (Hte : t <= e1) by lia.
    assert (Hsome : t = u \/ (t = e /\ e <> 0) \/ exists idx, idx ∈ idxs /\ MultiKeyCooldownUntil i !! idx = Some t).
    { destruct Hat as [->|Hex]; [|by right; right]. destruct He1 as (_ & _ & [->|[-> ?]]); [by left|by right; left]. }
    split_and!.
    + intros idx [->|Hidx]%elem_of_cons; [|by apply Hall]. exists u. split; [done|lia].
    + lia.
    + done.
    + destruct Hsome as [->|[[-> _]|(idx & ? & ?)]]; [right|by left|right; exists idx; set_solver].
      exists x. set_solver.
    + intros -> _. destruct Hsome as [->|[[_ ?]|(idx & ? & ?)]]; [exists x; set_solver|lia|exists idx; set_solver].
Qed.

(** [k] consecutive calls on a channel that does not otherwise change. *)
Fixpoint serve (cached : option ChannelInfo) (r : Z) (k : nat) (c : Channel) (st : cursors)
    : list (result key_err (string * Z)) * Channel * cursors :=
  match k with
  | O => ([], c, st)
  | S k' =>
      let '(res, c1, st1) := GetNextEnabledKey json_array cached r c st in
      let '(rs, c2, st2) := serve cached r k' c1 st1 in (res :: rs, c2, st2)
  end.

Lemma weighted_call cached r c st p st' :
  IsMultiKey (Info c) = true -> MultiKeyMode (Info c) = MultiKeyModeWeighted ->
  nextWeighted (Id c) (enabledIdx (Info c) (GetKeys json_array c)) (KeyWeight (Info c)) st = (Some p, st') ->
  GetNextEnabledKey json_array cached r c st = (Ok (key_at (GetKeys json_array c) p, p), c, st').
Proof.
  intros Hm Hmode Hn. pose proof (nextWeighted_pick _ _ _ _ _ _ Hn) as [Hp _].
  pose proof Hp as [Hr _]%elem_of_enabledIdx. unfold GetNextEnabledKey. rewrite Hm. cbn [negb].
  destruct (GetKeys json_array c) as [|k0 ks] eqn:Hk; [cbn in Hr; lia|].
  destruct (enabledIdx (Info c) (k0 :: ks)) as [|f o] eqn:He; [set_solver|].
  rewrite Hmode. change (String.eqb MultiKeyModeWeighted MultiKeyModeRandom) with false.
  rewrite String.eqb_refl. cbn [id]. by rewrite Hn.
Qed.

Lemma serve_rotation cached r c : forall k st qs st',
  IsMultiKey (Info c) = true -> MultiKeyMode (Info c) = MultiKeyModeWeighted ->
  rotation (Id c) (KeyWeight (Info c)) (enabledIdx (Info c) (GetKeys json_array c)) k st = (Some <$> qs, st') ->
  serve cached r k c st = ((fun i => Ok (key_at (GetKeys json_array c) i, i)) <$> qs, c, st').
Proof.
  induction k as [|k IH]; intros st qs st' Hm Hmode Hr; cbn [rotation serve] in *.
  - injection Hr as Hq <-. destruct qs; [done|discriminate Hq].
  - destruct (nextWeighted _ _ _ _) as [p st1] eqn:Hn.
    destruct (rotation _ _ _ k st1) as [ps st2] eqn:Hr'. injection Hr as Hq <-.
    destruct qs as [|q qs]; [discriminate Hq|]. injection Hq as -> ->.
    erewrite weighted_call by done. by erewrite IH by done.
Qed.

(** One cycle of calls, as many as the weights add up to. *)
Lemma weighted_cycle cached r c st :
  let en := enabledIdx (Info c) (GetKeys json_array c) in
  let total := sumZ (eff (KeyWeight (Info c))) en in
  IsMultiKey (Info c) = true -> MultiKeyMode (Info c) = MultiKeyModeWeighted ->
  0 < total -> total * (total + 1) <= i64_max -> at_rest (Id c) st ->
  exists idxs st',
    serve cached r (Z.to_nat total) c st =
      ((fun i => Ok (key_at (GetKeys json_array c) i, i)) <$> idxs, c, st') /\
    (forall idx, idx ∈ en -> picked idx idxs = Z.max 0 (KeyWeight (Info c) idx)) /\
    (forall idx, idx ∈ idxs -> KeyIfRoutable json_array c idx = Some (key_at (GetKeys json_array c) idx)) /\
    at_rest (Id c) st'.
Proof.
  intros en total Hm Hmode Hpos Hfit Hrest.
  destruct (rotation_cycle (Id c) (KeyWeight (Info c)) en) with (st := st)
    as (qs & st' & Hr & Hcount & Hin & Hrest' & _); [|done|done|done|].
  { apply NoDup_ListNoDup, List.NoDup_filter, NoDup_ListNoDup, NoDup_seqZ. }
  exists qs, st'. split_and!; [|done| |done].
  - by apply serve_rotation.
  - intros idx Hidx. apply KeyIfRoutable_spec. destruct (Hin idx Hidx). split_and!; done.
Qed.

Lemma serve_app cached r m n c st c1 st1 rs :
  serve cached r m c st = (rs, c1, st1) ->
  serve cached r (m + n) c st = let '(rs', c2, st2) := serve cached r n c1 st1 in (rs ++ rs', c2, st2).
Proof.
  revert c st rs. induction m as [|m IH]; intros c st rs Hs; cbn [serve Nat.add] in *.
  - injection Hs as <- <- <-. by destruct (serve cached r n c st) as [[? ?] ?].
  - destruct (GetNextEnabledKey json_array cached r c st) as [[res c2] st2].
    destruct (serve cached r m c2 st2) as [[rs2 c3] st3] eqn:Hm. injection Hs as <- <- <-.
    rewrite (IH _ _ _ Hm). by destruct (serve cached r n c3 st3) as [[? ?] ?].
Qed.

(** C30. Keys are served in proportion to their weights.  On a weighted channel
    whose rotation is at rest (as that of a channel that was not served from yet is),
    while its weights and the enabled keys stay as they are, any number of cycles of calls
    (a cycle is as many as the weights of its enabled keys add up to) serves every enabled
    key exactly its weight of times per cycle, never one that is disabled or weighted to
    zero, and leaves the rotation at rest again. *)
Theorem weighted_keys_fair cached r c st n :
  let en := enabledIdx (Info c) (GetKeys json_array c) in
  let total := sumZ (eff (KeyWeight (Info c))) en in
  IsMultiKey (Info c) = true -> MultiKeyMode (Info c) = MultiKeyModeWeighted ->
  0 < total -> total * (total + 1) <= i64_max -> at_rest (Id c) st ->
  exists idxs st',
    serve cached r (n * Z.to_nat total) c st =
      ((fun i => Ok (key_at (GetKeys json_array c) i, i)) <$> idxs, c, st') /\
    (forall idx, idx ∈ en -> picked idx idxs = Z.of_nat n * Z.max 0 (KeyWeight (Info c) idx)) /\
    (forall idx, idx ∈ idxs -> KeyIfRoutable json_array c idx = Some (key_at (GetKeys json_array c) idx)) /\
    at_rest (Id c) st'.
Proof.
  intros en total Hm Hmode Hpos Hfit. revert st. induction n as [|n IH]; intros st Hrest.
  - exists [], st. split_and!; [done|intros; cbn; lia|set_solver|done].
  - destruct (weighted_cycle cached r c st Hm Hmode Hpos Hfit Hrest) as (idxs & st1 & Hs & Hc & Hk & Hrest1).
    destruct (IH st1 Hrest1) as (idxs' & st2 & Hs' & Hc' & Hk' & Hrest2).
    exists (idxs ++ idxs'), st2. cbn [Nat.mul]. fold en total in Hs, Hc. split_and!; [| |set_solver|done].
    + rewrite (serve_app _ _ _ _ _ _ _ _ _ Hs), Hs'. by rewrite fmap_app.
    + intros idx Hidx. rewrite picked_app, (Hc idx Hidx), (Hc' idx Hidx). lia.
Qed.

(** The next key is a usable one, and a refusal means there is none.  Whatever
    the mode, the statuses and the random draw: a key that is handed out is an
    enabled key of the channel at its own index (and not weighted to zero); an
    "all keys cooling" refusal means no key is usable, every key has a deadline, and
    the retry time is the earliest of them; any other refusal means no key is
    usable, or that the polling position could not be read. *)
Theorem next_key_sound cached r c st res c' st' :
  IsMultiKey (Info c) = true -> GetNextEnabledKey json_array cached r c st = (res, c', st') ->
  match res with
  | Ok (k, idx) => KeyIfRoutable json_array c idx = Some k
  | Err ErrGetChannelFailed => cached = None
  | Err ErrNoAvailableKey => forall idx, KeyIfRoutable json_array c idx = None
  | Err (ErrAllKeysCooling t) =>
      (forall idx, KeyIfRoutable json_array c idx = None) /\
      (forall idx, 0 <= idx < Z.of_nat (length (GetKeys json_array c)) ->
         exists d, MultiKeyCooldownUntil (Info c) !! idx = Some d /\ 0 < t <= d) /\
      exists idx, 0 <= idx < Z.of_nat (length (GetKeys json_array c)) /\
        MultiKeyCooldownUntil (Info c) !! idx = Some t
  end.
Proof.
  intros Hm. unfold GetNextEnabledKey. rewrite Hm. cbn [negb].
  set (keys := GetKeys json_array c) in *. set (i := Info c) in *.
  assert (Hnone : enabledIdx i keys = [] -> forall idx, KeyIfRoutable json_array c idx = None).
  { intros He idx. destruct (KeyIfRoutable _ _ _) as [k|] eqn:E; [|done].
    apply KeyIfRoutable_spec in E as (_ & Hin & _). fold i keys in Hin. rewrite He in Hin. set_solver. }
  assert (Hok : forall idx, idx ∈ enabledIdx i keys -> MultiKeyMode i <> MultiKeyModeWeighted ->
            KeyIfRoutable json_array c idx = Some (key_at keys idx)).
  { intros idx Hin Hmode. apply KeyIfRoutable_spec. split_and!; done. }
  destruct keys as [|k0 ks] eqn:Hk; [intros [= <- <- <-]; by apply Hnone|]. rewrite <- Hk in *.
  destruct (enabledIdx i keys) as [|f o] eqn:He.
  { intros [= <- <- <-]. unfold no_key_error. specialize (Hnone eq_refl).
    destruct (0 <? size _)%nat; [|done]. destruct (cooling_scan i (indexes keys) 0) as [t|] eqn:Hs; [|done].
    destruct (t >? 0) eqn:Ht; [|done]. rewrite Z.gtb_ltb in Ht. bool_to_prop.
    apply cooling_scan_spec in Hs as (Hall & _ & _ & _ & Hex); [| |lia].
    - split_and!; [done| |].
      + intros idx Hidx. destruct (Hall idx) as (d & ? & ?); [by apply elem_of_indexes|]. exists d. split; [done|lia].
      + destruct Hex as (idx & Hidx & ?); [done| |exists idx; split; [by apply elem_of_indexes|done]].
        assert (H0 : 0 ∈ indexes keys) by (apply elem_of_indexes; rewrite Hk; cbn [length]; lia).
        intros Hnil. rewrite Hnil in H0. set_solver.
    - intros idx Hidx%elem_of_indexes. destruct (key_enabled i idx) eqn:Hen; [|done].
      assert (idx ∈ enabledIdx i keys) by by apply elem_of_enabledIdx. rewrite He in *. set_solver. }
  assert (Hf : f ∈ f :: o) by set_solver.
  destruct (String.eqb_spec (MultiKeyMode i) MultiKeyModeRandom) as [Hr|_].
  { intros [= <- <- <-]. apply Hok; [|rewrite Hr; done]. apply list_elem_of_In, (List.nth_In (f :: o)).
    unfold Intn. pose proof (Z.mod_pos_bound r (Z.of_nat (length (f :: o)))). cbn [length] in *. lia. }
  destruct (String.eqb_spec (MultiKeyMode i) MultiKeyModeWeighted) as [Hw|Hnw].
  { destruct (nextWeighted _ _ _ _) as [p st1] eqn:Hn. apply nextWeighted_pick in Hn.
    destruct p as [idx|]; intros [= <- <- <-].
    - destruct Hn. apply KeyIfRoutable_spec. split_and!; done || (fold i keys; by rewrite He).
    - intros idx. destruct (KeyIfRoutable _ _ _) as [k|] eqn:E; [|done].
      apply KeyIfRoutable_spec in E as (_ & Hin & Hpos & _). fold i keys in Hin, Hpos. rewrite He in Hin.
      specialize (Hn idx Hin). specialize (Hpos Hw). lia. }
  destruct (String.eqb_spec (MultiKeyMode i) MultiKeyModePolling) as [Hp|_].
  2:{ intros [= <- <- <-]. by apply Hok. }
  destruct cached as [ci|]; [|by intros [= <- <- <-]].
  destruct (List.find _ _) as [idx|] eqn:Hfind; intros [= <- <- <-]; [|by apply Hok].
  apply List.find_some in Hfind as [Hin%list_elem_of_In Hen]. apply Hok; [|done]. rewrite <- He.
  apply elem_of_enabledIdx. split; [|done]. eapply poll_order_range; [|exact Hin]. rewrite Hk. cbn [length]. lia.
Qed.
End KeyFacts.

(** ** Parking and recovery, proved *)

Section RecoveryFacts.
Import GoStrings ChannelKeys.
Implicit Types (c : Channel).

(** The deadline of a key has passed. *)
Definition expired (now : Z) (i : ChannelInfo) (idx : Z) : Prop :=
  exists d, MultiKeyCooldownUntil i !! idx = Some d /\ 0 < d <= now.

Lemma elem_of_expired_keys now i idx : idx ∈ expired_keys now i <-> expired now i idx.
Proof.
  unfold expired_keys, expired. rewrite list_elem_of_fmap. split.
  - intros ([k d] & -> & Hin). rewrite list_elem_of_In, List.filter_In, <- list_elem_of_In in Hin.
    destruct Hin as [Hin%elem_of_map_to_list Hc]. cbn [fst snd] in *. bool_to_prop. exists d. split; [done|lia].
  - intros (d & Hd & Hr). exists (idx, d). split; [done|].
    rewrite list_elem_of_In, List.filter_In, <- list_elem_of_In. split; [by apply elem_of_map_to_list|].
    cbn [fst snd]. apply negb_true_iff, orb_false_iff. rewrite Z.leb_gt, Z.ltb_ge. lia.
Qed.

(** Clearing several keys clears exactly those. *)
Lemma clear_keys_spec ks : forall c,
  let c' := fold_left (fun c k => ClearMultiKeyCooldown k c) ks c in
  (forall idx, MultiKeyStatusList (Info c') !! idx =
     if decide (idx ∈ ks) then None else MultiKeyStatusList (Info c) !! idx) /\
  (forall idx, MultiKeyCooldownUntil (Info c') !! idx =
     if decide (idx ∈ ks) then None else MultiKeyCooldownUntil (Info c) !! idx) /\
  Status c' = Status c /\ MultiKeySize (Info c') = MultiKeySize (Info c).
Proof.
  induction ks as [|k ks IH]; intros c; cbn [fold_left]; cbv zeta.
  - split_and!; [intros idx; rewrite decide_False by set_solver; done..|done|done].
  - destruct (IH (ClearMultiKeyCooldown k c)) as (H1 & H2 & H3 & H4).
    assert (Hd : forall (m : gmap Z Z) idx, (if decide (idx ∈ ks) then None else delete k m !! idx) =
              if decide (idx ∈ k :: ks) then None else m !! idx).
    { intros m idx. rewrite lookup_delete. destruct (decide (idx ∈ ks)), (decide (idx ∈ k :: ks)), (decide (k = idx)); set_solver. }
    split_and!; [|  |done|done]; intros idx; [rewrite H1|rewrite H2]; apply Hd.
Qed.

(** The reaper brings back exactly the keys whose time has come.  A pass over a
    multi-key channel leaves it alone when no deadline has passed; otherwise every
    key whose deadline has passed is enabled with its deadline gone, every other key
    keeps its status and deadline, and an auto-disabled channel is switched back on,
    with its abilities, exactly when it has a key again; a status set by an operator
    is never touched. *)
Theorem reap_exact now c :
  IsMultiKey (Info c) = true ->
  match reapChannel now c with
  | None => forall idx, ~ expired now (Info c) idx
  | Some (c', abilities_on) =>
      (exists idx, expired now (Info c) idx) /\
      (forall idx, expired now (Info c) idx ->
         key_enabled (Info c') idx = true /\ MultiKeyCooldownUntil (Info c') !! idx = None) /\
      (forall idx, ~ expired now (Info c) idx ->
         MultiKeyStatusList (Info c') !! idx = MultiKeyStatusList (Info c) !! idx /\
         MultiKeyCooldownUntil (Info c') !! idx = MultiKeyCooldownUntil (Info c) !! idx) /\
      (abilities_on = true <->
         Status c = ChannelStatusAutoDisabled /\
         Z.of_nat (size (MultiKeyStatusList (Info c'))) < MultiKeySize (Info c)) /\
      Status c' = if abilities_on then ChannelStatusEnabled else Status c
  end.
Proof.
  intros Hm. unfold reapChannel. rewrite Hm. cbn [negb].
  pose proof (elem_of_expired_keys now (Info c)) as Hex.
  destruct (expired_keys now (Info c)) as [|k ks] eqn:Hk.
  { intros idx He. apply Hex in He. set_solver. }
  rewrite <- Hk in *. set (ex := expired_keys now (Info c)) in *.
  destruct (clear_keys_spec ex c) as (Hst & Hcd & Hs & Hsz).
  set (c1 := fold_left (fun c k => ClearMultiKeyCooldown k c) ex c) in *.
  assert (Hkeys : (exists idx, expired now (Info c) idx) /\
    (forall idx, expired now (Info c) idx ->
       key_enabled (Info c1) idx = true /\ MultiKeyCooldownUntil (Info c1) !! idx = None) /\
    (forall idx, ~ expired now (Info c) idx ->
       MultiKeyStatusList (Info c1) !! idx = MultiKeyStatusList (Info c) !! idx /\
       MultiKeyCooldownUntil (Info c1) !! idx = MultiKeyCooldownUntil (Info c) !! idx)).
  { split_and!.
    - exists k. apply Hex. rewrite Hk. set_solver.
    - intros idx He%Hex. unfold key_enabled, getStatus. rewrite Hst, Hcd. by case_decide.
    - intros idx He. rewrite <- Hex in He. rewrite Hst, Hcd. by case_decide. }
  destruct Hkeys as (H1 & H2 & H3).
  destruct ((Status c1 =? ChannelStatusAutoDisabled) && _) eqn:E; bool_to_prop; split_and!; try done.
  - split; [intros _; split; [lia|cbn [Info set_status_info]; lia]|done].
  - split; [done|]. intros [Ha Hb]. exfalso. apply andb_false_iff in E as [E|E]; bool_to_prop; lia.
Qed.

(** Recovery overrides an operator.  A key that is parked until a deadline and
    then disabled from the console is recorded as disabled by an operator, but the
    deadline stays on record; once it passes, the reaper enables the key again. *)
Theorem reaper_reenables_disabled_key now idx c c1 :
  IsMultiKey (Info c) = true -> expired now (Info c) idx -> disable_key idx c = Some c1 ->
  MultiKeyStatusList (Info c1) !! idx = Some ChannelStatusManuallyDisabled /\
  exists c2 on, reapChannel now c1 = Some (c2, on) /\ key_enabled (Info c2) idx = true.
Proof.
  intros Hm He Hd. unfold disable_key in Hd. destruct (_ || _); [done|]. injection Hd as <-.
  split; [apply lookup_insert_eq|]. set (c1 := set_info _ c).
  assert (Hm1 : negb (IsMultiKey (Info c1)) = false) by (subst c1; cbn; by rewrite Hm).
  unfold reapChannel. rewrite Hm1.
  assert (Hin : idx ∈ expired_keys now (Info c1)) by by apply elem_of_expired_keys.
  destruct (expired_keys now (Info c1)) as [|k ks] eqn:Hk; [set_solver|]. rewrite <- Hk in *.
  destruct (clear_keys_spec (expired_keys now (Info c1)) c1) as (Hst & _ & _ & _).
  assert (Hen : key_enabled (Info (fold_left (fun c k => ClearMultiKeyCooldown k c)
                  (expired_keys now (Info c1)) c1)) idx = true).
  { unfold key_enabled, getStatus. rewrite Hst. by case_decide. }
  destruct (_ && _); eexists _, _; (split; [done|]); exact Hen.
Qed.

(** An error on a key the channel no longer has disables its first key.  The
    status write looks the key up and falls back to index 0; the cooldown write, on
    the same kind of error, changes nothing. *)
Theorem unknown_key_disables_first json_array key status reason now until c :
  key_position (GetKeys json_array c) key = None -> GetKeys json_array c <> [] ->
  status <> ChannelStatusEnabled ->
  MultiKeyStatusList (Info (handlerMultiKeyUpdate json_array key status reason now c)) !! 0 = Some status /\
  applyMultiKeyCooldownOpt json_array key until reason false now c = (c, 0).
Proof.
  intros Hk Hne Hs. split.
  - unfold handlerMultiKeyUpdate. destruct (GetKeys json_array c) as [|k0 ks] eqn:E; [done|].
    rewrite Hk. cbn [default from_option]. apply Z.eqb_neq in Hs. rewrite Hs. cbv zeta.
    case_match; apply lookup_insert_eq.
  - unfold applyMultiKeyCooldownOpt. by rewrite Hk.
Qed.
End RecoveryFacts.

Section KeyWitnesses.
Import GoStrings ChannelKeys.

Definition no_json (s : string) : option (list string) := None.

(** Three keys; the weights are 2, 1 and 0, and the second key is parked until 100. *)
Definition demo_keys (mode : string) (st cd : gmap Z Z) : Channel :=
  mkChannel 4 "" 1 "k0" ChannelStatusEnabled (Some 10) "m" "g" None
    (mkInfo true 3 st ∅ ∅ 0 mode cd (<[0 := 2]> (<[1 := 1]> (<[2 := 0]> ∅)))) "" 0 ["k0"; "k1"; "k2"].

Definition demo_weighted : Channel := demo_keys MultiKeyModeWeighted ∅ ∅.
Definition demo_parked : Channel :=
  demo_keys MultiKeyModeRandom (<[1 := ChannelStatusAutoDisabled]> ∅) (<[1 := 100]> ∅).

Lemma weighted_keys_fair_witness :
  fst (fst (serve no_json None 0 3 demo_weighted ∅)) = [Ok ("k0", 0); Ok ("k1", 1); Ok ("k0", 0)] /\
  exists idxs st', serve no_json None 0 6 demo_weighted ∅ =
    ((fun i => Ok (key_at ["k0"; "k1"; "k2"] i, i)) <$> idxs, demo_weighted, st') /\ picked 0 idxs = 4 /\ picked 1 idxs = 2.
Proof.
  split; [vm_compute; reflexivity|].
  destruct (weighted_keys_fair no_json None 0 demo_weighted ∅ 2) as (idxs & st' & Hs & Hc & _).
  - reflexivity.
  - reflexivity.
  - vm_compute; reflexivity.
  - vm_compute; discriminate.
  - intros i. reflexivity.
  - exists idxs, st'. split; [exact Hs|].
    split; [apply (Hc 0)|apply (Hc 1)]; apply elem_of_enabledIdx; (split; [cbn; lia|reflexivity]).
Defined.

(** The cursor outlives the weights: two keys of weight 100 that are edited to weight 1
    after one call.  The next hundred calls all serve the second key, no cycle of two
    serves the first. *)
Definition even_keys (w : Z) : Channel :=
  mkChannel 4 "" 1 "k0" ChannelStatusEnabled (Some 10) "m" "g" None
    (mkInfo true 2 ∅ ∅ ∅ 0 MultiKeyModeWeighted ∅ (<[0 := w]> (<[1 := w]> ∅))) "" 0 ["k0"; "k1"].

Example stale_cursor_starves :
  let st := snd (serve no_json None 0 1 (even_keys 100) ∅) in
  fst (fst (serve no_json None 0 100 (even_keys 1) st)) = repeat (Ok ("k1", 1)) 100.
Proof. vm_compute. reflexivity. Qed.

Lemma next_key_sound_witness :
  KeyIfRoutable no_json demo_parked 2 = Some "k2".
Proof.
  apply (next_key_sound no_json None 1 demo_parked ∅ (Ok ("k2", 2)) demo_parked ∅);
    [reflexivity|vm_compute; reflexivity].
Defined.

Lemma reap_exact_witness :
  match reapChannel 150 demo_parked with
  | None => False
  | Some (c', on) => key_enabled (Info demo_parked) 1 = false /\ key_enabled (Info c') 1 = true /\ on = false
  end.
Proof.
  pose proof (reap_exact 150 demo_parked eq_refl) as H.
  destruct (reapChannel 150 demo_parked) as [[c' on]|].
  - destruct H as (_ & H & _ & Hon & _). split; [reflexivity|]. split.
    + apply H. exists 100. split; [reflexivity|lia].
    + destruct on; [|reflexivity]. destruct Hon as [Hon _]. destruct (Hon eq_refl) as [Hst _]. discriminate Hst.
  - apply (H 1). exists 100. split; [reflexivity|lia].
Defined.

Lemma reaper_reenables_disabled_key_witness :
  exists c1, disable_key 1 demo_parked = Some c1 /\ key_enabled (Info c1) 1 = false /\
    exists c2 on, reapChannel 150 c1 = Some (c2, on) /\ key_enabled (Info c2) 1 = true.
Proof.
  eexists. split; [reflexivity|]. split; [reflexivity|].
  apply (reaper_reenables_disabled_key 150 1 demo_parked).
  - reflexivity.
  - exists 100. split; [reflexivity|lia].
  - reflexivity.
Defined.

Lemma unknown_key_disables_first_witness :
  key_enabled (Info demo_parked) 0 = true /\
  MultiKeyStatusList (Info (handlerMultiKeyUpdate no_json "gone" ChannelStatusAutoDisabled "invalid key" 50
    demo_parked)) !! 0 = Some ChannelStatusAutoDisabled.
Proof.
  split; [reflexivity|].
  apply (unknown_key_disables_first no_json "gone" ChannelStatusAutoDisabled "invalid key" 50 100 demo_parked);
    [reflexivity|discriminate|discriminate].
Defined.
End KeyWitnesses.
