(* ===== verification/SmartRouting.v ===== *)
(** * Channel scores

    Model of internal/app/hub/channel_scorer.go, the running statistics of each
    channel and the score computed from them, and of
    internal/app/hub/smart_routing.go, which bends the routing weights by the
    scores.  Scores and latencies are IEEE doubles; the clock is an argument. *)

From Stdlib Require Import SpecFloat.
From S2P Require Import Prelude PlatformBilling.

Module SmartRouting.
Import PlatformBilling.

(** ** Doubles *)

Definition f64_add : float64 -> float64 -> float64 := SFadd 53 1024.
Definition f64_sub : float64 -> float64 -> float64 := SFsub 53 1024.
Definition f64_one : float64 := f64_of_int 1.

(** [n / 10] as a literal of the source denotes it. *)
Definition tenths (n : Z) : float64 := f64_div (f64_of_int n) (f64_of_int 10).

Definition is_nan (x : float64) : bool := match x with S754_nan => true | _ => false end.
Definition is_zero (x : float64) : bool := match x with S754_zero _ => true | _ => false end.

(** [math.Max] and [math.Min]: infinities first, then NaN, then signed zeros. *)
Definition math_Max (x y : float64) : float64 :=
  match x, y with
  | S754_infinity false, _ | _, S754_infinity false => S754_infinity false
  | S754_nan, _ | _, S754_nan => S754_nan
  | S754_zero sx, S754_zero _ => if sx then y else x
  | _, _ => if f64_gt x y then x else y
  end.

Definition math_Min (x y : float64) : float64 :=
  match x, y with
  | S754_infinity true, _ | _, S754_infinity true => S754_infinity true
  | S754_nan, _ | _, S754_nan => S754_nan
  | S754_zero sx, S754_zero _ => if sx then x else y
  | _, _ => if f64_gt y x then x else y
  end.

(** ** State *)

Record channelStats := mkStats {
  successes : Z;
  failures : Z;
  latencySum : float64;
  latencyEMA : float64;
  lastUpdated : Z
}.

Record ChannelScorer := mkScorer {
  stats : gmap Z channelStats;
  latencyWeight : float64;
  errorWeight : float64;
  costWeight : float64;
  emaAlpha : float64;
  decayInterval : Z
}.

Definition NewChannelScorer : ChannelScorer :=
  mkScorer ∅ (tenths 3) (tenths 5) (tenths 2) (tenths 3) (10 * minute).

Definition set_stats (m : gmap Z channelStats) (cs : ChannelScorer) : ChannelScorer :=
  mkScorer m (latencyWeight cs) (errorWeight cs) (costWeight cs) (emaAlpha cs) (decayInterval cs).

Definition ChannelScorer_getOrCreate (now channelID : Z) (cs : ChannelScorer) : channelStats :=
  default (mkStats 0 0 f64_zero f64_zero now) (stats cs !! channelID).

(** [s.latencyEMA == 0] holds of both zeros. *)
Definition updateLatencyEMA (latency alpha : float64) (s : channelStats) : channelStats :=
  mkStats (successes s) (failures s) (f64_add (latencySum s) latency)
    (if is_zero (latencyEMA s) then latency
     else f64_add (f64_mul alpha latency) (f64_mul (f64_sub f64_one alpha) (latencyEMA s)))
    (lastUpdated s).

Definition ChannelScorer_RecordSuccess (now channelID : Z) (latencySec : float64) (cs : ChannelScorer) : ChannelScorer :=
  let s := ChannelScorer_getOrCreate now channelID cs in
  let s := updateLatencyEMA latencySec (emaAlpha cs)
             (mkStats (i64_add (successes s) 1) (failures s) (latencySum s) (latencyEMA s) (lastUpdated s)) in
  set_stats (<[channelID := mkStats (successes s) (failures s) (latencySum s) (latencyEMA s) now]> (stats cs)) cs.

Definition ChannelScorer_RecordFailure (now channelID : Z) (cs : ChannelScorer) : ChannelScorer :=
  let s := ChannelScorer_getOrCreate now channelID cs in
  set_stats (<[channelID := mkStats (successes s) (i64_add (failures s) 1) (latencySum s) (latencyEMA s) now]>
               (stats cs)) cs.

(** [RecordRelayOutcome], its scoring half. *)
Definition record_outcome (now channelID : Z) (success : bool) (latencySec : float64) (cs : ChannelScorer)
    : ChannelScorer :=
  if success then ChannelScorer_RecordSuccess now channelID latencySec cs else ChannelScorer_RecordFailure now channelID cs.

Definition computeScore (cs : ChannelScorer) (s : channelStats) : float64 :=
  let total := i64_add (successes s) (failures s) in
  if total =? 0 then tenths 5
  else
    let errorRate := f64_div (f64_of_int (failures s)) (f64_of_int total) in
    let successRate := f64_sub f64_one errorRate in
    let latencyScore :=
      if f64_gt (latencyEMA s) f64_zero
      then math_Max f64_zero (f64_sub f64_one (f64_div (latencyEMA s) (f64_of_int 10)))
      else f64_one in
    let score := f64_add (f64_add (f64_mul (latencyWeight cs) latencyScore)
                            (f64_mul (errorWeight cs) successRate))
                   (f64_mul (costWeight cs) f64_one) in
    math_Max f64_zero (math_Min f64_one score).

(** [None] is a nil score: the channel has no observations. *)
Definition GetScore (cs : ChannelScorer) (channelID : Z) : option float64 :=
  computeScore cs <$> stats cs !! channelID.

(** The candidate with the highest score, -1 when none has one. *)
Fixpoint best_channel (cs : ChannelScorer) (ids : list Z) (bestID : Z) (bestScore : float64) : Z :=
  match ids with
  | [] => bestID
  | id :: rest =>
      match GetScore cs id with
      | None => best_channel cs rest bestID bestScore
      | Some sc => if f64_gt sc bestScore then best_channel cs rest id sc
                   else best_channel cs rest bestID bestScore
      end
  end.

Definition GetBestChannel (cs : ChannelScorer) (candidateIDs : list Z) : Z :=
  best_channel cs candidateIDs (-1) (f64_of_int (-1)).

(** One channel of a decay pass; [None] forgets it. *)
Definition decay_stats (cutoff : Z) (s : channelStats) : option channelStats :=
  if lastUpdated s <? cutoff then
    let a := Z.quot (successes s) 2 in
    let b := Z.quot (failures s) 2 in
    if (a =? 0) && (b =? 0) then None
    else Some (mkStats a b (latencySum s) (latencyEMA s) (lastUpdated s))
  else Some s.

Definition Decay (now : Z) (cs : ChannelScorer) : ChannelScorer :=
  set_stats (omap (decay_stats (time_Add now (- decayInterval cs))) (stats cs)) cs.

(** ** Weights *)

(** The weight of one channel and whether a score bent it. *)
Definition adjust1 (cs : ChannelScorer) (id w : Z) : Z * bool :=
  match GetScore cs id with
  | None => (w, false)
  | Some score =>
      let factor := f64_add (tenths 5) score in
      let w' := trunc64 (f64_mul (f64_of_int w) factor) in
      (if w' <? 1 then 1 else w', true)
  end.

(** [None] is a nil slice: the hub is not set up ([h] is [None]) or no channel has
    a score. *)
Definition AdjustWeights (h : option ChannelScorer) (channels : list (Z * Z)) : option (list Z) :=
  match h with
  | None => None
  | Some cs =>
      let adj := (fun c => adjust1 cs c.1 c.2) <$> channels in
      if existsb snd adj then Some (fst <$> adj) else None
  end.
End SmartRouting.

Section SmartRoutingFacts.
Import PlatformBilling SmartRouting.

Lemma adjust1_unscored cs id w : GetScore cs id = None -> adjust1 cs id w = (w, false).
Proof. unfold adjust1. by intros ->. Qed.

Lemma adjust1_scored cs id w : GetScore cs id <> None -> 1 <= (adjust1 cs id w).1 /\ (adjust1 cs id w).2 = true.
Proof.
  unfold adjust1. destruct (GetScore cs id); [|done]. intros _. split; [|done]. cbn [fst].
  case_match eqn:E; bool_to_prop; lia.
Qed.

(** Bent weights are at least one where there is a score and unchanged elsewhere. *)
Lemma AdjustWeights_some cs chans ws :
  AdjustWeights (Some cs) chans = Some ws ->
  length ws = length chans /\
  (exists c, c ∈ chans /\ GetScore cs c.1 <> None) /\
  forall k c w, chans !! k = Some c -> ws !! k = Some w ->
    match GetScore cs c.1 with None => w = c.2 | Some _ => 1 <= w end.
Proof.
  unfold AdjustWeights. destruct (existsb _ _) eqn:E; [|done]. intros [= <-]. split_and!.
  - by rewrite !length_fmap.
  - apply existsb_exists in E as ([w b] & Hin%list_elem_of_In & Hb). cbn in Hb. subst b.
    apply list_elem_of_fmap in Hin as (c & Hc & Hin). exists c. split; [done|]. intros Hn.
    by rewrite adjust1_unscored in Hc by done.
  - intros k c w Hc. rewrite !list_lookup_fmap, Hc. cbn [fmap option_fmap option_map]. intros [= <-].
    destruct (GetScore cs c.1) eqn:Es.
    + apply adjust1_scored. by rewrite Es.
    + by rewrite adjust1_unscored.
Qed.

(** A channel is scored from its first outcome on, and no outcome unscores one. *)
Lemma record_outcome_scored now id ok lat cs id' :
  GetScore (record_outcome now id ok lat cs) id' <> None <-> id' = id \/ GetScore cs id' <> None.
Proof.
  unfold GetScore, record_outcome, ChannelScorer_RecordSuccess, ChannelScorer_RecordFailure.
  assert (Hm : forall s : channelStats, (<[id := s]> (stats cs)) !! id' <> None <-> id' = id \/ stats cs !! id' <> None).
  { intros s. rewrite lookup_insert. case_decide; naive_solver. }
  destruct ok; cbn [stats set_stats]; rewrite !fmap_None, Hm; done.
Qed.
End SmartRoutingFacts.
