(* ===== verification/ChannelCache.v ===== *)
(** * The routing table

    Model of internal/adapter/repo/channel_cache.go and ability.go: the in-memory
    table from (group, model) to channels and its rebuild from the database, the
    weighted selection from it, its DB-fallback twins over the abilities table, and
    the status writes that keep table, rows and abilities together.

    A channel's priority tier and its weight decide a selection; [r] stands for the
    source of [rand.Intn].  [sort.Slice] leaves channels of equal priority in an
    arbitrary order and ranges over a Go map have none: the order chosen here
    decides only which channel a given draw falls on.  The provider filter, the
    modality filter and the cooldown filter reach this layer as one predicate. *)

From S2P Require Import Prelude GoStrings PlatformBilling ChannelKeys SmartRouting.

Module ChannelCache.
Import GoStrings ChannelKeys SmartRouting.

(** ** Data *)

Record Ability := mkAbility {
  a_Group : string;
  a_Model : string;
  a_ChannelId : Z;
  a_Enabled : bool;
  a_Priority : option Z;
  a_Weight : Z
}.

Notation model_table := (gmap string (list Z)).

(** [group2model2channels] and [channelsIDM]. *)
Record table := mkTable {
  group2model2channels : gmap string model_table;
  channelsIDM : gmap Z Channel
}.

Definition routed (t : table) (group model : string) : list Z :=
  default [] (default ∅ (group2model2channels t !! group) !! model).

(** ** Model names *)

Definition handleThinkingBudgetModel (name prefix wildcard : string) : string :=
  if HasPrefix name prefix && Contains name "-thinking-" then wildcard else name.

Definition FormatMatchingModelName (name : string) : string :=
  let name :=
    if HasPrefix name "gemini-2.5-flash-lite" then
      handleThinkingBudgetModel name "gemini-2.5-flash-lite" "gemini-2.5-flash-lite-thinking-*"
    else if HasPrefix name "gemini-2.5-flash" then
      handleThinkingBudgetModel name "gemini-2.5-flash" "gemini-2.5-flash-thinking-*"
    else if HasPrefix name "gemini-2.5-pro" then
      handleThinkingBudgetModel name "gemini-2.5-pro" "gemini-2.5-pro-thinking-*"
    else name in
  let name := if HasPrefix name "gpt-4-gizmo" then "gpt-4-gizmo-*" else name in
  if HasPrefix name "gpt-4o-gizmo" then "gpt-4o-gizmo-*" else name.

(** ** Rebuilding the table *)

Definition groups_of (c : Channel) : list string := Split (Group c) comma.
Definition models_of (c : Channel) : list string := Split (Models c) comma.

Definition add_route (id : Z) (group model : string) (m : gmap string model_table)
    : gmap string model_table :=
  let inner := default ∅ (m !! group) in
  <[group := <[model := default [] (inner !! model) ++ [id]]> inner]> m.

Definition auto_disabled (pairs : gmap Z (gset string)) (id : Z) (model : string) : bool :=
  bool_decide (model ∈ default ∅ (pairs !! id)).

Definition add_channel (pairs : gmap Z (gset string)) (m : gmap string model_table) (c : Channel)
    : gmap string model_table :=
  if negb (Status c =? ChannelStatusEnabled) then m
  else fold_left (fun m group =>
         fold_left (fun m model => if auto_disabled pairs (Id c) model then m
                                   else add_route (Id c) group model m)
           (models_of c) m)
         (groups_of c) m.

(** Descending priority. *)
Definition higher (idm : gmap Z Channel) (a b : Z) : Prop :=
  default 0 (GetPriority <$> idm !! b) <= default 0 (GetPriority <$> idm !! a).
#[global] Instance higher_dec idm a b : Decision (higher idm a b) := Z_le_dec _ _.

Section Table.
Context (json_array : string -> option (list string)).

(** A channel as it enters the table: a multi-key channel gets its key list split,
    a polling one keeps its position. *)
Definition cache_entry (carried : gmap Z Z) (c : Channel) : Channel :=
  if IsMultiKey (Info c) then
    let i := if String.eqb (MultiKeyMode (Info c)) MultiKeyModePolling
             then set_polling (default (MultiKeyPollingIndex (Info c)) (carried !! Id c)) (Info c)
             else Info c in
    mkChannel (Id c) (TenantId c) (Type_ c) (Key c) (Status c) (Weight c) (Models c) (Group c)
      (Priority c) i (StatusReason c) (StatusTime c) (GetKeys json_array c)
  else c.

Definition carryOverPollingIndices (idm : gmap Z Channel) : gmap Z Z :=
  omap (fun c => if IsMultiKey (Info c) && String.eqb (MultiKeyMode (Info c)) MultiKeyModePolling
                 then Some (MultiKeyPollingIndex (Info c)) else None) idm.

Inductive rebuild_err := ErrLoadChannels | ErrLoadAbilities.

(** The reads are arguments: [None] is a failed one.  The abilities only seed empty
    groups. *)
Definition rebuildChannelCache (enabled : bool) (channels : option (list Channel))
    (abilities : option (list Ability)) (pairs : option (gmap Z (gset string))) (t : table)
    : result rebuild_err unit * table :=
  if negb enabled then (Ok tt, t)
  else match channels with
  | None => (Err ErrLoadChannels, t)
  | Some rows =>
      match abilities with
      | None => (Err ErrLoadAbilities, t)
      | Some abs =>
          let idm : gmap Z Channel := fold_left (fun m c => <[Id c := c]> m) rows ∅ in
          let seed : gmap string model_table := fold_left (fun m a => <[a_Group a := ∅]> m) abs ∅ in
          let routes := fold_left (add_channel (default ∅ pairs)) rows seed in
          let sorted := (fun mt : model_table => merge_sort (higher idm) <$> mt) <$> routes in
          (Ok tt, mkTable sorted (cache_entry (carryOverPollingIndices (channelsIDM t)) <$> idm))
      end
  end.

Definition InitChannelCache (enabled : bool) channels abilities pairs (t : table) : table :=
  snd (rebuildChannelCache enabled channels abilities pairs t).
End Table.

(** ** Selection from the table *)

Definition pred_t : Type := Channel -> bool.

Definition visible (tenantID : string) (c : Channel) : bool :=
  String.eqb (TenantId c) "" || String.eqb (TenantId c) "default" || String.eqb (TenantId c) tenantID.

(** An id without a channel is kept, for the consistency check to see. *)
Definition filterChannelsForTenant (t : table) (ids : list Z) (tenantID : string) : list Z :=
  if String.eqb tenantID "" then ids
  else List.filter (fun id => match channelsIDM t !! id with
                              | None => true
                              | Some c => visible tenantID c
                              end) ids.

Definition filterChannelsWhere (t : table) (ids : list Z) (pred : pred_t) : list Z :=
  List.filter (fun id => match channelsIDM t !! id with None => true | Some c => pred c end) ids.

Inductive select_err :=
| ErrNoChannelSatisfiesPredicate
| ErrInconsistent (id : Z)
| ErrNoChannelFound
| ErrChannelNotFound
| ErrAbilityQuery
| IntnPanic.

Definition above (a b : Z) : Prop := b <= a.
#[global] Instance above_dec a b : Decision (above a b) := Z_le_dec _ _.

(** The distinct priorities, highest first. *)
Definition tiers (ps : list Z) : list Z := merge_sort above (remove_dups ps).

(** [sortedUniquePriorities[retry]], the last one past the end. *)
Definition tier_at (ts : list Z) (retry : nat) : option Z := ts !! Nat.min retry (length ts - 1).

Fixpoint load (t : table) (ids : list Z) : result select_err (list Channel) :=
  match ids with
  | [] => Ok []
  | id :: rest =>
      match channelsIDM t !! id with
      | None => Err (ErrInconsistent id)
      | Some c => match load t rest with Ok cs => Ok (c :: cs) | Err e => Err e end
      end
  end.

Definition sum64 (ws : list Z) : Z := fold_left i64_add ws 0.

(** The channel the draw [rw] falls on. *)
Fixpoint draw {A} (rw : Z) (cs : list (A * Z)) : option A :=
  match cs with
  | [] => None
  | (c, w) :: rest =>
      let rw' := i64_sub rw w in
      if rw' <? 0 then Some c else draw rw' rest
  end.

(** The effective weights of a tier and their total. *)
Definition smoothing (ws : list Z) : list Z * Z :=
  let n := Z.of_nat (length ws) in
  let sumWeight := sum64 ws in
  if sumWeight =? 0 then ((fun w => i64_add (i64_mul w 1) 100) <$> ws, i64_mul (n * 100) 1)
  else if Z.quot sumWeight n <? 10 then ((fun w => i64_add (i64_mul w 100) 0) <$> ws, i64_mul sumWeight 100)
  else ((fun w => i64_add (i64_mul w 1) 0) <$> ws, i64_mul sumWeight 1).

Definition pick_tier (h : option ChannelScorer) (r : Z) (cs : list Channel) : result select_err Channel :=
  let weights := default (GetWeight <$> cs) (AdjustWeights h ((fun c => (Id c, GetWeight c)) <$> cs)) in
  let (ws, total) := smoothing weights in
  if total <=? 0 then Err IntnPanic
  else match draw (Intn r total) (zip cs ws) with
  | Some c => Ok c
  | None => Err ErrChannelNotFound
  end.

(** [Ok None] is (nil, nil): the model has no candidate at all. *)
Definition select_cached (t : table) (h : option ChannelScorer) (r : Z) (tenantID group model : string)
    (retry : nat) (pred : option pred_t) : result select_err (option Channel) :=
  let exact := routed t group model in
  let ids := match exact with [] => routed t group (FormatMatchingModelName model) | _ => exact end in
  match filterChannelsForTenant t ids tenantID with
  | [] => Ok None
  | vis =>
      let accepted := match pred with None => vis | Some p => filterChannelsWhere t vis p end in
      match accepted with
      | [] => Err ErrNoChannelSatisfiesPredicate
      | [id] => match channelsIDM t !! id with
                | Some c => Ok (Some c)
                | None => Err (ErrInconsistent id)
                end
      | ids =>
          match load t ids with
          | Err e => Err e
          | Ok cs =>
              match tier_at (tiers (GetPriority <$> cs)) retry with
              | None => Err ErrNoChannelFound
              | Some p =>
                  match List.filter (fun c => GetPriority c =? p) cs with
                  | [] => Err ErrNoChannelFound
                  | target => match pick_tier h r target with
                              | Ok c => Ok (Some c)
                              | Err e => Err e
                              end
                  end
              end
          end
      end
  end.

(** ** Selection from the abilities table *)

(** [abilityBaseCondition] with its tenant subquery. *)
Definition ability_matches (rows : list Channel) (group model tenantID : string) (a : Ability) : bool :=
  String.eqb (a_Group a) group && String.eqb (a_Model a) model && a_Enabled a &&
  (String.eqb tenantID "" ||
   existsb (fun c => (Id c =? a_ChannelId a) && visible tenantID c) rows).

Definition abilityPriority (a : Ability) : Z := default 0 (a_Priority a).

Definition by_id (rows : list Channel) (id : Z) : option Channel := first_where (fun c => Id c =? id) rows.

Definition ability_weight (a : Ability) : Z := i64_add (wrap64 (a_Weight a)) 10.

(** The draw of the database path, which stops at zero rather than below it. *)
Fixpoint draw_le (weight : Z) (abs : list Ability) : option Ability :=
  match abs with
  | [] => None
  | a :: rest =>
      let weight' := i64_sub weight (ability_weight a) in
      if weight' <=? 0 then Some a else draw_le weight' rest
  end.

Definition heavier (a b : Ability) : Prop := a_Weight b <= a_Weight a.
#[global] Instance heavier_dec a b : Decision (heavier a b) := Z_le_dec _ _.

Definition abilities_for (rows : list Channel) (abilities : list Ability) (group model tenantID : string)
    : list Ability :=
  List.filter (ability_matches rows group model tenantID) abilities.

Definition getChannelForTenantWhere (rows : list Channel) (abilities : list Ability) (r : Z)
    (group model : string) (retry : nat) (tenantID : string) (pred : pred_t)
    : result select_err (option Channel) :=
  match merge_sort heavier (abilities_for rows abilities group model tenantID) with
  | [] => Ok None
  | abs =>
      let accepted := List.filter (fun a => match by_id rows (a_ChannelId a) with
                                            | Some c => pred c
                                            | None => false
                                            end) abs in
      match tier_at (tiers (abilityPriority <$> accepted)) retry with
      | None => Err ErrNoChannelSatisfiesPredicate
      | Some p =>
          let candidates := List.filter (fun a => abilityPriority a =? p) accepted in
          let weightSum := sum64 (ability_weight <$> candidates) in
          if weightSum <=? 0 then Err IntnPanic
          else match draw_le (Intn r weightSum) candidates with
          | Some a => Ok (by_id rows (a_ChannelId a))
          | None => Ok (last candidates ≫= fun a => by_id rows (a_ChannelId a))
          end
      end
  end.

(** The priority of a retry; a NULL priority cannot be read into an int. *)
Definition getPriority (abs : list Ability) (retry : nat) : result select_err Z :=
  if existsb (fun a => bool_decide (a_Priority a = None)) abs then Err ErrAbilityQuery
  else match tier_at (tiers (omap a_Priority abs)) retry with
  | None => Err ErrAbilityQuery
  | Some p => Ok p
  end.

(** The rows of [getChannelQuery]: the highest priority, or the retry's. *)
Definition getChannelQuery (abs : list Ability) (retry : nat) : result select_err (list Ability) :=
  let at_priority p := List.filter (fun a => bool_decide (a_Priority a = Some p)) abs in
  match retry with
  | O => Ok (match tiers (omap a_Priority abs) with [] => [] | p :: _ => at_priority p end)
  | S _ => match getPriority abs retry with Ok p => Ok (at_priority p) | Err e => Err e end
  end.

Definition GetChannelForTenant (rows : list Channel) (abilities : list Ability) (r : Z)
    (group model : string) (retry : nat) (tenantID : string) : result select_err (option Channel) :=
  match getChannelQuery (abilities_for rows abilities group model tenantID) retry with
  | Err e => Err e
  | Ok abs =>
      match merge_sort heavier abs with
      | [] => Ok None
      | abs =>
          let weightSum := sum64 (ability_weight <$> abs) in
          if weightSum <=? 0 then Err IntnPanic
          else match draw_le (Intn r weightSum) abs ≫= (fun a => by_id rows (a_ChannelId a)) with
          | Some c => Ok (Some c)
          | None => Err ErrAbilityQuery
          end
      end
  end.

(** The table when it is in use, the database otherwise; [None] is a nil predicate. *)
Definition GetRandomSatisfiedChannelWhere (memory : bool) (t : table) (h : option ChannelScorer)
    (rows : list Channel) (abilities : list Ability) (r : Z) (tenantID group model : string)
    (retry : nat) (pred : option pred_t) : result select_err (option Channel) :=
  if memory then select_cached t h r tenantID group model retry pred
  else match pred with
  | None => GetChannelForTenant rows abilities r group model retry tenantID
  | Some p => getChannelForTenantWhere rows abilities r group model retry tenantID p
  end.

(** ** Status writes on the table *)

(** Remove the first occurrence. *)
Fixpoint remove_first (id : Z) (ids : list Z) : list Z :=
  match ids with
  | [] => []
  | x :: rest => if x =? id then rest else x :: remove_first id rest
  end.

Definition CacheUpdateChannelStatus (id status : Z) (t : table) : table :=
  let idm := alter (set_status status) id (channelsIDM t) in
  mkTable (if status =? ChannelStatusEnabled then group2model2channels t
           else (fun mt : model_table => remove_first id <$> mt) <$> group2model2channels t) idm.

Definition CacheGetChannel (id : Z) (t : table) : option Channel := channelsIDM t !! id.

(** ** Abilities *)

Definition UpdateAbilityStatus (channelId : Z) (status : bool) (abs : list Ability) : list Ability :=
  update_where (fun a => a_ChannelId a =? channelId)
    (fun a => mkAbility (a_Group a) (a_Model a) (a_ChannelId a) status (a_Priority a) (a_Weight a)) abs.

(** The rows [AddAbilities] writes for a channel, one per (group, model). *)
Definition ability_of (disabled : gset string) (c : Channel) (group model : string) : Ability :=
  mkAbility group model (Id c) ((Status c =? ChannelStatusEnabled) && negb (bool_decide (model ∈ disabled)))
    (Priority c) (default 0 (Weight c)).

(** [abilitySet]: the (group, model) pairs whose key was not seen before. *)
Fixpoint fresh_pairs (seen : gset string) (ps : list (string * string)) : list (string * string) :=
  match ps with
  | [] => []
  | (g, m) :: rest =>
      let key := g +:+ "|" +:+ m in
      if decide (key ∈ seen) then fresh_pairs seen rest
      else (g, m) :: fresh_pairs ({[key]} ∪ seen) rest
  end.

Definition AddAbilities (disabled : gset string) (c : Channel) : list Ability :=
  (fun gm : string * string => ability_of disabled c gm.1 gm.2) <$>
    fresh_pairs ∅ (mjoin ((fun m => (fun g => (g, m)) <$> groups_of c) <$> models_of c)).

End ChannelCache.
