(* ===== verification/ChannelCacheSpec.v ===== *)
(** * The routing table, proved

    What a rebuilt table holds, what a selection from it returns against a
    specification stated on the channel rows alone, how a draw falls, and the two
    places where routing departs from its own description: a channel listed twice
    survives being disabled, and a channel without a score starves behind a scored
    one when the weights are zero. *)

From S2P Require Import Prelude GoStrings PlatformBilling ChannelKeys SmartRouting ChannelCache.

(** ** What the table holds *)

Section RebuildFacts.
Import GoStrings ChannelKeys SmartRouting ChannelCache.
Context (pairs : gmap Z (gset string)).

Definition serves (c : Channel) (group model : string) : bool :=
  (Status c =? ChannelStatusEnabled) && bool_decide (group ∈ groups_of c) &&
  bool_decide (model ∈ models_of c) && negb (auto_disabled pairs (Id c) model).

Definition route (m : gmap string model_table) (group model : string) : list Z :=
  default [] (default ∅ (m !! group) !! model).

Lemma route_add id g m (t : gmap string model_table) g' m' :
  route (add_route id g m t) g' m' = route t g' m' ++ (if decide (g = g' /\ m = m') then [id] else []).
Proof.
  unfold route, add_route. rewrite lookup_insert. destruct (decide (g = g')) as [<-|Hg].
  - cbn. rewrite lookup_insert. destruct (decide (m = m')) as [<-|Hm].
    + rewrite decide_True by done. done.
    + rewrite decide_False by naive_solver. by rewrite app_nil_r.
  - rewrite decide_False by naive_solver. by rewrite app_nil_r.
Qed.

Lemma route_models id g ms : forall t g' m' x,
  x ∈ route (fold_left (fun t m => if auto_disabled pairs id m then t else add_route id g m t) ms t) g' m' <->
  x ∈ route t g' m' \/ (x = id /\ g' = g /\ m' ∈ ms /\ auto_disabled pairs id m' = false).
Proof.
  induction ms as [|m ms IH]; intros t g' m' x; cbn [fold_left]; [set_solver|].
  rewrite IH. destruct (auto_disabled pairs id m) eqn:E.
  - split; [set_solver|]. intros [?|(-> & -> & [->|?]%elem_of_cons & ?)]; [by left|congruence|by right].
  - rewrite route_add, elem_of_app. destruct (decide (g = g' /\ m = m')) as [[<- <-]|Hne].
    + rewrite list_elem_of_singleton. set_solver.
    + rewrite elem_of_nil. split; [set_solver|].
      intros [?|(-> & -> & [->|?]%elem_of_cons & ?)]; [by left; left|naive_solver|by right].
Qed.

Lemma route_groups id gs ms : forall t g' m' x,
  x ∈ route (fold_left (fun t g =>
       fold_left (fun t m => if auto_disabled pairs id m then t else add_route id g m t) ms t) gs t) g' m' <->
  x ∈ route t g' m' \/ (x = id /\ g' ∈ gs /\ m' ∈ ms /\ auto_disabled pairs id m' = false).
Proof.
  induction gs as [|g gs IH]; intros t g' m' x; cbn [fold_left]; [set_solver|].
  rewrite IH, route_models. set_solver.
Qed.

Lemma route_rows rows : forall t g m x,
  x ∈ route (fold_left (add_channel pairs) rows t) g m <->
  x ∈ route t g m \/ exists c, c ∈ rows /\ Id c = x /\ serves c g m = true.
Proof.
  induction rows as [|c rows IH]; intros t g m x; cbn [fold_left]; [set_solver|].
  rewrite IH. unfold add_channel at 1, serves.
  destruct (Status c =? ChannelStatusEnabled) eqn:Es; cbn [negb].
  - rewrite route_groups. split.
    + intros [[?|(-> & Hg & Hm & Hd)]|(c' & ? & ? & ?)]; [by left|right; exists c|right; exists c'; set_solver].
      rewrite Es, !bool_decide_true by done. rewrite Hd. set_solver.
    + intros [?|(c' & [->|Hin]%elem_of_cons & <- & Hs)]; [by left; left|left; right|right; set_solver].
      bool_to_prop. by repeat split.
  - split.
    + intros [?|(c' & ? & ? & ?)]; [by left|right; exists c'; set_solver].
    + intros [?|(c' & [->|Hin]%elem_of_cons & <- & Hs)]; [by left|by rewrite Es in Hs|right; set_solver].
Qed.

Lemma fold_insert_lookup rows : forall (m : gmap Z Channel) id c,
  NoDup (Id <$> rows) -> (forall c, c ∈ rows -> m !! Id c = None) ->
  fold_left (fun m c => <[Id c := c]> m) rows m !! id = Some c <->
  m !! id = Some c \/ (c ∈ rows /\ Id c = id).
Proof.
  induction rows as [|r rows IH]; intros m id c Hnd Hfresh; cbn [fold_left]; [set_solver|].
  rewrite fmap_cons in Hnd. apply NoDup_cons in Hnd as [Hr Hnd]. rewrite IH; [|done|].
  - rewrite lookup_insert. destruct (decide (Id r = id)) as [<-|Hne].
    + rewrite (Hfresh r) by set_solver. split; [intros [[= <-]|[? ?]]; set_solver|].
      intros [?|[[->|?]%elem_of_cons ?]]; [done|by left|by right].
    + split; [intros [?|[? ?]]; set_solver|]. intros [?|[[->|?]%elem_of_cons ?]]; [by left|done|by right].
  - intros c' Hc'. rewrite lookup_insert_ne; [apply Hfresh; set_solver|].
    intros E. apply Hr. rewrite E. by apply list_elem_of_fmap_2.
Qed.

Lemma fold_seed_empty (abs : list Ability) : forall (m : gmap string model_table) g,
  (forall g, default ∅ (m !! g) = (∅ : model_table)) ->
  default ∅ (fold_left (fun (m : gmap string model_table) a => <[a_Group a := (∅ : model_table)]> m) abs m !! g)
    = (∅ : model_table).
Proof.
  induction abs as [|a abs IH]; intros m g Hm; cbn [fold_left]; [apply Hm|]. apply IH.
  intros g'. rewrite lookup_insert. by case_decide.
Qed.

Section Rebuilt.
Context (json_array : string -> option (list string)) (rows : list Channel) (abs : list Ability) (t0 : table).
Hypothesis ids_unique : NoDup (Id <$> rows).
Let t := InitChannelCache json_array true (Some rows) (Some abs) (Some pairs) t0.

(** How a row appears in the table. *)
Definition entry (c : Channel) : Channel :=
  cache_entry json_array (carryOverPollingIndices (channelsIDM t0)) c.

Lemma rebuilt_lookup id c' : channelsIDM t !! id = Some c' <-> exists c, c ∈ rows /\ Id c = id /\ c' = entry c.
Proof.
  unfold t, InitChannelCache, rebuildChannelCache. cbn [negb snd channelsIDM]. rewrite lookup_fmap, fmap_Some.
  split.
  - intros (c & Hc & ->). apply fold_insert_lookup in Hc as [Hc|[? ?]]; [by rewrite lookup_empty in Hc| |done|].
    + by exists c.
    + intros. apply lookup_empty.
  - intros (c & ? & ? & ->). exists c. split; [|done]. apply fold_insert_lookup; [done| |by right].
    intros. apply lookup_empty.
Qed.

Lemma elem_of_routed g m x : x ∈ routed t g m <-> exists c, c ∈ rows /\ Id c = x /\ serves c g m = true.
Proof.
  assert (Hr : routed t g m = merge_sort (higher (fold_left (fun m c => <[Id c := c]> m) rows ∅))
    (route (fold_left (add_channel pairs) rows
       (fold_left (fun (m : gmap string model_table) a => <[a_Group a := (∅ : model_table)]> m) abs ∅)) g m)).
  { unfold t, InitChannelCache, rebuildChannelCache, routed, route. cbn [negb snd group2model2channels].
    change (default ∅ (Some pairs)) with pairs. rewrite lookup_fmap.
    destruct (fold_left (add_channel pairs) rows _ !! g) as [mt|];
      cbn [fmap option_fmap option_map from_option]; unfold id.
    - rewrite lookup_fmap. by destruct (mt !! m).
    - by rewrite !lookup_empty. }
  rewrite Hr, merge_sort_Permutation, route_rows. unfold route at 1. rewrite fold_seed_empty.
  - rewrite lookup_empty. cbn. set_solver.
  - intros. by rewrite lookup_empty.
Qed.
End Rebuilt.
End RebuildFacts.

(** ** Tiers and draws *)

Section DrawFacts.
Import GoStrings ChannelKeys SmartRouting ChannelCache.

(** How many distinct priorities of [P] lie above [p]. *)
Definition rank (p : Z) (P : gset Z) : nat := size (filter (fun q => p < q) P).

#[local] Instance above_trans : Transitive above.
Proof. unfold above. intros a b c ? ?. lia. Qed.
#[local] Instance above_total : Total above.
Proof. unfold above. intros a b. lia. Qed.

Lemma filter_all {A} (P : A -> Prop) `{!forall x, Decision (P x)} (l : list A) : (forall x, x ∈ l -> P x) -> filter P l = l.
Proof.
  induction l as [|x l IH]; intros Hall; [done|]. rewrite filter_cons_True by (apply Hall; set_solver).
  f_equal. apply IH. set_solver.
Qed.

Lemma filter_none {A} (P : A -> Prop) `{!forall x, Decision (P x)} (l : list A) : (forall x, x ∈ l -> ~ P x) -> filter P l = [].
Proof.
  induction l as [|x l IH]; intros Hall; [done|]. rewrite filter_cons_False by (apply Hall; set_solver). apply IH. set_solver.
Qed.

Lemma sorted_rank l j p :
  NoDup l -> StronglySorted above l -> l !! j = Some p -> length (filter (fun q => p < q) l) = j.
Proof.
  intros Hnd Hs Hj. rewrite <- (take_drop_middle l j p Hj) in Hs, Hnd |- *.
  rewrite filter_app, length_app, filter_cons_False by lia.
  apply NoDup_app in Hnd as (_ & Hdis & Hnd). apply NoDup_cons in Hnd as [Hp _].
  apply StronglySorted_app in Hs as (Hleft & _ & Hs). apply StronglySorted_cons in Hs as [Hright _].
  rewrite (filter_all (fun q => p < q) (take j l)), (filter_none (fun q => p < q) (drop (S j) l)).
  - rewrite length_take. cbn. apply lookup_lt_Some in Hj. lia.
  - intros q Hq. rewrite Forall_forall in Hright. specialize (Hright q Hq). unfold above in Hright. lia.
  - intros q Hq. specialize (Hleft q p Hq ltac:(set_solver)). specialize (Hdis q Hq). unfold above in Hleft.
    assert (q <> p) by set_solver. lia.
Qed.

(** A retry lands on the tier it counts to, or on the last. *)
Lemma tier_at_rank ps k p :
  tier_at (tiers ps) k = Some p ->
  p ∈ ps /\ rank p (list_to_set ps) = Nat.min k (size (list_to_set ps : gset Z) - 1).
Proof.
  unfold tier_at, tiers, rank. intros Hp. set (l := merge_sort above (remove_dups ps)) in *.
  assert (Hperm : l ≡ₚ remove_dups ps) by apply merge_sort_Permutation.
  assert (Hnd : NoDup l) by (rewrite Hperm; apply NoDup_remove_dups).
  assert (HP : (list_to_set ps : gset Z) = list_to_set l).
  { apply set_eq. intros x. rewrite !elem_of_list_to_set, Hperm. by rewrite elem_of_remove_dups. }
  split.
  - apply elem_of_remove_dups. rewrite <- Hperm. by eapply list_elem_of_lookup_2.
  - rewrite HP, size_list_to_set by done.
    replace (filter (fun q => p < q) (list_to_set l : gset Z)) with (list_to_set (filter (fun q => p < q) l) : gset Z)
      by (apply set_eq; intros x; by rewrite elem_of_filter, !elem_of_list_to_set, list_elem_of_filter).
    rewrite size_list_to_set by by apply NoDup_filter.
    rewrite (sorted_rank l _ p Hnd (StronglySorted_merge_sort above _) Hp). done.
Qed.

Lemma tier_at_some ps k : ps <> [] -> is_Some (tier_at (tiers ps) k).
Proof.
  intros Hne. unfold tier_at. apply lookup_lt_is_Some.
  assert (length (tiers ps) <> 0%nat); [|lia]. intros H0. apply length_zero_iff_nil in H0.
  destruct ps as [|x ps]; [done|]. assert (Hx : x ∈ tiers (x :: ps)).
  { unfold tiers. rewrite merge_sort_Permutation, elem_of_remove_dups. set_solver. }
  rewrite H0 in Hx. set_solver.
Qed.

(** Weights a selection can be drawn from. *)
Definition fits (ws : list Z) : Prop :=
  Forall (fun w => 0 <= w) ws /\ 100 * (sumZ id ws + Z.of_nat (length ws)) <= i64_max.

Lemma sumZ_Forall_nonneg ws : Forall (fun w => 0 <= w) ws -> 0 <= sumZ id ws.
Proof. rewrite Forall_forall. intros H. apply sumZ_nonneg. exact H. Qed.

Lemma sum64_acc ws : forall a,
  Forall (fun w => 0 <= w) ws -> 0 <= a -> a + sumZ id ws <= i64_max -> fold_left i64_add ws a = a + sumZ id ws.
Proof.
  induction ws as [|w ws IH]; intros a Hn Ha Hs; cbn [fold_left]; [cbn; lia|].
  apply Forall_cons in Hn as [Hw Hn]. pose proof (sumZ_Forall_nonneg ws Hn).
  change (sumZ id (w :: ws)) with (w + sumZ id ws) in *.
  assert (i64_add a w = a + w) as ->.
  { unfold i64_add. apply wrap64_id. unfold in64, i64_min, i64_max in *. lia. }
  rewrite IH; [lia|done|lia|lia].
Qed.

Lemma sum64_fits ws : fits ws -> sum64 ws = sumZ id ws.
Proof.
  intros [Hn Hs]. pose proof (sumZ_Forall_nonneg ws Hn). unfold sum64. rewrite sum64_acc; [lia|done|lia|lia].
Qed.

Lemma draw_at {A} (cs : list (A * Z)) : forall i c w rw,
  Forall (fun cw => 0 <= snd cw) cs -> sumZ snd cs <= i64_max ->
  cs !! i = Some (c, w) -> sumZ snd (take i cs) <= rw < sumZ snd (take i cs) + w -> rw <= i64_max ->
  draw rw cs = Some c.
Proof.
  induction cs as [|[c0 w0] cs IH]; intros i c w rw Hn Hs Hi Hr Hmax; [done|].
  apply Forall_cons in Hn as [Hw0 Hn]. cbn [snd] in Hw0.
  assert (Hpre : 0 <= sumZ snd (take i ((c0, w0) :: cs))).
  { apply sumZ_nonneg. intros x Hx. assert (Forall (fun cw : A * Z => 0 <= cw.2) ((c0, w0) :: cs)) as Hall by by constructor.
    rewrite Forall_forall in Hall. apply Hall. eapply elem_of_submseteq; [exact Hx|]. apply submseteq_take. }
  assert (Hrest : 0 <= sumZ snd cs).
  { rewrite Forall_forall in Hn. by apply sumZ_nonneg. }
  change (sumZ snd ((c0, w0) :: cs)) with (w0 + sumZ snd cs) in Hs.
  assert (Hsub : i64_sub rw w0 = rw - w0).
  { unfold i64_sub. apply wrap64_id. unfold in64, i64_min, i64_max in *. lia. }
  cbn [draw]. rewrite Hsub. destruct i as [|i].
  - cbn in Hi. injection Hi as -> ->. change (sumZ snd (take 0 _)) with 0 in Hr.
    replace (rw - w <? 0) with true; [done|]. symmetry. apply Z.ltb_lt. lia.
  - change (take (S i) ((c0, w0) :: cs)) with ((c0, w0) :: take i cs) in *.
    change (sumZ snd ((c0, w0) :: take i cs)) with (w0 + sumZ snd (take i cs)) in *.
    assert (0 <= sumZ snd (take i cs)).
    { rewrite Forall_forall in Hn. apply sumZ_nonneg. intros x Hx. apply Hn.
      eapply elem_of_submseteq; [exact Hx|]. apply submseteq_take. }
    replace (rw - w0 <? 0) with false by (symmetry; apply Z.ltb_ge; lia).
    eapply IH; [done|lia|exact Hi|lia|lia].
Qed.

(** Every value below the total falls on some channel. *)
Lemma draw_somewhere (ws : list Z) : forall rw,
  Forall (fun w => 0 <= w) ws -> 0 <= rw < sumZ id ws ->
  exists i w, ws !! i = Some w /\ sumZ id (take i ws) <= rw < sumZ id (take i ws) + w.
Proof.
  induction ws as [|w ws IH]; intros rw Hn Hr; [cbn in Hr; lia|].
  apply Forall_cons in Hn as [Hw Hn]. change (sumZ id (w :: ws)) with (w + sumZ id ws) in Hr.
  destruct (decide (rw < w)) as [Hlt|Hge].
  - exists 0%nat, w. split; [done|]. cbn. lia.
  - destruct (IH (rw - w)) as (i & w' & Hi & Hb); [done|lia|]. exists (S i), w'. split; [done|].
    change (take (S i) (w :: ws)) with (w :: take i ws). change (sumZ id (w :: take i ws)) with (w + sumZ id (take i ws)). lia.
Qed.

Lemma sumZ_fmap {A B} (f : B -> Z) (g : A -> B) l : sumZ f (g <$> l) = sumZ (fun x => f (g x)) l.
Proof.
  induction l as [|x l IH]; [done|]. rewrite fmap_cons.
  change (f (g x) + sumZ f (g <$> l) = f (g x) + sumZ (fun x => f (g x)) l). by rewrite IH.
Qed.

Lemma sumZ_const {A} (k : Z) (l : list A) : sumZ (fun _ => k) l = k * Z.of_nat (length l).
Proof.
  induction l as [|x l IH]; [cbn; lia|]. change (k + sumZ (fun _ => k) l = k * Z.of_nat (S (length l))). lia.
Qed.

(** The weight a channel is drawn with: its own times [k], or 100 when all are zero. *)
Definition drawn (ws : list Z) (k w : Z) : Z := if sumZ id ws =? 0 then 100 else k * w.

Lemma smoothing_spec ws : ws <> [] -> fits ws ->
  exists k, (k = 1 \/ k = 100) /\
    smoothing ws = (drawn ws k <$> ws, sumZ id (drawn ws k <$> ws)) /\
    0 < sumZ id (drawn ws k <$> ws) <= i64_max.
Proof.
  intros Hne Hfits. pose proof Hfits as [Hn Hs]. pose proof (sumZ_Forall_nonneg ws Hn) as Hpos.
  assert (Hlen : 0 < Z.of_nat (length ws)) by (destruct ws; [done|cbn [length]; lia]).
  assert (Hel : forall w, w ∈ ws -> 0 <= w <= sumZ id ws).
  { intros w Hw. rewrite Forall_forall in Hn. split; [by apply Hn|].
    apply list_elem_of_split in Hw as (l1 & l2 & ->). rewrite sumZ_app.
    change (sumZ id (w :: l2)) with (w + sumZ id l2).
    assert (0 <= sumZ id l1) by (apply sumZ_nonneg; intros x Hx; apply Hn; set_solver).
    assert (0 <= sumZ id l2) by (apply sumZ_nonneg; intros x Hx; apply Hn; set_solver). lia. }
  assert (Hw64 : forall a, 0 <= a <= i64_max -> wrap64 a = a).
  { intros a Ha. apply wrap64_id. unfold in64, i64_min, i64_max in *. lia. }
  unfold smoothing. rewrite (sum64_fits ws Hfits). unfold drawn. destruct (sumZ id ws =? 0) eqn:E0; bool_to_prop.
  - exists 1. rewrite sumZ_fmap, (sumZ_const 100). unfold i64_mul, i64_add. split_and!; [by left| |lia|lia].
    f_equal; [|rewrite Hw64; lia]. apply list_fmap_ext. intros i w Hw%list_elem_of_lookup_2. specialize (Hel w Hw).
    replace w with 0 by lia. done.
  - assert (Hk : forall k, k = 1 \/ k = 100 -> sumZ id ((fun w => k * w) <$> ws) = k * sumZ id ws).
    { intros k _. rewrite sumZ_fmap. apply (sumZ_scale id). }
    destruct (Z.quot (sumZ id ws) (Z.of_nat (length ws)) <? 10);
      [exists 100|exists 1]; rewrite Hk by lia; unfold i64_mul, i64_add; (split_and!; [lia| |lia|lia]);
      (f_equal; [|rewrite Hw64; lia]); apply list_fmap_ext; intros i w Hw%list_elem_of_lookup_2;
      specialize (Hel w Hw); rewrite !Hw64; rewrite ?Hw64; lia.
Qed.

Definition tier_weights (h : option ChannelScorer) (cs : list Channel) : list Z :=
  default (GetWeight <$> cs) (AdjustWeights h ((fun c => (Id c, GetWeight c)) <$> cs)).

Lemma length_tier_weights h cs : length (tier_weights h cs) = length cs.
Proof.
  unfold tier_weights, AdjustWeights. destruct h as [s|]; [|apply length_fmap].
  destruct (existsb _ _); cbn [from_option]; unfold id; by rewrite !length_fmap || apply length_fmap.
Qed.

Lemma zip_take {A B} i (l : list A) (k : list B) : take i (zip l k) = zip (take i l) (take i k).
Proof. revert l k. induction i as [|i IH]; intros [|x l] [|y k]; [done..|]. cbn. by f_equal. Qed.

Lemma sumZ_zip {A} (l : list A) (ws : list Z) : length l = length ws -> sumZ snd (zip l ws) = sumZ id ws.
Proof.
  revert ws. induction l as [|x l IH]; intros [|w ws] Hl; [done..|]. cbn in Hl.
  change (w + sumZ snd (zip l ws) = w + sumZ id ws). rewrite IH by lia. done.
Qed.

Lemma pick_tier_intervals h cs :
  cs <> [] -> fits (tier_weights h cs) ->
  exists k, (k = 1 \/ k = 100) /\
    let ws := drawn (tier_weights h cs) k <$> tier_weights h cs in
    let total := sumZ id ws in
    0 < total /\
    (forall r, exists i c w, cs !! i = Some c /\ ws !! i = Some w /\
       sumZ id (take i ws) <= r mod total < sumZ id (take i ws) + w) /\
    (forall r i c w, cs !! i = Some c -> ws !! i = Some w ->
       sumZ id (take i ws) <= r mod total < sumZ id (take i ws) + w -> pick_tier h r cs = Ok c).
Proof.
  intros Hne Hfits. pose proof (length_tier_weights h cs) as Hlen.
  destruct (smoothing_spec (tier_weights h cs)) as (k & Hk & Hsm & Hpos);
    [intros E; rewrite E in Hlen; by destruct cs|done|].
  exists k. split; [done|]. cbv zeta. set (ws := drawn (tier_weights h cs) k <$> tier_weights h cs) in *.
  assert (Hlw : length cs = length ws) by (unfold ws; by rewrite length_fmap).
  assert (Hn : Forall (fun w => 0 <= w) ws).
  { unfold ws. destruct Hfits as [Hn _]. rewrite Forall_fmap. rewrite Forall_forall in Hn |- *.
    intros w Hw. specialize (Hn w Hw). unfold drawn. cbn. case_match; lia. }
  split_and!; [lia| |].
  - intros r. destruct (draw_somewhere ws (r mod sumZ id ws)) as (i & w & Hi & Hb); [done|apply Z.mod_pos_bound; lia|].
    destruct (cs !! i) as [c|] eqn:Hc; [by exists i, c, w|].
    apply lookup_ge_None in Hc. apply lookup_lt_Some in Hi. lia.
  - intros r i c w Hc Hw Hb. unfold pick_tier. fold (tier_weights h cs). rewrite Hsm.
    replace (sumZ id ws <=? 0) with false by (symmetry; apply Z.leb_gt; lia).
    unfold Intn. pose proof (Z.mod_pos_bound r (sumZ id ws)).
    erewrite (draw_at (zip cs ws) i c w); [done| | | | |lia].
    + apply Forall_forall. intros [c' w'] Hin. apply elem_of_zip_r in Hin. cbn [snd].
      by eapply (proj1 (Forall_forall _ _) Hn).
    + rewrite sumZ_zip by done. lia.
    + rewrite lookup_zip_with, Hc. cbn. by rewrite Hw.
    + rewrite zip_take, sumZ_zip by (rewrite !length_take; lia). done.
Qed.

(** A draw is proportional.  For any tier whose weights are not negative and add
    up without overflow, the source's value, reduced below the total, always falls on
    a channel of the tier, and it falls on the channel at position [i] exactly for
    the values of an interval as long as that channel's effective weight: 100 for
    everyone when all weights are zero, otherwise the weight times one common factor
    (1, or 100 when the weights are small). *)
Theorem draw_proportional h cs :
  cs <> [] -> fits (tier_weights h cs) ->
  exists k, (k = 1 \/ k = 100) /\
    let ws := drawn (tier_weights h cs) k <$> tier_weights h cs in
    let total := sumZ id ws in
    0 < total /\
    (forall r, exists i c w, cs !! i = Some c /\ ws !! i = Some w /\
       sumZ id (take i ws) <= r mod total < sumZ id (take i ws) + w) /\
    (forall r i c w, cs !! i = Some c -> ws !! i = Some w ->
       sumZ id (take i ws) <= r mod total < sumZ id (take i ws) + w -> pick_tier h r cs = Ok c).
Proof. apply pick_tier_intervals. Qed.
End DrawFacts.

(** ** Selection, against a specification on the rows *)

Section SelectSpec.
Import GoStrings ChannelKeys SmartRouting ChannelCache.

(** The distinct priorities of some channels. *)
Definition prios (cs : list Channel) : gset Z := list_to_set (GetPriority <$> cs).

(** What a selection may answer, given the channels [vis] the caller may see and the
    ones [acc] among them that the predicate accepts; [W] are the weights a tier is
    drawn with. *)
Inductive route_spec (W : list Channel -> list Z) (vis acc : list Channel) (retry : nat)
    : result select_err (option Channel) -> Prop :=
| spec_unknown : vis = [] -> route_spec W vis acc retry (Ok None)
| spec_rejected : vis <> [] -> acc = [] -> route_spec W vis acc retry (Err ErrNoChannelSatisfiesPredicate)
| spec_chosen c :
    c ∈ acc -> rank (GetPriority c) (prios acc) = Nat.min retry (size (prios acc) - 1) ->
    route_spec W vis acc retry (Ok (Some c))
| spec_overflow e target :
    e <> ErrNoChannelSatisfiesPredicate -> target <> [] -> (forall c, c ∈ target -> c ∈ acc) ->
    ~ fits (W target) -> route_spec W vis acc retry (Err e).

Definition serving (pairs : gmap Z (gset string)) (rows : list Channel) (group model : string) : list Channel :=
  List.filter (fun c => serves pairs c group model) rows.

(** The name a model is looked up under: its own, or its wildcard when no channel
    has it. *)
Definition matched_model (pairs : gmap Z (gset string)) (rows : list Channel) (group model : string) : string :=
  match serving pairs rows group model with [] => FormatMatchingModelName model | _ => model end.

Definition visible_to (tenantID : string) (c : Channel) : bool := String.eqb tenantID "" || visible tenantID c.
Definition accepts (pred : option pred_t) (c : Channel) : bool := match pred with None => true | Some p => p c end.

(** A list of ids stands for a list of channels, up to order and repetition. *)
Definition stands (t : table) (ids : list Z) (cs : list Channel) : Prop :=
  (forall id, id ∈ ids -> exists c, channelsIDM t !! id = Some c /\ c ∈ cs) /\
  (forall c, c ∈ cs -> exists id, id ∈ ids /\ channelsIDM t !! id = Some c).

Lemma stands_nil t ids cs : stands t ids cs -> ids = [] <-> cs = [].
Proof.
  intros [H1 H2]. split; intros ->.
  - destruct cs as [|c cs]; [done|]. destruct (H2 c); set_solver.
  - destruct ids as [|i ids]; [done|]. destruct (H1 i); set_solver.
Qed.

Lemma elem_of_Lfilter {A} (P : A -> bool) l x : x ∈ List.filter P l <-> x ∈ l /\ P x = true.
Proof. by rewrite !list_elem_of_In, List.filter_In. Qed.

Lemma stands_filter t ids cs (P : Channel -> bool) :
  stands t ids cs ->
  stands t (List.filter (fun id => match channelsIDM t !! id with None => true | Some c => P c end) ids)
    (List.filter P cs).
Proof.
  intros [H1 H2]. split.
  - intros id [Hid Hp]%elem_of_Lfilter. destruct (H1 id Hid) as (c & Hc & Hin). rewrite Hc in Hp.
    exists c. split; [done|]. by apply elem_of_Lfilter.
  - intros c [Hin Hp]%elem_of_Lfilter. destruct (H2 c Hin) as (id & Hid & Hc). exists id. split; [|done].
    apply elem_of_Lfilter. by rewrite Hc.
Qed.

Lemma stands_load t ids cs : stands t ids cs ->
  exists cs', load t ids = Ok cs' /\ (forall c, c ∈ cs' <-> c ∈ cs).
Proof.
  intros [H1 H2].
  assert (Hload : forall ids', (forall id, id ∈ ids' -> id ∈ ids) ->
     exists cs', load t ids' = Ok cs' /\ forall c, c ∈ cs' <-> exists id, id ∈ ids' /\ channelsIDM t !! id = Some c).
  { induction ids' as [|i ids' IH]; intros Hsub; [exists []; set_solver|].
    destruct (H1 i) as (c & Hc & _); [apply Hsub; set_solver|].
    destruct IH as (cs' & Hl & Hin); [set_solver|]. exists (c :: cs'). cbn [load]. rewrite Hc, Hl.
    split; [done|]. intros c'. rewrite elem_of_cons, Hin. set_unfold. naive_solver congruence. }
  destruct (Hload ids) as (cs' & Hl & Hin); [done|]. exists cs'. split; [done|]. intros c. rewrite Hin. split.
  - intros (id & Hid & Hc). destruct (H1 id Hid) as (c' & Hc' & ?). congruence.
  - apply H2.
Qed.

Lemma draw_elem {A} (cs : list (A * Z)) : forall rw c, draw rw cs = Some c -> c ∈ cs.*1.
Proof.
  induction cs as [|[c0 w0] cs IH]; intros rw c; [done|]. cbn [draw]. rewrite fmap_cons.
  destruct (_ <? _); [intros [= ->]; set_solver|]. intros H%IH. set_solver.
Qed.

Lemma pick_tier_elem h r cs c : pick_tier h r cs = Ok c -> c ∈ cs.
Proof.
  unfold pick_tier. destruct (smoothing _) as [ws total]. destruct (total <=? 0); [done|].
  destruct (draw _ _) as [c'|] eqn:E; [|done]. intros [= ->]. apply draw_elem in E.
  apply list_elem_of_fmap in E as ([c1 w] & -> & Hin). by apply elem_of_zip_l in Hin.
Qed.

Lemma pick_tier_fails h r cs e : cs <> [] -> pick_tier h r cs = Err e ->
  ~ fits (tier_weights h cs) /\ e <> ErrNoChannelSatisfiesPredicate.
Proof.
  intros Hne He. split.
  - intros Hf. destruct (pick_tier_intervals h cs Hne Hf) as (k & _ & _ & Hex & Hok).
    destruct (Hex r) as (i & c & w & Hc & Hw & Hb). by erewrite Hok in He.
  - unfold pick_tier in He. destruct (smoothing _). repeat case_match; by simplify_eq.
Qed.

Context (json_array : string -> option (list string)) (pairs : gmap Z (gset string)) (rows : list Channel).
Context (abs : list Ability) (t0 : table).
Hypothesis ids_unique : NoDup (Id <$> rows).
Let t := InitChannelCache json_array true (Some rows) (Some abs) (Some pairs) t0.

Lemma stands_routed g m : stands t (routed t g m) (entry json_array t0 <$> serving pairs rows g m).
Proof.
  split.
  - intros id (c & Hin & <- & Hs)%elem_of_routed; [|done]. exists (entry json_array t0 c). split.
    + apply rebuilt_lookup; [done|]. eauto.
    + apply list_elem_of_fmap_2, elem_of_Lfilter. done.
  - intros c' (c & -> & [Hin Hs]%elem_of_Lfilter)%list_elem_of_fmap. exists (Id c). split.
    + apply elem_of_routed; [done|]. eauto.
    + apply rebuilt_lookup; [done|]. eauto.
Qed.

Lemma stands_matched g model :
  stands t (match routed t g model with [] => routed t g (FormatMatchingModelName model) | _ => routed t g model end)
    (entry json_array t0 <$> serving pairs rows g (matched_model pairs rows g model)).
Proof.
  pose proof (stands_nil _ _ _ (stands_routed g model)) as Hnil. unfold matched_model.
  destruct (routed t g model) as [|i ids] eqn:Hr.
  - destruct Hnil as [Hnil _]. specialize (Hnil eq_refl). apply fmap_nil_inv in Hnil. rewrite Hnil. apply stands_routed.
  - destruct (serving pairs rows g model) as [|c cs] eqn:Hs; [by destruct Hnil as [_ Hnil]; specialize (Hnil eq_refl)|].
    rewrite <- Hr. apply stands_routed.
Qed.

Lemma select_from_tier h r ids vis acc retry :
  acc <> [] -> stands t ids acc ->
  route_spec (tier_weights h) vis acc retry
    match load t ids with
    | Err e => Err e
    | Ok cs =>
        match tier_at (tiers (GetPriority <$> cs)) retry with
        | None => Err ErrNoChannelFound
        | Some p =>
            match List.filter (fun c => GetPriority c =? p) cs with
            | [] => Err ErrNoChannelFound
            | target => match pick_tier h r target with Ok c => Ok (Some c) | Err e => Err e end
            end
        end
    end.
Proof.
  intros Hacc Hst. destruct (stands_load _ _ _ Hst) as (cs & -> & Hcs).
  assert (Hne : cs <> []) by (intros ->; destruct acc as [|c acc]; [done|]; specialize (Hcs c); set_solver).
  destruct (tier_at_some (GetPriority <$> cs) retry) as [p Hp]; [by intros H%fmap_nil_inv|]. rewrite Hp.
  apply tier_at_rank in Hp as [Hin Hrank].
  assert (Hprios : (list_to_set (GetPriority <$> cs) : gset Z) = prios acc).
  { apply set_eq. intros x. unfold prios. rewrite !elem_of_list_to_set, !list_elem_of_fmap. set_solver. }
  rewrite Hprios in Hrank.
  set (target := List.filter (fun c => GetPriority c =? p) cs).
  assert (Htgt : forall c, c ∈ target -> c ∈ acc /\ GetPriority c = p).
  { intros c [Hc Hp]%elem_of_Lfilter. bool_to_prop. split; [by apply Hcs|done]. }
  assert (Htne : target <> []).
  { apply list_elem_of_fmap in Hin as (c & -> & Hc). intros E.
    assert (c ∈ target) by (apply elem_of_Lfilter; by rewrite Z.eqb_refl). rewrite E in *. set_solver. }
  destruct target as [|c1 rest] eqn:Et; [done|]. rewrite <- Et in *.
  destruct (pick_tier h r target) as [c|e] eqn:Hpick.
  - apply pick_tier_elem, Htgt in Hpick as [Hc <-]. by apply spec_chosen.
  - apply pick_tier_fails in Hpick as [Hf He]; [|done]. eapply spec_overflow; [done|exact Htne|intros c Hc; by apply Htgt|done].
Qed.

(** C15. Routing implements its specification.  A table rebuilt from the database
    answers every selection as the rows themselves would: with [vis] the enabled
    channels that serve the group and the model (or its wildcard when no channel has
    the model), are not paused by the prober and are shared or owned by the caller's
    tenant, and [acc] those among them that the predicate accepts, the answer is
    "unknown model" exactly for an empty [vis], "rejected by the filter" exactly for
    an empty [acc], and otherwise a channel of [acc] in the priority tier the retry
    counts to; it can only fail when the tier's weights are negative or overflow. *)
Theorem select_refines h r tenantID group model retry pred :
  let vis := List.filter (visible_to tenantID)
               (entry json_array t0 <$> serving pairs rows group (matched_model pairs rows group model)) in
  let acc := List.filter (accepts pred) vis in
  let answer := select_cached t h r tenantID group model retry pred in
  route_spec (tier_weights h) vis acc retry answer /\
  (answer = Ok None <-> vis = []) /\
  (answer = Err ErrNoChannelSatisfiesPredicate <-> vis <> [] /\ acc = []).
Proof.
  intros vis acc answer.
  assert (Hspec : route_spec (tier_weights h) vis acc retry answer).
  { unfold answer, select_cached.
    pose proof (stands_matched group model) as Hst.
    set (ids := match routed t group model with [] => _ | _ :: _ => _ end) in *.
    assert (Hvis : stands t (filterChannelsForTenant t ids tenantID) vis).
    { unfold vis, filterChannelsForTenant, visible_to. destruct (String.eqb tenantID ""); cbn [orb].
      - rewrite List.forallb_filter_id by by apply forallb_forall. exact Hst.
      - by apply stands_filter. }
    assert (Hacc : stands t (match pred with None => filterChannelsForTenant t ids tenantID
                             | Some p => filterChannelsWhere t (filterChannelsForTenant t ids tenantID) p end) acc).
    { unfold acc, accepts. destruct pred as [p|]; [by apply stands_filter|].
      rewrite List.forallb_filter_id by by apply forallb_forall. exact Hvis. }
    pose proof (stands_nil _ _ _ Hvis) as Hvn. pose proof (stands_nil _ _ _ Hacc) as Han.
    destruct (filterChannelsForTenant t ids tenantID) as [|v vs] eqn:Hv;
      [apply spec_unknown; by apply (proj1 Hvn)|].
    rewrite <- Hv in *. set (aids := match pred with None => _ | Some _ => _ end) in *.
    assert (vis <> []) as Hvne by (intros E; apply Hvn in E; by rewrite E in Hv).
    destruct aids as [|x [|y zs]] eqn:Ha; [apply spec_rejected; [done|by apply (proj1 Han)]| |].
    - destruct Hacc as [H1 H2]. destruct (H1 x) as (c & Hc & Hin); [set_solver|]. rewrite Hc. apply spec_chosen; [done|].
      assert (Hone : forall c', c' ∈ acc -> c' = c).
      { intros c' (i & ->%list_elem_of_singleton & Hc')%H2. congruence. }
      assert (Hp : prios acc = {[GetPriority c]}).
      { apply set_eq. intros q. unfold prios. rewrite elem_of_list_to_set, list_elem_of_fmap, elem_of_singleton. naive_solver. }
      rewrite Hp, size_singleton, Nat.min_0_r. unfold rank.
      apply size_empty_iff. intros q. rewrite elem_of_filter, elem_of_singleton, elem_of_empty. lia.
    - rewrite <- Ha in Hacc |- *. apply select_from_tier; [|exact Hacc]. intros E. apply Han in E. congruence. }
  assert (Hsub : forall c, c ∈ acc -> c ∈ vis) by by intros c [? _]%elem_of_Lfilter.
  split; [done|]. clearbody answer acc vis. split; split.
  - intros ->. by inv Hspec.
  - intros ->. destruct Hspec as [|?|c Hc _|e target _ Hne Hin _]; [done|done|apply Hsub in Hc; set_solver|].
    destruct target as [|c ?]; [done|]. assert (c ∈ acc) as Hc%Hsub by set_solver. set_solver.
  - intros ->. by inv Hspec.
  - intros [Hv ->]. destruct Hspec as [|?|c Hc _|e target _ Hne Hin _]; [done|done|set_solver|].
    destruct target as [|c ?]; [done|]. assert (c ∈ []) by (apply Hin; set_solver). set_solver.
Qed.
End SelectSpec.

(** ** The database path against the same specification *)

Section DbSelect.
Import GoStrings ChannelKeys SmartRouting ChannelCache.
Context (pairs : gmap Z (gset string)) (rows : list Channel).

Definition pair_key (gm : string * string) : string := gm.1 +:+ "|" +:+ gm.2.

Definition pairs_of (c : Channel) : list (string * string) :=
  mjoin ((fun m => (fun g => (g, m)) <$> groups_of c) <$> models_of c).

(** The abilities as the channel writes leave them. *)
Definition synced : list Ability := mjoin ((fun c => AddAbilities (default ∅ (pairs !! Id c)) c) <$> rows).

Lemma elem_of_fresh_pairs ps : forall seen x,
  (forall p q, p ∈ ps -> q ∈ ps -> pair_key p = pair_key q -> p = q) ->
  x ∈ fresh_pairs seen ps <-> x ∈ ps /\ pair_key x ∉ seen.
Proof.
  induction ps as [|[g m] ps IH]; intros seen x Hinj; [set_solver|]. cbn [fresh_pairs].
  change (g +:+ "|" +:+ m) with (pair_key (g, m)).
  assert (Hinj' : forall p q, p ∈ ps -> q ∈ ps -> pair_key p = pair_key q -> p = q) by (intros; apply Hinj; set_solver).
  case_decide as Hseen.
  - rewrite IH by done. set_unfold. naive_solver.
  - rewrite elem_of_cons, IH by done. rewrite elem_of_cons, not_elem_of_union, not_elem_of_singleton. split.
    + intros [->|(? & ? & ?)]; [by split; [left|]|by split; [right|]].
    + intros [[->|Hx] Hk]; [by left|]. destruct (decide (pair_key x = pair_key (g, m))) as [E|E]; [left|by right].
      apply Hinj; set_solver.
Qed.

Hypothesis ids_unique : NoDup (Id <$> rows).
Hypothesis unambiguous : forall c p q, c ∈ rows -> p ∈ pairs_of c -> q ∈ pairs_of c -> pair_key p = pair_key q -> p = q.

Lemma elem_of_synced a : a ∈ synced <->
  exists c g m, c ∈ rows /\ g ∈ groups_of c /\ m ∈ models_of c /\ a = ability_of (default ∅ (pairs !! Id c)) c g m.
Proof.
  unfold synced. rewrite list_elem_of_join. split.
  - intros (l & Ha & (c & -> & Hc)%list_elem_of_fmap). unfold AddAbilities in Ha.
    apply list_elem_of_fmap in Ha as ([g m] & -> & Hin).
    apply elem_of_fresh_pairs in Hin as [Hin _]; [|intros p q; by apply (unambiguous c)].
    apply list_elem_of_join in Hin as (l' & Hgm & (m' & -> & Hm)%list_elem_of_fmap).
    apply list_elem_of_fmap in Hgm as (g' & [= -> ->] & Hg). by exists c, g', m'.
  - intros (c & g & m & Hc & Hg & Hm & ->). eexists. split; [|by apply list_elem_of_fmap_2].
    unfold AddAbilities. apply list_elem_of_fmap. exists (g, m). split; [done|].
    apply elem_of_fresh_pairs; [intros p q; by apply (unambiguous c)|]. split; [|set_solver].
    apply list_elem_of_join. eexists. split; [|apply list_elem_of_fmap_2; exact Hm].
    apply list_elem_of_fmap. by exists g.
Qed.

Lemma by_id_row c : c ∈ rows -> by_id rows (Id c) = Some c.
Proof.
  intros Hc. unfold by_id. destruct (first_where _ rows) as [c'|] eqn:E.
  - apply first_where_some in E as [Hin Hid]. bool_to_prop. f_equal. by eapply NoDup_fmap_inj.
  - pose proof (first_where_none _ _ E c Hc) as H. cbn in H. by rewrite Z.eqb_refl in H.
Qed.

(** The abilities a selection starts from are those of the channels it may use. *)
Lemma elem_of_abilities_for group model tenantID a :
  a ∈ abilities_for rows synced group model tenantID <->
  exists c, c ∈ serving pairs rows group model /\ visible_to tenantID c = true /\
    a = ability_of (default ∅ (pairs !! Id c)) c group model.
Proof.
  unfold abilities_for, serving. rewrite elem_of_Lfilter, elem_of_synced. unfold ability_matches, visible_to. split.
  - intros [(c & g & m & Hc & Hg & Hm & ->) Hmatch]. cbn [a_Group a_Model a_Enabled a_ChannelId ability_of] in Hmatch.
    rewrite !andb_true_iff, !String.eqb_eq in Hmatch. destruct Hmatch as [[[-> ->] [Hst Hdis]] Hten].
    exists c. rewrite elem_of_Lfilter. split_and!; [done| | |done].
    + unfold serves, auto_disabled. rewrite !bool_decide_true by done. by rewrite Hst, Hdis.
    + destruct (String.eqb tenantID ""); [done|]. cbn [orb] in *. apply existsb_exists in Hten as (c' & Hin & Hv).
      apply list_elem_of_In in Hin. bool_to_prop. assert (c' = c) as -> by by eapply NoDup_fmap_inj. done.
  - intros (c & [Hc Hs]%elem_of_Lfilter & Hv & ->). unfold serves, auto_disabled in Hs. bool_to_prop. split.
    + by exists c, group, model.
    + cbn [a_Group a_Model a_Enabled a_ChannelId ability_of]. rewrite !String.eqb_refl.
      replace (Status c =? ChannelStatusEnabled) with true by (symmetry; by apply Z.eqb_eq).
      rewrite bool_decide_false by done. cbn [andb negb]. destruct (String.eqb tenantID ""); [done|]. cbn [orb] in *.
      apply existsb_exists. exists c. split; [by apply list_elem_of_In|]. by rewrite Z.eqb_refl, Hv.
Qed.

Definition ab (group model : string) (c : Channel) : Ability :=
  ability_of (default ∅ (pairs !! Id c)) c group model.

Lemma draw_le_elem w l a : draw_le w l = Some a -> a ∈ l.
Proof.
  revert w. induction l as [|b l IH]; intros w; [done|]. cbn [draw_le].
  destruct (_ <=? 0); [intros [= ->]; set_solver|]. intros H%IH. set_solver.
Qed.

Lemma sumZ_Lfilter {A} (f : A -> Z) P l : (forall x, x ∈ l -> 0 <= f x) -> sumZ f (List.filter P l) <= sumZ f l.
Proof.
  induction l as [|x l IH]; intros Hn; [done|]. assert (sumZ f (List.filter P l) <= sumZ f l) by (apply IH; set_solver).
  assert (0 <= f x) by (apply Hn; set_solver). cbn [List.filter].
  change (sumZ f (x :: l)) with (f x + sumZ f l). destruct (P x); [|lia].
  change (sumZ f (x :: List.filter P l)) with (f x + sumZ f (List.filter P l)). lia.
Qed.

Lemma sumZ_Permutation {A} (f : A -> Z) l k : l ≡ₚ k -> sumZ f l = sumZ f k.
Proof.
  induction 1 as [|x l k _ IH|x y l|l k m _ IH1 _ IH2]; [done| | |congruence].
  - change (f x + sumZ f l = f x + sumZ f k). lia.
  - change (f y + (f x + sumZ f l) = f x + (f y + sumZ f l)). lia.
Qed.

Hypothesis weights_ok : forall a, a ∈ synced -> 0 <= a_Weight a.
Hypothesis weights_fit : sumZ (fun a => a_Weight a + 10) synced <= i64_max.

(** The total the database path draws below is positive. *)
Lemma weight_sum_pos l : l <> [] -> (forall a, a ∈ l -> a ∈ synced) ->
  sumZ (fun a => a_Weight a + 10) l <= i64_max -> 0 < sum64 (ability_weight <$> l).
Proof.
  intros Hne Hin Hfit.
  assert (Heach : forall a, a ∈ l -> ability_weight a = a_Weight a + 10).
  { intros a Ha. pose proof (weights_ok a (Hin a Ha)).
    apply list_elem_of_split in Ha as (l1 & l2 & ->). rewrite sumZ_app in Hfit.
    change (sumZ (fun a => a_Weight a + 10) (a :: l2)) with (a_Weight a + 10 + sumZ (fun a => a_Weight a + 10) l2) in Hfit.
    assert (0 <= sumZ (fun a => a_Weight a + 10) l1) by
      (apply sumZ_nonneg; intros b Hb; pose proof (weights_ok b (Hin b ltac:(set_solver))); lia).
    assert (0 <= sumZ (fun a => a_Weight a + 10) l2) by
      (apply sumZ_nonneg; intros b Hb; pose proof (weights_ok b (Hin b ltac:(set_solver))); lia).
    unfold ability_weight, i64_add. rewrite (wrap64_id (a_Weight a)), wrap64_id; unfold in64, i64_min, i64_max in *; lia. }
  assert (Hsum : sumZ id (ability_weight <$> l) = sumZ (fun a => a_Weight a + 10) l).
  { rewrite sumZ_fmap. apply sumZ_ext. intros a Ha. by apply Heach. }
  unfold sum64. rewrite sum64_acc; [|apply Forall_fmap, Forall_forall; intros a Ha; unfold compose; rewrite Heach by done;
    pose proof (weights_ok a (Hin a Ha)); lia|lia|lia].
  rewrite Hsum, Z.add_0_l. destruct l as [|a l]; [done|].
  change (0 < a_Weight a + 10 + sumZ (fun a => a_Weight a + 10) l).
  assert (0 <= sumZ (fun a => a_Weight a + 10) l) by
    (apply sumZ_nonneg; intros b Hb; pose proof (weights_ok b (Hin b ltac:(set_solver))); lia).
  pose proof (weights_ok a (Hin a ltac:(set_solver))). lia.
Qed.

(** Without the table, the database answers the same.  With the abilities as the
    channel writes leave them, group and model names that do not run together, and
    weights that are not negative and add up, a selection from the abilities table
    satisfies the specification of the routing table on the same rows (but for the
    wildcard names, which this path does not try), and it never fails. *)
Theorem db_select_refines r group model retry tenantID pred :
  let vis := List.filter (visible_to tenantID) (serving pairs rows group model) in
  route_spec (fun _ => []) vis (List.filter pred vis) retry
    (getChannelForTenantWhere rows synced r group model retry tenantID pred).
Proof.
  intros vis. unfold getChannelForTenantWhere. set (A0 := abilities_for rows synced group model tenantID).
  assert (HA : forall a, a ∈ merge_sort heavier A0 <-> exists c, c ∈ vis /\ a = ab group model c).
  { intros a. rewrite merge_sort_Permutation. unfold A0, vis. rewrite elem_of_abilities_for.
    split; intros (c & Hc & Hr); exists c; rewrite elem_of_Lfilter in *; unfold ab in *; tauto. }
  assert (Hrow : forall c, c ∈ vis -> by_id rows (a_ChannelId (ab group model c)) = Some c).
  { intros c Hc. apply by_id_row. unfold vis, serving in Hc. rewrite !elem_of_Lfilter in Hc. tauto. }
  assert (Hsub : forall a, a ∈ merge_sort heavier A0 -> a ∈ synced).
  { intros a. rewrite merge_sort_Permutation. by intros [? _]%elem_of_Lfilter. }
  assert (Hfit : sumZ (fun a => a_Weight a + 10) (merge_sort heavier A0) <= i64_max).
  { rewrite (sumZ_Permutation _ _ A0) by apply merge_sort_Permutation.
    etransitivity; [apply sumZ_Lfilter|done]. intros a Ha. specialize (weights_ok a Ha). lia. }
  destruct (merge_sort heavier A0) as [|a0 al] eqn:Hl.
  { apply spec_unknown. destruct vis as [|c ?]; [done|]. assert (ab group model c ∈ []) by (apply HA; set_solver). set_solver. }
  rewrite <- Hl in *. set (AL := merge_sort heavier A0) in *.
  assert (Hvne : vis <> []).
  { intros E. assert (a0 ∈ AL) as Ha by (rewrite Hl; set_solver). apply HA in Ha. rewrite E in Ha. set_solver. }
  set (accepted := List.filter _ AL).
  assert (Hacc : forall a, a ∈ accepted <-> exists c, c ∈ List.filter pred vis /\ a = ab group model c).
  { intros a. unfold accepted. rewrite elem_of_Lfilter, HA. setoid_rewrite elem_of_Lfilter. split.
    - intros [(c & Hc & ->) Hp]. rewrite Hrow in Hp by done. by exists c.
    - intros (c & [Hc Hp] & ->). rewrite Hrow by done. split; [by exists c|done]. }
  assert (Hpr : (list_to_set (abilityPriority <$> accepted) : gset Z) = prios (List.filter pred vis)).
  { apply set_eq. intros q. unfold prios. rewrite !elem_of_list_to_set, !list_elem_of_fmap. split.
    - intros (a & -> & (c & Hc & ->)%Hacc). by exists c.
    - intros (c & -> & Hc). exists (ab group model c). split; [done|]. apply Hacc. by exists c. }
  destruct (tier_at (tiers (abilityPriority <$> accepted)) retry) as [p|] eqn:Ht.
  2:{ apply spec_rejected; [done|]. destruct (List.filter pred vis) as [|c ?] eqn:E; [done|].
      destruct (tier_at_some (abilityPriority <$> accepted) retry) as [? ?]; [|congruence].
      intros Hn%fmap_nil_inv. assert (ab group model c ∈ accepted) by (apply Hacc; exists c; set_solver).
      rewrite Hn in *. set_solver. }
  apply tier_at_rank in Ht as [Hin Hrank]. rewrite Hpr in Hrank.
  set (candidates := List.filter (fun a => abilityPriority a =? p) accepted).
  assert (Hcand : forall a, a ∈ candidates -> exists c, by_id rows (a_ChannelId a) = Some c /\
            c ∈ List.filter pred vis /\ GetPriority c = p).
  { intros a [Ha Hp]%elem_of_Lfilter. apply Hacc in Ha as (c & Hc & ->). exists c. bool_to_prop.
    split_and!; [apply Hrow; by apply elem_of_Lfilter in Hc as [? _]|done|done]. }
  assert (Hcne : candidates <> []).
  { apply list_elem_of_fmap in Hin as (a & -> & Ha). intros E.
    assert (a ∈ candidates) by (apply elem_of_Lfilter; by rewrite Z.eqb_refl). rewrite E in *. set_solver. }
  assert (0 < sum64 (ability_weight <$> candidates)).
  { apply weight_sum_pos; [done| |].
    - intros a Ha. apply Hsub. unfold candidates, accepted in Ha. rewrite !elem_of_Lfilter in Ha. tauto.
    - assert (Hn : forall a, a ∈ AL -> 0 <= a_Weight a + 10) by (intros a Ha; pose proof (weights_ok a (Hsub a Ha)); lia).
      etransitivity; [apply sumZ_Lfilter|etransitivity; [apply sumZ_Lfilter; exact Hn|exact Hfit]].
      intros a Ha. apply Hn. by apply elem_of_Lfilter in Ha as [? _]. }
  replace (sum64 (ability_weight <$> candidates) <=? 0) with false by (symmetry; apply Z.leb_gt; lia).
  assert (Hdone : forall a, a ∈ candidates ->
    route_spec (fun _ => []) vis (List.filter pred vis) retry (Ok (by_id rows (a_ChannelId a)))).
  { intros a Ha. destruct (Hcand a Ha) as (c & -> & Hc & <-). by apply spec_chosen. }
  destruct (draw_le _ candidates) as [a|] eqn:Hd; [apply draw_le_elem in Hd; by apply Hdone|].
  destruct (last candidates) as [a|] eqn:Hlast; [|by apply last_None in Hlast].
  apply last_Some_elem_of in Hlast. by apply Hdone.
Qed.
End DbSelect.

(** ** Where routing departs from its description *)

Section RoutingFindings.
Import GoStrings PlatformBilling ChannelKeys SmartRouting ChannelCache.

(** A disabled channel can keep serving.  A channel whose model list names a
    model twice is entered twice under it; disabling the channel in the table takes
    out one of the two entries, and the next selection returns it, disabled. *)
Theorem disabled_duplicate_still_routed json_array (c : Channel) abs t0 h r tenantID group model st :
  Status c = ChannelStatusEnabled -> groups_of c = [group] -> models_of c = [model; model] ->
  visible_to tenantID c = true -> st <> ChannelStatusEnabled ->
  let t := InitChannelCache json_array true (Some [c]) (Some abs) (Some ∅) t0 in
  exists c', select_cached (CacheUpdateChannelStatus (Id c) st t) h r tenantID group model 0 None = Ok (Some c') /\
    Id c' = Id c /\ Status c' = st.
Proof.
  intros Hs Hg Hm Hv Hst t.
  assert (Hroute : routed t group model = [Id c; Id c]).
  { unfold t, InitChannelCache, rebuildChannelCache, routed. cbn [negb snd group2model2channels fold_left].
    unfold add_channel. rewrite Hs, Hg, Hm. cbn [negb Z.eqb ChannelStatusEnabled Pos.eqb fold_left].
    change (auto_disabled (default ∅ (Some ∅)) (Id c) model) with (auto_disabled ∅ (Id c) model).
    replace (auto_disabled ∅ (Id c) model) with false
      by (symmetry; unfold auto_disabled; rewrite lookup_empty; apply bool_decide_false; set_solver).
    unfold add_route. rewrite lookup_fmap, lookup_insert_eq. cbn [fmap option_fmap option_map from_option]. unfold id.
    rewrite lookup_fmap, lookup_insert_eq. cbn [fmap option_fmap option_map from_option].
    rewrite lookup_insert_eq. cbn [from_option]. rewrite lookup_insert_eq. cbn [from_option].
    rewrite fold_seed_empty by (intros; by rewrite lookup_empty). rewrite lookup_empty. cbn [from_option app].
    unfold merge_sort. cbn. unfold decide, higher_dec. case_match; [done|]. exfalso. unfold higher in *. lia. }
  assert (Hlook : channelsIDM t !! Id c = Some (entry json_array t0 c)).
  { apply rebuilt_lookup; [cbn; apply NoDup_singleton|]. exists c. set_solver. }
  set (c' := set_status st (entry json_array t0 c)).
  assert (Hvis' : visible_to tenantID c' = true).
  { rewrite <- Hv. unfold c', entry, cache_entry, visible_to, visible. by destruct (IsMultiKey (Info c)). }
  exists c'. split_and!; [| |done].
  - unfold select_cached. set (t' := CacheUpdateChannelStatus (Id c) st t).
    assert (Hr' : routed t' group model = [Id c]).
    { unfold t', CacheUpdateChannelStatus, routed. cbn [group2model2channels]. apply Z.eqb_neq in Hst. rewrite Hst.
      unfold routed in Hroute. rewrite lookup_fmap.
      destruct (group2model2channels t !! group) as [mt|] eqn:Eg; cbn [fmap option_fmap option_map from_option] in *.
      - unfold id in *. rewrite lookup_fmap. destruct (mt !! model) as [l|] eqn:El; cbn [from_option] in Hroute.
        + cbn. rewrite Hroute. cbn. by rewrite Z.eqb_refl.
        + done.
      - by rewrite lookup_empty in Hroute. }
    assert (Hl' : channelsIDM t' !! Id c = Some c').
    { unfold t', CacheUpdateChannelStatus. cbn [channelsIDM]. by rewrite lookup_alter_eq, Hlook. }
    rewrite Hr'. unfold filterChannelsForTenant. unfold visible_to in Hvis'.
    destruct (String.eqb tenantID ""); cbn [List.filter orb] in *; rewrite ?Hl'; [done|]. rewrite Hvis', Hl'. done.
  - unfold c', entry, cache_entry. by destruct (IsMultiKey (Info c)).
Qed.

Lemma adjust1_zero cs id : GetScore cs id <> None -> adjust1 cs id 0 = (1, true).
Proof.
  unfold adjust1. destruct (GetScore cs id) as [sc|]; [|done]. intros _.
  destruct (f64_add (tenths 5) sc) as [s|s| |s m e]; reflexivity.
Qed.

(** Attempts on one tier: each is served by the drawn channel, and its outcome
    (time, success, latency) is recorded. *)
Fixpoint traffic (cs : list Channel) (steps : list (Z * Z * bool * float64)) (h : ChannelScorer)
    : list (result select_err Channel) :=
  match steps with
  | [] => []
  | (r, now, ok, latency) :: rest =>
      match pick_tier (Some h) r cs with
      | Ok c => Ok c :: traffic cs rest (record_outcome now (Id c) ok latency h)
      | Err e => Err e :: traffic cs rest h
      end
  end.

Section Starvation.
Context (cs : list Channel).
Hypothesis weightless : forall c, c ∈ cs -> GetWeight c = 0.
Hypothesis tier_small : 200 * Z.of_nat (length cs) <= i64_max.

Lemma weightless_adjusted h : (exists c, c ∈ cs /\ GetScore h (Id c) <> None) ->
  tier_weights (Some h) cs = (fun c => if GetScore h (Id c) then 1 else 0) <$> cs.
Proof.
  intros (c0 & Hc0 & Hsc). unfold tier_weights, AdjustWeights. rewrite <- list_fmap_compose.
  assert (Hex : existsb snd (((fun c => adjust1 h c.1 c.2) ∘ (fun c => (Id c, GetWeight c))) <$> cs) = true).
  { apply existsb_exists. exists (adjust1 h (Id c0) (GetWeight c0)). split.
    - apply list_elem_of_In, list_elem_of_fmap. by exists c0.
    - by apply adjust1_scored. }
  rewrite Hex. cbn [from_option]. unfold id. rewrite <- list_fmap_compose. apply list_fmap_ext.
  intros i c Hc%list_elem_of_lookup_2. unfold compose. cbn [fst snd]. rewrite weightless by done.
  destruct (GetScore h (Id c)) eqn:E; [by rewrite adjust1_zero by by rewrite E|by rewrite adjust1_unscored].
Qed.

Lemma starved_pick h r : (exists c, c ∈ cs /\ GetScore h (Id c) <> None) ->
  exists c, pick_tier (Some h) r cs = Ok c /\ c ∈ cs /\ GetScore h (Id c) <> None.
Proof.
  intros Hsc. pose proof (weightless_adjusted h Hsc) as Hw.
  set (f := fun c : Channel => if GetScore h (Id c) then 1 else 0) in *.
  assert (Hne : cs <> []) by (destruct Hsc as (c & ? & _); intros ->; set_solver).
  assert (Hle : 0 <= sumZ id (f <$> cs) <= Z.of_nat (length cs)).
  { rewrite sumZ_fmap. split; [apply sumZ_nonneg; intros c _; unfold id, f; case_match; lia|].
    replace (Z.of_nat (length cs)) with (sumZ (fun _ : Channel => 1) cs) by (rewrite sumZ_const; lia).
    apply sumZ_le. intros c _. unfold id, f. case_match; lia. }
  assert (Hpos : sumZ id (f <$> cs) <> 0).
  { destruct Hsc as (c & Hc & Hs). intros E. rewrite sumZ_fmap in E.
    apply (sumZ_zero_each (fun x => id (f x)) cs) with (x := c) in E; [|intros x _; unfold id, f; case_match; lia|done].
    unfold id, f in E. by destruct (GetScore h (Id c)). }
  destruct (pick_tier_intervals (Some h) cs Hne) as (k & Hk & _ & Hex & Hok).
  { rewrite Hw. split; [apply Forall_fmap, Forall_forall; intros c _; unfold compose, f; case_match; lia|].
    rewrite length_fmap. lia. }
  rewrite Hw in Hex, Hok. destruct (Hex r) as (i & c & w & Hc & Hwi & Hb).
  exists c. split_and!; [by eapply Hok|by eapply list_elem_of_lookup_2|].
  rewrite list_lookup_fmap, list_lookup_fmap, Hc in Hwi. cbn [fmap option_fmap option_map] in Hwi. injection Hwi as <-.
  intros Hn. assert (drawn (f <$> cs) k (f c) = 0) as Hz; [|rewrite Hz in Hb; lia].
  unfold drawn. replace (sumZ id (f <$> cs) =? 0) with false by (symmetry; by apply Z.eqb_neq).
  unfold f. rewrite Hn. lia.
Qed.

(** A channel without a score starves.  In a tier whose weights are all zero (the
    default), once one channel has a score, a channel that has none is never drawn
    again, whatever the draws and however the scored channels fare; so it never gets
    a score either.  The scorer's description promises every channel a chance. *)
Theorem unscored_channel_starves steps : forall h c,
  (exists c0, c0 ∈ cs /\ GetScore h (Id c0) <> None) -> GetScore h (Id c) = None ->
  length (traffic cs steps h) = length steps /\
  forall res, res ∈ traffic cs steps h -> exists c', res = Ok c' /\ c' ∈ cs /\ Id c' <> Id c.
Proof.
  induction steps as [|[[[r now] ok] lat] steps IH]; intros h c Hsc Hc; cbn [traffic]; [set_solver|].
  destruct (starved_pick h r Hsc) as (c1 & -> & Hin & Hs1).
  assert (Hne : Id c <> Id c1) by congruence.
  destruct (IH (record_outcome now (Id c1) ok lat h) c) as [Hlen Hall].
  - exists c1. split; [done|]. apply record_outcome_scored. by left.
  - destruct (GetScore (record_outcome now (Id c1) ok lat h) (Id c)) eqn:E; [|done]. exfalso.
    assert (GetScore (record_outcome now (Id c1) ok lat h) (Id c) <> None) as H by by rewrite E.
    apply record_outcome_scored in H as [H|H]; done.
  - split; [cbn [length]; lia|]. intros res [->|Hr]%elem_of_cons; [|by apply Hall]. exists c1. done.
Qed.
End Starvation.
End RoutingFindings.

Section RoutingWitnesses.
Import GoStrings PlatformBilling ChannelKeys SmartRouting ChannelCache.

Definition demo_row (id : Z) (tenant models : string) (weight priority : Z) : Channel :=
  mkChannel id tenant 1 "sk" ChannelStatusEnabled (Some weight) models "default" (Some priority)
    (mkInfo false 0 ∅ ∅ ∅ 0 "" ∅ ∅) "" 0 [].

(** Two shared channels in one tier, and one of another tenant above them. *)
Definition demo_rows : list Channel :=
  [demo_row 1 "" "gpt,gpt-mini" 30 5; demo_row 2 "default" "gpt" 10 5; demo_row 3 "other" "gpt" 90 9].

Definition demo_table : table := mkTable ∅ ∅.

Lemma draw_proportional_witness :
  (pick_tier None 29 (take 2 demo_rows) = Ok (demo_row 1 "" "gpt,gpt-mini" 30 5) /\
   pick_tier None 30 (take 2 demo_rows) = Ok (demo_row 2 "default" "gpt" 10 5)) /\
  exists i c, take 2 demo_rows !! i = Some c /\ pick_tier None 77 (take 2 demo_rows) = Ok c.
Proof.
  split; [split; vm_compute; reflexivity|].
  destruct (draw_proportional None (take 2 demo_rows)) as (k & _ & _ & Hex & Hok).
  - discriminate.
  - split; [repeat constructor; vm_compute; discriminate|vm_compute; discriminate].
  - destruct (Hex 77) as (i & c & w & Hc & Hw & Hb). exists i, c. split; [exact Hc|].
    exact (Hok 77 i c w Hc Hw Hb).
Defined.

Lemma select_refines_witness :
  let t := InitChannelCache no_json true (Some demo_rows) (Some []) (Some ∅) demo_table in
  select_cached t None 35 "acme" "default" "gpt" 0 None = Ok (Some (demo_row 2 "default" "gpt" 10 5)) /\
  route_spec (tier_weights None)
    (List.filter (visible_to "acme") (entry no_json demo_table <$> serving ∅ demo_rows "default"
       (matched_model ∅ demo_rows "default" "gpt")))
    (List.filter (accepts None) (List.filter (visible_to "acme") (entry no_json demo_table <$>
       serving ∅ demo_rows "default" (matched_model ∅ demo_rows "default" "gpt")))) 0
    (select_cached t None 35 "acme" "default" "gpt" 0 None).
Proof.
  intros t. split; [vm_compute; reflexivity|].
  refine (proj1 (select_refines no_json ∅ demo_rows [] demo_table _ None 35 "acme" "default" "gpt" 0 None)).
  repeat constructor; set_solver.
Defined.

Lemma db_select_refines_witness :
  getChannelForTenantWhere demo_rows (synced ∅ demo_rows) 41 "default" "gpt" 0 "acme" (fun _ => true)
    = Ok (Some (demo_row 2 "default" "gpt" 10 5)) /\
  route_spec (fun _ => []) (List.filter (visible_to "acme") (serving ∅ demo_rows "default" "gpt"))
    (List.filter (fun _ => true) (List.filter (visible_to "acme") (serving ∅ demo_rows "default" "gpt"))) 0
    (getChannelForTenantWhere demo_rows (synced ∅ demo_rows) 41 "default" "gpt" 0 "acme" (fun _ => true)).
Proof.
  split; [vm_compute; reflexivity|].
  refine (db_select_refines ∅ demo_rows _ _ _ _ 41 "default" "gpt" 0 "acme" (fun _ => true)).
  - repeat constructor; set_solver.
  - intros c p q Hc Hp Hq Hk. change (pairs_of c) with (pairs_of c) in Hp.
    repeat (apply elem_of_cons in Hc as [->|Hc]; [vm_compute in Hp, Hq; set_unfold; naive_solver|]). set_solver.
  - intros a Ha. vm_compute in Ha. repeat (apply elem_of_cons in Ha as [->|Ha]; [vm_compute; discriminate|]). set_solver.
  - vm_compute. discriminate.
Defined.

Lemma disabled_duplicate_still_routed_witness :
  let c := demo_row 1 "" "gpt,gpt" 30 5 in
  let t := InitChannelCache no_json true (Some [c]) (Some []) (Some ∅) demo_table in
  exists c', select_cached (CacheUpdateChannelStatus 1 ChannelStatusManuallyDisabled t) None 0 "acme" "default"
    "gpt" 0 None = Ok (Some c') /\ Id c' = 1 /\ Status c' = ChannelStatusManuallyDisabled.
Proof.
  intros c t.
  apply (disabled_duplicate_still_routed no_json c [] demo_table None 0 "acme" "default" "gpt"
           ChannelStatusManuallyDisabled); [reflexivity..|discriminate].
Defined.

Lemma unscored_channel_starves_witness :
  let cs := [demo_row 1 "" "gpt" 0 5; demo_row 2 "" "gpt" 0 5] in
  let h := ChannelScorer_RecordFailure 0 1 NewChannelScorer in
  length (traffic cs [(7, 1, false, f64_zero); (120, 2, false, f64_zero)] h) = 2%nat /\
  Ok (demo_row 2 "" "gpt" 0 5) ∉ traffic cs [(7, 1, false, f64_zero); (120, 2, false, f64_zero)] h.
Proof.
  intros cs h.
  destruct (unscored_channel_starves cs) with (steps := [(7, 1, false, f64_zero); (120, 2, false, f64_zero)])
    (h := h) (c := demo_row 2 "" "gpt" 0 5) as [Hlen Hall].
  - intros c Hc. apply elem_of_cons in Hc as [->|Hc]; [reflexivity|].
    apply list_elem_of_singleton in Hc as ->. reflexivity.
  - vm_compute. discriminate.
  - exists (demo_row 1 "" "gpt" 0 5). split; [set_solver|]. vm_compute. discriminate.
  - reflexivity.
  - split; [exact Hlen|]. intros Hin. destruct (Hall _ Hin) as (c' & Hc' & _ & Hne).
    injection Hc' as <-. apply Hne. reflexivity.
Defined.
End RoutingWitnesses.
