(* ===== verification/ChannelCooldown.v ===== *)
(** * Channel cooldowns

    Model of internal/app/channel_cooldown.go and channel_cooldown_clear.go: the
    cooldowns of rate-limited channels, kept in each process and shared through a
    Redis sorted set, read back as periodic snapshots; and of the reading of an
    upstream's 429 in internal/app/openrouter_pool/cooldown.go.

    Every operation is split where it gives up its lock or waits for Redis, so that
    any interleaving of marks, refreshes and clears in a process is an execution of
    [run].  A member of the sorted set is the slot its text names and its score the
    deadline; its expiry, 25 hours after the last write, outlives every deadline and
    is not an event; the generation counter does not wrap around within the life of a
    process.  Decoding a JSON body or a decimal number is an argument. *)

From S2P Require Import Prelude GoStrings.

Module ChannelCooldown.
Import GoStrings.

(** ** Reading a 429 *)

Definition cooldownMin : Z := 30 * second.
Definition cooldownMax : Z := 24 * hour.
Definition cooldownFallbk : Z := 60 * second.
Definition cooldownDailyTL : Z := 24 * hour.
Definition ChannelTypeOpenRouter : Z := 20.

Definition dailyKeywords : list string :=
  ["free-models-per-day"; "free models per day"; "daily limit"; "per day"].

Definition clamp (until now : Z) : Z :=
  let low := time_Unix (time_Add now cooldownMin) in
  let high := time_Unix (time_Add now cooldownMax) in
  if until <? low then low else if until >? high then high else until.

Section Parse.
(** [int64] of [strconv.ParseFloat], and the header map of a JSON error body in the
    order a range over it happens to take. *)
Context (ParseFloat : string -> option Z) (body_headers : string -> option (list (string * string))).

Definition interpretResetValue (raw : string) (now : Z) : option Z :=
  let raw := TrimSpace raw in
  let parsed := match Atoi raw with Some n => Some n | None => ParseFloat raw end in
  match parsed with
  | None => None
  | Some n =>
      if n <=? 0 then None
      else
        let nowUnix := time_Unix now in
        let candidate :=
          if n <? 86400 then i64_add nowUnix n
          else if n <? 1000000000000 then n
          else Z.quot n 1000 in
        if candidate <=? nowUnix then None else Some candidate
  end.

Definition positive_seconds (v : string) : option Z :=
  match Atoi (TrimSpace v) with
  | Some secs => if secs >? 0 then Some secs else None
  | None => None
  end.

Fixpoint scan_headers (hs : list (string * string)) (now : Z) : option Z :=
  match hs with
  | [] => None
  | (k, v) :: rest =>
      let lk := ToLower k in
      let reset := if String.eqb lk "x-ratelimit-reset" || String.eqb lk "x-rate-limit-reset"
                   then interpretResetValue v now else None in
      match reset with
      | Some u => Some u
      | None =>
          match (if String.eqb lk "retry-after" then positive_seconds v else None) with
          | Some secs => Some (i64_add (time_Unix now) secs)
          | None => scan_headers rest now
          end
      end
  end.

Definition extractFromBodyMetadata (body : string) (now : Z) : option Z :=
  match body_headers body with Some hs => scan_headers hs now | None => None end.

(** [reset] and [retry] are the values of the X-Ratelimit-Reset and Retry-After
    response headers, empty when absent. *)
Definition ParseCooldownUntil (reset retry body : string) (now channelType : Z) : Z :=
  match (if String.eqb reset "" then None else interpretResetValue reset now) with
  | Some until => clamp until now
  | None =>
      match (if String.eqb retry "" then None else positive_seconds retry) with
      | Some secs => clamp (i64_add (time_Unix now) secs) now
      | None =>
          match (if String.eqb body "" then None else extractFromBodyMetadata body now) with
          | Some until => clamp until now
          | None =>
              if (channelType =? ChannelTypeOpenRouter) && negb (String.eqb body "") &&
                 existsb (Contains (ToLower body)) dailyKeywords
              then clamp (time_Unix (time_Add now cooldownDailyTL)) now
              else clamp (time_Unix (time_Add now cooldownFallbk)) now
          end
      end
  end.
End Parse.

(** ** State *)

Definition cooldownSnapshotEvery : Z := 2 * second.

(** [cooldownSlot]: channel and key index. *)
Notation slot := (Z * Z)%type.
Notation slots := (gmap (Z * Z) Z).

(** *** Their text *)

Definition channelCooldownKeyPrefix : string := "chan_cd:".
Definition colon : Ascii.ascii := Ascii.ascii_of_nat 58.

(** The member of the sorted set, and the key that mirrors it. *)
Definition cooldown_member (channelID keyIdx : Z) : string := Itoa channelID +:+ String colon (Itoa keyIdx).

Definition channelCooldownKey (channelID keyIdx : Z) : string :=
  channelCooldownKeyPrefix +:+ cooldown_member channelID keyIdx.

Definition parseChannelCooldownKey (key : string) : option slot :=
  match Split (TrimPrefix key channelCooldownKeyPrefix) colon with
  | [a; b] => match Atoi a, Atoi b with
              | Some c, Some k => Some (c, k)
              | _, _ => None
              end
  | _ => None
  end.

(** The members a clear removes. *)
Definition has_channel_prefix (channelID : Z) (member : string) : bool :=
  HasPrefix member (Itoa channelID +:+ String colon EmptyString).

(** *** The process *)

Record proc := mkProc {
  cooldownLocal : slots;
  cooldownRemote : slots;
  cooldownSynced : slots;        (* when the Redis write of a local entry succeeded *)
  cooldownRemoteAt : Z;
  cooldownGen : Z;
  cooldownClearedGen : gmap Z Z
}.

Definition start : proc := mkProc ∅ ∅ ∅ time_zero 0 ∅.

Definition set_local (l s : slots) (p : proc) : proc :=
  mkProc l (cooldownRemote p) s (cooldownRemoteAt p) (cooldownGen p) (cooldownClearedGen p).

(** ** Marking *)

Definition unexpired (nowUnix : Z) (m : slots) : slots := filter (fun kv => nowUnix < kv.2) m.

(** [MarkChannelCooldown] up to its Redis write; [None] when the deadline passed. *)
Definition mark_local (s : slot) (until now : Z) (p : proc) : option proc :=
  if time_Sub (time_of_unix until) now <=? 0 then None
  else Some (set_local (<[s := until]> (unexpired (time_Unix now) (cooldownLocal p)))
               (delete s (cooldownSynced p)) p).

(** The pipeline on the sorted set: add the slot, prune what has passed. *)
Definition mark_redis (s : slot) (until now : Z) (z : slots) : slots :=
  unexpired (time_Unix now) (<[s := until]> z).

(** After a successful pipeline. *)
Definition mark_synced (s : slot) (until now : Z) (p : proc) : proc :=
  if default 0 (cooldownLocal p !! s) =? until
  then set_local (cooldownLocal p) (<[s := now]> (cooldownSynced p)) p
  else p.

(** The whole call, Redis answering [redis_ok] or being switched off. *)
Definition MarkChannelCooldown (redis : option bool) (channelID keyIdx until now : Z) (p : proc) (z : slots)
    : proc * slots :=
  let s := (channelID, keyIdx) in
  match mark_local s until now p with
  | None => (p, z)
  | Some p1 =>
      match redis with
      | Some true => (mark_synced s until now p1, mark_redis s until now z)
      | _ => (p1, z)
      end
  end.

Definition resetLocalChannelCooldowns (p : proc) : proc := set_local ∅ ∅ p.

Definition ClearChannelCooldowns (p : proc) : proc :=
  mkProc ∅ ∅ ∅ time_zero (cooldownGen p) (cooldownClearedGen p).

(** ** Snapshots *)

(** Claim a refresh: [None] when the last one is recent enough.  The generation it
    starts at is carried to the merge. *)
Definition refresh_begin (now : Z) (p : proc) : option (proc * Z) :=
  if negb (time_IsZero (cooldownRemoteAt p)) && (time_Sub now (cooldownRemoteAt p) <? cooldownSnapshotEvery)
  then None
  else Some (mkProc (cooldownLocal p) (cooldownRemote p) (cooldownSynced p) now (cooldownGen p)
               (cooldownClearedGen p), cooldownGen p).

(** ZRANGEBYSCORE from the next second on. *)
Definition refresh_read (now : Z) (z : slots) : slots := unexpired (time_Unix now) z.

(** A slot of a channel cleared since the snapshot started is discarded. *)
Definition survives (startGen : Z) (p : proc) (s : slot) : bool :=
  negb (default 0 (cooldownClearedGen p !! s.1) >? startGen).

(** A local entry that Redis accepted before this read and no longer carries, or
    carries with an earlier deadline, is dropped. *)
Definition stale (now : Z) (snap : slots) (p : proc) (s : slot) : bool :=
  match cooldownSynced p !! s with
  | None => false
  | Some writtenAt =>
      (writtenAt <? now) && (default 0 (snap !! s) <? default 0 (cooldownLocal p !! s))
  end.

Definition refresh_merge (startGen now : Z) (entries : slots) (p : proc) : proc :=
  let snap : slots := filter (fun kv => survives startGen p kv.1 = true) entries in
  mkProc (filter (fun kv => stale now snap p kv.1 = false) (cooldownLocal p)) snap
    (filter (fun kv => stale now snap p kv.1 = false) (cooldownSynced p))
    (cooldownRemoteAt p) (cooldownGen p) (cooldownClearedGen p).

(** The whole call; [None] is a failed read, which keeps the old snapshot. *)
Definition refreshCooldownSnapshot (redis : bool) (now : Z) (read : option slots) (p : proc) : proc :=
  if negb redis then p
  else match refresh_begin now p with
  | None => p
  | Some (p1, g) =>
      match read with
      | None => p1
      | Some z => refresh_merge g now (refresh_read now z) p1
      end
  end.

(** ** Clearing *)

Definition markCooldownCleared (channelID : Z) (p : proc) : proc :=
  let g := cooldownGen p + 1 in
  mkProc (cooldownLocal p) (cooldownRemote p) (cooldownSynced p) (cooldownRemoteAt p) g
    (<[channelID := g]> (cooldownClearedGen p)).

Definition without (channelID : Z) (m : slots) : slots := filter (fun kv => kv.1.1 <> channelID) m.

(** [cooldownSynced] loses the slots deleted from the local map. *)
Definition clear_local (channelID : Z) (p : proc) : proc :=
  mkProc (without channelID (cooldownLocal p)) (without channelID (cooldownRemote p))
    (filter (fun kv => ~ (kv.1.1 = channelID /\ is_Some (cooldownLocal p !! kv.1))) (cooldownSynced p))
    (cooldownRemoteAt p) (cooldownGen p) (cooldownClearedGen p).

(** The members found are removed; others added meanwhile stay. *)
Definition clear_redis (channelID : Z) (found z : slots) : slots :=
  filter (fun kv => ~ (kv.1.1 = channelID /\ is_Some (found !! kv.1))) z.

(** The whole call, uninterrupted. *)
Definition ClearChannelCooldown (redis : option bool) (channelID : Z) (p : proc) (z : slots) : proc * slots :=
  let p1 := clear_local channelID (markCooldownCleared channelID p) in
  (markCooldownCleared channelID p1,
   match redis with Some true => clear_redis channelID z z | _ => z end).

(** ** Reading *)

Definition coolingUntil (nowUnix channelID keyIdx : Z) (p : proc) : Z :=
  let s := (channelID, keyIdx) in
  let u := default 0 (cooldownLocal p !! s) in
  let until := if u >? nowUnix then u else 0 in
  let v := default 0 (cooldownRemote p !! s) in
  if (v >? nowUnix) && (v >? until) then v else until.

Definition anyCooldownActive (nowUnix : Z) (p : proc) : bool :=
  existsb (fun kv : slot * Z => kv.2 >? nowUnix) (map_to_list (cooldownLocal p)) ||
  existsb (fun kv : slot * Z => kv.2 >? nowUnix) (map_to_list (cooldownRemote p)).

(** ** Executions *)

(** A refresh in flight: the generation and time it started at, and what it read. *)
Record flight := mkFlight { f_gen : Z; f_now : Z; f_read : option slots }.

Record system := mkSystem {
  process : proc;
  index : slots;             (* the sorted set all replicas share *)
  flights : list flight
}.

(** The atomic steps of the operations above, in this process or, for those on the
    sorted set, in another one.  A flight is named by its position. *)
Inductive event :=
| EBegin (now : Z)
| ERead (i : nat)
| EFail (i : nat)
| EMerge (i : nat)
| EMarkLocal (s : slot) (until now : Z)
| EMarkRedis (s : slot) (until now : Z)
| EMarkSynced (s : slot) (until now : Z)
| EStamp (channelID : Z)
| EClearLocal (channelID : Z)
| EClearRedis (channelID : Z) (found : slots)
| EReset.

Definition apply (e : event) (y : system) : option system :=
  let p := process y in
  match e with
  | EBegin now =>
      '(p', g) ← refresh_begin now p;
      Some (mkSystem p' (index y) (mkFlight g now None :: flights y))
  | ERead i =>
      f ← flights y !! i;
      guard (f_read f = None);;
      Some (mkSystem p (index y)
              (<[i := mkFlight (f_gen f) (f_now f) (Some (refresh_read (f_now f) (index y)))]> (flights y)))
  | EFail i =>
      f ← flights y !! i;
      Some (mkSystem p (index y) (delete i (flights y)))
  | EMerge i =>
      f ← flights y !! i;
      entries ← f_read f;
      Some (mkSystem (refresh_merge (f_gen f) (f_now f) entries p) (index y) (delete i (flights y)))
  | EMarkLocal s until now =>
      p' ← mark_local s until now p;
      Some (mkSystem p' (index y) (flights y))
  | EMarkRedis s until now => Some (mkSystem p (mark_redis s until now (index y)) (flights y))
  | EMarkSynced s until now => Some (mkSystem (mark_synced s until now p) (index y) (flights y))
  | EStamp c => Some (mkSystem (markCooldownCleared c p) (index y) (flights y))
  | EClearLocal c => Some (mkSystem (clear_local c p) (index y) (flights y))
  | EClearRedis c found => Some (mkSystem p (clear_redis c found (index y)) (flights y))
  | EReset => Some (mkSystem (ClearChannelCooldowns p) (index y) (flights y))
  end.

Fixpoint run (es : list event) (y : system) : option system :=
  match es with
  | [] => Some y
  | e :: rest => y' ← apply e y; run rest y'
  end.

(** The slot an event marks, if any. *)
Definition marked (e : event) : option slot :=
  match e with
  | EMarkLocal s _ _ | EMarkRedis s _ _ | EMarkSynced s _ _ => Some s
  | _ => None
  end.
End ChannelCooldown.
