(* ===== verification/ChannelCooldownSpec.v ===== *)
(** * Channel cooldowns: theorems

    The bounds of a deadline read off a 429, and two safety properties of the
    cooldown store over every interleaving of its operations: a cooldown that was
    lifted stays lifted, and a cooldown that reached Redis is honoured to its
    deadline.  Both need the operation itself to run uninterrupted: the two races
    that break them when it does not are exhibited too. *)

From S2P Require Import Prelude GoStrings ChannelCooldown.

Section CooldownFacts.
Import GoStrings ChannelCooldown.

(** ** Deadlines *)

Lemma unix_add_seconds now n : time_Unix (time_Add now (n * second)) = time_Unix now + n.
Proof. unfold time_Unix, time_Add, second. rewrite Z.div_add by lia. lia. Qed.

Lemma clamp_eq until now :
  clamp until now = Z.max (time_Unix now + 30) (Z.min until (time_Unix now + 86400)).
Proof.
  unfold clamp, cooldownMin, cooldownMax.
  replace (24 * hour) with (86400 * second) by reflexivity.
  rewrite !unix_add_seconds. repeat case_match; lia.
Qed.

Lemma parse_is_clamped ParseFloat body_headers reset retry body now ty :
  exists u, ParseCooldownUntil ParseFloat body_headers reset retry body now ty = clamp u now.
Proof. unfold ParseCooldownUntil. repeat case_match; eauto. Qed.

(** Whatever a 429 says, the deadline read off it lies between half a minute and
    a day ahead, and a Retry-After in that range is honoured to the second when no
    usable reset header outranks it. *)
Theorem cooldown_deadline_bounds ParseFloat body_headers reset retry body now ty :
  0 <= time_Unix now <= i64_max - 86400 ->
  let until := ParseCooldownUntil ParseFloat body_headers reset retry body now ty in
  time_Unix now + 30 <= until <= time_Unix now + 86400 /\
  (forall secs, interpretResetValue ParseFloat reset now = None -> retry <> "" ->
     positive_seconds retry = Some secs -> 30 <= secs <= 86400 -> until = time_Unix now + secs).
Proof.
  intros Hnow until. subst until. split.
  - destruct (parse_is_clamped ParseFloat body_headers reset retry body now ty) as [u ->].
    rewrite clamp_eq. lia.
  - intros secs Hreset Hne Hsecs Hr. unfold ParseCooldownUntil. rewrite Hreset.
    replace (if String.eqb reset "" then None else None) with (@None Z) by (case_match; done).
    apply String.eqb_neq in Hne. rewrite Hne, Hsecs.
    unfold i64_add. rewrite wrap64_id by (unfold64; lia). rewrite clamp_eq. lia.
Qed.

Lemma cooldown_deadline_bounds_witness :
  ParseCooldownUntil (fun _ => None) (fun _ => None) "" " 90 " "" (time_of_unix 1700000000) 1 = 1700000090.
Proof.
  destruct (cooldown_deadline_bounds (fun _ => None) (fun _ => None) "" " 90 " "" (time_of_unix 1700000000) 1)
    as [_ H]; [vm_compute; split; discriminate|].
  rewrite (H 90); [reflexivity|reflexivity|discriminate|reflexivity|lia].
Defined.

(** ** Text of the slots *)

Lemma Itoa_lacks_colon n : lacks colon (Itoa n).
Proof. apply Itoa_lacks; vm_compute; [discriminate|by right]. Qed.

Lemma Split_member c k : Split (cooldown_member c k) colon = [Itoa c; Itoa k].
Proof.
  unfold cooldown_member. rewrite Split_app by apply Itoa_lacks_colon.
  by rewrite Split_lacks by apply Itoa_lacks_colon.
Qed.

(** The text a cooldown is shared under is exact: a key read back names the slot it
    was written for, and clearing a channel by its prefix removes the members of that
    channel and of no other, however the numbers start. *)
Theorem cooldown_key_roundtrip c k c' :
  in64 c -> in64 k -> in64 c' ->
  parseChannelCooldownKey (channelCooldownKey c k) = Some (c, k) /\
  (has_channel_prefix c' (cooldown_member c k) = true <-> c' = c).
Proof.
  intros Hc Hk Hc'. split.
  - unfold parseChannelCooldownKey, channelCooldownKey. rewrite TrimPrefix_app, Split_member.
    by rewrite !Atoi_Itoa.
  - unfold has_channel_prefix. rewrite HasPrefix_spec. split.
    + intros [q Hq]. apply (f_equal (fun s => Split s colon)) in Hq. rewrite Split_member in Hq.
      rewrite string_app_assoc in Hq. change (String colon EmptyString +:+ q) with (String colon q) in Hq.
      rewrite Split_app in Hq by apply Itoa_lacks_colon. injection Hq as Hq _. by apply Itoa_inj in Hq.
    + intros ->. exists (Itoa k). by rewrite string_app_assoc.
Qed.

Lemma cooldown_key_roundtrip_witness :
  channelCooldownKey 12 3 = "chan_cd:12:3" /\ parseChannelCooldownKey "chan_cd:12:3" = Some (12, 3) /\
  has_channel_prefix 1 "12:3" = false.
Proof.
  destruct (cooldown_key_roundtrip 12 3 1) as [H1 H2]; [unfold64; lia..|].
  split; [vm_compute; reflexivity|]. split; [exact H1|].
  destruct (has_channel_prefix 1 "12:3") eqn:E; [|reflexivity]. apply (proj1 H2) in E. discriminate E.
Defined.

(** ** Executions *)

Lemma run_invariant (P : event -> Prop) (I : system -> Prop) :
  (forall e y y', P e -> apply e y = Some y' -> I y -> I y') ->
  forall es y y', Forall P es -> run es y = Some y' -> I y -> I y'.
Proof.
  intros Hstep es. induction es as [|e es IH]; intros y y' HP Hr HI; cbn in Hr.
  - by simplify_eq.
  - apply Forall_cons in HP as [He HP]. apply bind_Some in Hr as (y1 & H1 & Hr). eauto.
Qed.

Definition free (ch : Z) (m : slots) : Prop := forall s, s.1 = ch -> m !! s = None.

Lemma free_empty ch : free ch ∅.
Proof. intros s _. apply lookup_empty. Qed.

Lemma free_filter ch (P : slot * Z -> Prop) `{!forall x, Decision (P x)} m :
  free ch m -> free ch (filter P m).
Proof. intros Hm s Hs. apply map_lookup_filter_None. left. auto. Qed.

Lemma free_insert ch s u m : s.1 <> ch -> free ch m -> free ch (<[s := u]> m).
Proof. intros Hs H k Hk. rewrite lookup_insert_ne by congruence. auto. Qed.

Lemma free_without ch m : free ch (without ch m).
Proof.
  intros s Hs. apply map_lookup_filter_None. right. intros x _ H. by apply H.
Qed.

Lemma free_clear_redis ch z : free ch (clear_redis ch z z).
Proof.
  intros s Hs. apply map_lookup_filter_None. right. intros x Hx H. apply H. cbn. eauto.
Qed.

Lemma free_unexpired ch now m : free ch m -> free ch (unexpired now m).
Proof. apply free_filter. Qed.

#[local] Hint Resolve free_unexpired free_empty free_filter free_insert free_without free_clear_redis : hub.

(** What a refresh in flight must satisfy not to bring channel [ch] back. *)
Definition harmless (ch : Z) (p : proc) (f : flight) : Prop :=
  match f_read f with
  | None => True
  | Some r => free ch r \/ f_gen f < default 0 (cooldownClearedGen p !! ch)
  end.

Definition lifted (ch : Z) (y : system) : Prop :=
  free ch (cooldownLocal (process y)) /\ free ch (cooldownRemote (process y)) /\ free ch (index y) /\
  default 0 (cooldownClearedGen (process y) !! ch) <= cooldownGen (process y) /\
  Forall (harmless ch (process y)) (flights y).

Lemma harmless_same ch p p' f :
  cooldownClearedGen p' = cooldownClearedGen p -> harmless ch p f -> harmless ch p' f.
Proof. unfold harmless. by intros ->. Qed.

Lemma stamp_gen ch c p :
  default 0 (cooldownClearedGen p !! ch) <= cooldownGen p ->
  default 0 (cooldownClearedGen p !! ch) <= default 0 (cooldownClearedGen (markCooldownCleared c p) !! ch)
    <= cooldownGen (markCooldownCleared c p).
Proof.
  intros H. unfold markCooldownCleared. cbn.
  destruct (decide (c = ch)) as [->|Hc].
  - rewrite lookup_insert_eq. cbn. lia.
  - rewrite lookup_insert_ne by done. lia.
Qed.

Lemma harmless_stamp ch c p f :
  default 0 (cooldownClearedGen p !! ch) <= cooldownGen p ->
  harmless ch p f -> harmless ch (markCooldownCleared c p) f.
Proof.
  intros H Hf. pose proof (stamp_gen ch c p H). unfold harmless in *.
  destruct (f_read f) as [r|]; [|done]. destruct Hf as [Hf|Hf]; [by left|right; lia].
Qed.

Lemma merge_free ch p f r :
  f_read f = Some r -> harmless ch p f -> free ch (cooldownRemote (refresh_merge (f_gen f) (f_now f) r p)).
Proof.
  intros Hr Hf s Hs. apply map_lookup_filter_None. unfold harmless in Hf. rewrite Hr in Hf.
  destruct Hf as [Hf|Hf]; [by left; apply Hf|right].
  intros x _ H. unfold survives in H. cbn in H. rewrite Hs in H. lia.
Qed.

Lemma Forall_delete {A} (P : A -> Prop) i l : Forall P l -> Forall P (delete i l).
Proof.
  intros H. rewrite delete_take_drop. apply Forall_app. split; [by apply Forall_take|by apply Forall_drop].
Qed.

Lemma Forall_weaken {A} (P Q : A -> Prop) l : (forall x, P x -> Q x) -> Forall P l -> Forall Q l.
Proof. intros H Hl. eapply Forall_impl; eauto. Qed.

Lemma lifted_step ch e y y' :
  (forall s, marked e = Some s -> s.1 <> ch) -> apply e y = Some y' -> lifted ch y -> lifted ch y'.
Proof.
  intros Hm Ha (Hl & Hr & Hz & Hg & Hf).
  destruct e; cbn in Ha, Hm;
    repeat match goal with
    | H : _ ≫= _ = Some _ |- _ => apply bind_Some in H as (? & ? & ?)
    | H : guard _ ≫= _ = Some _ |- _ => apply bind_Some in H as (? & ? & ?)
    end; simplify_eq/=; try specialize (Hm _ eq_refl).
  all: try (split_and!; cbn; eauto with hub; fail).
  - unfold refresh_begin in *. destruct x as [p' g]. repeat case_match; simplify_eq.
    split_and!; cbn; auto. constructor; [done|]. eapply Forall_weaken; [|done].
    intros f. by apply harmless_same.
  - split_and!; cbn; auto. apply Forall_insert; [done|]. left. cbn. by apply free_filter.
  - split_and!; cbn; auto. by apply Forall_delete.
  - pose proof (Forall_lookup_1 _ _ _ _ Hf H) as Hh.
    split_and!; [by apply free_filter|by eapply merge_free|done..|].
    apply Forall_delete. eapply Forall_weaken; [|done]. intros f. by apply harmless_same.
  - unfold mark_local in *. case_match; simplify_eq. split_and!; cbn; auto with hub.
  - unfold mark_synced. case_match; split_and!; cbn; auto with hub.
  - pose proof (stamp_gen ch channelID (process y) Hg) as [_ Hg']. split_and!; cbn; auto.
    eapply Forall_weaken; [|done]. intros f. by apply harmless_stamp.
Qed.

Lemma lifted_not_cooling ch y nowUnix k : lifted ch y -> coolingUntil nowUnix ch k (process y) = 0.
Proof.
  intros (Hl & Hr & _). unfold coolingUntil. rewrite (Hl (ch, k) eq_refl), (Hr (ch, k) eq_refl).
  cbn. by destruct (0 >? nowUnix).
Qed.

Lemma clear_lifts ch p z fs :
  default 0 (cooldownClearedGen p !! ch) <= cooldownGen p ->
  Forall (fun f => f_gen f <= cooldownGen p) fs ->
  let '(p', z') := ClearChannelCooldown (Some true) ch p z in lifted ch (mkSystem p' z' fs).
Proof.
  intros Hg Hf. cbn. split_and!; cbn; auto with hub.
  - rewrite lookup_insert_eq. cbn. lia.
  - eapply Forall_weaken; [|done]. cbn beta. intros f Hle. unfold harmless. case_match; [|done]. right. cbn.
    rewrite lookup_insert_eq. cbn. lia.
Qed.

(** A lifted cooldown stays lifted: once [ClearChannelCooldown] has gone through,
    Redis included, no refresh that was in flight meanwhile, no later refresh and no
    clear or mark of another channel brings a slot of the channel back. *)
Theorem lifted_cooldown_stays_lifted ch p z fs es y' :
  default 0 (cooldownClearedGen p !! ch) <= cooldownGen p ->
  Forall (fun f => f_gen f <= cooldownGen p) fs ->
  Forall (fun e => forall s, marked e = Some s -> s.1 <> ch) es ->
  let '(p', z') := ClearChannelCooldown (Some true) ch p z in
  run es (mkSystem p' z' fs) = Some y' ->
  forall nowUnix keyIdx, coolingUntil nowUnix ch keyIdx (process y') = 0.
Proof.
  intros Hg Hf Hes. pose proof (clear_lifts ch p z fs Hg Hf) as Hc.
  destruct (ClearChannelCooldown _ _ _ _) as [p' z']. intros Hr nowUnix k.
  apply lifted_not_cooling. eapply (run_invariant _ (lifted ch)); eauto. intros e y1 y2. apply lifted_step.
Qed.

(** A refresh read the slot before the clear and merges after it. *)
Lemma lifted_cooldown_stays_lifted_witness :
  let s := (7, 0) in
  let now := time_of_unix 1000 in
  let p := mkProc {[s := 1060]} ∅ {[s := now]} now 4 ∅ in
  let f := mkFlight 4 now (Some {[s := 1060]}) in
  let '(p', z') := ClearChannelCooldown (Some true) 7 p {[s := 1060]} in
  coolingUntil 1010 7 0 p = 1060 /\
  exists y', run [EMerge 0; EBegin (time_of_unix 1005); ERead 0; EMerge 0] (mkSystem p' z' [f]) = Some y' /\
    coolingUntil 1010 7 0 (process y') = 0.
Proof.
  cbn zeta. destruct (ClearChannelCooldown _ _ _ _) as [p' z'] eqn:Hc. split; [reflexivity|].
  destruct (run [EMerge 0; EBegin (time_of_unix 1005); ERead 0; EMerge 0]
              (mkSystem p' z' [mkFlight 4 (time_of_unix 1000) (Some {[(7, 0) := 1060]})])) as [y'|] eqn:Hr.
  - exists y'. split; [reflexivity|].
    pose proof (lifted_cooldown_stays_lifted 7
      (mkProc {[(7, 0) := 1060]} ∅ {[(7, 0) := time_of_unix 1000]} (time_of_unix 1000) 4 ∅) {[(7, 0) := 1060]}
      [mkFlight 4 (time_of_unix 1000) (Some {[(7, 0) := 1060]})]
      [EMerge 0; EBegin (time_of_unix 1005); ERead 0; EMerge 0] y') as Ht.
    rewrite Hc in Ht. apply Ht.
    + vm_compute. discriminate.
    + apply Forall_singleton. cbn. lia.
    + repeat constructor; cbn; discriminate.
    + exact Hr.
  - exfalso. injection Hc as <- <-. vm_compute in Hr. discriminate Hr.
Defined.

(** The generation stamps do not cover the Redis leg of a clear: a refresh that
    starts after the first stamp reads the slot that is still in the sorted set, and
    when it merges before the last stamp the lifted cooldown is back in the snapshot
    after the clear has finished. *)
Theorem clear_race_resurrects ch k u now p p' g z :
  z !! (ch, k) = Some u -> time_Unix now < u ->
  refresh_begin now (clear_local ch (markCooldownCleared ch p)) = Some (p', g) ->
  forall nowUnix, nowUnix < u -> 0 < u ->
  exists y', run [EStamp ch; EClearLocal ch; EBegin now; ERead 0; EMerge 0; EClearRedis ch z; EStamp ch]
               (mkSystem p z []) = Some y' /\
    index y' !! (ch, k) = None /\ coolingUntil nowUnix ch k (process y') = u.
Proof.
  intros Hz Hnow Hb nowUnix Hu Hpos. cbn. rewrite Hb. cbn. eexists. split; [reflexivity|].
  assert (Hg : g = cooldownGen p + 1 /\ cooldownLocal p' = without ch (cooldownLocal p) /\
               cooldownClearedGen p' = <[ch := cooldownGen p + 1]> (cooldownClearedGen p)).
  { unfold refresh_begin in Hb. case_match; simplify_eq. done. }
  destruct Hg as (-> & Hl & Hc). cbn. split; [by apply free_clear_redis|].
  unfold coolingUntil. cbn. rewrite Hl.
  rewrite (map_lookup_filter_None_2 _ (without ch (cooldownLocal p)))
    by (left; by apply free_without).
  rewrite (map_lookup_filter_Some_2 _ _ _ u).
  - cbn. repeat case_match; lia.
  - apply map_lookup_filter_Some_2; done.
  - unfold survives. cbn. rewrite Hc, lookup_insert_eq. cbn. lia.
Qed.

Lemma clear_race_resurrects_witness :
  exists y', run [EStamp 7; EClearLocal 7; EBegin (time_of_unix 1000); ERead 0; EMerge 0;
                  EClearRedis 7 {[(7, 0) := 1060]}; EStamp 7] (mkSystem start {[(7, 0) := 1060]} []) = Some y' /\
    index y' !! (7, 0) = None /\ coolingUntil 1010 7 0 (process y') = 1060.
Proof.
  eapply (clear_race_resurrects 7 0 1060 (time_of_unix 1000) start);
    [reflexivity|reflexivity|reflexivity|lia|lia].
Defined.

(** ** A cooldown is honoured *)

(** Nobody lifts or re-marks slot [s], and every clock involved reads less than [u]. *)
Definition leaves (s : slot) (u : Z) (e : event) : Prop :=
  match e with
  | EBegin now => time_Unix now < u
  | EMarkLocal s' _ now | EMarkRedis s' _ now => s' <> s /\ time_Unix now < u
  | EMarkSynced s' _ _ => s' <> s
  | EStamp c | EClearLocal c | EClearRedis c _ => c <> s.1
  | EReset => False
  | ERead _ | EFail _ | EMerge _ => True
  end.

(** A refresh in flight started no later than the mark, or will see the slot. *)
Definition sees (s : slot) (u w : Z) (p : proc) (f : flight) : Prop :=
  f_now f <= w \/
  (default 0 (cooldownClearedGen p !! s.1) <= f_gen f /\ time_Unix (f_now f) < u /\
   match f_read f with None => True | Some r => r !! s = Some u end).

Definition held (s : slot) (u w : Z) (y : system) : Prop :=
  cooldownLocal (process y) !! s = Some u /\ cooldownSynced (process y) !! s = Some w /\
  index y !! s = Some u /\
  default 0 (cooldownClearedGen (process y) !! s.1) <= cooldownGen (process y) /\
  Forall (sees s u w (process y)) (flights y).

Lemma lookup_kept (P : slot * Z -> Prop) `{!forall x, Decision (P x)} (m : slots) s u :
  P (s, u) -> m !! s = Some u -> filter P m !! s = Some u.
Proof. intros HP Hm. by apply map_lookup_filter_Some_2. Qed.

Lemma sees_same s u w p p' f :
  cooldownClearedGen p' !! s.1 = cooldownClearedGen p !! s.1 -> sees s u w p f -> sees s u w p' f.
Proof. unfold sees. by intros ->. Qed.

Lemma sees_not_stale s u w p f r :
  f_read f = Some r -> sees s u w p f -> cooldownSynced p !! s = Some w -> cooldownLocal p !! s = Some u ->
  stale (f_now f) (filter (fun kv => survives (f_gen f) p kv.1 = true) r) p s = false.
Proof.
  intros Hr Hs Hw Hl. unfold stale. rewrite Hw, Hl. cbn.
  destruct Hs as [Hs|(Hg & _ & Hs)]; [by destruct (Z.ltb_spec w (f_now f)); [lia|]|].
  rewrite Hr in Hs. rewrite (lookup_kept _ r s u); [cbn; by rewrite Z.ltb_irrefl, andb_false_r| |done].
  unfold survives. cbn. apply negb_true_iff. lia.
Qed.

Lemma held_step s u w e y y' : leaves s u e -> apply e y = Some y' -> held s u w y -> held s u w y'.
Proof.
  intros Hq Ha (Hl & Hw & Hz & Hg & Hf).
  assert (Hsame : forall p', cooldownClearedGen p' !! s.1 = cooldownClearedGen (process y) !! s.1 ->
                  Forall (sees s u w p') (flights y)).
  { intros p' Hp. eapply Forall_weaken; [|done]. intros f. by apply sees_same. }
  destruct e; cbn in Ha, Hq;
    repeat match goal with
    | H : _ ≫= _ = Some _ |- _ => apply bind_Some in H as (? & ? & ?)
    end; simplify_eq/=.
  - unfold refresh_begin in *. destruct x as [p' g]. case_match; simplify_eq.
    split_and!; cbn; auto. constructor; [|by apply Hsame]. right. cbn. auto.
  - split_and!; cbn; auto. apply Forall_insert; [done|].
    pose proof (Forall_lookup_1 _ _ _ _ Hf H) as [Hs|(Hs & Ht & _)]; [by left|right].
    split_and!; [done..|]. cbn. by apply lookup_kept.
  - split_and!; cbn; auto. by apply Forall_delete.
  - pose proof (Forall_lookup_1 _ _ _ _ Hf H) as Hs.
    pose proof (sees_not_stale _ _ _ _ _ _ H0 Hs Hw Hl) as Hstale.
    split_and!; cbn; auto; [by apply lookup_kept|by apply lookup_kept|].
    apply Forall_delete. by apply Hsame.
  - unfold mark_local in *. case_match; simplify_eq. destruct Hq as [Hq Ht].
    split_and!; cbn; [|by rewrite lookup_delete_ne|done..|by apply Hsame].
    rewrite lookup_insert_ne by done. by apply lookup_kept.
  - destruct Hq as [Hq Ht]. split_and!; cbn; auto. apply lookup_kept; [done|].
    by rewrite lookup_insert_ne.
  - unfold mark_synced. case_match; [|by split_and!]. split_and!; cbn; auto. by rewrite lookup_insert_ne.
  - assert (Hcg : cooldownClearedGen (markCooldownCleared channelID (process y)) !! s.1 =
                  cooldownClearedGen (process y) !! s.1) by (cbn; by rewrite lookup_insert_ne).
    split_and!; cbn; auto. rewrite lookup_insert_ne by done. lia.
  - split_and!; cbn; auto; apply lookup_kept; cbn; try congruence; intros [? _]; congruence.
  - split_and!; cbn; auto. apply lookup_kept; [|done]. cbn. intros [? _]. congruence.
  - done.
Qed.

Lemma held_cooling ch k u w y nowUnix :
  held (ch, k) u w y -> nowUnix < u -> u <= coolingUntil nowUnix ch k (process y).
Proof.
  intros (Hl & _) Hn. unfold coolingUntil. rewrite Hl. cbn. repeat case_match; lia.
Qed.

Lemma unix_before until now : 0 < time_Sub (time_of_unix until) now -> time_Unix now < until.
Proof.
  unfold time_Sub, sat64, time_Unix, time_of_unix, second. unfold64. intros H.
  assert (now < (until + unix_offset) * 1000000000) by lia.
  assert (now / 1000000000 < until + unix_offset) by (apply Z.div_lt_upper_bound; lia). lia.
Qed.

Lemma mark_holds ch k until now p z fs :
  0 < time_Sub (time_of_unix until) now ->
  default 0 (cooldownClearedGen p !! ch) <= cooldownGen p ->
  Forall (fun f => f_now f <= now) fs ->
  let '(p', z') := MarkChannelCooldown (Some true) ch k until now p z in
  held (ch, k) until now (mkSystem p' z' fs).
Proof.
  intros Hu Hg Hf. pose proof (unix_before _ _ Hu). unfold MarkChannelCooldown, mark_local.
  destruct (Z.leb_spec (time_Sub (time_of_unix until) now) 0); [lia|].
  unfold mark_synced. cbn. rewrite lookup_insert_eq. cbn. rewrite Z.eqb_refl.
  split_and!; cbn; auto; rewrite ?lookup_insert_eq; auto.
  - apply lookup_kept; [done|]. apply lookup_insert_eq.
  - eapply Forall_weaken; [|done]. intros f ?. by left.
Qed.

(** C31. A cooldown is honoured to its deadline: once [MarkChannelCooldown], run as one
    step, has written the slot to Redis, it reads as cooling at least until the deadline
    at every moment before it, whatever refreshes, marks of other slots and clears of
    other channels happen, in this process or in another; the refreshes in flight at the
    mark had begun no later than its reading of the clock. ([mark_race_drops] is a mark
    that a refresh begun later overtakes.) *)
Theorem marked_cooldown_holds ch k until now p z fs es y' :
  0 < time_Sub (time_of_unix until) now ->
  default 0 (cooldownClearedGen p !! ch) <= cooldownGen p ->
  Forall (fun f => f_now f <= now) fs ->
  Forall (leaves (ch, k) until) es ->
  let '(p', z') := MarkChannelCooldown (Some true) ch k until now p z in
  run es (mkSystem p' z' fs) = Some y' ->
  forall nowUnix, nowUnix < until -> until <= coolingUntil nowUnix ch k (process y').
Proof.
  intros Hu Hg Hf Hes. pose proof (mark_holds ch k until now p z fs Hu Hg Hf) as Hm.
  destruct (MarkChannelCooldown _ _ _ _ _ _ _) as [p' z']. intros Hr nowUnix Hn.
  eapply held_cooling; [|done].
  eapply (run_invariant _ (held (ch, k) until now)); eauto. intros e y1 y2. apply held_step.
Qed.

(** A refresh that started before the mark merges after it; another one follows. *)
Lemma marked_cooldown_holds_witness :
  let now := time_of_unix 1000 in
  let f := mkFlight 0 now (Some ∅) in
  let '(p', z') := MarkChannelCooldown (Some true) 7 0 1060 now start ∅ in
  exists y', run [EMerge 0; EStamp 8; EBegin (time_of_unix 1005); ERead 0; EMerge 0] (mkSystem p' z' [f]) = Some y' /\
    1060 <= coolingUntil 1010 7 0 (process y').
Proof.
  cbn zeta. destruct (MarkChannelCooldown _ _ _ _ _ _ _) as [p' z'] eqn:Hc.
  destruct (run [EMerge 0; EStamp 8; EBegin (time_of_unix 1005); ERead 0; EMerge 0]
              (mkSystem p' z' [mkFlight 0 (time_of_unix 1000) (Some ∅)])) as [y'|] eqn:Hr.
  - exists y'. split; [reflexivity|].
    pose proof (marked_cooldown_holds 7 0 1060 (time_of_unix 1000) start ∅
      [mkFlight 0 (time_of_unix 1000) (Some ∅)]
      [EMerge 0; EStamp 8; EBegin (time_of_unix 1005); ERead 0; EMerge 0] y') as Ht.
    rewrite Hc in Ht. apply Ht.
    + reflexivity.
    + vm_compute. discriminate.
    + apply Forall_singleton. cbn. lia.
    + repeat constructor. cbn. lia.
    + exact Hr.
    + lia.
  - exfalso. injection Hc as <- <-. vm_compute in Hr. discriminate Hr.
Defined.

(** A local entry carries the time its mark began as the time it was written to
    Redis, so a refresh that begins after that time but reads before the write
    lands takes the entry for one lifted elsewhere: merging after the write, it drops a
    cooldown that Redis holds. *)
Theorem mark_race_drops ch k until t0 t1 p p' z g :
  0 < time_Sub (time_of_unix until) t0 -> t0 < t1 -> z !! (ch, k) = None -> 0 < until ->
  (p1 ← mark_local (ch, k) until t0 p; refresh_begin t1 p1) = Some (p', g) ->
  exists y', run [EMarkLocal (ch, k) until t0; EBegin t1; ERead 0; EMarkRedis (ch, k) until t0;
                  EMarkSynced (ch, k) until t0; EMerge 0] (mkSystem p z []) = Some y' /\
    index y' !! (ch, k) = Some until /\
    forall nowUnix, coolingUntil nowUnix ch k (process y') = 0.
Proof.
  intros Hu Ht Hz Hpos Hb. apply bind_Some in Hb as (p1 & Hm & Hb). cbn. rewrite Hm. cbn. rewrite Hb. cbn.
  eexists. split; [reflexivity|]. cbn. split.
  { apply lookup_kept; [by apply unix_before|]. apply lookup_insert_eq. }
  intros nowUnix.
  assert (Hl : cooldownLocal p' !! (ch, k) = Some until).
  { unfold mark_local in Hm. unfold refresh_begin in Hb. repeat case_match; simplify_eq. apply lookup_insert_eq. }
  unfold mark_synced. rewrite Hl. cbn. rewrite Z.eqb_refl. unfold coolingUntil. cbn.
  assert (Hsnap : forall (P : slot * Z -> Prop) (D : forall x, Decision (P x)),
            filter P (refresh_read t1 z) !! (ch, k) = None).
  { intros P D. apply map_lookup_filter_None. left. apply map_lookup_filter_None. by left. }
  rewrite Hsnap. cbn.
  rewrite (map_lookup_filter_None_2 _ (cooldownLocal p')).
  - cbn. by destruct (0 >? nowUnix).
  - right. intros x Hx. cbn. unfold stale. cbn. rewrite lookup_insert_eq, Hl, Hsnap. cbn.
    destruct (Z.ltb_spec t0 t1); [|lia]. destruct (Z.ltb_spec 0 until); [done|lia].
Qed.

Lemma mark_race_drops_witness :
  exists y', run [EMarkLocal (7, 0) 1060 (time_of_unix 1000); EBegin (time_of_unix 1000 + 1); ERead 0;
                  EMarkRedis (7, 0) 1060 (time_of_unix 1000); EMarkSynced (7, 0) 1060 (time_of_unix 1000); EMerge 0]
               (mkSystem start ∅ []) = Some y' /\
    index y' !! (7, 0) = Some 1060 /\ forall nowUnix, coolingUntil nowUnix 7 0 (process y') = 0.
Proof.
  eapply (mark_race_drops 7 0 1060 (time_of_unix 1000) (time_of_unix 1000 + 1) start);
    [reflexivity|lia|reflexivity|lia|reflexivity].
Defined.

End CooldownFacts.
