(* ===== verification/ChannelSelect.v ===== *)
(** * Channel selection for a request

    Model of internal/app/channel_select.go, channel_modality.go, the predicates of
    channel_cooldown.go, internal/pkg/capability/capability.go and
    [EarliestMultiKeyRecovery] of internal/adapter/repo/channel_pool.go: one
    selection of a channel under the modality, provider-filter, used-channel and
    cooldown predicates, with its soft exclusion of used channels and its walk over
    the auto groups.

    The repo is behind the class [Repo]: which channels a selection consults its
    predicate on, and what it answers; the routing table and the abilities table are
    its two instances.  A predicate that counts into a probe is a function of the
    channel and the probe; the selection takes its verdict, and the probe is folded
    over the channels consulted.  One selection reads the cooldown store at one
    moment.  The draws of [rand] are an argument, as are the provider filter, the
    administrator's modality override and the session pin. *)

From S2P Require Import Prelude GoStrings ChannelKeys SmartRouting ChannelCache ChannelCooldown.

Module Capability.
Import GoStrings.

Inductive Modality := Chat | Embedding | Rerank | Decision | Image | Audio.
#[global] Instance Modality_eq_dec : EqDecision Modality.
Proof. solve_decision. Defined.

Definition Valid (s : string) : option Modality :=
  if String.eqb s "chat" then Some Chat
  else if String.eqb s "embedding" then Some Embedding
  else if String.eqb s "rerank" then Some Rerank
  else if String.eqb s "decision" then Some Decision
  else if String.eqb s "image" then Some Image
  else if String.eqb s "audio" then Some Audio
  else None.

Inductive Source := SourceOverride | SourceChannelType | SourceName | SourceTable | SourceDefault.
#[global] Instance Source_eq_dec : EqDecision Source.
Proof. solve_decision. Defined.

Record Inference := mkInference { i_Modality : Modality; i_Source : Source }.

Definition nameRules : list (Modality * list string) :=
  [(Rerank, ["rerank"]);
   (Embedding, ["embed"; "bge"; "gte"; "e5-"; "voyage"; "sentence"]);
   (Audio, ["tts"; "whisper"; "audio"; "transcribe"]);
   (Image, ["dall-e"; "image"; "flux"])].

Definition InferFromName (modelName : string) : option Modality :=
  fst <$> first_where (fun rule => existsb (Contains (ToLower modelName)) rule.2) nameRules.

Definition ChannelTypeMidjourney : Z := 2.
Definition ChannelTypeMidjourneyPlus : Z := 5.
Definition ChannelTypeJina : Z := 38.
Definition ChannelTypeTypeSafe : Z := 57.
Definition ChannelTypeSystemOneCompatible : Z := 58.

Definition typeOnlyModality (channelType : Z) : option Modality :=
  if (channelType =? ChannelTypeMidjourney) || (channelType =? ChannelTypeMidjourneyPlus) then Some Image
  else if channelType =? ChannelTypeJina then Some Embedding
  else None.

Definition Infer (override : string) (channelType : Z) (modelName : string) : Inference :=
  match Valid override with
  | Some m => mkInference m SourceOverride
  | None =>
      if (channelType =? ChannelTypeTypeSafe) || (channelType =? ChannelTypeSystemOneCompatible)
      then mkInference Decision SourceChannelType
      else if (channelType =? ChannelTypeJina) && Contains (ToLower modelName) "rerank"
      then mkInference Rerank SourceChannelType
      else match InferFromName modelName with
      | Some m => mkInference m SourceName
      | None => match typeOnlyModality channelType with
                | Some m => mkInference m SourceTable
                | None => mkInference Chat SourceDefault
                end
      end
  end.

Definition Compatible (required : Modality) (got : Inference) : bool :=
  if decide (i_Source got = SourceDefault) then true
  else match required with
  | Chat => match i_Modality got with Chat | Audio | Image => true | _ => false end
  | _ => bool_decide (i_Modality got = required)
  end.

(** Anthropic, Gemini, VertexAi, DeepSeek, Aws, Baidu, Dify, MiniMax, Mistral,
    MokaAI, Ollama, PaLM, Perplexity, Tencent, VolcEngine, Xai, Xunfei, Zhipu,
    Zhipu_v4, TypeSafe, SystemOneCompatible, BaiduV2, Coze, Midjourney,
    MidjourneyPlus, SunoAPI, Kling, Jimeng, Vidu, DoubaoVideo, Sora. *)
Definition unsupportedRerank : list Z :=
  [14; 24; 41; 43; 33; 15; 37; 35; 42; 44; 4; 11; 27; 23; 45; 48; 18; 16; 26;
   ChannelTypeTypeSafe; ChannelTypeSystemOneCompatible; 46; 49; ChannelTypeMidjourney;
   ChannelTypeMidjourneyPlus; 36; 50; 51; 52; 54; 55].

Definition SupportsRerank (channelType : Z) : bool := negb (existsb (Z.eqb channelType) unsupportedRerank).

Definition AdapterSupports (channelType : Z) (m : Modality) : bool :=
  match m with Rerank => SupportsRerank channelType | _ => true end.

Inductive filter_mode := FilterOff | FilterObserve | FilterEnforce.

(** [env] is the value of ROUTING_MODALITY_FILTER. *)
Definition FilterMode (env : string) : filter_mode :=
  if String.eqb env "enforce" then FilterEnforce
  else if String.eqb env "off" then FilterOff
  else FilterObserve.

(** The ordinals of the relay modes that carry a requirement: chat completions,
    completions, edits, responses, responses/compact and realtime; embeddings;
    rerank; systemone; image generations and edits; speech, transcription and
    translation. *)
Definition RequiredModalityForRelayMode (mode : Z) : option Modality :=
  if existsb (Z.eqb mode) [1; 2; 7; 35; 38; 36] then Some Chat
  else if mode =? 3 then Some Embedding
  else if mode =? 34 then Some Rerank
  else if mode =? 41 then Some Decision
  else if existsb (Z.eqb mode) [5; 6] then Some Image
  else if existsb (Z.eqb mode) [24; 25; 26] then Some Audio
  else None.
End Capability.

Module ChannelSelect.
Import GoStrings ChannelKeys SmartRouting ChannelCache ChannelCooldown Capability.

(** ** Predicates that count *)

Record cooldownProbe := mkCProbe { rejected : Z; earliest : Z }.

Definition note (until : Z) (p : cooldownProbe) : cooldownProbe :=
  mkCProbe (rejected p + 1)
    (if (earliest p =? 0) || (until <? earliest p) then until else earliest p).

Record modalityProbe := mkMProbe { passed : Z; mismatched : Z; adapterUnsupported : Z }.

Record probes := mkProbes { cprobe : cooldownProbe; mprobe : modalityProbe }.

Definition no_probes : probes := mkProbes (mkCProbe 0 0) (mkMProbe 0 0 0).

Definition on_mprobe (f : modalityProbe -> modalityProbe) (p : probes) : probes :=
  mkProbes (cprobe p) (f (mprobe p)).

Definition counting : Type := Channel -> probes -> bool * probes.

Definition plain (pred : pred_t) : counting := fun c p => (pred c, p).

(** The cooldown store as a selection reads it. *)
Record cooldown_view := mkView { v_now : Z; v_store : proc }.

Definition cooling (v : cooldown_view) (id : Z) : Z := coolingUntil (v_now v) id 0 (v_store v).

Definition cooldownPredicate (v : cooldown_view) : option counting :=
  if anyCooldownActive (v_now v) (v_store v) then
    Some (fun c p =>
      let until := cooling v (Id c) in
      if until >? 0 then (false, mkProbes (note until (cprobe p)) (mprobe p)) else (true, p))
  else None.

Definition usedChannelPredicate (used : list Z) : option counting :=
  match used with
  | [] => None
  | _ => Some (plain (fun c => negb (existsb (Z.eqb (Id c)) used)))
  end.

(** What a request asks of a route: the filter mode, its relay mode, and the
    administrator's override for its model; [None] is a nil context or no model. *)
Record modality_request := mkModReq { mr_mode : filter_mode; mr_relay : Z; mr_override : string; mr_model : string }.

Definition modalityPredicate (q : option modality_request) : option counting :=
  match q with
  | None => None
  | Some q =>
      match mr_mode q, RequiredModalityForRelayMode (mr_relay q) with
      | FilterOff, _ | _, None => None
      | mode, Some required =>
          Some (fun c p =>
            let adapterOK := AdapterSupports (Type_ c) required in
            if adapterOK && Compatible required (Infer (mr_override q) (Type_ c) (mr_model q))
            then (true, on_mprobe (fun m => mkMProbe (passed m + 1) (mismatched m) (adapterUnsupported m)) p)
            else
              let p1 := on_mprobe (fun m => if adapterOK
                                            then mkMProbe (passed m) (mismatched m + 1) (adapterUnsupported m)
                                            else mkMProbe (passed m) (mismatched m) (adapterUnsupported m + 1)) p in
              match mode with
              | FilterEnforce => (false, p1)
              | _ => (true, on_mprobe (fun m => mkMProbe (passed m + 1) (mismatched m) (adapterUnsupported m)) p1)
              end)
      end
  end.

Fixpoint all_of (live : list counting) (c : Channel) (p : probes) : bool * probes :=
  match live with
  | [] => (true, p)
  | f :: rest => let '(ok, p1) := f c p in if ok then all_of rest c p1 else (false, p1)
  end.

Definition andChannelPredicates (preds : list (option counting)) : option counting :=
  match omap id preds with
  | [] => None
  | [f] => Some f
  | live => Some (all_of live)
  end.

(** ** The repo behind a selection *)

Class Repo := mkRepo {
  (** The channels the predicate is consulted on, in order. *)
  consulted : string -> string -> string -> list Channel;
  (** [GetRandomSatisfiedChannelWhere] on a random number. *)
  find : Z -> string -> string -> string -> nat -> option pred_t -> result select_err (option Channel);
  (** The channels [EarliestMultiKeyRecovery] collects from. *)
  recoverable : list Channel
}.

Definition consulted_ids (t : table) (tenantID group model : string) : list Z :=
  let exact := routed t group model in
  let ids := match exact with [] => routed t group (FormatMatchingModelName model) | _ => exact end in
  filterChannelsForTenant t ids tenantID.

Definition cached_repo (t : table) (h : option ChannelScorer) : Repo := {|
  consulted := fun tenantID group model => omap (fun i => channelsIDM t !! i) (consulted_ids t tenantID group model);
  find := fun r tenantID group model retry pred =>
            GetRandomSatisfiedChannelWhere true t h [] [] r tenantID group model retry pred;
  recoverable := (map_to_list (channelsIDM t)).*2
|}.

(** The rows the recovery query returns are the auto-disabled multi-key ones. *)
Definition db_repo (t : table) (rows : list Channel) (abilities : list Ability) : Repo := {|
  consulted := fun tenantID group model =>
    omap (fun a => by_id rows (a_ChannelId a)) (merge_sort heavier (abilities_for rows abilities group model tenantID));
  find := fun r tenantID group model retry pred =>
            GetRandomSatisfiedChannelWhere false t None rows abilities r tenantID group model retry pred;
  recoverable := List.filter (fun c => (Status c =? ChannelStatusAutoDisabled) && IsMultiKey (Info c)) rows
|}.

(** ** Recovery of exhausted multi-key channels *)

Definition channelServes (c : Channel) (group model normalized : string) : bool :=
  existsb (String.eqb group) (GetGroups c) &&
  existsb (fun m => String.eqb m model || String.eqb m normalized) (GetModels c).

(** The earliest deadline of a channel whose every key carries one, 0 otherwise. *)
Definition earliest_key (c : Channel) : Z :=
  let cd := MultiKeyCooldownUntil (Info c) in
  if (Status c =? ChannelStatusAutoDisabled) && IsMultiKey (Info c) && (MultiKeySize (Info c) >? 0) &&
     (Z.of_nat (size cd) >=? MultiKeySize (Info c))
  then fold_left (fun e u => if (e =? 0) || (u <? e) then u else e) (map_to_list cd).*2 0
  else 0.

Fixpoint min_deadline (now : Z) (ds : list Z) (best : option Z) : option Z :=
  match ds with
  | [] => best
  | d :: rest =>
      if d <=? 0 then min_deadline now rest best
      else
        let d' := if d <=? now then now + 1 else d in
        min_deadline now rest (match best with
                               | None => Some d'
                               | Some b => Some (if d' <? b then d' else b)
                               end)
  end.

Definition EarliestMultiKeyRecovery {R : Repo} (now : Z) (tenantID group model : string) (pred : option pred_t)
    : option Z :=
  let normalized := FormatMatchingModelName model in
  let collect c :=
    (String.eqb tenantID "" || visible tenantID c) && channelServes c group model normalized &&
    match pred with None => true | Some p => p c end in
  min_deadline now (earliest_key <$> List.filter collect recoverable) None.

(** ** One selection *)

Inductive sel_err :=
| SelRepo (e : select_err)
| SelCooling (RetryAfterUnix : Z)
| SelModality (Required : Modality) (Mismatched AdapterUnsupported : Z)
| SelAutoOff.

Definition is_filter_miss (e : sel_err) : bool :=
  match e with SelRepo ErrNoChannelSatisfiesPredicate => true | _ => false end.

Definition is_cooling (e : sel_err) : bool := match e with SelCooling _ => true | _ => false end.

Definition classifySelectionMiss (e : sel_err) (p : cooldownProbe) : sel_err :=
  if is_filter_miss e && (rejected p >? 0) then SelCooling (earliest p) else e.

Definition classifyModalityMiss (q : option modality_request) (e : sel_err) (p : modalityProbe) : sel_err :=
  if negb (is_filter_miss e) || (passed p >? 0) || (mismatched p + adapterUnsupported p =? 0) then e
  else match q ≫= (fun q => RequiredModalityForRelayMode (mr_relay q)) with
  | Some m => SelModality m (mismatched p) (adapterUnsupported p)
  | None => e
  end.

(** What a request brings to every selection made for it. *)
Record request := mkRequest {
  TenantID : string;
  ModelName : string;
  TokenGroup : string;
  modality : option modality_request;
  filterPred : option pred_t;
  used : list Z;                      (* the channels it has been through *)
  view : cooldown_view;
  timestamp : Z
}.

Definition verdict (f : counting) : pred_t := fun c => (f c no_probes).1.

Definition probe_over (pred : option counting) (cs : list Channel) : probes :=
  match pred with
  | None => no_probes
  | Some f => fold_left (fun p c => (f c p).2) cs no_probes
  end.

Definition selection_pred (q : request) (excludeUsed : bool) : option counting :=
  andChannelPredicates
    [modalityPredicate (modality q); plain <$> filterPred q;
     if excludeUsed then usedChannelPredicate (used q) else None; cooldownPredicate (view q)].

Definition selectChannelOnce {R : Repo} (q : request) (r : Z) (group : string) (retry : nat) (excludeUsed : bool)
    : result sel_err (option Channel) :=
  let retry := if excludeUsed && negb (bool_decide (used q = [])) then O else retry in
  let pred := selection_pred q excludeUsed in
  match find r (TenantID q) group (ModelName q) retry (verdict <$> pred) with
  | Ok (Some c) => Ok (Some c)
  | Ok None =>
      match EarliestMultiKeyRecovery (timestamp q) (TenantID q) group (ModelName q) (filterPred q) with
      | Some until => Err (SelCooling until)
      | None => Ok None
      end
  | Err e =>
      let p := probe_over pred (consulted (TenantID q) group (ModelName q)) in
      Err (classifyModalityMiss (modality q) (classifySelectionMiss (SelRepo e) (cprobe p)) (mprobe p))
  end.

(** [rnd true] and [rnd false] are the draws of the two tries. *)
Definition selectChannelWhere {R : Repo} (q : request) (rnd : bool -> Z) (group : string) (retry : nat)
    : result sel_err (option Channel) :=
  let first := selectChannelOnce q (rnd true) group retry true in
  match first with
  | Err e =>
      if negb (bool_decide (used q = [])) && (is_filter_miss e || is_cooling e) then
        match selectChannelOnce q (rnd false) group retry false with
        | Ok None => first
        | second => second
        end
      else first
  | _ => first
  end.

(** ** The walk over the auto groups *)

(** What the request context and the retry parameter keep between selections:
    [AutoGroupIndex], the retry counter and its pending reset, the group chosen. *)
Record param_state := mkProgress {
  AutoGroupIndex : option nat;
  Retry : nat;
  resetNextTry : bool;
  selectGroup : string
}.

Definition IncreaseRetry (p : param_state) : param_state :=
  if resetNextTry p then mkProgress (AutoGroupIndex p) (Retry p) false (selectGroup p)
  else mkProgress (AutoGroupIndex p) (S (Retry p)) false (selectGroup p).

Record misses := mkMisses { filterMiss : bool; modalityErr : option sel_err; coolingErr : option Z }.

Definition no_misses : misses := mkMisses false None None.

Definition add_miss (a : result sel_err (option Channel)) (m : misses) : misses :=
  match a with
  | Ok _ => m
  | Err e =>
      mkMisses (filterMiss m || is_filter_miss e)
        (match modalityErr m, e with None, SelModality _ _ _ => Some e | _, _ => modalityErr m end)
        (match e with
         | SelCooling u => match coolingErr m with
                           | Some b => Some (if u <? b then u else b)
                           | None => Some u
                           end
         | _ => coolingErr m
         end)
  end.

Record walk_config := mkConfig { RetryTimes : Z; crossGroupRetry : bool }.

(** [runGroups], from group number [i] of the walk that began at [start]. *)
Fixpoint runGroups {R : Repo} (q : request) (k : walk_config) (rnd : bool -> nat -> bool -> Z) (strict : bool)
    (start i : nat) (groups : list string) (p : param_state) (m : misses) : option Channel * param_state * misses :=
  match groups with
  | [] => (None, p, m)
  | g :: rest =>
      let priorityRetry := if (start <? i)%nat then O else Retry p in
      let answer := if strict then selectChannelOnce q (rnd true i true) g priorityRetry true
                    else selectChannelWhere q (rnd false i) g priorityRetry in
      match answer with
      | Ok (Some c) =>
          (Some c,
           if crossGroupRetry k && (Z.of_nat priorityRetry >=? RetryTimes k)
           then mkProgress (Some (S i)) O true g
           else mkProgress (Some i) (Retry p) (resetNextTry p) g, m)
      | _ =>
          runGroups q k rnd strict start (S i) rest
            (mkProgress (Some (S i)) O (resetNextTry p) (selectGroup p)) (add_miss answer m)
      end
  end.

(** [CacheGetRandomSatisfiedChannel]: [pin] is the channel of a live session binding
    and its group, [autoOff] that no auto group is configured, [autoGroups] the
    caller's. *)
Definition CacheGetRandomSatisfiedChannel {R : Repo} (q : request) (k : walk_config)
    (rnd : bool -> nat -> bool -> Z) (pin : option (Channel * string)) (autoOff : bool)
    (autoGroups : list string) (p : param_state) : result sel_err (option Channel) * param_state :=
  let p := mkProgress (AutoGroupIndex p) (Retry p) (resetNextTry p) (TokenGroup q) in
  let pred := andChannelPredicates
                [modalityPredicate (modality q); plain <$> filterPred q; cooldownPredicate (view q)] in
  let pinned := match pin with
                | Some (c, g) => if (Retry p =? 0)%nat && match pred with None => true | Some f => verdict f c end
                                 then Some (c, g) else None
                | None => None
                end in
  match pinned with
  | Some (c, g) => (Ok (Some c), mkProgress (AutoGroupIndex p) (Retry p) (resetNextTry p) g)
  | None =>
      if String.eqb (TokenGroup q) "auto" then
        if autoOff then (Err SelAutoOff, p)
        else
          let start := default O (AutoGroupIndex p) in
          let groups := drop start autoGroups in
          let strict_pass := match used q with
                             | [] => (None, p, no_misses)
                             | _ => runGroups q k rnd true start start groups p no_misses
                             end in
          let '(c, p1, m) :=
            match strict_pass with
            | (Some c, p1, m) => (Some c, p1, m)
            | (None, p1, _) =>
                let p2 := match used q with
                          | [] => p
                          | _ => mkProgress (Some start) (Retry p) (resetNextTry p1) (selectGroup p1)
                          end in
                runGroups q k rnd false start start groups p2 no_misses
            end in
          match c with
          | Some c => (Ok (Some c), p1)
          | None =>
              match coolingErr m with
              | Some u => (Err (SelCooling u), p1)
              | None =>
                  if filterMiss m then (Err (SelRepo ErrNoChannelSatisfiesPredicate), p1)
                  else match modalityErr m with
                  | Some e => (Err e, p1)
                  | None => (Ok None, p1)
                  end
              end
          end
      else (selectChannelWhere q (rnd false O) (TokenGroup q) (Retry p), p)
  end.
End ChannelSelect.
