(* ===== verification/ChannelSelectSpec.v ===== *)
(** * Channel selection for a request: theorems

    Proved against the interface of the repo ([RepoLaws]), which the routing table
    and the abilities table both implement: whatever is selected is eligible and not
    cooling, a retry goes to a used channel only when no fresh one is left, and "all
    channels cooling" carries the earliest recovery. *)

From S2P Require Import Prelude GoStrings ChannelKeys SmartRouting ChannelCache ChannelCacheSpec ChannelCooldown ChannelSelect.

(** ** Counting predicates *)

Section Counting.
Import GoStrings ChannelKeys ChannelCache ChannelCooldown Capability ChannelSelect.

(** The verdict does not depend on what was counted before. *)
Definition pure (f : counting) : Prop := forall c p, (f c p).1 = verdict f c.

(** The predicate leaves the cooldown probe alone. *)
Definition quiet (f : counting) : Prop := forall c p, cprobe (f c p).2 = cprobe p.

Definition holds (o : option counting) (c : Channel) : bool :=
  match o with None => true | Some f => verdict f c end.

Lemma pure_plain f : pure (plain f).
Proof. done. Qed.

Lemma quiet_plain f : quiet (plain f).
Proof. done. Qed.

Lemma pure_cooldown v f : cooldownPredicate v = Some f -> pure f.
Proof. unfold cooldownPredicate. case_match; [|done]. intros [= <-] c p. unfold verdict. by case_match. Qed.

Lemma pure_used u f : usedChannelPredicate u = Some f -> pure f /\ quiet f.
Proof. destruct u; [done|]. by intros [= <-]. Qed.

Lemma pure_modality q f : modalityPredicate q = Some f -> pure f /\ quiet f.
Proof.
  unfold modalityPredicate. destruct q as [q|]; [|done].
  destruct (mr_mode q), (RequiredModalityForRelayMode (mr_relay q)); try done; intros [= <-];
    split; intros c p; unfold verdict; cbn; by repeat case_match.
Qed.

Lemma all_of_pure fs : Forall pure fs -> forall c p, (all_of fs c p).1 = forallb (fun f => verdict f c) fs.
Proof.
  induction 1 as [|f fs Hf _ IH]; intros c p; [done|]. cbn. rewrite <- (Hf c p).
  destruct (f c p) as [[] p1]; cbn; [apply IH|done].
Qed.

Lemma and_all_of preds :
  match andChannelPredicates preds with
  | None => omap (@id _) preds = []
  | Some f => forall c p, f c p = all_of (omap (@id _) preds) c p
  end.
Proof.
  unfold andChannelPredicates. destruct (omap _ preds) as [|f [|g fs]]; [done| |done].
  intros c p. cbn. by destruct (f c p) as [[] ?].
Qed.

Lemma holds_and preds c :
  Forall pure (omap (@id _) preds) -> holds (andChannelPredicates preds) c = forallb (fun o => holds o c) preds.
Proof.
  intros Hp. pose proof (and_all_of preds) as Ha.
  assert (Hl : forallb (fun o => holds o c) preds = forallb (fun f => verdict f c) (omap (@id _) preds)).
  { clear. induction preds as [|[f|] preds IH]; cbn; [done|by rewrite IH|done]. }
  rewrite Hl. destruct (andChannelPredicates preds) as [f|]; cbn; [|by rewrite Ha].
  unfold verdict at 1. rewrite Ha. by apply all_of_pure.
Qed.

(** Quiet predicates before the cooldown one: the probe counts the channels they let
    through and that are cooling. *)
Lemma all_of_quiet fs g c p :
  Forall pure fs -> Forall quiet fs -> pure g ->
  cprobe (all_of (fs ++ [g]) c p).2 =
  if forallb (fun f => verdict f c) fs then cprobe (all_of [g] c (all_of fs c p).2).2 else cprobe p.
Proof.
  intros Hp Hq Hg. revert p. induction fs as [|f fs IH]; intros p; [done|].
  apply Forall_cons in Hp as [Hf Hp]. apply Forall_cons in Hq as [Hfq Hq].
  cbn. pose proof (Hf c p) as Hv. pose proof (Hfq c p) as Hc. destruct (f c p) as [[] p1]; cbn in *; rewrite <- Hv; cbn.
  - rewrite IH by done. by rewrite <- Hc.
  - done.
Qed.

Lemma all_of_quiet_cprobe fs c p : Forall quiet fs -> cprobe (all_of fs c p).2 = cprobe p.
Proof.
  intros Hq. revert p. induction Hq as [|f fs Hf _ IH]; intros p; [done|]. cbn. specialize (Hf c p).
  destruct (f c p) as [[] p1]; cbn in *; [by rewrite IH|done].
Qed.

Definition noted (us : list Z) : cooldownProbe := fold_left (fun p u => note u p) us (mkCProbe 0 0).

Definition is_min (u : Z) (us : list Z) : Prop := u ∈ us /\ forall x, x ∈ us -> u <= x.

(** Noting positive deadlines keeps their number and their minimum. *)
Lemma noted_spec us : Forall (fun u => 0 < u) us ->
  rejected (noted us) = Z.of_nat (length us) /\
  match us with [] => earliest (noted us) = 0 | _ => is_min (earliest (noted us)) us end.
Proof.
  induction us as [|u us IH] using rev_ind; intros H; [done|].
  apply Forall_app in H as [Hus Hu%Forall_singleton]. destruct (IH Hus) as [IHr IHe]. clear IH.
  unfold noted. rewrite fold_left_app. fold (noted us). cbn. rewrite IHr, length_app. split; [cbn; lia|].
  assert (Hmin : is_min (if (earliest (noted us) =? 0) || (u <? earliest (noted us)) then u
                         else earliest (noted us)) (us ++ [u])).
  { unfold is_min. destruct us as [|u0 us0].
    - rewrite IHe. cbn. split; [set_solver|]. intros x ->%list_elem_of_singleton. lia.
    - destruct IHe as [Hin Hle]. rewrite Forall_forall in Hus. specialize (Hus _ Hin).
      destruct (Z.eqb_spec (earliest (noted (u0 :: us0))) 0); [lia|]. cbn [orb].
      destruct (Z.ltb_spec u (earliest (noted (u0 :: us0)))).
      + split; [set_solver|]. intros x [Hx%Hle| ->%list_elem_of_singleton]%elem_of_app; lia.
      + split; [apply elem_of_app; by left|]. intros x [Hx%Hle| ->%list_elem_of_singleton]%elem_of_app; lia. }
  by destruct (us ++ [u]) eqn:E; [destruct us|].
Qed.
End Counting.

(** ** The interface of the repo *)

Section Interface.
Import GoStrings ChannelKeys SmartRouting ChannelCache ChannelCooldown Capability ChannelSelect.

(** What a selection may rely on: a channel answered was consulted and accepted; a
    predicate miss means every channel consulted was rejected; no candidate means
    none was consulted. *)
Class RepoLaws (R : Repo) : Prop := mkLaws {
  find_sound r tenantID group model retry pred c :
    find r tenantID group model retry pred = Ok (Some c) ->
    c ∈ consulted tenantID group model /\ accepts pred c = true;
  find_miss r tenantID group model retry pred :
    find r tenantID group model retry pred = Err ErrNoChannelSatisfiesPredicate ->
    forall c, c ∈ consulted tenantID group model -> accepts pred c = false;
  find_empty r tenantID group model retry p :
    find r tenantID group model retry (Some p) = Ok None -> consulted tenantID group model = []
}.

Lemma load_omap t ids cs : load t ids = Ok cs -> omap (fun i => channelsIDM t !! i) ids = cs.
Proof.
  revert cs. induction ids as [|i ids IH]; intros cs; cbn; [by intros [= <-]|].
  destruct (channelsIDM t !! i) as [c|]; [|done]. destruct (load t ids) as [cs'|]; [|done].
  intros [= <-]. by rewrite (IH cs').
Qed.

Lemma filter_where_omap t ids (P : pred_t) c :
  c ∈ omap (fun i => channelsIDM t !! i) (filterChannelsWhere t ids P) <->
  c ∈ omap (fun i => channelsIDM t !! i) ids /\ P c = true.
Proof.
  rewrite !list_elem_of_omap. split.
  - intros (i & [Hi HP]%elem_of_Lfilter & Hc). rewrite Hc in HP. eauto.
  - intros [(i & Hi & Hc) HP]. exists i. split; [|done]. apply elem_of_Lfilter. by rewrite Hc.
Qed.

Lemma tier_answer t h r ids retry c :
  match load t ids with
  | Err e => Err e
  | Ok cs =>
      match tier_at (tiers (GetPriority <$> cs)) retry with
      | None => Err ErrNoChannelFound
      | Some p =>
          match List.filter (fun c => GetPriority c =? p) cs with
          | [] => Err ErrNoChannelFound
          | target => match pick_tier h r target with Ok c => Ok (Some c) | Err e => Err e end
          end
      end
  end = Ok (Some c) -> c ∈ omap (fun i => channelsIDM t !! i) ids.
Proof.
  destruct (load t ids) as [cs|] eqn:Hl; [|done]. apply load_omap in Hl as ->.
  destruct (tier_at _ _) as [p|]; [|done]. destruct (List.filter _ cs) as [|c0 l0] eqn:Ht; [done|].
  destruct (pick_tier h r (c0 :: l0)) as [c'|] eqn:Hp; [|done]. intros [= ->].
  apply pick_tier_elem in Hp. rewrite <- Ht in Hp. by apply elem_of_Lfilter in Hp as [? _].
Qed.

#[global] Instance cached_repo_laws t h : RepoLaws (cached_repo t h).
Proof.
  split.
  - intros r tenantID group model retry pred c. cbn. unfold select_cached, consulted_ids.
    set (vis := filterChannelsForTenant t _ tenantID). destruct vis as [|v vs] eqn:Hv; [done|]. rewrite <- Hv.
    set (acc := match pred with None => vis | Some p => filterChannelsWhere t vis p end).
    assert (Hacc : forall x, x ∈ omap (fun i => channelsIDM t !! i) acc ->
                   x ∈ omap (fun i => channelsIDM t !! i) vis /\ accepts pred x = true).
    { intros x. unfold acc. destruct pred as [p|]; [apply filter_where_omap|done]. }
    intros Ha. apply Hacc. destruct acc as [|x [|y zs]] eqn:E; [done| |].
    + cbn. destruct (channelsIDM t !! x) as [c'|]; [|done]. simplify_eq. set_solver.
    + by eapply tier_answer.
  - intros r tenantID group model retry pred. cbn. unfold select_cached, consulted_ids.
    set (vis := filterChannelsForTenant t _ tenantID). destruct vis as [|v vs] eqn:Hv; [done|]. rewrite <- Hv.
    set (acc := match pred with None => vis | Some p => filterChannelsWhere t vis p end).
    intros Hm. assert (Hnil : acc = []).
    { destruct acc as [|x [|y zs]]; [done|by destruct (channelsIDM t !! x)|].
      destruct (load t (x :: y :: zs)) as [cs|e] eqn:Hl.
      - destruct (tier_at _ _) as [p|]; [|done]. destruct (List.filter _ cs) as [|c0 l0]; [done|].
        destruct (pick_tier h r (c0 :: l0)) as [|e] eqn:Hp; [done|]. simplify_eq.
        by apply pick_tier_fails in Hp as [_ ?].
      - simplify_eq. exfalso. clear -Hl. revert Hl. generalize (x :: y :: zs). intros l.
        induction l as [|i l IH]; cbn; [done|]. destruct (channelsIDM t !! i); [|done].
        destruct (load t l); [done|]. intros [= ->]. by apply IH. }
    unfold acc in Hnil. destruct pred as [p|]; [|by rewrite Hnil in Hv]. intros c Hc. cbn.
    destruct (p c) eqn:Hp; [|done]. exfalso.
    assert (c ∈ omap (fun i => channelsIDM t !! i) (filterChannelsWhere t vis p)) as Hin by by apply filter_where_omap.
    rewrite Hnil in Hin. set_solver.
  - intros r tenantID group model retry p. cbn. unfold select_cached, consulted_ids.
    destruct (filterChannelsForTenant t _ tenantID) as [|v vs] eqn:Hv; [done|].
    destruct (filterChannelsWhere _ _ _) as [|x [|y zs]]; [done|by destruct (channelsIDM t !! x)|].
    destruct (load _ _) as [cs|]; [|done]. destruct (tier_at _ _); [|done]. destruct (List.filter _ cs); [done|].
    by destruct (pick_tier _ _ _).
Qed.
Lemma draw_le_in w abs a : draw_le w abs = Some a -> a ∈ abs.
Proof.
  revert w. induction abs as [|b abs IH]; intros w; cbn; [done|].
  destruct (_ <=? 0); [intros [= ->]; set_solver|]. intros H%IH. set_solver.
Qed.

(** The rows drawn from are among those read. *)
Lemma query_sub abs retry abs' : getChannelQuery abs retry = Ok abs' -> forall a, a ∈ abs' -> a ∈ abs.
Proof.
  unfold getChannelQuery. destruct retry as [|n].
  - intros [= <-] a. destruct (tiers _) as [|p ?]; [set_solver|]. by intros [? _]%elem_of_Lfilter.
  - destruct (getPriority abs (S n)) as [p|]; [|done]. intros [= <-] a. by intros [? _]%elem_of_Lfilter.
Qed.

#[global] Instance db_repo_laws t rows abilities : RepoLaws (db_repo t rows abilities).
Proof.
  split.
  - intros r tenantID group model retry pred c. cbn.
    set (abs := abilities_for rows abilities group model tenantID).
    assert (Hin : forall a, a ∈ abs -> by_id rows (a_ChannelId a) = Some c ->
              c ∈ omap (fun a => by_id rows (a_ChannelId a)) (merge_sort heavier abs)).
    { intros a Ha Hc. apply list_elem_of_omap. exists a. split; [|done]. by rewrite merge_sort_Permutation. }
    destruct pred as [p|].
    + unfold getChannelForTenantWhere. fold abs. destruct (merge_sort heavier abs) as [|a0 l0] eqn:Hs; [done|].
      set (acc := List.filter _ (a0 :: l0)). destruct (tier_at _ _) as [q|]; [|done].
      set (cand := List.filter (fun a => abilityPriority a =? q) acc). destruct (_ <=? 0); [done|].
      assert (Hcand : forall a, a ∈ cand -> by_id rows (a_ChannelId a) = Some c ->
                c ∈ omap (fun a => by_id rows (a_ChannelId a)) (a0 :: l0) /\ accepts (Some p) c = true).
      { intros a [[Ha Hp]%elem_of_Lfilter _]%elem_of_Lfilter Hc. rewrite Hc in Hp. split; [|done].
        apply list_elem_of_omap. eauto. }
      destruct (draw_le _ cand) as [a|] eqn:Hd.
      * intros [= Hc]. apply draw_le_in in Hd. by eapply Hcand.
      * intros [= Hc]. apply bind_Some in Hc as (a & Hl & Hc). apply last_Some_elem_of in Hl. by eapply Hcand.
    + unfold GetChannelForTenant. fold abs. destruct (getChannelQuery abs retry) as [abs'|] eqn:Hq; [|done].
      pose proof (query_sub _ _ _ Hq) as Hsub. destruct (merge_sort heavier abs') as [|a0 l0] eqn:Hs; [done|].
      destruct (_ <=? 0); [done|]. destruct (_ ≫= _) as [c'|] eqn:Hb; [|done]. intros [= ->].
      apply bind_Some in Hb as (a & Ha & Hc). apply draw_le_in in Ha. rewrite <- Hs, merge_sort_Permutation in Ha.
      split; [|done]. eapply Hin; eauto.
  - intros r tenantID group model retry pred. cbn. destruct pred as [p|].
    + unfold getChannelForTenantWhere. destruct (merge_sort heavier _) as [|a0 l0]; [done|].
      set (acc := List.filter _ (a0 :: l0)). destruct (tier_at _ _) as [q|] eqn:Ht.
      { destruct (_ <=? 0); [done|]. by destruct (draw_le _ _). }
      intros _ c (a & Ha & Hc)%list_elem_of_omap. cbn. destruct (p c) eqn:Hp; [|done]. exfalso.
      assert (a ∈ acc) as Hacc by (apply elem_of_Lfilter; by rewrite Hc).
      destruct (tier_at_some (abilityPriority <$> acc) retry) as [x Hx]; [|congruence].
      intros E%fmap_nil_inv. rewrite E in Hacc. set_solver.
    + unfold GetChannelForTenant. intros He. exfalso.
      destruct (getChannelQuery _ _) as [abs'|e] eqn:Hq.
      * destruct (merge_sort heavier abs'); [done|]. destruct (_ <=? 0); [done|]. by destruct (_ ≫= _).
      * simplify_eq. unfold getChannelQuery, getPriority in Hq. repeat case_match; simplify_eq.
  - intros r tenantID group model retry p. cbn. unfold getChannelForTenantWhere.
    destruct (merge_sort heavier _) as [|a0 l0]; [done|]. set (acc := List.filter _ (a0 :: l0)).
    destruct (tier_at _ _) as [q|] eqn:Ht; [|done]. set (cand := List.filter (fun a => abilityPriority a =? q) acc).
    destruct (_ <=? 0); [done|]. intros He. exfalso.
    assert (Hcand : forall a, a ∈ cand -> is_Some (by_id rows (a_ChannelId a))).
    { intros a [[_ Ha]%elem_of_Lfilter _]%elem_of_Lfilter. by destruct (by_id rows (a_ChannelId a)). }
    apply tier_at_rank in Ht as [Hin _]. apply list_elem_of_fmap in Hin as (a1 & -> & Ha1).
    assert (Hne : a1 ∈ cand) by (apply elem_of_Lfilter; by rewrite Z.eqb_refl).
    destruct (draw_le _ cand) as [a|] eqn:Hd.
    + apply draw_le_in, Hcand in Hd as [c Hc]. by rewrite Hc in He.
    + destruct (last cand) as [a|] eqn:Hl; cbn in He.
      * apply last_Some_elem_of, Hcand in Hl as [c Hc]. by rewrite Hc in He.
      * apply last_None in Hl. rewrite Hl in Hne. set_solver.
Qed.
End Interface.

(** ** Selections *)

Section Selection.
Import GoStrings ChannelKeys SmartRouting ChannelCache ChannelCooldown Capability ChannelSelect.
Context {R : Repo} {L : RepoLaws R}.

(** What a request asks of a channel, its used channels and cooldowns aside. *)
Definition suits (q : request) (c : Channel) : bool :=
  holds (modalityPredicate (modality q)) c && holds (plain <$> filterPred q) c.

Definition fresh (q : request) (c : Channel) : bool := negb (existsb (Z.eqb (Id c)) (used q)).

Definition warm (q : request) (c : Channel) : bool := cooling (view q) (Id c) <=? 0.

Lemma active_entry now p s u : cooldownLocal p !! s = Some u \/ cooldownRemote p !! s = Some u ->
  now < u -> anyCooldownActive now p = true.
Proof.
  intros H Hu. unfold anyCooldownActive. apply orb_true_iff.
  destruct H as [H|H]; [left|right]; apply existsb_exists; exists (s, u);
    (split; [apply list_elem_of_In; by apply elem_of_map_to_list|cbn; lia]).
Qed.

Lemma inactive_not_cooling v id : anyCooldownActive (v_now v) (v_store v) = false -> cooling v id <= 0.
Proof.
  intros Ha. unfold cooling, coolingUntil.
  assert (H : forall m, (m = cooldownLocal (v_store v) \/ m = cooldownRemote (v_store v)) ->
            (default 0 (m !! (id, 0)) >? v_now v) = true -> default 0 (m !! (id, 0)) <= 0).
  { intros m Hm Hg. destruct (m !! (id, 0)) as [u|] eqn:E; cbn in *; [|lia].
    rewrite (active_entry (v_now v) (v_store v) (id, 0) u) in Ha; [done| |lia].
    destruct Hm as [-> | ->]; auto. }
  destruct (default 0 (cooldownLocal (v_store v) !! (id, 0)) >? v_now v) eqn:E1;
    destruct (default 0 (cooldownRemote (v_store v) !! (id, 0)) >? v_now v) eqn:E2; cbn [andb];
    try apply H in E1; try apply H in E2; auto; repeat case_match; lia.
Qed.

Lemma holds_cooldown v c : holds (cooldownPredicate v) c = (cooling v (Id c) <=? 0).
Proof.
  unfold cooldownPredicate. destruct (anyCooldownActive _ _) eqn:Ha; cbn.
  - unfold verdict. case_match; cbn; lia.
  - pose proof (inactive_not_cooling v (Id c) Ha). lia.
Qed.

Lemma holds_used q c : holds (usedChannelPredicate (used q)) c = fresh q c.
Proof. unfold fresh. by destruct (used q). Qed.

(** The predicates before the cooldown one. *)
Definition lead (q : request) (excludeUsed : bool) : list (option counting) :=
  [modalityPredicate (modality q); plain <$> filterPred q;
   if excludeUsed then usedChannelPredicate (used q) else None].

Lemma omap_Forall (P : counting -> Prop) (l : list (option counting)) :
  Forall (fun o => match o with None => True | Some f => P f end) l -> Forall P (omap (@id _) l).
Proof. induction 1 as [|[f|] l Hf _ IH]; cbn; [done|by constructor|done]. Qed.

Lemma lead_ok q excl : Forall pure (omap (@id _) (lead q excl)) /\ Forall quiet (omap (@id _) (lead q excl)).
Proof.
  split; apply omap_Forall; repeat constructor.
  1,4: destruct (modalityPredicate _) eqn:E; [by apply pure_modality in E as [? ?]|done].
  1,3: by destruct (filterPred q).
  all: destruct excl; [|done]; destruct (usedChannelPredicate _) eqn:E; [by apply pure_used in E as [? ?]|done].
Qed.

Lemma cooldown_pure v : Forall pure (omap (@id _) [cooldownPredicate v]).
Proof. apply omap_Forall. constructor; [|done]. case_match; [by eapply pure_cooldown|done]. Qed.

Lemma holds_lead q excl c :
  forallb (fun o => holds o c) (lead q excl) = suits q c && (negb excl || fresh q c).
Proof.
  unfold suits. cbn. rewrite andb_true_r. destruct excl; cbn; [rewrite holds_used|];
    by rewrite ?andb_assoc, ?andb_true_r.
Qed.

Lemma accepts_selection q excl c :
  accepts (verdict <$> selection_pred q excl) c = suits q c && (negb excl || fresh q c) && warm q c.
Proof.
  assert (Hp : Forall pure (omap (@id _) (lead q excl ++ [cooldownPredicate (view q)]))).
  { rewrite omap_app. apply Forall_app. split; [apply lead_ok|apply cooldown_pure]. }
  transitivity (holds (selection_pred q excl) c); [by destruct (selection_pred q excl)|].
  unfold selection_pred. change [_; _; _; _] with (lead q excl ++ [cooldownPredicate (view q)]).
  rewrite holds_and by done. rewrite forallb_app, holds_lead. cbn. by rewrite holds_cooldown, andb_true_r.
Qed.

Lemma once_sound q r g retry excl c :
  selectChannelOnce q r g retry excl = Ok (Some c) ->
  c ∈ consulted (TenantID q) g (ModelName q) /\ suits q c = true /\ warm q c = true /\
  (excl = true -> fresh q c = true).
Proof.
  unfold selectChannelOnce. set (n := if _ : bool then O else retry).
  destruct (find _ _ _ _ _ _) as [[c'|]|e] eqn:Hf; [|by case_match|done]. intros [= ->].
  apply find_sound in Hf as [Hin Ha]. rewrite accepts_selection in Ha.
  apply andb_prop in Ha as [[Hs Hfr]%andb_prop Hw]. split_and!; auto. by intros ->.
Qed.

Lemma where_sound q rnd g retry c :
  selectChannelWhere q rnd g retry = Ok (Some c) ->
  c ∈ consulted (TenantID q) g (ModelName q) /\ suits q c = true /\ warm q c = true.
Proof.
  unfold selectChannelWhere. destruct (selectChannelOnce q (rnd true) g retry true) as [o|e] eqn:H1.
  - intros [= ->]. apply once_sound in H1 as (? & ? & ? & _). done.
  - destruct (_ && _); [|done]. destruct (selectChannelOnce q (rnd false) g retry false) as [[c'|]|] eqn:H2; try done.
    intros [= ->]. by apply once_sound in H2 as (? & ? & ? & _).
Qed.

Lemma groups_sound q k rnd strict start groups : forall i p m c p' m',
  runGroups q k rnd strict start i groups p m = (Some c, p', m') ->
  selectGroup p' ∈ groups /\ c ∈ consulted (TenantID q) (selectGroup p') (ModelName q) /\
  suits q c = true /\ warm q c = true /\ (strict = true -> fresh q c = true).
Proof.
  induction groups as [|g groups IH]; intros i p m c p' m'; cbn; [done|].
  set (n := if (start <? i)%nat then O else Retry p).
  destruct (if strict then _ else _) as [[c'|]|e] eqn:Ha.
  - intros [= -> <- <-].
    assert (Hg : forall b : bool, selectGroup (if b then mkProgress (Some (S i)) O true g
               else mkProgress (Some i) (Retry p) (resetNextTry p) g) = g) by by intros [].
    rewrite Hg. destruct strict.
    + apply once_sound in Ha as (? & ? & ? & ?). split_and!; auto. set_solver.
    + apply where_sound in Ha as (? & ? & ?). split_and!; auto; [set_solver|done].
  - intros H%IH. destruct H as (? & ?). split; [set_solver|done].
  - intros H%IH. destruct H as (? & ?). split; [set_solver|done].
Qed.
(** *** What the cooldown probe saw *)

Definition parked (q : request) (excl : bool) (c : Channel) : bool :=
  suits q c && (negb excl || fresh q c) && negb (warm q c).

Lemma forallb_omap (l : list (option counting)) c :
  forallb (fun f => verdict f c) (omap (@id _) l) = forallb (fun o => holds o c) l.
Proof. induction l as [|[f|] l IH]; cbn; [done|by rewrite IH|done]. Qed.

Lemma lead_then_cooldown q excl c p :
  cprobe (all_of (omap (@id _) (lead q excl ++ [cooldownPredicate (view q)])) c p).2 =
  if parked q excl c then note (cooling (view q) (Id c)) (cprobe p) else cprobe p.
Proof.
  destruct (lead_ok q excl) as [Hp Hq]. rewrite omap_app. unfold parked, warm.
  destruct (cooldownPredicate (view q)) as [g|] eqn:Hg.
  - cbn [omap list_omap id]. rewrite all_of_quiet by (auto; by eapply pure_cooldown).
    rewrite forallb_omap, holds_lead. destruct (suits q c && _); [|done]. cbn [andb].
    pose proof (all_of_quiet_cprobe _ c p Hq) as Hc. generalize dependent (omap (@id _) (lead q excl)). intros fs _ _ Hc.
    unfold cooldownPredicate in Hg. case_match; simplify_eq. cbn.
    destruct (Z.gtb_spec (cooling (view q) (Id c)) 0); cbn.
    + rewrite Hc. destruct (Z.leb_spec (cooling (view q) (Id c)) 0); [lia|done].
    + destruct (Z.leb_spec (cooling (view q) (Id c)) 0); [done|lia].
  - cbn [omap list_omap id]. rewrite app_nil_r, all_of_quiet_cprobe by done.
    unfold cooldownPredicate in Hg. case_match; [done|].
    pose proof (inactive_not_cooling (view q) (Id c) ltac:(done)).
    destruct (Z.leb_spec (cooling (view q) (Id c)) 0); [|lia]. by rewrite andb_false_r.
Qed.

Lemma cprobe_over q excl cs :
  cprobe (probe_over (selection_pred q excl) cs) =
  noted ((fun c => cooling (view q) (Id c)) <$> List.filter (parked q excl) cs).
Proof.
  pose proof (and_all_of (lead q excl ++ [cooldownPredicate (view q)])) as Ha.
  change (andChannelPredicates _) with (selection_pred q excl) in Ha. unfold probe_over, noted.
  destruct (selection_pred q excl) as [f|].
  - change (mkCProbe 0 0) with (cprobe no_probes). generalize no_probes.
    induction cs as [|c cs IH]; intros p; [done|]. cbn [fold_left List.filter].
    rewrite IH, Ha, lead_then_cooldown. by destruct (parked q excl c).
  - assert (Hn : List.filter (parked q excl) cs = []); [|by rewrite Hn].
    rewrite (List.filter_ext _ (fun _ => false)); [apply List.filter_false|].
    intros c. pose proof (lead_then_cooldown q excl c no_probes) as Hl.
    rewrite Ha in Hl. cbn in Hl. destruct (parked q excl c); [|done]. exfalso.
    apply (f_equal rejected) in Hl. cbn in Hl. lia.
Qed.

(** ** Properties *)

(** The repo answers: no consistency error, no overflow of the weights, and no
    candidate means none was consulted. *)
Definition healthy : Prop :=
  forall r tenantID group model retry pred,
    match find r tenantID group model retry pred with
    | Ok (Some _) | Err ErrNoChannelSatisfiesPredicate => True
    | Ok None => consulted tenantID group model = []
    | Err _ => False
    end.

Lemma warm_zero q c : 0 <= v_now (view q) -> warm q c = true -> cooling (view q) (Id c) = 0.
Proof.
  unfold warm, cooling, coolingUntil. intros Hn Hw. repeat case_match; lia.
Qed.

Lemma selected_eligible q k rnd pin autoOff groups p c p' :
  0 <= v_now (view q) ->
  CacheGetRandomSatisfiedChannel q k rnd pin autoOff groups p = (Ok (Some c), p') ->
  cooling (view q) (Id c) = 0 /\ suits q c = true /\
  (pin = Some (c, selectGroup p') /\ Retry p = O \/
   c ∈ consulted (TenantID q) (selectGroup p') (ModelName q) /\
   (if String.eqb (TokenGroup q) "auto" then selectGroup p' ∈ groups else selectGroup p' = TokenGroup q)).
Proof.
  intros Hn. unfold CacheGetRandomSatisfiedChannel.
  set (p0 := mkProgress (AutoGroupIndex p) (Retry p) (resetNextTry p) (TokenGroup q)).
  set (pinned := match pin with None => None | Some _ => _ end).
  assert (Hpin : forall c' g', pinned = Some (c', g') ->
            pin = Some (c', g') /\ Retry p = O /\ suits q c' = true /\ warm q c' = true).
  { intros c' g'. unfold pinned. destruct pin as [[c1 g1]|]; [|done]. cbn [Retry p0].
    destruct (Nat.eqb_spec (Retry p) 0) as [H0|]; [|done].
    change (match andChannelPredicates _ with None => true | Some f => verdict f c1 end)
      with (holds (andChannelPredicates [modalityPredicate (modality q); plain <$> filterPred q;
              cooldownPredicate (view q)]) c1).
    rewrite holds_and.
    - cbn. rewrite andb_true_r, andb_assoc, holds_cooldown.
      destruct (suits q c1 && warm q c1) eqn:E; unfold suits, warm in E; rewrite E; [|done].
      intros [= <- <-]. apply andb_prop in E as [? ?]. done.
    - apply omap_Forall. repeat constructor; [| |].
      + destruct (modalityPredicate _) eqn:E; [by apply pure_modality in E as [? ?]|done].
      + by destruct (filterPred q).
      + destruct (cooldownPredicate _) eqn:E; [by apply pure_cooldown in E|done]. }
  destruct pinned as [[c1 g1]|].
  { intros [= <- <-]. destruct (Hpin _ _ eq_refl) as (-> & ? & ? & ?).
    split_and!; [by apply warm_zero|done|by left]. }
  clear Hpin. destruct (String.eqb (TokenGroup q) "auto"); cycle 1.
  { intros [= Hw <-]. apply where_sound in Hw as (? & ? & ?). split_and!; [by apply warm_zero|done|by right]. }
  destruct autoOff; [done|]. set (groups' := drop _ groups).
  assert (Hsub : forall g, g ∈ groups' -> g ∈ groups).
  { intros g Hg. rewrite <- (take_drop (default O (AutoGroupIndex p0)) groups). set_solver. }
  assert (Hgoal : forall strict px mx mx', runGroups q k rnd strict (default O (AutoGroupIndex p0))
              (default O (AutoGroupIndex p0)) groups' px mx = (Some c, p', mx') ->
            cooling (view q) (Id c) = 0 /\ suits q c = true /\
            (pin = Some (c, selectGroup p') /\ Retry p = O \/
             c ∈ consulted (TenantID q) (selectGroup p') (ModelName q) /\ selectGroup p' ∈ groups)).
  { intros strict px mx mx' (? & ? & ? & ? & _)%groups_sound. split_and!; [by apply warm_zero|done|]. right. auto. }
  intros H. destruct (match used q with [] => _ | _ => _ end) as [[[c1|] p1] m1] eqn:Hs.
  - simplify_eq. destruct (used q); [done|]. by eapply Hgoal.
  - destruct (runGroups q k rnd false _ _ groups' _ no_misses) as [[[c2|] p2] m2] eqn:Hr.
    + simplify_eq. by eapply Hgoal.
    + exfalso. repeat case_match; simplify_eq.
Qed.

(** What a channel that suits a request is: one the filter of its provider lets
    through and, where the modality filter is enforced and the route requires a modality,
    one whose adapter and whose model serve it.  In the observe mode a mismatch is let
    through. *)
Definition filter_passes (q : request) (c : Channel) : Prop := forall f, filterPred q = Some f -> f c = true.

Definition modality_enforced (q : request) (c : Channel) : Prop :=
  forall m required, modality q = Some m -> mr_mode m = FilterEnforce -> RequiredModalityForRelayMode (mr_relay m) = Some required ->
    AdapterSupports (Type_ c) required = true /\ Compatible required (Infer (mr_override m) (Type_ c) (mr_model m)) = true.

Lemma suits_iff q c : suits q c = true <-> modality_enforced q c /\ filter_passes q c.
Proof.
  assert (holds (modalityPredicate (modality q)) c = true <-> modality_enforced q c) as Hm.
  { unfold modality_enforced, modalityPredicate. destruct (modality q) as [m|]; [|naive_solver].
    destruct (mr_mode m) eqn:Hm, (RequiredModalityForRelayMode (mr_relay m)) as [required|] eqn:Hr; cbn; unfold verdict;
      try (split; [intros _ m' r' [= <-]; congruence|done]).
    - split; [intros _ m' r' [= <-]; congruence|]. by destruct (_ && _).
    - destruct (AdapterSupports (Type_ c) required) eqn:Ha, (Compatible required _) eqn:Hc; cbn; naive_solver. }
  assert (holds (plain <$> filterPred q) c = true <-> filter_passes q c) as Hf.
  { unfold filter_passes. destruct (filterPred q); cbn; unfold verdict, plain; cbn; naive_solver. }
  unfold suits. by rewrite andb_true_iff, Hm, Hf.
Qed.

(** C27. Whatever is selected may be used: the channel answered for a request is not
    cooling; it passes the request's provider filter; where the modality filter is enforced
    and the route requires a modality, its adapter and its model serve it (in the observe
    mode, the default, a mismatch is let through and says nothing); and it is either the
    session's own channel on a first attempt or one the repo offers the caller's tenant for
    the model, in the group reported with it; that group is the token's, or one of the
    caller's auto groups. *)
Theorem selected_channel_eligible q k rnd pin autoOff groups p c p' :
  0 <= v_now (view q) ->
  CacheGetRandomSatisfiedChannel q k rnd pin autoOff groups p = (Ok (Some c), p') ->
  cooling (view q) (Id c) = 0 /\ modality_enforced q c /\ filter_passes q c /\
  (pin = Some (c, selectGroup p') /\ Retry p = O \/
   c ∈ consulted (TenantID q) (selectGroup p') (ModelName q) /\
   (if String.eqb (TokenGroup q) "auto" then selectGroup p' ∈ groups else selectGroup p' = TokenGroup q)).
Proof. intros Hn H. apply selected_eligible in H as (Hc & [Hm Hf]%suits_iff & Hp); auto. Qed.

Lemma selection_pred_used q : used q <> [] -> exists f, selection_pred q true = Some f.
Proof.
  intros Hu. unfold selection_pred, andChannelPredicates. destruct (used q) as [|u us] eqn:E; [done|].
  destruct (modalityPredicate _), (filterPred q), (cooldownPredicate _); cbn; eauto.
Qed.

(** A selection that excludes used channels and finds none: every candidate that
    could serve was used. *)
Lemma once_miss q r g retry :
  healthy -> used q <> [] -> (forall c, selectChannelOnce q r g retry true <> Ok (Some c)) ->
  forall c, c ∈ consulted (TenantID q) g (ModelName q) -> suits q c = true -> warm q c = true -> fresh q c = false.
Proof.
  intros Hh Hu Hno c Hin Hs Hw. unfold selectChannelOnce in Hno. set (n := if _ : bool then O else retry) in Hno.
  specialize (Hh r (TenantID q) g (ModelName q) n (verdict <$> selection_pred q true)).
  destruct (find _ _ _ _ _ _) as [[c'|]|e] eqn:Hf.
  - by destruct (Hno c').
  - rewrite Hh in Hin. set_solver.
  - destruct e; try done. pose proof (find_miss _ _ _ _ _ _ Hf c Hin) as Ha.
    rewrite accepts_selection, Hs, Hw in Ha. cbn in Ha. by rewrite andb_true_r in Ha.
Qed.

Lemma strict_walk_miss q k rnd start groups : forall i p m p' m',
  healthy -> used q <> [] -> runGroups q k rnd true start i groups p m = (None, p', m') ->
  forall g c, g ∈ groups -> c ∈ consulted (TenantID q) g (ModelName q) ->
    suits q c = true -> warm q c = true -> fresh q c = false.
Proof.
  induction groups as [|g0 groups IH]; intros i p m p' m' Hh Hu Hr g c Hg; [set_solver|].
  cbn [runGroups] in Hr. set (n := if (start <? i)%nat then O else Retry p) in *.
  destruct (selectChannelOnce q (rnd true i true) g0 n true) as [[c'|]|e] eqn:Ho; [discriminate Hr| |];
    (apply elem_of_cons in Hg as [-> |Hg]; [|by eapply IH]);
    apply (once_miss q (rnd true i true) g0 n Hh Hu); intros c'; by rewrite Ho.
Qed.

(** A retry spreads: a channel the request has already been through is selected
    again only when, in every group it may use from the current one on, no other
    channel that fits the request and is not cooling is left. *)
Theorem used_channel_last_resort q k rnd autoOff groups p c p' :
  healthy ->
  CacheGetRandomSatisfiedChannel q k rnd None autoOff groups p = (Ok (Some c), p') -> Id c ∈ used q ->
  forall g c', (if String.eqb (TokenGroup q) "auto" then g ∈ drop (default O (AutoGroupIndex p)) groups
                else g = TokenGroup q) ->
    c' ∈ consulted (TenantID q) g (ModelName q) -> suits q c' = true -> warm q c' = true -> Id c' ∈ used q.
Proof.
  intros Hh H Hused g c' Hg Hin Hs Hw.
  assert (Hfresh : forall x, fresh q x = true <-> Id x ∉ used q).
  { intros x. unfold fresh. rewrite negb_true_iff, <- not_true_iff_false, existsb_exists. split.
    - intros H1 H2. apply H1. exists (Id x). split; [by apply list_elem_of_In|apply Z.eqb_refl].
    - intros H1 (y & Hy%list_elem_of_In & Hxy%Z.eqb_eq). apply H1. by rewrite Hxy. }
  destruct (decide (Id c' ∈ used q)) as [|Hn]; [done|]. exfalso. apply Hfresh in Hn.
  assert (Hne : used q <> []) by (intros E; rewrite E in Hused; set_solver).
  assert (Hc : fresh q c = false) by (apply not_true_iff_false; intros E; by apply Hfresh in E).
  unfold CacheGetRandomSatisfiedChannel in H. destruct (String.eqb (TokenGroup q) "auto").
  - destruct autoOff; [done|]. cbn [AutoGroupIndex] in H. set (st := default O (AutoGroupIndex p)) in *.
    destruct (used q) as [|u us] eqn:Eu; [done|]. rewrite <- Eu in *.
    destruct (runGroups q k rnd true _ _ _ _ _) as [[[c1|] p1] m1] eqn:Hr.
    + simplify_eq. apply groups_sound in Hr as (_ & _ & _ & _ & Hf). by rewrite Hf in Hc.
    + rewrite (strict_walk_miss _ _ _ _ _ _ _ _ _ _ Hh Hne Hr g c' Hg Hin Hs Hw) in Hn. done.
  - subst g. injection H as H _. unfold selectChannelWhere in H.
    destruct (selectChannelOnce q (rnd false O true) (TokenGroup q) (Retry p) true) as [[c1|]|e] eqn:Ho.
    + simplify_eq. apply once_sound in Ho as (_ & _ & _ & Hf). by rewrite Hf in Hc.
    + done.
    + rewrite (once_miss q (rnd false O true) (TokenGroup q) (Retry p) Hh Hne) in Hn; try done. by rewrite Ho.
Qed.

(** "All channels are cooling" is exact: when a selection with candidates fails,
    it reports a cooldown exactly if some candidate fits the request otherwise, and
    the time it reports is the earliest at which one of those recovers. *)
Theorem cooling_miss_exact q r g retry excl e :
  healthy ->
  let candidates := consulted (TenantID q) g (ModelName q) in
  let fit := List.filter (fun c => suits q c && (negb excl || fresh q c)) candidates in
  candidates <> [] ->
  selectChannelOnce q r g retry excl = Err e ->
  match e with
  | SelCooling until => is_min until ((fun c => cooling (view q) (Id c)) <$> fit)
  | _ => fit = []
  end.
Proof.
  intros Hh candidates fit Hne. unfold selectChannelOnce. set (n := if _ : bool then O else retry).
  specialize (Hh r (TenantID q) g (ModelName q) n (verdict <$> selection_pred q excl)).
  destruct (find _ _ _ _ _ _) as [[c'|]|e0] eqn:Hf; [done|done|]. destruct e0; try done.
  pose proof (find_miss _ _ _ _ _ _ Hf) as Hmiss. setoid_rewrite accepts_selection in Hmiss.
  fold candidates in Hmiss |- *.
  assert (Hfit : List.filter (parked q excl) candidates = fit).
  { apply filter_ext_in. intros c Hc%list_elem_of_In. specialize (Hmiss c Hc). unfold parked.
    destruct (suits q c && _); [|done]. cbn in *. by rewrite Hmiss. }
  pose proof (cprobe_over q excl candidates) as Hcp. rewrite Hfit in Hcp.
  set (us := (fun c => cooling (view q) (Id c)) <$> fit) in *.
  assert (Hpos : Forall (fun u => 0 < u) us).
  { apply Forall_forall. intros u (c & -> & Hc)%list_elem_of_fmap. rewrite <- Hfit in Hc.
    apply elem_of_Lfilter in Hc as [_ Hc]. unfold parked, warm in Hc. apply andb_prop in Hc as [_ Hc].
    apply negb_true_iff in Hc. lia. }
  destruct (noted_spec us Hpos) as [Hrej Hmin]. intros [= <-]. unfold classifySelectionMiss, is_filter_miss.
  rewrite Hcp, Hrej. destruct us as [|u us'] eqn:Eus; cbn [andb].
  - assert (fit = []) as Hnil by by apply fmap_nil_inv in Eus. cbn. unfold classifyModalityMiss.
    repeat case_match; done.
  - destruct (Z.gtb_spec (Z.of_nat (length (u :: us'))) 0); [|cbn in *; lia]. exact Hmin.
Qed.
End Selection.

(** ** The routing table is healthy *)

Section CachedHealthy.
Import GoStrings ChannelKeys SmartRouting ChannelCache ChannelCooldown Capability ChannelSelect.

(** Every routed id has its channel, and no route is so long or so heavy that the sum
    of its weights could overflow. *)
Record sane (t : table) (n W : Z) : Prop := mkSane {
  sane_ids group model i : i ∈ routed t group model -> is_Some (channelsIDM t !! i);
  sane_weights i c : channelsIDM t !! i = Some c -> 0 <= GetWeight c <= W;
  sane_length group model : Z.of_nat (length (routed t group model)) <= n;
  sane_bound : 0 <= W /\ 100 * (n * (W + 1)) <= i64_max
}.

Lemma bounded_fits ws n W :
  Forall (fun w => 0 <= w <= W) ws -> Z.of_nat (length ws) <= n -> 0 <= W -> 100 * (n * (W + 1)) <= i64_max -> fits ws.
Proof.
  intros Hw Hn HW Hb. split; [eapply Forall_impl; [exact Hw|]; cbn; lia|].
  assert (Hs : sumZ id ws <= Z.of_nat (length ws) * W).
  { clear Hn Hb. induction Hw as [|w ws Hw _ IH]; [done|].
    change (sumZ id (w :: ws)) with (w + sumZ id ws). cbn [length]. lia. }
  nia.
Qed.

Lemma Lfilter_length {A} (P : A -> bool) l : (length (List.filter P l) <= length l)%nat.
Proof. apply List.filter_length_le. Qed.

Lemma tier_total t r ids retry n W :
  ids <> [] -> (forall i, i ∈ ids -> is_Some (channelsIDM t !! i)) ->
  (forall i c, channelsIDM t !! i = Some c -> 0 <= GetWeight c <= W) ->
  Z.of_nat (length ids) <= n -> 0 <= W -> 100 * (n * (W + 1)) <= i64_max ->
  exists c, match load t ids with
  | Err e => Err e
  | Ok cs =>
      match tier_at (tiers (GetPriority <$> cs)) retry with
      | None => Err ErrNoChannelFound
      | Some p =>
          match List.filter (fun c => GetPriority c =? p) cs with
          | [] => Err ErrNoChannelFound
          | target => match pick_tier None r target with Ok c => Ok (Some c) | Err e => Err e end
          end
      end
  end = Ok (Some c).
Proof.
  intros Hne Hids Hw Hn HW Hb.
  assert (Hl : exists cs, load t ids = Ok cs /\ length cs = length ids /\ Forall (fun c => 0 <= GetWeight c <= W) cs).
  { clear Hne Hn Hb. induction ids as [|i ids IH]; [by exists []|]. destruct IH as (cs & Hl & Hlen & Hcs); [set_solver|].
    destruct (Hids i) as [c Hc]; [set_solver|]. exists (c :: cs). cbn. rewrite Hc, Hl. split_and!; [done|by rewrite Hlen|].
    constructor; [by eapply Hw|done]. }
  destruct Hl as (cs & -> & Hlen & Hcs).
  destruct (tier_at_some (GetPriority <$> cs) retry) as [p Hp]; [intros E%fmap_nil_inv; subst cs; by destruct ids|].
  rewrite Hp. apply tier_at_rank in Hp as [Hin _]. apply list_elem_of_fmap in Hin as (c0 & -> & Hc0).
  assert (Hin : c0 ∈ List.filter (fun c => GetPriority c =? GetPriority c0) cs)
    by (apply elem_of_Lfilter; by rewrite Z.eqb_refl).
  pose proof (Lfilter_length (fun c => GetPriority c =? GetPriority c0) cs) as Hle.
  assert (Hfc : Forall (fun w => 0 <= w <= W) (GetWeight <$> List.filter (fun c => GetPriority c =? GetPriority c0) cs)).
  { apply Forall_fmap, Forall_forall. intros c [Hc _]%elem_of_Lfilter. by rewrite Forall_forall in Hcs; apply Hcs. }
  destruct (List.filter _ cs) as [|c1 l1] eqn:Ef; [set_solver|]. rewrite <- Ef in *. clear Ef.
  destruct (pick_tier None r _) as [c|e] eqn:Hpick; [by exists c|].
  destruct (pick_tier_fails _ _ _ _ ltac:(intros E; rewrite E in Hin; set_solver) Hpick) as [[] _].
  apply (bounded_fits _ n W); [exact Hfc|rewrite length_tier_weights; lia|done..].
Qed.

Lemma cached_healthy t n W : sane t n W -> healthy (R := cached_repo t None).
Proof.
  intros [Hids Hw Hlen [HW Hb]] r tenantID group model retry pred. cbn. unfold select_cached, consulted_ids.
  set (ids := match routed t group model with [] => _ | _ :: _ => _ end).
  assert (Hsane : (forall i, i ∈ ids -> is_Some (channelsIDM t !! i)) /\ Z.of_nat (length ids) <= n).
  { unfold ids. destruct (routed t group model) as [|i0 l0] eqn:E.
    - split; [intros i; apply Hids|apply Hlen].
    - rewrite <- E. split; [intros i; apply Hids|apply Hlen]. }
  destruct Hsane as [Hi Hn]. clearbody ids.
  assert (Hvis : (forall i, i ∈ filterChannelsForTenant t ids tenantID -> i ∈ ids) /\
                 (length (filterChannelsForTenant t ids tenantID) <= length ids)%nat).
  { unfold filterChannelsForTenant. destruct (String.eqb tenantID ""); [done|].
    split; [by intros i [? _]%elem_of_Lfilter|apply Lfilter_length]. }
  destruct (filterChannelsForTenant t ids tenantID) as [|v vs] eqn:Hv; [done|]. rewrite <- Hv in *.
  set (acc := match pred with None => _ | Some p => _ end).
  assert (Hacc : (forall i, i ∈ acc -> i ∈ ids) /\ (length acc <= length ids)%nat).
  { unfold acc. destruct pred as [p|]; [|done]. destruct Hvis as [H1 H2]. split.
    - intros i [? _]%elem_of_Lfilter. auto.
    - etransitivity; [apply Lfilter_length|done]. }
  destruct Hacc as [Ha Hal]. clearbody acc. destruct acc as [|x [|y zs]] eqn:E; [done| |].
  - destruct (Hi x) as [c ->]; [apply Ha; set_solver|]. done.
  - rewrite <- E in *. destruct (tier_total t r acc retry n W) as [c Hc]; [by subst acc|auto|done|lia|done..|].
    destruct acc as [|x' [|y' zs']]; simplify_eq. by rewrite Hc.
Qed.
End CachedHealthy.

Section SelectWitnesses.
Import GoStrings ChannelKeys SmartRouting ChannelCache ChannelCooldown Capability ChannelSelect.

(** One route of two channels. *)
Definition two_routes : table :=
  mkTable {["default" := {["gpt" := [1; 2]]}]}
    {[1 := demo_row 1 "" "gpt" 30 5; 2 := demo_row 2 "" "gpt" 10 5]}.

Definition demo_request (group : string) (used : list Z) (local : gmap (Z * Z) Z) : request :=
  mkRequest "acme" "gpt" group None None used (mkView 1000 (mkProc local ∅ ∅ time_zero 0 ∅)) 1000.

Lemma two_routes_sane : sane two_routes 2 30.
Proof.
  assert (Hr : forall group model, routed two_routes group model = [1; 2] \/ routed two_routes group model = []).
  { intros group model. unfold routed, two_routes. cbn.
    destruct (decide (group = "default")) as [-> |Hg]; [|right; by rewrite lookup_singleton_ne].
    rewrite lookup_singleton_eq. cbn.
    destruct (decide (model = "gpt")) as [-> |Hm]; [left; by rewrite lookup_singleton_eq|right; by rewrite lookup_singleton_ne]. }
  split.
  - intros group model i Hi. destruct (Hr group model) as [E|E]; rewrite E in Hi; [|set_solver].
    apply elem_of_cons in Hi as [-> |Hi]; [vm_compute; by eexists|]. apply list_elem_of_singleton in Hi as ->.
    vm_compute. by eexists.
  - intros i c. cbn. intros [[_ <-]|[_ [_ <-]%lookup_singleton_Some]]%lookup_insert_Some; vm_compute; split; discriminate.
  - intros group model. destruct (Hr group model) as [-> | ->]; vm_compute; discriminate.
  - vm_compute. split; discriminate.
Qed.

(** The first channel is cooling: the second is selected whatever the draw. *)
(** A chat request under an enforced filter, the heavier channel cooling. *)
Definition enforced_request : request :=
  mkRequest "acme" "gpt" "default" (Some (mkModReq FilterEnforce 1 "" "gpt")) (Some (fun c => Id c <? 3)) []
    (mkView 1000 (mkProc {[(1, 0) := 1060]} ∅ ∅ time_zero 0 ∅)) 1000.

Lemma selected_channel_eligible_witness :
  let q := enforced_request in
  let R := cached_repo two_routes None in
  exists c p', CacheGetRandomSatisfiedChannel q (mkConfig 3 true) (fun _ _ _ => 0) None false []
                 (mkProgress None 0 false "") = (Ok (Some c), p') /\
    cooling (view q) (Id c) = 0 /\ Id c = 2 /\
    AdapterSupports (Type_ c) Chat = true /\ Compatible Chat (Infer "" (Type_ c) "gpt") = true /\
    c ∈ consulted "acme" "default" "gpt".
Proof.
  cbn zeta. exists (demo_row 2 "" "gpt" 10 5), (mkProgress None 0 false "default").
  assert (H : CacheGetRandomSatisfiedChannel (R := cached_repo two_routes None)
                enforced_request (mkConfig 3 true) (fun _ _ _ => 0)
                None false [] (mkProgress None 0 false "") =
              (Ok (Some (demo_row 2 "" "gpt" 10 5)), mkProgress None 0 false "default")) by (vm_compute; reflexivity).
  split; [exact H|].
  destruct (selected_channel_eligible (R := cached_repo two_routes None) _ _ _ _ _ _ _ _ _
    (ltac:(vm_compute; discriminate) : 0 <= v_now (view enforced_request)) H) as (Hc & Hm & _ & [[Hp _]|[Hi _]]); [discriminate Hp|].
  destruct (Hm _ Chat eq_refl eq_refl eq_refl) as [Ha Hk].
  split; [exact Hc|]. split; [reflexivity|]. split; [exact Ha|]. split; [exact Hk|exact Hi].
Defined.

(** Both channels are used up: the walk comes back to one of them. *)
Lemma used_channel_last_resort_witness :
  let q := demo_request "auto" [2; 1] ∅ in
  let R := cached_repo two_routes None in
  exists c p', CacheGetRandomSatisfiedChannel q (mkConfig 3 true) (fun _ _ _ => 35) None false ["vip"; "default"]
                 (mkProgress None 1 false "") = (Ok (Some c), p') /\
    forall c', c' ∈ consulted "acme" "default" "gpt" -> suits q c' = true -> warm q c' = true -> Id c' ∈ [2; 1].
Proof.
  cbn zeta. exists (demo_row 2 "" "gpt" 10 5), (mkProgress (Some 1%nat) 0 false "default").
  assert (H : CacheGetRandomSatisfiedChannel (R := cached_repo two_routes None)
                (demo_request "auto" [2; 1] ∅) (mkConfig 3 true) (fun _ _ _ => 35)
                None false ["vip"; "default"] (mkProgress None 1 false "") =
              (Ok (Some (demo_row 2 "" "gpt" 10 5)), mkProgress (Some 1%nat) 0 false "default"))
    by (vm_compute; reflexivity).
  split; [exact H|]. intros c' Hin Hs Hw.
  apply (used_channel_last_resort (R := cached_repo two_routes None)
           (demo_request "auto" [2; 1] ∅) (mkConfig 3 true) (fun _ _ _ => 35) false ["vip"; "default"]
           (mkProgress None 1 false "") _ _ (cached_healthy _ _ _ two_routes_sane) H) with (g := "default").
  - cbn. by repeat constructor.
  - cbn. by repeat constructor.
  - exact Hin.
  - exact Hs.
  - exact Hw.
Defined.

(** Both channels are cooling: the earlier recovery is reported. *)
Lemma cooling_miss_exact_witness :
  let q := demo_request "default" [] {[(1, 0) := 1060; (2, 0) := 1030]} in
  let R := cached_repo two_routes None in
  selectChannelOnce q 0 "default" 0 true = Err (SelCooling 1030) /\
  is_min 1030 ((fun c => cooling (view q) (Id c)) <$>
               List.filter (fun c => suits q c && fresh q c) (consulted "acme" "default" "gpt")).
Proof.
  cbn zeta.
  assert (H : selectChannelOnce (R := cached_repo two_routes None)
                (demo_request "default" [] {[(1, 0) := 1060; (2, 0) := 1030]}) 0 "default" 0 true =
              Err (SelCooling 1030)) by (vm_compute; reflexivity).
  split; [exact H|].
  refine (cooling_miss_exact (R := cached_repo two_routes None)
            (demo_request "default" [] {[(1, 0) := 1060; (2, 0) := 1030]}) 0 "default" 0 true _
            (cached_healthy _ _ _ two_routes_sane) _ H).
  vm_compute. discriminate.
Defined.
End SelectWitnesses.
