(* ===== verification/TimeFormat.v ===== *)
(** * The rate limiters' time stamps

    The Redis lists of internal/adapter/middleware/rate-limit.go hold admission times
    printed with [timeFormat], "2006-01-02T15:04:05.000Z".  This file models what
    [Time.Format] and [time.Parse] do for that layout, on bytes: [Format] prints the
    local wall clock (the final Z is a literal of the layout, not a zone), [Parse]
    reads it back as if it were UTC, with the leniency of package [time] (a one-digit
    hour, a comma before the fraction, a sign in it). *)

From S2P Require Import Prelude GoStrings Calendar.

#[local] Ltac Zify.zify_post_hook ::= Z.to_euclidean_division_equations.

Module TimeFormat.
Import GoStrings Calendar.

Definition millisecond : Z := 1000000.

(** ** Printing *)

(** The [w] low decimal digits of [n]. *)
Definition low_digits (w : nat) (n : Z) : list Z :=
  (fun i => 48 + n / 10 ^ Z.of_nat i mod 10) <$> rev (seq 0 w).

(** [appendInt]: the decimal digits of [n >= 0], with zeros before them up to [w]
    places. *)
Definition pad (w : nat) (n : Z) : list Z :=
  if n <? 10 ^ Z.of_nat w then low_digits w n else bytes (Itoa n).

(** [t.Format(timeFormat)] where [t]'s wall clock reads [wall]. *)
Definition Format (wall : Z) : string :=
  let z := wall / day_ns in
  let r := wall mod day_ns in
  of_bytes (pad 4 (year z) ++ [45] ++ pad 2 (month z) ++ [45] ++ pad 2 (mday z) ++ [84] ++
            pad 2 (r / hour) ++ [58] ++ pad 2 (r / minute mod 60) ++ [58] ++
            pad 2 (r / second mod 60) ++ [46] ++ pad 3 (r mod second / millisecond) ++ [90]).

(** ** Reading *)

(** [getnum]: one or two digits; [fixed] insists on two. *)
Definition getnum (fixed : bool) (bs : list Z) : option (Z * list Z) :=
  match bs with
  | a :: rest =>
      x ← digit a;
      match rest with
      | b :: rest' =>
          match digit b with
          | Some y => Some (10 * x + y, rest')
          | None => if fixed then None else Some (x, rest)
          end
      | [] => if fixed then None else Some (x, rest)
      end
  | [] => None
  end.

(** [skip] for a prefix of one byte that is not a space. *)
Definition skip (c : Z) (bs : list Z) : option (list Z) :=
  match bs with
  | a :: rest => if a =? c then Some rest else None
  | [] => None
  end.

(** [time.atoi]: an optional sign, then digits to the end. *)
Definition time_atoi (bs : list Z) : option Z :=
  match bs with
  | 45 :: rest => Z.opp <$> digits_val 0 rest
  | 43 :: rest => digits_val 0 rest
  | _ => digits_val 0 bs
  end.

Definition within (lo hi n : Z) : option unit := if (lo <=? n) && (n <=? hi) then Some () else None.

Definition parse_year (bs : list Z) : option (Z * list Z) :=
  match bs with
  | a :: b :: c :: d :: rest =>
      _ ← digit a; y ← time_atoi [a; b; c; d]; Some (y, rest)
  | _ => None
  end.

(** [parseNanoseconds] of a point or comma and three places. *)
Definition parse_millis (bs : list Z) : option (Z * list Z) :=
  match bs with
  | p :: a :: b :: c :: rest =>
      if (p =? 46) || (p =? 44) then
        n ← time_atoi [a; b; c];
        if n <? 0 then None else Some (n * millisecond, rest)
      else None
  | _ => None
  end.

(** [time.Parse(timeFormat, s)]. *)
Definition Parse (s : string) : option Z :=
  '(y, bs) ← parse_year (bytes s);
  bs ← skip 45 bs;
  '(mo, bs) ← getnum true bs; _ ← within 1 12 mo;
  bs ← skip 45 bs;
  '(d, bs) ← getnum true bs;
  bs ← skip 84 bs;
  '(h, bs) ← getnum false bs; _ ← within 0 23 h;
  bs ← skip 58 bs;
  '(mi, bs) ← getnum true bs; _ ← within 0 59 mi;
  bs ← skip 58 bs;
  '(sec, bs) ← getnum true bs; _ ← within 0 59 sec;
  '(ns, bs) ← parse_millis bs;
  bs ← skip 90 bs;
  match bs with
  | [] =>
      _ ← within 1 (days_in (isLeap y) mo) d;
      Some (Date y mo d * day_ns + h * hour + mi * minute + sec * second + ns)
  | _ :: _ => None
  end.

End TimeFormat.

Section TimeFormatFacts.
Import GoStrings Calendar TimeFormat.

Lemma pad_low w n : n < 10 ^ Z.of_nat w -> pad w n = low_digits w n.
Proof. intros Hn. unfold pad. by replace (n <? 10 ^ Z.of_nat w) with true by lia. Qed.

Lemma pad2 n : 0 <= n < 100 -> pad 2 n = [48 + n / 10; 48 + n mod 10].
Proof.
  intros Hn. rewrite pad_low by (cbn; lia).
  cbn. change (Z.pow_pos 10 1) with 10. rewrite Z.div_1_r. repeat f_equal; lia.
Qed.

Lemma pad3 n : 0 <= n < 1000 -> pad 3 n = [48 + n / 100; 48 + n / 10 mod 10; 48 + n mod 10].
Proof.
  intros Hn. rewrite pad_low by (cbn; lia).
  cbn. change (Z.pow_pos 10 1) with 10. change (Z.pow_pos 10 2) with 100. rewrite Z.div_1_r.
  repeat f_equal; lia.
Qed.

Lemma pad4 n : 0 <= n < 10000 ->
  pad 4 n = [48 + n / 1000; 48 + n / 100 mod 10; 48 + n / 10 mod 10; 48 + n mod 10].
Proof.
  intros Hn. rewrite pad_low by (cbn; lia).
  cbn. change (Z.pow_pos 10 1) with 10. change (Z.pow_pos 10 2) with 100. change (Z.pow_pos 10 3) with 1000.
  rewrite Z.div_1_r. repeat f_equal; lia.
Qed.

Lemma digit_48 x : 0 <= x < 10 -> digit (48 + x) = Some x.
Proof.
  intros Hx. unfold digit. replace ((48 <=? 48 + x) && (48 + x <=? 57)) with true by lia. f_equal. lia.
Qed.

Lemma getnum_pad2 fixed n rest : 0 <= n < 100 -> getnum fixed (pad 2 n ++ rest) = Some (n, rest).
Proof.
  intros Hn. rewrite pad2 by done. cbn -[Z.div Z.modulo Z.add Z.mul].
  rewrite digit_48 by lia. cbn -[Z.div Z.modulo Z.add Z.mul]. rewrite digit_48 by lia.
  cbn -[Z.div Z.modulo Z.add Z.mul]. do 2 f_equal. lia.
Qed.

Lemma time_atoi_digits bs b v :
  0 <= b < 10 -> digits_val 0 ((48 + b) :: bs) = Some v -> time_atoi ((48 + b) :: bs) = Some v.
Proof.
  intros Hb Hv. assert (exists p, 48 + b = Z.pos p /\ (48 <= p)%positive) as (p & Hp & Hle).
  { exists (Z.to_pos (48 + b)). lia. }
  rewrite Hp in *. unfold time_atoi. destruct (decide (p = 45)%positive); [lia|].
  destruct (decide (p = 43)%positive); [lia|].
  repeat (destruct p; try done).
Qed.

Lemma parse_year_pad n rest : 0 <= n < 10000 -> parse_year (pad 4 n ++ rest) = Some (n, rest).
Proof.
  intros Hn. rewrite pad4 by done. cbn -[Z.div Z.modulo Z.add Z.mul time_atoi].
  rewrite digit_48 by lia. cbn -[Z.div Z.modulo Z.add Z.mul time_atoi].
  rewrite (time_atoi_digits _ _ n); [done|lia|].
  cbn -[Z.div Z.modulo Z.add Z.mul]. do 4 (rewrite digit_48 by lia; cbn -[Z.div Z.modulo Z.add Z.mul]).
  f_equal. lia.
Qed.

Lemma parse_millis_pad n rest :
  0 <= n < 1000 -> parse_millis (46 :: pad 3 n ++ rest) = Some (n * millisecond, rest).
Proof.
  intros Hn. rewrite pad3 by done. cbn -[Z.div Z.modulo Z.add Z.mul time_atoi millisecond].
  rewrite (time_atoi_digits _ _ n); [|lia|].
  - cbn -[millisecond]. by replace (n <? 0) with false by lia.
  - cbn -[Z.div Z.modulo Z.add Z.mul]. do 3 (rewrite digit_48 by lia; cbn -[Z.div Z.modulo Z.add Z.mul]).
    f_equal. lia.
Qed.

Lemma low_digits_bytes k n : Forall is_byte (low_digits k n).
Proof.
  unfold low_digits. rewrite Forall_fmap. apply Forall_true. intros i. unfold is_byte. cbn. lia.
Qed.

Lemma pad_bytes w n : n < 10 ^ Z.of_nat w -> Forall is_byte (pad w n).
Proof. intros Hn. rewrite pad_low by done. apply low_digits_bytes. Qed.

Lemma within_ok lo hi n : lo <= n <= hi -> within lo hi n = Some ().
Proof. intros H. unfold within. by replace ((lo <=? n) && (n <=? hi)) with true by lia. Qed.

Definition wall_ok (wall : Z) : Prop := 0 <= wall /\ year (wall / day_ns) < 10000.

(** The bytes of a stamp. *)
Lemma Format_bytes wall : wall_ok wall ->
  let z := wall / day_ns in let r := wall mod day_ns in
  bytes (Format wall) =
    pad 4 (year z) ++ 45 :: pad 2 (month z) ++ 45 :: pad 2 (mday z) ++ 84 ::
    pad 2 (r / hour) ++ 58 :: pad 2 (r / minute mod 60) ++ 58 ::
    pad 2 (r / second mod 60) ++ 46 :: pad 3 (r mod second / millisecond) ++ [90].
Proof.
  intros [H0 Hy] z r. unfold Format. fold z r. pose proof (month_mday z) as (Hm & Hd & _).
  pose proof (days_in_range (isLeap (year z)) (month z) Hm).
  assert (0 <= r < day_ns) by (apply Z.mod_pos_bound; apply day_ns_pos).
  change (year z < 10000) in Hy. clearbody z r. rewrite bytes_of_bytes; [done|].
  rewrite !Forall_app, !Forall_singleton. unfold day_ns, hour, minute, second, millisecond, is_byte in *.
  repeat split; try lia; apply pad_bytes;
    match goal with |- _ < 10 ^ Z.of_nat ?w => let v := eval vm_compute in (10 ^ Z.of_nat w) in change (_ ^ _) with v end;
    lia.
Qed.

#[local] Ltac Zify.zify_post_hook ::= idtac.

(** The fields of a time of day, and the time they stand for. *)
Lemma clock_parts r : 0 <= r < day_ns ->
  0 <= r / hour < 24 /\ 0 <= r / minute mod 60 < 60 /\ 0 <= r / second mod 60 < 60 /\
  0 <= r mod second / millisecond < 1000 /\
  r - r mod millisecond = r / hour * hour + r / minute mod 60 * minute + r / second mod 60 * second +
                          r mod second / millisecond * millisecond.
Proof.
  intros Hr.
  assert (0 <= r / hour < 24).
  { split; [apply Z.div_pos; [lia|done]|apply Z.div_lt_upper_bound; [done|]]. unfold day_ns in Hr. lia. }
  assert (0 <= r mod second / millisecond < 1000).
  { pose proof (Z.mod_pos_bound r second eq_refl).
    split; [apply Z.div_pos; [lia|done]|apply Z.div_lt_upper_bound; [done|]]. unfold second, millisecond in *. lia. }
  pose proof (Z.mod_pos_bound (r / minute) 60 eq_refl). pose proof (Z.mod_pos_bound (r / second) 60 eq_refl).
  repeat split; try lia.
  assert (r / minute / 60 = r / hour) by (rewrite Z.div_div by done; done).
  assert (r / second / 60 = r / minute) by (rewrite Z.div_div by done; done).
  pose proof (Z.div_mod (r / minute) 60 ltac:(done)). pose proof (Z.div_mod (r / second) 60 ltac:(done)).
  pose proof (Z.div_mod r second ltac:(done)).
  pose proof (Z.div_mod (r mod second) millisecond ltac:(done)).
  assert ((r mod second) mod millisecond = r mod millisecond).
  { change second with (1000 * millisecond). rewrite <- (Znumtheory.Zmod_div_mod millisecond (1000 * millisecond) r); [done..|by exists 1000]. }
  unfold hour, minute, second, millisecond in *. lia.
Qed.

Lemma millis_of_day z r : z * day_ns + (r - r mod millisecond) = z * day_ns + r - (z * day_ns + r) mod millisecond.
Proof.
  replace (z * day_ns + r) with (r + z * 86400000 * millisecond) by (unfold day_ns, hour, minute, second, millisecond; lia).
  rewrite Z.mod_add by done. unfold day_ns, hour, minute, second, millisecond. lia.
Qed.

(** A stamp that a limiter wrote is read back, to the millisecond. *)
Lemma Parse_Format wall : wall_ok wall -> Parse (Format wall) = Some (wall - wall mod millisecond).
Proof.
  intros Hw. unfold Parse. rewrite Format_bytes by done. destruct Hw as [H0 Hy].
  set (z := wall / day_ns) in *. set (r := wall mod day_ns) in *.
  pose proof (month_mday z) as (Hm & Hd & _).
  pose proof (days_in_range (isLeap (year z)) (month z) Hm) as Hdi.
  assert (0 <= r < day_ns) as Hr by (apply Z.mod_pos_bound; apply day_ns_pos).
  assert (0 <= year z) as Hyz.
  { subst z. assert (0 <= wall / day_ns) by (apply Z.div_pos; [done|apply day_ns_pos]).
    pose proof (cycle_bounds (wall / day_ns)). pose proof (Z.div_pos (wall / day_ns) 146097 ltac:(lia) ltac:(lia)). unfold year, n400. lia. }
  assert (Hbig : wall = z * day_ns + r) by (subst z r; rewrite (Z.div_mod wall day_ns) at 1 by done; lia).
  clearbody z r.
  destruct (clock_parts r Hr) as (Hh & Hmi & Hse & Hms & Hsum).
  assert (wall - wall mod millisecond = z * day_ns + r / hour * hour + r / minute mod 60 * minute +
            r / second mod 60 * second + r mod second / millisecond * millisecond) as ->.
  { rewrite Hbig, <- millis_of_day. lia. }
  clear Hr Hsum.
  rewrite parse_year_pad by lia. cbn [mbind option_bind skip]. rewrite Z.eqb_refl. cbn [mbind option_bind].
  rewrite getnum_pad2 by lia. cbn [mbind option_bind]. rewrite within_ok by lia. cbn [mbind option_bind skip].
  rewrite Z.eqb_refl. cbn [mbind option_bind].
  rewrite getnum_pad2 by lia. cbn [mbind option_bind skip]. rewrite Z.eqb_refl. cbn [mbind option_bind].
  do 3 (rewrite getnum_pad2 by lia; cbn [mbind option_bind];
        rewrite within_ok by lia; cbn [mbind option_bind skip];
        rewrite ?Z.eqb_refl; cbn [mbind option_bind]).
  rewrite parse_millis_pad by lia. cbn [mbind option_bind skip].
  rewrite Z.eqb_refl. cbn [mbind option_bind]. rewrite within_ok by lia. cbn [mbind option_bind].
  replace (mday z) with (mday z + 0) by lia. rewrite Date_of_day. by rewrite Z.add_0_r.
Qed.

End TimeFormatFacts.
