(* ===== verification/Redis.v ===== *)
(** * What the gateway relies on of Redis

    The Redis server is outside the program.  The limiters use its lists and sorted
    sets, the second factor and the session bindings its strings, through the classes of
    this file: a command is a function of the server's clock (milliseconds) and of the
    server's state, [peekl], [peekz] and [peeks] observe a key (its value and the time
    it expires, if it has one), and the laws state the documented behaviour of the
    commands on what can be observed.  Reads are defined
    from the observation.  The two instances at the end, keyspaces as finite maps, show
    that the laws can hold and let the models run. *)

From S2P Require Import Prelude GoStrings.

(** What is left at [t'] of a key observed earlier. *)
Definition age {V} (t' : Z) (e : option (V * option Z)) : option (V * option Z) :=
  match e with
  | Some (_, Some deadline) => if deadline <=? t' then None else e
  | _ => e
  end.

(** ** Lists *)

(** [LTRIM key 0 stop]: a negative [stop] counts from the end. *)
Definition ltrim {A} (stop : Z) (l : list A) : list A :=
  take (Z.to_nat ((if stop <? 0 then stop + Z.of_nat (length l) else stop) + 1)) l.

Class RedisLists (R : Type) := {
  peekl : Z -> string -> R -> option (list string * option Z);
  LPUSH : Z -> string -> string -> R -> R;
  LTRIM : Z -> string -> Z -> R -> R;
  EXPIRE : Z -> string -> Z -> R -> R;
  DEL : Z -> string -> R -> R
}.

Class RedisListLaws (R : Type) `{RedisLists R} : Prop := {
  peekl_age t t' k r : t <= t' -> peekl t' k r = age t' (peekl t k r);
  peekl_push t k v r :
    peekl t k (LPUSH t k v r) =
      Some (match peekl t k r with Some (l, d) => (v :: l, d) | None => ([v], None) end);
  peekl_trim t k stop r l d :
    peekl t k r = Some (l, d) -> ltrim stop l <> [] -> peekl t k (LTRIM t k stop r) = Some (ltrim stop l, d);
  peekl_expire t k ttl r :
    0 < ttl -> peekl t k (EXPIRE t k ttl r) = (fun '(l, _) => (l, Some (t + ttl))) <$> peekl t k r;
  peekl_del t k r : peekl t k (DEL t k r) = None;
  peekl_push_ne t k k' v r : k <> k' -> peekl t k' (LPUSH t k v r) = peekl t k' r;
  peekl_trim_ne t k k' stop r : k <> k' -> peekl t k' (LTRIM t k stop r) = peekl t k' r;
  peekl_expire_ne t k k' ttl r : k <> k' -> peekl t k' (EXPIRE t k ttl r) = peekl t k' r;
  peekl_del_ne t k k' r : k <> k' -> peekl t k' (DEL t k r) = peekl t k' r
}.

Section Reads.
Context {R} `{RedisLists R}.

Definition lelems (t : Z) (k : string) (r : R) : list string := default [] (fst <$> peekl t k r).

Definition LLEN (t : Z) (k : string) (r : R) : Z := Z.of_nat (length (lelems t k r)).

(** [LINDEX key -1]; [None] is the nil reply. *)
Definition LINDEX_last (t : Z) (k : string) (r : R) : option string := last (lelems t k r).
End Reads.

(** ** Sorted sets *)

(** [ZREMRANGEBYSCORE key -inf max]. *)
Definition zprune (max : Z) (z : gmap string Z) : gmap string Z := filter (fun kv => max < snd kv) z.

Class RedisZsets (R : Type) := {
  peekz : Z -> string -> R -> option (gmap string Z * option Z);
  ZADD : Z -> string -> Z -> string -> R -> R;
  ZREMRANGEBYSCORE : Z -> string -> Z -> R -> R;
  ZEXPIRE : Z -> string -> Z -> R -> R
}.

Definition zelems {R} `{RedisZsets R} (t : Z) (k : string) (r : R) : gmap string Z :=
  default ∅ (fst <$> peekz t k r).

Class RedisZsetLaws (R : Type) `{RedisZsets R} : Prop := {
  peekz_age t t' k r : t <= t' -> peekz t' k r = age t' (peekz t k r);
  peekz_add t k score m r :
    peekz t k (ZADD t k score m r) =
      Some (match peekz t k r with Some (z, d) => (<[m := score]> z, d) | None => ({[m := score]}, None) end);
  zelems_prune t k max r : zelems t k (ZREMRANGEBYSCORE t k max r) = zprune max (zelems t k r);
  peekz_prune_deadline t k max r z d :
    peekz t k (ZREMRANGEBYSCORE t k max r) = Some (z, d) -> snd <$> peekz t k r = Some d;
  peekz_expire t k ttl r :
    0 < ttl -> peekz t k (ZEXPIRE t k ttl r) = (fun '(z, _) => (z, Some (t + ttl))) <$> peekz t k r;
  peekz_add_ne t k k' score m r : k <> k' -> peekz t k' (ZADD t k score m r) = peekz t k' r;
  peekz_prune_ne t k k' max r : k <> k' -> peekz t k' (ZREMRANGEBYSCORE t k max r) = peekz t k' r;
  peekz_expire_ne t k k' ttl r : k <> k' -> peekz t k' (ZEXPIRE t k ttl r) = peekz t k' r
}.

Section ZReads.
Context {R} `{RedisZsets R}.

Definition ZCARD (t : Z) (k : string) (r : R) : Z := Z.of_nat (size (zelems t k r)).

(** The least score, that of the first element of [ZRANGE key 0 _ WITHSCORES]. *)
Definition zmin (z : gmap string Z) : option Z :=
  map_fold (fun _ s acc => Some (match acc with Some a => Z.min a s | None => s end)) None z.

Definition ZFIRST (t : Z) (k : string) (r : R) : option Z := zmin (zelems t k r).

(** The members of [ZRANGE key 0 -1], in some order. *)
Definition ZMEMBERS (t : Z) (k : string) (r : R) : list string := (map_to_list (zelems t k r)).*1.
End ZReads.

(** *** Sorted sets as lists of members and scores *)

Lemma zlist_prune max z L :
  map_to_list z ≡ₚ L -> map_to_list (zprune max z) ≡ₚ List.filter (fun e => max <? e.2) L.
Proof.
  intros HL. unfold zprune. rewrite map_filter_alt, map_to_list_to_map.
  - assert (forall l : list (string * Z), filter (fun kv => max < kv.2) l = List.filter (fun e => max <? e.2) l) as ->.
    { induction l as [|e l IH]; [done|]. rewrite filter_cons. cbn. destruct (Z.ltb_spec max e.2);
        [rewrite decide_True by done|rewrite decide_False by lia]; by rewrite IH. }
    induction HL; cbn; repeat case_match; eauto using Permutation.
  - eapply sublist_NoDup; [apply (NoDup_fst_map_to_list z)|]. apply fmap_sublist, sublist_filter.
Qed.

Lemma zlist_insert (z : gmap string Z) L m s :
  map_to_list z ≡ₚ L -> m ∉ L.*1 -> map_to_list (<[m := s]> z) ≡ₚ L ++ [(m, s)].
Proof.
  intros HL Hm. rewrite map_to_list_insert.
  - rewrite HL. by rewrite Permutation_app_comm.
  - apply not_elem_of_list_to_map_1 in Hm. by rewrite (list_to_map_flip z L HL).
Qed.

Lemma zlist_size (z : gmap string Z) L : map_to_list z ≡ₚ L -> size z = length L.
Proof. intros HL. rewrite <- (Permutation_length HL). symmetry. apply length_map_to_list. Qed.

(** ** Keyspaces as finite maps *)

Section Keyspace.
Context {V : Type}.

Abbreviation keyspace V := (gmap string (V * option Z)).

Definition ks_peek (t : Z) (k : string) (r : keyspace V) : option (V * option Z) := age t (r !! k).

(** Replace the value of a key, keeping its expiry; a key without a value goes away. *)
Definition ks_set (t : Z) (k : string) (f : option V -> option V) (r : keyspace V) : keyspace V :=
  let e := ks_peek t k r in
  match f (fst <$> e) with
  | Some v => <[k := (v, default None (snd <$> e))]> r
  | None => delete k r
  end.

Definition ks_expire (t : Z) (k : string) (ttl : Z) (r : keyspace V) : keyspace V :=
  match ks_peek t k r with
  | Some (v, _) => <[k := (v, Some (t + ttl))]> r
  | None => r
  end.

Lemma age_age t t' (e : option (V * option Z)) : t <= t' -> age t' (age t e) = age t' e.
Proof.
  intros Ht. destruct e as [[v [d|]]|]; cbn [age]; try done.
  destruct (Z.leb_spec d t); cbn [age]; destruct (Z.leb_spec d t'); (done || lia).
Qed.

Lemma ks_peek_age t t' k (r : keyspace V) : t <= t' -> ks_peek t' k r = age t' (ks_peek t k r).
Proof. intros Ht. unfold ks_peek. by rewrite age_age. Qed.

Lemma age_keep t (e : option (V * option Z)) (v v' : V) (d : option Z) : age t e = Some (v, d) -> age t (Some (v', d)) = Some (v', d).
Proof.
  intros He. assert (d = None \/ exists x, d = Some x /\ (x <=? t) = false) as [->|(x & -> & Hx)].
  { destruct e as [[w [x|]]|]; cbn in He; [|naive_solver..]. destruct (x <=? t) eqn:Hx; naive_solver. }
  - done.
  - cbn. by rewrite Hx.
Qed.

Lemma ks_peek_set t k f (r : keyspace V) :
  ks_peek t k (ks_set t k f r) = (fun v => (v, default None (snd <$> ks_peek t k r))) <$> f (fst <$> ks_peek t k r).
Proof.
  unfold ks_set, ks_peek at 1. destruct (f _) as [v|]; cbn [fmap option_fmap option_map].
  - rewrite lookup_insert_eq. destruct (ks_peek t k r) as [[w d]|] eqn:He; cbn; [|done].
    by eapply age_keep in He.
  - by rewrite lookup_delete_eq.
Qed.

Lemma ks_peek_set_ne t k k' f (r : keyspace V) : k <> k' -> ks_peek t k' (ks_set t k f r) = ks_peek t k' r.
Proof.
  intros Hk. unfold ks_set. destruct (f _); unfold ks_peek;
    [by rewrite lookup_insert_ne|by rewrite lookup_delete_ne].
Qed.

Lemma ks_peek_expire t k ttl (r : keyspace V) :
  0 < ttl -> ks_peek t k (ks_expire t k ttl r) = (fun '(v, _) => (v, Some (t + ttl))) <$> ks_peek t k r.
Proof.
  intros Ht. unfold ks_expire. destruct (ks_peek t k r) as [[v d]|] eqn:He; [|done].
  unfold ks_peek. rewrite lookup_insert_eq. cbn. by replace (t + ttl <=? t) with false by lia.
Qed.

Lemma ks_peek_expire_ne t k k' ttl (r : keyspace V) :
  k <> k' -> ks_peek t k' (ks_expire t k ttl r) = ks_peek t k' r.
Proof.
  intros Hk. unfold ks_expire. destruct (ks_peek t k r) as [[v d]|]; [|done].
  unfold ks_peek. by rewrite lookup_insert_ne.
Qed.
End Keyspace.

Definition nonempty {A} (l : list A) : option (list A) := match l with [] => None | _ => Some l end.

Abbreviation lists := (gmap string (list string * option Z)).
Abbreviation zsets := (gmap string (gmap string Z * option Z)).

#[export] Instance lists_ops : RedisLists lists := {
  peekl := ks_peek;
  LPUSH t k v := ks_set t k (fun l => Some (v :: default [] l));
  LTRIM t k stop := ks_set t k (fun l => l ← l; nonempty (ltrim stop l));
  EXPIRE := ks_expire;
  DEL t k := ks_set t k (fun _ => None)
}.

#[export] Instance lists_laws : RedisListLaws lists.
Proof.
  split; unfold peekl, LPUSH, LTRIM, EXPIRE, DEL, lists_ops.
  - intros. by apply ks_peek_age.
  - intros. rewrite ks_peek_set. by destruct (ks_peek t k r) as [[l d]|].
  - intros t k stop r l d He Hne. rewrite ks_peek_set, He. cbn. by destruct (ltrim stop l).
  - intros. by apply ks_peek_expire.
  - intros. by rewrite ks_peek_set.
  - intros. by apply ks_peek_set_ne.
  - intros. by apply ks_peek_set_ne.
  - intros. by apply ks_peek_expire_ne.
  - intros. by apply ks_peek_set_ne.
Qed.

Definition zkeep (z : gmap string Z) : option (gmap string Z) := if decide (z = ∅) then None else Some z.

#[export] Instance zsets_ops : RedisZsets zsets := {
  peekz := ks_peek;
  ZADD t k score m := ks_set t k (fun z => Some (<[m := score]> (default ∅ z)));
  ZREMRANGEBYSCORE t k max := ks_set t k (fun z => z ← z; zkeep (zprune max z));
  ZEXPIRE := ks_expire
}.

#[export] Instance zsets_laws : RedisZsetLaws zsets.
Proof.
  split; unfold zelems, peekz, ZADD, ZREMRANGEBYSCORE, ZEXPIRE, zsets_ops.
  - intros. by apply ks_peek_age.
  - intros. rewrite ks_peek_set. by destruct (ks_peek t k r) as [[z d]|].
  - intros. rewrite ks_peek_set. destruct (ks_peek t k r) as [[z d]|]; cbn; [|done].
    unfold zkeep. by case_decide as He.
  - intros t k max r z d. rewrite ks_peek_set. destruct (ks_peek t k r) as [[z' d']|]; cbn; [|done].
    unfold zkeep. case_decide; naive_solver.
  - intros. by apply ks_peek_expire.
  - intros. by apply ks_peek_set_ne.
  - intros. by apply ks_peek_set_ne.
  - intros. by apply ks_peek_expire_ne.
Qed.

(** ** Strings *)

Class RedisStrings (R : Type) := {
  peeks : Z -> string -> R -> option (string * option Z);
  SET : Z -> string -> string -> Z -> R -> R;
  SETNX : Z -> string -> string -> Z -> R -> bool * R;
  INCR : Z -> string -> R -> option Z * R;   (* [None]: the value is not an integer *)
  SEXPIRE : Z -> string -> Z -> R -> R;
  SDEL : Z -> string -> R -> R
}.

(** The counter under a key: decimal, no key being zero. *)
Definition counted (e : option (string * option Z)) (n : Z) : Prop :=
  match e with Some (v, _) => v = GoStrings.Itoa n | None => n = 0 end.

Class RedisStringLaws (R : Type) `{RedisStrings R} : Prop := {
  peeks_age t t' k r : t <= t' -> peeks t' k r = age t' (peeks t k r);
  set_sets t k v ttl r : 0 < ttl -> peeks t k (SET t k v ttl r) = Some (v, Some (t + ttl));
  setnx_free t k v ttl r :
    0 < ttl -> peeks t k r = None ->
    (SETNX t k v ttl r).1 = true /\ peeks t k (SETNX t k v ttl r).2 = Some (v, Some (t + ttl));
  setnx_taken t k v ttl r :
    peeks t k r <> None -> (SETNX t k v ttl r).1 = false /\ peeks t k (SETNX t k v ttl r).2 = peeks t k r;
  incr_counts t k r n :
    counted (peeks t k r) n -> 0 <= n < i64_max ->
    (INCR t k r).1 = Some (n + 1) /\
    peeks t k (INCR t k r).2 = Some (GoStrings.Itoa (n + 1), default None (snd <$> peeks t k r));
  sexpire_sets t k ttl r :
    0 < ttl -> peeks t k (SEXPIRE t k ttl r) = (fun '(v, _) => (v, Some (t + ttl))) <$> peeks t k r;
  sdel_deletes t k r : peeks t k (SDEL t k r) = None;
  set_ne t k k' v ttl r : k <> k' -> peeks t k' (SET t k v ttl r) = peeks t k' r;
  setnx_ne t k k' v ttl r : k <> k' -> peeks t k' (SETNX t k v ttl r).2 = peeks t k' r;
  incr_ne t k k' r : k <> k' -> peeks t k' (INCR t k r).2 = peeks t k' r;
  sexpire_ne t k k' ttl r : k <> k' -> peeks t k' (SEXPIRE t k ttl r) = peeks t k' r;
  sdel_ne t k k' r : k <> k' -> peeks t k' (SDEL t k r) = peeks t k' r
}.

Definition GET {R} `{RedisStrings R} (t : Z) (k : string) (r : R) : option string := fst <$> peeks t k r.

Abbreviation strs := (gmap string (string * option Z)).

#[export] Instance strs_ops : RedisStrings strs := {
  peeks := ks_peek;
  SET t k v ttl r := <[k := (v, Some (t + ttl))]> r;
  SETNX t k v ttl r :=
    match ks_peek t k r with
    | Some _ => (false, r)
    | None => (true, <[k := (v, Some (t + ttl))]> r)
    end;
  INCR t k r :=
    match GoStrings.Atoi (default "0" (fst <$> ks_peek t k r)) with
    | Some n => (Some (n + 1), ks_set t k (fun _ => Some (GoStrings.Itoa (n + 1))) r)
    | None => (None, r)
    end;
  SEXPIRE := ks_expire;
  SDEL t k := ks_set t k (fun _ => None)
}.

#[export] Instance strs_laws : RedisStringLaws strs.
Proof.
  split; unfold peeks, SET, SETNX, INCR, SEXPIRE, SDEL, strs_ops.
  - intros. by apply ks_peek_age.
  - intros t k v ttl r Ht. unfold ks_peek. rewrite lookup_insert_eq. cbn. by replace (t + ttl <=? t) with false by lia.
  - intros t k v ttl r Ht He. rewrite He. split; [done|].
    cbn. unfold ks_peek. rewrite lookup_insert_eq. cbn. by replace (t + ttl <=? t) with false by lia.
  - intros t k v ttl r He. by destruct (ks_peek t k r) as [e|] eqn:Hp.
  - intros t k r n Hc Hn.
    replace (GoStrings.Atoi (default "0" (fst <$> ks_peek t k r))) with (Some n).
    + split; [done|]. cbn [snd]. by rewrite ks_peek_set.
    + destruct (ks_peek t k r) as [[v d]|]; cbn in *; subst; [|done].
      rewrite GoStrings.Atoi_Itoa; [done|]. unfold64. lia.
  - intros. by apply ks_peek_expire.
  - intros. by rewrite ks_peek_set.
  - intros t k k' v ttl r Hk. unfold ks_peek. by rewrite lookup_insert_ne.
  - intros t k k' v ttl r Hk. destruct (ks_peek t k r); [done|]. cbn. unfold ks_peek. by rewrite lookup_insert_ne.
  - intros t k k' r Hk. destruct (GoStrings.Atoi _); [|done]. by apply ks_peek_set_ne.
  - intros. by apply ks_peek_expire_ne.
  - intros. by apply ks_peek_set_ne.
Qed.

(** ** Hashes *)

(** The time to live of an observed key, in seconds: rounded to the nearest, [-1] for a
    key without one, [-2] for no key. *)
Definition ttl_seconds {V} (t : Z) (e : option (V * option Z)) : Z :=
  match e with
  | Some (_, Some deadline) => (deadline - t + 500) / 1000
  | Some (_, None) => -1
  | None => -2
  end.

Class RedisHashes (R : Type) := {
  peekh : Z -> string -> R -> option (gmap string string * option Z);
  HSET : Z -> string -> gmap string string -> R -> R;
  HINCRBY : Z -> string -> string -> Z -> R -> option Z * R;   (* [None]: not an integer, or out of range *)
  HashEXPIRE : Z -> string -> Z -> R -> R;
  HashDEL : Z -> string -> R -> R
}.

Section HashReads.
Context {R} `{RedisHashes R}.

Definition hfields (t : Z) (k : string) (r : R) : gmap string string := default ∅ (fst <$> peekh t k r).
Definition hdeadline (t : Z) (k : string) (r : R) : option Z := default None (snd <$> peekh t k r).

(** [HGETALL]: no fields for no key. *)
Definition HGETALL (t : Z) (k : string) (r : R) : gmap string string := hfields t k r.

Definition TTL (t : Z) (k : string) (r : R) : Z := ttl_seconds t (peekh t k r).

(** The integer under a field, a missing field being zero. *)
Definition hcount (t : Z) (k f : string) (r : R) : option Z := GoStrings.Atoi (default "0" (hfields t k r !! f)).
End HashReads.

Class RedisHashLaws (R : Type) `{RedisHashes R} : Prop := {
  peekh_age t t' k r : t <= t' -> peekh t' k r = age t' (peekh t k r);
  hset_merges t k fs r : fs <> ∅ -> peekh t k (HSET t k fs r) = Some (fs ∪ hfields t k r, hdeadline t k r);
  hincr_adds t k f d r n : hcount t k f r = Some n -> in64 (n + d) -> (HINCRBY t k f d r).1 = Some (n + d);
  hincr_stores t k f d r m :
    (HINCRBY t k f d r).1 = Some m ->
    peekh t k (HINCRBY t k f d r).2 = Some (<[f := GoStrings.Itoa m]> (hfields t k r), hdeadline t k r);
  hincr_range t k f d r m : (HINCRBY t k f d r).1 = Some m -> in64 m;
  hincr_refuses t k f d r : (HINCRBY t k f d r).1 = None -> peekh t k (HINCRBY t k f d r).2 = peekh t k r;
  hexpire_sets t k ttl r :
    0 < ttl -> peekh t k (HashEXPIRE t k ttl r) = (fun '(h, _) => (h, Some (t + ttl))) <$> peekh t k r;
  hdel_deletes t k r : peekh t k (HashDEL t k r) = None;
  hset_ne t k k' fs r : k <> k' -> peekh t k' (HSET t k fs r) = peekh t k' r;
  hincr_ne t k k' f d r : k <> k' -> peekh t k' (HINCRBY t k f d r).2 = peekh t k' r;
  hexpire_ne t k k' ttl r : k <> k' -> peekh t k' (HashEXPIRE t k ttl r) = peekh t k' r;
  hdel_ne t k k' r : k <> k' -> peekh t k' (HashDEL t k r) = peekh t k' r
}.

Abbreviation hashes := (gmap string (gmap string string * option Z)).

#[export] Instance hashes_ops : RedisHashes hashes := {
  peekh := ks_peek;
  HSET t k fs := ks_set t k (fun h => Some (fs ∪ default ∅ h));
  HINCRBY t k f d r :=
    match GoStrings.Atoi (default "0" (default ∅ (fst <$> ks_peek t k r) !! f)) with
    | Some n =>
        if in64b (n + d) then (Some (n + d), ks_set t k (fun h => Some (<[f := GoStrings.Itoa (n + d)]> (default ∅ h))) r)
        else (None, r)
    | None => (None, r)
    end;
  HashEXPIRE := ks_expire;
  HashDEL t k := ks_set t k (fun _ => None)
}.

#[export] Instance hashes_laws : RedisHashLaws hashes.
Proof.
  split; unfold hfields, hdeadline, hcount, peekh, HSET, HINCRBY, HashEXPIRE, HashDEL, hashes_ops.
  - intros. by apply ks_peek_age.
  - intros. by rewrite ks_peek_set.
  - intros t k f d r n Hn Hd%in64b_spec. unfold hfields in Hn. unfold peekh in Hn.
    cbv zeta. rewrite Hn. by rewrite Hd.
  - intros t k f d r m. destruct (GoStrings.Atoi _) as [n|]; [|done]. destruct (in64b _); [|done].
    intros [= <-]. cbn [snd]. by rewrite ks_peek_set.
  - intros t k f d r m. destruct (GoStrings.Atoi _) as [n|]; [|done]. destruct (in64b _) eqn:Hb; [|done].
    intros [= <-]. by apply in64b_spec.
  - intros t k f d r. destruct (GoStrings.Atoi _) as [n|]; [|done]. by destruct (in64b _).
  - intros. by apply ks_peek_expire.
  - intros. by rewrite ks_peek_set.
  - intros. by apply ks_peek_set_ne.
  - intros t k k' f d r Hk. destruct (GoStrings.Atoi _) as [n|]; [|done]. destruct (in64b _); [|done].
    by apply ks_peek_set_ne.
  - intros. by apply ks_peek_expire_ne.
  - intros. by apply ks_peek_set_ne.
Qed.
