(* ===== verification/SessionAffinity.v ===== *)
(** * Session affinity

    Model of internal/app/session_affinity.go and internal/adapter/repo/
    channel_affinity.go: the binding of a conversation to the channel that served it,
    stored in Redis or in a bounded map of the process, and its resolution to a channel
    that is still eligible.  Redis is seen through the strings of [Redis]: its commands
    may fail, and a key expires by the server's own clock, an entry of the map by the
    process's.  The key of a conversation is its keyed digest, an argument here.  The
    theorems: a binding reads back as it was stored exactly until its last deadline,
    the map stays bounded, and a pin never reaches beyond what selection offers. *)

From S2P Require Import Prelude GoStrings TimeFormat ChannelKeys SmartRouting ChannelCache ChannelCacheSpec Redis ChannelCooldown ChannelSelect ChannelSelectSpec.

Module SessionAffinity.
Import GoStrings TimeFormat ChannelKeys SmartRouting ChannelCache ChannelCooldown ChannelSelect.

Definition affinityRedisPrefix : string := "session_affinity:".
Definition affinityDefaultTTLSeconds : Z := 3600.
Definition affinityMemMaxEntries : Z := 50000.
Definition bar : Ascii.ascii := Ascii.ascii_of_nat 124.

Definition affinityTTL (secs : Z) : Z :=
  if secs <=? 0 then affinityDefaultTTLSeconds * second else i64_mul secs second.

Record affinityRecord := mkRecord { ChannelID : Z; rec_Group : string }.

Definition encodeAffinity (r : affinityRecord) : string := Itoa (ChannelID r) +:+ String bar (rec_Group r).

Definition decodeAffinity (s : string) : option affinityRecord :=
  match Cut s bar with
  | None => None
  | Some (i, group) =>
      match Atoi i with
      | Some channelID => if channelID <=? 0 then None else Some (mkRecord channelID group)
      | None => None
      end
  end.

(** ** The store *)

(** The clock of the process (nanoseconds) and that of the Redis server
    (milliseconds) when a request runs; the commands of one request run with nothing
    between them. *)
Record moment := mkMoment { clock : Z; server : Z }.

Record affinityMemEntry := mkEntry { value : string; expires : Z }.

Record affinity (R : Type) := mkAffinity {
  affinityMem : gmap string affinityMemEntry;
  redis : R;
  hits : Z; missed : Z; stale_ : Z
}.
#[global] Arguments mkAffinity {R}.
#[global] Arguments affinityMem {R}.
#[global] Arguments redis {R}.
#[global] Arguments hits {R}.
#[global] Arguments missed {R}.
#[global] Arguments stale_ {R}.

(** Whether Redis is in use, and whether its reads and writes go through. *)
Record backend := mkBackend { RedisEnabled : bool; get_ok : bool; set_ok : bool }.

Definition pruneAffinityMemLocked (now : Z) (m : gmap string affinityMemEntry) : gmap string affinityMemEntry :=
  filter (fun kv => (now >? expires kv.2) = false) m.

Definition full (m : gmap string affinityMemEntry) : bool := Z.of_nat (size m) >=? affinityMemMaxEntries.

(** A page of SCAN: its keys and the next cursor, [None] when the call fails; and
    whether the UNLINK that follows goes through. *)
Record page := mkPage { scanned : option (list string * Z); unlink_ok : bool }.

Record purge_result := mkPurged { purged : Z; complete : bool; purge_err : bool }.

Definition affinityPurgeAllMaxRounds : nat := 10000.

Section Store.
Context {R : Type} `{RedisStrings R}.
Implicit Types (a : affinity R).

Definition set_mem (m : gmap string affinityMemEntry) a : affinity R :=
  mkAffinity m (redis a) (hits a) (missed a) (stale_ a).
Definition set_redis (r : R) a : affinity R := mkAffinity (affinityMem a) r (hits a) (missed a) (stale_ a).

(** [common.RedisSet]: the time to live reaches Redis in milliseconds. *)
Definition RedisSet (t : Z) (key val : string) (ttl : Z) (r : R) : R := SET t key val (Z.quot ttl millisecond) r.

Definition affinityLoad (b : backend) (m : moment) (ttl : Z) (key : string) a : option affinityRecord * affinity R :=
  if RedisEnabled b then
    let k := affinityRedisPrefix +:+ key in
    match (if get_ok b then GET (server m) k (redis a) else None) with
    | None => (None, a)
    | Some val =>
        if String.eqb val "" then (None, a)
        else match decodeAffinity val with
        | None => (None, a)
        | Some r => (Some r, if set_ok b then set_redis (RedisSet (server m) k val ttl (redis a)) a else a)
        end
    end
  else match affinityMem a !! key with
  | None => (None, a)
  | Some e =>
      if clock m >? expires e then (None, set_mem (delete key (affinityMem a)) a)
      else match decodeAffinity (value e) with
      | None => (None, a)
      | Some r => (Some r, set_mem (<[key := mkEntry (value e) (time_Add (clock m) ttl)]> (affinityMem a)) a)
      end
  end.

Definition affinityStore (b : backend) (m : moment) (ttl : Z) (key : string) (r : affinityRecord) a : affinity R :=
  let v := encodeAffinity r in
  if RedisEnabled b then
    if set_ok b then set_redis (RedisSet (server m) (affinityRedisPrefix +:+ key) v ttl (redis a)) a else a
  else
    let put l := set_mem (<[key := mkEntry v (time_Add (clock m) ttl)]> l) a in
    if full (affinityMem a) then
      let l := pruneAffinityMemLocked (clock m) (affinityMem a) in
      if full l then set_mem l a else put l
    else put (affinityMem a).

(** [None] is a Redis failure. *)
Definition PurgeAffinityKey (b : backend) (m : moment) (key : string) a : option bool * affinity R :=
  if RedisEnabled b then
    let k := affinityRedisPrefix +:+ key in
    if set_ok b
    then (Some (bool_decide (is_Some (GET (server m) k (redis a)))), set_redis (SDEL (server m) k (redis a)) a)
    else (None, a)
  else match affinityMem a !! key with
  | None => (Some false, a)
  | Some _ => (Some true, set_mem (delete key (affinityMem a)) a)
  end.

Fixpoint purge_pages (rounds : nat) (pages : nat -> page) (t : Z) (n : nat) (count : Z) (r : R) : purge_result * R :=
  match rounds with
  | O => (mkPurged count false false, r)
  | S rounds =>
      match scanned (pages n) with
      | None => (mkPurged count false true, r)
      | Some (keys, next) =>
          match keys with
          | [] => if next =? 0 then (mkPurged count true false, r) else purge_pages rounds pages t (S n) count r
          | _ =>
              if unlink_ok (pages n) then
                let r' := fold_left (fun r k => SDEL t k r) keys r in
                let count' := count + Z.of_nat (length keys) in
                if next =? 0 then (mkPurged count' true false, r') else purge_pages rounds pages t (S n) count' r'
              else (mkPurged count false true, r)
          end
      end
  end.

Definition PurgeAllAffinity (b : backend) (m : moment) (pages : nat -> page) a : purge_result * affinity R :=
  if RedisEnabled b then
    let '(res, r) := purge_pages affinityPurgeAllMaxRounds pages (server m) 0 0 (redis a) in (res, set_redis r a)
  else (mkPurged (Z.of_nat (size (affinityMem a))) true false, set_mem ∅ a).

Definition recordAffinityOutcome (hit miss stl : Z) a : affinity R :=
  mkAffinity (affinityMem a) (redis a) (hits a + hit) (missed a + miss) (stale_ a + stl).
End Store.

(** ** Resolution *)

Definition GetSatisfiedChannelByID (t : table) (group model : string) (channelId : Z) : option Channel :=
  if (channelId <=? 0) || String.eqb group "" || String.eqb model "" then None
  else
    let exact := routed t group model in
    let candidates := match exact with [] => routed t group (FormatMatchingModelName model) | _ => exact end in
    if existsb (Z.eqb channelId) candidates then channelsIDM t !! channelId else None.

(** With the memory cache off. *)
Definition GetSatisfiedChannelByID_db (rows : list Channel) (abilities : list Ability) (group model : string)
    (channelId : Z) : option Channel :=
  if (channelId <=? 0) || String.eqb group "" || String.eqb model "" then None
  else match first_where (fun a => String.eqb (a_Group a) group && String.eqb (a_Model a) model &&
                                   a_Enabled a && (a_ChannelId a =? channelId)) abilities with
  | None => None
  | Some _ => match by_id rows channelId with
              | Some c => if Status c =? ChannelStatusEnabled then Some c else None
              | None => None
              end
  end.

(** [resolve] is one of the two functions above. *)
Definition lookupAffinityChannel {R : Type} `{RedisStrings R} (resolve : string -> string -> Z -> option Channel)
    (b : backend) (m : moment) (ttl : Z) (tenantID model key : string) (a : affinity R)
    : option (Channel * string) * affinity R :=
  match affinityLoad b m ttl key a with
  | (None, a1) => (None, recordAffinityOutcome 0 1 0 a1)
  | (Some r, a1) =>
      match resolve (rec_Group r) model (ChannelID r) with
      | None => (None, recordAffinityOutcome 0 0 1 a1)
      | Some c =>
          if negb (String.eqb tenantID "") && negb (visible tenantID c)
          then (None, recordAffinityOutcome 0 0 1 a1)
          else (Some (c, rec_Group r), recordAffinityOutcome 1 0 0 a1)
      end
  end.
End SessionAffinity.

(** ** Theorems *)

Section AffinityFacts.
Import GoStrings TimeFormat ChannelKeys SmartRouting ChannelCache ChannelCooldown ChannelSelect SessionAffinity.

Lemma decode_encode r : 0 < ChannelID r -> in64 (ChannelID r) -> decodeAffinity (encodeAffinity r) = Some r.
Proof.
  intros Hp Hi. unfold decodeAffinity, encodeAffinity.
  rewrite Cut_app by (apply Itoa_lacks; vm_compute; [discriminate|by right]). rewrite Atoi_Itoa by done.
  destruct (Z.leb_spec (ChannelID r) 0); [lia|]. by destruct r.
Qed.

Lemma encode_nonempty r : String.eqb (encodeAffinity r) "" = false.
Proof. unfold encodeAffinity. by destruct (Itoa (ChannelID r)). Qed.

(** The operations on the store, each with the outcome of its Redis commands. *)
Inductive affinity_op :=
| OLoad (gets sets : bool) (m : moment) (ttl : Z) (key : string)
| OStore (sets : bool) (m : moment) (ttl : Z) (key : string) (r : affinityRecord)
| OPurge (dels : bool) (m : moment) (key : string)
| OPurgeAll (m : moment) (pages : nat -> page).

Definition op_at (o : affinity_op) : moment :=
  match o with OLoad _ _ m _ _ | OStore _ m _ _ _ | OPurge _ m _ | OPurgeAll m _ => m end.

Definition not_before (m m' : moment) : Prop := clock m <= clock m' /\ server m <= server m'.

(** The operations come one after the other between two moments. *)
Fixpoint in_order (m : moment) (ops : list affinity_op) (m' : moment) : Prop :=
  match ops with
  | [] => not_before m m'
  | o :: ops => not_before m (op_at o) /\ in_order (op_at o) ops m'
  end.

(** An operation that leaves the binding of [key] to itself: it neither binds nor
    purges it, and where it reads it, it does so with a time to live Redis can hold. *)
Definition spares (key : string) (o : affinity_op) : Prop :=
  match o with
  | OLoad _ _ _ ttl _ => millisecond <= ttl
  | OStore _ _ _ key' _ | OPurge _ _ key' => key' <> key
  | OPurgeAll _ _ => False
  end.

(** The moment a binding written at [m] expires, by the clock of its backend. *)
Definition deadline (on : bool) (m : moment) (ttl : Z) : Z :=
  if on then server m + Z.quot ttl millisecond else clock m + ttl.

Definition live (on : bool) (d : Z) (m : moment) : bool := if on then server m <? d else clock m <=? d.

(** The deadline after some operations: a read that finds the binding moves it. *)
Definition moved (on : bool) (key : string) (d : Z) (o : affinity_op) : Z :=
  match o with
  | OLoad gets sets m ttl key' =>
      if String.eqb key' key && live on d m && (negb on || gets && sets) then deadline on m ttl else d
  | _ => d
  end.

Section Store.
Context {S : Type} `{RedisStringLaws S}.
Implicit Types (a : affinity S).

Definition affinity_step (on : bool) a (o : affinity_op) : affinity S :=
  match o with
  | OLoad gets sets m ttl key => (affinityLoad (mkBackend on gets sets) m ttl key a).2
  | OStore sets m ttl key r => affinityStore (mkBackend on true sets) m ttl key r a
  | OPurge dels m key => (PurgeAffinityKey (mkBackend on true dels) m key a).2
  | OPurgeAll m pages => (PurgeAllAffinity (mkBackend on true true) m pages a).2
  end.

(** At [m] the store holds [v] under [key] until [d]. *)
Definition holds (on : bool) (key v : string) (d : Z) (m : moment) a : Prop :=
  if on then peeks (server m) (affinityRedisPrefix +:+ key) (redis a) = age (server m) (Some (v, Some d))
  else match affinityMem a !! key with Some e => e = mkEntry v d | None => d < clock m end.

Lemma holds_later on key v d m m' a : not_before m m' -> holds on key v d m a -> holds on key v d m' a.
Proof.
  intros [Hc Hs]. unfold holds. destruct on.
  - intros Hh. rewrite (peeks_age (server m)), Hh by done. by apply age_age.
  - destruct (affinityMem a !! key); [done|]. lia.
Qed.

Lemma GET_holds key v d m a :
  holds true key v d m a ->
  GET (server m) (affinityRedisPrefix +:+ key) (redis a) = if live true d m then Some v else None.
Proof.
  unfold holds, GET, live. intros ->. cbn. destruct (Z.leb_spec d (server m)), (Z.ltb_spec (server m) d); [lia|done|done|lia].
Qed.

Lemma load_holds on sets key v d m ttl a :
  String.eqb v "" = false -> holds on key v d m a ->
  (affinityLoad (mkBackend on true sets) m ttl key a).1 = if live on d m then decodeAffinity v else None.
Proof.
  intros Hv Hh. unfold affinityLoad. destruct on; cbn.
  - rewrite (GET_holds _ _ _ _ _ Hh). unfold live. destruct (server m <? d); [|done]. rewrite Hv. by destruct (decodeAffinity v).
  - unfold holds, live in *. destruct (affinityMem a !! key) as [e|].
    + subst e. cbn. destruct (Z.gtb_spec (clock m) d), (Z.leb_spec (clock m) d); try lia; [done|]. by destruct (decodeAffinity v).
    + by destruct (Z.leb_spec (clock m) d); [lia|].
Qed.

Lemma RedisSet_at t k v ttl (x : S) :
  millisecond <= ttl -> peeks t k (RedisSet t k v ttl x) = Some (v, Some (t + Z.quot ttl millisecond)).
Proof.
  intros Ht. apply set_sets. rewrite Z.quot_div_nonneg by (unfold millisecond in *; lia).
  apply Z.div_str_pos. unfold millisecond in *. lia.
Qed.

Lemma age_fresh t v ttl :
  millisecond <= ttl ->
  age t (Some (v, Some (t + Z.quot ttl millisecond))) = Some (v : string, Some (t + Z.quot ttl millisecond)).
Proof.
  intros Ht. cbn. assert (0 < Z.quot ttl millisecond).
  { rewrite Z.quot_div_nonneg by (unfold millisecond in *; lia). apply Z.div_str_pos. unfold millisecond in *. lia. }
  by replace (_ <=? _) with false by lia.
Qed.

Lemma load_own on gets sets m ttl key r v d a :
  String.eqb v "" = false -> decodeAffinity v = Some r -> millisecond <= ttl -> holds on key v d m a ->
  holds on key v (moved on key d (OLoad gets sets m ttl key)) m (affinityLoad (mkBackend on gets sets) m ttl key a).2.
Proof.
  intros Hv Hr Ht Hh. unfold moved, affinityLoad. rewrite String.eqb_refl. cbn [andb]. destruct on; cbn [RedisEnabled get_ok set_ok negb orb].
  - destruct gets; cbn [andb]; [|by rewrite andb_false_r]. rewrite (GET_holds _ _ _ _ _ Hh).
    destruct (live true d m); cbn [andb]; [|done]. rewrite Hv, Hr. destruct sets; [|done].
    unfold holds. cbn [redis set_redis snd]. rewrite RedisSet_at by done. unfold deadline. by rewrite age_fresh.
  - unfold holds, live in *. destruct (affinityMem a !! key) as [e|] eqn:Hk.
    + subst e. cbn. destruct (Z.gtb_spec (clock m) d), (Z.leb_spec (clock m) d); try lia; cbn.
      * rewrite lookup_delete_eq. lia.
      * rewrite Hr. cbn. by rewrite lookup_insert_eq.
    + destruct (Z.leb_spec (clock m) d); [lia|]. cbn. by rewrite Hk.
Qed.

(** An operation on another key does not touch this one. *)
Lemma redis_key_inj k k' : k' <> k -> affinityRedisPrefix +:+ k' <> affinityRedisPrefix +:+ k.
Proof. intros Hk He. apply Hk. cbn in He. by injection He. Qed.

Lemma load_other on gets sets m ttl key key' v d a :
  key' <> key -> holds on key v d m a -> holds on key v d m (affinityLoad (mkBackend on gets sets) m ttl key' a).2.
Proof.
  intros Hk Hh. unfold affinityLoad. destruct on; cbn.
  - destruct (if gets then _ else _) as [w|]; [|done]. destruct (String.eqb w ""); [done|].
    destruct (decodeAffinity w); [|done]. cbn. destruct sets; [|done].
    unfold holds. cbn. unfold RedisSet. by rewrite set_ne by by apply redis_key_inj.
  - destruct (affinityMem a !! key') as [e|]; [|done]. unfold holds in *.
    destruct (clock m >? expires e); cbn; [by rewrite lookup_delete_ne|].
    destruct (decodeAffinity (value e)); [|done]. cbn. by rewrite lookup_insert_ne.
Qed.

Lemma holds_pruned key v d m a :
  holds false key v d m a -> holds false key v d m (set_mem (pruneAffinityMemLocked (clock m) (affinityMem a)) a).
Proof.
  unfold holds, pruneAffinityMemLocked. cbn. rewrite map_lookup_filter.
  destruct (affinityMem a !! key) as [e|]; [|done]. intros ->. cbn. case_guard as Hg; cbn; [done|].
  destruct (Z.gtb_spec (clock m) d); [lia|done].
Qed.

Lemma store_other on sets m ttl key key' r v d a :
  key' <> key -> holds on key v d m a -> holds on key v d m (affinityStore (mkBackend on true sets) m ttl key' r a).
Proof.
  intros Hk Hh. unfold affinityStore. destruct on; cbn.
  - destruct sets; [|done]. unfold holds. cbn. unfold RedisSet. by rewrite set_ne by by apply redis_key_inj.
  - assert (Hput : forall l e, holds false key v d m (set_mem l a) -> holds false key v d m (set_mem (<[key' := e]> l) a)).
    { intros l e. unfold holds. cbn. by rewrite lookup_insert_ne. }
    destruct (full (affinityMem a)); [|by apply Hput]. apply holds_pruned in Hh.
    destruct (full (pruneAffinityMemLocked _ _)); [done|by apply Hput].
Qed.

Lemma purge_other on dels m key key' v d a :
  key' <> key -> holds on key v d m a -> holds on key v d m (PurgeAffinityKey (mkBackend on true dels) m key' a).2.
Proof.
  intros Hk Hh. unfold PurgeAffinityKey. destruct on; cbn.
  - destruct dels; [|done]. unfold holds. cbn. by rewrite sdel_ne by by apply redis_key_inj.
  - destruct (affinityMem a !! key'); [|done]. unfold holds in *. cbn. by rewrite lookup_delete_ne.
Qed.

Lemma step_holds on key r v d o a :
  String.eqb v "" = false -> decodeAffinity v = Some r -> spares key o ->
  holds on key v d (op_at o) a -> holds on key v (moved on key d o) (op_at o) (affinity_step on a o).
Proof.
  intros Hv Hr Hs Hh. destruct o as [gets sets m ttl k|sets m ttl k r'|dels m k|m pages]; cbn in *; [| | |done].
  - destruct (String.eqb_spec k key) as [-> |Hk]; cbn.
    + pose proof (load_own on gets sets m ttl key r v d a Hv Hr Hs Hh) as Hl. cbn in Hl. by rewrite String.eqb_refl in Hl.
    + by apply load_other.
  - by apply store_other.
  - by apply purge_other.
Qed.

Lemma steps_hold on key r v ops m m' : forall d a,
  String.eqb v "" = false -> decodeAffinity v = Some r -> in_order m ops m' -> Forall (spares key) ops ->
  holds on key v d m a ->
  holds on key v (fold_left (moved on key) ops d) m' (fold_left (affinity_step on) ops a).
Proof.
  revert m. induction ops as [|o ops IH]; intros m d a Hv Hr Ho Hs Hh; cbn in *; [by eapply holds_later|].
  destruct Ho as [Hm Ho]. apply Forall_cons in Hs as [Hs Hss].
  apply (IH (op_at o)); [done..|]. eapply step_holds; [done..|]. by eapply holds_later.
Qed.

Lemma store_holds on m ttl key r a :
  millisecond <= ttl -> (on = false -> full (pruneAffinityMemLocked (clock m) (affinityMem a)) = false) ->
  holds on key (encodeAffinity r) (deadline on m ttl) m (affinityStore (mkBackend on true true) m ttl key r a).
Proof.
  intros Ht Hf. unfold affinityStore, holds. destruct on; cbn [RedisEnabled set_ok redis set_redis].
  - rewrite RedisSet_at by done. unfold deadline. by rewrite age_fresh.
  - rewrite Hf by done. destruct (full (affinityMem a)); cbn; by rewrite lookup_insert_eq.
Qed.

(** C32. A binding whose write went through (on Redis; in the process's map, one that
    was not full of live bindings) reads back as it was stored exactly until its
    deadline, and not after it, whatever other conversations store, read, have pruned or
    purged in between, on either backend and whichever Redis commands of theirs fail.
    The deadline is a time to live after the write, moved to a time to live after each
    read that still found the binding (on Redis, one whose two commands went through).
    The requests run one after the other, their clocks do not go back, and the binding
    itself is neither overwritten nor purged in between. *)
Theorem affinity_roundtrip on m ttl key r ops m' ttl' sets a :
  0 < ChannelID r -> in64 (ChannelID r) -> millisecond <= ttl ->
  (on = false -> full (pruneAffinityMemLocked (clock m) (affinityMem a)) = false) ->
  in_order m ops m' -> Forall (spares key) ops ->
  let a' := fold_left (affinity_step on) ops (affinityStore (mkBackend on true true) m ttl key r a) in
  let d := fold_left (moved on key) ops (deadline on m ttl) in
  (affinityLoad (mkBackend on true sets) m' ttl' key a').1 = if live on d m' then Some r else None.
Proof.
  intros Hp Hi Ht Hf Ho Hs a' d. pose proof (encode_nonempty r) as Hv. pose proof (decode_encode r Hp Hi) as Hr.
  pose proof (store_holds on m ttl key r a Ht Hf) as Hh.
  rewrite <- Hr. apply load_holds; [done|]. by eapply steps_hold.
Qed.

Lemma size_delete_le (m : gmap string affinityMemEntry) k : (size (delete k m) <= size m)%nat.
Proof.
  destruct (m !! k) eqn:E; [rewrite map_size_delete_Some by eauto; lia|by rewrite delete_id].
Qed.

Lemma size_filter_le (P : string * affinityMemEntry -> Prop) `{!forall x, Decision (P x)} (m : gmap string affinityMemEntry) :
  (size (filter P m) <= size m)%nat.
Proof. apply map_size_filter. Qed.

Lemma put_bounded (m : gmap string affinityMemEntry) k e :
  full m = false -> Z.of_nat (size (<[k := e]> m)) <= affinityMemMaxEntries.
Proof.
  intros Hf. unfold full in Hf. assert (Z.of_nat (size m) < affinityMemMaxEntries) by lia.
  rewrite map_size_insert. destruct (m !! k); cbn; unfold id; lia.
Qed.

Lemma step_bounded on o a :
  Z.of_nat (size (affinityMem a)) <= affinityMemMaxEntries ->
  Z.of_nat (size (affinityMem (affinity_step on a o))) <= affinityMemMaxEntries.
Proof.
  intros Ha. destruct o as [gets sets m ttl key|sets m ttl key r|dels m key|m pages]; cbn.
  - unfold affinityLoad. destruct on; cbn.
    + destruct (if gets then _ else _); [|done]. destruct (String.eqb _ _); [done|].
      destruct (decodeAffinity _); [|done]. by destruct sets.
    + destruct (affinityMem a !! key) as [e|] eqn:Hk; [|done]. destruct (clock m >? expires e).
      { cbn. pose proof (size_delete_le (affinityMem a) key). lia. }
      destruct (decodeAffinity (value e)); [|done]. cbn. rewrite map_size_insert_Some by eauto. done.
  - unfold affinityStore. destruct on; cbn; [by destruct sets|].
    destruct (full (affinityMem a)) eqn:Hf; [|by apply put_bounded].
    destruct (full (pruneAffinityMemLocked _ _)) eqn:Hp; [|by apply put_bounded].
    cbn. pose proof (size_filter_le (fun kv => (clock m >? expires kv.2) = false) (affinityMem a)) as Hs.
    unfold pruneAffinityMemLocked. lia.
  - unfold PurgeAffinityKey. destruct on; cbn; [by destruct dels|].
    destruct (affinityMem a !! key); [|done]. cbn. pose proof (size_delete_le (affinityMem a) key). lia.
  - unfold PurgeAllAffinity. destruct on; cbn [RedisEnabled]; [by destruct (purge_pages _ _ _ _ _ _)|].
    cbn. rewrite map_size_empty. unfold affinityMemMaxEntries. lia.
Qed.

(** The process's map of bindings never outgrows its limit, whatever is stored,
    read or purged, on either backend. *)
Theorem affinity_bounded on ops a :
  Z.of_nat (size (affinityMem a)) <= affinityMemMaxEntries ->
  Z.of_nat (size (affinityMem (fold_left (affinity_step on) ops a))) <= affinityMemMaxEntries.
Proof.
  revert a. induction ops as [|o ops IH]; intros a Ha; cbn; [done|]. by apply IH, step_bounded.
Qed.
End Store.

(** The two resolutions find only channels a selection would consult. *)
Lemma cached_resolves t h tenantID group model i c :
  GetSatisfiedChannelByID t group model i = Some c -> visible_to tenantID c = true ->
  c ∈ consulted (Repo := cached_repo t h) tenantID group model.
Proof.
  unfold GetSatisfiedChannelByID. destruct (_ || _); [done|]. cbn. unfold consulted_ids.
  set (ids := match routed t group model with [] => _ | _ :: _ => _ end).
  destruct (existsb _ ids) eqn:He; [|done]. intros Hc Hv.
  apply existsb_exists in He as (j & Hj%list_elem_of_In & <-%Z.eqb_eq).
  apply list_elem_of_omap. exists i. split; [|done]. unfold filterChannelsForTenant.
  unfold visible_to in Hv. destruct (String.eqb tenantID ""); [done|]. apply elem_of_Lfilter. by rewrite Hc.
Qed.

Lemma db_resolves t rows abilities tenantID group model i c :
  GetSatisfiedChannelByID_db rows abilities group model i = Some c -> visible_to tenantID c = true ->
  c ∈ consulted (Repo := db_repo t rows abilities) tenantID group model.
Proof.
  unfold GetSatisfiedChannelByID_db. destruct (_ || _); [done|].
  destruct (first_where _ abilities) as [a|] eqn:Ha; [|done].
  destruct (by_id rows i) as [c'|] eqn:Hb; [|done]. destruct (Status c' =? _); [|done]. intros [= ->] Hv.
  apply first_where_some in Ha as [Hin Ha]. rewrite !andb_true_iff in Ha. destruct Ha as (((Hg & Hm) & He) & Hi).
  apply String.eqb_eq in Hg, Hm. apply Z.eqb_eq in Hi. cbn.
  apply list_elem_of_omap. exists a. split; [|by rewrite Hi].
  rewrite merge_sort_Permutation. apply elem_of_Lfilter. split; [done|]. unfold ability_matches.
  rewrite Hg, Hm, !String.eqb_refl, He. cbn. unfold visible_to in Hv. apply orb_true_iff in Hv as [-> |Hv]; [done|].
  apply orb_true_iff. right. apply existsb_exists. exists c. apply first_where_some in Hb as [Hrow Hid].
  split; [by apply list_elem_of_In|]. apply Z.eqb_eq in Hid. by rewrite Hi, Hid, Z.eqb_refl, Hv.
Qed.

(** What a resolution promises to the repo a request selects from. *)
Class Resolves (R : Repo) (resolve : string -> string -> Z -> option Channel) : Prop :=
  resolves tenantID group model i c :
    resolve group model i = Some c -> visible_to tenantID c = true -> c ∈ consulted tenantID group model.

#[global] Instance cached_Resolves t h : Resolves (cached_repo t h) (GetSatisfiedChannelByID t).
Proof. intros tenantID group model i c. apply cached_resolves. Qed.

#[global] Instance db_Resolves t rows abilities :
  Resolves (db_repo t rows abilities) (GetSatisfiedChannelByID_db rows abilities).
Proof. intros tenantID group model i c. apply db_resolves. Qed.

Lemma lookup_consulted (R : Repo) resolve `{!Resolves R resolve} {S} `{RedisStrings S} b m ttl tenantID model key
    (a : affinity S) c g a' :
  lookupAffinityChannel resolve b m ttl tenantID model key a = (Some (c, g), a') -> c ∈ consulted tenantID g model.
Proof.
  unfold lookupAffinityChannel. destruct (affinityLoad b m ttl key a) as [[r|] a1]; [|done].
  destruct (resolve _ model _) as [c'|] eqn:Hr; [|done]. destruct (_ && _) eqn:Hv; [done|].
  intros [= <- <- <-]. eapply resolves; [exact Hr|]. unfold visible_to.
  destruct (String.eqb tenantID ""); [done|]. cbn in *. by apply negb_false_iff in Hv.
Qed.

(** C28. Affinity never widens reach: with the pin read from the session store, over
    either backend and either form of the routing data, the channel a request gets is
    one that the repo would offer its tenant for the model in the group reported, is
    not cooling and fits the request. *)
Theorem affinity_never_widens (R : Repo) (L : RepoLaws R) resolve (V : Resolves R resolve) {S} `{RedisStrings S}
    b m ttl key (a : affinity S) q k rnd autoOff groups p c p' :
  0 <= v_now (view q) ->
  let pin := (lookupAffinityChannel resolve b m ttl (TenantID q) (ModelName q) key a).1 in
  CacheGetRandomSatisfiedChannel q k rnd pin autoOff groups p = (Ok (Some c), p') ->
  c ∈ consulted (TenantID q) (selectGroup p') (ModelName q) /\ cooling (view q) (Id c) = 0 /\ suits q c = true.
Proof.
  intros Hn pin Hsel. apply selected_eligible in Hsel as (Hc & Hs & [[Hpin _]|[Hin _]]); [| |done]; split_and!; auto.
  unfold pin in Hpin. destruct (lookupAffinityChannel _ _ _ _ _ _ _ _) as [o a'] eqn:Hl. cbn in Hpin. subst o.
  by eapply lookup_consulted.
Qed.
End AffinityFacts.

Section AffinityWitnesses.
Import GoStrings TimeFormat ChannelKeys SmartRouting ChannelCache ChannelCooldown ChannelSelect SessionAffinity.

Definition memory_only : backend := mkBackend false true true.
Definition no_bindings : affinity strs := mkAffinity ∅ ∅ 0 0 0.

(** Between the binding and the last turn: a turn that extends it, a conversation of
    another key, a purge of that one, and a turn whose read fails. *)
Definition at_second (s : Z) : moment := mkMoment (s * second) (s * 1000).
Definition demo_turns : list affinity_op :=
  [OLoad true true (at_second 60) (100 * second) "k"; OStore true (at_second 90) (100 * second) "other" (mkRecord 5 "eu");
   OPurge true (at_second 95) "other"; OLoad false true (at_second 120) (100 * second) "k"].

Lemma affinity_roundtrip_witness :
  let turns on := fold_left (affinity_step on) demo_turns
                    (affinityStore (mkBackend on true true) (at_second 0) (100 * second) "k" (mkRecord 2 "vip|eu") no_bindings) in
  (affinityLoad (mkBackend true true true) (at_second 150) (100 * second) "k" (turns true)).1 = Some (mkRecord 2 "vip|eu") /\
  (affinityLoad (mkBackend true true true) (at_second 160) (100 * second) "k" (turns true)).1 = None /\
  (affinityLoad (mkBackend false true true) (at_second 200) (100 * second) "k" (turns false)).1 = Some (mkRecord 2 "vip|eu").
Proof.
  pose proof (fun on s H => affinity_roundtrip on (at_second 0) (100 * second) "k" (mkRecord 2 "vip|eu") demo_turns (at_second s)
    (100 * second) true no_bindings ltac:(cbn; lia) ltac:(cbn; unfold64; lia) ltac:(vm_compute; discriminate)
    ltac:(intros _; vm_compute; reflexivity) H
    ltac:(repeat constructor; vm_compute; discriminate)) as Hr.
  split; [apply (Hr true 150)|split; [apply (Hr true 160)|apply (Hr false 200)]];
    repeat split; vm_compute; discriminate.
Defined.

Lemma affinity_bounded_witness :
  Z.of_nat (size (affinityMem (fold_left (affinity_step false) demo_turns no_bindings))) <= affinityMemMaxEntries.
Proof. apply affinity_bounded. vm_compute. discriminate. Defined.

(** The conversation is bound to the lighter channel and goes back to it. *)
Lemma affinity_never_widens_witness :
  let R := cached_repo two_routes None in
  let q := demo_request "auto" [] ∅ in
  let a := affinityStore memory_only (at_second 0) (100 * second) "k" (mkRecord 2 "default") no_bindings in
  let pin := (lookupAffinityChannel (GetSatisfiedChannelByID two_routes) memory_only (at_second 60) (100 * second) "acme" "gpt" "k" a).1 in
  CacheGetRandomSatisfiedChannel q (mkConfig 3 true) (fun _ _ _ => 0) pin false ["default"] (mkProgress None 0 false "")
    = (Ok (Some (demo_row 2 "" "gpt" 10 5)), mkProgress None 0 false "default") /\
  demo_row 2 "" "gpt" 10 5 ∈ consulted "acme" "default" "gpt" /\
  cooling (view q) 2 = 0 /\ suits q (demo_row 2 "" "gpt" 10 5) = true.
Proof.
  cbn zeta. set (a := affinityStore memory_only (at_second 0) (100 * second) "k" (mkRecord 2 "default") no_bindings).
  assert (H : CacheGetRandomSatisfiedChannel (R := cached_repo two_routes None) (demo_request "auto" [] ∅) (mkConfig 3 true)
                (fun _ _ _ => 0) (lookupAffinityChannel (GetSatisfiedChannelByID two_routes) memory_only (at_second 60) (100 * second)
                   "acme" "gpt" "k" a).1 false ["default"] (mkProgress None 0 false "")
              = (Ok (Some (demo_row 2 "" "gpt" 10 5)), mkProgress None 0 false "default")) by (vm_compute; reflexivity).
  split; [exact H|].
  exact (affinity_never_widens (cached_repo two_routes None) _ (GetSatisfiedChannelByID two_routes) _ memory_only (at_second 60) (100 * second) "k" a
           (demo_request "auto" [] ∅) (mkConfig 3 true) (fun _ _ _ => 0) false ["default"] (mkProgress None 0 false "")
           _ _ ltac:(vm_compute; discriminate) H).
Defined.
End AffinityWitnesses.
