(* ===== verification/RelayLoop.v ===== *)
(** * The relay's retry loop

    Model of the attempt loop of [Relay] in internal/adapter/handler/relay.go with
    [getChannel], [shouldRetry] and relay_channel_select.go, on top of the channel
    selection.  What an iteration meets - the repo and the cooldowns at that moment,
    the draws, the breaker's verdict, the set-up of the channel, the upstream's
    answer and whether bytes have reached the client - is a [turn] of the
    environment; metrics, spans and log rows are left out.  The theorems bound the
    loop, although the group walk resets the counter it runs on. *)

From S2P Require Import Prelude GoStrings ChannelKeys SmartRouting ChannelCache ChannelCacheSpec ChannelCooldown ChannelSelect ChannelSelectSpec.

Module RelayLoop.
Import GoStrings ChannelKeys SmartRouting ChannelCache ChannelCooldown ChannelSelect.

(** An error on its way to the client.  [requestCaused] is what [IsRequestCaused429]
    reads off the text of a 429. *)
Record apiErr := mkApiErr { errorCode : string; StatusCode : Z; skipRetry : bool; requestCaused : bool }.

Definition IsChannelError (e : apiErr) : bool := HasPrefix (errorCode e) "channel:".

Definition IsRequestCaused429 (e : apiErr) : bool := (StatusCode e =? 429) && requestCaused e.

(** [written]: bytes have reached the client; [specific]: the caller named a channel. *)
Definition shouldRetry (written specific : bool) (e : apiErr) (retryTimes : Z) : bool :=
  if written then false
  else if IsChannelError e then true
  else if skipRetry e then false
  else if retryTimes <=? 0 then false
  else if specific then false
  else if StatusCode e =? 429 then negb (IsRequestCaused429 e)
  else if StatusCode e =? 307 then true
  else if Z.quot (StatusCode e) 100 =? 5 then negb ((StatusCode e =? 504) || (StatusCode e =? 524))
  else if StatusCode e =? 400 then false
  else if StatusCode e =? 408 then false
  else if Z.quot (StatusCode e) 100 =? 2 then false
  else true.

Definition ErrorCodeAllChannelsCooling : string := "all_channels_cooling".
Definition ErrorCodeGetChannelFailed : string := "get_channel_failed".
Definition ErrorCodeChannelNoAvailableKey : string := "channel:no_available_key".

Definition channelSelectionError (e : sel_err) : apiErr :=
  if is_cooling e then mkApiErr ErrorCodeAllChannelsCooling 503 true false
  else mkApiErr ErrorCodeGetChannelFailed 500 true false.

(** What one iteration meets. *)
Record turn := mkTurn {
  t_repo : Repo;
  t_request : list Z -> request;             (* given the channels used so far *)
  t_rnd : bool -> nat -> bool -> Z;
  t_pin : option (Channel * string);
  t_setup : Channel -> option apiErr;        (* SetupContextForSelectedChannel *)
  t_allow : Z -> bool;                       (* channelBreakers.Allow *)
  t_body : option apiErr;                    (* reading the request body *)
  t_call : Channel -> option apiErr;         (* the upstream; [None] is success *)
  t_written : bool
}.

(** What stays the same for a request: the channel the distributor stamped on the
    context, the caller's auto groups and whether any is configured, a channel named
    by the caller. *)
Record setup := mkSetup {
  config : walk_config;
  stamped : Channel;
  autoOff : bool;
  autoGroups : list string;
  specific : bool
}.

(** [metaSet]: [info.ChannelMeta] is filled in, which the relay helpers do when they are
    first called.  A call is a channel and whether bytes had reached the client when
    it returned. *)
Record loop := mkLoop {
  progress_ : param_state;
  metaSet : bool;
  useChannel : list Z;
  newAPIError : option apiErr;
  attempted : bool;
  calls : list (Z * bool)
}.

Inductive verdict_t :=
| Next (s : loop)      (* continue, or fall off the end of the body *)
| Break (s : loop)
| Served (s : loop).

(** The channel of an iteration, or the error and the channel it blames. *)
Definition getChannel (u : setup) (t : turn) (s : loop) : result (apiErr * option Channel) Channel * param_state :=
  if negb (metaSet s) then (Ok (stamped u), progress_ s)
  else
    let '(answer, p) := CacheGetRandomSatisfiedChannel (R := t_repo t) (t_request t (useChannel s)) (config u)
                          (t_rnd t) (t_pin t) (autoOff u) (autoGroups u) (progress_ s) in
    match answer with
    | Err e => (Err (channelSelectionError e, None), p)
    | Ok None => (Err (mkApiErr ErrorCodeGetChannelFailed 500 true false, None), p)
    | Ok (Some c) => match t_setup t c with
                     | Some e => (Err (e, Some c), p)
                     | None => (Ok c, p)
                     end
    end.

Definition attempt (u : setup) (t : turn) (s : loop) : verdict_t :=
  let '(answer, p) := getChannel u t s in
  let retriesLeft := RetryTimes (config u) - Z.of_nat (Retry p) in
  match answer with
  | Err (e, blamed) =>
      if String.eqb (errorCode e) ErrorCodeAllChannelsCooling && bool_decide (is_Some (newAPIError s))
      then Break (mkLoop p (metaSet s) (useChannel s) (newAPIError s) (attempted s) (calls s))
      else
        let used' := match blamed with
                     | Some c => if Id c =? 0 then useChannel s else useChannel s ++ [Id c]
                     | None => useChannel s
                     end in
        if IsChannelError e && (retriesLeft >? 0) && shouldRetry (t_written t) (specific u) e retriesLeft
        then Next (mkLoop p (metaSet s) used' (Some e) (attempted s) (calls s))
        else Break (mkLoop p (metaSet s) (useChannel s) (Some e) (attempted s) (calls s))
  | Ok c =>
      let used' := useChannel s ++ [Id c] in
      if negb (t_allow t (Id c))
      then Next (mkLoop p (metaSet s) used' (newAPIError s) (attempted s) (calls s))
      else match t_body t with
      | Some e => Break (mkLoop p (metaSet s) used' (Some e) true (calls s))
      | None =>
          let calls' := (Id c, t_written t) :: calls s in
          match t_call t c with
          | None => Served (mkLoop p true used' None true calls')
          | Some e =>
              let s' := mkLoop p true used' (Some e) true calls' in
              if shouldRetry (t_written t) (specific u) e retriesLeft then Next s' else Break s'
          end
      end
  end.

Definition advance (s : loop) : loop :=
  mkLoop (IncreaseRetry (progress_ s)) (metaSet s) (useChannel s) (newAPIError s) (attempted s) (calls s).

(** The answer when every candidate was skipped on an open breaker. *)
Definition allBreakersOpen : apiErr := mkApiErr ErrorCodeChannelNoAvailableKey 503 true false.

Definition finish (s : loop) : option apiErr :=
  if negb (attempted s) && negb (bool_decide (is_Some (newAPIError s))) then Some allBreakersOpen else newAPIError s.

(** The loop from iteration [n]: what the client gets ([None]: a served response), and
    the state it ends in.  [None] of the outer option: out of fuel. *)
Fixpoint relay (fuel : nat) (u : setup) (turns : nat -> turn) (n : nat) (s : loop) : option (option apiErr * loop) :=
  if negb (Z.of_nat (Retry (progress_ s)) <=? RetryTimes (config u)) then Some (finish s, s)
  else match fuel with
  | O => None
  | S fuel =>
      match attempt u (turns n) s with
      | Served s' => Some (None, s')
      | Break s' => Some (finish s', s')
      | Next s' => relay fuel u turns (S n) (advance s')
      end
  end.

(** The loop as [Relay] enters it; [idx] is what the distributor's own walk left. *)
Definition enter (idx : option nat) : loop :=
  mkLoop (mkProgress idx 0 false "") false [] None false [].
End RelayLoop.

(** ** The walk makes progress *)

Section Progress.
Import GoStrings ChannelKeys SmartRouting ChannelCache ChannelCooldown ChannelSelect RelayLoop.

Definition group_index (p : param_state) : nat := default O (AutoGroupIndex p).

(** How a successful selection moves: it stays in its group and keeps the counter;
    it moves to a later group and zeroes the counter; or it leaves the group for the
    next attempt, which then starts again at zero. *)
Inductive moves (n : nat) (p p' : param_state) : Prop :=
| mv_stay : group_index p' = group_index p -> Retry p' = Retry p -> resetNextTry p' = resetNextTry p -> moves n p p'
| mv_on : (group_index p < group_index p' < n)%nat -> Retry p' = O -> resetNextTry p' = resetNextTry p -> moves n p p'
| mv_leave : (group_index p < group_index p' <= n)%nat -> Retry p' = O -> resetNextTry p' = true -> moves n p p'.

Lemma groups_move {R : Repo} q k rnd strict start groups : forall i p m c p' m',
  (start <= i)%nat -> (i = start -> group_index p = start) -> (start < i -> Retry p = O)%nat ->
  runGroups q k rnd strict start i groups p m = (Some c, p', m') ->
  exists j, (i <= j < i + length groups)%nat /\
    ((group_index p' = j /\ Retry p' = (if decide (j = start) then Retry p else O) /\ resetNextTry p' = resetNextTry p) \/
     (group_index p' = S j /\ Retry p' = O /\ resetNextTry p' = true)).
Proof.
  induction groups as [|g groups IH]; intros i p m c p' m' Hi Hidx Hz; cbn [runGroups length]; [done|].
  set (n := if (start <? i)%nat then O else Retry p).
  destruct (if strict then _ else _) as [[c'|]|e].
  1: { intros [= -> <- <-]. exists i. split; [lia|]. destruct (crossGroupRetry k && _); [by right|left].
    cbn. split_and!; try done. case_decide; [done|]. apply Hz. lia. }
  all: intros H; apply IH in H; [|lia|lia|done]; destruct H as (j & Hj & H); exists j; (split; [lia|]);
    cbn [Retry resetNextTry] in H; rewrite decide_False in H by lia; by rewrite decide_False by lia.
Qed.

Lemma groups_none {R : Repo} q k rnd strict start groups : forall i p m p' m',
  runGroups q k rnd strict start i groups p m = (None, p', m') -> resetNextTry p' = resetNextTry p.
Proof.
  induction groups as [|g groups IH]; intros i p m p' m'; cbn [runGroups]; [by intros [= <- _]|].
  destruct (if strict then _ else _) as [[c'|]|e]; [done| |]; intros H%IH; done.
Qed.

Lemma select_moves {R : Repo} q k rnd pin off groups p c p' :
  CacheGetRandomSatisfiedChannel q k rnd pin off groups p = (Ok (Some c), p') -> moves (length groups) p p'.
Proof.
  unfold CacheGetRandomSatisfiedChannel.
  destruct (match pin with None => None | Some _ => _ end) as [[c1 g1]|]; [intros [= <- <-]; by apply mv_stay|].
  destruct (String.eqb _ _); [|intros [= _ <-]; by apply mv_stay]. destruct off; [done|].
  cbn [AutoGroupIndex Retry resetNextTry selectGroup]. fold (group_index p).
  assert (Hwalk : forall strict px m c' m', group_index px = group_index p -> Retry px = Retry p ->
            resetNextTry px = resetNextTry p ->
            runGroups q k rnd strict (group_index p) (group_index p) (drop (group_index p) groups) px m = (Some c', p', m') ->
            moves (length groups) p p').
  { intros strict px m c' m' Hg Hr Hn H. apply groups_move in H as (j & Hj & Hcase); [|lia|done|lia].
    rewrite length_drop in Hj. destruct Hcase as [(H1 & H2 & H3)|(H1 & H2 & H3)].
    - case_decide; [apply mv_stay; congruence|apply mv_on; [lia|done|congruence]].
    - apply mv_leave; [lia|done|done]. }
  intros H. destruct (used q) as [|u us].
  - destruct (runGroups _ _ _ false _ _ _ _ _) as [[[c2|] p2] m2] eqn:Hr; [|repeat case_match; simplify_eq].
    simplify_eq. eapply Hwalk; [| | |exact Hr]; done.
  - destruct (runGroups _ _ _ true _ _ _ _ _) as [[[c1|] p1] m1] eqn:Hs.
    + simplify_eq. eapply Hwalk; [| | |exact Hs]; done.
    + apply groups_none in Hs. destruct (runGroups _ _ _ false _ _ _ _ _) as [[[c2|] p2] m2] eqn:Hr;
        [|repeat case_match; simplify_eq].
      simplify_eq. eapply Hwalk; [| | |exact Hr]; done.
Qed.

(** ** The loop is bounded *)

(** Attempts left: one more than [RetryTimes] in each group still ahead, and what is
    left of the current one. *)
Definition budget (u : setup) (s : loop) : nat :=
  let tries := Z.to_nat (RetryTimes (config u) + 1) in
  ((length (autoGroups u) - group_index (progress_ s)) * S tries + (tries - Retry (progress_ s)))%nat.

Lemma budget_pos u s : Z.of_nat (Retry (progress_ s)) <= RetryTimes (config u) -> (0 < budget u s)%nat.
Proof. intros H. unfold budget. cbv zeta. apply Nat.add_pos_r. lia. Qed.

Lemma selection_error_final e : IsChannelError (channelSelectionError e) = false.
Proof. by destruct e. Qed.

Lemma attempt_moves u t s s' :
  attempt u t s = Next s' -> moves (length (autoGroups u)) (progress_ s) (progress_ s').
Proof.
  unfold attempt, getChannel. destruct (metaSet s) eqn:Hm; cbn [negb].
  - destruct (CacheGetRandomSatisfiedChannel _ _ _ _ _ _ _) as [[[c|]|e] p] eqn:Hc.
    + apply select_moves in Hc. destruct (t_setup t c) as [e|]; repeat case_match; intros; by simplify_eq.
    + cbn. repeat case_match; intros; by simplify_eq.
    + rewrite selection_error_final. cbn [andb]. repeat case_match; intros; by simplify_eq.
  - repeat case_match; intros; simplify_eq; by apply mv_stay.
Qed.

Lemma attempt_budget u t s s' :
  resetNextTry (progress_ s) = false -> Z.of_nat (Retry (progress_ s)) <= RetryTimes (config u) ->
  attempt u t s = Next s' -> (budget u (advance s') < budget u s)%nat /\ resetNextTry (progress_ (advance s')) = false.
Proof.
  intros Hr Hle H%attempt_moves. unfold budget, advance, IncreaseRetry. cbn.
  set (tries := Z.to_nat (RetryTimes (config u) + 1)). set (N := length (autoGroups u)) in *.
  assert (Hlt : (Retry (progress_ s) < tries)%nat) by (unfold tries; lia).
  assert (Hreset : resetNextTry (progress_ (mkLoop (if resetNextTry (progress_ s') then
            mkProgress (AutoGroupIndex (progress_ s')) (Retry (progress_ s')) false (selectGroup (progress_ s'))
            else mkProgress (AutoGroupIndex (progress_ s')) (S (Retry (progress_ s'))) false (selectGroup (progress_ s')))
            true [] None false [])) = false) by (cbn; by case_match).
  split; [|exact Hreset].
  destruct H as [Hg Hn Hz|Hg Hn Hz|Hg Hn Hz]; rewrite Hz, ?Hr; unfold group_index in *; cbn [AutoGroupIndex Retry] in *;
    rewrite Hn; nia.
Qed.

(** Every upstream call but the last returned before a byte had reached the client. *)
Definition unwritten (s : loop) : Prop := Forall (fun k => k.2 = false) (calls s).
Definition last_only (s : loop) : Prop := Forall (fun k => k.2 = false) (tail (calls s)).

Lemma unwritten_last_only s : unwritten s -> last_only s.
Proof. unfold unwritten, last_only. destruct (calls s); [done|]. by intros [_ ?]%Forall_cons. Qed.

Lemma attempt_calls u t s :
  unwritten s ->
  match attempt u t s with
  | Next s' => unwritten s' /\ (length (calls s') <= S (length (calls s)))%nat
  | Break s' | Served s' => last_only s' /\ (length (calls s') <= S (length (calls s)))%nat
  end.
Proof.
  intros Hu. pose proof (unwritten_last_only s Hu) as Hl. unfold attempt. destruct (getChannel u t s) as [[c|[e b]] p].
  - destruct (t_allow t (Id c)); cbn [negb]; [|by split; [|cbn; lia]].
    destruct (t_body t); [by split; [|cbn; lia]|]. destruct (t_call t c) as [e|]; [|by split; [|cbn; lia]].
    destruct (shouldRetry _ _ _ _) eqn:Hs; [|by split; [|cbn; lia]].
    unfold shouldRetry in Hs. destruct (t_written t) eqn:Hw; [done|]. split; [|cbn; lia]. by constructor.
  - destruct (_ && _); [by split; [|cbn; lia]|]. destruct (_ && _); by split; [|cbn; lia].
Qed.

Lemma relay_bounded u turns fuel : forall n s,
  resetNextTry (progress_ s) = false -> unwritten s -> (budget u s <= fuel)%nat ->
  exists answer s', relay fuel u turns n s = Some (answer, s') /\ last_only s' /\
    (length (calls s') <= length (calls s) + budget u s)%nat.
Proof.
  induction fuel as [|fuel IH]; intros n s Hr Hu Hb; cbn [relay];
    destruct (Z.leb_spec (Z.of_nat (Retry (progress_ s))) (RetryTimes (config u))) as [Hle|Hgt]; cbn [negb].
  2,4: eexists _, s; split; [done|]; split; [by apply unwritten_last_only|lia].
  - pose proof (budget_pos u s Hle). lia.
  - pose proof (budget_pos u s Hle) as Hpos.
    pose proof (attempt_calls u (turns n) s Hu) as Hc. destruct (attempt u (turns n) s) as [s'|s'|s'] eqn:Ha.
    + destruct (attempt_budget _ _ _ _ Hr Hle Ha) as [Hlt Hr']. destruct Hc as [Hu' Hlen].
      destruct (IH (S n) (advance s') Hr' Hu') as (answer & s2 & Heq & Hlast & Hcalls); [lia|].
      exists answer, s2. split; [done|]. split; [done|]. cbn [calls advance] in Hcalls. lia.
    + destruct Hc as [? ?]. eexists _, s'. split; [done|]. split; [done|]. lia.
    + destruct Hc as [? ?]. eexists _, s'. split; [done|]. split; [done|]. lia.
Qed.

(** C29. The relay always answers: whatever the upstreams, the breakers and the
    routing tables do, and although changing groups sets the retry counter back to
    zero, the loop ends within one more than [RetryTimes] attempts per auto group and
    as many again; it makes no more upstream calls than that, and none after bytes of
    a response have reached the client. *)
Theorem relay_terminates u turns idx :
  0 <= RetryTimes (config u) ->
  let tries := Z.to_nat (RetryTimes (config u) + 1) in
  let bound := (length (autoGroups u) * S tries + tries)%nat in
  exists answer s', relay bound u turns 0 (enter idx) = Some (answer, s') /\
    (length (calls s') <= bound)%nat /\ last_only s'.
Proof.
  intros Hrt tries bound.
  assert (Hb : (budget u (enter idx) <= bound)%nat).
  { unfold budget, bound. fold tries. cbn [progress_ enter Retry]. nia. }
  destruct (relay_bounded u turns bound 0 (enter idx)) as (answer & s' & Heq & Hl & Hc); [done|constructor|done|].
  exists answer, s'. split; [done|]. split; [|done]. cbn in Hc. lia.
Qed.
End Progress.

(** ** A breaker that is open on the first channel *)

Section OpenBreaker.
Import GoStrings ChannelKeys SmartRouting ChannelCache ChannelCooldown ChannelSelect RelayLoop.

Lemma skip_stamped u turns : forall fuel n s,
  (forall n, t_allow (turns n) (Id (stamped u)) = false) ->
  metaSet s = false -> attempted s = false -> newAPIError s = None -> calls s = [] ->
  resetNextTry (progress_ s) = false ->
  (Z.to_nat (RetryTimes (config u) + 1) - Retry (progress_ s) <= fuel)%nat ->
  exists s', relay fuel u turns n s = Some (Some allBreakersOpen, s') /\ calls s' = [] /\
    useChannel s' = useChannel s ++ repeat (Id (stamped u)) (Z.to_nat (RetryTimes (config u) + 1) - Retry (progress_ s)).
Proof.
  induction fuel as [|fuel IH]; intros n s Hopen Hm Ha He Hc Hr Hf; cbn [relay];
    destruct (Z.leb_spec (Z.of_nat (Retry (progress_ s))) (RetryTimes (config u))) as [Hle|Hgt]; cbn [negb]; [lia| | |].
  1,3: exists s; unfold finish; rewrite Ha, He; cbn; split; [done|]; split; [done|];
    replace (_ - _)%nat with O by lia; by rewrite app_nil_r.
  unfold attempt, getChannel. rewrite Hm. cbn [negb]. rewrite Hopen. cbn [negb].
  destruct (IH (S n) (advance (mkLoop (progress_ s) false (useChannel s ++ [Id (stamped u)]) (newAPIError s) (attempted s) (calls s))))
    as (s' & Heq & Hcalls & Hused); [done..| | |].
  { cbn. unfold IncreaseRetry. by rewrite Hr. }
  { cbn. unfold IncreaseRetry. rewrite Hr. cbn. lia. }
  exists s'. split; [exact Heq|]. split; [done|]. rewrite Hused. cbn.
  unfold IncreaseRetry. rewrite Hr. cbn [Retry]. rewrite <- app_assoc. cbn.
  replace (Z.to_nat (RetryTimes (config u) + 1) - Retry (progress_ s))%nat
    with (S (Z.to_nat (RetryTimes (config u) + 1) - S (Retry (progress_ s)))) by lia. done.
Qed.

(** There is no failover from an open breaker on the first channel: the channel
    is re-selected only once a relay helper has filled in the channel's metadata, which
    a skipped attempt never reaches, so every attempt meets the distributor's channel
    again and the request ends in "all upstream channels are unavailable" with no
    upstream called, whatever other channels the repo could have offered. *)
Theorem open_breaker_no_failover u turns idx fuel :
  0 <= RetryTimes (config u) ->
  (forall n, t_allow (turns n) (Id (stamped u)) = false) ->
  (Z.to_nat (RetryTimes (config u) + 1) <= fuel)%nat ->
  exists s', relay fuel u turns 0 (enter idx) = Some (Some allBreakersOpen, s') /\ calls s' = [] /\
    useChannel s' = repeat (Id (stamped u)) (Z.to_nat (RetryTimes (config u) + 1)).
Proof.
  intros Hrt Hopen Hf.
  destruct (skip_stamped u turns fuel 0 (enter idx)) as (s' & Heq & Hc & Hu); [done..| |].
  { cbn. lia. }
  exists s'. split; [done|]. split; [done|]. rewrite Hu. cbn. by rewrite Nat.sub_0_r.
Qed.
End OpenBreaker.

Section RelayWitnesses.
Import GoStrings ChannelKeys SmartRouting ChannelCache ChannelCooldown ChannelSelect RelayLoop.

(** Channel 1 was stamped; the routing table offers 1 and 2; 1 always fails. *)
Definition demo_turn (open : Z -> bool) (_ : nat) : turn :=
  mkTurn (cached_repo two_routes None) (fun used => demo_request "default" used ∅) (fun _ _ _ => 0) None
    (fun _ => None) (fun id => negb (open id)) None
    (fun c => if Id c =? 1 then Some (mkApiErr "bad_response" 502 false false) else None) false.

Definition demo_setup : setup := mkSetup (mkConfig 3 false) (demo_row 1 "" "gpt" 30 5) false [] false.

(** The failed channel is passed over and the other one serves. *)
Lemma relay_terminates_witness :
  exists answer s', relay 4 demo_setup (demo_turn (fun _ => false)) 0 (enter None) = Some (answer, s') /\
    (length (calls s') <= 4)%nat /\ last_only s' /\ answer = None /\ calls s' = [(2, false); (1, false)].
Proof.
  destruct (relay_terminates demo_setup (demo_turn (fun _ => false)) None) as (answer & s' & Heq & Hc & Hl);
    [vm_compute; discriminate|].
  exists answer, s'. split; [exact Heq|]. split; [exact Hc|]. split; [exact Hl|].
  vm_compute in Heq. injection Heq as <- <-. split; reflexivity.
Defined.

(** The second channel would serve, but is never asked. *)
Lemma open_breaker_no_failover_witness :
  t_call (demo_turn (Z.eqb 1) 0) (demo_row 2 "" "gpt" 10 5) = None /\
  exists s', relay 4 demo_setup (demo_turn (Z.eqb 1)) 0 (enter None) = Some (Some allBreakersOpen, s') /\
    calls s' = [] /\ useChannel s' = [1; 1; 1; 1].
Proof.
  split; [reflexivity|].
  apply (open_breaker_no_failover demo_setup (demo_turn (Z.eqb 1)) None 4);
    [vm_compute; discriminate|intros n; reflexivity|vm_compute; lia].
Defined.
End RelayWitnesses.
