(* ===== verification/Window.v ===== *)
(** * Sliding windows

    The specification the request limiters share, and the two ways they implement it.

    The abstract limiter remembers every admission: it admits a request at time [now]
    iff fewer than [m] admissions lie in the last [d] units of time
    ([window_admits]).  [admissions_bounded] is what that buys: no window of length [d],
    wherever it lies, holds more than [m] admissions.

    A concrete limiter keeps less.  [qstep] is the bounded queue of the in-memory
    limiter and of the Redis lists (the oldest of the last [m] admissions decides);
    [pstep] the pruned log of the business limiters.  [SlidingWindow] states that a
    limiter decides as the specification does; its instances are in the files of the
    limiters. *)

From S2P Require Import Prelude.

(** ** The specification *)

Section Spec.
Context (m d : Z).

(** The admissions after [now - d]. *)
Definition recent (now : Z) (h : list Z) : list Z := List.filter (fun x => now - d <? x) h.

Definition window_admits (now : Z) (h : list Z) : bool := Z.of_nat (length (recent now h)) <? m.

(** Histories the specification allows: each admission was decided at a time [now] not
    after its stamp. *)
Inductive admitted : list Z -> Prop :=
| admitted_nil : admitted []
| admitted_snoc h now x :
    admitted h -> Forall (fun y => y <= x) h -> now <= x -> window_admits now h = true ->
    admitted (h ++ [x]).

(** The number of admissions in the window of length [d] that ends at [t]. *)
Definition count_in (t : Z) (h : list Z) : nat :=
  length (List.filter (fun x => (t - d <? x) && (x <=? t)) h).

Lemma filter_length_le {A} (f g : A -> bool) l :
  (forall x, x ∈ l -> f x = true -> g x = true) -> (length (List.filter f l) <= length (List.filter g l))%nat.
Proof.
  induction l as [|x l IH]; intros H; cbn; [lia|].
  assert (length (List.filter f l) <= length (List.filter g l))%nat by (apply IH; intros; apply H; [by right|done]).
  destruct (f x) eqn:Ef; [rewrite (H x ltac:(left) Ef); cbn; lia|destruct (g x); cbn; lia].
Qed.

Lemma filter_all_false {A} (f : A -> bool) l : Forall (fun x => f x = false) l -> List.filter f l = [].
Proof. induction 1 as [|x l Hx _ IH]; cbn; [done|]. by rewrite Hx. Qed.

Lemma filter_all_true {A} (f : A -> bool) l : Forall (fun x => f x = true) l -> List.filter f l = l.
Proof. induction 1 as [|x l Hx _ IH]; cbn; [done|]. by rewrite Hx, IH. Qed.

(** No window of length [d] holds more than [m] admissions. *)
Lemma admissions_bounded h t : 0 <= m -> admitted h -> Z.of_nat (count_in t h) <= m.
Proof.
  intros Hm. induction 1 as [|h now x Hh IH Hle Hnow Hw]; unfold count_in in *; [cbn; lia|].
  rewrite List.filter_app, length_app. cbn.
  destruct (Z.ltb_spec (t - d) x); cbn [andb]; [destruct (Z.leb_spec x t)|]; cbn; [|lia|].
  - apply Z.ltb_lt in Hw. unfold recent in Hw.
    pose proof (filter_length_le (fun y => (t - d <? y) && (y <=? t)) (fun y => now - d <? y) h) as Hl.
    specialize (Hl ltac:(intros y _; cbn; lia)). lia.
  - rewrite filter_all_false; [cbn; lia|]. eapply Forall_impl; [done|]. intros y Hy. cbn in *. lia.
Qed.

(** ** The bounded queue: the last admissions, oldest first *)

Definition qstep (now stamp : Z) (q : list Z) : bool * list Z :=
  if Z.of_nat (length q) <? m then (true, q ++ [stamp])
  else match q with
       | oldest :: rest => if now - oldest >=? d then (true, rest ++ [stamp]) else (false, q)
       | [] => (true, [stamp])
       end.

(** The queue is a suffix of the history; what it has let go cannot matter again. *)
Record queue_of (h : list Z) (c : Z) (q : list Z) : Prop := {
  q_gone : exists h0, h = h0 ++ q /\ (Z.of_nat (length q) = m \/ Forall (fun x => x + d <= c) h0);
  q_len : Z.of_nat (length q) <= m;
  q_sorted : StronglySorted Z.le h;
  q_past : Forall (fun x => x <= c) h
}.

(** ** The pruned log: the admissions still in the window, oldest first *)

(** [for i < len(ts) && ts[i] <= cutoff { i++ }; ts = ts[i:]]. *)
Fixpoint drop_until (cutoff : Z) (ts : list Z) : list Z :=
  match ts with
  | x :: ts' => if x <=? cutoff then drop_until cutoff ts' else ts
  | [] => []
  end.

Definition pstep (now : Z) (ts : list Z) : bool * list Z :=
  let ts := drop_until (now - d) ts in
  if Z.of_nat (length ts) >=? m then (false, ts) else (true, ts ++ [now]).

Record log_of (h : list Z) (c : Z) (ts : list Z) : Prop := {
  l_gone : exists h0, h = h0 ++ ts /\ Forall (fun x => x + d <= c) h0;
  l_sorted : StronglySorted Z.le h;
  l_past : Forall (fun x => x <= c) h
}.

(** ** Facts *)

Lemma recent_app now h1 h2 : recent now (h1 ++ h2) = recent now h1 ++ recent now h2.
Proof. apply List.filter_app. Qed.

Lemma recent_none now h : Forall (fun x => x + d <= now) h -> recent now h = [].
Proof. intros H. apply filter_all_false. eapply Forall_impl; [done|]. cbn. lia. Qed.

Lemma recent_all now h : Forall (fun x => now < x + d) h -> recent now h = h.
Proof. intros H. apply filter_all_true. eapply Forall_impl; [done|]. cbn. lia. Qed.

Lemma recent_length now h : (length (recent now h) <= length h)%nat.
Proof. apply List.filter_length_le. Qed.

Lemma past_later c c' (h : list Z) : c <= c' -> Forall (fun x => x <= c) h -> Forall (fun x => x <= c') h.
Proof. intros Hc Hp. eapply Forall_impl; [exact Hp|]. cbn. lia. Qed.

Lemma gone_later c c' (h : list Z) : c <= c' -> Forall (fun x => x + d <= c) h -> Forall (fun x => x + d <= c') h.
Proof. intros Hc Hp. eapply Forall_impl; [exact Hp|]. cbn. lia. Qed.

Lemma sorted_snoc (h : list Z) x : StronglySorted Z.le h -> Forall (fun y => y <= x) h -> StronglySorted Z.le (h ++ [x]).
Proof.
  intros Hs Hp. apply StronglySorted_app. split; [|split; [done|by repeat constructor]].
  intros x1 x2 H1 ->%list_elem_of_singleton. rewrite Forall_forall in Hp. by apply Hp.
Qed.

Lemma past_snoc c stamp (h : list Z) : c <= stamp -> Forall (fun x => x <= c) h -> Forall (fun x => x <= stamp) (h ++ [stamp]).
Proof. intros Hc Hp. apply Forall_app. split; [by eapply past_later|by constructor]. Qed.

(** In a sorted history, what precedes an element that left the window left it too. *)
Lemma gone_before h0 x (q : list Z) c :
  StronglySorted Z.le (h0 ++ x :: q) -> x + d <= c -> Forall (fun y => y + d <= c) h0.
Proof.
  intros (Hle & _ & _)%StronglySorted_app Hx. apply Forall_forall. intros y Hy.
  specialize (Hle y x Hy ltac:(left)). lia.
Qed.

Lemma queue_of_nil c : 0 <= m -> queue_of [] c [].
Proof. intros Hm. split; [by exists []; split; [|right]|done|constructor|done]. Qed.

Lemma queue_of_later h c c' q : c <= c' -> queue_of h c q -> queue_of h c' q.
Proof.
  intros Hc [(h0 & -> & Hg) Hl Hs Hp]. split; [exists h0; split; [done|]|done|done|by eapply past_later].
  destruct Hg as [?|Hg]; [by left|right; by eapply gone_later].
Qed.

(** Dropping the whole queue is sound once its elements have left the window. *)
Lemma queue_of_drop h c q :
  0 < m -> queue_of h c q -> Forall (fun x => x + d <= c) q -> queue_of h c [].
Proof.
  intros Hm [(h0 & -> & Hg) Hl Hs Hp] Hq. split; [|cbn; lia|done|done].
  exists (h0 ++ q). rewrite app_nil_r. split; [done|]. right. apply Forall_app. split; [|done].
  destruct Hg as [Hg|Hg]; [|done]. destruct q as [|x q]; [cbn in Hg; lia|].
  apply Forall_cons in Hq as [Hx _]. by eapply gone_before.
Qed.

Lemma queue_of_push h0 q c stamp :
  c <= stamp -> Z.of_nat (length (q ++ [stamp])) <= m ->
  (Z.of_nat (length (q ++ [stamp])) = m \/ Forall (fun x => x + d <= stamp) h0) ->
  StronglySorted Z.le (h0 ++ q) -> Forall (fun x => x <= c) (h0 ++ q) ->
  queue_of ((h0 ++ q) ++ [stamp]) stamp (q ++ [stamp]).
Proof.
  intros Hc Hl Hg Hs Hp. split.
  - exists h0. by rewrite (assoc_L (++)).
  - done.
  - apply sorted_snoc; [done|by eapply past_later].
  - by eapply past_snoc.
Qed.

(** The queue decides as the specification. *)
Definition qdecide (now : Z) (q : list Z) : bool :=
  if Z.of_nat (length q) <? m then true
  else match q with oldest :: _ => now - oldest >=? d | [] => true end.

Lemma queue_decides h c q now : 0 < m -> queue_of h c q -> c <= now -> qdecide now q = window_admits now h.
Proof.
  intros Hm [(h0 & -> & Hg) Hl Hs Hp] Hc. unfold qdecide, window_admits. rewrite recent_app, length_app.
  destruct (Z.ltb_spec (Z.of_nat (length q)) m) as [Hlt|Hge].
  - destruct Hg as [Hg|Hg]; [lia|]. rewrite (recent_none now h0) by (eapply gone_later; [|done]; lia).
    pose proof (recent_length now q). cbn. symmetry. apply Z.ltb_lt. lia.
  - destruct q as [|x q]; [cbn in Hge; lia|]. destruct (Z.geb_spec (now - x) d) as [Ho|Ho].
    + rewrite (recent_none now h0) by (eapply gone_before; [done|lia]).
      cbn -[Z.sub]. replace (now - d <? x) with false by lia.
      pose proof (recent_length now q) as Hr. unfold recent in Hr. cbn in Hl. lia.
    + apply StronglySorted_app in Hs as (_ & _ & Hs). rewrite (recent_all now (x :: q)).
      * symmetry. apply Z.ltb_ge. lia.
      * inversion_clear Hs as [|? ? _ Hx]. constructor; [lia|]. eapply Forall_impl; [done|]. cbn. lia.
Qed.

Lemma queue_push_short h c q stamp :
  queue_of h c q -> Z.of_nat (length q) < m -> c <= stamp -> queue_of (h ++ [stamp]) stamp (q ++ [stamp]).
Proof.
  intros [(h0 & -> & Hg) Hl Hs Hp] Hlt Hc. destruct Hg as [Hg|Hg]; [lia|].
  apply (queue_of_push _ _ c); [done|rewrite length_app; cbn; lia| |done|done].
  right. by eapply gone_later.
Qed.

Lemma queue_push_full h c x q stamp :
  queue_of h c (x :: q) -> Z.of_nat (length (x :: q)) = m -> c <= stamp -> queue_of (h ++ [stamp]) stamp (q ++ [stamp]).
Proof.
  intros [(h0 & -> & Hg) Hl Hs Hp] Hlen Hc.
  replace (h0 ++ x :: q) with ((h0 ++ [x]) ++ q) in * by by rewrite <- (assoc_L (++)).
  apply (queue_of_push _ _ c); [done|rewrite length_app; cbn in *; lia| |done|done].
  left. rewrite length_app. cbn in *. lia.
Qed.

Lemma qstep_refines h c q now stamp :
  0 < m -> queue_of h c q -> c <= now <= stamp ->
  let (ok, q') := qstep now stamp q in
  ok = window_admits now h /\ queue_of (if ok then h ++ [stamp] else h) stamp q'.
Proof.
  intros Hm Hq Hc. rewrite <- (queue_decides h c q now Hm Hq ltac:(lia)). unfold qstep, qdecide.
  destruct (Z.ltb_spec (Z.of_nat (length q)) m) as [Hlt|Hge].
  - split; [done|]. eapply queue_push_short; [done|done|lia].
  - destruct q as [|x q]; [cbn in Hge; lia|]. pose proof (q_len _ _ _ Hq).
    destruct (now - x >=? d); split; try done.
    + eapply queue_push_full; [done|lia|lia].
    + eapply queue_of_later; [|done]. lia.
Qed.

Lemma drop_until_recent now ts : StronglySorted Z.le ts -> drop_until (now - d) ts = recent now ts.
Proof.
  induction 1 as [|x ts Hs IH Hx]; [done|]. cbn -[Z.sub].
  destruct (Z.leb_spec x (now - d)); [replace (now - d <? x) with false by lia; apply IH|].
  replace (now - d <? x) with true by lia. f_equal. symmetry. apply recent_all.
  eapply Forall_impl; [done|]. cbn. lia.
Qed.

Lemma drop_until_suffix cutoff ts : exists ts0, ts = ts0 ++ drop_until cutoff ts /\ Forall (fun x => x <= cutoff) ts0.
Proof.
  induction ts as [|x ts (ts0 & He & Hf)]; [by exists []|]. cbn. destruct (Z.leb_spec x cutoff).
  - exists (x :: ts0). cbn. rewrite <- He. split; [done|by constructor].
  - by exists [].
Qed.

Lemma log_of_later h c c' ts : c <= c' -> log_of h c ts -> log_of h c' ts.
Proof.
  intros Hc [(h0 & -> & Hg) Hs Hp]. split; [exists h0; split; [done|by eapply gone_later]|done|by eapply past_later].
Qed.

Lemma log_of_prune h c ts now :
  log_of h c ts -> c <= now ->
  log_of h now (drop_until (now - d) ts) /\ drop_until (now - d) ts = recent now h.
Proof.
  intros [(h0 & -> & Hg) Hs Hp] Hc. pose proof Hs as Hs'. apply StronglySorted_app in Hs' as (_ & _ & Ht).
  rewrite recent_app, (recent_none now h0) by (eapply gone_later; done).
  split; [|by apply drop_until_recent]. split; [|done|by eapply past_later].
  destruct (drop_until_suffix (now - d) ts) as (ts0 & He & Hf). exists (h0 ++ ts0). split.
  - by rewrite He at 1; rewrite (assoc_L (++)).
  - apply Forall_app. split; [by eapply gone_later|]. eapply Forall_impl; [done|]. cbn. lia.
Qed.

Lemma log_of_push h now ts : log_of h now ts -> log_of (h ++ [now]) now (ts ++ [now]).
Proof.
  intros [(h0 & -> & Hg) Hs Hp]. split.
  - exists h0. by rewrite (assoc_L (++)).
  - by apply sorted_snoc.
  - by eapply past_snoc.
Qed.

(** The pruned log decides as the specification. *)
Lemma pstep_refines h c ts now :
  log_of h c ts -> c <= now ->
  let (ok, ts') := pstep now ts in
  ok = window_admits now h /\ log_of (if ok then h ++ [now] else h) now ts'.
Proof.
  intros Hl Hc. destruct (log_of_prune h c ts now Hl Hc) as [Hp He]. unfold pstep, window_admits.
  rewrite <- He. destruct (Z.geb_spec (Z.of_nat (length (drop_until (now - d) ts))) m).
  - split; [symmetry; by apply Z.ltb_ge|done].
  - split; [symmetry; by apply Z.ltb_lt|by apply log_of_push].
Qed.
End Spec.

(** ** What a limiter promises *)

(** A limiter as its users see it: a request, of type [K], carries the time it is decided
    at and the time it is recorded under; whatever else happens to the state between
    requests is an event of type [E]. *)
Record limiter (K E S : Type) := mkLimiterOps {
  r_now : K -> Z;
  r_stamp : K -> Z;
  r_ok : K -> Prop;
  r_step : K -> S -> bool * S;
  e_now : E -> Z;
  e_ok : E -> Prop;
  e_step : E -> S -> S
}.
Arguments r_now {K E S} _ _.
Arguments r_stamp {K E S} _ _.
Arguments r_ok {K E S} _ _.
Arguments r_step {K E S} _ _ _.
Arguments e_now {K E S} _ _.
Arguments e_ok {K E S} _ _.
Arguments e_step {K E S} _ _ _.

Class SlidingWindow {K E S : Type} (L : limiter K E S) (m d : Z) := {
  remembers : list Z -> Z -> S -> Prop;
  remembers_past h c s : remembers h c s -> Forall (fun x => x <= c) h;
  remembers_env h c s e : remembers h c s -> e_ok L e -> c <= e_now L e -> remembers h (e_now L e) (e_step L e s);
  remembers_step h c s k :
    remembers h c s -> r_ok L k -> c <= r_now L k <= r_stamp L k ->
    let (ok, s') := r_step L k s in
    ok = window_admits m d (r_now L k) h /\ remembers (if ok then h ++ [r_stamp L k] else h) (r_stamp L k) s'
}.

Section Run.
Context {K E S : Type} (L : limiter K E S).

(** The clock does not run backwards. *)
Fixpoint in_order (c : Z) (es : list (K + E)) : Prop :=
  match es with
  | [] => True
  | inl k :: es' => c <= r_now L k <= r_stamp L k /\ r_ok L k /\ in_order (r_stamp L k) es'
  | inr e :: es' => c <= e_now L e /\ e_ok L e /\ in_order (e_now L e) es'
  end.

(** The clock after the events. *)
Fixpoint end_time (c : Z) (es : list (K + E)) : Z :=
  match es with
  | [] => c
  | inl k :: es' => end_time (r_stamp L k) es'
  | inr e :: es' => end_time (e_now L e) es'
  end.

Lemma in_order_app es es' : forall c, in_order c (es ++ es') <-> in_order c es /\ in_order (end_time c es) es'.
Proof. induction es as [|[k|e] es IH]; intros c; cbn; [naive_solver|..]; rewrite IH; naive_solver. Qed.

(** The stamps of the admitted requests, after those of [h], and the state. *)
Fixpoint run (es : list (K + E)) (s : S) (h : list Z) : list Z * S :=
  match es with
  | [] => (h, s)
  | inl k :: es' => let (ok, s') := r_step L k s in run es' s' (if ok then h ++ [r_stamp L k] else h)
  | inr e :: es' => run es' (e_step L e s) h
  end.

(** The decisions of the run. *)
Fixpoint decisions (es : list (K + E)) (s : S) : list bool :=
  match es with
  | [] => []
  | inl k :: es' => let (ok, s') := r_step L k s in ok :: decisions es' s'
  | inr e :: es' => decisions es' (e_step L e s)
  end.

(** The decisions of the reference limiter, which keeps the whole history. *)
Fixpoint reference (m d : Z) (es : list (K + E)) (h : list Z) : list bool :=
  match es with
  | [] => []
  | inl k :: es' =>
      let ok := window_admits m d (r_now L k) h in
      ok :: reference m d es' (if ok then h ++ [r_stamp L k] else h)
  | inr _ :: es' => reference m d es' h
  end.

Context {m d : Z} `{!SlidingWindow L m d}.

Lemma run_admitted es : forall s h c,
  remembers h c s -> in_order c es -> admitted m d h -> admitted m d (run es s h).1.
Proof.
  induction es as [|[k|e] es IH]; intros s h c Hr Hord Hh; cbn; [done|..];
    destruct Hord as (Hc & Hok & Hord).
  - pose proof (remembers_step h c s k Hr Hok Hc) as Hstep.
    destruct (r_step L k s) as [ok s']. destruct Hstep as [Ha Hr'].
    eapply IH; [done|done|]. destruct ok; [|done]. eapply admitted_snoc; [done| |apply Hc|done].
    eapply past_later; [|by eapply remembers_past]. lia.
  - by eapply IH; [eapply remembers_env|..].
Qed.

Lemma run_remembers es : forall s h c,
  remembers h c s -> in_order c es -> remembers (run es s h).1 (end_time c es) (run es s h).2.
Proof.
  induction es as [|[k|e] es IH]; intros s h c Hr Hord; cbn; [done|..]; destruct Hord as (Hc & Hok & Hord).
  - pose proof (remembers_step h c s k Hr Hok Hc) as Hstep.
    destruct (r_step L k s) as [ok s']. destruct Hstep as [_ Hr']. by eapply IH.
  - eapply IH; [by eapply remembers_env|done].
Qed.

(** At most [m] requests are admitted in any window of length [d]. *)
Lemma run_bounded es s c t :
  0 <= m -> remembers [] c s -> in_order c es -> Z.of_nat (count_in d t (run es s []).1) <= m.
Proof. intros Hm Hr Ho. apply admissions_bounded; [done|]. eapply run_admitted; [done..|constructor]. Qed.

(** The decisions are those of the reference. *)
Lemma decisions_reference es : forall s h c,
  remembers h c s -> in_order c es -> decisions es s = reference m d es h.
Proof.
  induction es as [|[k|e] es IH]; intros s h c Hr Hord; cbn; [done|..]; destruct Hord as (Hc & Hok & Hord).
  - pose proof (remembers_step h c s k Hr Hok Hc) as Hstep.
    destruct (r_step L k s) as [ok s']. destruct Hstep as [-> Hr']. f_equal. by eapply IH.
  - eapply IH; [by eapply remembers_env|done].
Qed.
End Run.
