(* ===== verification/RateLimit.v ===== *)
(** * Request limiters

    Model of internal/pkg/common/rate-limit.go (the in-process limiter and its sweeper),
    internal/adapter/middleware/rate-limit.go and rate-limit-v2.go (the limiters per
    client address or per internal key, on Redis lists with the in-process limiter
    behind some of them), responses_state_rate_limit.go, internal/pkg/common/limiter
    (the token bucket, with its Lua script), and middleware/model-rate-limit.go with
    internal/pkg/setting/rate_limit.go (the limits per user on relay requests).

    A request passes through a middleware as a computation on the [gate]: the Redis
    server (any instance of [RedisLists]), the process's limiter and the token buckets.
    Each Redis command may fail.  The readings of the clock are arguments: [t1] where a
    decision is taken, [t2] where the admission is recorded. *)

From S2P Require Import Prelude GoStrings TimeFormat Redis.

Module RateLimit.
Import GoStrings TimeFormat.

(** ** The in-process limiter *)

Record InMemoryRateLimiter := mkLimiter {
  l_store : option (gmap string (list Z)); (* nil before Init; Unix seconds, oldest first *)
  l_expiration : Z;                        (* nanoseconds *)
  l_sweeper : bool;                        (* Init started the sweeper *)
  l_stopped : bool
}.

Inductive panic := PanicNilMap | PanicMakeSlice | PanicIndex.

Definition Init (expirationDuration : Z) (l : InMemoryRateLimiter) : InMemoryRateLimiter :=
  match l_store l with
  | Some _ => l
  | None => mkLimiter (Some ∅) expirationDuration (expirationDuration >? 0) (l_stopped l)
  end.

Definition Stop (l : InMemoryRateLimiter) : InMemoryRateLimiter :=
  mkLimiter (l_store l) (l_expiration l) (l_sweeper l) true.

(** What a sweep at [now] keeps of a key: [int64(expirationDuration.Seconds())] is the
    whole seconds of the duration. *)
Definition kept (expirationDuration now : Z) (queue : list Z) : bool :=
  match last queue with
  | None => false
  | Some newest => negb (now - newest >? Z.quot expirationDuration second)
  end.

(** One tick of the sweeper. *)
Definition clearExpiredItems (now : Z) (l : InMemoryRateLimiter) : InMemoryRateLimiter :=
  if l_sweeper l && negb (l_stopped l) then
    mkLimiter (filter (fun kv : string * list Z => kept (l_expiration l) now kv.2 = true) <$> l_store l)
              (l_expiration l) (l_sweeper l) (l_stopped l)
  else l.

Definition set_queue (key : string) (q : list Z) (st : gmap string (list Z)) (l : InMemoryRateLimiter) : InMemoryRateLimiter :=
  mkLimiter (Some (<[key := q]> st)) (l_expiration l) (l_sweeper l) (l_stopped l).

(** [now] is [time.Now().Unix()]. *)
Definition Request (key : string) (maxRequestNum duration now : Z) (l : InMemoryRateLimiter)
    : result panic bool * InMemoryRateLimiter :=
  let st := default ∅ (l_store l) in
  match st !! key with
  | Some queue =>
      if Z.of_nat (length queue) <? maxRequestNum then (Ok true, set_queue key (queue ++ [now]) st l)
      else match queue with
           | oldest :: rest =>
               if now - oldest >=? duration then (Ok true, set_queue key (rest ++ [now]) st l)
               else (Ok false, l)
           | [] => (Err PanicIndex, l)
           end
  | None =>
      if maxRequestNum <? 0 then (Err PanicMakeSlice, l)
      else match l_store l with
           | None => (Err PanicNilMap, l)
           | Some _ => (Ok true, set_queue key [now] st l)
           end
  end.

(** ** Responses *)

Abbreviation headers := (gmap string string).

Inductive verdict :=
| Next
| Abort (status : Z).

Definition setRateLimitResponseHeaders (limit remaining retryAfterSec : Z) (h : headers) : headers :=
  <["X-RateLimit-Remaining" := Itoa remaining]>
    (<["X-RateLimit-Limit" := Itoa limit]> (<["Retry-After" := Itoa retryAfterSec]> h)).

Definition setRateLimitHeadroomHeaders (scope limitType : string) (limit remaining resetUnix : Z) (h : headers) : headers :=
  let remaining := if remaining <? 0 then 0 else remaining in
  <["X-RateLimit-Type" := limitType]> (<["X-RateLimit-Scope" := scope]>
    (<["X-RateLimit-Reset" := Itoa resetUnix]> (<["X-RateLimit-Remaining" := Itoa remaining]>
      (<["X-RateLimit-Limit" := Itoa limit]> h)))).

Definition rateLimitHeadroomHeaderNames : list string :=
  ["X-RateLimit-Limit"; "X-RateLimit-Remaining"; "X-RateLimit-Reset"; "X-RateLimit-Scope"; "X-RateLimit-Type"].

Definition ClearRateLimitHeadroomHeaders (h : headers) : headers :=
  foldl (fun h name => delete name h) h rateLimitHeadroomHeaderNames.

Definition rateLimitScopeForIdent (ident : string) : string :=
  if HasPrefix ident "ik:" then "key" else "ip".

(** The headers of a refusal, with scope and type. *)
Definition reject_headers (limit retryAfter : Z) (scope : string) (h : headers) : headers :=
  <["X-RateLimit-Type" := "requests"]> (<["X-RateLimit-Scope" := scope]>
    (setRateLimitResponseHeaders limit 0 retryAfter h)).

(** ** The gate *)

Inductive gate_err :=
| RedisErr
| Panicked (p : panic).

#[export] Instance gate_db_error : DbError gate_err := RedisErr.

Definition RateLimitKeyExpirationDuration : Z := 20 * minute.

Definition rateLimitMemoryFallbackMarks : list string := ["RD"; "BS"; "TB"; "CT"; "PG"; "TU"; "IKP-IP"].

Definition rateLimitFallsBackToMemory (mark : string) : bool :=
  bool_decide (mark ∈ rateLimitMemoryFallbackMarks).

(** Unix milliseconds, the clock of the Redis server. *)
Definition unix_ms (t : Z) : Z := t / millisecond - unix_offset * 1000.

(** The token buckets' hashes: tokens and last refill (seconds). *)
Record bucket := mkBucket { tokens : Z; last_time : Z }.

Section Gate.
Context {R : Type} `{RedisLists R}.
(** Local time minus UTC, in nanoseconds. *)
Context (zone : Z).

Record gate := mkGate {
  g_redis : R;
  g_mem : InMemoryRateLimiter;
  g_buckets : gmap string bucket
}.

Definition cmd {A} (f : R -> A * R) : M gate gate_err A :=
  stmt (fun g => let (a, r) := f (g_redis g) in Ok (a, mkGate r (g_mem g) (g_buckets g))).

(** A Redis write whose error the code does not look at. *)
Definition write_cmd {A} (f : R -> R) (k : M gate gate_err A) : M gate gate_err A :=
  catch (cmd (fun r => (tt, f r))) (fun _ => k).

Definition mem_request (key : string) (maxRequestNum duration now : Z) : M gate gate_err bool :=
  fun s =>
    let g := tables s in
    match Request key maxRequestNum duration now (g_mem g) with
    | (Ok b, l) => (Ok b, mkStore (mkGate (g_redis g) l (g_buckets g)) (faults s))
    | (Err p, l) => (Err (Panicked p), mkStore (mkGate (g_redis g) l (g_buckets g)) (faults s))
    end.

Definition memoryRateLimiterKeyed (maxRequestNum duration : Z) (mark ident : string) (t : Z) (h : headers)
    : M gate gate_err (verdict * headers) :=
  let! ok := mem_request (mark +:+ ident) maxRequestNum duration (time_Unix t) in
  ret (if ok : bool then (Next, h)
       else (Abort 429, reject_headers maxRequestNum duration (rateLimitScopeForIdent ident) h)).

(** [oldTimeStr, _ := rdb.LIndex(ctx, key, -1).Result()]: the empty string on an error. *)
Definition oldest_stamp (t : Z) (key : string) : M gate gate_err string :=
  try! r := cmd (fun r => (LINDEX_last (unix_ms t) key r, r)) in
  ret (match r with Ok (Some s) => s | _ => EmptyString end).

Definition push_stamp (key : string) (t : Z) (r : R) : R := LPUSH (unix_ms t) key (Format (t + zone)) r.

Definition redisRateLimiterKeyed (maxRequestNum duration : Z) (mark ident : string) (t1 t2 : Z) (h : headers)
    : M gate gate_err (verdict * headers) :=
  let key := "rateLimit:" +:+ mark +:+ ident in
  let ttl := RateLimitKeyExpirationDuration / millisecond in
  try! listLength := cmd (fun r => (LLEN (unix_ms t1) key r, r)) in
  match listLength with
  | Err _ =>
      if rateLimitFallsBackToMemory mark then memoryRateLimiterKeyed maxRequestNum duration mark ident t2 h
      else ret (Next, h)
  | Ok listLength =>
      if listLength <? maxRequestNum then
        write_cmd (push_stamp key t2)
          (write_cmd (EXPIRE (unix_ms t2) key ttl) (ret (Next, h)))
      else
        let! oldTimeStr := oldest_stamp t1 key in
        match Parse oldTimeStr, Parse (Format (t1 + zone)) with
        | Some oldTime, Some nowTime =>
            let elapsed := Z.quot (time_Sub nowTime oldTime) second in
            if elapsed <? duration then
              write_cmd (EXPIRE (unix_ms t1) key ttl)
                (ret (Abort 429, reject_headers maxRequestNum (i64_sub duration elapsed) (rateLimitScopeForIdent ident) h))
            else
              write_cmd (push_stamp key t2)
                (write_cmd (LTRIM (unix_ms t2) key (maxRequestNum - 1))
                  (write_cmd (EXPIRE (unix_ms t2) key ttl) (ret (Next, h))))
        | _, _ => write_cmd (DEL (unix_ms t1) key) (ret (Next, h))
        end
  end.

(** ** The limiters of the routes *)

(** What the limiters read of a request. *)
Record request := mkRequest {
  ClientIP : string;
  internal_api_key_id : Z;    (* 0 before InternalApiAuth *)
  FullPath : string;
  direct_in_cluster : bool    (* IsDirectInClusterRequest *)
}.

Definition middleware : Type := request -> Z -> Z -> headers -> M gate gate_err (verdict * headers).

Definition defNext : middleware := fun _ _ _ h => ret (Next, h).

(** The middleware, and the process's limiter after the factory ran. *)
Definition keyedRateLimitFactory (redisEnabled : bool) (maxRequestNum duration : Z) (mark : string)
    (keyFn : request -> string) (l : InMemoryRateLimiter) : middleware * InMemoryRateLimiter :=
  if redisEnabled then
    (fun q t1 t2 h => redisRateLimiterKeyed maxRequestNum duration mark (keyFn q) t1 t2 h,
     if rateLimitFallsBackToMemory mark then Init RateLimitKeyExpirationDuration l else l)
  else
    (fun q _ t2 h => memoryRateLimiterKeyed maxRequestNum duration mark (keyFn q) t2 h,
     Init RateLimitKeyExpirationDuration l).

Definition rateLimitFactory (redisEnabled : bool) (maxRequestNum duration : Z) (mark : string)
    (l : InMemoryRateLimiter) : middleware * InMemoryRateLimiter :=
  keyedRateLimitFactory redisEnabled maxRequestNum duration mark ClientIP l.

(** [common.*RateLimit*], as the environment sets them. *)
Record limits := mkLimits {
  RedisEnabled : bool;
  GlobalWebRateLimitEnable : bool; GlobalWebRateLimitNum : Z; GlobalWebRateLimitDuration : Z;
  GlobalApiRateLimitEnable : bool; GlobalApiRateLimitNum : Z; GlobalApiRateLimitDuration : Z;
  GlobalV2RateLimitEnable : bool; GlobalV2RateLimitNum : Z; GlobalV2RateLimitDuration : Z;
  CriticalRateLimitEnable : bool; CriticalRateLimitNum : Z; CriticalRateLimitDuration : Z;
  InternalApiRateLimitEnable : bool
}.

Definition GlobalWebRateLimit (c : limits) (l : InMemoryRateLimiter) : middleware * InMemoryRateLimiter :=
  if GlobalWebRateLimitEnable c then
    rateLimitFactory (RedisEnabled c) (GlobalWebRateLimitNum c) (GlobalWebRateLimitDuration c) "GW" l
  else (defNext, l).

Definition probeBypassPaths : list string := ["/api/status"; "/api/health"].

Definition GlobalAPIRateLimit (c : limits) (l : InMemoryRateLimiter) : middleware * InMemoryRateLimiter :=
  let (next, l) :=
    if GlobalApiRateLimitEnable c then
      rateLimitFactory (RedisEnabled c) (GlobalApiRateLimitNum c) (GlobalApiRateLimitDuration c) "GA" l
    else (defNext, l) in
  (fun q t1 t2 h =>
     if bool_decide (FullPath q ∈ probeBypassPaths) && direct_in_cluster q then ret (Next, h)
     else next q t1 t2 h, l).

Definition GlobalV2RateLimit (c : limits) (l : InMemoryRateLimiter) : middleware * InMemoryRateLimiter :=
  if negb (GlobalV2RateLimitEnable c) || (GlobalV2RateLimitNum c <=? 0) then (defNext, l)
  else rateLimitFactory (RedisEnabled c) (GlobalV2RateLimitNum c) (GlobalV2RateLimitDuration c) "GV" l.

Definition CriticalRateLimit (c : limits) (l : InMemoryRateLimiter) : middleware * InMemoryRateLimiter :=
  if CriticalRateLimitEnable c then
    rateLimitFactory (RedisEnabled c) (CriticalRateLimitNum c) (CriticalRateLimitDuration c) "CT" l
  else (defNext, l).

Definition TotpBackupCodesRateLimit (c : limits) := rateLimitFactory (RedisEnabled c) 5 (20 * 60) "TB".
Definition ClientErrorReportRateLimit (c : limits) := rateLimitFactory (RedisEnabled c) 30 (10 * 60) "CE".
Definition RedemptionRateLimit (c : limits) := rateLimitFactory (RedisEnabled c) 5 60 "RD".
Definition PlanGrantRateLimit (c : limits) := rateLimitFactory (RedisEnabled c) 10 60 "PG".
Definition BootstrapRateLimit (c : limits) := rateLimitFactory (RedisEnabled c) 5 60 "BS".

Definition internalApiRateLimitKey (q : request) : string :=
  if internal_api_key_id q >? 0 then "ik:" +:+ Itoa (internal_api_key_id q) else "ip:" +:+ ClientIP q.

Definition InternalApiRateLimit (c : limits) (maxRequestNum duration : Z) (mark : string)
    (l : InMemoryRateLimiter) : middleware * InMemoryRateLimiter :=
  if negb (InternalApiRateLimitEnable c) then (defNext, l)
  else keyedRateLimitFactory (RedisEnabled c) maxRequestNum duration mark internalApiRateLimitKey l.
(** ** The limiter of the stored responses *)

Definition responsesStateRateLimitNum : Z := 30.
Definition responsesStateRateLimitDuration : Z := 60.
Definition responsesStateRateLimitMark : string := "RS".

Definition responsesStateReject (retryAfter : Z) (h : headers) : verdict * headers :=
  (Abort 429, reject_headers responsesStateRateLimitNum retryAfter "ip" h).

Definition responsesStateMemoryRateLimit : middleware :=
  fun q _ t2 h =>
    let! ok := mem_request (responsesStateRateLimitMark +:+ ClientIP q) responsesStateRateLimitNum
                 responsesStateRateLimitDuration (time_Unix t2) in
    ret (if ok : bool then (Next, h) else responsesStateReject responsesStateRateLimitDuration h).

Definition responsesStateRedisRateLimit : middleware :=
  fun q t1 t2 h =>
    let key := "rateLimit:" +:+ responsesStateRateLimitMark +:+ ClientIP q in
    let ttl := RateLimitKeyExpirationDuration / millisecond in
    try! listLength := cmd (fun r => (LLEN (unix_ms t1) key r, r)) in
    match listLength with
    | Err _ => ret (Abort 500, h)
    | Ok listLength =>
        if listLength <? responsesStateRateLimitNum then
          write_cmd (push_stamp key t2) (write_cmd (EXPIRE (unix_ms t2) key ttl) (ret (Next, h)))
        else
          let! oldTimeStr := oldest_stamp t1 key in
          match Parse oldTimeStr, Parse (Format (t1 + zone)) with
          | Some oldTime, Some nowTime =>
              let elapsed := Z.quot (time_Sub nowTime oldTime) second in
              if elapsed <? responsesStateRateLimitDuration then
                write_cmd (EXPIRE (unix_ms t1) key ttl)
                  (ret (responsesStateReject (i64_sub responsesStateRateLimitDuration elapsed) h))
              else
                write_cmd (push_stamp key t2)
                  (write_cmd (LTRIM (unix_ms t2) key (responsesStateRateLimitNum - 1))
                    (write_cmd (EXPIRE (unix_ms t2) key ttl) (ret (Next, h))))
          | _, _ => ret (Abort 500, h)
          end
    end.

Definition ResponsesStateRateLimit (redisEnabled : bool) (l : InMemoryRateLimiter) : middleware * InMemoryRateLimiter :=
  if redisEnabled then (responsesStateRedisRateLimit, l)
  else (responsesStateMemoryRateLimit, Init RateLimitKeyExpirationDuration l).

(** ** The token bucket *)

(** The Lua script, at the server's second [now]; numbers stay far below the precision
    of a Lua number. *)
Definition rate_limit_lua (requested rate capacity now : Z) (b : option bucket) : bool * bucket :=
  let tokens :=
    match b with
    | None => capacity
    | Some b => Z.min capacity (tokens b + (now - last_time b) * rate)
    end in
  if tokens >=? requested then (true, mkBucket (tokens - requested) now) else (false, mkBucket tokens now).

(** [RedisLimiter.Allow] with its three options. *)
Definition bucket_Allow (key : string) (capacity rate requested t : Z) : M gate gate_err bool :=
  stmt (fun g =>
    let (ok, b) := rate_limit_lua requested rate capacity (time_Unix t) (g_buckets g !! key) in
    Ok (ok, mkGate (g_redis g) (g_mem g) (<[key := b]> (g_buckets g)))).

(** ** The limit per user on relay requests *)

Record model_settings := mkModelSettings {
  ModelRequestRateLimitEnabled : bool;
  ModelRequestRateLimitDurationMinutes : Z;
  ModelRequestRateLimitCount : Z;
  ModelRequestRateLimitSuccessCount : Z;
  ModelRequestRateLimitGroup : gmap string (Z * Z)
}.

Definition GetGroupRateLimit (st : model_settings) (group : string) : option (Z * Z) :=
  ModelRequestRateLimitGroup st !! group.

Definition CheckModelRequestRateLimitGroup (g : gmap string (Z * Z)) : bool :=
  forallb (fun kv : string * (Z * Z) =>
    negb ((kv.2.1 <? 0) || (kv.2.2 <? 1)) && negb ((kv.2.1 >? 2147483647) || (kv.2.2 >? 2147483647)))
    (map_to_list g).

(** [ttl] is [ModelRequestRateLimitDurationMinutes] in milliseconds; [None] an error. *)
Definition checkRedisRateLimit (ttl : Z) (key : string) (maxCount duration t : Z) : M gate gate_err (option bool) :=
  if maxCount =? 0 then ret (Some true)
  else
    try! length := cmd (fun r => (LLEN (unix_ms t) key r, r)) in
    match length with
    | Err _ => ret None
    | Ok length =>
        if length <? maxCount then ret (Some true)
        else
          let! oldTimeStr := oldest_stamp t key in
          match Parse oldTimeStr, Parse (Format (t + zone)) with
          | Some oldTime, Some nowTime =>
              if Z.quot (time_Sub nowTime oldTime) second <? duration then
                write_cmd (EXPIRE (unix_ms t) key ttl) (ret (Some false))
              else ret (Some true)
          | _, _ => ret None
          end
    end.

Definition recordRedisRequest (ttl : Z) (key : string) (maxCount t : Z) : M gate gate_err unit :=
  if maxCount =? 0 then ret tt
  else
    try! pushed := cmd (fun r => (tt, push_stamp key t r)) in
    match pushed with
    | Err _ => ret tt
    | Ok _ => write_cmd (LTRIM (unix_ms t) key (maxCount - 1)) (write_cmd (EXPIRE (unix_ms t) key ttl) (ret tt))
    end.

(** [c.Next()] of a limiter in the middle of the chain: what the rest of the chain
    answers, unless the request was aborted before. *)
Definition downstream (v : verdict) (status : Z) : Z := match v with Abort s => s | Next => status end.

(** [t1] and [t2] are the times of the two checks, [t3] that of the recording, [status]
    the answer of the rest of the chain. *)
Definition redisRateLimitHandler (st : model_settings) (duration totalMaxCount successMaxCount userId : Z)
    (status t1 t2 t3 : Z) (h : headers) : M gate gate_err (verdict * headers) :=
  let ttl := ModelRequestRateLimitDurationMinutes st * 60000 in
  let successKey := "rateLimit:MRRLS:" +:+ Itoa userId in
  let! allowed := checkRedisRateLimit ttl successKey successMaxCount duration t1 in
  match allowed with
  | None => ret (Next, h)
  | Some false => ret (Abort 429, reject_headers successMaxCount duration "user" h)
  | Some true =>
      let finish (v : verdict) (h : headers) :=
        if downstream v status <? 400 then
          let! _ := recordRedisRequest ttl successKey successMaxCount t3 in ret (v, h)
        else ret (v, h) in
      if totalMaxCount >? 0 then
        try! allowed := bucket_Allow ("rateLimit:" +:+ Itoa userId) (i64_mul totalMaxCount duration)
                          totalMaxCount duration t2 in
        match allowed with
        | Err _ => ret (Next, h)
        | Ok false => finish (Abort 429) (reject_headers totalMaxCount duration "user" h)
        | Ok true => finish Next h
        end
      else finish Next h
  end.

Definition memoryRateLimitHandler (duration totalMaxCount successMaxCount userId : Z)
    (status t1 t2 t3 : Z) (h : headers) : M gate gate_err (verdict * headers) :=
  let totalKey := "MRRL" +:+ Itoa userId in
  let successKey := "MRRLS" +:+ Itoa userId in
  let! ok := (if totalMaxCount >? 0 then mem_request totalKey totalMaxCount duration (time_Unix t1) else ret true) in
  if negb ok then ret (Abort 429, reject_headers totalMaxCount duration "user" h)
  else
    let! ok := mem_request (successKey +:+ "_check") successMaxCount duration (time_Unix t2) in
    if negb ok then ret (Abort 429, reject_headers successMaxCount duration "user" h)
    else if status <? 400 then
      let! _ := mem_request successKey successMaxCount duration (time_Unix t3) in ret (Next, h)
    else ret (Next, h).

Definition ModelRequestRateLimit (redisEnabled : bool) (st : model_settings) (tokenGroup userGroup : string)
    (userId status t1 t2 t3 : Z) (h : headers) : M gate gate_err (verdict * headers) :=
  if negb (ModelRequestRateLimitEnabled st) then ret (Next, h)
  else
    let duration := i64_mul (ModelRequestRateLimitDurationMinutes st) 60 in
    let group := if bool_decide (tokenGroup = EmptyString) then userGroup else tokenGroup in
    let '(totalMaxCount, successMaxCount) :=
      match GetGroupRateLimit st group with
      | Some p => p
      | None => (ModelRequestRateLimitCount st, ModelRequestRateLimitSuccessCount st)
      end in
    if redisEnabled then
      redisRateLimitHandler st duration totalMaxCount successMaxCount userId status t1 t2 t3 h
    else
      fun s =>
        (* the handler is built per request: Init, then the request *)
        let g := tables s in
        memoryRateLimitHandler duration totalMaxCount successMaxCount userId status t1 t2 t3 h
          (mkStore (mkGate (g_redis g) (Init (ModelRequestRateLimitDurationMinutes st * minute) (g_mem g)) (g_buckets g))
                   (faults s)).
End Gate.

Arguments gate R : clear implicits.
End RateLimit.
