(* ===== verification/RateLimitSpec.v ===== *)
(** * The request limiters refine the sliding window

    [mem_window] and [list_window] are the instances of [SlidingWindow] for the
    in-process limiter and for the Redis lists; the properties of the two limiters, the
    token bucket's bound and the limits per user follow. *)

From S2P Require Import Prelude GoStrings Calendar TimeFormat Redis Window RateLimit.

Section MemoryLimiter.
Import RateLimit.
Context (key : string) (m d : Z).

(** What else happens to the limiter. *)
Inductive mem_env :=
| Sweep (now : Z)
| Other (key' : string) (max duration now : Z)
| Reinit (expiration now : Z)
| Halt (now : Z).

Definition mem_request_step (now : Z) (l : InMemoryRateLimiter) : bool * InMemoryRateLimiter :=
  match Request key m d now l with
  | (Ok b, l') => (b, l')
  | (Err _, l') => (false, l')
  end.

Definition mem_limiter : limiter Z mem_env InMemoryRateLimiter := {|
  r_now := fun now => now;
  r_stamp := fun now => now;
  r_ok := fun _ => True;
  r_step := mem_request_step;
  e_now := fun e => match e with Sweep now | Other _ _ _ now | Reinit _ now | Halt now => now end;
  e_ok := fun e => match e with Other key' _ _ _ => key' <> key | _ => True end;
  e_step := fun e l =>
    match e with
    | Sweep now => clearExpiredItems now l
    | Other key' max duration now => snd (Request key' max duration now l)
    | Reinit exp _ => Init exp l
    | Halt _ => Stop l
    end
|}.

(** The key's queue, and a sweeper that does not sweep what is still in the window. *)
Definition mem_remembers (h : list Z) (c : Z) (l : InMemoryRateLimiter) : Prop :=
  exists st, l_store l = Some st /\ queue_of m d h c (default [] (st !! key)) /\ st !! key <> Some [] /\
             d <= Z.quot (l_expiration l) second.

(** [Request] is the queue step on the key's queue, and does not panic. *)
Lemma Request_qstep st l now :
  0 < m -> l_store l = Some st -> st !! key <> Some [] ->
  let r := qstep m d now now (default [] (st !! key)) in
  Request key m d now l = (Ok r.1, if r.1 then set_queue key r.2 st l else l) /\ r.2 <> [].
Proof.
  intros Hm Hst Hne. unfold Request, qstep. rewrite Hst. change (default ∅ (Some st)) with st.
  destruct (st !! key) as [[|x q]|] eqn:Hk; [done|..].
  - change (default [] (Some (x :: q))) with (x :: q).
    destruct (Z.of_nat (length (x :: q)) <? m); [by split|]. destruct (now - x >=? d); [|by split].
    split; [done|]. cbn. by destruct q.
  - replace (m <? 0) with false by lia. change (Z.of_nat (length (default [] None))) with 0.
    by replace (0 <? m) with true by lia.
Qed.

(** A queue the sweeper drops has left the window. *)
Lemma swept_gone h c q exp now :
  queue_of m d h c q -> d <= Z.quot exp second -> kept exp now q = false ->
  Forall (fun x => x + d <= now) q.
Proof.
  intros [(h0 & -> & _) _ (_ & _ & Hs)%StronglySorted_app _] Hd Hk. unfold kept in Hk.
  destruct (last q) as [x|] eqn:Hx; [|by apply last_None in Hx as ->].
  apply last_Some in Hx as [q' ->]. apply StronglySorted_app in Hs as (Hle & _ & _).
  apply Forall_app. split; [|constructor; [lia|done]]. apply Forall_forall. intros y Hy.
  specialize (Hle y x Hy ltac:(left)). lia.
Qed.

Lemma mem_later h c c' l : c <= c' -> mem_remembers h c l -> mem_remembers h c' l.
Proof. intros Hc (st & Hst & Hq & Hne & Hd). exists st. by eauto using queue_of_later. Qed.

Lemma mem_sweep h c l now :
  0 < m -> mem_remembers h c l -> c <= now -> mem_remembers h now (clearExpiredItems now l).
Proof.
  intros Hm Hr Hc. unfold clearExpiredItems. destruct (_ && _); [|by eapply mem_later].
  destruct Hr as (st & Hst & Hq & Hne & Hd). apply (queue_of_later m d h c now) in Hq; [|done].
  eexists. rewrite Hst. cbn [l_store l_expiration]. split; [done|].
  destruct (st !! key) as [q|] eqn:Hk; cbn [default] in Hq.
  - destruct (kept (l_expiration l) now q) eqn:Hkeep.
    + rewrite (map_lookup_filter_Some_2 _ st key q) by done. done.
    + rewrite map_lookup_filter_None_2 by (right; intros q' Hq'; cbn; by simplify_eq; rewrite Hkeep).
      split; [|done]. cbn. eapply queue_of_drop; [done|done|]. by eapply swept_gone.
  - by rewrite map_lookup_filter_None_2 by (left; done).
Qed.

Lemma mem_other h c l key' max dur now :
  mem_remembers h c l -> key' <> key -> c <= now -> mem_remembers h now (Request key' max dur now l).2.
Proof.
  intros Hr Hk Hc. apply (mem_later h c now) in Hr; [|done]. destruct Hr as (st & Hst & Hq & Hne & Hd).
  assert (forall q, mem_remembers h now (set_queue key' q st l)) as Hset.
  { intros q. exists (<[key' := q]> st). rewrite lookup_insert_ne by done. done. }
  assert (mem_remembers h now l) by by exists st.
  unfold Request. rewrite Hst. change (default ∅ (Some st)) with st.
  destruct (st !! key') as [[|x q]|]; repeat case_match; cbn; auto.
Qed.

Lemma mem_init h c l exp : mem_remembers h c l -> Init exp l = l.
Proof. intros (st & Hst & _). unfold Init. by rewrite Hst. Qed.

#[export] Instance mem_window (Hm : 0 < m) : SlidingWindow mem_limiter m d.
Proof.
  refine {| remembers := mem_remembers |}.
  - by intros h c l (st & _ & Hq & _); apply Hq.
  - intros h c l e Hr Hok Hc. destruct e as [now|key' max dur now|exp now|now]; cbn in *.
    + by eapply mem_sweep.
    + by eapply mem_other.
    + rewrite (mem_init h c) by done. by eapply mem_later.
    + apply (mem_later h c now) in Hr; done.
  - intros h c l now (st & Hst & Hq & Hne & Hd) _ Hc. cbn in *. unfold mem_request_step.
    destruct (Request_qstep st l now Hm Hst Hne) as [-> Hq'].
    pose proof (qstep_refines m d h c _ now now Hm Hq Hc) as Href.
    destruct (qstep m d now now (default [] (st !! key))) as [ok q']. destruct Href as [Hok Hq2]. cbn [fst snd] in *.
    split; [done|]. destruct ok.
    + exists (<[key := q']> st). rewrite lookup_insert_eq. split; [done|]. split; [done|]. split; [congruence|done].
    + exists st. split_and!; [done| |done|done]. eapply queue_of_later; [|exact Hq]. lia.
Defined.
End MemoryLimiter.

Section ListLimiter.
Import TimeFormat RateLimit.
Context {R : Type} `{RedisListLaws R}.
(** Local time is [zms] milliseconds ahead of UTC. *)
Context (zms max dur : Z) (mark ident : string) (hdr : headers).

Let zone : Z := zms * millisecond.
Let key : string := "rateLimit:" +:+ mark +:+ ident.
Let d : Z := 1000 * dur.

(** A clock reading in the milliseconds of the stamps, and those of the server. *)
Definition wall_ms (t : Z) : Z := (t + zone) / millisecond.
Definition srv (c : Z) : Z := c - zms - unix_offset * 1000.

Definition list_step (k : Z * Z) (s : store (gate R)) : bool * store (gate R) :=
  match redisRateLimiterKeyed zone max dur mark ident k.1 k.2 hdr s with
  | (Ok (Next, _), s') => (true, s')
  | (_, s') => (false, s')
  end.

(** Between requests: anything that leaves the key alone. *)
Definition leaves_key (e : Z * (store (gate R) -> store (gate R))) : Prop :=
  forall s, faults (e.2 s) = faults s /\
    forall t, srv e.1 <= t -> peekl t key (g_redis (tables (e.2 s))) = peekl t key (g_redis (tables s)).

Definition list_limiter : limiter (Z * Z) (Z * (store (gate R) -> store (gate R))) (store (gate R)) := {|
  r_now := fun k => wall_ms k.1;
  r_stamp := fun k => wall_ms k.2;
  r_ok := fun k => wall_ok (k.1 + zone) /\ wall_ok (k.2 + zone);
  r_step := list_step;
  e_now := fst;
  e_ok := leaves_key;
  e_step := snd
|}.

(** What the server shows of a queue: its stamps, newest first, kept until they all have
    left the window. *)
Definition shows (q : list Z) (e : option (list string * option Z)) : Prop :=
  match e with
  | None => q = []
  | Some (l, deadline) =>
      l <> [] /\ Forall2 (fun x s => Parse s = Some (x * millisecond)) q (rev l) /\
      exists D, deadline = Some D /\ Forall (fun x => srv (x + d) <= D) q
  end.

Definition list_remembers (h : list Z) (c : Z) (s : store (gate R)) : Prop :=
  faults s = [] /\ exists q, queue_of max d h c q /\ shows q (peekl (srv c) key (g_redis (tables s))).

Lemma srv_wall t : srv (wall_ms t) = unix_ms t.
Proof. unfold srv, wall_ms, zone, unix_ms. rewrite Z.div_add by done. lia. Qed.

Lemma list_age h c c' q (r : R) :
  0 < max -> c <= c' -> queue_of max d h c q -> shows q (peekl (srv c) key r) ->
  exists q', queue_of max d h c' q' /\ shows q' (peekl (srv c') key r) /\ (q' = q \/ q' = []).
Proof.
  intros Hm Hc Hq Hs. rewrite (peekl_age (srv c)) by (unfold srv; lia).
  apply (queue_of_later max d h c c') in Hq; [|done].
  destruct (peekl (srv c) key r) as [[l dl]|]; cbn [shows] in Hs; [|exists q; split_and!; [done|done|by left]].
  destruct Hs as (Hl & Hf & D & -> & HD). cbn [age]. destruct (Z.leb_spec D (srv c')) as [Hx|Hx].
  - exists []. split_and!; [|done|by right]. eapply queue_of_drop; [done|done|].
    eapply Forall_impl; [exact HD|]. intros x. unfold srv in *. cbn. lia.
  - exists q. split_and!; [done| |by left]. cbn. eauto 10.
Qed.

(** The middleware on a healthy server, as a function of the server's state. *)
Definition push_key (t : Z) (r : R) : R :=
  EXPIRE (unix_ms t) key (RateLimitKeyExpirationDuration / millisecond) (push_stamp zone key t r).
Definition slide_key (t : Z) (r : R) : R :=
  EXPIRE (unix_ms t) key (RateLimitKeyExpirationDuration / millisecond)
    (LTRIM (unix_ms t) key (max - 1) (push_stamp zone key t r)).
Definition set_redis (r : R) (g : gate R) : store (gate R) := mkStore (mkGate r (g_mem g) (g_buckets g)) [].

Lemma keyed_short g t1 t2 :
  LLEN (unix_ms t1) key (g_redis g) < max ->
  redisRateLimiterKeyed zone max dur mark ident t1 t2 hdr (mkStore g []) =
    (Ok (Next, hdr), set_redis (push_key t2 (g_redis g)) g).
Proof.
  intros Hl. unfold redisRateLimiterKeyed, cmd, write_cmd, catch, stmt. cbn [next_fault faults tables].
  fold key. by replace (LLEN (unix_ms t1) key (g_redis g) <? max) with true by lia.
Qed.

Lemma keyed_full g t1 t2 s old nowTime :
  max <= LLEN (unix_ms t1) key (g_redis g) -> LINDEX_last (unix_ms t1) key (g_redis g) = Some s ->
  Parse s = Some old -> Parse (Format (t1 + zone)) = Some nowTime ->
  redisRateLimiterKeyed zone max dur mark ident t1 t2 hdr (mkStore g []) =
    if Z.quot (time_Sub nowTime old) second <? dur then
      (Ok (Abort 429, reject_headers max (i64_sub dur (Z.quot (time_Sub nowTime old) second)) (rateLimitScopeForIdent ident) hdr),
       set_redis (EXPIRE (unix_ms t1) key (RateLimitKeyExpirationDuration / millisecond) (g_redis g)) g)
    else (Ok (Next, hdr), set_redis (slide_key t2 (g_redis g)) g).
Proof.
  intros Hl Hs Hold Hnow. unfold redisRateLimiterKeyed, oldest_stamp, cmd, write_cmd, catch, bind, stmt.
  cbn [next_fault faults tables]. fold key.
  replace (LLEN (unix_ms t1) key (g_redis g) <? max) with false by lia.
  cbn [next_fault faults tables g_redis ret]. rewrite Hs. cbn [ret]. rewrite Hold, Hnow.
  by destruct (_ <? dur).
Qed.

Lemma stamp_read t : wall_ok (t + zone) -> Parse (Format (t + zone)) = Some (wall_ms t * millisecond).
Proof.
  intros Hw. rewrite Parse_Format by done. f_equal. unfold wall_ms.
  pose proof (Z.div_mod (t + zone) millisecond ltac:(done)). lia.
Qed.

Lemma elapsed_lt a b :
  0 < dur -> dur * second <= i64_max -> b <= a ->
  (Z.quot (time_Sub (a * millisecond) (b * millisecond)) second <? dur) = negb (a - b >=? d).
Proof.
  intros Hd Hmax Hab. pose proof (time_Sub_nonneg (a * millisecond) (b * millisecond) ltac:(unfold millisecond; lia)) as H0'.
  pose proof (time_Sub_ge (a * millisecond) (b * millisecond) (dur * second) ltac:(unfold second in *; lia)) as Hge.
  rewrite Z.quot_div_nonneg by (done || lia).
  destruct (Z.geb_spec (a - b) d) as [Hab'|Hab']; cbn [negb]; unfold d in Hab'.
  - apply Z.ltb_ge. apply Z.div_le_lower_bound; [done|].
    assert (dur * second <= time_Sub (a * millisecond) (b * millisecond)); [|lia].
    apply Hge. unfold second, millisecond. lia.
  - apply Z.ltb_lt. apply Z.div_lt_upper_bound; [done|].
    assert (~ dur * second <= time_Sub (a * millisecond) (b * millisecond)); [|lia].
    rewrite Hge. unfold second, millisecond. lia.
Qed.

Lemma age_live t D (l : list string) : t < D -> age t (Some (l, Some D)) = Some (l, Some D).
Proof. intros Ht. cbn. by replace (D <=? t) with false by lia. Qed.

(** After a push, with the key's expiry renewed. *)
Lemma shows_push q t (r' : R) l :
  d <= RateLimitKeyExpirationDuration / millisecond -> wall_ok (t + zone) ->
  Forall (fun x => x <= wall_ms t) q -> Forall2 (fun x s => Parse s = Some (x * millisecond)) q (rev l) ->
  peekl (unix_ms t) key r' = Some (Format (t + zone) :: l, Some (unix_ms t + RateLimitKeyExpirationDuration / millisecond)) ->
  shows (q ++ [wall_ms t]) (peekl (srv (wall_ms t)) key r').
Proof.
  intros Hd Hw Hp Hf He. rewrite srv_wall, He. cbn [shows rev]. split_and!; [done| |].
  - apply Forall2_app; [done|]. constructor; [|done]. by apply stamp_read.
  - eexists. split; [done|]. rewrite <- srv_wall. apply Forall_app. split; [|constructor; [unfold srv; lia|done]].
    eapply Forall_impl; [exact Hp|]. intros x. unfold srv. cbn. lia.
Qed.

Lemma push_peek t (r : R) :
  peekl (unix_ms t) key (push_key t r) =
    Some (Format (t + zone) :: lelems (unix_ms t) key r, Some (unix_ms t + RateLimitKeyExpirationDuration / millisecond)).
Proof.
  unfold push_key, push_stamp, lelems. rewrite peekl_expire by done. rewrite peekl_push.
  by destruct (peekl (unix_ms t) key r) as [[l dl]|].
Qed.

Lemma slide_peek t (r : R) :
  0 < max ->
  peekl (unix_ms t) key (slide_key t r) =
    Some (Format (t + zone) :: take (Z.to_nat (max - 1)) (lelems (unix_ms t) key r),
          Some (unix_ms t + RateLimitKeyExpirationDuration / millisecond)).
Proof.
  intros Hm. unfold slide_key, push_stamp, lelems. rewrite peekl_expire by done.
  assert (forall (v : string) l, ltrim (max - 1) (v :: l) = v :: take (Z.to_nat (max - 1)) l) as Htrim.
  { intros v l. unfold ltrim. replace (max - 1 <? 0) with false by lia.
    replace (Z.to_nat (max - 1 + 1)) with (S (Z.to_nat (max - 1))) by lia. done. }
  destruct (peekl (unix_ms t) key r) as [[l dl]|] eqn:He.
  - erewrite peekl_trim; [|by rewrite peekl_push, He|by rewrite Htrim]. cbn. by rewrite Htrim.
  - erewrite peekl_trim; [|by rewrite peekl_push, He|by rewrite Htrim]. cbn. by rewrite Htrim.
Qed.

(** The elements the server holds are those of the queue. *)
Lemma shows_elems q t (r : R) :
  shows q (peekl t key r) -> Forall2 (fun x s => Parse s = Some (x * millisecond)) q (rev (lelems t key r)).
Proof.
  unfold lelems. destruct (peekl t key r) as [[l dl]|]; cbn; [by intros (_ & ? & _)|by intros ->].
Qed.

Context (Hmax : 0 < max) (Hdur : 0 < dur) (Httl : d <= RateLimitKeyExpirationDuration / millisecond).

Lemma shows_full x q t (r : R) :
  shows (x :: q) (peekl t key r) ->
  exists o rest, lelems t key r = rest ++ [o] /\ Parse o = Some (x * millisecond) /\
    Forall2 (fun x s => Parse s = Some (x * millisecond)) q (rev rest).
Proof.
  intros Hf%shows_elems. apply Forall2_cons_inv_l in Hf as (o & rest & Ho & Hf & He).
  exists o, (rev rest). rewrite rev_involutive. split; [|done].
  rewrite <- (rev_involutive (lelems t key r)), He. done.
Qed.

(** The queue after a push at [t], from a state aged to [t]. *)
Lemma list_push h c q g t :
  queue_of max d h c q -> c <= wall_ms t -> wall_ok (t + zone) -> shows q (peekl (unix_ms t) key (g_redis g)) ->
  Z.of_nat (length q) < max ->
  list_remembers (h ++ [wall_ms t]) (wall_ms t) (set_redis (push_key t (g_redis g)) g).
Proof.
  intros Hq Hc Hw Hs Hl. split; [done|]. exists (q ++ [wall_ms t]). split; [by eapply queue_push_short|].
  eapply shows_push; [done|done| |by apply shows_elems|by apply push_peek].
  destruct Hq as [(h0 & -> & _) _ _ Hp]. apply Forall_app in Hp as [_ Hp]. by eapply past_later.
Qed.

Lemma list_slide h c q g t :
  queue_of max d h c q -> c <= wall_ms t -> wall_ok (t + zone) -> shows q (peekl (unix_ms t) key (g_redis g)) ->
  q = [] \/ Z.of_nat (length q) = max ->
  list_remembers (h ++ [wall_ms t]) (wall_ms t) (set_redis (slide_key t (g_redis g)) g).
Proof.
  intros Hq Hc Hw Hs Hl. split; [done|]. pose proof (slide_peek t (g_redis g) Hmax) as Hpeek.
  assert (Forall (fun x => x <= wall_ms t) q) as Hp.
  { destruct Hq as [(h0 & -> & _) _ _ Hp]. apply Forall_app in Hp as [_ Hp]. by eapply past_later. }
  destruct q as [|x q].
  - exists [wall_ms t]. apply shows_elems in Hs. apply Forall2_nil_inv_l, (f_equal (@rev _)) in Hs.
    rewrite rev_involutive in Hs. cbn in Hs. rewrite Hs, take_nil in Hpeek. split; [by eapply (queue_push_short _ _ _ _ []); [done|cbn; lia|]|].
    by apply (shows_push [] t _ []).
  - destruct Hl as [?|Hl]; [done|]. destruct (shows_full x q _ _ Hs) as (o & rest & He & _ & Hf).
    exists (q ++ [wall_ms t]). split; [by eapply queue_push_full|].
    eapply shows_push; [done|done|by inversion_clear Hp| |exact Hpeek].
    pose proof (Forall2_length _ _ _ Hf) as Hlen. rewrite length_rev in Hlen. cbn in Hl.
    by rewrite He, take_app_length' by lia.
Qed.

#[export] Instance list_window : SlidingWindow list_limiter max d.
Proof.
  refine {| remembers := list_remembers |}.
  - by intros h c s (_ & q & Hq & _); apply Hq.
  - intros h c s e (Hf & q & Hq & Hs) Hok Hc. destruct (Hok s) as [Hf' Hpeek]. cbn in *.
    destruct (list_age h c e.1 q _ Hmax Hc Hq Hs) as (q' & Hq' & Hs' & _).
    split; [by rewrite Hf'|]. exists q'. by rewrite Hpeek by done.
  - intros h c [g fs] [t1 t2] (Hf & q & Hq & Hs) [Hw1 Hw2] Hc. cbn in Hf, Hs, Hc, Hw1, Hw2. subst fs.
    cbn [list_limiter r_now r_stamp r_step fst snd]. unfold list_step. cbn [fst snd].
    destruct (list_age h c (wall_ms t1) q _ Hmax ltac:(lia) Hq Hs) as (q1 & Hq1 & Hs1 & _).
    destruct (list_age h (wall_ms t1) (wall_ms t2) q1 _ Hmax ltac:(lia) Hq1 Hs1) as (q2 & Hq2 & Hs2 & Hor).
    rewrite <- (queue_decides max d h (wall_ms t1) q1 (wall_ms t1) Hmax Hq1 ltac:(lia)). unfold qdecide.
    pose proof Hs1 as Hlen. apply shows_elems, Forall2_length in Hlen. rewrite length_rev, srv_wall in Hlen.
    rewrite srv_wall in Hs2. destruct (Z.ltb_spec (Z.of_nat (length q1)) max) as [Hlt|Hge].
    + rewrite keyed_short by (unfold LLEN; lia). split; [done|]. eapply list_push; [done|lia|done|done|].
      destruct Hor as [->| ->]; cbn; lia.
    + pose proof (q_len _ _ _ _ _ Hq1). destruct q1 as [|x q1]; [cbn in Hge; lia|].
      destruct (shows_full x q1 _ _ Hs1) as (o & rest & He & Ho & _). rewrite srv_wall in He.
      erewrite keyed_full; [|unfold LLEN; lia|unfold LINDEX_last; rewrite He; apply last_snoc|exact Ho|by apply stamp_read].
      assert (x <= wall_ms t1) as Hx.
      { destruct Hq1 as [(h0 & -> & _) _ _ Hp]. apply Forall_app in Hp as [_ Hp]. by inversion_clear Hp. }
      assert (dur * second <= i64_max) .
      { pose proof Httl as Httl'. change (_ / millisecond) with 1200000 in Httl'.
        unfold d, second, i64_max, i64_half in *. lia. }
      rewrite elapsed_lt by done. destruct (wall_ms t1 - x >=? d); cbn [negb].
      * split; [done|]. eapply list_slide; [done|lia|done|done|]. destruct Hor as [->| ->]; [right; lia|by left].
      * split; [done|]. split; [done|].
        assert (exists q', queue_of max d h (wall_ms t2) q' /\ shows q' (peekl (srv (wall_ms t2)) key
          (EXPIRE (unix_ms t1) key (RateLimitKeyExpirationDuration / millisecond) (g_redis g))) /\
          (q' = x :: q1 \/ q' = [])) as (q' & Hq' & Hs' & _); [|by exists q'].
        apply (list_age h (wall_ms t1)); [done|lia|done|]. rewrite srv_wall in Hs1 |- *.
        rewrite peekl_expire by done. destruct (peekl (unix_ms t1) key (g_redis g)) as [[l dl]|]; cbn in Hs1 |- *; [|done].
        destruct Hs1 as (Hl & Hf2 & _). split_and!; [done|done|]. eexists. split; [done|].
        destruct Hq1 as [(h0 & -> & _) _ _ Hp]. apply Forall_app in Hp as [_ Hp].
        eapply Forall_impl; [exact Hp|]. intros y Hy. cbn in Hy. rewrite <- srv_wall. unfold srv. lia.
Defined.
End ListLimiter.

Section RateLimitProperties.
Import TimeFormat RateLimit.

Definition zero_limiter : InMemoryRateLimiter := mkLimiter None 0 false false.

Lemma mem_start key m d exp c :
  0 < m -> d <= Z.quot exp second -> mem_remembers key m d [] c (Init exp zero_limiter).
Proof. intros Hm Hd. exists ∅. split_and!; [done|by apply queue_of_nil; lia|done|done]. Qed.

(** C36. The in-process limiter is a sliding window: with a limit [m] above zero, whatever
    requests, sweeps, other keys' requests and re-initialisations it sees, as long as the
    clock does not run backwards and the sweeper's expiry is not shorter than the window,
    it takes the decisions of a limiter that remembers every admission, admits at most [m]
    requests in any window of [d] seconds, and does not panic. *)
Theorem memory_limiter_window key m d exp c es t now :
  0 < m -> d <= Z.quot exp second -> in_order (mem_limiter key m d) c es ->
  let l := Init exp zero_limiter in
  decisions (mem_limiter key m d) es l = reference (mem_limiter key m d) m d es [] /\
  Z.of_nat (count_in d t (run (mem_limiter key m d) es l []).1) <= m /\
  is_ok (Request key m d now (run (mem_limiter key m d) es l []).2).1 = true.
Proof.
  intros Hm Hd Ho l. pose proof (mem_start key m d exp c Hm Hd) as Hs.
  split_and!.
  - by eapply (decisions_reference _ (SlidingWindow0 := mem_window key m d Hm)).
  - eapply (run_bounded _ (SlidingWindow0 := mem_window key m d Hm)); [lia|done|done].
  - destruct (run_remembers _ (SlidingWindow0 := mem_window key m d Hm) es l [] c Hs Ho)
      as (st & Hst & _ & Hne & _).
    by destruct (Request_qstep key m d st _ now Hm Hst Hne) as [-> _].
Qed.

Lemma memory_limiter_window_witness :
  let L := mem_limiter "RD1.2.3.4" 2 60 in
  let es := [inl 0; inl 10; inr (Other "GA1.2.3.4" 1 180 15); inl 20; inr (Sweep 30); inl 60; inl 65; inl 70] in
  let l := Init (20 * minute) zero_limiter in
  decisions L es l = [true; true; false; true; false; true] /\
  Z.of_nat (count_in 60 70 (run L es l []).1) <= 2 /\ is_ok (Request "RD1.2.3.4" 2 60 75 (run L es l []).2).1 = true.
Proof.
  intros L es l.
  destruct (memory_limiter_window "RD1.2.3.4" 2 60 (20 * minute) 0 es 70 75) as (Hd & Hb & Ho).
  - reflexivity.
  - vm_compute. discriminate.
  - vm_compute. repeat split; discriminate.
  - split; [|split]; [|exact Hb|exact Ho]. etransitivity; [exact Hd|]. vm_compute. reflexivity.
Defined.

Section RedisLimiter.
Context {R : Type} `{RedisListLaws R}.

(** The Redis limiter of a route is a sliding window too, to the millisecond: on a
    healthy server that keeps its laws, for a window no longer than the keys' expiry and
    a constant offset of local time, a sequence of requests for one bucket, whatever
    happens to other keys in between, is decided as by a limiter that remembers every
    admission, and at most [max] requests pass in any window of [dur] seconds. *)
Theorem redis_limiter_window zms max dur mark ident hdr g es c t :
  let L := list_limiter (R := R) zms max dur mark ident hdr in
  0 < max -> 0 < dur -> 1000 * dur <= RateLimitKeyExpirationDuration / millisecond ->
  peekl (srv zms c) ("rateLimit:" +:+ mark +:+ ident) (g_redis g) = None -> in_order L c es ->
  decisions L es (mkStore g []) = reference L max (1000 * dur) es [] /\
  Z.of_nat (count_in (1000 * dur) t (run L es (mkStore g []) []).1) <= max.
Proof.
  intros L Hm Hd Httl Hnone Ho.
  assert (list_remembers zms max dur mark ident [] c (mkStore g [])) as Hs.
  { split; [done|]. exists []. split; [by apply queue_of_nil; lia|]. cbn [tables]. by rewrite Hnone. }
  split.
  - by eapply (decisions_reference _ (SlidingWindow0 := list_window zms max dur mark ident hdr Hm Hd Httl)).
  - eapply (run_bounded _ (SlidingWindow0 := list_window zms max dur mark ident hdr Hm Hd Httl)); [lia|done|done].
Qed.
End RedisLimiter.

(** Midnight of a day in 2026, as a reading of the clock. *)
Definition some_midnight : Z := time_of_unix 1783728000.
Definition empty_gate : gate lists := mkGate ∅ zero_limiter ∅.

Lemma redis_limiter_window_witness :
  let L := list_limiter (R := lists) 28800000 2 60 "RD" "1.2.3.4" ∅ in
  let at_ (s : Z) := inl (some_midnight + s * second, some_midnight + s * second + 5 * millisecond) in
  let es := [at_ 0; at_ 10; at_ 20; at_ 61; at_ 62; at_ 71] in
  decisions L es (mkStore empty_gate []) = [true; true; false; true; false; true] /\
  Z.of_nat (count_in 60000 (wall_ms 28800000 (some_midnight + 71 * second)) (run L es (mkStore empty_gate []) []).1) <= 2.
Proof.
  intros L at_ es.
  destruct (redis_limiter_window (R := lists) 28800000 2 60 "RD" "1.2.3.4" ∅ empty_gate es
              (wall_ms 28800000 some_midnight) (wall_ms 28800000 (some_midnight + 71 * second))) as [Hd Hb].
  - reflexivity.
  - reflexivity.
  - vm_compute. discriminate.
  - vm_compute. reflexivity.
  - vm_compute. repeat split; discriminate.
  - split; [|exact Hb]. etransitivity; [exact Hd|]. vm_compute. reflexivity.
Defined.

(** ** A Redis outage *)

Section Outage.
Context {R : Type} `{RedisLists R}.

(** A run of requests to one route while every Redis command fails; the verdicts. *)
Fixpoint outage (zone max dur : Z) (mark ident : string) (hdr : headers) (ts : list Z) (g : gate R) : list verdict :=
  match ts with
  | [] => []
  | t :: ts' =>
      match redisRateLimiterKeyed zone max dur mark ident t t hdr (mkStore g [true]) with
      | (Ok (v, _), s') => v :: outage zone max dur mark ident hdr ts' (tables s')
      | (Err _, s') => Abort 500 :: outage zone max dur mark ident hdr ts' (tables s')
      end
  end.

Definition passed (v : verdict) : bool := match v with Next => true | Abort _ => false end.

Lemma outage_open zone max dur mark ident hdr ts (g : gate R) :
  rateLimitFallsBackToMemory mark = false -> Forall (fun v => v = Next) (outage zone max dur mark ident hdr ts g).
Proof.
  intros Hm. induction ts as [|t ts IH]; [constructor|]. cbn [outage].
  unfold redisRateLimiterKeyed, cmd, catch, stmt. cbn [next_fault faults tables]. rewrite Hm. by constructor.
Qed.

Lemma outage_memory zone max dur mark ident hdr ts : forall (g : gate R),
  0 < max -> rateLimitFallsBackToMemory mark = true ->
  (exists st, l_store (g_mem g) = Some st /\ st !! (mark +:+ ident) <> Some []) ->
  passed <$> outage zone max dur mark ident hdr ts g =
  decisions (mem_limiter (mark +:+ ident) max dur) (inl <$> (time_Unix <$> ts)) (g_mem g).
Proof.
  induction ts as [|t ts IH]; intros g Hmax Hm (st & Hst & Hne); [done|]. cbn [outage fmap list_fmap decisions r_step mem_limiter].
  unfold redisRateLimiterKeyed, cmd, catch, stmt. cbn [next_fault faults tables]. rewrite Hm.
  unfold memoryRateLimiterKeyed, bind, mem_request, mem_request_step. cbn [tables].
  destruct (Request_qstep (mark +:+ ident) max dur st (g_mem g) (time_Unix t) Hmax Hst Hne) as [Hreq Hq].
  rewrite Hreq. destruct (qstep max dur (time_Unix t) (time_Unix t) (default [] (st !! (mark +:+ ident)))) as [[] q'];
    cbn [fst snd ret passed fmap list_fmap tables] in *; f_equal; apply (IH (mkGate _ _ _)); try done.
  - eexists. split; [reflexivity|]. rewrite lookup_insert_eq. congruence.
  - by exists st.
Qed.

(** When Redis is down, a route's limiter either lets every request pass, or, for the
    credential buckets, is the in-process sliding window: at most [max] requests pass in
    any window, per process. *)
Theorem redis_outage zone max dur mark ident hdr ts c (g : gate R) t :
  0 < max -> dur <= Z.quot RateLimitKeyExpirationDuration second ->
  g_mem g = Init RateLimitKeyExpirationDuration zero_limiter ->
  in_order (mem_limiter (mark +:+ ident) max dur) c (inl <$> (time_Unix <$> ts)) ->
  let vs := outage zone max dur mark ident hdr ts g in
  if rateLimitFallsBackToMemory mark then
    passed <$> vs = reference (mem_limiter (mark +:+ ident) max dur) max dur (inl <$> (time_Unix <$> ts)) [] /\
    Z.of_nat (count_in dur t (run (mem_limiter (mark +:+ ident) max dur) (inl <$> (time_Unix <$> ts)) (g_mem g) []).1) <= max
  else Forall (fun v => v = Next) vs.
Proof.
  intros Hmax Hdur Hg Ho vs. destruct (rateLimitFallsBackToMemory mark) eqn:Hm; [|by apply outage_open].
  pose proof (mem_start (mark +:+ ident) max dur RateLimitKeyExpirationDuration c Hmax Hdur) as Hs. subst vs. rewrite Hg.
  split.
  - rewrite outage_memory; [|done|done|by rewrite Hg; exists ∅]. rewrite Hg.
    by eapply (decisions_reference _ (SlidingWindow0 := mem_window (mark +:+ ident) max dur Hmax)).
  - eapply (run_bounded _ (SlidingWindow0 := mem_window (mark +:+ ident) max dur Hmax)); [lia|done|done].
Qed.
End Outage.

Definition armed_gate : gate lists := mkGate ∅ (Init RateLimitKeyExpirationDuration zero_limiter) ∅.

Lemma redis_outage_witness :
  let ts := [time_of_unix 100; time_of_unix 110; time_of_unix 120; time_of_unix 161] in
  passed <$> outage 0 2 60 "RD" "1.2.3.4" ∅ ts armed_gate = [true; true; false; true] /\
  Forall (fun v => v = Next) (outage 0 2 60 "GA" "1.2.3.4" ∅ ts armed_gate).
Proof.
  intros ts. split.
  - pose proof (redis_outage (R := lists) 0 2 60 "RD" "1.2.3.4" ∅ ts 0 armed_gate 161) as Hw.
    destruct Hw as [Hw _].
    + reflexivity.
    + vm_compute. discriminate.
    + reflexivity.
    + vm_compute. repeat split; discriminate.
    + etransitivity; [exact Hw|]. vm_compute. reflexivity.
  - pose proof (redis_outage (R := lists) 0 2 60 "GA" "1.2.3.4" ∅ ts 0 armed_gate 161) as Hw. apply Hw.
    + reflexivity.
    + vm_compute. discriminate.
    + reflexivity.
    + vm_compute. repeat split; discriminate.
Defined.

(** ** The token bucket *)

(** The requests admitted at the times [ts], and the bucket after them. *)
Fixpoint bucket_run (requested rate capacity : Z) (ts : list Z) (b : option bucket) : Z * option bucket :=
  match ts with
  | [] => (0, b)
  | t :: ts' =>
      let (ok, b') := rate_limit_lua requested rate capacity t b in
      let (n, b'') := bucket_run requested rate capacity ts' (Some b') in
      ((if ok then 1 else 0) + n, b'')
  end.

Fixpoint ascending (t : Z) (ts : list Z) : Prop :=
  match ts with [] => True | t' :: ts' => t <= t' /\ ascending t' ts' end.

Lemma last_cons_default (t : Z) ts : last (t :: ts) = Some (default t (last ts)).
Proof. revert t. induction ts as [|t' ts IH]; intros t; [done|]. rewrite last_cons_cons, IH. done. Qed.

(** One call: the tokens after it, and those it granted, are the refilled bucket. *)
Lemma bucket_call requested rate capacity t b :
  0 <= requested -> 0 <= capacity -> 0 <= rate ->
  (forall b0, b = Some b0 -> 0 <= tokens b0 /\ last_time b0 <= t) ->
  let (ok, b') := rate_limit_lua requested rate capacity t b in
  last_time b' = t /\ 0 <= tokens b' /\
  tokens b' + (if ok then requested else 0) =
    match b with None => capacity | Some b0 => Z.min capacity (tokens b0 + (t - last_time b0) * rate) end.
Proof.
  intros Hq Hc Hr Hb. unfold rate_limit_lua. set (filled := match b with None => _ | Some _ => _ end).
  assert (0 <= filled) as Hf. { subst filled. destruct b as [b0|]; [|done]. destruct (Hb b0 eq_refl). nia. }
  destruct (Z.geb_spec filled requested); cbn; lia.
Qed.

(** What is granted is covered by the bucket and by the time that passes. *)
Lemma bucket_covered requested rate capacity ts : forall b,
  0 <= requested -> 0 <= capacity -> 0 <= rate -> 0 <= tokens b -> ascending (last_time b) ts ->
  requested * (bucket_run requested rate capacity ts (Some b)).1 <=
    tokens b + rate * (default (last_time b) (last ts) - last_time b).
Proof.
  induction ts as [|t ts IH]; intros b Hq Hc Hr Ht Ho; [cbn; lia|]. destruct Ho as [Hle Ho].
  rewrite last_cons_default. cbn [bucket_run default].
  pose proof (bucket_call requested rate capacity t (Some b) Hq Hc Hr) as Hcall.
  destruct (rate_limit_lua _ _ _ _ _) as [ok b'].
  destruct Hcall as (Hl & Hp & Hf); [by intros b0 [= <-]|].
  specialize (IH b' Hq Hc Hr Hp). rewrite Hl in IH. specialize (IH Ho).
  destruct (bucket_run requested rate capacity ts (Some b')) as [n b'']. cbn [fst] in *.
  change (from_option id t (last ts)) with (default t (last ts)) in *.
  set (e := default t (last ts)) in *.
  assert (rate * (e - last_time b) = rate * (e - t) + (t - last_time b) * rate) by lia.
  unfold id. destruct ok; rewrite ?Z.mul_add_distr_l; lia.
Qed.

(** The token bucket of the limit on all requests of a user: from a fresh bucket, over
    any period, the requests it admits are at most [total] plus the period's share of
    the rate, so fewer than twice [total] within one [duration]. *)
Theorem token_bucket_bound total duration t0 ts :
  0 < total -> 0 < duration -> ascending t0 ts ->
  let admitted := (bucket_run duration total (total * duration) (t0 :: ts) None).1 in
  duration * admitted <= total * duration + total * (default t0 (last ts) - t0) /\
  (default t0 (last ts) - t0 < duration -> admitted < 2 * total).
Proof.
  intros Ht Hd Ho admitted.
  assert (duration * admitted <= total * duration + total * (default t0 (last ts) - t0)) as Hb.
  { subst admitted. cbn [bucket_run].
    pose proof (bucket_call duration total (total * duration) t0 None ltac:(lia) ltac:(nia) ltac:(lia)) as Hcall.
    destruct (rate_limit_lua _ _ _ _ _) as [ok b'].
    destruct Hcall as (Hl & Hp & Hf); [done|].
    pose proof (bucket_covered duration total (total * duration) ts b') as Hc.
    rewrite Hl in Hc. specialize (Hc ltac:(lia) ltac:(nia) ltac:(lia) Hp Ho).
    destruct (bucket_run duration total (total * duration) ts (Some b')) as [n b'']. cbn [fst] in *.
    destruct ok; rewrite ?Z.mul_add_distr_l; lia. }
  split; [done|]. intros Hlt.
  assert (duration * admitted < duration * (2 * total)) as Hm by nia.
  apply Z.mul_lt_mono_pos_l in Hm; lia.
Qed.

Lemma token_bucket_bound_witness :
  let ts := [0; 0; 59] in
  (bucket_run 60 2 120 (0 :: ts) None).1 = 3 /\ (bucket_run 60 2 120 (0 :: ts) None).1 < 4.
Proof.
  intros ts. destruct (token_bucket_bound 2 60 0 ts) as [_ Hlt].
  - reflexivity.
  - reflexivity.
  - vm_compute. repeat split; discriminate.
  - split; [vm_compute; reflexivity|]. apply Hlt. vm_compute. reflexivity.
Defined.

(** ** The limit per user without Redis *)

(** Two relay requests of one user at [t] and [t'], and a tick of the sweeper just before
    the second. *)
Definition two_requests {R} `{RedisLists R} (redisEnabled sweep : bool) (st : model_settings)
    (userId t t' : Z) (s : store (gate R)) : option (verdict * verdict) :=
  match ModelRequestRateLimit 0 redisEnabled st EmptyString "default" userId 200 t t t ∅ s with
  | (Ok (v, _), s1) =>
      let g := tables s1 in
      let mem := if sweep then clearExpiredItems (time_Unix t') (g_mem g) else g_mem g in
      match ModelRequestRateLimit 0 redisEnabled st EmptyString "default" userId 200 t' t' t' ∅
              (mkStore (mkGate (g_redis g) mem (g_buckets g)) (faults s1)) with
      | (Ok (v', _), _) => Some (v, v')
      | _ => None
      end
  | _ => None
  end.

(** One success per hour, and no limit at all. *)
Definition hourly : model_settings := mkModelSettings true 60 0 1 ∅.
Definition unlimited : model_settings := mkModelSettings true 1 0 0 ∅.

(** Without Redis the limit per user holds only for windows up to the expiry of the
    limiter that the routes armed first, 20 minutes: with a limit of one request per
    hour, a second request half an hour later is refused, but passes once the sweeper
    has run in between. *)
Theorem long_window_forgotten :
  two_requests false false hourly 7 (time_of_unix 0) (time_of_unix 1800) (mkStore armed_gate []) = Some (Next, Abort 429) /\
  two_requests false true hourly 7 (time_of_unix 0) (time_of_unix 1800) (mkStore armed_gate []) = Some (Next, Next).
Proof. split; vm_compute; reflexivity. Qed.

(** A success limit of 0 means no limit with Redis, and a limit of one request per
    window without. *)
Theorem zero_success_limit :
  two_requests true false unlimited 7 (time_of_unix 0) (time_of_unix 30) (mkStore armed_gate []) = Some (Next, Next) /\
  two_requests false false unlimited 7 (time_of_unix 0) (time_of_unix 30) (mkStore armed_gate []) = Some (Next, Abort 429).
Proof. split; vm_compute; reflexivity. Qed.
End RateLimitProperties.
