(* ===== verification/BusinessLimit.v ===== *)
(** * Limits per key, tenant and model

    Model of internal/adapter/middleware/business_rate_limit.go and
    business_model_rate_limit.go (requests per minute), internal/app/business_tpm.go
    (tokens per minute, recorded at settlement), and internal/app/cost_spike.go with
    middleware/cost_spike.go (the spend fuse per user).

    The windows live in Redis sorted sets (any instance of [RedisZsets]) or in the
    process; a request is a computation on the [biz] state in which each Redis round trip
    may fail.  What the handlers read from the database arrives as [lookup] answers. *)

From Stdlib Require Import SpecFloat.
From S2P Require Import Prelude GoStrings TimeFormat Redis Window PlatformBilling RateLimit.

Module BusinessLimit.
Import GoStrings TimeFormat PlatformBilling RateLimit.

Definition bizRateLimitWindow : Z := minute.
Definition bizTokenKeyPrefix : string := "rl:biz:tok:".
Definition bizTenantKeyPrefix : string := "rl:biz:tenant:".
Definition bizModelKeyPrefix : string := "rl:biz:model:".
Definition BizTPMWindow : Z := minute.
Definition bizTPMTokenKeyPrefix : string := "rl:biz:tpm:tok:".
Definition bizTPMTenantKeyPrefix : string := "rl:biz:tpm:tenant:".
Definition bizTPMModelKeyPrefix : string := "rl:biz:tpm:model:".
Definition bizTPMTTL : Z := BizTPMWindow + 10 * second.

Record bizRateLimits := mkBizLimits { RPM : Z; TPM : Z }.

(** [time.Duration.Milliseconds] and [Time.UnixNano]. *)
Definition Milliseconds (d : Z) : Z := Z.quot d millisecond.
Definition UnixNano (t : Z) : Z := t - unix_offset * second.

(** ** Headroom *)

Record bizWindowState := mkWindow { w_Valid : bool; w_Used : Z; w_OldestMs : Z }.
Definition no_window : bizWindowState := mkWindow false 0 0.

Record bizHeadroom := mkHeadroom {
  h_Valid : bool;
  h_Scope : string;
  h_LimitType : string;
  h_Limit : Z;
  h_Remaining : Z;
  h_ResetUnix : Z
}.
Definition no_headroom : bizHeadroom := mkHeadroom false EmptyString EmptyString 0 0 0.

Definition ceilMsToUnixSec (ms : Z) : Z := Z.quot (ms + 999) 1000.

Definition headroom (s : bizWindowState) (scope limitType : string) (limit : Z) : bizHeadroom :=
  if negb (w_Valid s) then no_headroom
  else
    let remaining := limit - w_Used s in
    let remaining := if remaining <? 0 then 0 else remaining in
    mkHeadroom true scope limitType limit remaining
      (ceilMsToUnixSec (w_OldestMs s + Milliseconds bizRateLimitWindow)).

Definition ratio (h : bizHeadroom) : float64 := f64_div (f64_of_int (h_Remaining h)) (f64_of_int (h_Limit h)).

Definition tighterThan (h other : bizHeadroom) : bool :=
  if negb (h_Valid h) then false
  else if negb (h_Valid other) then true
  else f64_gt (ratio other) (ratio h).

Definition tightest (h best : bizHeadroom) : bizHeadroom := if tighterThan h best then h else best.

(** A header that was not set reads as the empty string. *)
Definition bizHeadroomFromHeaders (h : headers) : bizHeadroom :=
  match h !! "X-RateLimit-Limit", h !! "X-RateLimit-Remaining" with
  | Some limitStr, Some remStr =>
      if bool_decide (limitStr = EmptyString) || bool_decide (remStr = EmptyString) then no_headroom
      else match Atoi limitStr, Atoi remStr with
           | Some limit, Some remaining =>
               if limit <=? 0 then no_headroom
               else mkHeadroom true EmptyString EmptyString limit remaining 0
           | _, _ => no_headroom
           end
  | _, _ => no_headroom
  end.

Definition bizRetryAfterSec (oldestMs nowMs window : Z) : Z :=
  let remaining := oldestMs + Milliseconds window - nowMs in
  let sec := Z.quot (remaining + 999) 1000 in
  if sec <? 1 then 1 else sec.

(** ** The process's windows *)

(** An answer: admitted, the retry delay of a refusal, the window's position. *)
Record answer := mkAnswer { a_allowed : bool; a_retry : Z; a_window : bizWindowState }.

(** [bizMemoryLimiter.allow] on the entries of its key; [None] is the index panic of a
    window that cannot hold anything. *)
Definition allow_entries (limit window nowMs : Z) (ts : list Z) : option answer * list Z :=
  let ts := drop_until (nowMs - Milliseconds window) ts in
  if Z.of_nat (length ts) >=? limit then
    match ts with
    | oldest :: _ =>
        (Some (mkAnswer false (bizRetryAfterSec oldest nowMs window) (mkWindow true (Z.of_nat (length ts)) oldest)), ts)
    | [] => (None, ts)
    end
  else
    let ts := ts ++ [nowMs] in
    (Some (mkAnswer true 0 (mkWindow true (Z.of_nat (length ts)) (default nowMs (head ts)))), ts).

Definition bizMemoryLimiter_allow (key : string) (limit window now : Z) (entries : gmap string (list Z))
    : option answer * gmap string (list Z) :=
  let (a, ts) := allow_entries limit window (unix_ms now) (default [] (entries !! key)) in
  (a, <[key := ts]> entries).

Record bizTPMEntry := mkTPMEntry { e_ms : Z; e_tokens : Z }.

Fixpoint drop_settled (cutoff : Z) (ts : list bizTPMEntry) : list bizTPMEntry :=
  match ts with
  | e :: ts' => if e_ms e <=? cutoff then drop_settled cutoff ts' else ts
  | [] => []
  end.

Definition bizTPMMem_record (key : string) (tokens now : Z) (entries : gmap string (list bizTPMEntry))
    : gmap string (list bizTPMEntry) :=
  let nowMs := unix_ms now in
  let ts := drop_settled (nowMs - Milliseconds BizTPMWindow) (default [] (entries !! key)) in
  <[key := ts ++ [mkTPMEntry nowMs tokens]]> entries.

Definition total_tokens (ts : list bizTPMEntry) : Z := foldl (fun acc e => i64_add acc (e_tokens e)) 0 ts.

Definition bizTPMMem_query (key : string) (now : Z) (entries : gmap string (list bizTPMEntry))
    : (Z * Z) * gmap string (list bizTPMEntry) :=
  let ts := drop_settled (unix_ms now - Milliseconds BizTPMWindow) (default [] (entries !! key)) in
  ((total_tokens ts, match ts with e :: _ => e_ms e | [] => 0 end), <[key := ts]> entries).

(** ** The Redis windows *)

Definition colon : Ascii.ascii := Ascii.ascii_of_nat 58.

Definition parseBizTPMMember (m : string) : Z :=
  match SplitN m colon 3 with
  | _ :: tok :: _ => match Atoi tok with Some v => if v <? 0 then 0 else v | None => 0 end
  | _ => 0
  end.

Definition parseCostSpikeMember (m : string) : Z :=
  match SplitN m colon 2 with
  | [_; tok] => match Atoi tok with Some v => v | None => 0 end
  | _ => 0
  end.

Inductive biz_err := BizRedisErr | BizPanic.
#[export] Instance biz_db_error : DbError biz_err := BizRedisErr.

Section Biz.
Context {R : Type} `{RedisZsets R}.

Record biz := mkBiz {
  z_redis : R;
  z_memberSeq : Z;                            (* bizMemberSeq *)
  z_tpmSeq : Z;                               (* bizTPMMemberSeq *)
  z_mem : gmap string (list Z);               (* bizMemLimiter *)
  z_tpm : gmap string (list bizTPMEntry)      (* bizTPMMem *)
}.

Definition set_z (r : R) (b : biz) : biz := mkBiz r (z_memberSeq b) (z_tpmSeq b) (z_mem b) (z_tpm b).

Definition zcmd {A} (f : R -> A * R) : M biz biz_err A :=
  stmt (fun b => let (a, r) := f (z_redis b) in Ok (a, set_z r b)).

(** [bizMemberSeq.Add(1)]. *)
Definition next_member (now : Z) : M biz biz_err string :=
  fun s =>
    let b := tables s in
    let n := z_memberSeq b + 1 in
    (Ok (Itoa (UnixNano now) +:+ "-" +:+ Itoa n),
     mkStore (mkBiz (z_redis b) n (z_tpmSeq b) (z_mem b) (z_tpm b)) (faults s)).

Definition bizRedisAllow (key : string) (limit window now : Z) : M biz biz_err answer :=
  let nowMs := unix_ms now in
  let! _ := zcmd (fun r => (tt, ZREMRANGEBYSCORE nowMs key (nowMs - Milliseconds window) r)) in
  let! count := zcmd (fun r => (ZCARD nowMs key r, r)) in
  if count >=? limit then
    let! oldest := zcmd (fun r => (ZFIRST nowMs key r, r)) in
    ret (match oldest with
         | None => mkAnswer false 1 no_window
         | Some oldestMs => mkAnswer false (bizRetryAfterSec oldestMs nowMs window) (mkWindow true count oldestMs)
         end)
  else
    let! member := next_member now in
    let! oldest := zcmd (fun r =>
      let r := ZEXPIRE nowMs key (Milliseconds (window + 10 * second)) (ZADD nowMs key nowMs member r) in
      (ZFIRST nowMs key r, r)) in
    ret (match oldest with
         | None => mkAnswer true 0 no_window
         | Some oldestMs => mkAnswer true 0 (mkWindow true (count + 1) oldestMs)
         end).

Definition bizAllow (redisOn : bool) (key : string) (limit now : Z) : M biz biz_err answer :=
  if redisOn then
    try! r := bizRedisAllow key limit bizRateLimitWindow now in
    match r with
    | Err _ => ret (mkAnswer true 0 no_window)
    | Ok a => ret a
    end
  else
    fun s =>
      let b := tables s in
      let (a, entries) := bizMemoryLimiter_allow key limit bizRateLimitWindow now (z_mem b) in
      (match a with Some a => Ok a | None => Err BizPanic end,
       mkStore (mkBiz (z_redis b) (z_memberSeq b) (z_tpmSeq b) entries (z_tpm b)) (faults s)).

(** ** Tokens per minute *)

Definition bizTPMRecord (redisOn : bool) (key : string) (tokens now : Z) : M biz biz_err unit :=
  fun s =>
    let b := tables s in
    if redisOn then
      let n := z_tpmSeq b + 1 in
      let member := Itoa (UnixNano now) +:+ ":" +:+ Itoa tokens +:+ ":" +:+ Itoa n in
      let s := mkStore (mkBiz (z_redis b) (z_memberSeq b) n (z_mem b) (z_tpm b)) (faults s) in
      catch (zcmd (fun r =>
        (tt, ZEXPIRE (unix_ms now) key (Milliseconds bizTPMTTL) (ZADD (unix_ms now) key (unix_ms now) member r))))
        (fun _ => ret tt) s
    else (Ok tt, mkStore (mkBiz (z_redis b) (z_memberSeq b) (z_tpmSeq b) (z_mem b)
                                (bizTPMMem_record key tokens now (z_tpm b))) (faults s)).

Definition RecordBusinessTPMUsage (redisOn : bool) (tokenID : Z) (tenantID : string) (tokens now : Z) : M biz biz_err unit :=
  if tokens <=? 0 then ret tt
  else
    let! _ := (if tokenID >? 0 then bizTPMRecord redisOn (bizTPMTokenKeyPrefix +:+ Itoa tokenID) tokens now else ret tt) in
    if bool_decide (tenantID = EmptyString) then ret tt
    else bizTPMRecord redisOn (bizTPMTenantKeyPrefix +:+ tenantID) tokens now.

Definition bizTPMModelKey (tenantID model : string) : string := bizTPMModelKeyPrefix +:+ tenantID +:+ ":" +:+ model.

Definition RecordBusinessTPMModelUsage (redisOn : bool) (tenantID model : string) (tokens now : Z) : M biz biz_err unit :=
  if (tokens <=? 0) || bool_decide (tenantID = EmptyString) || bool_decide (model = EmptyString) then ret tt
  else bizTPMRecord redisOn (bizTPMModelKey tenantID model) tokens now.

(** The settled total and the oldest record, 0 for an empty window. *)
Definition bizTPMQuery (redisOn : bool) (key : string) (now : Z) : M biz biz_err (Z * Z) :=
  if redisOn then
    let! _ := zcmd (fun r => (tt, ZREMRANGEBYSCORE (unix_ms now) key (unix_ms now - Milliseconds BizTPMWindow) r)) in
    let! ms := zcmd (fun r => ((ZMEMBERS (unix_ms now) key r, ZFIRST (unix_ms now) key r), r)) in
    ret (foldl (fun acc m => i64_add acc (parseBizTPMMember m)) 0 ms.1, default 0 ms.2)
  else
    fun s =>
      let b := tables s in
      let (a, entries) := bizTPMMem_query key now (z_tpm b) in
      (Ok a, mkStore (mkBiz (z_redis b) (z_memberSeq b) (z_tpmSeq b) (z_mem b) entries) (faults s)).

Definition QueryBusinessTPMTokenWindow (redisOn : bool) (tokenID now : Z) :=
  bizTPMQuery redisOn (bizTPMTokenKeyPrefix +:+ Itoa tokenID) now.
Definition QueryBusinessTPMTenantWindow (redisOn : bool) (tenantID : string) (now : Z) :=
  bizTPMQuery redisOn (bizTPMTenantKeyPrefix +:+ tenantID) now.
Definition QueryBusinessTPMModelWindow (redisOn : bool) (tenantID model : string) (now : Z) :=
  bizTPMQuery redisOn (bizTPMModelKey tenantID model) now.

(** ** The handlers *)

Definition bizReject (scope limitType : string) (limit retryAfter : Z) (h : headers) : verdict * headers :=
  (Abort 429,
   <["X-RateLimit-Type" := limitType]> (<["X-RateLimit-Scope" := scope]>
     (setRateLimitResponseHeaders limit 0 retryAfter (ClearRateLimitHeadroomHeaders h)))).

(** The outcome of one check: a refusal, or the headroom to publish. *)
Inductive check :=
| Refused (r : verdict * headers)
| Passed (h : bizHeadroom).

(** [estimate] is the prompt estimate of the context, 0 if not set; [window] the answer of
    the query. *)
Definition bizTPMAdmit (scope : string) (limit estimate now : Z) (window : result biz_err (Z * Z)) (h : headers) : check :=
  match window with
  | Err _ => Passed no_headroom
  | Ok (total, oldestMs) =>
      let estimate := if estimate <? 0 then 0 else estimate in
      if i64_add total estimate <=? limit then
        let resetUnix :=
          if oldestMs >? 0 then ceilMsToUnixSec (oldestMs + Milliseconds BizTPMWindow)
          else time_Unix now + Z.quot BizTPMWindow second in
        Passed (mkHeadroom true scope "tpm" limit (i64_sub (i64_sub limit total) estimate) resetUnix)
      else
        let retryAfter := if oldestMs >? 0 then bizRetryAfterSec oldestMs (unix_ms now) bizRateLimitWindow else 1 in
        Refused (bizReject scope "tpm" limit retryAfter h)
  end.

(** The two checks of one dimension, in their order, each only under a positive limit:
    the refusal, or the tightest headroom so far.  The clock is read at [now.1] for the
    first and at [now.2] for the second. *)
Definition check_dimension (redisOn : bool) (scope rpmKey : string) (tpm : M biz biz_err (Z * Z))
    (limits : bizRateLimits) (estimate : Z) (now : Z * Z) (best : bizHeadroom) (h : headers) : M biz biz_err check :=
  let! rpm :=
    (if RPM limits >? 0 then
       let! a := bizAllow redisOn rpmKey (RPM limits) now.1 in
       ret (if negb (a_allowed a) then Refused (bizReject scope "rpm" (RPM limits) (a_retry a) h)
            else Passed (tightest (headroom (a_window a) scope "rpm" (RPM limits)) best))
     else ret (Passed best)) in
  match rpm with
  | Refused r => ret (Refused r)
  | Passed best =>
      if TPM limits >? 0 then
        try! w := tpm in
        ret (match bizTPMAdmit scope (TPM limits) estimate now.2 w h with
             | Refused r => Refused r
             | Passed hr => Passed (tightest hr best)
             end)
      else ret (Passed best)
  end.

(** What the handlers read: the token's limits and tenant, the tenant's and the model's
    limits; [None] is a failed lookup. *)
Record lookup := mkLookup {
  fetchTokenBizLimits : Z -> option (bizRateLimits * string);
  fetchTenantBizLimits : string -> option bizRateLimits;
  fetchModelBizLimits : string -> string -> option bizRateLimits
}.

Definition publish (enabled : bool) (best : bizHeadroom) (h : headers) : headers :=
  if enabled && h_Valid best then
    setRateLimitHeadroomHeaders (h_Scope best) (h_LimitType best) (h_Limit best) (h_Remaining best) (h_ResetUnix best) h
  else h.

(** The verdict, the response's headers, and the tenant left in the context, if any; the
    clock is read at [now] for the token's checks and at [now'] for the tenant's. *)
Definition BusinessRateLimit (redisOn bizHeadroomEnabled : bool) (db : lookup) (tokenID estimate : Z) (now now' : Z * Z)
    (h : headers) : M biz biz_err (verdict * headers * option string) :=
  if tokenID =? 0 then ret (Next, h, None)
  else
    match fetchTokenBizLimits db tokenID with
    | None => ret (Next, h, None)
    | Some (tokenLimits, tenantID) =>
        let! token := check_dimension redisOn "token" (bizTokenKeyPrefix +:+ Itoa tokenID)
                        (QueryBusinessTPMTokenWindow redisOn tokenID now.2) tokenLimits estimate now no_headroom h in
        match token with
        | Refused r => ret (r, Some tenantID)
        | Passed best =>
            let finish best := ret (Next, publish bizHeadroomEnabled best h, Some tenantID) in
            if bool_decide (tenantID = EmptyString) then finish best
            else match fetchTenantBizLimits db tenantID with
                 | None => finish best
                 | Some tenantLimits =>
                     let! tenant := check_dimension redisOn "tenant" (bizTenantKeyPrefix +:+ tenantID)
                                      (QueryBusinessTPMTenantWindow redisOn tenantID now'.2) tenantLimits estimate now' best h in
                     match tenant with
                     | Refused r => ret (r, Some tenantID)
                     | Passed best => finish best
                     end
                 end
        end
    end.

(** [bizModelTenantID]: the tenant left in the context, or the token's. *)
Definition bizModelTenantID (db : lookup) (stash : option string) (tokenID : Z) : string :=
  match stash with
  | Some s => s
  | None => match fetchTokenBizLimits db tokenID with Some (_, tenantID) => tenantID | None => EmptyString end
  end.

Definition BusinessModelRateLimit (redisOn bizHeadroomEnabled : bool) (db : lookup) (stash : option string)
    (tokenID : Z) (model : string) (estimate : Z) (now : Z * Z) (h : headers) : M biz biz_err (verdict * headers) :=
  if (tokenID =? 0) || bool_decide (model = EmptyString) then ret (Next, h)
  else
    let tenantID := bizModelTenantID db stash tokenID in
    if bool_decide (tenantID = EmptyString) then ret (Next, h)
    else match fetchModelBizLimits db tenantID model with
         | None => ret (Next, h)
         | Some limits =>
             let! r := check_dimension redisOn "model" (bizModelKeyPrefix +:+ tenantID +:+ ":" +:+ model)
                         (QueryBusinessTPMModelWindow redisOn tenantID model now.2) limits estimate now no_headroom h in
             match r with
             | Refused r => ret r
             | Passed hr =>
                 ret (Next, publish (bizHeadroomEnabled && tighterThan hr (bizHeadroomFromHeaders h)) hr h)
             end
         end.

(** ** The spend fuse *)

Definition CostSpikeKeyPrefix : string := "cost_spike:user:".
Definition CostSpikeWindowSecs : Z := 5 * 60.
Definition CostSpikeTTLSecs : Z := 600.

Definition QueryCostSpikeWindow (userID now : Z) : M biz biz_err Z :=
  let key := CostSpikeKeyPrefix +:+ Itoa userID in
  let cutoff := unix_ms (now - CostSpikeWindowSecs * second) in
  let! _ := zcmd (fun r => (tt, ZREMRANGEBYSCORE (unix_ms now) key cutoff r)) in
  let! members := zcmd (fun r => (ZMEMBERS (unix_ms now) key r, r)) in
  ret (foldl (fun acc m => i64_add acc (parseCostSpikeMember m)) 0 members).

Definition RecordCostSpikeWindow (protection redisOn : bool) (userID tokens now : Z) : M biz biz_err unit :=
  if negb protection || negb redisOn || (tokens <=? 0) then ret tt
  else
    let nowMs := unix_ms now in
    let key := CostSpikeKeyPrefix +:+ Itoa userID in
    let member := Itoa nowMs +:+ ":" +:+ Itoa tokens in
    catch (zcmd (fun r => (tt, ZEXPIRE nowMs key (CostSpikeTTLSecs * 1000) (ZADD nowMs key nowMs member r))))
      (fun _ => ret tt).

(** The verdict, and whether the account is to be disabled. *)
Definition CostSpikeLimit (protection enforce redisOn : bool) (limit userID now : Z) : M biz biz_err (verdict * bool) :=
  if negb protection || (userID =? 0) || negb redisOn then ret (Next, false)
  else
    try! w := QueryCostSpikeWindow userID now in
    match w with
    | Err _ => ret (Next, false)
    | Ok windowUsed =>
        if windowUsed <? limit then ret (Next, false)
        else if negb enforce then ret (Next, false)
        else ret (Abort 429, true)
    end.
End Biz.
Arguments biz R : clear implicits.
End BusinessLimit.
