(* ===== verification/BusinessWindows.v ===== *)
(** * The Redis windows of the business limiters

    A sorted set whose members are records and whose scores are their times, pruned on
    every read, is a log of the last minute's records ([zlog]).  From it: the Redis
    backend of the requests-per-minute limit decides as the in-process one; the
    tokens-per-minute window, on either backend, is the sum of the last minute's
    settlements; and the spend fuse, whose members do not tell two equal settlements of
    the same millisecond apart, counts them once. *)

From Stdlib Require Import SpecFloat.
From S2P Require Import Prelude GoStrings TimeFormat Redis Window PlatformBilling RateLimit BusinessLimit BusinessLimitSpec.

Section ZLog.
Context {R : Type} `{RedisZsetLaws R}.
(** Records [A] at time [tau]; [holds a m] when the member [m] stands for [a]; [tag] reads
    the sequence number of a member. *)
Context {A : Type} (tau : A -> Z) (holds : A -> string -> Prop) (tag : string -> option Z).
Context (w ttl : Z) (Hw : w <= ttl) (Httl : 0 < ttl) (key : string).

Definition aligned (ts : list A) (L : list (string * Z)) : Prop :=
  Forall2 (fun a kv => kv.2 = tau a /\ holds a kv.1) ts L.

Record zlog (h : list A) (c seq : Z) (r : R) : Prop := {
  z_log : exists gone ts L, h = gone ++ ts /\ Forall (fun a => tau a + w <= c) gone /\ aligned ts L /\
            map_to_list (zelems c key r) ≡ₚ L /\ Forall (fun kv => exists n, tag kv.1 = Some n /\ n <= seq) L /\
            forall z d, peekz c key r = Some (z, d) -> exists D, d = Some D /\ Forall (fun a => tau a + w <= D) ts;
  z_sorted : StronglySorted (fun a b => tau a <= tau b) h;
  z_past : Forall (fun a => tau a <= c) h
}.

Definition alive (now : Z) (h : list A) : list A := List.filter (fun a => now - w <? tau a) h.

Lemma alive_suffix now h :
  StronglySorted (fun a b => tau a <= tau b) h ->
  exists gone, h = gone ++ alive now h /\ Forall (fun a => tau a + w <= now) gone.
Proof.
  induction 1 as [|a h Hs (gone & He & Hg) Ha]; [by exists []|]. cbn -[Z.sub].
  destruct (Z.ltb_spec (now - w) (tau a)) as [Hlt|Hge].
  - exists []. split; [|done]. cbn. f_equal. symmetry. apply filter_all_true.
    eapply Forall_impl; [exact Ha|]. cbn. lia.
  - exists (a :: gone). split; [exact (f_equal (cons a) He)|]. constructor; [lia|done].
Qed.

Lemma zlog_nil c seq r : peekz c key r = None -> zlog [] c seq r.
Proof.
  intros Hn. split; [|constructor|constructor]. exists [], [], []. unfold zelems. rewrite Hn. cbn.
  split_and!; [done|constructor|apply Forall2_nil_2|done|constructor|done].
Qed.

Lemma zlog_later h c c' seq r : c <= c' -> zlog h c seq r -> zlog h c' seq r.
Proof.
  intros Hc [(gone & ts & L & -> & Hg & Ha & Hz & Ht & Hd) Hs Hp].
  split; [|done|eapply Forall_impl; [done|]; cbn; lia].
  unfold zelems in *. rewrite (peekz_age c c') by done.
  destruct (peekz c key r) as [[z d]|] eqn:He; cbn [age].
  - destruct (Hd z d eq_refl) as (D & -> & HD). destruct (Z.leb_spec D c').
    + exists (gone ++ ts), [], []. rewrite app_nil_r. split_and!; [done| |apply Forall2_nil_2|done|constructor|done].
      apply Forall_app. split; eapply Forall_impl; [exact Hg| |exact HD|]; cbn; lia.
    + exists gone, ts, L. split_and!; [done|eapply Forall_impl; [exact Hg|]; cbn; lia|done|done|done|].
      intros z' d' [= <- <-]. by exists D.
  - exists gone, ts, L. split_and!; [done|eapply Forall_impl; [exact Hg|]; cbn; lia|done|done|done|done].
Qed.

Lemma aligned_filter max ts L :
  aligned ts L -> aligned (List.filter (fun a => max <? tau a) ts) (List.filter (fun e => max <? e.2) L).
Proof.
  induction 1 as [|a kv ts L [He Hh] HL IH]; cbn; [constructor|]. rewrite He.
  destruct (max <? tau a); [|done]. by constructor.
Qed.

(** Pruning keeps the log, and leaves exactly the live records. *)
Lemma zlog_prune h c seq r :
  zlog h c seq r ->
  let r' := ZREMRANGEBYSCORE c key (c - w) r in
  zlog h c seq r' /\ exists L, map_to_list (zelems c key r') ≡ₚ L /\ aligned (alive c h) L.
Proof.
  intros [(gone & ts & L & -> & Hg & Ha & Hz & Ht & Hd) Hs Hp] r'.
  assert (alive c (gone ++ ts) = alive c ts) as Hlive.
  { unfold alive. rewrite List.filter_app, (filter_all_false _ gone); [done|].
    eapply Forall_impl; [exact Hg|]. cbn. lia. }
  pose proof (aligned_filter (c - w) ts L Ha) as Ha'. fold (alive c ts) in Ha'.
  assert (map_to_list (zelems c key r') ≡ₚ List.filter (fun e => c - w <? e.2) L) as Hz'
    by (unfold r'; rewrite zelems_prune; by apply zlist_prune).
  split; [split; [|done|done]|by rewrite Hlive; eauto].
  destruct (alive_suffix c (gone ++ ts) Hs) as (gone' & He & Hg'). rewrite Hlive in He.
  exists gone', (alive c ts), (List.filter (fun e => c - w <? e.2) L).
  split_and!; [done|done|done|done| |].
  - apply Forall_forall. intros kv Hin. apply list_elem_of_In, List.filter_In in Hin as [Hin _].
    rewrite Forall_forall in Ht. apply Ht. by apply list_elem_of_In.
  - intros z d Hpk. apply peekz_prune_deadline in Hpk.
    destruct (peekz c key r) as [[z0 d0]|]; cbn in Hpk; [|done]. injection Hpk as ->.
    destruct (Hd z0 d eq_refl) as (D & -> & HD). exists D. split; [done|]. unfold alive.
    apply Forall_forall. intros a Hin. apply list_elem_of_In, List.filter_In in Hin as [Hin _].
    rewrite Forall_forall in HD. apply HD. by apply list_elem_of_In.
Qed.

(** Adding a record under a member with a fresh sequence number. *)
Lemma zlog_add h c seq r a m n :
  zlog h c seq r -> tau a = c -> holds a m -> tag m = Some n -> seq < n ->
  zlog (h ++ [a]) c n (ZEXPIRE c key ttl (ZADD c key c m r)).
Proof.
  intros [(gone & ts & L & -> & Hg & Ha & Hz & Ht & Hd) Hs Hp] Htau Hh Htag Hn.
  assert (m ∉ L.*1) as Hfresh.
  { intros (kv & -> & Hin)%list_elem_of_fmap. rewrite Forall_forall in Ht. destruct (Ht kv Hin) as (n' & Hn' & Hle).
    rewrite Htag in Hn'. injection Hn' as ->. lia. }
  assert (peekz c key (ZEXPIRE c key ttl (ZADD c key c m r)) = Some (<[m := c]> (zelems c key r), Some (c + ttl))) as Hpk.
  { rewrite peekz_expire by done. rewrite peekz_add. unfold zelems.
    destruct (peekz c key r) as [[z d]|]; cbn; [done|]. by rewrite insert_empty. }
  split.
  - exists gone, (ts ++ [a]), (L ++ [(m, c)]). unfold zelems at 1. rewrite Hpk. cbn [fmap option_fmap option_map fst default].
    split_and!; [by rewrite (assoc_L (++))|done| | | |].
    + apply Forall2_app; [done|]. by constructor.
    + by apply zlist_insert.
    + apply Forall_app. split; [|constructor; [by exists n|done]].
      eapply Forall_impl; [exact Ht|]. intros kv (n' & ? & ?). exists n'. split; [done|lia].
    + intros z d [= <- <-]. exists (c + ttl). split; [done|]. apply Forall_app in Hp as [_ Hp].
      apply Forall_app. split; [|constructor; [lia|done]]. eapply Forall_impl; [exact Hp|]. cbn. lia.
  - apply StronglySorted_app. split; [|split; [done|by repeat constructor]].
    intros b1 b2 Hb ->%list_elem_of_singleton. rewrite Forall_forall in Hp. rewrite Htau. by apply Hp.
  - apply Forall_app. split; [done|]. constructor; [lia|done].
Qed.
End ZLog.

Section RequestsPerMinute.
Import GoStrings RateLimit BusinessLimit.
Context {R : Type} `{RedisZsetLaws R}.
Context (key : string) (limit : Z) (Hlimit : 0 < limit).

Let w : Z := Milliseconds bizRateLimitWindow.
Let ttl : Z := Milliseconds (bizRateLimitWindow + 10 * second).

Definition dash : Ascii.ascii := Ascii.ascii_of_nat 45.

(** The sequence number of a member "nano-seq". *)
Definition member_seq (m : string) : option Z := '(_, b) ← Cut m dash; Atoi b.

Lemma member_seq_spec now n : 0 <= UnixNano now -> in64 n -> member_seq (Itoa (UnixNano now) +:+ "-" +:+ Itoa n) = Some n.
Proof.
  intros Hn Hi. unfold member_seq.
  change ("-" +:+ Itoa n) with (String dash (Itoa n)). rewrite Cut_app.
  - by apply Atoi_Itoa.
  - apply Itoa_lacks_sep; [by right|]. by left.
Qed.

Definition rpm_log (h : list Z) (c : Z) (b : biz R) : Prop :=
  zlog (fun t => t) (fun _ _ => True) member_seq w key h c (z_memberSeq b) (z_redis b).

Lemma recent_alive now h : alive (fun t : Z => t) w now h = recent w now h.
Proof. done. Qed.

(** One request on a healthy server. *)
Lemma redis_allow_step h c b now :
  rpm_log h c b -> c <= unix_ms now -> 0 <= UnixNano now -> in64 (z_memberSeq b + 1) ->
  exists a b', bizRedisAllow key limit bizRateLimitWindow now (mkStore b []) = (Ok a, mkStore b' []) /\
    a_allowed a = window_admits limit w (unix_ms now) h /\
    rpm_log (if a_allowed a then h ++ [unix_ms now] else h) (unix_ms now) b' /\
    z_memberSeq b <= z_memberSeq b' <= z_memberSeq b + 1.
Proof.
  intros Hlog Hc Hn Hi. apply (zlog_later _ _ _ _ _ h c (unix_ms now)) in Hlog; [|done].
  destruct (zlog_prune _ _ _ _ _ h (unix_ms now) _ _ Hlog) as [Hlog' (L & HL & Ha)]. rewrite recent_alive in Ha.
  pose proof (Forall2_length _ _ _ Ha) as Hlen. pose proof (zlist_size _ _ HL) as Hsize.
  unfold bizRedisAllow, bind, zcmd, stmt. cbn [next_fault faults tables]. fold w.
  set (r1 := ZREMRANGEBYSCORE (unix_ms now) key (unix_ms now - w) (z_redis b)) in *.
  unfold set_z. cbn [next_fault faults tables z_redis]. unfold window_admits. rewrite Hlen, <- Hsize.
  fold (ZCARD (unix_ms now) key r1). destruct (Z.geb_spec (ZCARD (unix_ms now) key r1) limit) as [Hge|Hlt].
  - cbn [next_fault faults tables z_redis ret]. eexists _, _. split; [reflexivity|].
    assert (forall o, a_allowed (match o with
      | None => mkAnswer false 1 no_window
      | Some x => mkAnswer false (bizRetryAfterSec x (unix_ms now) bizRateLimitWindow) (mkWindow true (ZCARD (unix_ms now) key r1) x)
      end) = false) as Hf by by intros [].
    cbn [set_z z_redis z_memberSeq]. rewrite Hf. split; [symmetry; by apply Z.ltb_ge|]. split; [done|lia].
  - unfold next_member. cbn [next_fault faults tables z_redis z_memberSeq ret]. eexists _, _. split; [reflexivity|].
    assert (forall o, a_allowed (match o with
      | None => mkAnswer true 0 no_window
      | Some x => mkAnswer true 0 (mkWindow true (ZCARD (unix_ms now) key r1 + 1) x)
      end) = true) as Hf by by intros [].
    cbn [set_z z_redis z_memberSeq]. rewrite Hf. split; [symmetry; by apply Z.ltb_lt|]. split; [|lia].
    apply (zlog_add _ _ _ w ttl ltac:(vm_compute; discriminate) eq_refl key h _ (z_memberSeq b)); [done..| |cbn; lia].
    by apply member_seq_spec.
Qed.

(** The decisions of one backend on requests at the given times. *)
Fixpoint rpm_decisions (redisOn : bool) (nows : list Z) (s : store (biz R)) : list bool :=
  match nows with
  | [] => []
  | now :: nows' =>
      match bizAllow redisOn key limit now s with
      | (Ok a, s') => a_allowed a :: rpm_decisions redisOn nows' s'
      | (Err _, s') => false :: rpm_decisions redisOn nows' s'
      end
  end.

Fixpoint readings_in_order (c : Z) (nows : list Z) : Prop :=
  match nows with
  | [] => True
  | now :: nows' => c <= unix_ms now /\ 0 <= UnixNano now /\ readings_in_order (unix_ms now) nows'
  end.

Lemma backends_agree_from nows : forall h c b b',
  rpm_log h c b -> log_of w h c (default [] (z_mem b' !! key)) -> readings_in_order c nows ->
  0 <= z_memberSeq b -> z_memberSeq b + Z.of_nat (length nows) <= i64_max ->
  rpm_decisions true nows (mkStore b []) = rpm_decisions false nows (mkStore b' []).
Proof.
  induction nows as [|now nows IH]; intros h c b b' Hz Hm Ho H0' Hseq; [done|]. destruct Ho as (Hc & Hn & Ho).
  cbn [rpm_decisions bizAllow]. cbn [length] in Hseq.
  destruct (redis_allow_step h c b now Hz Hc Hn ltac:(unfold64; lia)) as (a & b1 & Ha & Hok & Hz1 & Hs1).
  unfold catch. rewrite Ha. cbn [ret]. cbn [tables]. unfold bizMemoryLimiter_allow.
  destruct (allow_pstep limit (default [] (z_mem b' !! key)) (unix_ms now) Hlimit) as (a' & -> & Hok').
  pose proof (pstep_refines limit w h c (default [] (z_mem b' !! key)) (unix_ms now) Hm Hc) as Hp.
  fold w in Hok' |- *. destruct (pstep limit w (unix_ms now) (default [] (z_mem b' !! key))) as [ok ts'].
  destruct Hp as [Hwin Hp]. cbn [fst snd] in *. rewrite Hok', Hok, <- Hwin. f_equal.
  rewrite Hok, <- Hwin in Hz1.
  apply (IH (if ok then h ++ [unix_ms now] else h) (unix_ms now)); [done| |done|lia|lia].
  cbn [z_mem]. by rewrite lookup_insert_eq.
Qed.
End RequestsPerMinute.

Section TokensPerMinute.
Import GoStrings RateLimit BusinessLimit.
Context {R : Type} `{RedisZsetLaws R}.
Context (key : string).

Let w : Z := Milliseconds BizTPMWindow.
Let ttl : Z := Milliseconds bizTPMTTL.

(** ** Members *)

Lemma split3 a b c :
  lacks colon a -> lacks colon b -> SplitN (a +:+ String colon (b +:+ String colon c)) colon 3 = [a; b; c].
Proof. intros Ha Hb. cbn [SplitN]. rewrite Cut_app by done. by rewrite Cut_app. Qed.

Lemma Itoa_no_colon n : lacks colon (Itoa n).
Proof. apply Itoa_lacks; [done|by right]. Qed.

Definition tpm_member (nano tokens seq : Z) : string := Itoa nano +:+ ":" +:+ Itoa tokens +:+ ":" +:+ Itoa seq.

Lemma tpm_member_split nano tokens seq : SplitN (tpm_member nano tokens seq) colon 3 = [Itoa nano; Itoa tokens; Itoa seq].
Proof. apply split3; apply Itoa_no_colon. Qed.

(** A settlement's tokens are read back from its member. *)
Lemma parse_tpm_member nano tokens seq :
  0 <= tokens <= i64_max -> parseBizTPMMember (tpm_member nano tokens seq) = tokens.
Proof.
  intros Ht. unfold parseBizTPMMember. rewrite tpm_member_split, Atoi_Itoa by (unfold64; lia).
  by replace (tokens <? 0) with false by lia.
Qed.

Definition tpm_seq (m : string) : option Z :=
  match SplitN m colon 3 with [_; _; n] => Atoi n | _ => None end.

Lemma tpm_seq_spec nano tokens seq : in64 seq -> tpm_seq (tpm_member nano tokens seq) = Some seq.
Proof. intros Hs. unfold tpm_seq. rewrite tpm_member_split. by apply Atoi_Itoa. Qed.

(** ** Sums *)

Lemma wrap64_add a b : wrap64 (wrap64 a + b) = wrap64 (a + b).
Proof.
  unfold wrap64. f_equal.
  replace ((a + i64_half) mod i64_modulus - i64_half + b + i64_half) with ((a + i64_half) mod i64_modulus + b) by lia.
  rewrite Zplus_mod_idemp_l. f_equal. lia.
Qed.

Lemma foldl_i64_add {A} (f : A -> Z) l : forall a,
  foldl (fun acc x => i64_add acc (f x)) (wrap64 a) l = wrap64 (a + sumZ f l).
Proof.
  induction l as [|x l IH]; intros a; cbn [foldl]; [by rewrite Z.add_0_r|].
  unfold i64_add at 2. rewrite wrap64_add, IH. f_equal. unfold sumZ. cbn. lia.
Qed.

Lemma sumZ_perm {A} (f : A -> Z) l l' : l ≡ₚ l' -> sumZ f l = sumZ f l'.
Proof. unfold sumZ. induction 1; cbn in *; lia. Qed.

(** ** The two backends *)

Definition recorded (e : bizTPMEntry) (m : string) : Prop := parseBizTPMMember m = e_tokens e.

Definition sorted_log (h : list bizTPMEntry) (c : Z) : Prop :=
  StronglySorted (fun a b => e_ms a <= e_ms b) h /\ Forall (fun e => e_ms e <= c) h.

(** What a backend holds of the settlements [h]. *)
Definition tpm_log (redisOn : bool) (h : list bizTPMEntry) (c : Z) (b : biz R) : Prop :=
  if redisOn then zlog e_ms recorded tpm_seq w key h c (z_tpmSeq b) (z_redis b)
  else sorted_log h c /\ exists gone, h = gone ++ default [] (z_tpm b !! key) /\ Forall (fun e => e_ms e + w <= c) gone.

Definition settled (now : Z) (h : list bizTPMEntry) : Z := wrap64 (sumZ e_tokens (alive e_ms w now h)).

Lemma drop_settled_alive now ts :
  StronglySorted (fun a b => e_ms a <= e_ms b) ts -> drop_settled (now - w) ts = alive e_ms w now ts.
Proof.
  induction 1 as [|e ts Hs IH He]; [done|]. cbn -[Z.sub w].
  destruct (Z.leb_spec (e_ms e) (now - w)); [replace (now - w <? e_ms e) with false by lia; exact IH|].
  replace (now - w <? e_ms e) with true by lia. f_equal. symmetry. apply filter_all_true.
  eapply Forall_impl; [exact He|]. cbn. lia.
Qed.

Lemma alive_gone now gone ts : Forall (fun e => e_ms e + w <= now) gone -> alive e_ms w now (gone ++ ts) = alive e_ms w now ts.
Proof.
  intros Hg. unfold alive. rewrite List.filter_app, (filter_all_false _ gone); [done|].
  eapply Forall_impl; [exact Hg|]. cbn. lia.
Qed.

Lemma sorted_log_later h c c' : c <= c' -> sorted_log h c -> sorted_log h c'.
Proof. intros Hc [Hs Hp]. split; [done|]. eapply Forall_impl; [exact Hp|]. cbn. lia. Qed.

(** The process's entries, pruned. *)
Lemma mem_pruned h c now ts gone :
  sorted_log h c -> c <= now -> h = gone ++ ts -> Forall (fun e => e_ms e + w <= c) gone ->
  drop_settled (now - w) ts = alive e_ms w now h /\
  exists gone', h = gone' ++ drop_settled (now - w) ts /\ Forall (fun e => e_ms e + w <= now) gone'.
Proof.
  intros [Hs Hp] Hc -> Hg. assert (Forall (fun e => e_ms e + w <= now) gone) as Hg' by (eapply Forall_impl; [exact Hg|]; cbn; lia).
  pose proof Hs as Hts. apply StronglySorted_app in Hts as (_ & _ & Hts).
  rewrite drop_settled_alive by done. rewrite alive_gone by done. split; [done|].
  destruct (alive_suffix e_ms w now (gone ++ ts) Hs) as (gone' & He & Hgone). rewrite alive_gone in He by done. eauto.
Qed.

Lemma record_step redisOn h c b tokens now :
  tpm_log redisOn h c b -> c <= unix_ms now -> 0 < tokens <= i64_max -> in64 (z_tpmSeq b + 1) ->
  exists b', bizTPMRecord redisOn key tokens now (mkStore b []) = (Ok tt, mkStore b' []) /\
    tpm_log redisOn (h ++ [mkTPMEntry (unix_ms now) tokens]) (unix_ms now) b' /\
    z_tpmSeq b <= z_tpmSeq b' <= z_tpmSeq b + 1.
Proof.
  intros Hlog Hc Ht Hi. destruct redisOn; eexists; (split; [reflexivity|]); cbn [tpm_log z_tpmSeq set_z z_redis z_tpm] in *.
  - split; [|cbn; lia].
    apply (zlog_add _ _ _ w ttl ltac:(vm_compute; discriminate) eq_refl key h _ (z_tpmSeq b)); [by eapply zlog_later|done| | |cbn; lia].
    + apply (parse_tpm_member (UnixNano now) tokens (z_tpmSeq b + 1)). lia.
    + by apply (tpm_seq_spec (UnixNano now) tokens).
  - split; [|cbn; lia]. destruct Hlog as [Hs (gone & He & Hg)].
    destruct (mem_pruned h c (unix_ms now) _ gone Hs Hc He Hg) as [_ (gone' & He' & Hg')].
    apply (sorted_log_later h c (unix_ms now)) in Hs; [|done]. destruct Hs as [Hs Hp]. split.
    + split; [|apply Forall_app; split; [done|by constructor; [cbn; lia|]]].
      apply StronglySorted_app. split; [|split; [done|by repeat constructor]].
      intros b1 b2 Hb ->%list_elem_of_singleton. rewrite Forall_forall in Hp. by apply Hp.
    + exists gone'. cbn [z_tpm tables]. unfold bizTPMMem_record. fold w. rewrite lookup_insert_eq. cbn [from_option]. unfold id at 1. split; [|done].
      rewrite (assoc_L (++)). f_equal. exact He'.
Qed.

Lemma parse_sum ts L : aligned e_ms recorded ts L -> sumZ parseBizTPMMember L.*1 = sumZ e_tokens ts.
Proof. unfold sumZ. induction 1 as [|e kv ts L [_ Hr] _ IH]; cbn; [done|]. rewrite IH. by rewrite Hr. Qed.

Lemma query_step redisOn h c b now :
  tpm_log redisOn h c b -> c <= unix_ms now ->
  exists oldest b', bizTPMQuery redisOn key now (mkStore b []) = (Ok (settled (unix_ms now) h, oldest), mkStore b' []) /\
    tpm_log redisOn h (unix_ms now) b' /\ z_tpmSeq b' = z_tpmSeq b.
Proof.
  intros Hlog Hc. unfold settled. destruct redisOn.
  - apply (zlog_later _ _ _ _ _ h c (unix_ms now)) in Hlog; [|done].
    destruct (zlog_prune _ _ _ _ _ h (unix_ms now) _ _ Hlog) as [Hlog' (L & HL & Ha)].
    set (r1 := ZREMRANGEBYSCORE (unix_ms now) key (unix_ms now - w) (z_redis b)) in *.
    assert (foldl (fun acc m => i64_add acc (parseBizTPMMember m)) 0 (ZMEMBERS (unix_ms now) key r1) =
            wrap64 (sumZ e_tokens (alive e_ms w (unix_ms now) h))) as Hsum.
    { rewrite <- (parse_sum _ _ Ha). rewrite <- (sumZ_perm parseBizTPMMember _ _ (fmap_Permutation fst _ _ HL)).
      apply (foldl_i64_add parseBizTPMMember _ 0). }
    exists (default 0 (ZFIRST (unix_ms now) key r1)), (set_z r1 b). split; [|by split].
    rewrite <- Hsum. reflexivity.
  - destruct Hlog as [Hs (gone & He & Hg)]. unfold bizTPMQuery, bizTPMMem_query. cbn [tables]. fold w.
    destruct (mem_pruned h c (unix_ms now) _ gone Hs Hc He Hg) as [Hd Hex].
    set (ts := drop_settled (unix_ms now - w) (default [] (z_tpm b !! key))) in *.
    eexists _, (mkBiz (z_redis b) (z_memberSeq b) (z_tpmSeq b) (z_mem b) (<[key := ts]> (z_tpm b))).
    split; [|split; [split; [by eapply sorted_log_later|]|done]].
    + rewrite <- Hd. unfold total_tokens. rewrite (foldl_i64_add e_tokens ts 0 : foldl _ 0 ts = _). reflexivity.
    + cbn [z_tpm]. by rewrite lookup_insert_eq.
Qed.

(** Settlements and reads of one key. *)
Inductive tpm_event :=
| Settle (tokens now : Z)
| Read (now : Z).

Definition tpm_time (e : tpm_event) : Z := match e with Settle _ now | Read now => unix_ms now end.

Fixpoint tpm_reads (redisOn : bool) (es : list tpm_event) (s : store (biz R)) : list (option Z) :=
  match es with
  | [] => []
  | Settle tokens now :: es' => tpm_reads redisOn es' (bizTPMRecord redisOn key tokens now s).2
  | Read now :: es' =>
      let (r, s') := bizTPMQuery redisOn key now s in
      (match r with Ok (total, _) => Some total | Err _ => None end) :: tpm_reads redisOn es' s'
  end.

(** What they should answer: the sum of the settlements of the last minute. *)
Fixpoint tpm_expected (es : list tpm_event) (h : list bizTPMEntry) : list (option Z) :=
  match es with
  | [] => []
  | Settle tokens now :: es' => tpm_expected es' (h ++ [mkTPMEntry (unix_ms now) tokens])
  | Read now :: es' => Some (settled (unix_ms now) h) :: tpm_expected es' h
  end.

Fixpoint tpm_in_order (c : Z) (es : list tpm_event) : Prop :=
  match es with
  | [] => True
  | e :: es' =>
      c <= tpm_time e /\ match e with Settle tokens _ => 0 < tokens <= i64_max | Read _ => True end /\
      tpm_in_order (tpm_time e) es'
  end.

Lemma tpm_reads_exact redisOn es : forall h c b,
  tpm_log redisOn h c b -> tpm_in_order c es -> 0 <= z_tpmSeq b -> z_tpmSeq b + Z.of_nat (length es) <= i64_max ->
  tpm_reads redisOn es (mkStore b []) = tpm_expected es h.
Proof.
  induction es as [|e es IH]; intros h c b Hlog Ho H0' Hseq; [done|]. destruct Ho as (Hc & Ht & Ho). cbn [length] in Hseq.
  destruct e as [tokens now|now]; cbn [tpm_reads tpm_expected tpm_time] in *.
  - destruct (record_step redisOn h c b tokens now Hlog Hc Ht ltac:(unfold64; lia)) as (b' & -> & Hlog' & Hs).
    cbn [snd]. by eapply IH; [exact Hlog'|exact Ho|lia|lia].
  - destruct (query_step redisOn h c b now Hlog Hc) as (oldest & b' & -> & Hlog' & Hs). f_equal.
    by eapply IH; [exact Hlog'|exact Ho|lia|lia].
Qed.
End TokensPerMinute.

Section WindowProperties.
Import GoStrings RateLimit BusinessLimit.

Section Backends.
Context {R : Type} `{RedisZsetLaws R}.

(** The two backends of the requests-per-minute limit take the same decisions: on a
    healthy server that keeps its laws, any requests of a key, in order, are admitted and
    refused alike by the Redis window and by the in-process one. *)
Theorem rpm_backends_agree key limit nows c (b b' : biz R) :
  0 < limit -> peekz c key (z_redis b) = None -> z_mem b' !! key = None -> readings_in_order c nows ->
  0 <= z_memberSeq b -> z_memberSeq b + Z.of_nat (length nows) <= i64_max ->
  rpm_decisions key limit true nows (mkStore b []) = rpm_decisions key limit false nows (mkStore b' []).
Proof.
  intros Hl Hz Hm Ho H0' Hseq. eapply (backends_agree_from key limit Hl nows [] c); [by apply zlog_nil| |done..].
  rewrite Hm. split; [by exists []|constructor|constructor].
Qed.

(** The tokens-per-minute window is exact on both backends: whatever settlements and
    reads of a key come in order, every read answers the sum of the tokens settled in the
    last minute, neither losing one that shares its instant with another nor counting an
    old one. *)
Theorem tpm_window_exact key redisOn es c (b : biz R) :
  peekz c key (z_redis b) = None -> z_tpm b !! key = None -> tpm_in_order c es ->
  0 <= z_tpmSeq b -> z_tpmSeq b + Z.of_nat (length es) <= i64_max ->
  tpm_reads key redisOn es (mkStore b []) = tpm_expected es [].
Proof.
  intros Hz Hm Ho H0' Hseq. eapply (tpm_reads_exact key redisOn es [] c); [|done..].
  destruct redisOn; cbn [tpm_log]; [by apply zlog_nil|]. split; [by split; constructor|].
  exists []. by rewrite Hm.
Qed.
End Backends.

Lemma rpm_backends_agree_witness :
  let nows := [time_of_unix 100; time_of_unix 100; time_of_unix 130; time_of_unix 160; time_of_unix 161] in
  rpm_decisions "rl:biz:tok:7" 2 true nows (mkStore fresh_biz []) =
    rpm_decisions "rl:biz:tok:7" 2 false nows (mkStore fresh_biz []) /\
  rpm_decisions "rl:biz:tok:7" 2 true nows (mkStore fresh_biz []) = [true; true; false; true; true].
Proof.
  intros nows. split; [|vm_compute; reflexivity].
  apply (rpm_backends_agree "rl:biz:tok:7" 2 nows 0 fresh_biz fresh_biz).
  - reflexivity.
  - reflexivity.
  - reflexivity.
  - vm_compute. repeat split; discriminate.
  - vm_compute. discriminate.
  - vm_compute. discriminate.
Defined.

Lemma tpm_window_exact_witness :
  let es := [Settle 500 (time_of_unix 100); Settle 500 (time_of_unix 100); Settle 7 (time_of_unix 130); Read (time_of_unix 140);
             Read (time_of_unix 165); Read (time_of_unix 500)] in
  tpm_reads "rl:biz:tpm:tok:7" true es (mkStore fresh_biz []) = [Some 1007; Some 7; Some 0].
Proof.
  intros es. rewrite (tpm_window_exact "rl:biz:tpm:tok:7" true es 0 fresh_biz).
  - vm_compute. reflexivity.
  - reflexivity.
  - reflexivity.
  - vm_compute. repeat split; discriminate.
  - vm_compute. discriminate.
  - vm_compute. discriminate.
Defined.

(** Two settlements of a user at the same time, then a reading of the fuse. *)
Definition two_settlements (userID tokens tokens' now : Z) : option Z :=
  let s := mkStore fresh_biz [] in
  let s := (RecordCostSpikeWindow true true userID tokens now s).2 in
  let s := (RecordCostSpikeWindow true true userID tokens' now s).2 in
  match QueryCostSpikeWindow userID now s with (Ok total, _) => Some total | _ => None end.

(** The spend fuse loses settlements: its members carry the millisecond and the
    tokens but no sequence number, so of two equal settlements of a user in the same
    millisecond the second overwrites the first and the window counts one; settlements
    that differ are both counted. *)
Theorem cost_spike_collapses :
  two_settlements 7 500 500 (time_of_unix 100) = Some 500 /\
  two_settlements 7 500 501 (time_of_unix 100) = Some 1001.
Proof. split; vm_compute; reflexivity. Qed.
End WindowProperties.
