(* ===== verification/LeaderElection.v ===== *)
(** * Leader election

    Model of internal/adapter/repo/leader_election.go (the lease row), internal/lifecycle/
    leader_election.go (the renewal loop and the tasks gated on leadership) and
    internal/pkg/common/leader.go (the flag the tasks read).

    The two calls on the lease are computations whose statements may fail.  For the
    replicas together, the boot lease, a renewal and a shutdown are cut where they wait for
    the database: reading the clock, the UPDATE, the INSERT, the release and the arrival of
    the answer are separate events, and an answer may be lost after the statement took
    effect.  Every replica reads a clock of its own, off by at most a given number of
    seconds. *)

From S2P Require Import Prelude.

Module LeaderElection.

Definition LeaderElectionName : string := "master".
Definition LeaderLeaseTTLSeconds : Z := 30.
Definition LeaderBootLeaseTTLSeconds : Z := 300.
Definition renewDivisor : Z := 3.

(** Seconds between renewals, as [NewLeaderManager] sets them. *)
Definition renewEvery : Z :=
  let every := LeaderLeaseTTLSeconds `quot` renewDivisor in if every <? 1 then 1 else every.

Record lease := mkLease {
  HolderId : string;
  AcquiredAt : Z;
  RenewedAt : Z;
  ExpiresAt : Z
}.

(** Rows by name, the primary key. *)
Abbreviation leases := (gmap string lease).

(** ** The statements *)

(** [UPDATE ... WHERE name = ? AND (holder_id = ? OR expires_at < ?)]: whether a row was
    affected, and the table. *)
Definition renew_stmt (name holderId : string) (ttl now : Z) (t : leases) : bool * leases :=
  match t !! name with
  | Some l =>
      if bool_decide (HolderId l = holderId) || (ExpiresAt l <? now)
      then (true, <[name := mkLease holderId (AcquiredAt l) now (i64_add now ttl)]> t)
      else (false, t)
  | None => (false, t)
  end.

(** [INSERT ... ON CONFLICT DO NOTHING]. *)
Definition acquire_stmt (name holderId : string) (ttl now : Z) (t : leases) : bool * leases :=
  match t !! name with
  | Some _ => (false, t)
  | None => (true, <[name := mkLease holderId now now (i64_add now ttl)]> t)
  end.

Definition release_stmt (name holderId : string) (t : leases) : leases :=
  match t !! name with
  | Some l =>
      if bool_decide (HolderId l = holderId) then <[name := mkLease (HolderId l) (AcquiredAt l) (RenewedAt l) 0]> t
      else t
  | None => t
  end.

Inductive lease_err := LeaseArgument | LeaseDb.
#[export] Instance lease_db_error : DbError lease_err := LeaseDb.

Definition TryAcquireOrRenew (name holderId : string) (ttl now : Z) : M leases lease_err bool :=
  if bool_decide (name = EmptyString) || bool_decide (holderId = EmptyString) then throw LeaseArgument
  else if ttl <=? 0 then throw LeaseArgument
  else
    let! won := stmt (fun t => Ok (renew_stmt name holderId ttl now t)) in
    if won : bool then ret true
    else stmt (fun t => Ok (acquire_stmt name holderId ttl now t)).

Definition ReleaseLease (name holderId : string) : M leases lease_err unit :=
  stmt (fun t => Ok (tt, release_stmt name holderId t)).

(** ** A replica *)

(** [IsLeader] and the manager's estimate of its lease. *)
Record LeaderManager := mkManager {
  isLeader : bool;
  localExpiry : Z
}.

Definition new_manager : LeaderManager := mkManager false 0.

(** The boot lease of repo/main.go, taken before the manager exists: it sets the flag and
    nothing of the manager's estimate; an error ends the start-up. *)
Definition boot (holderId : string) (now : Z) : M leases lease_err LeaderManager :=
  let! won := TryAcquireOrRenew LeaderElectionName holderId LeaderBootLeaseTTLSeconds now in
  ret (if won : bool then mkManager true (localExpiry new_manager) else new_manager).

(** [step] after the answer of [TryAcquireOrRenew] at [now]. *)
Definition reconcile (answer : result lease_err bool) (now : Z) (m : LeaderManager) : LeaderManager :=
  match answer with
  | Err _ => if isLeader m && (now >=? localExpiry m) then mkManager false (localExpiry m) else m
  | Ok true => mkManager true (i64_add now LeaderLeaseTTLSeconds)
  | Ok false => mkManager false (localExpiry m)
  end.

(** [step] with no one else in between. *)
Definition leader_step (holderId : string) (now : Z) (m : LeaderManager) (s : store leases) : LeaderManager * store leases :=
  let (answer, s') := TryAcquireOrRenew LeaderElectionName holderId LeaderLeaseTTLSeconds now s in
  (reconcile answer now m, s').

(** The end of [Run]: a leader releases its lease. *)
Definition shutdown (holderId : string) (m : LeaderManager) (s : store leases) : LeaderManager * store leases :=
  if isLeader m then
    let (_, s') := ReleaseLease LeaderElectionName holderId s in (mkManager false (localExpiry m), s')
  else (m, s).

(** ** A task gated on leadership *)

(** One tick of [LeaderTask.Run] at [now]: whether the task runs, and [lastRun]. *)
Definition task_tick (leader : bool) (interval now : Z) (lastRun : Z) : bool * Z :=
  if negb leader then (false, lastRun)
  else if negb (time_IsZero lastRun) && (time_Sub now lastRun <? interval) then (false, lastRun)
  else (true, now).

(** ** The replicas together *)

(** Where a replica stands.  A renewal is the boot lease or a tick of the manager, with the
    reading of the replica's clock it works with. *)
Inductive phase :=
| Off
| Booted (expiry : Z)                                                  (* up to the first tick of the manager *)
| Resting
| Updating (booting : bool) (now : Z)                                  (* the UPDATE is on its way *)
| Inserting (booting : bool) (now : Z)                                 (* it matched no row; the INSERT is on its way *)
| Awaiting (booting : bool) (now : Z) (answer : result lease_err bool) (* the answer is on its way *)
| Releasing                                                            (* at shutdown, the release is on its way *)
| Released                                                             (* its answer is on its way *)
| Stopped.

Record replica := mkReplica {
  manager : LeaderManager;
  read_at : Z;            (* the last reading of its clock *)
  at_ : phase
}.

Record cluster := mkCluster {
  clock : Z;
  row : leases;
  replicas : gmap string replica
}.

(** What became of a statement: it was applied and its answer comes back, it was not
    applied, or it was applied and the answer was lost. *)
Inductive fate := Answered | Lost_before | Lost_after.

Inductive event :=
| ETime (t : Z)
| EBoot (h : string) (now : Z)
| EStart (h : string) (now : Z)       (* the ticker fires *)
| EUpdate (h : string) (f : fate)
| EInsert (h : string) (f : fate)
| EAnswer (h : string)
| EStop (h : string)                  (* the context is cancelled *)
| ERelease (h : string) (f : fate)
| EReleased (h : string).

Definition set_replica (h : string) (r : replica) (c : cluster) : cluster :=
  mkCluster (clock c) (row c) (<[h := r]> (replicas c)).

(** The table and the answer after a statement with the given fate. *)
Definition suffer (f : fate) (r : bool * leases) (t : leases) : result lease_err bool * leases :=
  match f with
  | Answered => (Ok r.1, r.2)
  | Lost_before => (Err LeaseDb, t)
  | Lost_after => (Err LeaseDb, r.2)
  end.

Definition ttl_of (booting : bool) : Z := if booting then LeaderBootLeaseTTLSeconds else LeaderLeaseTTLSeconds.

(** The end of a renewal.  At the start of the process an error ends it. *)
Definition answered (booting : bool) (now : Z) (a : result lease_err bool) (m : LeaderManager) : LeaderManager * phase :=
  if booting then
    match a with
    | Ok true => (mkManager true (localExpiry m), Booted (i64_add now LeaderBootLeaseTTLSeconds))
    | Ok false => (m, Booted now)
    | Err _ => (m, Stopped)
    end
  else (reconcile a now m, Resting).

(** Every replica reads its own clock, which is at most [skew] seconds off and does not run
    backwards. *)
Definition readable (skew now : Z) (r : replica) (c : cluster) : bool :=
  (read_at r <=? now) && (clock c - skew <=? now) && (now <=? clock c + skew).

Definition lease_event (skew : Z) (e : event) (c : cluster) : option cluster :=
  match e with
  | ETime t => if clock c <=? t then Some (mkCluster t (row c) (replicas c)) else None
  | EBoot h now =>
      r ← replicas c !! h;
      match at_ r with
      | Off => if readable skew now r c then Some (set_replica h (mkReplica (manager r) now (Updating true now)) c) else None
      | _ => None
      end
  | EStart h now =>
      r ← replicas c !! h;
      match at_ r with
      | Booted _ | Resting =>
          if readable skew now r c then Some (set_replica h (mkReplica (manager r) now (Updating false now)) c) else None
      | _ => None
      end
  | EUpdate h f =>
      r ← replicas c !! h;
      match at_ r with
      | Updating b now =>
          let (a, t) := suffer f (renew_stmt LeaderElectionName h (ttl_of b) now (row c)) (row c) in
          let p := match a with Ok false => Inserting b now | _ => Awaiting b now a end in
          Some (mkCluster (clock c) t (<[h := mkReplica (manager r) (read_at r) p]> (replicas c)))
      | _ => None
      end
  | EInsert h f =>
      r ← replicas c !! h;
      match at_ r with
      | Inserting b now =>
          let (a, t) := suffer f (acquire_stmt LeaderElectionName h (ttl_of b) now (row c)) (row c) in
          Some (mkCluster (clock c) t (<[h := mkReplica (manager r) (read_at r) (Awaiting b now a)]> (replicas c)))
      | _ => None
      end
  | EAnswer h =>
      r ← replicas c !! h;
      match at_ r with
      | Awaiting b now a => let (m, p) := answered b now a (manager r) in Some (set_replica h (mkReplica m (read_at r) p) c)
      | _ => None
      end
  | EStop h =>
      r ← replicas c !! h;
      match at_ r with
      | Resting => Some (set_replica h (mkReplica (manager r) (read_at r) (if isLeader (manager r) then Releasing else Stopped)) c)
      | _ => None
      end
  | ERelease h f =>
      r ← replicas c !! h;
      match at_ r with
      | Releasing =>
          let t := match f with Lost_before => row c | _ => release_stmt LeaderElectionName h (row c) end in
          Some (mkCluster (clock c) t (<[h := mkReplica (manager r) (read_at r) Released]> (replicas c)))
      | _ => None
      end
  | EReleased h =>
      r ← replicas c !! h;
      match at_ r with
      | Released => Some (set_replica h (mkReplica (mkManager false (localExpiry (manager r))) (read_at r) Stopped) c)
      | _ => None
      end
  end.

Fixpoint lease_run (skew : Z) (es : list event) (c : cluster) : option cluster :=
  match es with
  | [] => Some c
  | e :: es' => c' ← lease_event skew e c; lease_run skew es' c'
  end.

(** A cluster at time [t] before any replica has started. *)
Definition start (t : Z) (hs : list string) : cluster :=
  mkCluster t ∅ (list_to_map ((fun h => (h, mkReplica new_manager 0 Off)) <$> hs)).

(** Up to when a replica takes itself for the leader: the boot lease until the manager's
    first tick, then the manager's estimate. *)
Definition claim (r : replica) : Z :=
  match at_ r with Booted e => e | _ => localExpiry (manager r) end.
End LeaderElection.

Section LeaseFacts.
Import LeaderElection.

(** The lease of the master row. *)
Definition held (h : string) (e : Z) (t : leases) : Prop :=
  exists l, t !! LeaderElectionName = Some l /\ HolderId l = h /\ e <= ExpiresAt l.

Lemma held_le h e e' t : e' <= e -> held h e t -> held h e' t.
Proof. intros He (l & Hl & Hh & Hle). exists l. split_and!; [done|done|lia]. Qed.

(** The clock reading a renewal in progress works with. *)
Definition reading (p : phase) : option (bool * Z) :=
  match p with
  | Updating b now | Inserting b now | Awaiting b now _ => Some (b, now)
  | _ => None
  end.

Lemma ttl_bounds b : LeaderLeaseTTLSeconds <= ttl_of b <= LeaderBootLeaseTTLSeconds.
Proof. destruct b; cbn; unfold LeaderLeaseTTLSeconds, LeaderBootLeaseTTLSeconds; lia. Qed.

(** *** The statements *)

(** The UPDATE: it renews the caller's lease or takes over one that ran out. *)
Lemma renew_others h ttl now limit t h' e :
  now <= limit -> h' <> h -> held h' e t -> held h' e (renew_stmt LeaderElectionName h ttl now t).2 \/ e < limit.
Proof.
  intros Hnow Hne (l & Hl & Hh & He). unfold renew_stmt. rewrite Hl.
  destruct (bool_decide (HolderId l = h)) eqn:Hb; [apply bool_decide_eq_true in Hb; congruence|]. cbn [orb].
  destruct (Z.ltb_spec (ExpiresAt l) now); [right; lia|left]. by exists l.
Qed.

Lemma renew_won h ttl now t :
  in64 (now + ttl) -> (renew_stmt LeaderElectionName h ttl now t).1 = true ->
  held h (now + ttl) (renew_stmt LeaderElectionName h ttl now t).2.
Proof.
  intros Hi. unfold renew_stmt. destruct (t !! LeaderElectionName) as [l|]; [|done]. case_match; [|done]. intros _.
  eexists. cbn [snd]. rewrite lookup_insert_eq. split; [done|]. split; [done|]. cbn. unfold i64_add. by rewrite wrap64_id.
Qed.

(** Either way the caller's own older claim stands. *)
Lemma renew_own h ttl now t e :
  in64 (now + ttl) -> e <= now + ttl -> held h e t -> held h e (renew_stmt LeaderElectionName h ttl now t).2.
Proof.
  intros Hi He (l & Hl & Hho & Hle). apply (held_le h (now + ttl)); [done|]. apply renew_won; [done|].
  unfold renew_stmt. rewrite Hl. by rewrite bool_decide_true.
Qed.

Lemma acquire_held h ttl now t h' e : held h' e t -> held h' e (acquire_stmt LeaderElectionName h ttl now t).2.
Proof. intros (l & Hl & Hr). unfold acquire_stmt. rewrite Hl. by exists l. Qed.

Lemma acquire_won h ttl now t :
  in64 (now + ttl) -> (acquire_stmt LeaderElectionName h ttl now t).1 = true ->
  held h (now + ttl) (acquire_stmt LeaderElectionName h ttl now t).2.
Proof.
  intros Hi. unfold acquire_stmt. destruct (t !! LeaderElectionName) as [l|]; [done|]. intros _.
  eexists. cbn [snd]. rewrite lookup_insert_eq. split; [done|]. split; [done|]. cbn. unfold i64_add. by rewrite wrap64_id.
Qed.

Lemma release_others h t h' e : h' <> h -> held h' e t -> held h' e (release_stmt LeaderElectionName h t).
Proof.
  intros Hne (l & Hl & Hh & He). unfold release_stmt. rewrite Hl. rewrite bool_decide_false by congruence. by exists l.
Qed.

Lemma suffer_cases f r t : suffer f r t = (Ok r.1, r.2) \/ suffer f r t = (Err LeaseDb, t) \/ suffer f r t = (Err LeaseDb, r.2).
Proof. destruct f; auto. Qed.

(** *** The invariant *)

Section Skewed.
Context (skew : Z) (skew_pos : 0 <= skew).

(** What a replica may still claim up to [e] is in the row, or has run out but for the
    error of the clocks. *)
Definition vouched (c : cluster) (h : string) (e : Z) : Prop := held h e (row c) \/ e < clock c + skew.

Lemma vouched_le c h e e' : e' <= e -> vouched c h e -> vouched c h e'.
Proof. intros Hle [He|He]; [left; by eapply held_le|right; lia]. Qed.

Record replica_ok (c : cluster) (h : string) (r : replica) : Prop := {
  r_claim : isLeader (manager r) = true -> at_ r <> Released -> vouched c h (claim r);
  r_read : 0 <= read_at r <= clock c + skew \/ read_at r = 0;
  r_reading b now : reading (at_ r) = Some (b, now) -> now = read_at r;
  r_bound : localExpiry (manager r) <= read_at r + LeaderLeaseTTLSeconds;
  r_won b now : at_ r = Awaiting b now (Ok true) -> vouched c h (now + ttl_of b);
  r_booted e : at_ r = Booted e -> isLeader (manager r) = true -> localExpiry (manager r) <= e;
  r_stopped : at_ r = Stopped \/ at_ r = Off -> isLeader (manager r) = false;
  r_booting now : reading (at_ r) = Some (true, now) -> isLeader (manager r) = false
}.

Definition lease_inv (c : cluster) : Prop := 0 <= clock c /\ forall h r, replicas c !! h = Some r -> replica_ok c h r.

(** An event that touches one replica, and changes the table so that the others' claims
    stand or run out. *)
Lemma lease_inv_update c t h r' :
  lease_inv c -> replica_ok (mkCluster (clock c) t (<[h := r']> (replicas c))) h r' ->
  (forall h' e, h' <> h -> held h' e (row c) -> held h' e t \/ e < clock c + skew) ->
  lease_inv (mkCluster (clock c) t (<[h := r']> (replicas c))).
Proof.
  intros [Hmin Hinv] Hr' Hothers. split; [done|]. intros h' r Hr. cbn [replicas] in Hr.
  destruct (decide (h = h')) as [<-|Hne].
  - rewrite lookup_insert_eq in Hr. by injection Hr as <-.
  - rewrite lookup_insert_ne in Hr by done. destruct (Hinv h' r Hr) as [H1 H2 H3 H4 H5 H6 H7 H8].
    assert (forall e, vouched c h' e -> vouched (mkCluster (clock c) t (<[h := r']> (replicas c))) h' e) as Hv.
    { intros e [He|He]; [|by right]. destruct (Hothers h' e ltac:(done) He) as [?|?]; [by left|by right]. }
    split; eauto.
Qed.

Lemma inv_time c t : lease_inv c -> clock c <= t -> lease_inv (mkCluster t (row c) (replicas c)).
Proof.
  intros [Hmin Hinv] Ht. split; [cbn; lia|]. intros h r Hr. destruct (Hinv h r Hr) as [H1 H2 H3 H4 H5 H6 H7 H8].
  assert (forall e, vouched c h e -> vouched (mkCluster t (row c) (replicas c)) h e) as Hv
    by (intros e [He|He]; [by left|right; cbn; lia]).
  split; eauto. cbn. lia.
Qed.

Lemma readable_spec now r c : readable skew now r c = true -> read_at r <= now <= clock c + skew.
Proof. unfold readable. lia. Qed.

(** A renewal begins. *)
Lemma inv_begin c h r (b : bool) now :
  lease_inv c -> replicas c !! h = Some r -> readable skew now r c = true ->
  (if b then at_ r = Off else at_ r = Resting \/ exists e, at_ r = Booted e) ->
  lease_inv (set_replica h (mkReplica (manager r) now (Updating b now)) c).
Proof.
  intros Hinv Hr Hnow%readable_spec Hat. pose proof Hinv as [Hmin Hall]. destruct (Hall h r Hr) as [H1 H2 H3 H4 H5 H6 H7 H8].
  apply lease_inv_update; [done| |auto]. split; cbn; try done.
  - intros Hl _. destruct b; [by rewrite H7 in Hl by auto|]. destruct Hat as [Hat|[e Hat]].
    + specialize (H1 Hl). unfold claim in H1. rewrite Hat in H1. by apply H1.
    + specialize (H1 Hl). unfold claim in H1. rewrite Hat in H1. apply (vouched_le c h e); [by apply H6|by apply H1].
  - lia.
  - by intros b' now' [= _ <-].
  - lia.
  - by intros [?|?].
  - intros now' [= -> _]. auto.
Qed.

(** A statement of a renewal. *)
Lemma inv_sql c h r b now t p' :
  lease_inv c -> replicas c !! h = Some r -> reading (at_ r) = Some (b, now) -> reading p' = Some (b, now) ->
  (forall h' e, h' <> h -> held h' e (row c) -> held h' e t \/ e < clock c + skew) ->
  (forall e, e <= now + ttl_of b -> held h e (row c) -> held h e t) ->
  (p' = Awaiting b now (Ok true) -> held h (now + ttl_of b) t) ->
  lease_inv (mkCluster (clock c) t (<[h := mkReplica (manager r) (read_at r) p']> (replicas c))).
Proof.
  intros Hinv Hr Hp Hp' Hothers Hown Hwon. pose proof Hinv as [Hmin Hall].
  destruct (Hall h _ Hr) as [H1 H2 H3 H4 H5 H6 H7 H8]. pose proof (H3 _ _ Hp) as Hnow. pose proof (ttl_bounds b) as Hb.
  apply lease_inv_update; [done| |done]. split; cbn; try done.
  - intros Hl _. assert (claim (mkReplica (manager r) (read_at r) p') = claim r) as -> by (unfold claim; cbn; destruct p', (at_ r); done).
    destruct H1 as [H1|H1]; [done|by intros Ha; rewrite Ha in Hp| |by right].
    left. apply Hown; [|done]. unfold claim. destruct (at_ r); cbn in *; try done; lia.
  - intros b' now' Hn'. rewrite Hp' in Hn'. by injection Hn' as <- <-.
  - intros b' now' ->. injection Hp' as -> ->. left. by apply Hwon.
  - by intros e ->.
  - by intros [->| ->].
  - intros now' Hn'. rewrite Hp' in Hn'. injection Hn' as -> ->. by eapply H8.
Qed.

Lemma reading_range c h r b now :
  lease_inv c -> clock c + skew + LeaderBootLeaseTTLSeconds <= i64_max -> replicas c !! h = Some r ->
  reading (at_ r) = Some (b, now) -> now <= clock c + skew /\ in64 (now + ttl_of b).
Proof.
  intros [Hmin Hall] Hmax Hr Hp. destruct (Hall h _ Hr) as [_ H2 H3 _ _ _ _ _]. rewrite (H3 _ _ Hp). pose proof (ttl_bounds b).
  unfold LeaderLeaseTTLSeconds in *. unfold in64, i64_min, i64_half in *. lia.
Qed.

Lemma inv_renew c h r b now f :
  lease_inv c -> clock c + skew + LeaderBootLeaseTTLSeconds <= i64_max -> replicas c !! h = Some r -> at_ r = Updating b now ->
  let (a, t) := suffer f (renew_stmt LeaderElectionName h (ttl_of b) now (row c)) (row c) in
  lease_inv (mkCluster (clock c) t
    (<[h := mkReplica (manager r) (read_at r) (match a with Ok false => Inserting b now | _ => Awaiting b now a end)]> (replicas c))).
Proof.
  intros Hinv Hmax Hr Hat. assert (reading (at_ r) = Some (b, now)) as Hp by by rewrite Hat.
  destruct (reading_range c h r b now Hinv Hmax Hr Hp) as [Hn Hi].
  pose proof (renew_won h (ttl_of b) now (row c) Hi) as Hwon.
  destruct (suffer_cases f (renew_stmt LeaderElectionName h (ttl_of b) now (row c)) (row c)) as [->|[->| ->]];
    apply (inv_sql c h r b now); try done; auto using renew_own.
  - by destruct (renew_stmt _ _ _ _ _).1.
  - intros h' e Hne He. by eapply renew_others.
  - destruct (renew_stmt _ _ _ _ _).1; [|done]. auto.
  - intros h' e Hne He. by eapply renew_others.
Qed.

Lemma inv_acquire c h r b now f :
  lease_inv c -> clock c + skew + LeaderBootLeaseTTLSeconds <= i64_max -> replicas c !! h = Some r -> at_ r = Inserting b now ->
  let (a, t) := suffer f (acquire_stmt LeaderElectionName h (ttl_of b) now (row c)) (row c) in
  lease_inv (mkCluster (clock c) t (<[h := mkReplica (manager r) (read_at r) (Awaiting b now a)]> (replicas c))).
Proof.
  intros Hinv Hmax Hr Hat. assert (reading (at_ r) = Some (b, now)) as Hp by by rewrite Hat.
  destruct (reading_range c h r b now Hinv Hmax Hr Hp) as [Hn Hi].
  pose proof (acquire_won h (ttl_of b) now (row c) Hi) as Hwon.
  destruct (suffer_cases f (acquire_stmt LeaderElectionName h (ttl_of b) now (row c)) (row c)) as [->|[->| ->]];
    apply (inv_sql c h r b now); try done; auto using acquire_held.
  intros [= He]. auto.
Qed.

Lemma inv_answer c h r b now a m p :
  lease_inv c -> clock c + skew + LeaderBootLeaseTTLSeconds <= i64_max -> replicas c !! h = Some r -> at_ r = Awaiting b now a ->
  answered b now a (manager r) = (m, p) -> lease_inv (set_replica h (mkReplica m (read_at r) p) c).
Proof.
  intros Hinv Hmax Hr Hat Han. assert (reading (at_ r) = Some (b, now)) as Hp by by rewrite Hat.
  destruct (reading_range c h r b now Hinv Hmax Hr Hp) as [Hn Hi]. pose proof Hinv as [Hmin Hall].
  destruct (Hall h _ Hr) as [H1 H2 H3 H4 H5 H6 H7 H8]. pose proof (H3 _ _ Hp) as Hnow.
  assert (isLeader (manager r) = true -> vouched c h (localExpiry (manager r))) as Hcl.
  { intros Hl. specialize (H1 Hl). unfold claim in H1. rewrite Hat in H1. by apply H1. }
  apply lease_inv_update; [done| |auto]. unfold answered in Han. destruct b; cbn [ttl_of] in Hi.
  - assert (isLeader (manager r) = false) as Hl by by eapply H8.
    destruct a as [[]|x]; injection Han as <- <-; split; cbn; try done; try (by intros [?|?]); try congruence.
    + intros _ _. unfold i64_add. rewrite wrap64_id by done. by apply (H5 true).
    + intros e [= <-] _. unfold i64_add. rewrite wrap64_id by done. unfold LeaderLeaseTTLSeconds, LeaderBootLeaseTTLSeconds in *. lia.
  - injection Han as <- <-. destruct a as [[]|x]; cbn [reconcile].
    + split; cbn; try done; unfold i64_add; rewrite ?wrap64_id by done; [intros _ _; by apply (H5 false)|lia|by intros [?|?]].
    + split; cbn; try done; by intros [?|?].
    + case_match; split; cbn; try done; try (by intros [?|?]). by auto.
Qed.

(** The shutdown. *)
Lemma inv_stop c h r p :
  lease_inv c -> replicas c !! h = Some r -> at_ r = Resting -> p = (if isLeader (manager r) then Releasing else Stopped) ->
  lease_inv (set_replica h (mkReplica (manager r) (read_at r) p) c).
Proof.
  intros Hinv Hr Hat ->. destruct (proj2 Hinv h _ Hr) as [H1 H2 H3 H4 H5 H6 H7 H8].
  apply lease_inv_update; [done| |auto]. unfold claim in H1. rewrite Hat in H1.
  destruct (isLeader (manager r)) eqn:Hl; split; cbn; try done; try (by rewrite Hl); try (by intros [?|?]); intros; by apply H1.
Qed.

Lemma inv_release c h r f :
  lease_inv c -> replicas c !! h = Some r ->
  lease_inv (mkCluster (clock c) (match f with Lost_before => row c | _ => release_stmt LeaderElectionName h (row c) end)
    (<[h := mkReplica (manager r) (read_at r) Released]> (replicas c))).
Proof.
  intros Hinv Hr. destruct (proj2 Hinv h _ Hr) as [H1 H2 H3 H4 H5 H6 H7 H8]. apply lease_inv_update; [done| |].
  - split; cbn; try done. by intros [?|?].
  - intros h' e Hne He. left. destruct f; auto using release_others.
Qed.

Lemma inv_released c h r :
  lease_inv c -> replicas c !! h = Some r ->
  lease_inv (set_replica h (mkReplica (mkManager false (localExpiry (manager r))) (read_at r) Stopped) c).
Proof.
  intros Hinv Hr. destruct (proj2 Hinv h _ Hr) as [H1 H2 H3 H4 H5 H6 H7 H8]. apply lease_inv_update; [done| |auto]. by split.
Qed.

Lemma event_clock e c c' : lease_event skew e c = Some c' -> clock c <= clock c'.
Proof.
  destruct e; cbn; try (destruct (replicas c !! h) as [r|]; cbn; [|done]); repeat case_match; intros; simplify_eq; cbn; lia.
Qed.

Lemma inv_step c e c' :
  lease_inv c -> clock c' + skew + LeaderBootLeaseTTLSeconds <= i64_max -> lease_event skew e c = Some c' -> lease_inv c'.
Proof.
  intros Hinv Hmax He. pose proof (event_clock _ _ _ He) as Hclock.
  assert (clock c + skew + LeaderBootLeaseTTLSeconds <= i64_max) as Hmax0 by lia.
  destruct e as [t|h now|h now|h f|h f|h|h|h f|h]; cbn in He;
    [destruct (Z.leb_spec (clock c) t); [|done]; injection He as <-; by apply inv_time
    |destruct (replicas c !! h) as [r|] eqn:Hr; cbn in He; [|done]; destruct (at_ r) eqn:Hat; try done ..].
  - destruct (readable skew now r c) eqn:Hn; [|done]. injection He as <-. by apply inv_begin.
  - destruct (readable skew now r c) eqn:Hn; [|done]. injection He as <-. apply inv_begin; eauto.
  - destruct (readable skew now r c) eqn:Hn; [|done]. injection He as <-. apply inv_begin; auto.
  - pose proof (inv_renew c h r booting now f Hinv Hmax0 Hr Hat) as Hs. destruct (suffer _ _ _) as [a t]. by injection He as <-.
  - pose proof (inv_acquire c h r booting now f Hinv Hmax0 Hr Hat) as Hs. destruct (suffer _ _ _) as [a t]. by injection He as <-.
  - destruct (answered booting now answer (manager r)) as [m p] eqn:Ha. injection He as <-. by eapply inv_answer.
  - injection He as <-. by apply inv_stop.
  - injection He as <-. by apply inv_release.
  - injection He as <-. by apply inv_released.
Qed.

Lemma run_clock es : forall c c', lease_run skew es c = Some c' -> clock c <= clock c'.
Proof.
  induction es as [|e es IH]; intros c c'; cbn [lease_run]; [by intros [= <-]|].
  destruct (lease_event skew e c) as [c1|] eqn:He; cbn; [|done]. intros Hrun. specialize (IH c1 c' Hrun).
  pose proof (event_clock _ _ _ He). lia.
Qed.

Lemma run_inv es : forall c c',
  lease_inv c -> clock c' + skew + LeaderBootLeaseTTLSeconds <= i64_max -> lease_run skew es c = Some c' -> lease_inv c'.
Proof.
  induction es as [|e es IH]; intros c c' Hinv Hmax; cbn [lease_run]; [by intros [= <-]|].
  destruct (lease_event skew e c) as [c1|] eqn:He; cbn; [|done]. intros Hrun.
  pose proof (run_clock es c1 c' Hrun). eapply IH; [|done|done]. eapply inv_step; [done| |done]. lia.
Qed.

Lemma start_inv t hs : 0 <= t -> lease_inv (start t hs).
Proof.
  intros Ht. split; [done|]. intros h r Hr. cbn in Hr.
  apply elem_of_list_to_map_2, list_elem_of_fmap in Hr as (h' & [= -> ->] & _).
  split; cbn; try done. by right.
Qed.
End Skewed.

(** C35. The lease is exclusive, but for the error of the clocks and the end of a shutdown.
    Every replica reads its own clock, at most [skew] seconds off and never running
    backwards.  However boot leases, renewals and shutdowns interleave, are delayed, fail or
    lose their answers, of two replicas that consider themselves leader, neither of them
    between the release of its lease at shutdown and the clearing of its flag, at most one
    relies on a lease (the boot lease, then the manager's estimate) with [skew] seconds or
    more to run. *)
Theorem lease_exclusive skew t hs es c h1 h2 r1 r2 :
  0 <= skew -> 0 <= t -> lease_run skew es (start t hs) = Some c -> clock c + skew + LeaderBootLeaseTTLSeconds <= i64_max ->
  h1 <> h2 -> replicas c !! h1 = Some r1 -> replicas c !! h2 = Some r2 ->
  isLeader (manager r1) = true -> isLeader (manager r2) = true -> at_ r1 <> Released -> at_ r2 <> Released ->
  claim r1 < clock c + skew \/ claim r2 < clock c + skew.
Proof.
  intros Hs Ht Hrun Hmax Hne Hr1 Hr2 Hl1 Hl2 Ha1 Ha2.
  pose proof (run_inv skew Hs es (start t hs) c (start_inv skew t hs Ht) Hmax Hrun) as [_ Hall].
  destruct (r_claim _ _ _ _ (Hall h1 r1 Hr1) Hl1 Ha1) as [(l1 & He1 & Hh1 & _)|?]; [|by left].
  destruct (r_claim _ _ _ _ (Hall h2 r2 Hr2) Hl2 Ha2) as [(l2 & He2 & Hh2 & _)|?]; [|by right].
  congruence.
Qed.

(** A renewal that goes through, at the given reading of the clock. *)
Definition renewal (h : string) (now : Z) : list event := [EStart h now; EUpdate h Answered; EAnswer h].
Definition first_acquire (h : string) (now : Z) : list event := [EStart h now; EUpdate h Answered; EInsert h Answered; EAnswer h].

(** The events of a renewal that is answered. *)
Section Events.
Context (skew : Z).

Lemma ev_start c h m rd now :
  replicas c !! h = Some (mkReplica m rd Resting) -> readable skew now (mkReplica m rd Resting) c = true ->
  lease_event skew (EStart h now) c = Some (set_replica h (mkReplica m now (Updating false now)) c).
Proof. intros Hr Hn. unfold lease_event. rewrite Hr. cbn [mbind option_bind at_ manager]. by rewrite Hn. Qed.

Lemma ev_update c h m rd b now :
  replicas c !! h = Some (mkReplica m rd (Updating b now)) ->
  let r := renew_stmt LeaderElectionName h (ttl_of b) now (row c) in
  lease_event skew (EUpdate h Answered) c =
    Some (mkCluster (clock c) r.2 (<[h := mkReplica m rd (if r.1 then Awaiting b now (Ok true) else Inserting b now)]> (replicas c))).
Proof. intros Hr. cbn. rewrite Hr. cbn. by destruct (renew_stmt _ _ _ _ _) as [[] t]. Qed.

Lemma ev_insert c h m rd b now :
  replicas c !! h = Some (mkReplica m rd (Inserting b now)) ->
  let r := acquire_stmt LeaderElectionName h (ttl_of b) now (row c) in
  lease_event skew (EInsert h Answered) c =
    Some (mkCluster (clock c) r.2 (<[h := mkReplica m rd (Awaiting b now (Ok r.1))]> (replicas c))).
Proof. intros Hr. cbn. by rewrite Hr. Qed.

Lemma ev_answer c h m rd now a :
  replicas c !! h = Some (mkReplica m rd (Awaiting false now a)) ->
  lease_event skew (EAnswer h) c = Some (set_replica h (mkReplica (reconcile a now m) rd Resting) c).
Proof. intros Hr. cbn. by rewrite Hr. Qed.

Lemma won_answer c h m rd now :
  in64 (now + LeaderLeaseTTLSeconds) -> held h (now + LeaderLeaseTTLSeconds) (row c) ->
  let c' := set_replica h (mkReplica (reconcile (Ok true) now m) rd Resting) c in
  replicas c' !! h = Some (mkReplica (mkManager true (now + LeaderLeaseTTLSeconds)) rd Resting) /\
  held h (now + LeaderLeaseTTLSeconds) (row c').
Proof.
  intros Hi Hh. split; [|done]. cbn [set_replica replicas reconcile]. rewrite lookup_insert_eq.
  unfold i64_add. by rewrite wrap64_id.
Qed.

(** A lease does not outlive its holder: as soon as a replica's clock has passed the expiry
    of the lease, and at once where there is none, its next renewal that the database
    answers makes it the leader, for a full term. *)
Theorem lease_taken_over c h m rd now :
  replicas c !! h = Some (mkReplica m rd Resting) -> readable skew now (mkReplica m rd Resting) c = true ->
  in64 (now + LeaderLeaseTTLSeconds) ->
  (forall l, row c !! LeaderElectionName = Some l -> ExpiresAt l < now) ->
  exists es c', (es = renewal h now \/ es = first_acquire h now) /\ lease_run skew es c = Some c' /\
    replicas c' !! h = Some (mkReplica (mkManager true (now + LeaderLeaseTTLSeconds)) now Resting) /\
    held h (now + LeaderLeaseTTLSeconds) (row c').
Proof.
  intros Hr Hn Hi Hexp. destruct (row c !! LeaderElectionName) as [l|] eqn:Hl.
  - assert ((renew_stmt LeaderElectionName h (ttl_of false) now (row c)).1 = true) as Hwon.
    { unfold renew_stmt. rewrite Hl. specialize (Hexp l eq_refl). replace (ExpiresAt l <? now) with true by lia.
      by rewrite orb_true_r. }
    pose proof (renew_won h (ttl_of false) now (row c) Hi Hwon) as Hheld.
    eexists (renewal h now), _. split; [by left|]. unfold renewal. cbn [lease_run].
    rewrite (ev_start c h m rd now Hr Hn). cbn [mbind option_bind].
    erewrite ev_update by apply lookup_insert_eq. cbn [mbind option_bind set_replica row]. rewrite Hwon.
    erewrite ev_answer by apply lookup_insert_eq. cbn [mbind option_bind].
    split; [reflexivity|]. by apply won_answer.
  - assert (renew_stmt LeaderElectionName h (ttl_of false) now (row c) = (false, row c)) as Hlost
      by (unfold renew_stmt; by rewrite Hl).
    assert ((acquire_stmt LeaderElectionName h (ttl_of false) now (row c)).1 = true) as Hwon
      by (unfold acquire_stmt; by rewrite Hl).
    pose proof (acquire_won h (ttl_of false) now (row c) Hi Hwon) as Hheld.
    eexists (first_acquire h now), _. split; [by right|]. unfold first_acquire. cbn [lease_run].
    rewrite (ev_start c h m rd now Hr Hn). cbn [mbind option_bind].
    erewrite ev_update by apply lookup_insert_eq. cbn [mbind option_bind set_replica row]. rewrite Hlost. cbn [fst snd].
    erewrite ev_insert by apply lookup_insert_eq. cbn [mbind option_bind row]. rewrite Hwon.
    erewrite ev_answer by apply lookup_insert_eq. cbn [mbind option_bind].
    split; [reflexivity|]. by apply won_answer.
Qed.

(** [step] is a renewal of the cluster that no other event interrupts. *)
Lemma step_is_run c h m rd now s :
  h <> EmptyString -> replicas c !! h = Some (mkReplica m rd Resting) -> readable skew now (mkReplica m rd Resting) c = true ->
  tables s = row c ->
  exists es c', lease_run skew es c = Some c' /\ clock c' = clock c /\
    row c' = tables (leader_step h now m s).2 /\
    replicas c' !! h = Some (mkReplica (leader_step h now m s).1 now Resting).
Proof.
  intros Hh Hr Hn Ht. unfold leader_step, TryAcquireOrRenew. rewrite (bool_decide_false (h = _)) by done. cbn [bool_decide orb].
  rewrite bool_decide_false by done. cbn [orb]. replace (LeaderLeaseTTLSeconds <=? 0) with false by reflexivity.
  unfold bind, stmt. rewrite Ht. change LeaderLeaseTTLSeconds with (ttl_of false). destruct (next_fault (faults s)) as [[] fs].
  - eexists [EStart h now; EUpdate h Lost_before; EAnswer h], _. cbn [lease_run].
    rewrite (ev_start c h m rd now Hr Hn). cbn [mbind option_bind lease_event set_replica replicas]. rewrite lookup_insert_eq. cbn.
    rewrite lookup_insert_eq. cbn. split; [reflexivity|]. cbn. by rewrite lookup_insert_eq.
  - destruct (renew_stmt LeaderElectionName h (ttl_of false) now (row c)) as [[] t] eqn:Hw.
    + eexists (renewal h now), _. unfold renewal. cbn [lease_run].
      rewrite (ev_start c h m rd now Hr Hn). cbn [mbind option_bind].
      erewrite ev_update by apply lookup_insert_eq. cbn [mbind option_bind set_replica row clock]. rewrite Hw.
      erewrite ev_answer by apply lookup_insert_eq. cbn [mbind option_bind].
      split; [reflexivity|]. cbn. by rewrite lookup_insert_eq.
    + cbn. destruct (next_fault fs) as [[] fs'].
      * eexists [EStart h now; EUpdate h Answered; EInsert h Lost_before; EAnswer h], _. cbn [lease_run].
        rewrite (ev_start c h m rd now Hr Hn). cbn [mbind option_bind].
        erewrite ev_update by apply lookup_insert_eq. cbn [mbind option_bind set_replica row clock]. rewrite Hw.
        cbn [lease_event replicas fst snd]. rewrite lookup_insert_eq. cbn. rewrite lookup_insert_eq. cbn.
        split; [reflexivity|]. cbn. by rewrite lookup_insert_eq.
      * eexists (first_acquire h now), _. unfold first_acquire. cbn [lease_run].
        rewrite (ev_start c h m rd now Hr Hn). cbn [mbind option_bind].
        erewrite ev_update by apply lookup_insert_eq. cbn [mbind option_bind set_replica row clock]. rewrite Hw. cbn [fst snd].
        erewrite ev_insert by apply lookup_insert_eq. cbn [mbind option_bind row].
        erewrite ev_answer by apply lookup_insert_eq. cbn [mbind option_bind].
        split; [reflexivity|]. cbn. rewrite lookup_insert_eq.
        by destruct (acquire_stmt _ _ _ _ t) as [w t'].
Qed.
End Events.

(** A replica that starts and finds the lease taken, or takes it. *)
Definition boots (h : string) (now : Z) : list event := [EBoot h now; EUpdate h Answered; EInsert h Answered; EAnswer h].

(** A leader that fails to reach the database at 9, 19 and 29 seconds into its lease. *)
Definition failed_renewal (h : string) (now : Z) : list event := [EStart h now; EUpdate h Lost_before; EAnswer h].
Definition partition : list event :=
  boots "a" 1000 ++ boots "b" 1000 ++ renewal "a" 1000 ++ [ETime 1009] ++ failed_renewal "a" 1009 ++ [ETime 1019] ++
  failed_renewal "a" 1019 ++ [ETime 1029] ++ failed_renewal "a" 1029 ++ [ETime 1031] ++ renewal "b" 1031.

(** The flag outlives the lease: the estimate is looked at only when a renewal comes
    back, so a leader cut off from the database whose renewals come at 9, 19 and 29
    seconds keeps its flag until the one at 39, and another replica that takes the lease
    over at 31 leads beside it. *)
Theorem two_leaders :
  exists c ra rb, lease_run 0 partition (start 1000 ["a"; "b"]) = Some c /\
    replicas c !! "a" = Some ra /\ isLeader (manager ra) = true /\ at_ ra = Resting /\
    replicas c !! "b" = Some rb /\ isLeader (manager rb) = true.
Proof. eexists _, _, _. vm_compute. repeat split. Qed.

(** A shutdown clears the flag only after the release has been answered: a replica that
    takes the released lease meanwhile leads beside it, both on estimates that have not
    run out. *)
Definition handover : list event :=
  boots "a" 1000 ++ boots "b" 1000 ++ renewal "a" 1001 ++ [EStop "a"; ERelease "a" Answered] ++ renewal "b" 1002.

Theorem two_leaders_at_shutdown :
  exists c ra rb, lease_run 2 handover (start 1000 ["a"; "b"]) = Some c /\
    replicas c !! "a" = Some ra /\ isLeader (manager ra) = true /\ clock c + 2 <= claim ra /\
    replicas c !! "b" = Some rb /\ isLeader (manager rb) = true /\ clock c + 2 <= claim rb.
Proof. eexists _, _, _. vm_compute. repeat split; discriminate. Qed.

(** Two replicas whose clocks are two seconds apart: one has the lease taken over while its
    own clock says it is good for another second. *)
Definition skewed : list event :=
  boots "a" 999 ++ boots "b" 1000 ++ renewal "a" 999 ++ [ETime 1029] ++ renewal "b" 1030.

Lemma lease_exclusive_witness :
  exists c ra rb, lease_run 1 skewed (start 1000 ["a"; "b"]) = Some c /\
    replicas c !! "a" = Some ra /\ replicas c !! "b" = Some rb /\
    (claim ra < clock c + 1 \/ claim rb < clock c + 1).
Proof.
  eexists _, _, _. split; [vm_compute; reflexivity|]. split; [vm_compute; reflexivity|]. split; [vm_compute; reflexivity|].
  eapply (lease_exclusive 1 1000 ["a"; "b"] skewed _ "a" "b").
  - discriminate.
  - discriminate.
  - vm_compute. reflexivity.
  - vm_compute. discriminate.
  - discriminate.
  - vm_compute. reflexivity.
  - vm_compute. reflexivity.
  - reflexivity.
  - reflexivity.
  - discriminate.
  - discriminate.
Defined.

Lemma lease_taken_over_witness :
  let c := mkCluster 1031 {[LeaderElectionName := mkLease "a" 1000 1000 1030]} {["b" := mkReplica new_manager 1020 Resting]} in
  exists es c', lease_run 0 es c = Some c' /\ replicas c' !! "b" = Some (mkReplica (mkManager true 1061) 1031 Resting).
Proof.
  intros c. destruct (lease_taken_over 0 c "b" new_manager 1020 1031) as (es & c' & _ & Hrun & Hr & _).
  - vm_compute. reflexivity.
  - vm_compute. reflexivity.
  - vm_compute. split; discriminate.
  - intros l Hl. vm_compute in Hl. injection Hl as <-. vm_compute. reflexivity.
  - exists es, c'. split; [exact Hrun|exact Hr].
Defined.

(** ** Tasks gated on leadership *)

(** The runs of a task at ticks with the given leadership. *)
Fixpoint task_runs (interval : Z) (ticks : list (Z * bool)) (lastRun : Z) : list Z :=
  match ticks with
  | [] => []
  | (now, leader) :: ticks' =>
      let (ran, lastRun') := task_tick leader interval now lastRun in
      (if ran then [now] else []) ++ task_runs interval ticks' lastRun'
  end.

Fixpoint ticks_in_order (t : Z) (ticks : list (Z * bool)) : Prop :=
  match ticks with
  | [] => True
  | (now, _) :: ticks' => t <= now /\ 0 < now /\ ticks_in_order now ticks'
  end.

(** Runs after [x] are apart by the interval, the first from [x] too. *)
Fixpoint spaced (interval x : Z) (l : list Z) : Prop :=
  match l with
  | [] => True
  | y :: l' => interval <= y - x /\ spaced interval y l'
  end.

(** However leadership comes and goes, a process runs a task at most once per interval. *)
Lemma task_spaced interval ticks : forall t lastRun,
  0 < interval <= i64_max -> 0 < lastRun <= t -> ticks_in_order t ticks ->
  spaced interval lastRun (task_runs interval ticks lastRun).
Proof.
  induction ticks as [|[now leader] ticks IH]; intros t lastRun Hi Hl Ho; cbn [task_runs]; [done|].
  destruct Ho as (Ht & H0 & Ho). unfold task_tick, time_IsZero, time_zero. destruct leader; cbn [negb].
  - replace (lastRun =? 0) with false by lia. cbn [negb andb].
    destruct (Z.ltb_spec (time_Sub now lastRun) interval) as [Hlt|Hge].
    + apply (IH now); [done|lia|done].
    + cbn [app spaced]. rewrite (time_Sub_ge now lastRun interval) in Hge by lia. split; [done|]. apply (IH now); [done|lia|done].
  - apply (IH now); [done|lia|done].
Qed.
End LeaseFacts.
