(* ===== verification/Json.v ===== *)
(** * JSON arrays of strings

    What the code uses of Go's encoding/json for a [[]string]: [json.Marshal], with its
    HTML-safe escapes and its replacement of malformed UTF-8, and [json.Unmarshal] into a
    [[]string], with white space, [null] and every escape, surrogate pairs included.  Used
    by the redemption batches, whose codes are kept as one JSON column. *)

From S2P Require Import Prelude GoStrings.

#[local] Ltac Zify.zify_post_hook ::= Z.to_euclidean_division_equations.

Module Json.
Import GoStrings.

Definition hex_digit (n : Z) : Z := if n <? 10 then 48 + n else 87 + n.

(** [\u00XX] and the like, four digits. *)
Definition u_escape (r : Z) : list Z :=
  [92; 117; hex_digit (r / 4096 mod 16); hex_digit (r / 256 mod 16); hex_digit (r / 16 mod 16); hex_digit (r mod 16)].

(** The bytes of one code point inside a string literal. *)
Definition escape (r : Z) : list Z :=
  if r =? 34 then [92; 34]
  else if r =? 92 then [92; 92]
  else if r =? 8 then [92; 98]
  else if r =? 12 then [92; 102]
  else if r =? 10 then [92; 110]
  else if r =? 13 then [92; 114]
  else if r =? 9 then [92; 116]
  else if (r <? 32) || (r =? 60) || (r =? 62) || (r =? 38) || (r =? 8232) || (r =? 8233) then u_escape r
  else encode1 r.

(** A malformed byte is written as the escape of [RuneError].  Every round consumes a
    byte. *)
Fixpoint quote_body (fuel : nat) (bs : list Z) : list Z :=
  match fuel, bs with
  | _, [] => []
  | O, _ => []
  | S fuel', _ :: rest =>
      match decode1 bs with
      | Some (r, k) => escape r ++ quote_body fuel' (drop k bs)
      | None => u_escape RuneError ++ quote_body fuel' rest
      end
  end.

Definition quote (s : string) : list Z :=
  34 :: quote_body (length (bytes s)) (bytes s) ++ [34].

Fixpoint commas (ls : list (list Z)) : list Z :=
  match ls with
  | [] => []
  | [l] => l
  | l :: ls' => l ++ 44 :: commas ls'
  end.

Definition Marshal (ss : list string) : string := of_bytes (91 :: commas (quote <$> ss) ++ [93]).

(** ** Reading *)

Definition hex_val (b : Z) : option Z :=
  if (48 <=? b) && (b <=? 57) then Some (b - 48)
  else if (97 <=? b) && (b <=? 102) then Some (b - 87)
  else if (65 <=? b) && (b <=? 70) then Some (b - 55)
  else None.

Definition hex4 (bs : list Z) : option (Z * list Z) :=
  match bs with
  | a :: b :: c :: d :: rest =>
      match hex_val a, hex_val b, hex_val c, hex_val d with
      | Some a, Some b, Some c, Some d => Some (((a * 16 + b) * 16 + c) * 16 + d, rest)
      | _, _, _, _ => None
      end
  | _ => None
  end.

Definition simple_escape (c : Z) : option Z :=
  if (c =? 34) || (c =? 92) || (c =? 47) then Some c
  else if c =? 98 then Some 8
  else if c =? 102 then Some 12
  else if c =? 110 then Some 10
  else if c =? 114 then Some 13
  else if c =? 116 then Some 9
  else None.

Definition surrogate (r : Z) : bool := (55296 <=? r) && (r <? 57344).

(** The code point of a [\u] escape with value [r], and the bytes after it: a surrogate
    takes the escape that follows when the two make a pair, and is [RuneError] alone. *)
Definition u_rune (r : Z) (rest : list Z) : Z * list Z :=
  if surrogate r then
    match rest with
    | 92 :: 117 :: rest' =>
        match hex4 rest' with
        | Some (r2, rest'') =>
            if (r <? 56320) && (56320 <=? r2) && (r2 <? 57344)
            then ((r - 55296) * 1024 + (r2 - 56320) + 65536, rest'')
            else (RuneError, rest)
        | None => (RuneError, rest)
        end
    | _ => (RuneError, rest)
    end
  else (r, rest).

(** The text of a string literal after its opening quote, as bytes, and what follows the
    closing one.  Every round consumes a byte. *)
Fixpoint unquote (fuel : nat) (bs : list Z) : option (list Z * list Z) :=
  match fuel with
  | O => None
  | S fuel' =>
      match bs with
      | [] => None
      | b :: rest =>
          if b =? 34 then Some ([], rest)
          else if b =? 92 then
            match rest with
            | [] => None
            | c :: rest' =>
                match simple_escape c with
                | Some d => '(t, after) ← unquote fuel' rest'; Some (d :: t, after)
                | None =>
                    if c =? 117 then
                      match hex4 rest' with
                      | Some (r, rest'') =>
                          let (r, rest'') := u_rune r rest'' in
                          '(t, after) ← unquote fuel' rest''; Some (encode1 r ++ t, after)
                      | None => None
                      end
                    else None
                end
            end
          else if b <? 32 then None
          else
            match decode1 bs with
            | Some (_, k) => '(t, after) ← unquote fuel' (drop k bs); Some (take k bs ++ t, after)
            | None => '(t, after) ← unquote fuel' rest; Some (encode1 RuneError ++ t, after)
            end
      end
  end.

Definition json_space (b : Z) : bool := (b =? 32) || (b =? 9) || (b =? 10) || (b =? 13).

Fixpoint skip_ws (bs : list Z) : list Z :=
  match bs with
  | b :: rest => if json_space b then skip_ws rest else bs
  | [] => []
  end.

(** [null] leaves the empty string. *)
Definition element (fuel : nat) (bs : list Z) : option (string * list Z) :=
  match bs with
  | 34 :: rest => '(t, after) ← unquote fuel rest; Some (of_bytes t, after)
  | 110 :: 117 :: 108 :: 108 :: rest => Some (EmptyString, rest)
  | _ => None
  end.

(** The elements up to the closing bracket. *)
Fixpoint elements (fuel : nat) (bs : list Z) : option (list string * list Z) :=
  match fuel with
  | O => None
  | S fuel' =>
      '(s, rest) ← element fuel (skip_ws bs);
      match skip_ws rest with
      | 44 :: rest' => '(ss, after) ← elements fuel' rest'; Some (s :: ss, after)
      | 93 :: rest' => Some ([s], rest')
      | _ => None
      end
  end.

Definition parse (bs : list Z) : option (list string) :=
  let fuel := S (length bs) in
  let done r := '(ss, rest) ← r; if bool_decide (skip_ws rest = []) then Some ss else None in
  match skip_ws bs with
  | 91 :: rest =>
      match skip_ws rest with
      | 93 :: rest' => done (Some ([], rest'))
      | _ => done (elements fuel rest)
      end
  | 110 :: 117 :: 108 :: 108 :: rest => done (Some ([], rest))
  | _ => None
  end.

Definition Unmarshal (text : string) : option (list string) := parse (bytes text).
End Json.

Section JsonFacts.
Import GoStrings Json.

Lemma hex_val_digit n : 0 <= n < 16 -> hex_val (hex_digit n) = Some n.
Proof.
  intros Hn. unfold hex_digit. destruct (Z.ltb_spec n 10); unfold hex_val.
  - replace (48 <=? 48 + n) with true by lia. replace (48 + n <=? 57) with true by lia. cbn. f_equal. lia.
  - replace (87 + n <=? 57) with false by lia. rewrite andb_false_r.
    replace (97 <=? 87 + n) with true by lia. replace (87 + n <=? 102) with true by lia. cbn. f_equal. lia.
Qed.

Lemma hex4_u_escape r rest :
  0 <= r < 65536 ->
  hex4 (hex_digit (r / 4096 mod 16) :: hex_digit (r / 256 mod 16) :: hex_digit (r / 16 mod 16) :: hex_digit (r mod 16) :: rest)
  = Some (r, rest).
Proof.
  intros Hr. unfold hex4. rewrite !hex_val_digit by (apply Z.mod_pos_bound; lia). do 2 f_equal.
  replace (r / 4096) with (r / 16 / 16 / 16) by (rewrite !Z.div_div by lia; reflexivity).
  replace (r / 256) with (r / 16 / 16) by (rewrite Z.div_div by lia; reflexivity).
  rewrite (Z.mod_small (r / 16 / 16 / 16)) by (rewrite !Z.div_div by lia; split; [apply Z.div_pos; lia|apply Z.div_lt_upper_bound; lia]).
  pose proof (Z.div_mod r 16). pose proof (Z.div_mod (r / 16) 16). pose proof (Z.div_mod (r / 16 / 16) 16). lia.
Qed.

(** Reading a code point back. *)
Lemma unquote_escape fuel r rest :
  scalar r ->
  unquote (S fuel) (escape r ++ rest) = '(t, after) ← unquote fuel rest; Some (encode1 r ++ t, after).
Proof.
  intros Hs. unfold escape.
  destruct (Z.eqb_spec r 34); [subst; reflexivity|]. destruct (Z.eqb_spec r 92); [subst; reflexivity|].
  destruct (Z.eqb_spec r 8); [subst; reflexivity|]. destruct (Z.eqb_spec r 12); [subst; reflexivity|].
  destruct (Z.eqb_spec r 10); [subst; reflexivity|]. destruct (Z.eqb_spec r 13); [subst; reflexivity|].
  destruct (Z.eqb_spec r 9); [subst; reflexivity|].
  destruct (_ || _) eqn:Hu.
  - assert (0 <= r < 55296) as Hr by (unfold scalar in Hs; repeat rewrite orb_true_iff in Hu; lia).
    unfold u_escape. cbn [app unquote]. cbn [Z.eqb Pos.eqb simple_escape orb].
    rewrite hex4_u_escape by lia. unfold u_rune, surrogate. replace (55296 <=? r) with false by lia. reflexivity.
  - repeat rewrite orb_false_iff in Hu. destruct Hu as [[[[[H1 _] _] _] _] _].
    pose proof (decode1_encode1 r rest Hs) as Hd.
    assert (forall b l, encode1 r = b :: l -> b <> 34 /\ b <> 92 /\ 32 <= b) as Hb.
    { intros b l. unfold scalar in Hs. unfold encode1.
      destruct (Z.ltb_spec r 128); [|destruct (Z.ltb_spec r 2048); [|destruct (Z.ltb_spec r 65536)]]; intros [= <- <-]; lia. }
    destruct (encode1 r) as [|b l] eqn:He; [unfold encode1 in He; repeat case_match; done|].
    destruct (Hb b l eq_refl) as (H2 & H3 & H4). cbn [app unquote] in *.
    replace (b =? 34) with false by lia. replace (b =? 92) with false by lia. replace (b <? 32) with false by lia.
    rewrite Hd. change (b :: l ++ rest) with ((b :: l) ++ rest). by rewrite take_app_length, drop_app_length.
Qed.

Lemma escape_ne r : escape r <> [].
Proof. unfold escape, u_escape, encode1. repeat case_match; done. Qed.

Ltac settle_cmp :=
  repeat match goal with
  | |- context [?a <? ?b] => destruct (Z.ltb_spec a b); try lia
  end; cbn.

(** A well-formed encoding is the encoding of its code point. *)
Lemma decode1_inv bs r k :
  Forall is_byte bs -> decode1 bs = Some (r, k) -> take k bs = encode1 r.
Proof.
  intros Hb. unfold decode1, cont. destruct bs as [|b0 bs]; [done|].
  apply Forall_cons in Hb as [H0 Hb]. unfold is_byte in H0.
  destruct (Z.ltb_spec b0 128).
  { intros [= <- <-]. unfold encode1. replace (b0 <? 128) with true by lia. done. }
  destruct ((194 <=? b0) && (b0 <=? 223)) eqn:E1.
  { destruct bs as [|b1 bs]; [done|]. apply Forall_cons in Hb as [H1 Hb]. unfold is_byte in H1.
    destruct ((128 <=? b1) && (b1 <=? 191)) eqn:E2; [|done]. intros [= <- <-]. bool_to_prop. unfold encode1.
    settle_cmp. f_equal; [lia|f_equal; lia]. }
  destruct ((224 <=? b0) && (b0 <=? 239)) eqn:E2.
  { destruct bs as [|b1 [|b2 bs]]; [done|done|]. apply Forall_cons in Hb as [H1 Hb]. apply Forall_cons in Hb as [H2 Hb].
    unfold is_byte in H1, H2. case_match eqn:E3; [|done]. intros [= <- <-]. bool_to_prop.
    destruct (Z.eqb_spec b0 224), (Z.eqb_spec b0 237); try lia; unfold encode1; settle_cmp; (f_equal; [lia|f_equal; [lia|f_equal; lia]]). }
  case_match eqn:E3; [|done].
  destruct bs as [|b1 [|b2 [|b3 bs]]]; [done|done|done|]. apply Forall_cons in Hb as [H1 Hb]. apply Forall_cons in Hb as [H2 Hb].
  apply Forall_cons in Hb as [H3 Hb]. unfold is_byte in H1, H2, H3. case_match eqn:E4; [|done]. intros [= <- <-]. bool_to_prop.
  destruct (Z.eqb_spec b0 240), (Z.eqb_spec b0 244); try lia; unfold encode1; settle_cmp;
    (f_equal; [lia|f_equal; [lia|f_equal; [lia|f_equal; lia]]]).
Qed.

(** A literal of well-formed text reads back. *)
Lemma unquote_body n : forall bs fuel rest,
  Forall is_byte bs -> (decode_all n bs).2 = true -> (n < fuel)%nat ->
  unquote fuel (quote_body n bs ++ 34 :: rest) = Some (bs, rest).
Proof.
  induction n as [|n IH]; intros bs fuel rest Hb Hv Hf; (destruct fuel as [|fuel]; [lia|]).
  - destruct bs; [reflexivity|discriminate Hv].
  - destruct bs as [|b bs]; [reflexivity|]. cbn [quote_body decode_all] in *.
    destruct (decode1 (b :: bs)) as [[r k]|] eqn:E.
    + pose proof (decode1_scalar _ _ _ Hb E) as [Hs Hk]. pose proof (decode1_inv _ _ _ Hb E) as Ht.
      rewrite <- app_assoc, unquote_escape by done.
      destruct (decode_all n (drop k (b :: bs))) as [rs ok] eqn:Ed. cbn [snd] in Hv.
      rewrite (IH (drop k (b :: bs)) fuel rest); [|by apply Forall_drop|by rewrite Ed|lia].
      cbn [mbind option_bind]. by rewrite <- Ht, take_drop.
    + destruct (decode_all n bs). discriminate Hv.
Qed.

Lemma hex_digit_byte n : 0 <= n < 16 -> is_byte (hex_digit n).
Proof. intros Hn. unfold hex_digit, is_byte. destruct (Z.ltb_spec n 10); lia. Qed.

Lemma escape_bytes r : scalar r -> Forall is_byte (escape r).
Proof.
  intros Hs. unfold escape. repeat case_match; try (by repeat constructor); [|by apply encode1_bytes].
  unfold u_escape. repeat constructor; try apply hex_digit_byte; lia.
Qed.

Lemma quote_body_bytes n : forall bs, Forall is_byte bs -> Forall is_byte (quote_body n bs).
Proof.
  induction n as [|n IH]; intros bs Hb; destruct bs as [|b bs]; try apply Forall_nil_2. cbn [quote_body].
  destruct (decode1 (b :: bs)) as [[r k]|] eqn:E.
  - apply Forall_app. split; [apply escape_bytes, (decode1_scalar _ _ _ Hb E)|]. by apply IH, Forall_drop.
  - apply Forall_app. split; [by repeat constructor|]. apply IH. by apply Forall_cons in Hb as [_ Hb].
Qed.

Lemma quote_bytes s : Forall is_byte (quote s).
Proof.
  unfold quote. apply Forall_cons. split; [done|]. apply Forall_app. split; [|by repeat constructor].
  apply quote_body_bytes, bytes_range.
Qed.

Lemma commas_bytes ls : Forall (Forall is_byte) ls -> Forall is_byte (commas ls).
Proof.
  induction 1 as [|l ls Hl Hls IH]; [done|]. destruct ls as [|l' ls]; [done|].
  change (commas (l :: l' :: ls)) with (l ++ 44 :: commas (l' :: ls)).
  apply Forall_app. split; [done|]. apply Forall_cons. by split.
Qed.

Lemma of_bytes_bytes s : of_bytes (bytes s) = s.
Proof.
  unfold of_bytes, bytes. rewrite <- list_fmap_compose. rewrite <- (String.string_of_list_ascii_of_string s) at 2. f_equal.
  rewrite <- (list_fmap_id (String.list_ascii_of_string s)) at 2. apply list_fmap_ext. intros i c _.
  unfold compose, ascii_of, byte_of. rewrite Nat2Z.id. apply Ascii.ascii_nat_embedding.
Qed.

(** A quoted string reads back, for any text after it. *)
Lemma element_quote fuel s rest :
  ValidString s = true -> (length (bytes s) < fuel)%nat -> element fuel (quote s ++ rest) = Some (s, rest).
Proof.
  intros Hv Hf. unfold quote. cbn [app element]. rewrite <- app_assoc. cbn [app].
  rewrite unquote_body; [|apply bytes_range|done|done]. cbn [mbind option_bind]. by rewrite of_bytes_bytes.
Qed.

Lemma skip_ws_quote s rest : skip_ws (quote s ++ rest) = quote s ++ rest.
Proof. reflexivity. Qed.

(** The elements of a marshalled array, given fuel for each. *)
Lemma elements_commas ss : forall fuel rest,
  ss <> [] -> Forall (fun s => ValidString s = true) ss ->
  (length ss + foldr (fun s n => length (bytes s) + n) 0 ss <= fuel)%nat ->
  elements fuel (commas (quote <$> ss) ++ 93 :: rest) = Some (ss, rest).
Proof.
  induction ss as [|s ss IH]; intros fuel rest Hne Hv Hf; [done|].
  apply Forall_cons in Hv as [Hs Hv]. cbn in Hf. destruct fuel as [|fuel]; [lia|].
  destruct ss as [|s' ss].
  - cbn [fmap list_fmap commas elements]. rewrite skip_ws_quote, element_quote by (done || cbn in Hf; lia). reflexivity.
  - cbn [fmap list_fmap]. change (commas (quote s :: quote s' :: (quote <$> ss))) with (quote s ++ 44 :: commas (quote <$> (s' :: ss))).
    cbn [elements]. rewrite <- app_assoc, skip_ws_quote, element_quote by (done || lia). cbn [mbind option_bind app].
    cbn [skip_ws json_space Z.eqb Pos.eqb orb]. rewrite IH by (done || cbn in *; lia). reflexivity.
Qed.

Lemma quote_length s : ValidString s = true -> (length (bytes s) < length (quote s))%nat.
Proof.
  intros Hv. unfold quote. cbn [length]. rewrite length_app. cbn [length].
  assert (forall n bs, (decode_all n bs).2 = true -> Forall is_byte bs -> (length bs <= length (quote_body n bs))%nat) as H.
  { induction n as [|n IH]; intros bs Hd Hb; destruct bs as [|b bs]; try (cbn; lia); [discriminate Hd|].
    cbn [quote_body decode_all] in *. destruct (decode1 (b :: bs)) as [[r k]|] eqn:E; [|by destruct (decode_all n bs)].
    destruct (decode_all n (drop k (b :: bs))) as [rs ok] eqn:Ed. cbn [snd] in Hd.
    pose proof (decode1_inv _ _ _ Hb E) as Ht. pose proof (decode1_scalar _ _ _ Hb E) as [Hs Hk].
    rewrite length_app. specialize (IH (drop k (b :: bs))). rewrite Ed in IH. specialize (IH Hd (Forall_drop _ _ _ Hb)).
    rewrite length_drop in IH.
    assert (k <= length (escape r))%nat; [|lia].
    assert (length (encode1 r) = k) as <- by (rewrite <- Ht, length_take; lia).
    unfold escape, encode1, u_escape. repeat case_match; cbn; lia. }
  specialize (H (length (bytes s)) (bytes s) Hv (bytes_range s)). lia.
Qed.

Lemma commas_length ss :
  Forall (fun s => ValidString s = true) ss ->
  (length ss + foldr (fun s n => length (bytes s) + n) 0 ss <= length (commas (quote <$> ss)) + 1)%nat.
Proof.
  induction 1 as [|s ss Hs Hv IH]; [cbn; lia|]. pose proof (quote_length s Hs).
  destruct ss as [|s' ss]; [cbn in *; lia|].
  cbn [fmap list_fmap] in *. change (commas (quote s :: quote s' :: (quote <$> ss))) with (quote s ++ 44 :: commas (quote s' :: (quote <$> ss))).
  rewrite length_app. cbn [length foldr] in *. lia.
Qed.

(** A marshalled array of well-formed strings unmarshals to itself. *)
Lemma Unmarshal_Marshal ss : Forall (fun s => ValidString s = true) ss -> Unmarshal (Marshal ss) = Some ss.
Proof.
  intros Hv. unfold Unmarshal, Marshal. rewrite bytes_of_bytes.
  2: { apply Forall_cons. split; [done|]. apply Forall_app. split; [|by repeat constructor].
       apply commas_bytes, Forall_fmap, Forall_true. intros s. apply quote_bytes. }
  unfold parse. cbn [skip_ws json_space Z.eqb Pos.eqb orb].
  destruct ss as [|s ss]; [reflexivity|].
  assert (exists l, commas (quote <$> s :: ss) = 34 :: l) as [l Hl].
  { destruct ss; cbn [fmap list_fmap commas]; unfold quote; cbn [app]; eauto. }
  rewrite Hl. cbn [app skip_ws json_space Z.eqb Pos.eqb orb]. change (34 :: l ++ [93]) with ((34 :: l) ++ [93]). rewrite <- Hl.
  rewrite elements_commas; [|done|done|].
  - cbn [mbind option_bind]. by rewrite bool_decide_true.
  - pose proof (commas_length (s :: ss) Hv). cbn [length]. rewrite length_app. cbn [length] in *. lia.
Qed.
End JsonFacts.
