(* ===== verification/Redemption.v ===== *)
(** * Redemption codes and plan grants

    Model of the money that enters a user's balance without the platform wallet:
    internal/adapter/repo/redemption.go (codes and their redemption),
    internal/adapter/repo/provisioned_redemption.go (batches of codes minted for a
    distributor), the handlers that create, edit and prune codes
    (internal/adapter/handler/redemption.go, v2_redemption.go, redemption_status.go) and
    internal/adapter/handler/v2_plan_grant.go with internal/adapter/repo/
    plan_quota_grant.go (the quota a bought plan adds).

    Balances are those of the [Ledger].  The row lock a redemption takes makes its
    transaction atomic; every statement may fail.  Generated codes, the platform's
    verification of an entitlement token and the tenant looked up from the path are
    arguments.  Audit rows, log lines and the Redis copy of the balance are left out. *)

From S2P Require Import Prelude GoStrings Json Ledger.

Module Redemption.
Import GoStrings Json Ledger.

(** ** Rows *)

Definition RedemptionCodeStatusEnabled : Z := 1.
Definition RedemptionCodeStatusDisabled : Z := 2.
Definition RedemptionCodeStatusUsed : Z := 3.

Record Redemption := mkRedemption {
  r_Id : Z;
  r_UserId : Z;
  r_TenantId : string;
  r_Key : string;
  r_Status : Z;
  r_Name : string;
  r_Quota : Z;
  r_CreatedTime : Z;
  r_RedeemedTime : Z;
  r_UsedUserId : Z;
  r_ExpiredTime : Z;
  r_Deleted : bool
}.

Record ProvisionedRedemptionBatch := mkBatch {
  b_ID : Z;
  b_EventID : string;
  b_TenantID : string;
  b_BatchSize : Z;
  b_QuotaPerCode : Z;
  b_Source : string;
  b_Codes : string;
  b_CreatedAt : Z
}.

Record PlanQuotaGrant := mkGrant {
  g_Id : Z;
  g_TenantId : string;
  g_AccountId : Z;
  g_UserId : Z;
  g_GrantKey : string;
  g_PlanCode : string;
  g_Amount : Z;
  g_CreatedAt : Z
}.

(** The columns of [users] next to those of the [Ledger]. *)
Record profile := mkProfile {
  p_TenantId : string;
  p_LurusAccountID : option Z;
  p_Status : Z
}.

Record creditdb := mkCredit {
  ledger : ledgerdb;
  profiles : gmap Z profile;
  redemptions : list Redemption;
  batches : list ProvisionedRedemptionBatch;
  grants : list PlanQuotaGrant;
  seq_redemption : Z;
  seq_batch : Z;
  seq_grant : Z
}.

Definition set_ledger (l : ledgerdb) (db : creditdb) : creditdb :=
  mkCredit l (profiles db) (redemptions db) (batches db) (grants db) (seq_redemption db) (seq_batch db) (seq_grant db).
Definition set_redemptions (rs : list Redemption) (db : creditdb) : creditdb :=
  mkCredit (ledger db) (profiles db) rs (batches db) (grants db) (seq_redemption db) (seq_batch db) (seq_grant db).
Definition set_grants (gs : list PlanQuotaGrant) (db : creditdb) : creditdb :=
  mkCredit (ledger db) (profiles db) (redemptions db) (batches db) gs (seq_redemption db) (seq_batch db) (seq_grant db).

Inductive credit_err :=
| ErrNoCode                     (* no code given *)
| ErrNoUser                     (* user id 0 *)
| ErrRedemptionInvalid
| ErrRedemptionUsed
| ErrRedemptionExpired
| ErrRedemptionUserNotFound
| ErrRedemptionWrongTenant
| ErrRedemptionFailed
| ErrRedemptionWalletLedger
| ErrIdRequired
| ErrTenantRequired
| ErrCreditNotFound             (* gorm.ErrRecordNotFound *)
| ErrCreditUnique               (* a unique index *)
| ErrCreditDB                   (* the driver *)
| ErrBatchArgs
| ErrBatchDecode
| ErrRedemptionBatchExists
| ErrRedemptionBatchNotFound
| ErrPlanQuotaGrantExists.

#[global] Instance credit_err_eq : EqDecision credit_err.
Proof. solve_decision. Defined.
#[global] Instance credit_err_db : DbError credit_err := ErrCreditDB.

Abbreviation R A := (M creditdb credit_err A).

(** A computation on the ledger's tables; its errors are the driver's. *)
Definition on_ledger {A} (m : L A) : R A :=
  fun s =>
    let (r, s') := m (mkStore (ledger (tables s)) (faults s)) in
    (match r with Ok a => Ok a | Err _ => Err ErrCreditDB end,
     mkStore (set_ledger (tables s') (tables s)) (faults s')).

(** ** Redeeming *)

Definition knownRedemptionErrors : list credit_err :=
  [ErrRedemptionInvalid; ErrRedemptionUsed; ErrRedemptionExpired; ErrRedemptionUserNotFound;
   ErrRedemptionWrongTenant; ErrRedemptionFailed; ErrRedemptionWalletLedger].

Definition redeemKnownError (e : credit_err) : bool :=
  existsb (fun sentinel => bool_decide (e = sentinel)) knownRedemptionErrors.

Definition RedemptionErrorCode (e : credit_err) : string :=
  match e with
  | ErrRedemptionInvalid => "REDEMPTION_INVALID"
  | ErrRedemptionUsed => "REDEMPTION_USED"
  | ErrRedemptionExpired => "REDEMPTION_EXPIRED"
  | ErrRedemptionWrongTenant => "REDEMPTION_TENANT_MISMATCH"
  | ErrRedemptionWalletLedger => "WALLET_IS_LEDGER"
  | _ => "REDEMPTION_FAILED"
  end.

Definition redemptionFailureStatus (e : credit_err) (userStatus : Z) : Z :=
  if String.eqb (RedemptionErrorCode e) "REDEMPTION_FAILED" then 500
  else if String.eqb (RedemptionErrorCode e) "WALLET_IS_LEDGER" then 409
  else userStatus.

(** The billing switches. *)
Record billing := mkBilling {
  BillingUnifiedEnabled : bool;
  LocalLedgerAdvisory : bool;
  TenantWalletAuthoritative : string -> bool
}.

Definition WalletIsLedger (b : billing) (tenantID : string) : bool :=
  if negb (BillingUnifiedEnabled b) then false
  else LocalLedgerAdvisory b || TenantWalletAuthoritative b tenantID.

Definition by_key (key : string) (r : Redemption) : bool := String.eqb (r_Key r) key && negb (r_Deleted r).
Definition by_id (id : Z) (r : Redemption) : bool := (r_Id r =? id) && negb (r_Deleted r).

(** [SELECT ... FROM users WHERE id = ?]. *)
Definition user_profile (id : Z) (db : creditdb) : option profile :=
  _ ← first_where (user_is id) (users (ledger db)); profiles db !! id.

(** [Save]: every column of the row, which the transaction holds locked. *)
Definition save_redemption (r : Redemption) : R unit :=
  stmt (fun db => Ok (tt, set_redemptions (update_where (by_id (r_Id r)) (fun _ => r) (redemptions db)) db)).

Definition mark_used (userId now : Z) (r : Redemption) : Redemption :=
  mkRedemption (r_Id r) (r_UserId r) (r_TenantId r) (r_Key r) RedemptionCodeStatusUsed (r_Name r) (r_Quota r)
    (r_CreatedTime r) now userId (r_ExpiredTime r) (r_Deleted r).

Definition linked (p : profile) : bool :=
  match p_LurusAccountID p with Some a => a >? 0 | None => false end.

(** The transaction of [Redeem], from the locked row on; [now] is the clock at the expiry
    check and [later] when the code is stamped. *)
Definition redeem_row (b : billing) (r : Redemption) (userId now later : Z) : R Z :=
  if negb (r_Status r =? RedemptionCodeStatusEnabled) then throw ErrRedemptionUsed
  else if negb (r_ExpiredTime r =? 0) && (r_ExpiredTime r <? now) then throw ErrRedemptionExpired
  else
    try! u := query (user_profile userId) in
    match u with
    | Ok (Some p) =>
        if negb (String.eqb (p_TenantId p) (r_TenantId r)) then throw ErrRedemptionWrongTenant
        else if linked p && WalletIsLedger b (p_TenantId p) then throw ErrRedemptionWalletLedger
        else
          let! _ := on_ledger (update_users (user_is userId) (r_Quota r)) in
          let! _ := save_redemption (mark_used userId later r) in
          ret (r_Quota r)
    | _ => throw ErrRedemptionUserNotFound
    end.

Definition redeem_tx (b : billing) (key : string) (userId now later : Z) : R Z :=
  transaction (
    try! found := query (fun db => first_where (by_key key) (redemptions db)) in
    match found with
    | Ok (Some r) => redeem_row b r userId now later
    | _ => throw ErrRedemptionInvalid
    end).

Definition Redeem (b : billing) (key : string) (userId now later : Z) : R Z :=
  if String.eqb key "" then throw ErrNoCode
  else if userId =? 0 then throw ErrNoUser
  else
    try! r := redeem_tx b key userId now later in
    match r with
    | Ok quota => ret quota
    | Err e => if redeemKnownError e then throw e else throw ErrRedemptionFailed
    end.

(** The answer of [RedeemCodeV2]: the status, and the quota added or the error code. *)
Definition RedeemCodeV2 (b : billing) (key code : string) (userId now later : Z) : R (Z * (Z + string)) :=
  let redeemCode := if String.eqb key "" then code else key in
  if String.eqb redeemCode "" then ret (400, inr "")
  else if negb (String.length redeemCode =? 32)%nat then ret (400, inr "")
  else
    try! r := Redeem b redeemCode userId now later in
    match r with
    | Ok quota => ret (200, inl quota)
    | Err e => ret (redemptionFailureStatus e 400, inr (RedemptionErrorCode e))
    end.

(** ** Codes *)

(** gorm leaves a zero value of a column with a default to the database. *)
Definition with_defaults (r : Redemption) : Redemption :=
  mkRedemption (r_Id r) (r_UserId r) (r_TenantId r) (r_Key r)
    (if r_Status r =? 0 then 1 else r_Status r) (r_Name r) (if r_Quota r =? 0 then 100 else r_Quota r)
    (r_CreatedTime r) (r_RedeemedTime r) (r_UsedUserId r) (r_ExpiredTime r) (r_Deleted r).

Definition set_id (id : Z) (r : Redemption) : Redemption :=
  mkRedemption id (r_UserId r) (r_TenantId r) (r_Key r) (r_Status r) (r_Name r) (r_Quota r)
    (r_CreatedTime r) (r_RedeemedTime r) (r_UsedUserId r) (r_ExpiredTime r) (r_Deleted r).

(** [INSERT INTO redemptions]: the unique index on key spans deleted rows. *)
Definition insert_redemption (r : Redemption) : R Z :=
  stmt (fun db =>
    if negb (pg_text_ok 32 (r_Key r) && pg_text_ok 36 (r_TenantId r)) then Err ErrCreditDB
    else if existsb (fun x => String.eqb (r_Key x) (r_Key r)) (redemptions db) then Err ErrCreditUnique
    else
      let id := seq_redemption db in
      Ok (id, mkCredit (ledger db) (profiles db) (redemptions db ++ [set_id id (with_defaults r)]) (batches db)
                (grants db) (id + 1) (seq_batch db) (seq_grant db))).

(** The tenant plugin refuses a row without a tenant. *)
Definition RedemptionInsert (r : Redemption) : R Z :=
  if String.eqb (r_TenantId r) "" then throw ErrTenantRequired else insert_redemption r.

Definition GetRedemptionById (id : Z) : R Redemption :=
  if id =? 0 then throw ErrIdRequired
  else
    let! r := query (fun db => first_where (by_id id) (redemptions db)) in
    match r with Some r => ret r | None => throw ErrCreditNotFound end.

(** The columns [RedemptionUpdate] selects, zero values included. *)
Definition RedemptionUpdate (r : Redemption) : R unit :=
  stmt (fun db => Ok (tt, set_redemptions (update_where (by_id (r_Id r)) (fun x =>
    mkRedemption (r_Id x) (r_UserId x) (r_TenantId x) (r_Key x) (r_Status r) (r_Name r) (r_Quota r)
      (r_CreatedTime x) (r_RedeemedTime r) (r_UsedUserId x) (r_ExpiredTime r) (r_Deleted x)) (redemptions db)) db)).

Definition mark_deleted (r : Redemption) : Redemption :=
  mkRedemption (r_Id r) (r_UserId r) (r_TenantId r) (r_Key r) (r_Status r) (r_Name r) (r_Quota r)
    (r_CreatedTime r) (r_RedeemedTime r) (r_UsedUserId r) (r_ExpiredTime r) true.

(** A soft delete: rows affected. *)
Definition delete_redemptions (cond : Redemption -> bool) : R nat :=
  stmt (fun db =>
    let cond r := cond r && negb (r_Deleted r) in
    Ok (affected cond (redemptions db), set_redemptions (update_where cond mark_deleted (redemptions db)) db)).

Definition RedemptionDelete (r : Redemption) : R unit :=
  let! _ := delete_redemptions (fun x => r_Id x =? r_Id r) in ret tt.

Definition DeleteRedemptionById (id : Z) : R unit :=
  let! r := GetRedemptionById id in RedemptionDelete r.

(** Used, disabled or expired. *)
Definition invalid_row (now : Z) (r : Redemption) : bool :=
  (r_Status r =? RedemptionCodeStatusUsed) || (r_Status r =? RedemptionCodeStatusDisabled) ||
  ((r_Status r =? RedemptionCodeStatusEnabled) && negb (r_ExpiredTime r =? 0) && (r_ExpiredTime r <? now)).

Definition DeleteInvalidRedemptions (now : Z) : R nat := delete_redemptions (invalid_row now).

Definition DeleteInvalidRedemptionsByTenant (tenantID : string) (now : Z) : R nat :=
  delete_redemptions (fun r => String.eqb (r_TenantId r) tenantID && invalid_row now r).

(** *** Handlers *)

(** Who is asking. *)
Record caller := mkCaller { c_id : Z; c_role : Z; c_tenant : string }.
Definition RoleRootUser : Z := 100.

(** [true] when the request was refused. *)
Definition enforceTenantScope (c : caller) (resourceTenantID : string) : bool :=
  if c_role c >=? RoleRootUser then false else negb (String.eqb resourceTenantID (c_tenant c)).

Definition validateExpiredTime (expired now : Z) : bool := (expired =? 0) || negb (expired <? now).

(** The codes created, and whether all of them were. *)
Fixpoint add_codes (keys : list string) (mk : string -> Redemption) : R (list string * bool) :=
  match keys with
  | [] => ret ([], true)
  | key :: keys' =>
      try! ins := RedemptionInsert (mk key) in
      match ins with
      | Err _ => ret ([], false)
      | Ok _ => let! r := add_codes keys' mk in ret (key :: r.1, r.2)
      end
  end.

(** [uuids] are the keys generated; [None] is a refusal before any insert. *)
Definition AddRedemption (c : caller) (name : string) (count quota expired now : Z) (uuids : list string)
    : R (option (list string * bool)) :=
  if (RuneCountInString name =? 0)%nat || (20 <? RuneCountInString name)%nat then ret None
  else if count <=? 0 then ret None
  else if count >? 100 then ret None
  else if negb (validateExpiredTime expired now) then ret None
  else
    let tenantId := if String.eqb (c_tenant c) "" then "default" else c_tenant c in
    let! r := add_codes (take (Z.to_nat count) uuids)
      (fun key => mkRedemption 0 (c_id c) tenantId key 0 name quota now 0 0 expired false) in
    ret (Some r).

(** The console's form goes on after a failed insert. *)
Fixpoint create_codes (keys : list string) (mk : string -> Redemption) : R (list string) :=
  match keys with
  | [] => ret []
  | key :: keys' =>
      try! ins := RedemptionInsert (mk key) in
      let! ks := create_codes keys' mk in
      ret (match ins with Ok _ => key :: ks | Err _ => ks end)
  end.

Definition CreateRedemptionV2 (c : caller) (staff : bool) (name : string) (quota count expired maxQuota now : Z)
    (keys : list string) : R (option (list string)) :=
  if negb staff then ret None
  else if String.eqb name "" || (quota <? 1) || (count <? 1) || (count >? 100) then ret None
  else if (50 <? String.length name)%nat then ret None
  else if quota >? maxQuota then ret None
  else if negb (expired =? 0) && (expired <? now) then ret None
  else
    let! created := create_codes (take (Z.to_nat count) keys)
      (fun key => mkRedemption 0 (c_id c) (c_tenant c) key RedemptionCodeStatusEnabled name quota now 0 0 expired false) in
    ret (if (length created =? 0)%nat then None else Some created).

(** The fields of an edit. *)
Record edit := mkEdit { d_id : Z; d_name : string; d_quota : Z; d_expired : Z; d_status : Z }.

(** The row [UpdateRedemption] writes, from the row it read; [None] when it refuses. *)
Definition edited (statusOnly : bool) (d : edit) (now : Z) (clean : Redemption) : option Redemption :=
  if negb statusOnly then
    if negb (validateExpiredTime (d_expired d) now) then None
    else Some (mkRedemption (r_Id clean) (r_UserId clean) (r_TenantId clean) (r_Key clean) (r_Status clean) (d_name d) (d_quota d)
                 (r_CreatedTime clean) (r_RedeemedTime clean) (r_UsedUserId clean) (d_expired d) (r_Deleted clean))
  else if r_Status clean =? RedemptionCodeStatusUsed then None
  else if negb (d_status d =? RedemptionCodeStatusEnabled) && negb (d_status d =? RedemptionCodeStatusDisabled) then None
  else Some (mkRedemption (r_Id clean) (r_UserId clean) (r_TenantId clean) (r_Key clean) (d_status d) (r_Name clean) (r_Quota clean)
               (r_CreatedTime clean) (r_RedeemedTime clean) (r_UsedUserId clean) (r_ExpiredTime clean) (r_Deleted clean)).

(** An edit reads the row, changes it in memory and later writes it back; [None] when it
    is refused. *)
Definition UpdateRedemption_read (c : caller) (statusOnly : bool) (d : edit) (now : Z) : R (option Redemption) :=
  let! clean := GetRedemptionById (d_id d) in
  ret (if enforceTenantScope c (r_TenantId clean) then None else edited statusOnly d now clean).

(** Whether the edit was written. *)
Definition UpdateRedemption (c : caller) (statusOnly : bool) (d : edit) (now : Z) : R bool :=
  let! r := UpdateRedemption_read c statusOnly d now in
  match r with
  | None => ret false
  | Some r => let! _ := RedemptionUpdate r in ret true
  end.

Definition DeleteRedemption (c : caller) (id : Z) : R bool :=
  let! existing := GetRedemptionById id in
  if enforceTenantScope c (r_TenantId existing) then ret false
  else let! _ := DeleteRedemptionById id in ret true.

Definition DeleteRedemptionV2 (c : caller) (staff : bool) (id : Z) : R bool :=
  if negb staff then ret false
  else
    let! existing := GetRedemptionById id in
    if negb (String.eqb (r_TenantId existing) (c_tenant c)) then ret false
    else let! _ := RedemptionDelete existing in ret true.

Definition DeleteInvalidRedemption (c : caller) (now : Z) : R nat :=
  if c_role c >=? RoleRootUser then DeleteInvalidRedemptions now
  else DeleteInvalidRedemptionsByTenant (c_tenant c) now.

(** ** Batches for a distributor *)

Definition decodeBatchCodes (raw : string) : R (list string) :=
  match Unmarshal raw with Some codes => ret codes | None => throw ErrBatchDecode end.

Definition by_batch_event (eventID : string) (b : ProvisionedRedemptionBatch) : bool := String.eqb (b_EventID b) eventID.

(** [INSERT INTO provisioned_redemption_batches], unique on event_id. *)
Definition insert_batch (eventID tenantID : string) (count quotaPerCode : Z) (source codes : string) (now : Z)
    : R ProvisionedRedemptionBatch :=
  stmt (fun db =>
    if negb (pg_text_ok 128 eventID && pg_text_ok 36 tenantID && pg_text_ok 64 source) then Err ErrCreditDB
    else if existsb (by_batch_event eventID) (batches db) then Err ErrCreditUnique
    else
      let b := mkBatch (seq_batch db) eventID tenantID count quotaPerCode source codes now in
      Ok (b, mkCredit (ledger db) (profiles db) (redemptions db) (batches db ++ [b]) (grants db)
               (seq_redemption db) (seq_batch db + 1) (seq_grant db))).

(** The rows of a batch, numbered from [n]. *)
Fixpoint insert_codes (codes : list string) (n : Z) (mk : Z -> string -> Redemption) : R unit :=
  match codes with
  | [] => ret tt
  | key :: codes' => let! _ := insert_redemption (mk n key) in insert_codes codes' (n + 1) mk
  end.

Definition batch_row (tenantID namePrefix : string) (quotaPerCode expiredTime creatorUserID now n : Z) (key : string) : Redemption :=
  mkRedemption 0 creatorUserID tenantID key RedemptionCodeStatusEnabled (namePrefix +:+ "-" +:+ Itoa n) quotaPerCode
    now 0 0 expiredTime false.

Definition provision_tx (tenantID eventID : string) (codes : list string) (quotaPerCode : Z) (namePrefix : string)
    (expiredTime : Z) (source : string) (creatorUserID now : Z) : R ProvisionedRedemptionBatch :=
  transaction (
    try! ins := insert_batch eventID tenantID (Z.of_nat (length codes)) quotaPerCode source (Marshal codes) now in
    match ins with
    | Err ErrCreditUnique => throw ErrRedemptionBatchExists
    | Err e => throw e
    | Ok batch =>
        let! _ := insert_codes codes 1 (batch_row tenantID namePrefix quotaPerCode expiredTime creatorUserID now) in
        ret batch
    end).

Definition find_batch (cond : ProvisionedRedemptionBatch -> bool) : R (option ProvisionedRedemptionBatch) :=
  query (fun db => first_where cond (batches db)).

(** A batch with its codes, and whether it is a replay. *)
Definition ProvisionRedemptionBatchIdempotent (tenantID eventID : string) (count quotaPerCode : Z) (namePrefix : string)
    (expiredTime : Z) (source : string) (creatorUserID now : Z) (uuids : list string)
    : R (ProvisionedRedemptionBatch * list string * bool) :=
  if String.eqb eventID "" then throw ErrBatchArgs
  else if count <=? 0 then throw ErrBatchArgs
  else if quotaPerCode <=? 0 then throw ErrBatchArgs
  else
    try! existing := find_batch (by_batch_event eventID) in
    match existing with
    | Ok (Some b) => let! codes := decodeBatchCodes (b_Codes b) in ret (b, codes, true)
    | _ =>
        let codes := take (Z.to_nat count) uuids in
        try! tx := provision_tx tenantID eventID codes quotaPerCode namePrefix expiredTime source creatorUserID now in
        match tx with
        | Ok batch => ret (batch, codes, false)
        | Err ErrRedemptionBatchExists =>
            let! race := find_batch (by_batch_event eventID) in
            match race with
            | Some b => let! codes := decodeBatchCodes (b_Codes b) in ret (b, codes, true)
            | None => throw ErrCreditNotFound
            end
        | Err e => throw e
        end
    end.

Definition mark_disabled (r : Redemption) : Redemption :=
  mkRedemption (r_Id r) (r_UserId r) (r_TenantId r) (r_Key r) RedemptionCodeStatusDisabled (r_Name r) (r_Quota r)
    (r_CreatedTime r) (r_RedeemedTime r) (r_UsedUserId r) (r_ExpiredTime r) (r_Deleted r).

Definition revocable (tenantID : string) (codes : list string) (r : Redemption) : bool :=
  String.eqb (r_TenantId r) tenantID && existsb (String.eqb (r_Key r)) codes &&
  (r_Status r =? RedemptionCodeStatusEnabled) && negb (r_Deleted r).

Definition RevokeProvisionedRedemptionBatch (tenantID eventID : string) : R nat :=
  if String.eqb eventID "" then throw ErrBatchArgs
  else
    let! b := find_batch (fun b => by_batch_event eventID b && String.eqb (b_TenantID b) tenantID) in
    match b with
    | None => throw ErrRedemptionBatchNotFound
    | Some b =>
        let! codes := decodeBatchCodes (b_Codes b) in
        if (length codes =? 0)%nat then ret 0%nat
        else stmt (fun db =>
          Ok (affected (revocable tenantID codes) (redemptions db),
              set_redemptions (update_where (revocable tenantID codes) mark_disabled (redemptions db)) db))
    end.

(** ** Plan grants *)

Definition planGrantKeyMaxLen : nat := 128.
Definition planGrantPlanCodeMaxLen : nat := 64.
Definition eligiblePlanPrefix : string := "cc_".
Definition UserStatusEnabled : Z := 1.

Definition InsertPlanQuotaGrant (tenantID : string) (accountID userID : Z) (grantKey planCode : string) (amount now : Z)
    : R PlanQuotaGrant :=
  try! r := stmt (fun db =>
    if negb (pg_text_ok 36 tenantID && pg_text_ok 128 grantKey && pg_text_ok 64 planCode) then Err ErrCreditDB
    else if existsb (fun g => String.eqb (g_TenantId g) tenantID && String.eqb (g_GrantKey g) grantKey) (grants db)
    then Err ErrCreditUnique
    else
      let g := mkGrant (seq_grant db) tenantID accountID userID grantKey planCode amount now in
      Ok (g, mkCredit (ledger db) (profiles db) (redemptions db) (batches db) (grants db ++ [g])
               (seq_redemption db) (seq_batch db) (seq_grant db + 1))) in
  match r with
  | Ok g => ret g
  | Err ErrCreditUnique => throw ErrPlanQuotaGrantExists
  | Err e => throw e
  end.

Definition DeletePlanQuotaGrant (id : Z) : R unit :=
  stmt (fun db => Ok (tt, set_grants (List.filter (fun g => negb (g_Id g =? id)) (grants db)) db)).

Definition provisionTenantIsPinned (tenantID : string) : bool :=
  negb (String.eqb tenantID "") && negb (String.eqb tenantID "default").

(** What the entitlement verifier answers. *)
Inductive verification :=
| WrongAudience
| Rejected
| Verified (grace : bool) (sub : string) (ent : gmap string string).

(** A claim; an absent one is empty. *)
Definition claim (ent : gmap string string) (k : string) : string := default EmptyString (ent !! k).

Inductive grant_reply :=
| Refused (status : Z) (code : string)
| GrantReplayed (amount : Z) (key : string)
| Granted (amount : Z) (key : string) (newQuota : Z).

(** [GetUserByLurusAccountID] for an account id above zero. *)
Definition user_of_account (accountID : Z) (db : creditdb) : option (Z * profile) :=
  let mine u := negb (u_Deleted u) &&
    match profiles db !! u_ID u with
    | Some p => bool_decide (p_LurusAccountID p = Some accountID)
    | None => false
    end in
  u ← first_where mine (users (ledger db)); p ← profiles db !! u_ID u; Some (u_ID u, p).

(** Amount and key of a grant: a seat plan is shared equally, under a key per account. *)
Definition grant_terms (ent : gmap string string) (accountID : Z) : (Z * string) + grant_reply :=
  match Atoi (TrimSpace (claim ent "newhub_pool_amount")) with
  | None => inr (Refused 422 "NO_GRANT_AMOUNT")
  | Some amount =>
      if amount <=? 0 then inr (Refused 422 "NO_GRANT_AMOUNT")
      else
        let subscriptionID := TrimSpace (claim ent "subscription_id") in
        if String.eqb subscriptionID "" then inr (Refused 422 "GRANT_KEY_MISSING")
        else
          let grantKey := subscriptionID +:+ ":" +:+ TrimSpace (claim ent "subscription_expires_at") in
          let terms :=
            match Atoi (TrimSpace (claim ent "seats")) with
            | Some seats =>
                if seats >? 1 then
                  let share := amount `quot` seats in
                  if share <=? 0 then inr (Refused 422 "NO_GRANT_AMOUNT")
                  else inl (share, grantKey +:+ ":" +:+ Itoa accountID)
                else inl (amount, grantKey)
            | None => inl (amount, grantKey)
            end in
          match terms with
          | inl (amount, grantKey) =>
              if (planGrantKeyMaxLen <? String.length grantKey)%nat then inr (Refused 422 "GRANT_KEY_INVALID")
              else inl (amount, grantKey)
          | inr r => inr r
          end
  end.

(** From the resolved user on: the row first, then the credit, and the row taken back
    when the credit fails. *)
Definition grant_credit (tenantID : string) (accountID userID : Z) (planCode : string) (amount : Z) (grantKey : string)
    (batch : bool) (now : Z) : R grant_reply :=
  try! ins := InsertPlanQuotaGrant tenantID accountID userID grantKey planCode amount now in
  match ins with
  | Err ErrPlanQuotaGrantExists => ret (GrantReplayed amount grantKey)
  | Err _ => ret (Refused 500 "GRANT_FAILED")
  | Ok row =>
      try! inc := on_ledger (IncreaseUserQuota batch userID amount true) in
      match inc with
      | Err _ =>
          try! _ := DeletePlanQuotaGrant (g_Id row) in
          ret (Refused 500 "GRANT_FAILED")
      | Ok _ =>
          try! q := on_ledger (GetUserQuota userID None) in
          ret (Granted amount grantKey (match q with Ok n => n | Err _ => 0 end))
      end
  end.

(** [tenant] is the tenant of the path with the answer of its gate, [token] the token of
    the body, [None] when it does not parse. *)
Definition PlanGrantV2 (tenant : option (string * bool)) (token : option string) (verify : string -> verification)
    (batch : bool) (now : Z) : R grant_reply :=
  match tenant with
  | None => ret (Refused 404 "TENANT_NOT_FOUND")
  | Some (tenantID, open) =>
      if negb open then ret (Refused 403 "TENANT_DISABLED")
      else match token with
      | None => ret (Refused 400 "INVALID_REQUEST")
      | Some token =>
          if String.eqb token "" then ret (Refused 400 "MISSING_ENTITLEMENT_TOKEN")
          else match verify token with
          | WrongAudience => ret (Refused 403 "AUD_MISMATCH")
          | Rejected => ret (Refused 401 "TOKEN_INVALID")
          | Verified grace sub ent =>
              if grace then ret (Refused 403 "ENTITLEMENT_STALE")
              else
                let planCode := claim ent "plan_code" in
                if negb (HasPrefix planCode eligiblePlanPrefix) || (planGrantPlanCodeMaxLen <? String.length planCode)%nat
                then ret (Refused 403 "PLAN_NOT_ELIGIBLE")
                else match Atoi sub with
                | None => ret (Refused 401 "TOKEN_INVALID")
                | Some accountID =>
                    if accountID <=? 0 then ret (Refused 401 "TOKEN_INVALID")
                    else
                      try! u := query (user_of_account accountID) in
                      match u with
                      | Err _ => ret (Refused 500 "GRANT_FAILED")
                      | Ok None => ret (Refused 409 "NOT_PROVISIONED")
                      | Ok (Some (userID, p)) =>
                          if provisionTenantIsPinned (p_TenantId p) && provisionTenantIsPinned tenantID &&
                             negb (String.eqb (p_TenantId p) tenantID)
                          then ret (Refused 403 "TENANT_MISMATCH")
                          else if negb (p_Status p =? UserStatusEnabled) then ret (Refused 403 "USER_DISABLED")
                          else match grant_terms ent accountID with
                               | inr r => ret r
                               | inl (amount, grantKey) => grant_credit tenantID accountID userID planCode amount grantKey batch now
                               end
                      end
                end
          end
      end
  end.
End Redemption.
