(* ===== verification/RedemptionSpec.v ===== *)
(** * Redemption codes and plan grants: what they credit

    Every schedule of redemptions, edits, prunings, batches, revocations and plan grants,
    with any statement failing, credits a code once for every time it is open, and a
    subscription period of a tenant once, to the one user the row names, and moves balances
    by exactly what was credited.  An edit is two operations, the read of a row and its
    write; the other requests are one each. *)

From S2P Require Import Prelude GoStrings Json Ledger Redemption.

Section CreditRuns.
Import GoStrings Ledger Redemption.

(** ** Runs *)

Inductive op :=
| ORedeem (b : billing) (key : string) (userId now later : Z)
| OAdd (c : caller) (name : string) (count quota expired now : Z) (uuids : list string)
| OCreate (c : caller) (staff : bool) (name : string) (quota count expired maxQuota now : Z) (keys : list string)
| OEdit (c : caller) (statusOnly : bool) (d : edit) (now : Z)
| OWrite (i : nat)
| ODelete (c : caller) (id : Z)
| ODeleteV2 (c : caller) (staff : bool) (id : Z)
| OPrune (c : caller) (now : Z)
| OProvision (tenantID eventID : string) (count quotaPerCode : Z) (namePrefix : string) (expiredTime : Z)
    (source : string) (creatorUserID now : Z) (uuids : list string)
| ORevoke (tenantID eventID : string)
| OGrant (tenant : option (string * bool)) (token : option string) (verify : string -> verification) (batch : bool) (now : Z).

(** What a user was credited, and for what. *)
Inductive credit :=
| Redeemed (key : string) (user quota : Z)
| PlanCredited (tenant key : string) (user amount : Z).

(** The rows edits have changed in memory and not yet written, and the tables. *)
Record system := mkSystem { editing : list Redemption; db_of : creditdb }.

(** The credits of one operation: a successful redemption, or a grant with the row it
    wrote. *)
Definition exec (o : op) (fs : list bool) (y : system) : list credit * system :=
  let db := db_of y in
  let st := mkStore db fs in
  let quiet {A} (m : R A) := ([], mkSystem (editing y) (tables (m st).2)) in
  match o with
  | ORedeem b key userId now later =>
      let (r, s) := Redeem b key userId now later st in
      (match r with Ok q => [Redeemed key userId q] | Err _ => [] end, mkSystem (editing y) (tables s))
  | OAdd c name count quota expired now uuids => quiet (AddRedemption c name count quota expired now uuids)
  | OCreate c staff name quota count expired maxQuota now keys =>
      quiet (CreateRedemptionV2 c staff name quota count expired maxQuota now keys)
  | OEdit c statusOnly d now =>
      let (r, s) := UpdateRedemption_read c statusOnly d now st in
      ([], mkSystem (editing y ++ match r with Ok (Some row) => [row] | _ => [] end) (tables s))
  | OWrite i =>
      match editing y !! i with
      | Some row => ([], mkSystem (delete i (editing y)) (tables (RedemptionUpdate row st).2))
      | None => ([], y)
      end
  | ODelete c id => quiet (DeleteRedemption c id)
  | ODeleteV2 c staff id => quiet (DeleteRedemptionV2 c staff id)
  | OPrune c now => quiet (DeleteInvalidRedemption c now)
  | OProvision tenantID eventID count quotaPerCode namePrefix expiredTime source creatorUserID now uuids =>
      quiet (ProvisionRedemptionBatchIdempotent tenantID eventID count quotaPerCode namePrefix expiredTime source
               creatorUserID now uuids)
  | ORevoke tenantID eventID => quiet (RevokeProvisionedRedemptionBatch tenantID eventID)
  | OGrant tenant token verify batch now =>
      let (r, s) := PlanGrantV2 tenant token verify batch now st in
      (match r, last (grants (tables s)) with
       | Ok (Granted amount key _), Some g => [PlanCredited (g_TenantId g) key (g_UserId g) amount]
       | _, _ => []
       end, mkSystem (editing y) (tables s))
  end.

Fixpoint run_ops (os : list (op * list bool)) (y : system) : list credit * system :=
  match os with
  | [] => ([], y)
  | (o, fs) :: os' =>
      let (cs, y1) := exec o fs y in
      let (cs', y2) := run_ops os' y1 in (cs ++ cs', y2)
  end.

(** The used codes that the write of a stale edit opens again. *)
Definition reopens (o : op) (y : system) : list string :=
  match o with
  | OWrite i =>
      match editing y !! i with
      | Some row =>
          if r_Status row =? RedemptionCodeStatusUsed then []
          else r_Key <$> List.filter (fun x => by_id (r_Id row) x && (r_Status x =? RedemptionCodeStatusUsed)) (redemptions (db_of y))
      | None => []
      end
  | _ => []
  end.

Fixpoint reopened (os : list (op * list bool)) (y : system) : list string :=
  match os with
  | [] => []
  | (o, fs) :: os' => reopens o y ++ reopened os' (exec o fs y).2
  end.

Definition times (key : string) (keys : list string) : nat := length (List.filter (String.eqb key) keys).

Definition code_of (c : credit) : option string := match c with Redeemed key _ _ => Some key | _ => None end.
Definition period_of (c : credit) : option (string * string) :=
  match c with PlanCredited t key _ _ => Some (t, key) | _ => None end.
Definition credited_to (id : Z) (c : credit) : Z :=
  match c with
  | Redeemed _ u q => if u =? id then q else 0
  | PlanCredited _ _ u a => if u =? id then a else 0
  end.

Definition balance (id : Z) (db : creditdb) : Z :=
  match first_where (user_is id) (users (ledger db)) with Some u => u_Quota u | None => 0 end.

(** ** The invariant *)

(** The unique indexes, and the sequences ahead of their tables. *)
Record sound (db : creditdb) : Prop := {
  keys_unique : NoDup (r_Key <$> redemptions db);
  ids_unique : NoDup (r_Id <$> redemptions db);
  ids_fresh r : r ∈ redemptions db -> r_Id r < seq_redemption db;
  periods_unique : NoDup ((fun g => (g_TenantId g, g_GrantKey g)) <$> grants db);
  grants_fresh g : g ∈ grants db -> g_Id g < seq_grant db
}.

(** The code [key] was redeemed by [u], of the tenant of the code. *)
Definition settled (db : creditdb) (key : string) (u : Z) (t : string) : Prop :=
  exists r, r ∈ redemptions db /\ r_Key r = key /\ r_Status r = RedemptionCodeStatusUsed /\
    r_UsedUserId r = u /\ r_TenantId r = t.

(** [db] came after [db0]: what was settled or granted stays so. *)
Record after (db0 db : creditdb) : Prop := {
  a_sound : sound db;
  a_profiles : profiles db = profiles db0;
  a_settled key u t : settled db0 key u t -> settled db key u t;
  a_grants g : g ∈ grants db0 -> g ∈ grants db
}.

Definition quiet (db0 db : creditdb) : Prop := after db0 db /\ ledger db = ledger db0.

Lemma after_refl db : sound db -> after db db.
Proof. by split. Qed.

Lemma after_trans db0 db1 db2 : after db0 db1 -> after db1 db2 -> after db0 db2.
Proof. intros [H1 H2 H3 H4] [K1 K2 K3 K4]. split; [done|congruence|auto|auto]. Qed.

(** Rewriting rows without touching what identifies or settles them. *)
Lemma rows_rewritten db0 db cond f :
  (forall r, r ∈ redemptions db -> cond r = true ->
    r_Id (f r) = r_Id r /\ r_Key (f r) = r_Key r /\ r_TenantId (f r) = r_TenantId r /\
    (r_Status r = RedemptionCodeStatusUsed -> r_Status (f r) = RedemptionCodeStatusUsed /\ r_UsedUserId (f r) = r_UsedUserId r)) ->
  after db0 db -> after db0 (set_redemptions (update_where cond f (redemptions db)) db).
Proof.
  intros Hf [[K1 K2 K3 K4 K5] H2 H3 H4].
  assert (forall A (g : Redemption -> A), (forall r, r ∈ redemptions db -> cond r = true -> g (f r) = g r) ->
    g <$> update_where cond f (redemptions db) = g <$> redemptions db) as Hg.
  { intros A g Hg. unfold update_where. rewrite <- list_fmap_compose. apply list_fmap_ext. intros i r Hr.
    apply list_elem_of_lookup_2 in Hr. unfold compose. destruct (cond r) eqn:Hc; auto. }
  split; [split|done| |done]; cbn [redemptions set_redemptions seq_redemption grants seq_grant].
  - rewrite Hg; [done|]. intros r Hr Hc. by destruct (Hf r Hr Hc) as (_ & ? & _).
  - rewrite Hg; [done|]. intros r Hr Hc. by destruct (Hf r Hr Hc) as (? & _).
  - intros r (r0 & Hr0 & ->)%elem_of_update_where. destruct (cond r0) eqn:Hc; [|auto].
    destruct (Hf r0 Hr0 Hc) as (-> & _). auto.
  - done.
  - done.
  - intros key u t Hs. destruct (H3 key u t Hs) as (r & Hr & Hk & Hst & Hu & Ht).
    exists (if cond r then f r else r). split; [apply elem_of_update_where; eauto|].
    destruct (cond r) eqn:Hc; [|done]. destruct (Hf r Hr Hc) as (_ & Hk' & Ht' & [Hs' Hu']); [done|].
    split_and!; congruence.
Qed.

Lemma row_added db0 db r b :
  (forall x, x ∈ redemptions db -> r_Key x <> r_Key r) -> r_Id r = seq_redemption db ->
  after db0 db ->
  after db0 (mkCredit (ledger db) (profiles db) (redemptions db ++ [r]) b (grants db) (seq_redemption db + 1) (seq_batch db) (seq_grant db)).
Proof.
  intros Hk Hi [[K1 K2 K3 K4 K5] H2 H3 H4]. split; [split|done| |done]; cbn.
  - rewrite fmap_app. apply NoDup_app. split; [done|]. split; [|apply NoDup_singleton].
    intros k (x & -> & Hx)%list_elem_of_fmap. cbn. rewrite list_elem_of_singleton. by apply Hk.
  - rewrite fmap_app. apply NoDup_app. split; [done|]. split; [|apply NoDup_singleton].
    intros k (x & -> & Hx)%list_elem_of_fmap. cbn. rewrite list_elem_of_singleton. specialize (K3 x Hx). lia.
  - intros x [Hx|Hx%list_elem_of_singleton]%elem_of_app; [specialize (K3 x Hx); lia|subst; lia].
  - done.
  - done.
  - intros key u t Hs. destruct (H3 key u t Hs) as (x & Hx & Hr). exists x. split; [|done]. cbn. set_solver.
Qed.

(** ** Operations that credit nothing *)

Lemma insert_quiet db0 r : preserves (quiet db0) (insert_redemption r).
Proof.
  apply preserves_stmt. intros db a db' [Ha Hl]. case_match; [done|]. case_match eqn:Hk; [done|]. intros [= <- <-].
  split; [|done]. apply (row_added db0 db (set_id (seq_redemption db) (with_defaults r))); [|done|done].
  intros x Hx Heq. rewrite <- not_true_iff_false in Hk. apply Hk. apply existsb_exists. exists x.
  rewrite <- list_elem_of_In. split; [done|]. by apply String.eqb_eq.
Qed.

Lemma RedemptionInsert_quiet db0 r : preserves (quiet db0) (RedemptionInsert r).
Proof. unfold RedemptionInsert. solve_preserves. apply insert_quiet. Qed.

Lemma delete_quiet db0 cond : preserves (quiet db0) (delete_redemptions cond).
Proof.
  apply preserves_stmt. intros db a db' [Ha Hl] [= <- <-]. split; [|done]. apply rows_rewritten; [|done]. intros r _ _. by cbn.
Qed.

Lemma get_quiet db0 id : preserves (quiet db0) (GetRedemptionById id).
Proof. unfold GetRedemptionById. solve_preserves. Qed.

Lemma add_codes_quiet db0 keys mk : preserves (quiet db0) (add_codes keys mk).
Proof.
  induction keys as [|k keys IH]; cbn [add_codes]; [apply preserves_ret|].
  apply preserves_catch; [apply RedemptionInsert_quiet|intros r]. solve_preserves. apply IH.
Qed.

Lemma create_codes_quiet db0 keys mk : preserves (quiet db0) (create_codes keys mk).
Proof.
  induction keys as [|k keys IH]; cbn [create_codes]; [apply preserves_ret|].
  apply preserves_catch; [apply RedemptionInsert_quiet|]. intros r. apply preserves_bind; [apply IH|intros ks]. solve_preserves.
Qed.

Lemma insert_batch_quiet db0 e t n q src codes now : preserves (quiet db0) (insert_batch e t n q src codes now).
Proof.
  apply preserves_stmt. intros db a db' [[[K1 K2 K3 K4 K5] H2 H3 H4] Hl]. case_match; [done|]. case_match; [done|].
  intros [= <- <-]. by repeat split.
Qed.

Lemma insert_codes_quiet db0 codes mk : forall n, preserves (quiet db0) (insert_codes codes n mk).
Proof.
  induction codes as [|k codes IH]; intros n; cbn [insert_codes]; [apply preserves_ret|].
  apply preserves_bind; [apply insert_quiet|]. intros _. apply IH.
Qed.

Lemma provision_quiet db0 t e n q p x src c now uuids :
  preserves (quiet db0) (ProvisionRedemptionBatchIdempotent t e n q p x src c now uuids).
Proof.
  unfold ProvisionRedemptionBatchIdempotent, provision_tx, find_batch, decodeBatchCodes. solve_preserves.
  all: first [apply insert_batch_quiet|apply insert_codes_quiet].
Qed.

Lemma revoke_quiet db0 t e : preserves (quiet db0) (RevokeProvisionedRedemptionBatch t e).
Proof.
  unfold RevokeProvisionedRedemptionBatch, find_batch, decodeBatchCodes. solve_preserves.
  apply preserves_stmt. intros db n db' [Ha Hl] [= <- <-]. split; [|done]. apply rows_rewritten; [|done].
  intros r _ Hc. split_and!; try done. intros Hu. unfold revocable in Hc. bool_to_prop.
  unfold RedemptionCodeStatusEnabled, RedemptionCodeStatusUsed in *. lia.
Qed.

Lemma read_quiet db0 c so d now : preserves (quiet db0) (UpdateRedemption_read c so d now).
Proof. unfold UpdateRedemption_read. solve_preserves. apply get_quiet. Qed.

(** ** Operations that credit *)

Lemma on_ledger_ok {A} (m : L A) s a s' :
  on_ledger m s = (Ok a, s') ->
  exists s1, m (mkStore (ledger (tables s)) (faults s)) = (Ok a, s1) /\ tables s' = set_ledger (tables s1) (tables s).
Proof.
  unfold on_ledger. destruct (m _) as [[a'|e] s1]; intros [=]. subst. eauto.
Qed.

Lemma update_users_ok cond delta s n s' :
  update_users cond delta s = (Ok n, s') ->
  tables s' = set_users (update_where cond (fun u => set_quota (u_Quota u + delta) u) (users (tables s))) (tables s).
Proof. intros H%stmt_ok. case_match; [|done]. by injection H as _ <-. Qed.

(** The tables after [q] went to a user's balance. *)
Definition with_credit (userId q : Z) (db : creditdb) : creditdb :=
  set_ledger (set_users (update_where (user_is userId) (fun u => set_quota (u_Quota u + q) u) (users (ledger db))) (ledger db)) db.

Lemma redeem_row_ok b r userId now later s q s' :
  redeem_row b r userId now later s = (Ok q, s') ->
  r_Status r = RedemptionCodeStatusEnabled /\ q = r_Quota r /\
  exists p, user_profile userId (tables s) = Some p /\ p_TenantId p = r_TenantId r /\
    tables s' = set_redemptions (update_where (by_id (r_Id r)) (fun _ => mark_used userId later r) (redemptions (tables s)))
      (with_credit userId q (tables s)).
Proof.
  unfold redeem_row. destruct (Z.eqb_spec (r_Status r) RedemptionCodeStatusEnabled) as [Hst|]; [|done]. cbn [negb].
  destruct (negb (r_ExpiredTime r =? 0) && _); [done|]. unfold catch.
  destruct (query _ s) as [[[p|]|e] s1] eqn:Hu; try done. apply query_ok in Hu as [Hu Ht1].
  destruct (String.eqb_spec (p_TenantId p) (r_TenantId r)) as [Hten|]; [|done]. cbn [negb].
  destruct (linked p && _); [done|]. intros (n & s2 & Hl & H)%bind_ok. apply bind_ok in H as ([] & s3 & Hsave & H).
  injection H as <- <-. apply on_ledger_ok in Hl as (s4 & Hl & Ht2). apply update_users_ok in Hl.
  apply stmt_ok in Hsave. injection Hsave as Hsave. split_and!; [done|done|]. exists p. split_and!; [done|done|].
  rewrite <- Hsave, Ht2, Hl. cbn. by rewrite Ht1.
Qed.

(** A successful redemption. *)
Lemma Redeem_ok b key userId now later s q s' :
  Redeem b key userId now later s = (Ok q, s') ->
  exists r p, first_where (by_key key) (redemptions (tables s)) = Some r /\
    r_Status r = RedemptionCodeStatusEnabled /\ q = r_Quota r /\
    user_profile userId (tables s) = Some p /\ p_TenantId p = r_TenantId r /\
    tables s' = set_redemptions (update_where (by_id (r_Id r)) (fun _ => mark_used userId later r) (redemptions (tables s)))
      (with_credit userId q (tables s)).
Proof.
  unfold Redeem. destruct (String.eqb key ""); [done|]. destruct (userId =? 0); [done|].
  unfold catch at 1. destruct (redeem_tx b key userId now later s) as [[q'|e] s1] eqn:Htx; [|by destruct (redeemKnownError e)].
  intros [= <- <-]. unfold redeem_tx in Htx. apply transaction_ok in Htx as (s2 & Htx & ->). unfold catch in Htx.
  destruct (query _ s) as [[[r|]|e] s3] eqn:Hf; try done. apply query_ok in Hf as [Hf Ht].
  apply redeem_row_ok in Htx as (H1 & H2 & p & H3 & H4 & H5). rewrite Ht in *. exists r, p. by split_and!.
Qed.

(** A refused or failed one leaves the tables as they were. *)
Lemma Redeem_err b key userId now later s e s' :
  Redeem b key userId now later s = (Err e, s') -> tables s' = tables s.
Proof.
  unfold Redeem. destruct (String.eqb key ""); [by intros [= _ <-]|]. destruct (userId =? 0); [by intros [= _ <-]|].
  unfold catch at 1. destruct (redeem_tx b key userId now later s) as [[q'|e'] s1] eqn:Htx; [done|].
  apply transaction_atomic in Htx. by destruct (redeemKnownError e'); intros [= _ <-].
Qed.

(** Crediting a user moves that user's balance and no other. *)
Lemma balance_credit id userId q db :
  (exists u, first_where (user_is userId) (users (ledger db)) = Some u) ->
  balance id (with_credit userId q db) = balance id db + (if userId =? id then q else 0).
Proof.
  intros [u0 Hu0]. unfold balance, with_credit. cbn [ledger set_ledger users set_users].
  assert (forall us, first_where (user_is id) (update_where (user_is userId) (fun u => set_quota (u_Quota u + q) u) us) =
    (fun u => if userId =? id then set_quota (u_Quota u + q) u else u) <$> first_where (user_is id) us) as ->.
  { unfold first_where, update_where. induction us as [|u us IH]; [done|]. cbn [fmap list_fmap find].
    assert (user_is id (if user_is userId u then set_quota (u_Quota u + q) u else u) = user_is id u) as Hi by (destruct (user_is userId u); done).
    rewrite Hi. destruct (user_is id u) eqn:Hu; [|done]. cbn. f_equal. unfold user_is in *.
    apply andb_true_iff in Hu as [Hu1 Hu2]. rewrite Hu2, andb_true_r. apply Z.eqb_eq in Hu1 as ->. by rewrite Z.eqb_sym. }
  destruct (Z.eqb_spec userId id) as [->|].
  - rewrite Hu0. done.
  - destruct (first_where (user_is id) _); cbn; lia.
Qed.

(** A grant that was credited, as rows. *)
Definition with_grant (g : PlanQuotaGrant) (db : creditdb) : creditdb :=
  mkCredit (ledger db) (profiles db) (redemptions db) (batches db) (grants db ++ [g])
    (seq_redemption db) (seq_batch db) (seq_grant db + 1).

Definition new_period (g : PlanQuotaGrant) (db : creditdb) : Prop :=
  g_Id g = seq_grant db /\
  forall x, x ∈ grants db -> (g_TenantId x, g_GrantKey x) <> (g_TenantId g, g_GrantKey g).

Lemma grant_added db g : sound db -> new_period g db -> after db (with_grant g db).
Proof.
  intros [K1 K2 K3 K4 K5] [Hi Hn]. split; [split|done|done|]; cbn; try done.
  - rewrite fmap_app. apply NoDup_app. split; [done|]. split; [|apply NoDup_singleton].
    intros k (x & -> & Hx)%list_elem_of_fmap. cbn. rewrite list_elem_of_singleton. by apply Hn.
  - intros x [Hx|Hx%list_elem_of_singleton]%elem_of_app; [specialize (K5 x Hx); lia|subst; lia].
  - set_solver.
Qed.

Lemma InsertPlanQuotaGrant_cases t acc u k plan amount now s :
  match InsertPlanQuotaGrant t acc u k plan amount now s with
  | (Ok g, s') => tables s' = with_grant g (tables s) /\ new_period g (tables s) /\
      g_TenantId g = t /\ g_GrantKey g = k /\ g_UserId g = u /\ g_Amount g = amount
  | (Err _, s') => tables s' = tables s
  end.
Proof.
  unfold InsertPlanQuotaGrant, catch. destruct (stmt _ s) as [[g|e] s1] eqn:Hs.
  - apply stmt_ok in Hs. case_match; [done|]. case_match eqn:Hx; [done|]. injection Hs as <- Ht. cbn [ret].
    split_and!; try done. split; [done|]. intros x Hin Heq. cbn in Heq. rewrite <- not_true_iff_false in Hx. apply Hx.
    apply existsb_exists. exists x. rewrite <- list_elem_of_In. split; [done|].
    injection Heq as Ht' Hk'. rewrite Ht', Hk', !String.eqb_refl. done.
  - apply stmt_atomic in Hs. by destruct e.
Qed.

(** The credit of a grant is a direct write. *)
Lemma increase_cases batch u q s :
  match on_ledger (IncreaseUserQuota batch u q true) s with
  | (Ok _, s') => tables s' = with_credit u q (tables s)
  | (Err _, s') => tables s' = tables s
  end.
Proof.
  assert (forall db, set_ledger (ledger db) db = db) as Hid by by intros [].
  unfold on_ledger, IncreaseUserQuota, increaseUserQuota. destruct (q <? 0); [apply Hid|]. cbn [negb andb].
  unfold bind. destruct (update_users _ _ _) as [[n|e] s1] eqn:Hu.
  - apply update_users_ok in Hu. cbn. by rewrite Hu.
  - apply stmt_atomic in Hu. cbn. rewrite Hu. apply Hid.
Qed.

(** A credit that failed and whose row was taken back, or could not be. *)
Lemma grant_undone g db fs s' r :
  sound db -> new_period g db -> DeletePlanQuotaGrant (g_Id g) (mkStore (with_grant g db) fs) = (r, s') ->
  after db (tables s') /\ ledger (tables s') = ledger db.
Proof.
  intros Hs Hn. unfold DeletePlanQuotaGrant, stmt. destruct (next_fault _) as [[] fs']; intros [= <- <-]; cbn [tables].
  - split; [by apply grant_added|done].
  - split; [|done]. pose proof (grant_added db g Hs Hn) as [[K1 K2 K3 K4 K5] H2 H3 H4]. destruct Hn as [Hi _].
    split; [split|done|done|]; cbn [redemptions seq_redemption grants set_grants seq_grant]; try done.
    + by apply NoDup_fmap_filter.
    + intros x Hx. apply K5. apply list_elem_of_In, List.filter_In in Hx as [Hx _]. by apply list_elem_of_In.
    + intros x Hx. apply list_elem_of_In, List.filter_In. split; [by apply list_elem_of_In, H4|].
      pose proof (grants_fresh _ Hs x Hx). apply negb_true_iff, Z.eqb_neq. lia.
Qed.

(** What a grant does: nothing but perhaps a row, or a row and its credit. *)
Inductive grant_outcome (db db' : creditdb) : grant_reply -> Prop :=
| NotCredited r : (forall a k n, r <> Granted a k n) -> after db db' -> ledger db' = ledger db -> grant_outcome db db' r
| WasCredited g a k n :
    new_period g db -> g_GrantKey g = k -> g_Amount g = a ->
    (exists u, first_where (user_is (g_UserId g)) (users (ledger db)) = Some u) ->
    db' = with_credit (g_UserId g) a (with_grant g db) -> grant_outcome db db' (Granted a k n).

Lemma read_back u q s : tables (on_ledger (GetUserQuota u q) s).2 = tables s.
Proof.
  unfold on_ledger. destruct (GetUserQuota _ _ _) as [r s1] eqn:Hg. cbn.
  assert (tables s1 = ledger (tables s)) as ->; [|by destruct s as [[]]].
  unfold GetUserQuota in Hg. destruct q; [by injection Hg as _ <-|]. unfold bind in Hg.
  pose proof (query_readonly (E := ledger_err) (fun db => first_where (user_is u) (users db)) (mkStore (ledger (tables s)) (faults s))) as Hq.
  destruct (query _ _) as [[x|e] s2]; by injection Hg as _ <-.
Qed.

Lemma grant_credit_outcome t acc u plan a k batch now s :
  sound (tables s) -> (exists x, first_where (user_is u) (users (ledger (tables s))) = Some x) ->
  exists r s', grant_credit t acc u plan a k batch now s = (Ok r, s') /\ grant_outcome (tables s) (tables s') r.
Proof.
  intros Hs Hu. unfold grant_credit, catch at 1.
  pose proof (InsertPlanQuotaGrant_cases t acc u k plan a now s) as Hi.
  destruct (InsertPlanQuotaGrant t acc u k plan a now s) as [[g|e] s1].
  - destruct Hi as (Ht & Hn & _ & Hk & Hgu & Ha). unfold catch at 1.
    pose proof (increase_cases batch u a s1) as Hinc. destruct (on_ledger (IncreaseUserQuota batch u a true) s1) as [[[]|e] s2].
    + unfold catch. pose proof (read_back u None s2) as Hr. destruct (on_ledger (GetUserQuota u None) s2) as [q s3]. cbn in Hr.
      eexists _, s3. split; [done|]. rewrite Hr, Hinc, Ht. subst u. by eapply (WasCredited _ _ g).
    + unfold catch. destruct (DeletePlanQuotaGrant (g_Id g) s2) as [r s3] eqn:Hd.
      eexists _, s3. split; [done|]. destruct s2 as [t2 fs]. cbn in Hinc. rewrite Hinc, Ht in Hd.
      apply grant_undone in Hd as [H1 H2]; [|done|done]. by apply NotCredited.
  - destruct e; (eexists _, s1; split; [done|]; rewrite Hi; apply NotCredited; [done|by apply after_refl|done]).
Qed.

Lemma user_of_account_some acc db u p :
  user_of_account acc db = Some (u, p) ->
  profiles db !! u = Some p /\ exists x, first_where (user_is u) (users (ledger db)) = Some x.
Proof.
  unfold user_of_account. intros (x & Hx & (p' & Hp & [= <- <-])%bind_Some)%bind_Some. split; [done|].
  apply first_where_some in Hx as [Hin Hm]. bool_to_prop.
  destruct (first_where (user_is (u_ID x)) (users (ledger db))) as [y|] eqn:Hf; [eauto|].
  pose proof (first_where_none _ _ Hf x Hin) as Hno. unfold user_is in Hno. rewrite Z.eqb_refl in Hno. cbn in Hno.
  destruct (u_Deleted x); done.
Qed.

Lemma reply_only r s :
  sound (tables s) -> (forall a k n, r <> Granted a k n) ->
  exists r' s', (ret r : R grant_reply) s = (Ok r', s') /\ grant_outcome (tables s) (tables s') r'.
Proof. intros Hs Hr. exists r, s. split; [done|]. apply NotCredited; [done|by apply after_refl|done]. Qed.

Lemma PlanGrant_outcome tenant token verify batch now s :
  sound (tables s) ->
  exists r s', PlanGrantV2 tenant token verify batch now s = (Ok r, s') /\ grant_outcome (tables s) (tables s') r.
Proof.
  intros Hs.
  pose proof (fun r => reply_only r s Hs) as Hno.
  unfold PlanGrantV2. destruct tenant as [[t open]|]; [|by apply Hno]. destruct open; [|by apply Hno]. cbn [negb].
  destruct token as [token|]; [|by apply Hno]. destruct (String.eqb token ""); [by apply Hno|].
  destruct (verify token) as [| |grace sub ent]; [by apply Hno|by apply Hno|]. destruct grace; [by apply Hno|].
  cbv zeta. destruct (negb (HasPrefix _ _) || _); [by apply Hno|]. destruct (Atoi sub) as [acc|]; [|by apply Hno].
  destruct (acc <=? 0); [by apply Hno|]. unfold catch at 1. destruct (query _ s) as [u s1] eqn:Hq.
  assert (tables s1 = tables s) as Ht.
  { pose proof (query_readonly (E := credit_err) (user_of_account acc) s) as Hr. by rewrite Hq in Hr. }
  rewrite <- Ht in *.
  pose proof (fun r => reply_only r s1 Hs) as Hno1.
  destruct u as [[[u p]|]|e]; [|by apply Hno1|by apply Hno1].
  apply query_ok in Hq as [Hq _]. symmetry in Hq. rewrite <- Ht in Hq. apply user_of_account_some in Hq as [Hp Hx].
  destruct (_ && _ && _); [by apply Hno1|]. destruct (negb _); [by apply Hno1|].
  destruct (grant_terms ent acc) as [[a k]|r] eqn:Hterms; [by apply grant_credit_outcome|].
  apply Hno1. intros a k n ->. unfold grant_terms in Hterms. repeat case_match; simplify_eq.
Qed.

(** ** One operation *)

(** The credits of an operation and what they rest on: a code not used before, which is
    now, or a period not granted before, which is now. *)
Inductive backed (db db' : creditdb) : list credit -> Prop :=
| NoCredit : backed db db' []
| CodeCredit key u q p :
    (forall u' t, ~ settled db key u' t) -> profiles db !! u = Some p -> settled db' key u (p_TenantId p) ->
    backed db db' [Redeemed key u q]
| PeriodCredit t k u a :
    (forall g, g ∈ grants db -> (g_TenantId g, g_GrantKey g) <> (t, k)) ->
    (exists g, g ∈ grants db' /\ (g_TenantId g, g_GrantKey g) = (t, k)) ->
    backed db db' [PlanCredited t k u a].

Definition accounted (db db' : creditdb) (cs : list credit) : Prop :=
  forall id, balance id db' = balance id db + sumZ (credited_to id) cs.

Lemma credit_after u q db db' : after db db' -> after db (with_credit u q db').
Proof. intros [[K1 K2 K3 K4 K5] H2 H3 H4]. by split; [split|..]. Qed.

Lemma quiet_step {A} (m : R A) db fs :
  preserves (quiet db) m -> sound db ->
  after db (tables (m (mkStore db fs)).2) /\ accounted db (tables (m (mkStore db fs)).2) [] /\
  backed db (tables (m (mkStore db fs)).2) [].
Proof.
  intros Hm Hs. destruct (Hm (mkStore db fs)) as [Ha Hl]; [split; [by apply after_refl|done]|].
  split_and!; [done| |constructor]. intros id. unfold balance. rewrite Hl. cbn. lia.
Qed.

Lemma redeem_step b key u now later db fs q s' :
  sound db -> Redeem b key u now later (mkStore db fs) = (Ok q, s') ->
  after db (tables s') /\ accounted db (tables s') [Redeemed key u q] /\ backed db (tables s') [Redeemed key u q].
Proof.
  intros Hs H. apply Redeem_ok in H as (r & p & Hf & Hst & -> & Hu & Hten & ->). cbn [tables] in *.
  apply first_where_some in Hf as [Hin Hk]. unfold by_key in Hk. bool_to_prop. apply String.eqb_eq in H.
  assert (forall x, x ∈ redemptions db -> by_id (r_Id r) x = true -> x = r) as Hone.
  { intros x Hx Hb. unfold by_id in Hb. bool_to_prop.
    apply (NoDup_fmap_inj r_Id (redemptions db)); [apply Hs|done|done|congruence]. }
  apply bind_Some in Hu as (x & Hx & Hp).
  split_and!.
  - apply (rows_rewritten db (with_credit u (r_Quota r) db)); [|apply credit_after, after_refl, Hs].
    cbn. intros y Hy Hb. rewrite (Hone y Hy Hb). split_and!; try done.
    rewrite Hst. unfold RedemptionCodeStatusEnabled, RedemptionCodeStatusUsed. lia.
  - intros id. transitivity (balance id (with_credit u (r_Quota r) db)); [done|]. rewrite balance_credit by eauto. cbn. lia.
  - eapply (CodeCredit _ _ key u (r_Quota r) p); [|done|].
    + intros u' t (y & Hy & Hky & Hsy & _). assert (y = r) as ->; [|rewrite Hst in Hsy; done].
      apply (NoDup_fmap_inj r_Key (redemptions db)); [apply Hs|done|done|congruence].
    + exists (mark_used u later r). split_and!; try done. cbn. apply elem_of_update_where. exists r. split; [done|].
      unfold by_id. rewrite Z.eqb_refl. cbn. by rewrite H0.
Qed.

Lemma grant_step db db' r :
  sound db -> grant_outcome db db' r ->
  let cs := match r, last (grants db') with
            | Granted amount key _, Some g => [PlanCredited (g_TenantId g) key (g_UserId g) amount]
            | _, _ => []
            end in
  after db db' /\ accounted db db' cs /\ backed db db' cs.
Proof.
  intros Hs [r' Hr Ha Hl|g a k n Hn Hk Hga Hu Hdb].
  - replace (match r', last (grants db') with Granted amount key _, Some g => _ | _, _ => [] end) with (@nil credit)
      by (destruct r'; [done|done|by destruct (Hr amount key newQuota)]).
    split_and!; [done| |constructor]. intros id. unfold balance. rewrite Hl. cbn. lia.
  - assert (last (grants db') = Some g) as -> by (rewrite Hdb; cbn; apply last_snoc). cbv zeta. rewrite Hdb. split_and!.
    + by apply credit_after, grant_added.
    + intros id. rewrite balance_credit by done. cbn. rewrite Z.add_0_r. done.
    + subst k. apply PeriodCredit.
      * intros x Hx. by apply Hn.
      * exists g. split; [|done]. cbn. set_solver.
Qed.

(** [db] came after [db0], but for the codes [ks], which may have been opened again. *)
Record after_but (ks : list string) (db0 db : creditdb) : Prop := {
  b_sound : sound db;
  b_profiles : profiles db = profiles db0;
  b_settled key u t : key ∉ ks -> settled db0 key u t -> settled db key u t;
  b_grants g : g ∈ grants db0 -> g ∈ grants db
}.

Lemma after_after_but db0 db : after db0 db -> after_but [] db0 db.
Proof. intros [H1 H2 H3 H4]. split; auto. Qed.

(** The write of an edit keeps what identifies the rows, and the status of every code it does
    not open again. *)
Lemma write_step row db fs :
  sound db ->
  let ks := if r_Status row =? RedemptionCodeStatusUsed then []
            else r_Key <$> List.filter (fun x => by_id (r_Id row) x && (r_Status x =? RedemptionCodeStatusUsed)) (redemptions db) in
  let db' := tables (RedemptionUpdate row (mkStore db fs)).2 in
  after_but ks db db' /\ ledger db' = ledger db.
Proof.
  intros Hs ks. unfold RedemptionUpdate, stmt. cbn [faults tables]. destruct (next_fault fs) as [[] fs']; cbn [snd tables].
  { split; [|done]. split; auto. }
  split; [|done]. destruct Hs as [K1 K2 K3 K4 K5].
  split; [split| | |]; cbn [redemptions set_redemptions seq_redemption grants seq_grant profiles]; try done.
  - by rewrite update_where_proj.
  - by rewrite update_where_proj.
  - intros x (x0 & Hx0 & ->)%elem_of_update_where. by destruct (by_id (r_Id row) x0); cbn; auto.
  - intros key u t Hk (x & Hx & Hkx & Hst & Hu & Ht). exists (if by_id (r_Id row) x then
      mkRedemption (r_Id x) (r_UserId x) (r_TenantId x) (r_Key x) (r_Status row) (r_Name row) (r_Quota row)
        (r_CreatedTime x) (r_RedeemedTime row) (r_UsedUserId x) (r_ExpiredTime row) (r_Deleted x) else x).
    split; [apply elem_of_update_where; eauto|]. destruct (by_id (r_Id row) x) eqn:Hb; [|done]. cbn. split_and!; try done.
    destruct (Z.eqb_spec (r_Status row) RedemptionCodeStatusUsed) as [|Hne]; [done|]. destruct Hk.
    apply list_elem_of_fmap. exists x. split; [done|]. apply list_elem_of_In, filter_In. rewrite <- list_elem_of_In, Hb. split; [done|].
    by apply Z.eqb_eq.
Qed.

Lemma exec_step o fs y cs y' :
  sound (db_of y) -> exec o fs y = (cs, y') ->
  after_but (reopens o y) (db_of y) (db_of y') /\ accounted (db_of y) (db_of y') cs /\ backed (db_of y) (db_of y') cs.
Proof.
  intros Hs. destruct y as [fl db]. cbn [db_of] in *.
  assert (forall cs0 db1, after db db1 /\ accounted db db1 cs0 /\ backed db db1 cs0 ->
    after_but [] db db1 /\ accounted db db1 cs0 /\ backed db db1 cs0) as Hw by (intros cs0 db1 [Ha ?]; split; [by apply after_after_but|done]).
  destruct o as [b key u now later| | |c so d now|i| | | | | |tenant token verify batch now]; cbn [exec reopens db_of editing].
  1: { destruct (Redeem b key u now later (mkStore db fs)) as [[q|e] s'] eqn:Hr; intros [= <- <-]; apply Hw; cbn [db_of]; [by eapply redeem_step|].
       apply Redeem_err in Hr. cbn in Hr. rewrite Hr. split_and!; [by apply after_refl|intros id; cbn; lia|constructor]. }
  3: { pose proof (quiet_step _ db fs (read_quiet db c so d now) Hs) as Hq.
       destruct (UpdateRedemption_read c so d now (mkStore db fs)) as [r s']. intros [= <- <-]. by apply Hw. }
  3: { destruct (fl !! i) as [row|]; intros [= <- <-]; cbn [db_of].
       - destruct (write_step row db fs Hs) as [Ha Hl]. split; [done|]. split; [|constructor]. intros id. unfold balance. rewrite Hl. cbn. lia.
       - apply Hw. split_and!; [by apply after_refl|intros id; cbn; lia|constructor]. }
  8: { destruct (PlanGrant_outcome tenant token verify batch now (mkStore db fs) Hs) as (r & s' & -> & Ho).
       intros [= <- <-]. apply Hw. by apply grant_step. }
  all: intros [= <- <-]; apply Hw; cbn [db_of]; apply quiet_step; [|done].
  - unfold AddRedemption. solve_preserves. apply add_codes_quiet.
  - unfold CreateRedemptionV2. solve_preserves. apply create_codes_quiet.
  - unfold DeleteRedemption, DeleteRedemptionById, RedemptionDelete. solve_preserves. all: apply get_quiet || apply delete_quiet.
  - unfold DeleteRedemptionV2, RedemptionDelete. solve_preserves. all: apply get_quiet || apply delete_quiet.
  - unfold DeleteInvalidRedemption, DeleteInvalidRedemptions, DeleteInvalidRedemptionsByTenant. destruct (_ >=? _); apply delete_quiet.
  - apply provision_quiet.
  - apply revoke_quiet.
Qed.

Lemma times_app key l1 l2 : times key (l1 ++ l2) = (times key l1 + times key l2)%nat.
Proof. unfold times. by rewrite List.filter_app, length_app. Qed.

Lemma times_pos key l : key ∈ l -> (1 <= times key l)%nat.
Proof.
  intros Hin. unfold times. destruct (List.filter (String.eqb key) l) eqn:Hf; [|cbn; lia]. exfalso.
  assert (In key (List.filter (String.eqb key) l)) as H0 by (apply filter_In; rewrite <- list_elem_of_In, String.eqb_refl; done).
  by rewrite Hf in H0.
Qed.

(** Along a run, a code is credited at most once more often than it was opened again, and
    only as often as that where it was used before; a period granted before is not granted. *)
Lemma run_backed os : forall y0 cs y,
  sound (db_of y0) -> run_ops os y0 = (cs, y) ->
  after_but (reopened os y0) (db_of y0) (db_of y) /\ accounted (db_of y0) (db_of y) cs /\
  (forall key, (times key (omap code_of cs) <= 1 + times key (reopened os y0))%nat /\
     forall u t, settled (db_of y0) key u t -> (times key (omap code_of cs) <= times key (reopened os y0))%nat) /\
  NoDup (omap period_of cs) /\
  (forall key u q, Redeemed key u q ∈ cs -> key ∉ reopened os y0 ->
    exists p, profiles (db_of y0) !! u = Some p /\ settled (db_of y) key u (p_TenantId p)) /\
  (forall t k u a, PlanCredited t k u a ∈ cs -> forall g, g ∈ grants (db_of y0) -> (g_TenantId g, g_GrantKey g) <> (t, k)).
Proof.
  induction os as [|[o fs] os IH]; intros y0 cs y Hs; cbn [run_ops reopened].
  { intros [= <- <-]. split_and!; [apply after_after_but; by apply after_refl|intros id; cbn; lia|intros key; split; [cbn; lia|intros; cbn; lia]|apply NoDup_nil_2|set_solver|set_solver]. }
  destruct (exec o fs y0) as [cs1 y1] eqn:He. destruct (run_ops os y1) as [cs2 y2] eqn:Hrun. intros [= <- <-]. cbn [snd].
  apply exec_step in He as (Ha1 & Hb1 & Hbk); [|done]. pose proof Ha1 as [Hs1 Hp1 Hk1 Hg1].
  destruct (IH y1 cs2 y2 Hs1 Hrun) as (Ha2 & Hb2 & Hn1 & Hn2 & Hc & Hd). pose proof Ha2 as [Hs2 Hp2 Hk2 Hg2].
  split_and!.
  - split; [done|congruence| |auto]. intros key u t Hnot Hset. apply Hk2; [set_solver|]. apply Hk1; [set_solver|done].
  - intros id. rewrite Hb2, Hb1, sumZ_app. lia.
  - intros key. destruct (Hn1 key) as [H1 H2]. rewrite omap_app, !times_app.
    assert (forall u t, settled (db_of y0) key u t -> (times key (omap code_of cs2) <= times key (reopens o y0) + times key (reopened os y1))%nat) as Hold.
    { intros u t Hset. destruct (decide (key ∈ reopens o y0)) as [Hin|Hout]; [pose proof (times_pos _ _ Hin); lia|].
      specialize (H2 u t (Hk1 key u t Hout Hset)). lia. }
    destruct Hbk as [|key' u q p Hno Hp Hset|t k u a Hno Hyes].
    + change (times key (omap code_of [])) with 0%nat. split; [lia|]. intros u t Hset. specialize (Hold u t Hset). lia.
    + change (omap code_of [Redeemed key' u q]) with [key'].
      assert (times key [key'] = if String.eqb key key' then 1 else 0)%nat as -> by (unfold times; cbn; by destruct (String.eqb key key')).
      destruct (String.eqb_spec key key') as [<-|Hne].
      * specialize (H2 _ _ Hset). split; [lia|]. intros u' t Hset'. by destruct (Hno u' t).
      * split; [lia|]. intros u' t Hset'. specialize (Hold u' t Hset'). lia.
    + change (times key (omap code_of [PlanCredited t k u a])) with 0%nat. split; [lia|]. intros u' t' Hset. specialize (Hold u' t' Hset). lia.
  - destruct Hbk as [|key u q p Hno Hp Hset|t k u a Hno Hyes]; cbn; [done|done|]. apply NoDup_cons. split; [|done].
    intros (c & Hin & Hck)%list_elem_of_omap. destruct c as [|t' k' u' a']; [done|]. injection Hck as -> ->.
    destruct Hyes as (g & Hg & Heq). by apply (Hd _ _ _ _ Hin g Hg).
  - intros key u q [Hin|Hin]%elem_of_app Hnot.
    + destruct Hbk as [|key' u' q' p Hno Hp Hset|]; [set_solver| |set_solver]. apply list_elem_of_singleton in Hin as [= -> -> ->].
      exists p. split; [done|]. apply Hk2; [set_solver|done].
    + rewrite <- Hp1. by apply (Hc _ _ _ Hin); set_solver.
  - intros t k u a [Hin|Hin]%elem_of_app g Hg.
    + destruct Hbk as [| |t' k' u' a' Hno Hyes]; [set_solver|set_solver|]. apply list_elem_of_singleton in Hin as [= -> -> -> ->]. auto.
    + by apply (Hd _ _ _ _ Hin), Hg1.
Qed.

(** C8. Over any schedule of redemptions, plan grants and administration, the read and the
    write of an edit apart, with any statement failing anywhere: a code is credited at most
    once, and once more for every time the write of an edit opens it again after it was used
    (the edit had read it before); a subscription period of a tenant is credited at most
    once; a redeemed code that no edit opened again ends up used by the user who was
    credited, of the code's tenant; and every balance moves by exactly its credits. *)
Theorem credited_once os y0 cs y :
  sound (db_of y0) -> run_ops os y0 = (cs, y) ->
  (forall key, (times key (omap code_of cs) <= 1 + times key (reopened os y0))%nat) /\
  NoDup (omap period_of cs) /\
  (forall key u q, Redeemed key u q ∈ cs -> key ∉ reopened os y0 ->
    exists p, profiles (db_of y0) !! u = Some p /\ settled (db_of y) key u (p_TenantId p)) /\
  (forall id, balance id (db_of y) = balance id (db_of y0) + sumZ (credited_to id) cs).
Proof.
  intros Hs Hrun. destruct (run_backed os y0 cs y Hs Hrun) as (_ & Hb & Hn1 & Hn2 & Hc & _).
  split_and!; [|done|done|done]. intros key. apply Hn1.
Qed.

(** ** Replays of a batch *)

(** The batch of an event stays the one that was written. *)
Definition issued (e : string) (b : ProvisionedRedemptionBatch) (db : creditdb) : Prop :=
  first_where (by_batch_event e) (batches db) = Some b.

Lemma on_ledger_preserves {A} (P : creditdb -> Prop) (m : L A) :
  (forall l db, P db -> P (set_ledger l db)) -> preserves P (on_ledger m).
Proof. intros HP s Hs. unfold on_ledger. destruct (m _) as [r s']. cbn. auto. Qed.

Lemma stmt_issued {A} e b (f : creditdb -> result credit_err (A * creditdb)) :
  (forall db a db', f db = Ok (a, db') -> batches db' = batches db) -> preserves (issued e b) (stmt f).
Proof. intros Hf. apply preserves_stmt. intros db a db' Hi Heq. unfold issued. by rewrite (Hf _ _ _ Heq). Qed.

Lemma insert_issued e b r : preserves (issued e b) (insert_redemption r).
Proof. apply stmt_issued. intros db a db'. do 2 (case_match; [done|]). by intros [= _ <-]. Qed.

Lemma first_where_prefix {A} (P : A -> bool) l1 l2 r : first_where P l1 = Some r -> first_where P (l1 ++ l2) = Some r.
Proof. unfold first_where. induction l1 as [|x l1 IH]; cbn; [done|]. by destruct (P x). Qed.

Lemma insert_batch_issued e b e' t n q src codes now : preserves (issued e b) (insert_batch e' t n q src codes now).
Proof.
  apply preserves_stmt. intros db a db' Hi. do 2 (case_match; [done|]). intros [= <- <-].
  unfold issued in *. cbn. by apply first_where_prefix.
Qed.

Ltac solve_issued :=
  solve_preserves;
  first [ apply insert_issued | apply insert_batch_issued
        | apply on_ledger_preserves; done
        | apply stmt_issued; intros ? ? ?; repeat (case_match; try done); by intros [= _ <-] ].

Lemma codes_issued e b codes mk : forall n, preserves (issued e b) (insert_codes codes n mk).
Proof. induction codes as [|k codes IH]; intros n; cbn [insert_codes]; solve_preserves; [apply insert_issued|apply IH]. Qed.

Lemma loops_issued e b keys mk : preserves (issued e b) (add_codes keys mk) /\ preserves (issued e b) (create_codes keys mk).
Proof.
  induction keys as [|k keys [IH1 IH2]]; cbn [add_codes create_codes]; [split; apply preserves_ret|].
  unfold RedemptionInsert. split; solve_preserves; first [apply insert_issued|apply IH1|apply IH2].
Qed.

Lemma exec_issued o fs e b y : issued e b (db_of y) -> issued e b (db_of (exec o fs y).2).
Proof.
  destruct y as [fl db]. cbn [db_of]. intros Hi.
  assert (forall A (m : R A), preserves (issued e b) m -> issued e b (tables (m (mkStore db fs)).2)) as Hq by (intros A m Hm; by apply Hm).
  destruct o; cbn [exec db_of editing].
  1: { pose proof (Hq _ (Redeem b0 key userId now later)) as H. destruct (Redeem b0 key userId now later (mkStore db fs)) as [r s'].
       apply H. unfold Redeem, redeem_tx, redeem_row, save_redemption. solve_issued. }
  3: { pose proof (Hq _ (UpdateRedemption_read c statusOnly d now)) as H.
       destruct (UpdateRedemption_read c statusOnly d now (mkStore db fs)) as [r s'].
       apply H. unfold UpdateRedemption_read, GetRedemptionById. solve_issued. }
  3: { destruct (fl !! i) as [row|]; [|done]. cbn [snd db_of]. apply Hq. unfold RedemptionUpdate. solve_issued. }
  8: { pose proof (Hq _ (PlanGrantV2 tenant token verify batch now)) as H.
       destruct (PlanGrantV2 tenant token verify batch now (mkStore db fs)) as [r s'].
       apply H. unfold PlanGrantV2, grant_credit, InsertPlanQuotaGrant, DeletePlanQuotaGrant. cbv zeta. solve_issued. }
  all: cbn [snd db_of]; apply Hq.
  - unfold AddRedemption. solve_preserves. apply loops_issued.
  - unfold CreateRedemptionV2. solve_preserves. apply loops_issued.
  - unfold DeleteRedemption, DeleteRedemptionById, RedemptionDelete, delete_redemptions, GetRedemptionById. solve_issued.
  - unfold DeleteRedemptionV2, RedemptionDelete, delete_redemptions, GetRedemptionById. solve_issued.
  - unfold DeleteInvalidRedemption, DeleteInvalidRedemptions, DeleteInvalidRedemptionsByTenant, delete_redemptions. solve_issued.
  - unfold ProvisionRedemptionBatchIdempotent, provision_tx, find_batch, decodeBatchCodes. solve_preserves.
    all: first [apply insert_batch_issued|apply codes_issued].
  - unfold RevokeProvisionedRedemptionBatch, find_batch, decodeBatchCodes. solve_issued.
Qed.
Lemma run_issued os e b : forall y, issued e b (db_of y) -> issued e b (db_of (run_ops os y).2).
Proof.
  induction os as [|[o fs] os IH]; intros y Hi; cbn [run_ops]; [done|].
  pose proof (exec_issued o fs e b y Hi) as H1. destruct (exec o fs y) as [cs1 y1]. specialize (IH y1 H1).
  by destruct (run_ops os y1).
Qed.

(** A batch that was minted is on record with its codes. *)
Lemma provision_ok t e n q p x src c now uuids s b codes s' :
  ProvisionRedemptionBatchIdempotent t e n q p x src c now uuids s = (Ok (b, codes, false), s') ->
  e <> EmptyString /\ issued e b (tables s') /\ b_Codes b = Json.Marshal codes.
Proof.
  unfold ProvisionRedemptionBatchIdempotent. destruct (String.eqb_spec e ""); [done|].
  destruct (n <=? 0); [done|]. destruct (q <=? 0); [done|]. unfold catch at 1.
  destruct (find_batch _ s) as [[[b'|]|e'] s1] eqn:Hf.
  { intros (cs & s2 & _ & H)%bind_ok. done. }
  all: unfold catch at 1; destruct (provision_tx _ _ _ _ _ _ _ _ _ s1) as [[b2|e2] s2] eqn:Htx;
    [intros [= <- <- <-]|destruct e2; try done; intros (race & s3 & _ & H)%bind_ok; destruct race; [|done]; by apply bind_ok in H as (cs & s4 & _ & H)].
  all: apply transaction_ok in Htx as (s3 & Htx & ->); unfold catch in Htx;
    destruct (insert_batch _ _ _ _ _ _ _ s1) as [[b3|e3] s4] eqn:Hins; [|by destruct e3];
    apply bind_ok in Htx as ([] & s5 & Hc & Hr); injection Hr as -> ->;
    pose proof (codes_issued e b2 (take (Z.to_nat n) uuids) (batch_row t p q x c now) 1 s4) as Hk; rewrite Hc in Hk;
    apply stmt_ok in Hins; (case_match; [done|]); (case_match eqn:Hnone; [done|]); injection Hins as <- Hb;
    (split_and!; [done| |done]); apply Hk; rewrite <- Hb; unfold issued, first_where; cbn; clear - Hnone;
    (induction (batches (tables s1)) as [|y l IH]; cbn in *; [by unfold by_batch_event; cbn; rewrite String.eqb_refl|]);
    apply orb_false_iff in Hnone as [-> Hn]; auto.
Qed.

Lemma decode_marshal codes s :
  Forall (fun k => ValidString k = true) codes -> decodeBatchCodes (Json.Marshal codes) s = (Ok codes, s).
Proof. intros Hv. unfold decodeBatchCodes. by rewrite Unmarshal_Marshal. Qed.

(** C9. A batch is minted once.  When a call has minted the codes of an event, then
    after any further operations a call with the same event, for whatever tenant and
    however the statements fail, changes nothing, and where it answers, answers with the
    codes of the first. *)
Theorem batch_replayed t e n q p x src c now uuids s b codes s1 editing os cs y t' n' q' p' x' src' c' now' uuids' fs :
  ProvisionRedemptionBatchIdempotent t e n q p x src c now uuids s = (Ok (b, codes, false), s1) ->
  Forall (fun k => ValidString k = true) codes ->
  run_ops os (mkSystem editing (tables s1)) = (cs, y) ->
  let (r, s2) := ProvisionRedemptionBatchIdempotent t' e n' q' p' x' src' c' now' uuids' (mkStore (db_of y) fs) in
  tables s2 = db_of y /\ (forall a, r = Ok a -> a = (b, codes, true)).
Proof.
  intros Hp Hv Hrun. apply provision_ok in Hp as (He & Hi & Hcodes).
  apply (run_issued os _ _ (mkSystem editing (tables s1))) in Hi. rewrite Hrun in Hi. cbn [snd] in Hi.
  revert Hi. generalize (db_of y). clear Hrun y cs. intros db Hi. clear - Hi Hcodes Hv He.
  unfold ProvisionRedemptionBatchIdempotent. destruct (String.eqb_spec e ""); [done|].
  destruct (n' <=? 0); [done|]. destruct (q' <=? 0); [done|].
  assert (forall fs', issued e b (tables (mkStore db fs'))) as Hi' by done.
  unfold catch at 1. destruct (find_batch _ (mkStore db fs)) as [[b1|e1] s1] eqn:Hf.
  - apply query_ok in Hf as [-> Ht]. cbn [tables] in Ht. unfold issued in Hi. cbn [tables]. rewrite Hi.
    unfold bind. rewrite Hcodes, decode_marshal by done. cbn. split; [done|]. by intros a [= <-].
  - assert (tables s1 = db) as Ht.
    { pose proof (query_readonly (E := credit_err) (fun d => first_where (by_batch_event e) (batches d)) (mkStore db fs)) as Hq.
      unfold find_batch in Hf. by rewrite Hf in Hq. }
    unfold catch at 1. destruct (provision_tx _ _ _ _ _ _ _ _ _ s1) as [[b2|e2] s2] eqn:Htx.
    + apply transaction_ok in Htx as (s3 & Htx & _). unfold catch in Htx.
      destruct (insert_batch _ _ _ _ _ _ _ s1) as [[b3|e3] s4] eqn:Hins; [|by destruct e3].
      apply stmt_ok in Hins. case_match; [done|]. case_match eqn:Hnone; [done|].
      apply first_where_some in Hi as [Hin Hby]. rewrite Ht in Hnone. rewrite <- not_true_iff_false in Hnone. destruct Hnone.
      apply existsb_exists. exists b. by rewrite <- list_elem_of_In.
    + apply transaction_atomic in Htx. rewrite Ht in Htx. destruct e2; try (by split).
      unfold bind at 1. destruct (find_batch _ s2) as [[b3|e3] s3] eqn:Hf2.
      * apply query_ok in Hf2 as [-> Ht2]. unfold issued in Hi. rewrite Htx, Hi. unfold bind. rewrite Hcodes, decode_marshal by done.
        cbn. split; [congruence|]. by intros a [= <-].
      * pose proof (query_readonly (E := credit_err) (fun d => first_where (by_batch_event e) (batches d)) s2) as Hq.
        unfold find_batch in Hf2. rewrite Hf2 in Hq. cbn in Hq. split; [congruence|done].
Qed.
(** ** Seats *)

(** The members of a seat plan together get no more than the plan's amount. *)
Lemma seat_shares_bounded ent accounts amount seats :
  Atoi (TrimSpace (claim ent "newhub_pool_amount")) = Some amount -> 0 < amount ->
  Atoi (TrimSpace (claim ent "seats")) = Some seats -> 1 < seats -> Z.of_nat (length accounts) <= seats ->
  sumZ (fun acc => match grant_terms ent acc with inl (a, _) => a | inr _ => 0 end) accounts <= amount.
Proof.
  intros Ha Hpos Hs Hone Hlen.
  assert (forall acc, match grant_terms ent acc with inl (a, _) => a | inr _ => 0 end <= amount `quot` seats) as Hshare.
  { intros acc. assert (0 <= amount `quot` seats) as Hq by (apply Z.quot_pos; lia). unfold grant_terms. rewrite Ha, Hs.
    destruct (amount <=? 0); [done|]. destruct (String.eqb _ ""); [done|]. destruct (Z.gtb_spec seats 1); [|lia].
    destruct (amount `quot` seats <=? 0); [done|]. cbv zeta. destruct (_ <? _)%nat; [done|lia]. }
  assert (sumZ (fun acc => match grant_terms ent acc with inl (a, _) => a | inr _ => 0 end) accounts
          <= Z.of_nat (length accounts) * (amount `quot` seats)) as Hsum.
  { clear Hlen. induction accounts as [|acc accounts IH]; cbn [sumZ foldr length]; [lia|]. specialize (Hshare acc).
    unfold sumZ in IH. lia. }
  pose proof (Z.mul_quot_le amount seats ltac:(lia) ltac:(lia)).
  assert (0 <= amount `quot` seats) by (apply Z.quot_pos; lia). nia.
Qed.

(** ** Two ways to be credited twice *)

Definition no_platform : billing := mkBilling false false (fun _ => false).
Definition member (id quota : Z) : User := mkUser id quota "default" 0 0 0 "" "" false.
Definition code_k : Redemption := mkRedemption 1 9 "acme" "k" RedemptionCodeStatusEnabled "launch" 100 0 0 0 0 false.
Definition two_members : creditdb :=
  mkCredit (mkLedger [member 1 0; member 2 0] [] ∅ ∅)
    {[1 := mkProfile "acme" None 1; 2 := mkProfile "acme" (Some 77) 1]} [code_k] [] [] 2 1 1.

(** An edit of a code is a read and a write of its row, status included, with
    nothing between them held: when the code is redeemed in between, the edit, of the
    name only, writes the old status back, and the code is redeemed a second time. *)
Theorem edit_reopens_code :
  exists clean s0 q1 s1 r' s2 q2 s3,
    GetRedemptionById 1 (mkStore two_members []) = (Ok clean, s0) /\
    Redeem no_platform "k" 1 10 10 s0 = (Ok q1, s1) /\
    edited false (mkEdit 1 "launch day" 100 0 0) 11 clean = Some r' /\ RedemptionUpdate r' s1 = (Ok tt, s2) /\
    Redeem no_platform "k" 2 12 12 s2 = (Ok q2, s3) /\
    q1 = 100 /\ q2 = 100 /\ balance 1 (tables s3) = 100 /\ balance 2 (tables s3) = 100.
Proof. eexists _, _, _, _, _, _, _, _. do 8 (split; [vm_compute; reflexivity|]). vm_compute. reflexivity. Qed.

(** The entitlement of a plan of 1000 units. *)
Definition entitlement : gmap string string :=
  {["plan_code" := "cc_pro"; "newhub_pool_amount" := "1000"; "subscription_id" := "sub-1"; "subscription_expires_at" := "2026-12-31"]}.
Definition checks_out (_ : string) : verification := Verified false "77" entitlement.

(** A period is granted once per tenant, not once: where the path names the
    platform's own tenant the tenant of the user is not compared, so the holder of one
    subscription is credited through the tenant's path and again through the platform's. *)
Theorem plan_granted_per_path :
  exists n1 s1 n2 s2,
    PlanGrantV2 (Some ("acme", true)) (Some "token") checks_out false 10 (mkStore two_members []) =
      (Ok (Granted 1000 "sub-1:2026-12-31" n1), s1) /\
    PlanGrantV2 (Some ("default", true)) (Some "token") checks_out false 11 s1 =
      (Ok (Granted 1000 "sub-1:2026-12-31" n2), s2) /\
    balance 2 (tables s2) = 2000.
Proof. eexists _, _, _, _. do 2 (split; [vm_compute; reflexivity|]). vm_compute. reflexivity. Qed.

Lemma two_members_sound : sound two_members.
Proof.
  split; cbn.
  - apply NoDup_singleton.
  - apply NoDup_singleton.
  - intros r Hr%list_elem_of_singleton. subst. done.
  - apply NoDup_nil_2.
  - intros g Hg. by apply not_elem_of_nil in Hg.
Qed.

(** A failed and a successful redemption, a grant, and the edit of [edit_reopens_code] with
    the redemptions around it. *)
Definition demo_schedule : list (op * list bool) :=
  [(OEdit (mkCaller 9 100 "acme") false (mkEdit 1 "launch day" 100 0 0) 9, []);
   (ORedeem no_platform "k" 1 10 10, [true]); (ORedeem no_platform "k" 1 11 11, []); (ORedeem no_platform "k" 2 12 12, []);
   (OGrant (Some ("acme", true)) (Some "token") checks_out false 13, []);
   (OWrite 0, []); (ORedeem no_platform "k" 2 14 14, [])].

Lemma credited_once_witness :
  let r := run_ops demo_schedule (mkSystem [] two_members) in
  omap code_of r.1 = ["k"; "k"] /\ reopened demo_schedule (mkSystem [] two_members) = ["k"] /\
  (times "k" (omap code_of r.1) <= 1 + times "k" (reopened demo_schedule (mkSystem [] two_members)))%nat /\
  balance 1 (db_of r.2) = 0 + 100 /\ balance 2 (db_of r.2) = 0 + 1100.
Proof.
  intros r.
  destruct (credited_once demo_schedule (mkSystem [] two_members) r.1 r.2) as (Ht & _ & _ & Hb).
  - apply two_members_sound.
  - apply surjective_pairing.
  - split; [vm_compute; reflexivity|]. split; [vm_compute; reflexivity|]. split; [apply Ht|].
    rewrite (Hb 1), (Hb 2). vm_compute. repeat split.
Defined.

Definition demo_batch (t : string) (n : Z) : R (ProvisionedRedemptionBatch * list string * bool) :=
  ProvisionRedemptionBatchIdempotent t "evt-1" n 500 "dist" 0 "platform" 0 10 ["aa"; "bb"].
Definition demo_row : ProvisionedRedemptionBatch :=
  mkBatch 1 "evt-1" "acme" 2 500 "platform" (Json.Marshal ["aa"; "bb"]) 10.

Lemma batch_replayed_witness :
  (demo_batch "acme" 2 (mkStore two_members [])).1 = Ok (demo_row, ["aa"; "bb"], false) /\
  forall a, (demo_batch "other" 1 (mkStore (tables (demo_batch "acme" 2 (mkStore two_members [])).2) [])).1 = Ok a ->
    a = (demo_row, ["aa"; "bb"], true).
Proof.
  assert ((demo_batch "acme" 2 (mkStore two_members [])).1 = Ok (demo_row, ["aa"; "bb"], false)) as H1 by (vm_compute; reflexivity).
  split; [exact H1|]. destruct (demo_batch "acme" 2 (mkStore two_members [])) as [r1 s1] eqn:E. cbn [fst] in H1. subst r1.
  pose proof (batch_replayed "acme" "evt-1" 2 500 "dist" 0 "platform" 0 10 ["aa"; "bb"] (mkStore two_members []) demo_row ["aa"; "bb"]
    s1 [] [] [] (mkSystem [] (tables s1)) "other" 1 500 "dist" 0 "platform" 0 10 ["aa"; "bb"] [] E ltac:(repeat constructor) eq_refl) as H.
  unfold demo_batch at 1. cbn [snd]. destruct (ProvisionRedemptionBatchIdempotent "other" _ _ _ _ _ _ _ _ _ _) as [r s2].
  exact (proj2 H).
Defined.
End CreditRuns.
