(* ===== verification/Decimal.v ===== *)
(** * Decimal arithmetic

    The gateway computes charges with github.com/shopspring/decimal: arbitrary-precision
    decimals whose sum, difference and product are exact, whose quotient is rounded to 16
    digits after the point, whose [Round(0)] goes to the nearest integer, halves away from
    zero, and whose [IntPart] is a machine integer.  The class [Decimals] is what the code
    calls of it and [DecimalLaws] what its documentation promises, as rational values; the
    instance at the end keeps the laws. *)

From Stdlib Require Import QArith Qround Qabs Lqa SpecFloat.
From S2P Require Import Prelude PlatformBilling.

Open Scope Z_scope.

Import PlatformBilling.

(** The nearest integer, halves away from zero. *)
Definition round_half_away (q : Q) : Z :=
  if Qle_bool 0 q then Qfloor (q + (1 # 2))%Q else (- Qfloor (- q + (1 # 2))%Q)%Z.

Definition is_finite (f : float64) : bool :=
  match f with S754_zero _ | S754_finite _ _ _ => true | S754_infinity _ | S754_nan => false end.

Definition f64_eq (a b : float64) : bool := SFeqb a b.
Definition f64_lt (a b : float64) : bool := SFltb a b.

(** Digits after the point of a quotient. *)
Definition DivisionScale : Z := 10 ^ 16.

Class Decimals : Type := {
  dec : Type;
  NewFromInt : Z -> dec;
  NewFromFloat : float64 -> dec;
  dAdd : dec -> dec -> dec;
  dSub : dec -> dec -> dec;
  dMul : dec -> dec -> dec;
  dDiv : dec -> dec -> dec;
  dRound : dec -> dec;
  IntPart : dec -> Z;
  dIsZero : dec -> bool;
  dLessThanOrEqual : dec -> dec -> bool
}.

Class DecimalLaws {Dec : Decimals} : Type := {
  val : dec -> Q;
  val_int z : (val (NewFromInt z) == inject_Z z)%Q;
  val_add a b : (val (dAdd a b) == val a + val b)%Q;
  val_sub a b : (val (dSub a b) == val a - val b)%Q;
  val_mul a b : (val (dMul a b) == val a * val b)%Q;
  val_div a b : (0 < val b)%Q ->
    exists z, (val (dDiv a b) == inject_Z z / inject_Z DivisionScale)%Q /\
      (Qabs (inject_Z z / inject_Z DivisionScale - val a / val b) * inject_Z (2 * DivisionScale) <= 1)%Q;
  val_round a : (val (dRound a) == inject_Z (round_half_away (val a)))%Q;
  val_intpart a z : (val a == inject_Z z)%Q -> IntPart a = wrap64 z;
  val_iszero a : dIsZero a = true <-> (val a == 0)%Q;
  val_le a b : dLessThanOrEqual a b = true <-> (val a <= val b)%Q;
  val_float_zero f : f64_eq f f64_zero = true -> (val (NewFromFloat f) == 0)%Q;
  val_float_pos f : is_finite f = true -> f64_lt f64_zero f = true -> (0 < val (NewFromFloat f))%Q;
  val_float_neg f : is_finite f = true -> f64_lt f f64_zero = true -> (val (NewFromFloat f) < 0)%Q
}.

#[global] Instance round_half_away_proper : Proper (Qeq ==> eq) round_half_away.
Proof.
  intros p q Hpq. unfold round_half_away. 
  assert (Qle_bool 0 p = Qle_bool 0 q) as ->.
  { apply eq_bool_prop_intro. rewrite !Is_true_true, !Qle_bool_iff, Hpq. done. }
  destruct (Qle_bool 0 q); [|f_equal]; apply Qfloor_comp; by rewrite Hpq.
Qed.

Lemma round_nonneg q : (0 <= q)%Q -> 0 <= round_half_away q.
Proof.
  intros Hq. unfold round_half_away. apply Qle_bool_iff in Hq as Hb. rewrite Hb.
  change 0 with (Qfloor 0). apply Qfloor_resp_le. apply (Qle_trans _ q); [done|].
  rewrite <- (Qplus_0_r q) at 1. apply Qplus_le_compat; [apply Qle_refl|discriminate].
Qed.

Lemma round_int z : round_half_away (inject_Z z) = z.
Proof.
  unfold round_half_away. destruct (Qle_bool 0 (inject_Z z)).
  - unfold Qfloor, Qplus. cbn [Qnum Qden inject_Z].
    change (Zpos (1 * 2)) with 2. Z.to_euclidean_division_equations; lia.
  - rewrite <- inject_Z_opp. unfold Qfloor, Qplus. cbn [Qnum Qden inject_Z]. change (Zpos (1 * 2)) with 2. Z.to_euclidean_division_equations; lia.
Qed.

Section DecimalFacts.
Context `{Laws : DecimalLaws}.

Definition Decimal_Zero : dec := NewFromInt 0.

Lemma val_zero : (val Decimal_Zero == 0)%Q.
Proof. apply val_int. Qed.

(** [.Round(0).IntPart()]. *)
Definition RoundInt (a : dec) : Z := IntPart (dRound a).

Lemma RoundInt_val a : RoundInt a = wrap64 (round_half_away (val a)).
Proof. unfold RoundInt. apply val_intpart, val_round. Qed.

(** A quotient of nothing by something is at least nothing. *)
Lemma val_div_nonneg a b : (0 <= val a)%Q -> (0 < val b)%Q -> (0 <= val (dDiv a b))%Q.
Proof.
  intros Ha Hb. destruct (val_div a b Hb) as (z & -> & Hz).
  assert (0 <= val a / val b)%Q as Hq.
  { apply Qle_shift_div_l; [done|]. by rewrite Qmult_0_l. }
  destruct (Z.le_gt_cases 0 z) as [Hp|Hn].
  { apply Qle_shift_div_l; [reflexivity|]. rewrite Qmult_0_l. change 0%Q with (inject_Z 0). by rewrite <- Zle_Qle. }
  exfalso. assert (inject_Z z / inject_Z DivisionScale <= -1 # 10000000000000000)%Q as Hz'.
  { apply Qle_shift_div_r; [reflexivity|]. apply (Qle_trans _ (inject_Z (-1))); [rewrite <- Zle_Qle; lia|]. vm_compute. discriminate. }
  set (x := (inject_Z z / inject_Z DivisionScale)%Q) in *. set (y := (val a / val b)%Q) in *.
  change (inject_Z (2 * DivisionScale)) with (20000000000000000 # 1)%Q in Hz. clearbody x y. clear - Hq Hz Hz'.
  assert (x - y <= -1 # 10000000000000000)%Q as Hd by (clear Hz; lra). clear Hq Hz'. set (w := (x - y)%Q) in *. clearbody w. clear x y.
  rewrite Qabs_neg in Hz by (apply (Qle_trans _ _ _ Hd); discriminate). lra.
Qed.

Lemma val_float_nonneg f : is_finite f = true -> f64_lt f f64_zero = false -> (0 <= val (NewFromFloat f))%Q.
Proof.
  intros Hf Hn. destruct f as [[]|[]| |[] m e]; try done; try (rewrite val_float_zero; [done|reflexivity]).
  apply Qlt_le_weak, val_float_pos; reflexivity.
Qed.

Lemma val_nonneg_mul a b : (0 <= val a)%Q -> (0 <= val b)%Q -> (0 <= val (dMul a b))%Q.
Proof. intros Ha Hb. rewrite val_mul. by apply Qmult_le_0_compat. Qed.

Lemma val_nonneg_add a b : (0 <= val a)%Q -> (0 <= val b)%Q -> (0 <= val (dAdd a b))%Q.
Proof. intros Ha Hb. rewrite val_add. rewrite <- (Qplus_0_r 0). by apply Qplus_le_compat. Qed.

Lemma val_nonneg_int z : 0 <= z -> (0 <= val (NewFromInt z))%Q.
Proof. intros Hz. rewrite val_int. change 0%Q with (inject_Z 0). by rewrite <- Zle_Qle. Qed.
End DecimalFacts.

#[export] Hint Resolve val_nonneg_mul val_nonneg_add val_nonneg_int val_float_nonneg val_div_nonneg : hub.

(** ** An instance *)

Definition float_value (f : float64) : Q :=
  match f with
  | S754_finite s m e =>
      let m := if s then Zneg m else Zpos m in
      if 0 <=? e then inject_Z (m * 2 ^ e) else (m # (2 ^ Z.to_pos (- e)))%Q
  | _ => 0%Q
  end.

#[global] Instance rationals : Decimals := {
  dec := Q;
  NewFromInt := inject_Z;
  NewFromFloat := float_value;
  dAdd a b := Qred (a + b)%Q;
  dSub a b := Qred (a - b)%Q;
  dMul a b := Qred (a * b)%Q;
  dDiv a b := (inject_Z (round_half_away (a / b * inject_Z DivisionScale)) / inject_Z DivisionScale)%Q;
  dRound a := inject_Z (round_half_away a);
  IntPart a := wrap64 (if Qle_bool 0 a then Qfloor a else Qceiling a);
  dIsZero a := Qeq_bool a 0;
  dLessThanOrEqual a b := Qle_bool a b
}.

Lemma round_near q : (Qabs (inject_Z (round_half_away q) - q) <= 1 # 2)%Q.
Proof.
  assert (forall x, (inject_Z (Qfloor (x + (1 # 2))) - x <= 1 # 2 /\ - (1 # 2) <= inject_Z (Qfloor (x + (1 # 2))) - x)%Q) as H.
  { intros x. pose proof (Qfloor_le (x + (1 # 2))). pose proof (Qlt_floor (x + (1 # 2))) as Hl. rewrite inject_Z_plus in Hl.
    change (inject_Z 1) with 1%Q in Hl. split; lra. }
  unfold round_half_away. apply Qabs_Qle_condition. destruct (Qle_bool 0 q).
  - destruct (H q). split; lra.
  - destruct (H (- q)%Q). rewrite inject_Z_opp. split; lra.
Qed.

Lemma float_value_pos m e : (0 < float_value (S754_finite false m e))%Q /\ (float_value (S754_finite true m e) < 0)%Q.
Proof.
  unfold float_value. destruct (Z.leb_spec 0 e) as [He|He]; [|by split].
  pose proof (Z.pow_pos_nonneg 2 e ltac:(lia) He). unfold Qlt. cbn [Qnum Qden inject_Z]. split; nia.
Qed.

#[global] Instance rationals_laws : DecimalLaws.
Proof.
  refine {| val := fun q : dec => q : Q |}.
  - reflexivity.
  - intros a b. apply Qred_correct.
  - intros a b. apply Qred_correct.
  - intros a b. apply Qred_correct.
  - intros a b Hb. eexists. split; [reflexivity|].
    set (q := (a / b)%Q). set (z := round_half_away (q * inject_Z DivisionScale)).
    pose proof (round_near (q * inject_Z DivisionScale)) as Hz. fold z in Hz.
    apply Qabs_Qle_condition in Hz. change (inject_Z DivisionScale) with (10000000000000000 # 1)%Q in *.
    change (inject_Z (2 * DivisionScale)) with (20000000000000000 # 1)%Q.
    assert (inject_Z z / (10000000000000000 # 1) == inject_Z z * (1 # 10000000000000000))%Q as -> by reflexivity.
    clearbody q z. destruct Hz as [H1 H2].
    apply (Qle_trans _ ((1 # 20000000000000000) * (20000000000000000 # 1))); [|discriminate].
    apply Qmult_le_compat_r; [|discriminate]. apply Qabs_Qle_condition. split; lra.
  - reflexivity.
  - intros a z Ha. cbn. f_equal. destruct (Qle_bool 0 a).
    + rewrite (Qfloor_comp _ _ Ha). apply Qfloor_Z.
    + rewrite (Qceiling_comp _ _ Ha). apply Qceiling_Z.
  - intros a. apply Qeq_bool_iff.
  - intros a b. apply Qle_bool_iff.
  - intros f Hf. by destruct f as [[]|[]| |[]].
  - intros f Hf Hp. destruct f as [[]|[]| |[] m e]; try done. apply float_value_pos.
  - intros f Hf Hp. destruct f as [[]|[]| |[] m e]; try done. apply float_value_pos.
Defined.
