(* ===== verification/Prices.v ===== *)
(** * Prices

    Model of the price tables and of how a request is priced: the lookups of
    internal/pkg/setting/ratio_setting (model_ratio.go, model_family.go,
    model_ratio_systemone.go, cache_ratio.go, image_ratio.go, group_ratio.go,
    context_tiers.go, search_unit_price.go), the tool prices of internal/pkg/setting/
    operation_setting/tools.go, [PriceData] of internal/pkg/types/price_data.go and the
    price helper of internal/app/relay/helper/price.go.

    The tables are the state an administrator edits; prices are IEEE doubles and a Go
    constant expression is the double nearest to its exact value. *)

From Stdlib Require Import SpecFloat.
From S2P Require Import Prelude GoStrings PlatformBilling ChannelCache Decimal.

Module Prices.
Import GoStrings PlatformBilling.

(** The double nearest to [n / d]. *)
Definition f64 (n d : Z) : float64 := f64_div (f64_of_int n) (f64_of_int d).
Definition f64_one : float64 := f64_of_int 1.

(** ** The tables *)

Record ContextTier := mkTier {
  ThresholdTokens : Z;
  t_ModelRatio : option float64;
  t_CompletionRatio : option float64;
  t_CacheRatio : option float64
}.

Record tables := mkTables {
  modelPriceMap : gmap string float64;
  modelRatioMap : gmap string float64;
  CompletionRatioMap : gmap string float64;
  cacheRatioMap : gmap string float64;
  createCacheRatioMap : gmap string float64;
  imageRatioMap : gmap string float64;
  audioRatioMap : gmap string float64;
  audioCompletionRatioMap : gmap string float64;
  groupRatio : gmap string float64;
  GroupGroupRatio : gmap string (gmap string float64);
  contextTiersMap : gmap string (list ContextTier);
  searchUnitPriceMap : gmap string float64;
  ModelFallbackMarkup : float64;
  SelfUseModeEnabled : bool
}.

Definition GetModelPrice (t : tables) (name : string) : option float64 :=
  modelPriceMap t !! ChannelCache.FormatMatchingModelName name.

(** ** Families *)

Record familyRule := mkRule { prefix : string; tier : string; ratio : float64 }.

Definition modelFamilyRules : list familyRule :=
  [ mkRule "gemini-" "flash-lite" (f64 5 100); mkRule "gemini-" "flash-image" (f64 75 1000);
    mkRule "gemini-" "flash" (f64 75 1000); mkRule "gemini-" "pro-image" (f64 625 1000);
    mkRule "gemini-" "pro" (f64 625 1000); mkRule "gemini-" "embedding" (f64 75 1000);
    mkRule "gemini-" "" (f64 75 1000);
    mkRule "claude-" "haiku" (f64 5 10); mkRule "claude-" "sonnet" (f64 15 10);
    mkRule "claude-" "opus" (f64 75 10); mkRule "claude-" "" (f64 15 10);
    mkRule "gpt-" "nano" (f64 5 100); mkRule "gpt-" "mini" (f64 2 10);
    mkRule "gpt-" "turbo" (f64_of_int 5); mkRule "gpt-" "" (f64 125 100);
    mkRule "o1-" "pro" (f64_of_int 75); mkRule "o1-" "mini" (f64 55 100); mkRule "o1-" "" (f64 75 10);
    mkRule "o3-" "pro" (f64_of_int 10); mkRule "o3-" "mini" (f64 55 100); mkRule "o3-" "" f64_one;
    mkRule "o4-" "mini" (f64 55 100); mkRule "o4-" "" f64_one;
    mkRule "deepseek-" "pro" (f64 66 100); mkRule "deepseek-" "chat" (f64 15 100);
    mkRule "deepseek-" "coder" (f64 15 100); mkRule "deepseek-" "reasoner" (f64 15 100); mkRule "deepseek-" "" (f64 15 100);
    mkRule "qwen-" "turbo" (f64 86 100); mkRule "qwen-" "plus" (f64_of_int 10);
    mkRule "qwen-" "max" (f64_of_int 10); mkRule "qwen-" "" (f64 86 100);
    mkRule "glm-" "4-flash" f64_zero; mkRule "glm-" "4-air" (f64 7 100); mkRule "glm-" "4" (f64 357 100); mkRule "glm-" "" (f64 36 100);
    mkRule "moonshot-" "" (f64 86 100);
    mkRule "doubao-" "lite" (f64 14 1000); mkRule "doubao-" "pro" (f64 57 1000); mkRule "doubao-" "" (f64 57 1000) ].

Definition rule_matches (lower : string) (r : familyRule) : bool :=
  HasPrefix lower (prefix r) && (String.eqb (tier r) "" || Contains (TrimPrefix lower (prefix r)) (tier r)).

Definition ModelFamilyFallback (name : string) : option float64 :=
  ratio <$> List.find (rule_matches (ToLower name)) modelFamilyRules.

Definition systemOneModels : list string :=
  ["jev-latest"; "jev-preview"; "jev-1.13.0"; "laya-auto"; "laya-english"; "laya-multilingual"; "laya-typed-decisions"].

Definition systemOneDefaultRatio (name : string) : option float64 :=
  if existsb (String.eqb name) systemOneModels then Some (f64 21 1000) else None.

(** The ratio, and whether the model counts as priced. *)
Definition GetModelRatio (t : tables) (name : string) : float64 * bool :=
  let name := ChannelCache.FormatMatchingModelName name in
  match modelRatioMap t !! name with
  | Some r => (r, true)
  | None =>
      match systemOneDefaultRatio name with
      | Some r => (r, true)
      | None =>
          match ModelFamilyFallback name with
          | Some base =>
              let markup := if SFleb (ModelFallbackMarkup t) f64_zero then f64_one else ModelFallbackMarkup t in
              (f64_mul base markup, true)
          | None => (f64 375 10, SelfUseModeEnabled t)
          end
      end
  end.

(** ** Completion ratios *)

(** The ratio written in the code, and whether it outranks the table. *)
Definition getHardcodedCompletionModelRatio (name : string) : float64 * bool :=
  let n z := f64_of_int z in
  match systemOneDefaultRatio name with
  | Some _ => (f64_zero, true)
  | None =>
  if HasSuffix name "-all" || HasSuffix name "-gizmo-*" then (n 2, false)
  else if HasPrefix name "gpt-" then
    if HasPrefix name "gpt-4o" then
      if String.eqb name "gpt-4o-2024-05-13" then (n 3, true)
      else if HasPrefix name "gpt-4o-mini-tts" then (n 20, false)
      else (n 4, false)
    else if HasPrefix name "gpt-5" then (n 8, true)
    else if HasPrefix name "gpt-6" then (n 5, true)
    else if HasPrefix name "gpt-4.5-preview" then (n 2, true)
    else if HasPrefix name "gpt-4-turbo" || HasSuffix name "gpt-4-1106" || HasSuffix name "gpt-4-1105" then (n 3, true)
    else (n 2, false)
  else if HasPrefix name "o1" || HasPrefix name "o3" then (n 4, true)
  else if String.eqb name "chatgpt-4o-latest" then (n 3, true)
  else if Contains name "claude-3" then (n 5, true)
  else if Contains name "claude-sonnet-4" || Contains name "claude-opus-4" || Contains name "claude-haiku-4" then (n 5, true)
  else if Contains name "claude-instant-1" || Contains name "claude-2" then (n 3, true)
  else if HasPrefix name "gpt-3.5" then
    if String.eqb name "gpt-3.5-turbo" || HasSuffix name "0125" then (n 3, true)
    else if HasSuffix name "1106" then (n 2, true)
    else (f64 4 3, true)
  else if HasPrefix name "mistral-" then (n 3, true)
  else if HasPrefix name "gemini-" then
    if HasPrefix name "gemini-1.5" then (n 4, true)
    else if HasPrefix name "gemini-2.0" then (n 4, true)
    else if HasPrefix name "gemini-2.5-pro" then (n 8, false)
    else if HasPrefix name "gemini-2.5-flash" then
      if HasPrefix name "gemini-2.5-flash-preview" then
        if HasSuffix name "-nothinking" then (n 4, false) else (f64 350 15, false)
      else if HasPrefix name "gemini-2.5-flash-lite" then (n 4, false)
      else (f64 25 3, false)
    else if HasPrefix name "gemini-robotics-er-1.5" then (f64 25 3, false)
    else if HasPrefix name "gemini-3-pro" then
      if HasPrefix name "gemini-3-pro-image" then (n 60, false) else (n 6, false)
    else (n 4, false)
  else if HasPrefix name "command" then
    if String.eqb name "command-r" then (n 3, true)
    else if String.eqb name "command-r-plus" then (n 5, true)
    else if String.eqb name "command-r-08-2024" then (n 4, true)
    else if String.eqb name "command-r-plus-08-2024" then (n 4, true)
    else (n 4, false)
  else if HasPrefix name "ERNIE-Speed-" then (n 2, true)
  else if HasPrefix name "ERNIE-Lite-" then (n 2, true)
  else if HasPrefix name "ERNIE-Character" then (n 2, true)
  else if HasPrefix name "ERNIE-Functions" then (n 2, true)
  else if String.eqb name "llama2-70b-4096" then (f64 125 100, true)
  else if String.eqb name "llama3-8b-8192" then (n 2, true)
  else if String.eqb name "llama3-70b-8192" then (f64 79 59, true)
  else if HasPrefix name "deepseek-" && negb (Contains name "/") then
    if HasPrefix name "deepseek-v4-pro" then (n 3, false) else (n 4, false)
  else (n 1, false)
  end.

Definition GetCompletionRatio (t : tables) (name : string) : float64 :=
  let name := ChannelCache.FormatMatchingModelName name in
  let '(hardCodedRatio, contain) := getHardcodedCompletionModelRatio name in
  let rest := if contain : bool then hardCodedRatio else default hardCodedRatio (CompletionRatioMap t !! name) in
  if Contains name "/" then default rest (CompletionRatioMap t !! name) else rest.

(** ** The other ratios *)

(** A table looked up by the name and then by its matching name. *)
Definition by_name (m : gmap string float64) (name : string) : option float64 :=
  match m !! name with Some r => Some r | None => m !! ChannelCache.FormatMatchingModelName name end.

Definition GetCacheRatio (t : tables) (name : string) : float64 * bool :=
  match by_name (cacheRatioMap t) name with Some r => (r, true) | None => (f64_one, false) end.

Definition GetCreateCacheRatio (t : tables) (name : string) : float64 * bool :=
  match by_name (createCacheRatioMap t) name with Some r => (r, true) | None => (f64 125 100, false) end.

Definition GetImageRatio (t : tables) (name : string) : float64 * bool :=
  match by_name (imageRatioMap t) name with Some r => (r, true) | None => (f64_one, false) end.

Definition GetAudioRatio (t : tables) (name : string) : float64 :=
  default f64_one (audioRatioMap t !! ChannelCache.FormatMatchingModelName name).

Definition GetAudioCompletionRatio (t : tables) (name : string) : float64 :=
  default f64_one (audioCompletionRatioMap t !! ChannelCache.FormatMatchingModelName name).

Definition GetGroupRatio (t : tables) (name : string) : float64 := default f64_one (groupRatio t !! name).

Definition GetGroupGroupRatio (t : tables) (userGroup usingGroup : string) : option float64 :=
  gp ← GroupGroupRatio t !! userGroup; gp !! usingGroup.

(** ** Context-length tiers *)

Definition maxContextTiersPerModel : nat := 8.

Fixpoint best_tier (promptTokens : Z) (tiers : list ContextTier) (best : option ContextTier) : option ContextTier :=
  match tiers with
  | [] => best
  | c :: tiers' =>
      if ThresholdTokens c >? promptTokens then best_tier promptTokens tiers' best
      else match best with
           | Some b => if ThresholdTokens c >? ThresholdTokens b then best_tier promptTokens tiers' (Some c)
                       else best_tier promptTokens tiers' best
           | None => best_tier promptTokens tiers' (Some c)
           end
  end.

Definition GetContextLengthTier (t : tables) (model : string) (promptTokens : Z) : option ContextTier :=
  best_tier promptTokens (default [] (contextTiersMap t !! model)) None.

Definition HasContextLengthTiers (t : tables) (model : string) : bool :=
  negb (length (default [] (contextTiersMap t !! model)) =? 0)%nat.

Definition ratio_allowed (r : option float64) : bool :=
  match r with Some r => negb (SFleb r f64_zero) | None => true end.

Fixpoint tiers_valid (prevThreshold : Z) (l : list ContextTier) : bool :=
  match l with
  | [] => true
  | c :: l' =>
      negb (ThresholdTokens c <? 0) && negb (ThresholdTokens c <=? prevThreshold) &&
      ratio_allowed (t_ModelRatio c) && ratio_allowed (t_CompletionRatio c) && ratio_allowed (t_CacheRatio c) &&
      tiers_valid (ThresholdTokens c) l'
  end.

Definition ValidateContextTierList (l : list ContextTier) : bool :=
  (length l <=? maxContextTiersPerModel)%nat && tiers_valid (-1) l.

(** ** Search units *)

Definition SearchUnitDocsPerUnit : Z := 100.

Definition SearchUnits (documents queries : Z) : Z :=
  if (documents <=? 0) || (queries <=? 0) then 0
  else i64_mul (Z.quot (i64_sub (i64_add documents SearchUnitDocsPerUnit) 1) SearchUnitDocsPerUnit) queries.

Definition GetSearchUnitPrice (t : tables) (name : string) : option float64 :=
  searchUnitPriceMap t !! ChannelCache.FormatMatchingModelName name.

(** ** Tool prices *)

Definition WebSearchPriceHigh : float64 := f64_of_int 25.
Definition WebSearchPrice : float64 := f64_of_int 10.
Definition FileSearchPrice : float64 := f64 25 10.
Definition ClaudeWebSearchPrice : float64 := f64_of_int 10.

(** The context size is not looked at. *)
Definition GetWebSearchPricePerThousand (modelName : string) : float64 :=
  if HasPrefix modelName "o3" || HasPrefix modelName "o4" || HasPrefix modelName "gpt-5" then WebSearchPrice
  else WebSearchPriceHigh.

Definition GetGeminiInputAudioPricePerMillionTokens (modelName : string) : float64 :=
  if HasPrefix modelName "gemini-2.5-flash-preview-native-audio" then f64_of_int 3
  else if HasPrefix modelName "gemini-2.5-flash-preview-lite" then f64 5 10
  else if HasPrefix modelName "gemini-2.5-flash-preview" then f64_one
  else if HasPrefix modelName "gemini-2.5-flash" then f64_one
  else if HasPrefix modelName "gemini-2.0-flash" then f64 7 10
  else if HasPrefix modelName "gemini-robotics-er-1.5" then f64_one
  else f64_zero.

Definition GetGPTImage1PriceOnceCall (quality size : string) : float64 :=
  let high := f64 167 1000 in
  let row a b c :=
    if String.eqb size "1024x1024" then a
    else if String.eqb size "1024x1536" then b
    else if String.eqb size "1536x1024" then c
    else high in
  if String.eqb quality "low" then row (f64 11 1000) (f64 16 1000) (f64 16 1000)
  else if String.eqb quality "medium" then row (f64 42 1000) (f64 63 1000) (f64 63 1000)
  else if String.eqb quality "high" then row high (f64 25 100) (f64 25 100)
  else high.

(** ** The price of a request *)

Record GroupRatioInfo := mkGroupRatio {
  GroupRatio : float64;
  GroupSpecialRatio : float64;
  HasSpecialRatio : bool
}.

Record PriceData := mkPrice {
  FreeModel : bool;
  ModelPrice : float64;
  ModelRatio : float64;
  CompletionRatio : float64;
  CacheRatio : float64;
  CacheCreationRatio : float64;
  CacheCreation5mRatio : float64;
  CacheCreation1hRatio : float64;
  CacheCreationRatioDefaulted : bool;
  ImageRatio : float64;
  AudioRatio : float64;
  AudioCompletionRatio : float64;
  OtherRatios : list (string * float64);     (* in the order of one iteration *)
  UsePrice : bool;
  QuotaToPreConsume : Z;
  p_GroupRatioInfo : GroupRatioInfo;
  ContextTierThreshold : Z;
  BaseModelRatio : float64;
  BaseCompletionRatio : float64;
  BaseCacheRatio : float64;
  BaseRatiosSet : bool
}.

Definition CacheCreationRatioForWire (p : PriceData) (promptIncludesCached : bool) : float64 :=
  if promptIncludesCached && CacheCreationRatioDefaulted p then f64_one else CacheCreationRatio p.

(** What the price helper reads of a request: its groups, [auto_group] when the context
    has one; [Documents] of a rerank request. *)
Record request := mkRequest {
  OriginModelName : string;
  UserGroup : string;
  UsingGroup : string;
  auto_group : option string;
  IsRerank : bool;
  Documents : option nat;
  UpstreamModelName : string;
  IsOpenRouter : bool;
  AcceptUnsetRatioModel : bool
}.

(** The group that serves the request, and its ratio. *)
Definition HandleGroupRatio (t : tables) (q : request) : string * GroupRatioInfo :=
  let usingGroup := match auto_group q with Some g => g | None => UsingGroup q end in
  (usingGroup,
   match GetGroupGroupRatio t (UserGroup q) usingGroup with
   | Some r => mkGroupRatio r r true
   | None => mkGroupRatio (GetGroupRatio t usingGroup) (f64_of_int (-1)) false
   end).

Definition RerankSearchUnits (q : request) : Z :=
  SearchUnits (match Documents q with Some n => Z.of_nat n | None => 0 end) 1.

Definition SearchUnitPriced (t : tables) (q : request) : option float64 :=
  if negb (IsRerank q) then None else GetSearchUnitPrice t (OriginModelName q).

Definition isOpenRouterFreeModel (q : request) : bool :=
  if negb (IsOpenRouter q) then false
  else HasSuffix (if String.eqb (UpstreamModelName q) "" then OriginModelName q else UpstreamModelName q) ":free".

Definition claudeCacheCreation1hMultiplier : float64 := f64 8 5.

(** The settings of pre-consumption. *)
Record preconsume := mkPreconsume { PreConsumedQuota : Z; EnableFreeModelPreConsume : bool }.

(** A tier over the flat ratios: model, completion and cache ratio, and the threshold. *)
Definition tiered (tr : option ContextTier) (m c k : float64) : float64 * float64 * float64 * Z :=
  match tr with
  | Some tr => (default m (t_ModelRatio tr), default c (t_CompletionRatio tr), default k (t_CacheRatio tr), ThresholdTokens tr)
  | None => (m, c, k, 0)
  end.

Definition free_model (s : preconsume) (g : GroupRatioInfo) (usePrice : bool) (modelPrice modelRatio : float64) : bool :=
  negb (EnableFreeModelPreConsume s) &&
  (f64_eq (GroupRatio g) f64_zero || (if usePrice then f64_eq modelPrice f64_zero else f64_eq modelRatio f64_zero)).

(** [None]: the model has no price.  Prices by call leave the ratios zero. *)
Definition ModelPriceHelper (t : tables) (s : preconsume) (rt : rates) (q : request) (promptTokens maxTokens : Z)
    (imagePriceRatio : float64) : option PriceData :=
  let name := OriginModelName q in
  let '(modelPrice, usePrice) :=
    match SearchUnitPriced t q with
    | Some sup => (f64_mul sup (f64_of_int (RerankSearchUnits q)), true)
    | None => match GetModelPrice t name with Some p => (p, true) | None => (f64_of_int (-1), false) end
    end in
  let g := snd (HandleGroupRatio t q) in
  if usePrice : bool then
    let modelPrice := if f64_eq imagePriceRatio f64_zero then modelPrice else f64_mul modelPrice imagePriceRatio in
    let pre := trunc64 (f64_mul (f64_mul modelPrice (quota_per_unit rt)) (GroupRatio g)) in
    let free := free_model s g true modelPrice f64_zero in
    Some (mkPrice free modelPrice f64_zero f64_zero f64_zero f64_zero f64_zero f64_zero false f64_zero f64_zero f64_zero []
            true (if free then 0 else pre) g 0 f64_zero f64_zero f64_zero true)
  else
    let base := Z.max promptTokens (PreConsumedQuota s) in
    let preConsumedTokens := if maxTokens =? 0 then base else i64_add base maxTokens in
    let '(modelRatio, success) :=
      let '(r, ok) := GetModelRatio t name in
      if negb ok && isOpenRouterFreeModel q then (f64_zero, true) else (r, ok) in
    if negb success && negb (AcceptUnsetRatioModel q) then None
    else
      let completionRatio := GetCompletionRatio t name in
      let cacheRatio := fst (GetCacheRatio t name) in
      let '(create, listed) := GetCreateCacheRatio t name in
      let '(m, c, k, threshold) := tiered (GetContextLengthTier t name promptTokens) modelRatio completionRatio cacheRatio in
      let pre := trunc64 (f64_mul (f64_of_int preConsumedTokens) (f64_mul m (GroupRatio g))) in
      let free := free_model s g false modelPrice m in
      Some (mkPrice free modelPrice m c k create create (f64_mul create claudeCacheCreation1hMultiplier) (negb listed)
              (fst (GetImageRatio t name)) (GetAudioRatio t name) (GetAudioCompletionRatio t name) []
              false (if free then 0 else pre) g threshold modelRatio completionRatio cacheRatio true).

(** The ratios a settlement reads, decided again on the actual context length. *)
Definition ResettleContextTier (t : tables) (p : PriceData) (modelName : string) (actualPromptTokens : Z) : PriceData :=
  if UsePrice p then p
  else if negb (HasContextLengthTiers t modelName) then p
  else if negb (BaseRatiosSet p) then p
  else
    let '(m, c, k, threshold) :=
      tiered (GetContextLengthTier t modelName actualPromptTokens) (BaseModelRatio p) (BaseCompletionRatio p) (BaseCacheRatio p) in
    mkPrice (FreeModel p) (ModelPrice p) m c k (CacheCreationRatio p) (CacheCreation5mRatio p) (CacheCreation1hRatio p)
      (CacheCreationRatioDefaulted p) (ImageRatio p) (AudioRatio p) (AudioCompletionRatio p) (OtherRatios p)
      (UsePrice p) (QuotaToPreConsume p) (p_GroupRatioInfo p) threshold
      (BaseModelRatio p) (BaseCompletionRatio p) (BaseCacheRatio p) (BaseRatiosSet p).

(** Prices by call of the task relays: the configured price, the built-in one, or 0.1. *)
Definition ModelPriceHelperPerCall (t : tables) (defaults : gmap string float64) (rt : rates) (q : request) : float64 * Z :=
  let g := snd (HandleGroupRatio t q) in
  let modelPrice :=
    match GetModelPrice t (OriginModelName q) with
    | Some p => p
    | None => default (f64 1 10) (defaults !! OriginModelName q)
    end in
  (modelPrice, trunc64 (f64_mul (f64_mul modelPrice (quota_per_unit rt)) (GroupRatio g))).
End Prices.
