(* ===== verification/PriceTables.v ===== *)
(** * The price tables

    Model of the state behind [Prices.tables]: the tables the program starts with
    (defaultModelRatio, defaultModelPrice, defaultCompletionRatio, defaultAudioRatio,
    defaultAudioCompletionRatio and [InitRatioSettings] of internal/pkg/setting/
    ratio_setting/model_ratio.go, defaultCacheRatio and defaultCreateCacheRatio of
    cache_ratio.go, defaultImageRatio of image_ratio.go, groupRatio of group_ratio.go, the
    [init] of model_ratio_systemone.go), the operations that replace a table, and the
    lookups of administration ([GetModelPricingSource], [GetModelRatioOrPrice]).

    A constant expression of the Go source is evaluated as Go does, exactly, with a quotient
    of two integer constants truncated, and then rounded to a double. *)

From Stdlib Require Import SpecFloat.
From S2P Require Import Prelude GoStrings PlatformBilling ChannelCache Decimal Prices.

Module PriceTables.
Import GoStrings PlatformBilling Prices.

(** ** The tables at start *)

Definition defaultModelRatio : list (string * float64) :=
  [ ("gpt-4-gizmo-*", f64_of_int 15); ("gpt-4o-gizmo-*", f64 5 2); ("gpt-4-all", f64_of_int 15);
    ("gpt-4o-all", f64_of_int 15); ("gpt-4", f64_of_int 15); ("gpt-4-0613", f64_of_int 15); ("gpt-4-32k", f64_of_int 30);
    ("gpt-4-32k-0613", f64_of_int 30); ("gpt-4-1106-preview", f64_of_int 5); ("gpt-4-0125-preview", f64_of_int 5);
    ("gpt-4-turbo-preview", f64_of_int 5); ("gpt-4-vision-preview", f64_of_int 5);
    ("gpt-4-1106-vision-preview", f64_of_int 5); ("chatgpt-4o-latest", f64 5 2); ("gpt-4o", f64 5 4);
    ("gpt-4o-audio-preview", f64 5 4); ("gpt-4o-audio-preview-2024-10-01", f64 5 4); ("gpt-4o-2024-05-13", f64 5 2);
    ("gpt-4o-2024-08-06", f64 5 4); ("gpt-4o-2024-11-20", f64 5 4); ("gpt-4o-realtime-preview", f64 5 2);
    ("gpt-4o-realtime-preview-2024-10-01", f64 5 2); ("gpt-4o-realtime-preview-2024-12-17", f64 5 2);
    ("gpt-4o-mini-realtime-preview", f64 3 10); ("gpt-4o-mini-realtime-preview-2024-12-17", f64 3 10); ("gpt-4.1", f64_one);
    ("gpt-4.1-2025-04-14", f64_one); ("gpt-4.1-mini", f64 1 5); ("gpt-4.1-mini-2025-04-14", f64 1 5);
    ("gpt-4.1-nano", f64 1 20); ("gpt-4.1-nano-2025-04-14", f64 1 20); ("gpt-image-1", f64 5 2); ("o1", f64 15 2);
    ("o1-2024-12-17", f64 15 2); ("o1-preview", f64 15 2); ("o1-preview-2024-09-12", f64 15 2); ("o1-mini", f64 11 20);
    ("o1-mini-2024-09-12", f64 11 20); ("o1-pro", f64_of_int 75); ("o1-pro-2025-03-19", f64_of_int 75);
    ("o3-mini", f64 11 20); ("o3-mini-2025-01-31", f64 11 20); ("o3-mini-high", f64 11 20);
    ("o3-mini-2025-01-31-high", f64 11 20); ("o3-mini-low", f64 11 20); ("o3-mini-2025-01-31-low", f64 11 20);
    ("o3-mini-medium", f64 11 20); ("o3-mini-2025-01-31-medium", f64 11 20); ("o3", f64_one); ("o3-2025-04-16", f64_one);
    ("o3-pro", f64_of_int 10); ("o3-pro-2025-06-10", f64_of_int 10); ("o3-deep-research", f64_of_int 5);
    ("o3-deep-research-2025-06-26", f64_of_int 5); ("o4-mini", f64 11 20); ("o4-mini-2025-04-16", f64 11 20);
    ("o4-mini-deep-research", f64_one); ("o4-mini-deep-research-2025-06-26", f64_one); ("gpt-4o-mini", f64 3 40);
    ("gpt-4o-mini-2024-07-18", f64 3 40); ("gpt-4-turbo", f64_of_int 5); ("gpt-4-turbo-2024-04-09", f64_of_int 5);
    ("gpt-4.5-preview", f64 75 2); ("gpt-4.5-preview-2025-02-27", f64 75 2); ("gpt-5", f64 5 8);
    ("gpt-5-2025-08-07", f64 5 8); ("gpt-5-chat-latest", f64 5 8); ("gpt-5-mini", f64 1 8);
    ("gpt-5-mini-2025-08-07", f64 1 8); ("gpt-5-nano", f64 1 40); ("gpt-5-nano-2025-08-07", f64 1 40);
    ("gpt-6-sol", f64_one); ("gpt-6-luna", f64 1 20); ("gpt-6.1-sol", f64_one); ("gpt-3.5-turbo", f64 1 4);
    ("gpt-3.5-turbo-0613", f64 3 4); ("gpt-3.5-turbo-16k", f64 3 2); ("gpt-3.5-turbo-16k-0613", f64 3 2);
    ("gpt-3.5-turbo-instruct", f64 3 4); ("gpt-3.5-turbo-1106", f64 1 2); ("gpt-3.5-turbo-0125", f64 1 4);
    ("babbage-002", f64 1 5); ("davinci-002", f64_one); ("text-ada-001", f64 1 5); ("text-babbage-001", f64 1 4);
    ("text-curie-001", f64_one); ("text-davinci-edit-001", f64_of_int 10); ("code-davinci-edit-001", f64_of_int 10);
    ("whisper-1", f64_of_int 15); ("tts-1", f64 15 2); ("tts-1-1106", f64 15 2); ("tts-1-hd", f64_of_int 15);
    ("tts-1-hd-1106", f64_of_int 15); ("davinci", f64_of_int 10); ("curie", f64_of_int 10); ("babbage", f64_of_int 10);
    ("ada", f64_of_int 10); ("text-embedding-3-small", f64 1 100); ("text-embedding-3-large", f64 13 200);
    ("text-embedding-ada-002", f64 1 20); ("text-search-ada-doc-001", f64_of_int 10); ("text-moderation-stable", f64 1 10);
    ("text-moderation-latest", f64 1 10); ("claude-instant-1", f64 2 5); ("claude-2.0", f64_of_int 4);
    ("claude-2.1", f64_of_int 4); ("claude-3-haiku-20240307", f64 1 8); ("claude-3-5-haiku-20241022", f64 1 2);
    ("claude-haiku-4-5-20251001", f64 1 2); ("claude-3-sonnet-20240229", f64 3 2); ("claude-3-5-sonnet-20240620", f64 3 2);
    ("claude-3-5-sonnet-20241022", f64 3 2); ("claude-3-7-sonnet-20250219", f64 3 2);
    ("claude-3-7-sonnet-20250219-thinking", f64 3 2); ("claude-sonnet-4-20250514", f64 3 2);
    ("claude-sonnet-4-5-20250929", f64 3 2); ("claude-opus-4-5-20251101", f64 5 2); ("claude-3-opus-20240229", f64 15 2);
    ("claude-opus-4-20250514", f64 15 2); ("claude-opus-4-1-20250805", f64 15 2); ("ERNIE-4.0-8K", f64 600 73);
    ("ERNIE-3.5-8K", f64 60 73); ("ERNIE-3.5-8K-0205", f64 120 73); ("ERNIE-3.5-8K-1222", f64 60 73);
    ("ERNIE-Bot-8K", f64 120 73); ("ERNIE-3.5-4K-0205", f64 60 73); ("ERNIE-Speed-8K", f64 20 73);
    ("ERNIE-Speed-128K", f64 20 73); ("ERNIE-Lite-8K-0922", f64 40 73); ("ERNIE-Lite-8K-0308", f64 15 73);
    ("ERNIE-Tiny-8K", f64 5 73); ("BLOOMZ-7B", f64 20 73); ("Embedding-V1", f64 10 73); ("bge-large-zh", f64 10 73);
    ("bge-large-en", f64 10 73); ("tao-8k", f64 10 73); ("PaLM-2", f64_one); ("gemini-1.5-pro-latest", f64 5 4);
    ("gemini-1.5-flash-latest", f64 3 40); ("gemini-2.0-flash", f64 1 20); ("gemini-2.5-pro-exp-03-25", f64 5 8);
    ("gemini-2.5-pro-preview-03-25", f64 5 8); ("gemini-2.5-pro", f64 5 8); ("gemini-2.5-flash-preview-04-17", f64 3 40);
    ("gemini-2.5-flash-preview-04-17-thinking", f64 3 40); ("gemini-2.5-flash-preview-04-17-nothinking", f64 3 40);
    ("gemini-2.5-flash-preview-05-20", f64 3 40); ("gemini-2.5-flash-preview-05-20-thinking", f64 3 40);
    ("gemini-2.5-flash-preview-05-20-nothinking", f64 3 40); ("gemini-2.5-flash-thinking-*", f64 3 40);
    ("gemini-2.5-pro-thinking-*", f64 5 8); ("gemini-2.5-flash-lite-preview-thinking-*", f64 1 20);
    ("gemini-2.5-flash-lite-preview-06-17", f64 1 20); ("gemini-2.5-flash", f64 3 20);
    ("gemini-2.5-flash-preview-tts", f64 3 40); ("gemini-2.5-pro-preview-tts", f64 5 8);
    ("gemini-3-flash-preview", f64 3 40); ("gemini-3-pro-preview", f64 5 8); ("gemini-3-pro-image-preview", f64 5 8);
    ("gemini-3.1-flash-lite-preview", f64 1 20); ("gemini-3.1-flash-image-preview", f64 3 40);
    ("gemini-robotics-er-1.5-preview", f64 3 20); ("gemini-embedding-001", f64 3 40); ("text-embedding-004", f64 1 1000);
    ("chatglm_turbo", f64 893 2500); ("chatglm_pro", f64 7143 10000); ("chatglm_std", f64 893 2500);
    ("chatglm_lite", f64 1429 10000); ("glm-4", f64 7143 1000); ("glm-4v", f64 250 73); ("glm-4-alltools", f64 500 73);
    ("glm-3-turbo", f64 893 2500); ("glm-4-plus", f64 250 73); ("glm-4-0520", f64 500 73); ("glm-4-air", f64 5 73);
    ("glm-4-airx", f64 50 73); ("glm-4-long", f64 5 73); ("glm-4-flash", f64_zero); ("glm-4v-plus", f64 50 73);
    ("qwen-turbo", f64 2143 2500); ("qwen-plus", f64_of_int 10); ("text-embedding-v1", f64 1 20);
    ("SparkDesk-v1.1", f64 6429 5000); ("SparkDesk-v2.1", f64 6429 5000); ("SparkDesk-v3.1", f64 6429 5000);
    ("SparkDesk-v3.5", f64 6429 5000); ("SparkDesk-v4.0", f64 6429 5000); ("360GPT_S2_V9", f64 2143 2500);
    ("360gpt-turbo", f64 429 5000); ("360gpt-turbo-responsibility-8k", f64 2143 2500); ("360gpt-pro", f64 2143 2500);
    ("360gpt2-pro", f64 2143 2500); ("embedding-bert-512-v1", f64 143 2000); ("embedding_s1_v1", f64 143 2000);
    ("semantic_similarity_s1_v1", f64 143 2000); ("hunyuan", f64 7143 1000); ("yi-34b-chat-0205", f64 9 50);
    ("yi-34b-chat-200k", f64 108 125); ("yi-vl-plus", f64 54 125); ("yi-large", f64 100 73); ("yi-medium", f64 25 146);
    ("yi-vision", f64 30 73); ("yi-medium-200k", f64 60 73); ("yi-spark", f64 5 73); ("yi-large-rag", f64 125 73);
    ("yi-large-turbo", f64 60 73); ("yi-large-preview", f64 100 73); ("yi-large-rag-preview", f64 125 73);
    ("command", f64 1 2); ("command-nightly", f64 1 2); ("command-light", f64 1 2); ("command-light-nightly", f64 1 2);
    ("command-r", f64 1 4); ("command-r-plus", f64 3 2); ("command-r-08-2024", f64 3 40);
    ("command-r-plus-08-2024", f64 5 4); ("deepseek-chat", f64 3 20); ("deepseek-coder", f64 3 20);
    ("deepseek-reasoner", f64 3 20); ("deepseek-flash", f64 3 20); ("deepseek-v4-flash", f64 3 20);
    ("deepseek-v4-pro", f64 33 50); ("llama-3-sonar-small-32k-chat", f64 1 10); ("llama-3-sonar-small-32k-online", f64 1 10);
    ("llama-3-sonar-large-32k-chat", f64_zero); ("llama-3-sonar-large-32k-online", f64_zero); ("grok-3-beta", f64 3 2);
    ("grok-3-mini-beta", f64 3 20); ("grok-2", f64_one); ("grok-2-vision", f64_one); ("grok-beta", f64 5 2);
    ("grok-vision-beta", f64 5 2); ("grok-3-fast-beta", f64 5 2); ("grok-3-mini-fast-beta", f64 3 10);
    ("NousResearch/Hermes-4-405B-FP8", f64 4 5); ("Qwen/Qwen3-235B-A22B-Thinking-2507", f64 3 5);
    ("Qwen/Qwen3-Coder-480B-A35B-Instruct-FP8", f64 4 5); ("Qwen/Qwen3-235B-A22B-Instruct-2507", f64 3 10);
    ("zai-org/GLM-4.5-FP8", f64 4 5); ("openai/gpt-oss-120b", f64 1 2); ("deepseek-ai/DeepSeek-R1-0528", f64 4 5);
    ("deepseek-ai/DeepSeek-R1", f64 4 5); ("deepseek-ai/DeepSeek-V3-0324", f64 4 5); ("deepseek-ai/DeepSeek-V3.1", f64 4 5) ].

Definition defaultModelPrice : list (string * float64) :=
  [ ("suno_music", f64 1 10); ("suno_lyrics", f64 1 100); ("dall-e-3", f64 1 25); ("imagen-3.0-generate-002", f64 3 100);
    ("imagen-4.0-generate-001", f64 1 25); ("imagen-4.0-ultra-generate-001", f64 3 50);
    ("black-forest-labs/flux-1.1-pro", f64 1 25); ("gpt-4-gizmo-*", f64 1 10); ("mj_video", f64 4 5);
    ("mj_imagine", f64 1 10); ("mj_edits", f64 1 10); ("mj_variation", f64 1 10); ("mj_reroll", f64 1 10);
    ("mj_blend", f64 1 10); ("mj_modal", f64 1 10); ("mj_zoom", f64 1 10); ("mj_shorten", f64 1 10);
    ("mj_high_variation", f64 1 10); ("mj_low_variation", f64 1 10); ("mj_pan", f64 1 10); ("mj_inpaint", f64_zero);
    ("mj_custom_zoom", f64_zero); ("mj_describe", f64 1 20); ("mj_upscale", f64 1 20); ("swap_face", f64 1 20);
    ("mj_upload", f64 1 20); ("sora-2", f64 3 10); ("sora-2-pro", f64 1 2); ("gpt-4o-mini-tts", f64 3 10) ].

Definition defaultAudioRatio : list (string * float64) :=
  [ ("gpt-4o-audio-preview", f64_of_int 16); ("gpt-4o-mini-audio-preview", f64 6667 100);
    ("gpt-4o-realtime-preview", f64_of_int 8); ("gpt-4o-mini-realtime-preview", f64 1667 100);
    ("gpt-4o-mini-tts", f64_of_int 25) ].

Definition defaultAudioCompletionRatio : list (string * float64) :=
  [ ("gpt-4o-realtime", f64_of_int 2); ("gpt-4o-mini-realtime", f64_of_int 2); ("gpt-4o-mini-tts", f64_one);
    ("tts-1", f64_zero); ("tts-1-hd", f64_zero); ("tts-1-1106", f64_zero); ("tts-1-hd-1106", f64_zero) ].

Definition defaultCompletionRatio : list (string * float64) :=
  [ ("gpt-4-gizmo-*", f64_of_int 2); ("gpt-4o-gizmo-*", f64_of_int 3); ("gpt-4-all", f64_of_int 2);
    ("gpt-image-1", f64_of_int 8) ].

Definition defaultCacheRatio : list (string * float64) :=
  [ ("gpt-4", f64 1 2); ("o1", f64 1 2); ("o1-2024-12-17", f64 1 2); ("o1-preview-2024-09-12", f64 1 2);
    ("o1-preview", f64 1 2); ("o1-mini-2024-09-12", f64 1 2); ("o1-mini", f64 1 2); ("o3-mini", f64 1 2);
    ("o3-mini-2025-01-31", f64 1 2); ("gpt-4o-2024-11-20", f64 1 2); ("gpt-4o-2024-08-06", f64 1 2); ("gpt-4o", f64 1 2);
    ("gpt-4o-mini-2024-07-18", f64 1 2); ("gpt-4o-mini", f64 1 2); ("gpt-4o-realtime-preview", f64 1 2);
    ("gpt-4o-mini-realtime-preview", f64 1 2); ("gpt-4.5-preview", f64 1 2); ("gpt-4.5-preview-2025-02-27", f64 1 2);
    ("gpt-4.1", f64 1 4); ("gpt-4.1-mini", f64 1 4); ("gpt-4.1-nano", f64 1 4); ("gpt-5", f64 1 10);
    ("gpt-5-2025-08-07", f64 1 10); ("gpt-5-chat-latest", f64 1 10); ("gpt-5-mini", f64 1 10);
    ("gpt-5-mini-2025-08-07", f64 1 10); ("gpt-5-nano", f64 1 10); ("gpt-5-nano-2025-08-07", f64 1 10);
    ("gpt-6-sol", f64 1 10); ("gpt-6-luna", f64 1 10); ("gpt-6.1-sol", f64 1 10); ("deepseek-chat", f64 1 50);
    ("deepseek-reasoner", f64 1 50); ("deepseek-coder", f64 1 50); ("deepseek-flash", f64 1 50);
    ("deepseek-v4-flash", f64 1 50); ("deepseek-v4-pro", f64 1 30); ("claude-3-sonnet-20240229", f64 1 10);
    ("claude-3-opus-20240229", f64 1 10); ("claude-3-haiku-20240307", f64 1 10); ("claude-3-5-haiku-20241022", f64 1 10);
    ("claude-haiku-4-5-20251001", f64 1 10); ("claude-3-5-sonnet-20240620", f64 1 10);
    ("claude-3-5-sonnet-20241022", f64 1 10); ("claude-3-7-sonnet-20250219", f64 1 10);
    ("claude-3-7-sonnet-20250219-thinking", f64 1 10); ("claude-sonnet-4-20250514", f64 1 10);
    ("claude-sonnet-4-20250514-thinking", f64 1 10); ("claude-opus-4-20250514", f64 1 10);
    ("claude-opus-4-20250514-thinking", f64 1 10); ("claude-opus-4-1-20250805", f64 1 10);
    ("claude-opus-4-1-20250805-thinking", f64 1 10); ("claude-sonnet-4-5-20250929", f64 1 10);
    ("claude-sonnet-4-5-20250929-thinking", f64 1 10); ("claude-opus-4-5-20251101", f64 1 10);
    ("claude-opus-4-5-20251101-thinking", f64 1 10); ("gemini-3-flash-preview", f64 1 10);
    ("gemini-3-pro-preview", f64 1 10); ("gemini-3.1-pro-preview", f64 1 10); ("gemini-2.5-pro", f64 1 10);
    ("gemini-2.5-flash", f64 1 10); ("gemini-2.5-flash-lite", f64 1 10) ].

Definition defaultCreateCacheRatio : list (string * float64) :=
  [ ("claude-3-sonnet-20240229", f64 5 4); ("claude-3-opus-20240229", f64 5 4); ("claude-3-haiku-20240307", f64 5 4);
    ("claude-3-5-haiku-20241022", f64 5 4); ("claude-haiku-4-5-20251001", f64 5 4); ("claude-3-5-sonnet-20240620", f64 5 4);
    ("claude-3-5-sonnet-20241022", f64 5 4); ("claude-3-7-sonnet-20250219", f64 5 4);
    ("claude-3-7-sonnet-20250219-thinking", f64 5 4); ("claude-sonnet-4-20250514", f64 5 4);
    ("claude-sonnet-4-20250514-thinking", f64 5 4); ("claude-opus-4-20250514", f64 5 4);
    ("claude-opus-4-20250514-thinking", f64 5 4); ("claude-opus-4-1-20250805", f64 5 4);
    ("claude-opus-4-1-20250805-thinking", f64 5 4); ("claude-sonnet-4-5-20250929", f64 5 4);
    ("claude-sonnet-4-5-20250929-thinking", f64 5 4); ("claude-opus-4-5-20251101", f64 5 4);
    ("claude-opus-4-5-20251101-thinking", f64 5 4); ("gpt-5.6", f64 5 4); ("gpt-5.6-sol", f64 5 4);
    ("gpt-5.6-terra", f64 5 4); ("gpt-5.6-luna", f64 5 4); ("gpt-6-sol", f64 5 4); ("gpt-6-luna", f64 5 4);
    ("gpt-6.1-sol", f64 5 4) ].

Definition defaultImageRatio : list (string * float64) :=
  [ ("gpt-image-1", f64_of_int 2) ].

Definition defaultGroupRatio : list (string * float64) :=
  [ ("default", f64_one); ("vip", f64_one); ("svip", f64_one) ].

(** The special ratio shipped as an example. *)
Definition defaultGroupGroupRatio : gmap string (gmap string float64) := {["vip" := {["edit_this" := f64 9 10]}]}.

(** [init] adds the System One models. *)
Definition defaultModelRatioMap : gmap string float64 :=
  foldl (fun m name => <[name := f64 21 1000]> m) (list_to_map defaultModelRatio) systemOneModels.

Definition createCacheRatios : gmap string float64 := list_to_map defaultCreateCacheRatio.

Definition InitRatioSettings (groups : gmap string float64) (special : gmap string (gmap string float64))
    (searchUnits : gmap string float64) (markup : float64) (selfUse : bool) : tables :=
  mkTables (list_to_map defaultModelPrice) defaultModelRatioMap (list_to_map defaultCompletionRatio) (list_to_map defaultCacheRatio)
    createCacheRatios (list_to_map defaultImageRatio) (list_to_map defaultAudioRatio) (list_to_map defaultAudioCompletionRatio)
    groups special ∅ searchUnits markup selfUse.

Definition start_tables : tables :=
  InitRatioSettings (list_to_map defaultGroupRatio) defaultGroupGroupRatio ∅ (f64 5 4) false.

(** ** Replacing a table *)

(** The table an operation replaces, with what [json.Unmarshal] made of the text; [None]
    where it failed. *)
Inductive update :=
  | UpdateModelPrice (tmp : option (gmap string float64))
  | UpdateModelRatio (tmp : option (gmap string float64))
  | UpdateCompletionRatio (tmp : option (gmap string float64))
  | UpdateCacheRatio (tmp : option (gmap string float64))
  | UpdateImageRatio (tmp : option (gmap string float64))
  | UpdateAudioRatio (tmp : option (gmap string float64))
  | UpdateAudioCompletionRatio (tmp : option (gmap string float64))
  | UpdateGroupRatio (tmp : option (gmap string float64))
  | UpdateGroupGroupRatio (tmp : option (gmap string (gmap string float64)))
  | UpdateContextLengthTiers (tmp : option (gmap string (list ContextTier)))
  | UpdateSearchUnitPrice (tmp : option (gmap string float64)).

Definition validateContextTiersMap (m : gmap string (list ContextTier)) : bool :=
  forallb (fun kl => ValidateContextTierList (snd kl)) (map_to_list m).

(** A search-unit price is finite and not negative. *)
Definition search_price_allowed (price : float64) : bool := negb (f64_lt price f64_zero) && is_finite price.

Definition validateSearchUnitPrices (m : gmap string float64) : bool :=
  forallb (fun kp => search_price_allowed (snd kp)) (map_to_list m).

(** The tables, with one replaced. *)
Definition with_table (t : tables) (u : update) : option tables :=
  let '(mkTables price ratio completion cache create image audio audioc group special tiers search markup self) := t in
  match u with
  | UpdateModelPrice m => m ← m; Some (mkTables m ratio completion cache create image audio audioc group special tiers search markup self)
  | UpdateModelRatio m => m ← m; Some (mkTables price m completion cache create image audio audioc group special tiers search markup self)
  | UpdateCompletionRatio m => m ← m; Some (mkTables price ratio m cache create image audio audioc group special tiers search markup self)
  | UpdateCacheRatio m => m ← m; Some (mkTables price ratio completion m create image audio audioc group special tiers search markup self)
  | UpdateImageRatio m => m ← m; Some (mkTables price ratio completion cache create m audio audioc group special tiers search markup self)
  | UpdateAudioRatio m => m ← m; Some (mkTables price ratio completion cache create image m audioc group special tiers search markup self)
  | UpdateAudioCompletionRatio m => m ← m; Some (mkTables price ratio completion cache create image audio m group special tiers search markup self)
  | UpdateGroupRatio m => m ← m; Some (mkTables price ratio completion cache create image audio audioc m special tiers search markup self)
  | UpdateGroupGroupRatio m => m ← m; Some (mkTables price ratio completion cache create image audio audioc group m tiers search markup self)
  | UpdateContextLengthTiers m =>
      m ← m; if negb (validateContextTiersMap m) then None
             else Some (mkTables price ratio completion cache create image audio audioc group special m search markup self)
  | UpdateSearchUnitPrice m =>
      m ← m; if negb (validateSearchUnitPrices m) then None
             else Some (mkTables price ratio completion cache create image audio audioc group special tiers m markup self)
  end.

(** The tables afterwards, and whether the operation returned an error. *)
Definition Update (t : tables) (u : update) : tables * bool :=
  match with_table t u with Some t' => (t', false) | None => (t, true) end.

(** The check of group ratios an administrator's write passes before it is applied. *)
Definition CheckGroupRatio (tmp : option (gmap string float64)) : bool :=
  match tmp with
  | None => false
  | Some m => forallb (fun kr => negb (f64_lt (snd kr) f64_zero)) (map_to_list m)
  end.

(** ** What administration is shown *)

Definition GetModelFamilyName (name : string) : string :=
  match List.find (rule_matches (ToLower name)) modelFamilyRules with
  | Some r => if String.eqb (tier r) "" then TrimSuffix (prefix r) "-" else TrimSuffix (prefix r) "-" +:+ "-" +:+ tier r
  | None => ""
  end.

Record PricingSource := mkSource {
  Source : string;
  Ratio : float64;
  Family : string;
  BaseRatio : float64;
  Markup : float64
}.

Definition GetModelPricingSource (t : tables) (name : string) : PricingSource :=
  let name := ChannelCache.FormatMatchingModelName name in
  match modelRatioMap t !! name with
  | Some r => mkSource "explicit" r "" f64_zero f64_zero
  | None =>
      match ModelFamilyFallback name with
      | Some baseRatio =>
          let markup := if SFleb (ModelFallbackMarkup t) f64_zero then f64_one else ModelFallbackMarkup t in
          mkSource "family_fallback" (f64_mul baseRatio markup) (GetModelFamilyName name) baseRatio markup
      | None => mkSource "none" f64_zero "" f64_zero f64_zero
      end
  end.

(** The price or ratio, whether it is a price, and whether the model has one. *)
Definition GetModelRatioOrPrice (t : tables) (model : string) : float64 * bool * bool :=
  match GetModelPrice t model with
  | Some price => (price, true, true)
  | None =>
      let '(modelRatio, success) := GetModelRatio t model in
      if success : bool then (modelRatio, false, true) else (f64 375 10, false, false)
  end.

Definition ContainPriceOrRatio (t : tables) (modelName : string) : bool :=
  match GetModelPrice t modelName with
  | Some _ => true
  | None => snd (GetModelRatio t modelName)
  end.

(** A further ratio of a request; the map keeps one per key. *)
Definition AddOtherRatio (rs : list (string * float64)) (key : string) (r : float64) : list (string * float64) :=
  if SFleb r f64_zero then rs
  else if existsb (fun kr => String.eqb (fst kr) key) rs
  then map (fun kr => if String.eqb (fst kr) key then (key, r) else kr) rs
  else rs ++ [(key, r)].
End PriceTables.
