(* ===== verification/Settlement.v ===== *)
(** * What a served request is charged

    Model of the amounts computed at settlement: [postConsumeQuota] of internal/app/relay/
    compatible_handler.go (the OpenAI-compatible routes), [PostClaudeConsumeQuota],
    [claudeCalculateQuota], [calculateAudioQuota] and [CalcOpenRouterCacheCreateTokens] of
    internal/app/quota.go (the Claude-native and audio routes), the cost shown to the
    caller, [EstimateQuotaFromUsage] of internal/app/relay/helper/perception.go, and the
    price of a routing evaluation, [EvalQuota] of internal/app/routingdecision/billing.go.

    The amount computed here is what [QuotaCharge.PostConsumeQuota] then books.  Token
    counts are machine integers as the upstream reported them; the arithmetic is that of
    any [Decimals]. *)

From Stdlib Require Import SpecFloat.
From S2P Require Import Prelude GoStrings PlatformBilling Decimal Prices.

Module Settlement.
Import GoStrings PlatformBilling Prices.

(** ** Usage *)

Record Usage := mkUsage {
  PromptTokens : Z;
  CompletionTokens : Z;
  TotalTokens : Z;
  PromptTokensIncludeCached : bool;
  CachedTokens : Z;
  CachedCreationTokens : Z;
  ImageTokens : Z;
  AudioTokens : Z;
  ClaudeCacheCreation5mTokens : Z;
  ClaudeCacheCreation1hTokens : Z;
  Cost : option float64;
  ReasoningTokens : Z;                       (* part of the completion *)
  PromptCacheHitTokens : Z;
  InputCachedTokens : option Z               (* of input_tokens_details, when there is one *)
}.

(** The prompt in OpenAI semantics: the cached slices are part of it. *)
Definition AsOpenAIWire_PromptTokens (u : Usage) : Z :=
  if PromptTokensIncludeCached u then PromptTokens u
  else i64_add (i64_add (PromptTokens u) (CachedTokens u)) (CachedCreationTokens u).

(** The prompt in Anthropic semantics. *)
Definition AnthropicInputTokens (u : Usage) : Z :=
  if negb (PromptTokensIncludeCached u) then PromptTokens u
  else let n := i64_sub (i64_sub (PromptTokens u) (CachedTokens u)) (CachedCreationTokens u) in if n <? 0 then 0 else n.

Definition ChargeableInputNonZero (usePrice : bool) (modelPrice modelRatio : float64) : bool :=
  if usePrice then negb (f64_eq modelPrice f64_zero) else negb (f64_eq modelRatio f64_zero).

(** Tools called while the request was served. *)
Record tools := mkTools {
  responses : option (Z * Z);          (* calls of web and file search, on the responses API *)
  claude_web_search : Z;
  image_call : option (string * string)
}.

Definition no_tools : tools := mkTools None 0 None.

Section Amounts.
Context {Dec : Decimals} (perUnit : float64).

Definition dQuotaPerUnit : dec := NewFromFloat perUnit.

(** *** The parts *)

Definition per_thousand (price : float64) : dec := dDiv (NewFromFloat price) (NewFromInt 1000).

Definition web_search_fee (modelName : string) (x : tools) (g : dec) : dec :=
  match responses x with
  | Some (calls, _) =>
      if calls >? 0 then
        dMul (dMul (dDiv (dMul (NewFromFloat (GetWebSearchPricePerThousand modelName)) (NewFromInt calls)) (NewFromInt 1000)) g) dQuotaPerUnit
      else Decimal_Zero
  | None =>
      if HasSuffix modelName "search-preview" then dMul (dMul (per_thousand (GetWebSearchPricePerThousand modelName)) g) dQuotaPerUnit
      else Decimal_Zero
  end.

Definition claude_search_fee (x : tools) (g : dec) : dec :=
  if claude_web_search x >? 0
  then dMul (dMul (dMul (per_thousand ClaudeWebSearchPrice) g) dQuotaPerUnit) (NewFromInt (claude_web_search x))
  else Decimal_Zero.

Definition file_search_fee (x : tools) (g : dec) : dec :=
  match responses x with
  | Some (_, calls) =>
      if calls >? 0 then
        dMul (dMul (dDiv (dMul (NewFromFloat FileSearchPrice) (NewFromInt calls)) (NewFromInt 1000)) g) dQuotaPerUnit
      else Decimal_Zero
  | None => Decimal_Zero
  end.

Definition image_call_fee (x : tools) (g : dec) : dec :=
  match image_call x with
  | Some (quality, size) => dMul (dMul (NewFromFloat (GetGPTImage1PriceOnceCall quality size)) g) dQuotaPerUnit
  | None => Decimal_Zero
  end.

(** Gemini's audio input has a price of its own. *)
Definition audio_priced (modelName : string) (u : Usage) : bool :=
  negb (dIsZero (NewFromInt (AudioTokens u))) && f64_lt f64_zero (GetGeminiInputAudioPricePerMillionTokens modelName).

Definition audio_input_fee (modelName : string) (u : Usage) (g : dec) : dec :=
  if audio_priced modelName u then
    dMul (dMul (dMul (dDiv (NewFromFloat (GetGeminiInputAudioPricePerMillionTokens modelName)) (NewFromInt 1000000))
      (NewFromInt (AudioTokens u))) g) dQuotaPerUnit
  else Decimal_Zero.

(** Cache writes not accounted for by the two Claude durations. *)
Definition remaining_creation (creation c5m c1h : Z) : Z :=
  let r := i64_sub (i64_sub creation c5m) c1h in if r <? 0 then 0 else r.

(** *** The OpenAI-compatible routes *)

(** Prompt tokens at full price. *)
Definition base_tokens (modelName : string) (u : Usage) (promptTokens : Z) : dec :=
  let b := NewFromInt promptTokens in
  let b := if negb (dIsZero (NewFromInt (CachedTokens u))) && PromptTokensIncludeCached u then dSub b (NewFromInt (CachedTokens u)) else b in
  let b := if negb (dIsZero (NewFromInt (CachedCreationTokens u))) && PromptTokensIncludeCached u
           then dSub b (NewFromInt (CachedCreationTokens u)) else b in
  let b := if negb (dIsZero (NewFromInt (ImageTokens u))) then dSub b (NewFromInt (ImageTokens u)) else b in
  if audio_priced modelName u then dSub b (NewFromInt (AudioTokens u)) else b.

(** Zero tokens add nothing, so their product need not be taken. *)
Definition priced (tokens : Z) (r : float64) : dec :=
  if dIsZero (NewFromInt tokens) then Decimal_Zero else dMul (NewFromInt tokens) (NewFromFloat r).

Definition token_quota (modelName : string) (p : PriceData) (u : Usage) (promptTokens : Z) : dec :=
  let ratio := dMul (NewFromFloat (ModelRatio p)) (NewFromFloat (GroupRatio (p_GroupRatioInfo p))) in
  let creation :=
    dAdd (dAdd (dMul (NewFromInt (ClaudeCacheCreation5mTokens u)) (NewFromFloat (CacheCreation5mRatio p)))
               (dMul (NewFromInt (ClaudeCacheCreation1hTokens u)) (NewFromFloat (CacheCreation1hRatio p))))
         (dMul (NewFromInt (remaining_creation (CachedCreationTokens u) (ClaudeCacheCreation5mTokens u) (ClaudeCacheCreation1hTokens u)))
               (NewFromFloat (CacheCreationRatioForWire p (PromptTokensIncludeCached u)))) in
  let prompt :=
    dAdd (dAdd (dAdd (base_tokens modelName u promptTokens) (priced (CachedTokens u) (CacheRatio p)))
               (priced (ImageTokens u) (ImageRatio p))) creation in
  let q := dMul (dAdd prompt (dMul (NewFromInt (CompletionTokens u)) (NewFromFloat (CompletionRatio p)))) ratio in
  if ChargeableInputNonZero (UsePrice p) (ModelPrice p) (ModelRatio p) && dLessThanOrEqual q Decimal_Zero
  then NewFromInt 1 else q.

Definition price_quota (p : PriceData) : dec :=
  dMul (dMul (NewFromFloat (ModelPrice p)) dQuotaPerUnit) (NewFromFloat (GroupRatio (p_GroupRatioInfo p))).

Definition times_other_ratios (p : PriceData) (q : dec) : dec :=
  foldl (fun q kr => dMul q (NewFromFloat (snd kr))) q (OtherRatios p).

(** The charge before rounding; [search] is the search-unit price and the units. *)
Definition text_total (modelName : string) (p : PriceData) (u : Usage) (promptTokens : Z) (x : tools)
    (search : option (float64 * Z)) : dec :=
  let g := NewFromFloat (GroupRatio (p_GroupRatioInfo p)) in
  match search with
  | Some (sup, units) => dMul (dMul (dMul (NewFromFloat sup) (NewFromInt units)) g) dQuotaPerUnit
  | None =>
      let q := if UsePrice p then price_quota p else token_quota modelName p u promptTokens in
      let q := dAdd q (web_search_fee modelName x g) in
      let q := dAdd q (claude_search_fee x g) in
      let q := dAdd q (file_search_fee x g) in
      let q := dAdd q (if UsePrice p then Decimal_Zero else audio_input_fee modelName u g) in
      let q := dAdd q (image_call_fee x g) in
      times_other_ratios p q
  end.

(** Rerank vendors report only the total. *)
Definition billable_prompt (rerank : bool) (u : Usage) : Z :=
  if rerank && (PromptTokens u =? 0) && (CompletionTokens u =? 0) && (TotalTokens u >? 0) then TotalTokens u else PromptTokens u.

(** The charge, once the tier was settled: nothing when the upstream reported nothing. *)
Definition text_charge (modelName : string) (rerank : bool) (p : PriceData) (u : Usage) (x : tools)
    (search : option (float64 * Z)) : Z :=
  let promptTokens := billable_prompt rerank u in
  let quota := RoundInt (text_total modelName p u promptTokens x search) in
  if (i64_add promptTokens (CompletionTokens u) =? 0) && negb (match search with Some _ => true | None => false end) then 0
  else if ChargeableInputNonZero (UsePrice p) (ModelPrice p) (ModelRatio p) && (quota =? 0) then 1
  else quota.

(** The amount [postConsumeQuota] settles; a missing usage is an estimate of the prompt. *)
Definition postConsumeQuota_amount (t : tables) (q : request) (p : PriceData) (usage : option Usage) (estimate : Z) (x : tools) : Z :=
  let u := match usage with
           | Some u => u
           | None => mkUsage estimate 0 estimate false 0 0 0 0 0 0 None 0 0 None
           end in
  let p := ResettleContextTier t p (OriginModelName q) (AsOpenAIWire_PromptTokens u) in
  text_charge (OriginModelName q) (IsRerank q) p u x
    (match SearchUnitPriced t q with Some sup => Some (sup, RerankSearchUnits q) | None => None end).

(** *** The Claude-native route *)

Definition claudeCalculateQuota (usePrice : bool)
    (promptTokens cacheTokens cacheCreationTokens5m cacheCreationTokens1h remainingCacheCreationTokens completionTokens : Z)
    (cacheRatio cacheCreationRatio5m cacheCreationRatio1h cacheCreationRatio completionRatio groupRatio modelRatio modelPrice : float64) : dec :=
  let g := NewFromFloat groupRatio in
  if usePrice then dMul (dMul (NewFromFloat modelPrice) dQuotaPerUnit) g
  else
    let ratio := dMul (NewFromFloat modelRatio) g in
    let prompt :=
      dAdd (dAdd (dAdd (dAdd (NewFromInt promptTokens) (dMul (NewFromInt cacheTokens) (NewFromFloat cacheRatio)))
        (dMul (NewFromInt cacheCreationTokens5m) (NewFromFloat cacheCreationRatio5m)))
        (dMul (NewFromInt cacheCreationTokens1h) (NewFromFloat cacheCreationRatio1h)))
        (dMul (NewFromInt remainingCacheCreationTokens) (NewFromFloat cacheCreationRatio)) in
    dMul (dAdd prompt (dMul (NewFromInt completionTokens) (NewFromFloat completionRatio))) ratio.

(** [infer] is the number of cache writes inferred from the cost OpenRouter reports. *)
Definition claude_charge (p : PriceData) (u : Usage) (x : tools) (infer : option Z) : Z :=
  let billable := PromptTokens u in
  let billable := if PromptTokensIncludeCached u then i64_sub billable (CachedTokens u) else billable in
  let '(creation, creationRatio) :=
    match infer with
    | Some n =>
        if PromptTokensIncludeCached u && (0 <=? n) && (billable >=? n) then (n, CacheCreationRatio p)
        else (CachedCreationTokens u, CacheCreationRatioForWire p (PromptTokensIncludeCached u))
    | None => (CachedCreationTokens u, CacheCreationRatioForWire p (PromptTokensIncludeCached u))
    end in
  let billable := if PromptTokensIncludeCached u then i64_sub billable creation else billable in
  let q := claudeCalculateQuota (UsePrice p) billable (CachedTokens u) (ClaudeCacheCreation5mTokens u) (ClaudeCacheCreation1hTokens u)
    (remaining_creation creation (ClaudeCacheCreation5mTokens u) (ClaudeCacheCreation1hTokens u)) (CompletionTokens u)
    (CacheRatio p) (CacheCreation5mRatio p) (CacheCreation1hRatio p) creationRatio (CompletionRatio p)
    (GroupRatio (p_GroupRatioInfo p)) (ModelRatio p) (ModelPrice p) in
  let chargeable := ChargeableInputNonZero (UsePrice p) (ModelPrice p) (ModelRatio p) in
  let q := if chargeable && dLessThanOrEqual q Decimal_Zero then NewFromInt 1 else q in
  let q := if claude_web_search x >? 0 then dAdd q (claude_search_fee x (NewFromFloat (GroupRatio (p_GroupRatioInfo p)))) else q in
  let quota := RoundInt q in
  if i64_add billable (CompletionTokens u) =? 0 then 0
  else if chargeable && (quota =? 0) then 1
  else quota.

(** [int(math.Round(...))] of the cost left unexplained, over the surcharge of a write. *)
Definition CalcOpenRouterCacheCreateTokens (u : Usage) (p : PriceData) : Z :=
  if f64_eq (CacheCreationRatio p) f64_one then 0
  else
    let sub := SFsub 53 1024 in let add := SFadd 53 1024 in
    let quotaPrice := f64_div (ModelRatio p) perUnit in
    let promptCacheCreatePrice := f64_mul quotaPrice (CacheCreationRatio p) in
    let promptCacheReadPrice := f64_mul quotaPrice (CacheRatio p) in
    let completionPrice := f64_mul quotaPrice (CompletionRatio p) in
    let cost := default f64_zero (Cost u) in
    round64 (f64_div
      (sub (add (sub cost (f64_mul (f64_of_int (PromptTokens u)) quotaPrice))
                (f64_mul (f64_of_int (CachedTokens u)) (sub quotaPrice promptCacheReadPrice)))
           (f64_mul (f64_of_int (CompletionTokens u)) completionPrice))
      (sub promptCacheCreatePrice quotaPrice)).

Definition hasCustomModelRatio (defaults : gmap string float64) (modelName : string) (currentRatio : float64) : bool :=
  match defaults !! modelName with
  | None => true
  | Some r => negb (f64_eq currentRatio r)
  end.

(** The amount [PostClaudeConsumeQuota] settles.  The test [usage.Cost != 0] compares an
    interface with an integer constant, which differs from a missing cost and from any
    number read from JSON, so it excludes nothing. *)
Definition PostClaudeConsumeQuota_amount (t : tables) (defaults : gmap string float64) (q : request) (p : PriceData) (u : Usage)
    (x : tools) : Z :=
  let p := ResettleContextTier t p (OriginModelName q) (AsOpenAIWire_PromptTokens u) in
  let custom := UsePrice p || hasCustomModelRatio defaults (OriginModelName q) (ModelRatio p) in
  let infer := IsOpenRouter q && (CachedCreationTokens u =? 0) && negb (f64_eq (CacheCreationRatio p) f64_one) && negb custom in
  claude_charge p u x (if infer then Some (CalcOpenRouterCacheCreateTokens u p) else None).

(** *** Audio *)

Record TokenDetails := mkDetails { d_TextTokens : Z; d_AudioTokens : Z }.

Definition calculateAudioQuota (t : tables) (input output : TokenDetails) (modelName : string) (usePrice : bool)
    (modelPrice modelRatio completionRatio groupRatio : float64) : Z :=
  if usePrice then
    let rounded := RoundInt (dMul (dMul (NewFromFloat modelPrice) dQuotaPerUnit) (NewFromFloat groupRatio)) in
    if negb (f64_eq modelPrice f64_zero) && (rounded =? 0) then 1 else rounded
  else
    let audioRatio := NewFromFloat (GetAudioRatio t modelName) in
    let ratio := dMul (NewFromFloat groupRatio) (NewFromFloat modelRatio) in
    let q := dAdd Decimal_Zero (NewFromInt (d_TextTokens input)) in
    let q := dAdd q (dMul (NewFromInt (d_TextTokens output)) (NewFromFloat completionRatio)) in
    let q := dAdd q (dMul (NewFromInt (d_AudioTokens input)) audioRatio) in
    let q := dAdd q (dMul (dMul (NewFromInt (d_AudioTokens output)) audioRatio) (NewFromFloat (GetAudioCompletionRatio t modelName))) in
    let q := dMul q ratio in
    let q := if negb (dIsZero ratio) && dLessThanOrEqual q Decimal_Zero then NewFromInt 1 else q in
    let rounded := RoundInt q in
    if negb (dIsZero ratio) && (rounded =? 0) then 1 else rounded.

(** *** What the caller is shown *)

Definition estimate_charge (p : PriceData) (u : Usage) : Z :=
  if UsePrice p then
    let result := RoundInt (price_quota p) in if result <=? 0 then 1 else result
  else
    let ratio := dMul (NewFromFloat (ModelRatio p)) (NewFromFloat (GroupRatio (p_GroupRatioInfo p))) in
    let b := NewFromInt (PromptTokens u) in
    let b := if negb (dIsZero (NewFromInt (CachedTokens u))) && PromptTokensIncludeCached u then dSub b (NewFromInt (CachedTokens u)) else b in
    let b := if negb (dIsZero (NewFromInt (CachedCreationTokens u))) && PromptTokensIncludeCached u
             then dSub b (NewFromInt (CachedCreationTokens u)) else b in
    let b := if negb (dIsZero (NewFromInt (ImageTokens u))) then dSub b (NewFromInt (ImageTokens u)) else b in
    let prompt :=
      dAdd (dAdd (dAdd b (priced (CachedTokens u) (CacheRatio p))) (priced (ImageTokens u) (ImageRatio p)))
           (priced (CachedCreationTokens u) (CacheCreationRatioForWire p (PromptTokensIncludeCached u))) in
    let q := dMul (dAdd prompt (dMul (NewFromInt (CompletionTokens u)) (NewFromFloat (CompletionRatio p)))) ratio in
    RoundInt (if negb (dIsZero ratio) && dLessThanOrEqual q Decimal_Zero then NewFromInt 1 else q).

Definition EstimateQuotaFromUsage (t : tables) (q : request) (p : PriceData) (u : Usage) : Z :=
  estimate_charge (ResettleContextTier t p (OriginModelName q) (AsOpenAIWire_PromptTokens u)) u.

(** *** A routing evaluation *)

Definition EvalQuota (t : tables) (model usingGroup userGroup : string) (inputTokens : Z) : Z :=
  let groupRatio := match GetGroupGroupRatio t userGroup usingGroup with Some r => r | None => GetGroupRatio t usingGroup end in
  let gr := NewFromFloat groupRatio in
  match GetModelPrice t model with
  | Some price => RoundInt (dMul (dMul (NewFromFloat price) dQuotaPerUnit) gr)
  | None =>
      let '(ratio, ok) := GetModelRatio t model in
      if negb ok || (inputTokens <=? 0) then 0
      else
        let q := RoundInt (dMul (dMul (NewFromInt inputTokens) (NewFromFloat ratio)) gr) in
        if (q <=? 0) && f64_lt f64_zero ratio && f64_lt f64_zero groupRatio then 1 else q
  end.
End Amounts.
End Settlement.
