(* ===== verification/SettlementSpec.v ===== *)
(** * What a served request is charged: theorems

    The two routes charge the same usage alike, the cost shown is the cost charged, a
    priced request is never free, and the tier of a request is that of its actual length.
    Proved for any [Decimals] that keep their laws. *)

From Stdlib Require Import QArith Qround Qabs Lqa SpecFloat.
From S2P Require Import Prelude GoStrings PlatformBilling Decimal Prices Settlement.

Open Scope Z_scope.

Section Settle.
Import GoStrings PlatformBilling Prices Settlement.
Context `{Laws : DecimalLaws} (perUnit : float64).

(** A price: a finite double that is not negative. *)
Definition price_ok (f : float64) : Prop := is_finite f = true /\ f64_lt f f64_zero = false.

Lemma price_nonneg f : price_ok f -> (0 <= val (NewFromFloat f))%Q.
Proof. intros [H1 H2]. by apply val_float_nonneg. Qed.

(** A price that is not zero is positive. *)
Lemma price_pos f : price_ok f -> f64_eq f f64_zero = false -> (0 < val (NewFromFloat f))%Q.
Proof.
  intros [H1 H2] H3. apply val_float_pos; [done|]. by destruct f as [[]|[]| |[] m e].
Qed.

Lemma float_val_zero f : is_finite f = true -> (val (NewFromFloat f) == 0)%Q <-> f64_eq f f64_zero = true.
Proof.
  intros Hf. split; [|apply val_float_zero]. intros Hv.
  destruct f as [[]|[]| |[] m e]; try done.
  - pose proof (val_float_neg (S754_finite true m e) eq_refl eq_refl). lra.
  - pose proof (val_float_pos (S754_finite false m e) eq_refl eq_refl). lra.
Qed.

Lemma int_zero z : dIsZero (NewFromInt z) = true <-> z = 0.
Proof.
  rewrite val_iszero, val_int. change 0%Q with (inject_Z 0). rewrite <- inject_Z_injective. done.
Qed.

Lemma int_zero_b z : dIsZero (NewFromInt z) = (z =? 0).
Proof.
  destruct (Z.eqb_spec z 0) as [->|Hz]; [by apply int_zero|].
  destruct (dIsZero (NewFromInt z)) eqn:H; [|done]. by apply int_zero in H.
Qed.

Lemma priced_val z r : (val (priced z r) == inject_Z z * val (NewFromFloat r))%Q.
Proof.
  unfold priced. rewrite int_zero_b. destruct (Z.eqb_spec z 0) as [->|].
  - rewrite val_zero. change (inject_Z 0) with 0%Q. lra.
  - by rewrite val_mul, val_int.
Qed.

(** ** Fees are not negative *)

Lemma positive_int z : 0 < z -> (0 < val (NewFromInt z))%Q.
Proof. intros Hz. rewrite val_int. change 0%Q with (inject_Z 0). by rewrite <- Zlt_Qlt. Qed.

#[local] Hint Resolve val_nonneg_mul val_nonneg_add val_div_nonneg val_nonneg_int price_nonneg : hub.

Lemma zero_nonneg : (0 <= val Decimal_Zero)%Q.
Proof. rewrite val_zero. apply Qle_refl. Qed.

Lemma web_price_ok m : price_ok (GetWebSearchPricePerThousand m).
Proof. unfold GetWebSearchPricePerThousand. by destruct (_ || _ || _). Qed.

Lemma audio_price_ok m : price_ok (GetGeminiInputAudioPricePerMillionTokens m).
Proof. unfold GetGeminiInputAudioPricePerMillionTokens. repeat case_match; by split. Qed.

Lemma image_price_ok q s : price_ok (GetGPTImage1PriceOnceCall q s).
Proof. unfold GetGPTImage1PriceOnceCall. repeat case_match; by split. Qed.

Section Fees.
Context (g : dec) (Hg : (0 <= val g)%Q) (Hunit : price_ok perUnit).

Lemma unit_nonneg : (0 <= val (dQuotaPerUnit perUnit))%Q.
Proof. by apply price_nonneg. Qed.
#[local] Hint Resolve unit_nonneg zero_nonneg web_price_ok audio_price_ok image_price_ok : hub.

Lemma per_thousand_nonneg f : price_ok f -> (0 <= val (per_thousand f))%Q.
Proof. intros Hf. apply val_div_nonneg; [by apply price_nonneg|by apply positive_int]. Qed.
#[local] Hint Resolve per_thousand_nonneg : hub.

Lemma web_search_fee_nonneg m x : (0 <= val (web_search_fee perUnit m x g))%Q.
Proof.
  unfold web_search_fee. destruct (responses x) as [[c f]|].
  - destruct (Z.gtb_spec c 0); [|auto with hub]. do 2 (apply val_nonneg_mul; [|auto with hub]).
    apply val_div_nonneg; [apply val_nonneg_mul; auto with hub; apply val_nonneg_int; lia|by apply positive_int].
  - destruct (HasSuffix m _); auto 6 with hub.
Qed.

Lemma claude_search_fee_nonneg x : (0 <= val (claude_search_fee perUnit x g))%Q.
Proof.
  unfold claude_search_fee. destruct (Z.gtb_spec (claude_web_search x) 0); [|auto with hub].
  repeat apply val_nonneg_mul; auto with hub; [by apply per_thousand_nonneg|apply val_nonneg_int; lia].
Qed.

Lemma file_search_fee_nonneg x : (0 <= val (file_search_fee perUnit x g))%Q.
Proof.
  unfold file_search_fee. destruct (responses x) as [[w c]|]; [|auto with hub].
  destruct (Z.gtb_spec c 0); [|auto with hub]. do 2 (apply val_nonneg_mul; [|auto with hub]).
  apply val_div_nonneg; [|by apply positive_int]. apply val_nonneg_mul; [by apply price_nonneg|apply val_nonneg_int; lia].
Qed.

Lemma image_call_fee_nonneg x : (0 <= val (image_call_fee perUnit x g))%Q.
Proof. unfold image_call_fee. destruct (image_call x) as [[q s]|]; auto 6 with hub. Qed.

Lemma audio_input_fee_nonneg m u : 0 <= AudioTokens u -> (0 <= val (audio_input_fee perUnit m u g))%Q.
Proof.
  intros Ha. unfold audio_input_fee. destruct (audio_priced m u); [|auto with hub].
  repeat apply val_nonneg_mul; auto with hub. apply val_div_nonneg; [auto with hub|by apply positive_int].
Qed.
End Fees.
(** ** A priced request is never free *)

(** The tokens, before the floor. *)
Definition raw_tokens (m : string) (p : PriceData) (u : Usage) (n : Z) : dec :=
  let creation :=
    dAdd (dAdd (dMul (NewFromInt (ClaudeCacheCreation5mTokens u)) (NewFromFloat (CacheCreation5mRatio p)))
               (dMul (NewFromInt (ClaudeCacheCreation1hTokens u)) (NewFromFloat (CacheCreation1hRatio p))))
         (dMul (NewFromInt (remaining_creation (CachedCreationTokens u) (ClaudeCacheCreation5mTokens u) (ClaudeCacheCreation1hTokens u)))
               (NewFromFloat (CacheCreationRatioForWire p (PromptTokensIncludeCached u)))) in
  dMul (dAdd (dAdd (dAdd (dAdd (base_tokens m u n) (priced (CachedTokens u) (CacheRatio p)))
               (priced (ImageTokens u) (ImageRatio p))) creation)
    (dMul (NewFromInt (CompletionTokens u)) (NewFromFloat (CompletionRatio p))))
    (dMul (NewFromFloat (ModelRatio p)) (NewFromFloat (GroupRatio (p_GroupRatioInfo p)))).

Definition floored (chargeable : bool) (q : dec) : dec :=
  if chargeable && dLessThanOrEqual q Decimal_Zero then NewFromInt 1 else q.

Definition chargeable (p : PriceData) : bool := ChargeableInputNonZero (UsePrice p) (ModelPrice p) (ModelRatio p).

Lemma token_quota_floored m p u n : token_quota m p u n = floored (chargeable p) (raw_tokens m p u n).
Proof. reflexivity. Qed.

Lemma le_zero q : dLessThanOrEqual q Decimal_Zero = true <-> (val q <= 0)%Q.
Proof. by rewrite val_le, val_zero. Qed.

(** Whatever was reported, tokens cost at least nothing. *)
Lemma token_quota_nonneg m p u n :
  UsePrice p = false -> is_finite (ModelRatio p) = true -> (0 <= val (token_quota m p u n))%Q.
Proof.
  intros Hu Hf. rewrite token_quota_floored. unfold floored, chargeable, ChargeableInputNonZero. rewrite Hu.
  destruct (f64_eq (ModelRatio p) f64_zero) eqn:Hz; cbn [negb andb].
  - unfold raw_tokens. rewrite !val_mul. rewrite (val_float_zero _ Hz). lra.
  - destruct (dLessThanOrEqual _ Decimal_Zero) eqn:Hle; [rewrite val_int; discriminate|].
    apply not_true_iff_false in Hle. rewrite le_zero in Hle. lra.
Qed.

Lemma other_ratios_nonneg rs : forall q,
  Forall (fun kr => price_ok (snd kr)) rs -> (0 <= val q)%Q ->
  (0 <= val (foldl (fun q (kr : string * float64) => dMul q (NewFromFloat (snd kr))) q rs))%Q.
Proof.
  induction rs as [|kr rs IH]; intros q Hr Hq; [done|]. apply Forall_cons in Hr as [H1 H2]. cbn [foldl].
  apply IH; [done|]. auto with hub.
Qed.

(** The prices of a request: finite, and none negative where the charge reads it. *)
Record prices_ok (p : PriceData) : Prop := {
  group_ok : price_ok (GroupRatio (p_GroupRatioInfo p));
  unit_ok : price_ok perUnit;
  model_ok : if UsePrice p then price_ok (ModelPrice p) else is_finite (ModelRatio p) = true;
  others_ok : Forall (fun kr => price_ok (snd kr)) (OtherRatios p)
}.

Lemma text_total_nonneg m p u n x search :
  prices_ok p -> 0 <= AudioTokens u ->
  match search with Some (sup, units) => price_ok sup /\ 0 <= units | None => True end ->
  (0 <= val (text_total perUnit m p u n x search))%Q.
Proof.
  intros [Hg Hu Hm Ho] Ha Hs. pose proof (price_nonneg _ Hg) as Hgn. unfold text_total.
  destruct search as [[sup units]|].
  { destruct Hs as [H1 H2]. repeat apply val_nonneg_mul; auto with hub. }
  apply other_ratios_nonneg; [done|].
  repeat apply val_nonneg_add;
    [|by apply web_search_fee_nonneg|by apply claude_search_fee_nonneg|by apply file_search_fee_nonneg| |by apply image_call_fee_nonneg].
  - destruct (UsePrice p) eqn:Hup; [|by apply token_quota_nonneg].
    unfold price_quota. repeat apply val_nonneg_mul; auto with hub.
  - destruct (UsePrice p); [apply zero_nonneg|by apply audio_input_fee_nonneg].
Qed.

(** C17. On the OpenAI-compatible charge, a priced request whose token total is not zero,
    or that made a search, is charged at least one unit, whatever mix of token counts the
    upstream reported, the ratio of its group or a small price: the charge is not lost to
    a negative base or to rounding. Audio tokens are not negative and the total fits an
    int64. (A token total of zero is free.) *)
Theorem served_request_charged m rerank p u x search :
  prices_ok p -> chargeable p = true -> 0 <= AudioTokens u ->
  match search with Some (sup, units) => price_ok sup /\ 0 <= units | None => True end ->
  i64_add (billable_prompt rerank u) (CompletionTokens u) <> 0 \/ search <> None ->
  in64 (round_half_away (val (text_total perUnit m p u (billable_prompt rerank u) x search))) ->
  1 <= text_charge perUnit m rerank p u x search.
Proof.
  intros Hp Hc Ha Hs Ht Hi. unfold text_charge. rewrite RoundInt_val, wrap64_id by done.
  pose proof (round_nonneg _ (text_total_nonneg m p u (billable_prompt rerank u) x search Hp Ha Hs)) as Hr.
  set (z := round_half_away _) in *. clearbody z. unfold chargeable in Hc. rewrite Hc.
  destruct (_ && _) eqn:Hz.
  { apply andb_true_iff in Hz as [H1 H2]. destruct search; [done|]. apply Z.eqb_eq in H1. destruct Ht; done. }
  cbn [andb]. destruct (Z.eqb_spec z 0); lia.
Qed.

(** ** The two routes *)

Definition in_range (u : Usage) : Prop :=
  PromptTokensIncludeCached u = true ->
  in64 (PromptTokens u - CachedTokens u) /\ in64 (PromptTokens u - CachedTokens u - CachedCreationTokens u).

(** The prompt a Claude-native settlement bills in full. *)
Definition claude_billable (u : Usage) : Z :=
  if PromptTokensIncludeCached u then i64_sub (i64_sub (PromptTokens u) (CachedTokens u)) (CachedCreationTokens u) else PromptTokens u.

Definition claude_raw (p : PriceData) (u : Usage) : dec :=
  claudeCalculateQuota perUnit (UsePrice p) (claude_billable u) (CachedTokens u) (ClaudeCacheCreation5mTokens u) (ClaudeCacheCreation1hTokens u)
    (remaining_creation (CachedCreationTokens u) (ClaudeCacheCreation5mTokens u) (ClaudeCacheCreation1hTokens u)) (CompletionTokens u)
    (CacheRatio p) (CacheCreation5mRatio p) (CacheCreation1hRatio p) (CacheCreationRatioForWire p (PromptTokensIncludeCached u))
    (CompletionRatio p) (GroupRatio (p_GroupRatioInfo p)) (ModelRatio p) (ModelPrice p).

Lemma base_tokens_val m u n :
  ImageTokens u = 0 -> AudioTokens u = 0 ->
  (val (base_tokens m u n) == inject_Z (if PromptTokensIncludeCached u then n - CachedTokens u - CachedCreationTokens u else n))%Q.
Proof.
  intros Hi Ha. unfold base_tokens, audio_priced. rewrite !int_zero_b, Hi, Ha. cbn [Z.eqb negb andb].
  destruct (PromptTokensIncludeCached u); rewrite ?andb_true_r, ?andb_false_r; [|by rewrite val_int].
  unfold Z.sub. rewrite !inject_Z_plus, !inject_Z_opp.
  destruct (Z.eqb_spec (CachedTokens u) 0) as [H1|H1], (Z.eqb_spec (CachedCreationTokens u) 0) as [H2|H2]; cbn [negb];
    rewrite ?val_sub, !val_int; rewrite ?H1, ?H2; change (inject_Z 0) with 0%Q; lra.
Qed.

(** On usage both routes can carry, the decimals before the floor have one value. *)
Lemma raw_agree m p u :
  UsePrice p = false -> ImageTokens u = 0 -> AudioTokens u = 0 -> in_range u ->
  (val (raw_tokens m p u (PromptTokens u)) == val (claude_raw p u))%Q.
Proof.
  intros Hu Hi Ha Hr. unfold raw_tokens, claude_raw, claudeCalculateQuota. rewrite Hu.
  rewrite !val_mul, !val_add, !val_mul, !priced_val, !val_int. rewrite base_tokens_val, Hi by done.
  assert (claude_billable u = if PromptTokensIncludeCached u then PromptTokens u - CachedTokens u - CachedCreationTokens u else PromptTokens u) as ->.
  { unfold claude_billable, in_range in *. destruct (PromptTokensIncludeCached u); [|done]. destruct Hr as [H1 H2]; [done|].
    unfold i64_sub. by rewrite !wrap64_id by (rewrite ?wrap64_id; done). }
  change (inject_Z 0) with 0%Q. ring.
Qed.

(** Nothing on the request but Claude's own search tool. *)
Definition plain (m : string) (p : PriceData) (x : tools) : Prop :=
  responses x = None /\ image_call x = None /\ HasSuffix m "search-preview" = false /\ OtherRatios p = [].

Lemma plain_total m p u n x :
  plain m p x -> ImageTokens u = 0 -> AudioTokens u = 0 ->
  (val (text_total perUnit m p u n x None) ==
   val (if UsePrice p then price_quota perUnit p else token_quota m p u n) +
   val (claude_search_fee perUnit x (NewFromFloat (GroupRatio (p_GroupRatioInfo p)))))%Q.
Proof.
  intros (H1 & H2 & H3 & H4) Hi Ha. unfold text_total, times_other_ratios. rewrite H4. cbn [foldl].
  unfold web_search_fee, file_search_fee, image_call_fee, audio_input_fee, audio_priced.
  rewrite H1, H2, H3, int_zero_b, Ha. cbn [Z.eqb negb andb]. rewrite !val_add.
  replace (if UsePrice p then Decimal_Zero else Decimal_Zero) with Decimal_Zero by by destruct (UsePrice p).
  rewrite !val_zero. lra.
Qed.

Lemma floored_proper b q q' : (val q == val q')%Q -> (val (floored b q) == val (floored b q'))%Q.
Proof.
  intros Hq. unfold floored. assert (dLessThanOrEqual q Decimal_Zero = dLessThanOrEqual q' Decimal_Zero) as ->.
  { apply eq_bool_prop_intro. rewrite !Is_true_true, !le_zero, Hq. done. }
  by destruct (b && _).
Qed.

(** What the Claude-native route rounds. *)
Definition claude_total (p : PriceData) (u : Usage) (x : tools) : dec :=
  let q := floored (chargeable p) (claude_raw p u) in
  if claude_web_search x >? 0 then dAdd q (claude_search_fee perUnit x (NewFromFloat (GroupRatio (p_GroupRatioInfo p)))) else q.

Lemma claude_total_val p u x :
  (val (claude_total p u x) == val (floored (chargeable p) (claude_raw p u)) +
   val (claude_search_fee perUnit x (NewFromFloat (GroupRatio (p_GroupRatioInfo p)))))%Q.
Proof.
  unfold claude_total, claude_search_fee. destruct (claude_web_search x >? 0); [by rewrite val_add|]. rewrite val_zero. lra.
Qed.

Lemma claude_charge_total p u x :
  claude_charge perUnit p u x None =
  (if i64_add (claude_billable u) (CompletionTokens u) =? 0 then 0
   else if chargeable p && (RoundInt (claude_total p u x) =? 0) then 1 else RoundInt (claude_total p u x)).
Proof. unfold claude_charge, claude_total, claude_raw, claude_billable, chargeable. by destruct (PromptTokensIncludeCached u). Qed.

Lemma RoundInt_proper q q' : (val q == val q')%Q -> RoundInt q = RoundInt q'.
Proof. intros Hq. by rewrite !RoundInt_val, Hq. Qed.

Lemma RoundInt_int z : RoundInt (NewFromInt z) = wrap64 z.
Proof. rewrite RoundInt_val. f_equal. rewrite val_int. apply round_int. Qed.

Lemma claude_raw_price p u : UsePrice p = true -> claude_raw p u = price_quota perUnit p.
Proof. intros Hu. unfold claude_raw, claudeCalculateQuota, price_quota. by rewrite Hu. Qed.

(** A price that comes to nothing does so by its group or its unit, and so does the fee. *)
Lemma worthless_unit p x :
  prices_ok p -> UsePrice p = true -> chargeable p = true -> (val (price_quota perUnit p) <= 0)%Q ->
  (val (price_quota perUnit p) == 0)%Q /\
  (val (claude_search_fee perUnit x (NewFromFloat (GroupRatio (p_GroupRatioInfo p)))) == 0)%Q.
Proof.
  intros [Hg Hn Hm _] Hu Hc Hq. rewrite Hu in Hm. unfold chargeable, ChargeableInputNonZero in Hc. rewrite Hu in Hc.
  apply negb_true_iff in Hc. pose proof (price_pos _ Hm Hc) as Hp. pose proof (price_nonneg _ Hg) as Hgn.
  pose proof (price_nonneg _ Hn) as Hun. unfold price_quota, claude_search_fee, dQuotaPerUnit in *. rewrite !val_mul in Hq |- *.
  set (mp := val (NewFromFloat (ModelPrice p))) in *. set (g := val (NewFromFloat (GroupRatio _))) in *.
  set (w := val (NewFromFloat perUnit)) in *.
  assert (w * g == 0)%Q as H0.
  { apply Qle_antisym; [|by apply Qmult_le_0_compat]. apply (Qmult_lt_0_le_reg_r _ _ mp); [done|]. clearbody mp g w. lra. }
  split; [rewrite <- Qmult_assoc, H0; lra|]. destruct (_ >? 0); [|apply val_zero]. rewrite !val_mul. fold g w.
  rewrite <- (Qmult_assoc _ g w), (Qmult_comm g w), H0. lra.
Qed.

(** C16. One usage costs the same on the OpenAI-compatible and on the Claude-native
    charge: whichever of the two wire conventions the upstream counts its prompt in, and
    with the cache reads, the cache writes of either duration and Claude's web searches it
    reports. The request has no image or audio tokens, no other tool, no search-preview
    model and no other ratios, and the tokens that count are not zero in either
    convention: a prompt read wholly from the cache with an empty completion is charged on
    one route and not on the other. The inference of cache writes from an OpenRouter cost,
    which comes before the Claude-native charge, is not part of the statement. *)
Theorem wire_formats_agree m p u x :
  prices_ok p -> plain m p x -> ImageTokens u = 0 -> AudioTokens u = 0 -> in_range u ->
  i64_add (PromptTokens u) (CompletionTokens u) <> 0 ->
  i64_add (claude_billable u) (CompletionTokens u) <> 0 ->
  text_charge perUnit m false p u x None = claude_charge perUnit p u x None.
Proof.
  intros Hp Hx Hi Ha Hr H1 H2. rewrite claude_charge_total. unfold text_charge. cbn [billable_prompt andb negb].
  unfold billable_prompt. cbn [andb]. rewrite andb_true_r. apply Z.eqb_neq in H1 as ->. apply Z.eqb_neq in H2 as ->.
  fold (chargeable p). pose proof (plain_total m p u (PromptTokens u) x Hx Hi Ha) as Ht.
  pose proof (claude_total_val p u x) as Hc. set (fee := val (claude_search_fee _ _ _)) in *.
  destruct (UsePrice p) eqn:Hu.
  - rewrite claude_raw_price in Hc by done. unfold floored in Hc.
    destruct (chargeable p && dLessThanOrEqual _ _) eqn:Hf.
    2: { rewrite (RoundInt_proper _ (claude_total p u x)); [done|]. by rewrite Ht, Hc. }
    apply andb_true_iff in Hf as [Hch Hle]. apply le_zero in Hle. destruct (worthless_unit p x Hp Hu Hch Hle) as [Hq Hfee].
    fold fee in Hfee. rewrite Hch.
    rewrite (RoundInt_proper _ Decimal_Zero) by (rewrite Ht, Hq, Hfee, val_zero; lra).
    rewrite (RoundInt_proper (claude_total p u x) (NewFromInt 1)) by (rewrite Hc, Hfee; lra).
    unfold Decimal_Zero. by rewrite !RoundInt_int.
  - rewrite (RoundInt_proper _ (claude_total p u x)); [done|]. rewrite Ht, Hc, token_quota_floored.
    by rewrite (floored_proper _ _ _ (raw_agree m p u Hu Hi Ha Hr)).
Qed.

(** ** The cost shown *)

(** What the estimate prices: no tool, no audio input at a price of its own, and cache
    writes not split by duration. *)
Record estimable (m : string) (p : PriceData) (u : Usage) : Prop := {
  est_name : HasSuffix m "search-preview" = false;
  est_others : OtherRatios p = [];
  est_audio : audio_priced m u = false;
  est_5m : ClaudeCacheCreation5mTokens u = 0;
  est_1h : ClaudeCacheCreation1hTokens u = 0;
  est_creation : 0 <= CachedCreationTokens u < 2 ^ 63
}.

Lemma estimable_total m p u n :
  estimable m p u ->
  (val (text_total perUnit m p u n no_tools None) == val (if UsePrice p then price_quota perUnit p else token_quota m p u n))%Q.
Proof.
  intros [H1 H2 H3 H4 H5 H6]. unfold text_total, times_other_ratios. rewrite H2. cbn [foldl].
  unfold web_search_fee, claude_search_fee, file_search_fee, image_call_fee, audio_input_fee. rewrite H1, H3.
  cbn [no_tools responses image_call claude_web_search Z.gtb Z.compare]. rewrite !val_add.
  replace (if UsePrice p then Decimal_Zero else Decimal_Zero) with Decimal_Zero by by destruct (UsePrice p).
  rewrite !val_zero. lra.
Qed.

(** The tokens the estimate prices, before its floor. *)
Definition shown_tokens (p : PriceData) (u : Usage) : dec :=
  let b := NewFromInt (PromptTokens u) in
  let b := if negb (dIsZero (NewFromInt (CachedTokens u))) && PromptTokensIncludeCached u then dSub b (NewFromInt (CachedTokens u)) else b in
  let b := if negb (dIsZero (NewFromInt (CachedCreationTokens u))) && PromptTokensIncludeCached u
           then dSub b (NewFromInt (CachedCreationTokens u)) else b in
  let b := if negb (dIsZero (NewFromInt (ImageTokens u))) then dSub b (NewFromInt (ImageTokens u)) else b in
  dMul (dAdd (dAdd (dAdd (dAdd b (priced (CachedTokens u) (CacheRatio p))) (priced (ImageTokens u) (ImageRatio p)))
    (priced (CachedCreationTokens u) (CacheCreationRatioForWire p (PromptTokensIncludeCached u))))
    (dMul (NewFromInt (CompletionTokens u)) (NewFromFloat (CompletionRatio p))))
    (dMul (NewFromFloat (ModelRatio p)) (NewFromFloat (GroupRatio (p_GroupRatioInfo p)))).

Lemma shown_tokens_val m p u :
  estimable m p u -> (val (raw_tokens m p u (PromptTokens u)) == val (shown_tokens p u))%Q.
Proof.
  intros [H1 H2 H3 H4 H5 H6]. unfold raw_tokens, shown_tokens, base_tokens. rewrite H3, H4, H5.
  assert (remaining_creation (CachedCreationTokens u) 0 0 = CachedCreationTokens u) as ->.
  { assert (wrap64 (CachedCreationTokens u) = CachedCreationTokens u) as Hw by (apply wrap64_id; unfold64; lia).
    unfold remaining_creation, i64_sub. rewrite !Z.sub_0_r, !Hw.
    destruct (Z.ltb_spec (CachedCreationTokens u) 0); lia. }
  rewrite !val_mul, !val_add, !val_mul, !priced_val, !val_int. change (inject_Z 0) with 0%Q. ring.
Qed.

Lemma estimate_floored p u :
  UsePrice p = false -> chargeable p = true -> is_finite (ModelRatio p) = true ->
  (0 < val (NewFromFloat (GroupRatio (p_GroupRatioInfo p))))%Q ->
  estimate_charge perUnit p u = RoundInt (floored true (shown_tokens p u)).
Proof.
  intros Hu Hc Hm Hg. unfold estimate_charge. rewrite Hu.
  assert (dIsZero (dMul (NewFromFloat (ModelRatio p)) (NewFromFloat (GroupRatio (p_GroupRatioInfo p)))) = false) as ->; [|done].
  apply not_true_iff_false. rewrite val_iszero, val_mul. intros H0. apply Qmult_integral in H0 as [H0|H0]; [|lra].
  apply float_val_zero in H0; [|done]. unfold chargeable, ChargeableInputNonZero in Hc. rewrite Hu, H0 in Hc. done.
Qed.

(** C19. The cost shown to the caller is the cost charged: for a reported usage of a
    priced request in a group that is not free, what [EstimateQuotaFromUsage] computes is,
    up to the floor of one unit, what [postConsumeQuota] settles. The request uses no
    tool, no search-preview model, no other ratios, no rerank units and no audio input at
    a price of its own, its cache writes are not split by duration, its token total is not
    zero and its total fits an int64. *)
Theorem shown_is_charged t q p u estimate :
  let p' := ResettleContextTier t p (OriginModelName q) (AsOpenAIWire_PromptTokens u) in
  prices_ok p' -> chargeable p' = true -> f64_eq (GroupRatio (p_GroupRatioInfo p')) f64_zero = false ->
  estimable (OriginModelName q) p' u -> IsRerank q = false -> 0 <= AudioTokens u ->
  i64_add (PromptTokens u) (CompletionTokens u) <> 0 ->
  in64 (round_half_away (val (text_total perUnit (OriginModelName q) p' u (PromptTokens u) no_tools None))) ->
  postConsumeQuota_amount perUnit t q p (Some u) estimate no_tools = Z.max 1 (EstimateQuotaFromUsage perUnit t q p u).
Proof.
  intros p' Hp Hc Hg He Hr Ha Ht Hi. unfold postConsumeQuota_amount, EstimateQuotaFromUsage, SearchUnitPriced. fold p'.
  rewrite Hr. cbn [negb]. unfold text_charge, billable_prompt. cbn [andb negb]. rewrite andb_true_r.
  apply Z.eqb_neq in Ht as ->. fold (chargeable p'). rewrite Hc. cbn [andb].
  pose proof (text_total_nonneg (OriginModelName q) p' u (PromptTokens u) no_tools None Hp Ha I) as Hn.
  apply round_nonneg in Hn. rewrite RoundInt_val, wrap64_id by done.
  set (z := round_half_away _) in *.
  assert (z = round_half_away (val (if UsePrice p' then price_quota perUnit p' else token_quota (OriginModelName q) p' u (PromptTokens u)))) as Hz.
  { unfold z. by rewrite estimable_total. }
  destruct Hp as [Hpg Hpu Hpm _]. destruct (UsePrice p') eqn:Hu.
  - unfold estimate_charge. rewrite Hu, RoundInt_val, <- Hz, wrap64_id by done.
    destruct (Z.eqb_spec z 0), (Z.leb_spec z 0); lia.
  - rewrite estimate_floored by (done || by apply price_pos). rewrite token_quota_floored, Hc in Hz.
    rewrite RoundInt_val. rewrite <- (floored_proper true _ _ (shown_tokens_val (OriginModelName q) p' u He)).
    rewrite <- Hz, wrap64_id by done. destruct (Z.eqb_spec z 0); lia.
Qed.

(** ** The estimate is forgotten *)

(** A price with another pre-consumption. *)
Definition with_pre (free : bool) (pre : Z) (p : PriceData) : PriceData :=
  mkPrice free (ModelPrice p) (ModelRatio p) (CompletionRatio p) (CacheRatio p) (CacheCreationRatio p) (CacheCreation5mRatio p)
    (CacheCreation1hRatio p) (CacheCreationRatioDefaulted p) (ImageRatio p) (AudioRatio p) (AudioCompletionRatio p) (OtherRatios p)
    (UsePrice p) pre (p_GroupRatioInfo p) (ContextTierThreshold p) (BaseModelRatio p) (BaseCompletionRatio p) (BaseCacheRatio p)
    (BaseRatiosSet p).

Lemma no_tiers_no_tier t name n : HasContextLengthTiers t name = false -> GetContextLengthTier t name n = None.
Proof. unfold HasContextLengthTiers, GetContextLengthTier. by destruct (default [] _). Qed.

(** Prices made from two estimates, once resettled, differ in what was held at most. *)
Lemma resettled_alike t s1 s2 rt q e1 e2 x1 x2 img p1 p2 n :
  ModelPriceHelper t s1 rt q e1 x1 img = Some p1 -> ModelPriceHelper t s2 rt q e2 x2 img = Some p2 ->
  ResettleContextTier t p2 (OriginModelName q) n =
  with_pre (FreeModel p2) (QuotaToPreConsume p2) (ResettleContextTier t p1 (OriginModelName q) n).
Proof.
  unfold ModelPriceHelper. intros H1 H2.
  destruct (match SearchUnitPriced t q with Some _ => _ | None => _ end) as [modelPrice [|]].
  { simplify_eq. reflexivity. }
  destruct (let '(r, ok) := GetModelRatio t (OriginModelName q) in _) as [modelRatio success].
  destruct (negb success && _); [done|]. destruct (GetCreateCacheRatio t (OriginModelName q)) as [create listed].
  destruct (tiered (GetContextLengthTier t (OriginModelName q) e1) _ _ _) as [[[m k] c] th] eqn:T1.
  destruct (tiered (GetContextLengthTier t (OriginModelName q) e2) _ _ _) as [[[m' k'] c'] th'] eqn:T2.
  injection H1 as <-. injection H2 as <-. unfold ResettleContextTier. cbn -[tiered].
  destruct (HasContextLengthTiers t (OriginModelName q)) eqn:Ht; cbn -[tiered].
  - destruct (tiered (GetContextLengthTier t (OriginModelName q) n) _ _ _) as [[[? ?] ?] ?]. reflexivity.
  - rewrite !no_tiers_no_tier in T1, T2 by done. cbn in T1, T2. simplify_eq. reflexivity.
Qed.

(** C18. Where the upstream reported a usage, what a request costs does not depend on the
    estimate it was admitted on: two estimates of the prompt, of the completion or of the
    amount to hold lead to one charge, on either route, and to one cost shown. (Without a
    reported usage the estimate is what is billed.) *)
Theorem charge_forgets_estimate t s1 s2 rt q e1 e2 x1 x2 img p1 p2 defaults u e1' e2' x :
  ModelPriceHelper t s1 rt q e1 x1 img = Some p1 -> ModelPriceHelper t s2 rt q e2 x2 img = Some p2 ->
  postConsumeQuota_amount perUnit t q p1 (Some u) e1' x = postConsumeQuota_amount perUnit t q p2 (Some u) e2' x /\
  PostClaudeConsumeQuota_amount perUnit t defaults q p1 u x = PostClaudeConsumeQuota_amount perUnit t defaults q p2 u x /\
  EstimateQuotaFromUsage perUnit t q p1 u = EstimateQuotaFromUsage perUnit t q p2 u.
Proof.
  intros H1 H2. unfold postConsumeQuota_amount, PostClaudeConsumeQuota_amount, EstimateQuotaFromUsage.
  rewrite (resettled_alike t s1 s2 rt q e1 e2 x1 x2 img p1 p2 _ H1 H2).
  set (p := ResettleContextTier t p1 _ _). clearbody p. by destruct p.
Qed.
End Settle.

(** ** Examples *)

Section Examples.
Import GoStrings PlatformBilling Prices Settlement.

Definition ex_unit : float64 := f64_of_int 500000.
Definition ex_group : GroupRatioInfo := mkGroupRatio f64_one (f64_of_int (-1)) false.

Definition ex_price : PriceData :=
  mkPrice false (f64_of_int (-1)) (f64 3 2) (f64_of_int 5) (f64 1 8) (f64 5 4) (f64 5 4) (f64_of_int 2) false f64_one f64_one f64_one []
    false 0 ex_group 0 (f64 3 2) (f64_of_int 5) (f64 1 8) true.

Definition ex_call_price : PriceData :=
  mkPrice false (f64 1 50) f64_zero f64_zero f64_zero f64_zero f64_zero f64_zero false f64_zero f64_zero f64_zero []
    true 0 ex_group 0 f64_zero f64_zero f64_zero true.

(** A prompt of 1000 tokens, 400 of them read from the cache and 100 written to it. *)
Definition ex_usage : Usage := mkUsage 1000 200 1200 true 400 100 0 0 40 30 None 0 0 None.
Definition ex_search : tools := mkTools None 3 None.

Definition ex_tables : tables :=
  mkTables ∅ {["glm-4.5" := f64 3 2]} ∅ {["glm-4.5" := f64 1 8]} ∅ ∅ ∅ ∅ {["vip" := f64 1 2]} ∅
    {["glm-4.5" := [mkTier 100 (Some (f64_of_int 3)) None None; mkTier 32000 (Some (f64_of_int 6)) None None]]} ∅ f64_one false.
Definition ex_request : request := mkRequest "glm-4.5" "default" "vip" None false None "glm-4.5" false false.
Definition ex_rates : rates := mkRates ex_unit (f64_of_int 7).

(** A usage whose writes are not split by duration. *)
Definition ex_flat_usage : Usage := mkUsage 1000 200 1200 true 400 100 0 0 0 0 None 0 0 None.

Example ex_charges :
  text_charge ex_unit "claude-opus-4" false ex_price ex_usage ex_search None = 17546 /\
  claude_charge ex_unit ex_price ex_usage ex_search None = 17546 /\
  text_charge ex_unit "claude-opus-4" false ex_call_price ex_usage no_tools None = 10000.
Proof. vm_compute. repeat split. Qed.

(** One hour of cache is charged at twice the price of the prompt and shown at 1.25. *)
Example ex_long_writes_shown_less :
  let u := mkUsage 1000 200 1200 true 0 1000 0 0 0 1000 None 0 0 None in
  text_charge ex_unit "claude-opus-4" false ex_price u no_tools None = 4500 /\ estimate_charge ex_unit ex_price u = 3375.
Proof. vm_compute. by split. Qed.

(** A prompt read wholly from the cache, with nothing generated, costs nothing on the
    Claude-native route, which takes the missing full-price tokens for a missing usage. *)
Example ex_cached_prompt_free :
  let u := mkUsage 1000 0 1000 true 1000 0 0 0 0 0 None 0 0 None in
  text_charge ex_unit "claude-opus-4" false ex_price u no_tools None = 188 /\ claude_charge ex_unit ex_price u no_tools None = 0.
Proof. vm_compute. by split. Qed.

(** The branch of gpt-3.5 is behind the one of gpt-. *)
Example ex_gpt35_completion : GetCompletionRatio ex_tables "gpt-3.5-turbo" = f64_of_int 2.
Proof. reflexivity. Qed.

Lemma price_ok_dec f : is_finite f && negb (f64_lt f f64_zero) = true -> price_ok f.
Proof. intros [H1 H2]%andb_true_iff. split; [done|]. by apply negb_true_iff in H2. Qed.

Lemma ex_price_ok : prices_ok ex_unit ex_price.
Proof. constructor; [apply price_ok_dec; reflexivity|apply price_ok_dec; reflexivity|reflexivity|constructor]. Qed.

(** Two prompt tokens at a ratio of one in a thousand. *)
Definition ex_small : PriceData :=
  mkPrice false (f64_of_int (-1)) (f64 1 1024) f64_one f64_one f64_one f64_one f64_one false f64_one f64_one f64_one []
    false 0 ex_group 0 (f64 1 1024) f64_one f64_one true.

Lemma served_request_charged_witness :
  1 <= text_charge ex_unit "glm-4.5" false ex_small (mkUsage 2 0 2 true 0 0 0 0 0 0 None 0 0 None) no_tools None.
Proof.
  apply (served_request_charged (Dec := rationals) (Laws := rationals_laws)).
  - constructor; [apply price_ok_dec; reflexivity|apply price_ok_dec; reflexivity|reflexivity|constructor].
  - reflexivity.
  - cbn. lia.
  - exact I.
  - left. vm_compute. discriminate.
  - vm_compute. split; discriminate.
Defined.

Lemma wire_formats_agree_witness :
  text_charge ex_unit "claude-opus-4" false ex_price ex_usage ex_search None = claude_charge ex_unit ex_price ex_usage ex_search None.
Proof.
  apply (wire_formats_agree (Dec := rationals) (Laws := rationals_laws)).
  - exact ex_price_ok.
  - repeat split.
  - reflexivity.
  - reflexivity.
  - intros _. vm_compute. repeat split; discriminate.
  - vm_compute. discriminate.
  - vm_compute. discriminate.
Defined.

Lemma shown_is_charged_witness :
  postConsumeQuota_amount ex_unit ex_tables ex_request ex_price (Some ex_flat_usage) 7 no_tools =
  Z.max 1 (EstimateQuotaFromUsage ex_unit ex_tables ex_request ex_price ex_flat_usage).
Proof.
  apply (shown_is_charged (Dec := rationals) (Laws := rationals_laws)).
  - constructor; [apply price_ok_dec; vm_compute; reflexivity|apply price_ok_dec; vm_compute; reflexivity|vm_compute; reflexivity|vm_compute; constructor].
  - vm_compute. reflexivity.
  - vm_compute. reflexivity.
  - split; try (vm_compute; reflexivity). vm_compute. split; [discriminate|reflexivity].
  - reflexivity.
  - cbn. lia.
  - vm_compute. discriminate.
  - vm_compute. split; discriminate.
Defined.

Definition ex_estimated (n : Z) : PriceData :=
  default ex_price (ModelPriceHelper ex_tables (mkPreconsume 500 false) ex_rates ex_request n 0 f64_zero).

(** Admitted on an estimate below every tier, or on one above both. *)
Lemma charge_forgets_estimate_witness :
  postConsumeQuota_amount ex_unit ex_tables ex_request (ex_estimated 10) (Some ex_usage) 10 no_tools =
  postConsumeQuota_amount ex_unit ex_tables ex_request (ex_estimated 40000) (Some ex_usage) 40000 no_tools /\
  PostClaudeConsumeQuota_amount ex_unit ex_tables ∅ ex_request (ex_estimated 10) ex_usage no_tools =
  PostClaudeConsumeQuota_amount ex_unit ex_tables ∅ ex_request (ex_estimated 40000) ex_usage no_tools /\
  EstimateQuotaFromUsage ex_unit ex_tables ex_request (ex_estimated 10) ex_usage =
  EstimateQuotaFromUsage ex_unit ex_tables ex_request (ex_estimated 40000) ex_usage.
Proof.
  apply (charge_forgets_estimate (Dec := rationals) ex_unit ex_tables (mkPreconsume 500 false) (mkPreconsume 500 false) ex_rates
    ex_request 10 40000 0 0 f64_zero).
  - vm_compute. reflexivity.
  - vm_compute. reflexivity.
Defined.
End Examples.
