(* ===== verification/PriceTablesSpec.v ===== *)
(** * The price tables: theorems

    What stays true of the tables under every update, which tier a prompt gets, and which of
    the rows the program starts with are lost. *)

From Stdlib Require Import QArith SpecFloat.
From S2P Require Import Prelude GoStrings PlatformBilling Decimal Prices PriceTables Settlement SettlementSpec.

Open Scope Z_scope.

Section Checked.
Import GoStrings PlatformBilling Prices PriceTables Settlement.

(** What the updates check: tiers by ascending thresholds, prices of search units that are
    prices. *)
Record tables_wf (t : tables) : Prop := {
  wf_tiers : forall name l, contextTiersMap t !! name = Some l -> ValidateContextTierList l = true;
  wf_search : forall name price, searchUnitPriceMap t !! name = Some price -> price_ok price
}.

Lemma validated_tiers m name l :
  validateContextTiersMap m = true -> m !! name = Some l -> ValidateContextTierList l = true.
Proof.
  unfold validateContextTiersMap. rewrite forallb_forall. intros H Hm. apply (H (name, l)).
  by apply list_elem_of_In, elem_of_map_to_list.
Qed.

Lemma validated_prices m name price :
  validateSearchUnitPrices m = true -> m !! name = Some price -> price_ok price.
Proof.
  unfold validateSearchUnitPrices. rewrite forallb_forall. intros H Hm.
  assert (search_price_allowed price = true) as [H1 H2]%andb_true_iff.
  { apply (H (name, price)). by apply list_elem_of_In, elem_of_map_to_list. }
  split; [done|]. by apply negb_true_iff.
Qed.

Lemma Update_wf t u : tables_wf t -> tables_wf (fst (Update t u)).
Proof.
  intros [Ht Hs]. unfold Update. destruct (with_table t u) as [t'|] eqn:Hu; [|done]. cbn [fst].
  destruct t, u; cbn in Hu; destruct tmp as [m|]; cbn in Hu; try done;
    try (simplify_eq; by split);
    case_match eqn:Hv; try done; apply negb_false_iff in Hv; simplify_eq; split; cbn; try done.
  - intros name l. by apply validated_tiers.
  - intros name price. by apply validated_prices.
Qed.

Lemma start_wf : tables_wf start_tables.
Proof. by split; intros name x; cbn; rewrite lookup_empty. Qed.

(** ** The tier of a prompt *)

(** Of the tiers a prompt reaches, the one with the highest threshold. *)
Definition is_best (n : Z) (l : list ContextTier) (r : option ContextTier) : Prop :=
  match r with
  | Some c => c ∈ l /\ ThresholdTokens c <= n /\ forall c', c' ∈ l -> ThresholdTokens c' <= n -> ThresholdTokens c' <= ThresholdTokens c
  | None => forall c', c' ∈ l -> n < ThresholdTokens c'
  end.

Lemma best_tier_is_best n l : forall seen best,
  is_best n seen best -> is_best n (seen ++ l) (best_tier n l best).
Proof.
  induction l as [|c l IH]; intros seen best Hb; cbn [best_tier]; [by rewrite app_nil_r|].
  replace (seen ++ c :: l) with ((seen ++ [c]) ++ l) by by rewrite <- app_assoc.
  destruct (Z.gtb_spec (ThresholdTokens c) n) as [Hc|Hc].
  { apply IH. destruct best as [b|]; cbn in Hb |- *.
    - destruct Hb as (H1 & H2 & H3). split; [apply elem_of_app; by left|split; [done|]].
      intros c' [H|H%list_elem_of_singleton]%elem_of_app Hn; [by apply H3|subst; lia].
    - intros c' [H|H%list_elem_of_singleton]%elem_of_app; [by apply Hb|subst; lia]. }
  assert (c ∈ seen ++ [c]) as Hin by (apply elem_of_app; rewrite list_elem_of_singleton; by right).
  destruct best as [b|]; [destruct Hb as (H1 & H2 & H3); destruct (Z.gtb_spec (ThresholdTokens c) (ThresholdTokens b))|]; apply IH.
  - split; [done|split; [done|]]. intros c' [H'|H'%list_elem_of_singleton]%elem_of_app Hn; [specialize (H3 c' H' Hn)|subst]; lia.
  - split; [apply elem_of_app; by left|split; [done|]].
    intros c' [H'|H'%list_elem_of_singleton]%elem_of_app Hn; [by apply H3|subst; lia].
  - split; [done|split; [done|]]. intros c' [H'|H'%list_elem_of_singleton]%elem_of_app Hn; [specialize (Hb c' H')|subst]; lia.
Qed.

(** The thresholds of a valid list ascend, so they differ. *)
Lemma valid_ascending l : forall prev,
  tiers_valid prev l = true -> Sorted.StronglySorted (fun a b => ThresholdTokens a < ThresholdTokens b) l /\ forall c, c ∈ l -> prev < ThresholdTokens c.
Proof.
  induction l as [|c l IH]; intros prev H; [by split; [constructor|intros c Hc%not_elem_of_nil]|].
  cbn in H. rewrite !andb_true_iff in H. destruct H as [[[[[_ H2] _] _] _] H3]. apply negb_true_iff, Z.leb_gt in H2.
  destruct (IH _ H3) as [Hs Hl]. split.
  - constructor; [done|]. apply Forall_forall. intros c' Hc'. by apply Hl.
  - intros c' [Hc'|Hc']%elem_of_cons; [by subst|]. specialize (Hl _ Hc'). lia.
Qed.

Definition updated (us : list update) : tables := foldl (fun t u => fst (Update t u)) start_tables us.

Lemma updated_wf us : tables_wf (updated us).
Proof.
  unfold updated. generalize start_wf. generalize start_tables. induction us as [|u us IH]; intros t Ht; [done|].
  cbn [foldl]. apply IH. by apply Update_wf.
Qed.

Lemma ascending_threshold_inj l a b :
  Sorted.StronglySorted (fun a b => ThresholdTokens a < ThresholdTokens b) l ->
  a ∈ l -> b ∈ l -> ThresholdTokens a = ThresholdTokens b -> a = b.
Proof.
  induction 1 as [|c l Hl IH Hc]; [by intros ?%not_elem_of_nil|]. rewrite Forall_forall in Hc.
  intros [Ha|Ha]%elem_of_cons [Hb|Hb]%elem_of_cons E; subst; try done.
  - specialize (Hc _ Hb). cbn in Hc. lia.
  - specialize (Hc _ Ha). cbn in Hc. lia.
  - by apply IH.
Qed.

(** However the tables are updated, with well-formed text or not, a price of a search
    unit is a finite amount that is not negative, and the tier of a prompt is the only one of
    its model with the highest threshold the prompt reaches. *)
Theorem checked_tables_invariant us name n :
  let t := updated us in
  let l := default [] (contextTiersMap t !! name) in
  (forall sup, GetSearchUnitPrice t name = Some sup -> price_ok sup) /\
  (length l <= maxContextTiersPerModel)%nat /\
  match GetContextLengthTier t name n with
  | Some c => c ∈ l /\ ThresholdTokens c <= n /\ forall c', c' ∈ l -> ThresholdTokens c' <= n -> c' <> c -> ThresholdTokens c' < ThresholdTokens c
  | None => forall c', c' ∈ l -> n < ThresholdTokens c'
  end.
Proof.
  intros t l. destruct (updated_wf us) as [Ht Hs]. split; [intros sup; apply Hs|].
  assert (ValidateContextTierList l = true) as [Hlen Hv]%andb_true_iff.
  { unfold l. destruct (contextTiersMap t !! name) as [l'|] eqn:Hl; [by apply (Ht name)|done]. }
  split; [by apply Nat.leb_le|].
  assert (is_best n l (GetContextLengthTier t name n)) as Hb.
  { unfold GetContextLengthTier. fold l. apply (best_tier_is_best n l [] None). by intros c Hc%not_elem_of_nil. }
  destruct (GetContextLengthTier t name n) as [c|]; [|done]. destruct Hb as (H1 & H2 & H3). split; [done|split; [done|]].
  intros c' Hc' Hn Hd. specialize (H3 c' Hc' Hn). destruct (valid_ascending _ _ Hv) as [Hsort _].
  enough (ThresholdTokens c' <> ThresholdTokens c) by lia. intros E. by apply Hd, (ascending_threshold_inj l).
Qed.

(** ** The rows at start *)

Definition listed_as (kr : string * float64) : bool :=
  let '(r, ok) := GetModelRatio start_tables (fst kr) in ok && f64_eq r (snd kr).

Definition lost_row : string := "gemini-2.5-flash-lite-preview-thinking-*".

(** Two mistakes in the ratios the program starts with.  A row for the thinking variants
    of gemini-2.5-flash-lite is under a name no lookup asks for, so such a model is priced by
    its family, a quarter above the row; every other row is what its model is priced at.
    And 1 / 1000 * USD is a quotient of integers, so the large sonar models are free where
    the small ones are charged. *)
Theorem shipped_rows_lost :
  (forall kr, kr ∈ defaultModelRatio -> listed_as kr = negb (String.eqb (fst kr) lost_row)) /\
  (lost_row, f64 1 20) ∈ defaultModelRatio /\
  GetModelRatio start_tables "gemini-2.5-flash-lite-preview-thinking-1024" = (f64_mul (f64 5 100) (f64 5 4), true) /\
  let charge model :=
    option_map (fun p => text_charge ex_unit model false p (mkUsage 1000000 1000000 2000000 true 0 0 0 0 0 0 None 0 0 None) no_tools None)
      (ModelPriceHelper start_tables (mkPreconsume 500 false) ex_rates (mkRequest model "default" "default" None false None model false false)
         1000 0 f64_zero) in
  charge "llama-3-sonar-small-32k-chat" = Some 200000 /\ charge "llama-3-sonar-large-32k-chat" = Some 0.
Proof.
  split; [|split; [|split; [|split]]].
  - assert (forallb (fun kr => Bool.eqb (listed_as kr) (negb (String.eqb (fst kr) lost_row))) defaultModelRatio = true) as H
      by (vm_compute; reflexivity).
    rewrite forallb_forall in H. intros kr Hkr. by apply Bool.eqb_prop, H, list_elem_of_In.
  - apply list_elem_of_In. eapply proj1, (List.find_some (fun kr => String.eqb (fst kr) lost_row)).
    vm_compute. reflexivity.
  - vm_compute. reflexivity.
  - vm_compute. reflexivity.
  - vm_compute. reflexivity.
Qed.

(** Once an operator has saved prices, a System One model is priced and reported as not. *)
Example ex_system_one_source :
  let t := fst (Update start_tables (UpdateModelRatio (Some ∅))) in
  GetModelRatio t "jev-latest" = (f64 21 1000, true) /\ Source (GetModelPricingSource t "jev-latest") = "none".
Proof. vm_compute. by split. Qed.
End Checked.
