(* ===== verification/StreamConvert.v ===== *)
(** * Answers in the caller's format

    Model of how the answer of an OpenAI-wire upstream is put into the format the caller
    speaks: the conversions of internal/app/convert.go ([StreamResponseOpenAI2Claude],
    [CloseClaudeStream], [StreamResponseOpenAI2Gemini], [ResponseOpenAI2Claude],
    [ResponseOpenAI2Gemini]), the handling of one chunk and of the end of a stream in
    internal/adapter/provider/openai/helper.go, [sendStreamData], [OaiStreamHandler] and
    [applyUsagePostProcessing] of relay-openai.go, and the Claude stream of
    internal/app/relay/claude_bifrost.go.

    A chunk is given as parsed; [None] is one that does not parse.  What a converter emits
    is a list of events, and an event that points to the live index of the conversion reads
    it when it is sent. *)

From S2P Require Import Prelude GoStrings Decimal Prices Settlement.

Module StreamConvert.
Import GoStrings Settlement.

(** ** Chunks *)

Record ToolCallResponse := mkToolCall {
  tc_Index : option Z;
  tc_ID : string;
  tc_Name : string;
  tc_Arguments : string
}.

(** [None] for [ToolCalls] is a nil slice, which an empty list of the JSON is not. *)
Record Delta := mkDelta {
  Content : option string;
  ReasoningContent : option string;
  Reasoning : option string;
  ToolCalls : option (list ToolCallResponse)
}.

Record Choice := mkChoice {
  c_Delta : Delta;
  c_FinishReason : option string;
  c_Index : Z
}.

Record Chunk := mkChunk {
  ch_Id : string;
  ch_Model : string;
  Choices : list Choice;
  ch_Usage : option Usage
}.

Definition GetContentString (d : Delta) : string := default "" (Content d).

Definition GetReasoningContent (d : Delta) : string :=
  match ReasoningContent d, Reasoning d with
  | None, None => ""
  | Some s, _ => s
  | None, Some s => s
  end.

Definition tool_calls (d : Delta) : list ToolCallResponse := default [] (ToolCalls d).

Definition IsToolCall (r : Chunk) : bool :=
  match Choices r with
  | [] => false
  | c :: _ => match tool_calls (c_Delta c) with [] => false | _ => true end
  end.

(** The finish reason of a choice, when it has one. *)
Definition finish_of (c : Choice) : option string :=
  match c_FinishReason c with
  | Some s => if String.eqb s "" then None else Some s
  | None => None
  end.

(** ** The Claude format *)

Record ClaudeUsage := mkClaudeUsage {
  InputTokens : Z;
  OutputTokens : Z;
  CacheCreationInputTokens : Z;
  CacheReadInputTokens : Z
}.

Inductive block :=
  | thinking
  | text
  | tool_use (id name : string).

Inductive piece :=
  | thinking_delta (s : string)
  | text_delta (s : string)
  | input_json_delta (s : string).

(** The index of an event: a number, or the live index of the conversion. *)
Inductive index :=
  | Fixed (n : Z)
  | Live.

Inductive claude_event (I : Type) :=
  | message_start (id model : string) (input_tokens : Z)
  | content_block_start (i : I) (b : block)
  | content_block_delta (i : I) (d : piece)
  | content_block_stop (i : I)
  | message_delta (usage : ClaudeUsage) (stop_reason : string)
  | message_stop.

Arguments message_start {I}.
Arguments content_block_start {I}.
Arguments content_block_delta {I}.
Arguments content_block_stop {I}.
Arguments message_delta {I}.
Arguments message_stop {I}.

Definition LastMessageTypeNone : string := "none".
Definition LastMessageTypeText : string := "text".
Definition LastMessageTypeTools : string := "tools".
Definition LastMessageTypeThinking : string := "thinking".

Record ClaudeConvertInfo := mkConvert {
  LastMessagesType : string;
  Index : Z;
  info_Usage : option Usage;
  FinishReason : string;
  Done : bool;
  SendResponseCount : Z
}.

(** The conversion of a new request. *)
Definition GenRelayInfoClaude : ClaudeConvertInfo := mkConvert LastMessageTypeNone 0 None "" false 0.

Definition set_last (k : string) (i : ClaudeConvertInfo) : ClaudeConvertInfo :=
  mkConvert k (Index i) (info_Usage i) (FinishReason i) (Done i) (SendResponseCount i).
Definition set_index (n : Z) (i : ClaudeConvertInfo) : ClaudeConvertInfo :=
  mkConvert (LastMessagesType i) n (info_Usage i) (FinishReason i) (Done i) (SendResponseCount i).
Definition set_usage (u : option Usage) (i : ClaudeConvertInfo) : ClaudeConvertInfo :=
  mkConvert (LastMessagesType i) (Index i) u (FinishReason i) (Done i) (SendResponseCount i).
Definition set_finish (s : string) (i : ClaudeConvertInfo) : ClaudeConvertInfo :=
  mkConvert (LastMessagesType i) (Index i) (info_Usage i) s (Done i) (SendResponseCount i).
Definition set_done (i : ClaudeConvertInfo) : ClaudeConvertInfo :=
  mkConvert (LastMessagesType i) (Index i) (info_Usage i) (FinishReason i) true (SendResponseCount i).
Definition count_response (i : ClaudeConvertInfo) : ClaudeConvertInfo :=
  mkConvert (LastMessagesType i) (Index i) (info_Usage i) (FinishReason i) (Done i) (i64_add (SendResponseCount i) 1).

Definition stopReasonOpenAI2Claude (reason : string) : string :=
  if String.eqb reason "stop" then "end_turn"
  else if String.eqb reason "stop_sequence" then "stop_sequence"
  else if String.eqb reason "length" || String.eqb reason "max_tokens" then "max_tokens"
  else if String.eqb reason "tool_calls" then "tool_use"
  else reason.

Definition claudeTerminalUsage (u : Usage) : ClaudeUsage :=
  mkClaudeUsage (AnthropicInputTokens u) (CompletionTokens u) (CachedCreationTokens u) (CachedTokens u).

(** The end of the message, once a usage is known. *)
Definition claudeTerminalEvents (r : Chunk) (info : ClaudeConvertInfo) : list (claude_event index) * ClaudeConvertInfo :=
  match (match ch_Usage r with Some u => Some u | None => info_Usage info end) with
  | None => ([], info)
  | Some u =>
      ([message_delta (claudeTerminalUsage u) (stopReasonOpenAI2Claude (FinishReason info)); message_stop], set_done info)
  end.

Definition generateStopBlock (n : Z) : claude_event index := content_block_stop (Fixed n).

Definition no_chunk : Chunk := mkChunk "" "" [] None.
Definition no_usage : Usage := mkUsage 0 0 0 false 0 0 0 0 0 0 None 0 0 None.

Definition CloseClaudeStream (info : ClaudeConvertInfo) : list (claude_event index) * ClaudeConvertInfo :=
  if Done info then ([], info)
  else
    let '(out, info) :=
      if String.eqb (FinishReason info) "" then
        ((if String.eqb (LastMessagesType info) "" then [] else [generateStopBlock (Index info)]), set_finish "stop" info)
      else ([], info) in
    let info := match info_Usage info with Some _ => info | None => set_usage (Some no_usage) info end in
    let '(tail, info) := claudeTerminalEvents no_chunk info in
    (out ++ tail, info).

(** The first chunk opens the message, and carries what a later one would. *)
Definition first_chunk (estimate : Z) (r : Chunk) (info : ClaudeConvertInfo) : list (claude_event index) * ClaudeConvertInfo :=
  let out := [message_start (ch_Id r) (ch_Model r) estimate] in
  let '(out, info) :=
    match Choices r with
    | c :: _ =>
        match tool_calls (c_Delta c) with
        | t :: _ =>
            (out ++ [content_block_start (Fixed 0) (tool_use (tc_ID t) (tc_Name t))] ++
               (if String.eqb (tc_Arguments t) "" then [] else [content_block_delta Live (input_json_delta (tc_Arguments t))]),
             set_last LastMessageTypeTools info)
        | [] => (out, info)
        end
    | [] => (out, info)
    end in
  match Choices r with
  | [] => (out, info)
  | c :: _ =>
      let reasoning := GetReasoningContent (c_Delta c) in
      let content := GetContentString (c_Delta c) in
      let '(out, info) :=
        if negb (String.eqb reasoning "") then
          (out ++ [content_block_start Live thinking; content_block_delta Live (thinking_delta reasoning)],
           set_last LastMessageTypeThinking info)
        else if negb (String.eqb content "") then
          (out ++ [content_block_start Live text; content_block_delta Live (text_delta content)],
           set_last LastMessageTypeText info)
        else (out, info) in
      match finish_of c with
      | Some f =>
          let info := set_finish f info in
          let '(tail, info') := claudeTerminalEvents r info in
          (out ++ [generateStopBlock (Index info)] ++ tail, info')
      | None => (out, info)
      end
  end.

(** The tool calls of a later chunk. *)
Fixpoint tool_events (many : bool) (i : Z) (ts : list ToolCallResponse) (info : ClaudeConvertInfo) : list (claude_event index) * ClaudeConvertInfo :=
  match ts with
  | [] => ([], info)
  | t :: ts' =>
      let blockIndex := match tc_Index t with
                        | Some n => n
                        | None => if many then i64_add (Index info) i else Index info
                        end in
      let here :=
        (if String.eqb (tc_Name t) "" then [] else [content_block_start (Fixed blockIndex) (tool_use (tc_ID t) (tc_Name t))]) ++
        (if String.eqb (tc_Arguments t) "" then [] else [content_block_delta (Fixed blockIndex) (input_json_delta (tc_Arguments t))]) in
      let '(rest, info) := tool_events many (i + 1) ts' (set_index blockIndex info) in
      (here ++ rest, info)
  end.

(** The content of a later chunk. *)
Definition chunk_content (d : Delta) (info : ClaudeConvertInfo) : list (claude_event index) * ClaudeConvertInfo :=
  match tool_calls d with
  | (_ :: _) as ts =>
      let '(out, info) :=
        if negb (String.eqb (LastMessagesType info) LastMessageTypeTools)
        then ([generateStopBlock (Index info)], set_index (i64_add (Index info) 1) info)
        else ([], info) in
      let '(es, info) := tool_events (1 <? length ts)%nat 0 ts (set_last LastMessageTypeTools info) in
      (out ++ es, info)
  | [] =>
      let reasoning := GetReasoningContent d in
      let textContent := GetContentString d in
      if negb (String.eqb reasoning "") then
        ((if String.eqb (LastMessagesType info) LastMessageTypeThinking then [] else [content_block_start Live thinking]) ++
           [content_block_delta Live (thinking_delta reasoning)],
         set_last LastMessageTypeThinking info)
      else if negb (String.eqb textContent "") then
        let '(out, info) :=
          if String.eqb (LastMessagesType info) LastMessageTypeText then ([], info)
          else
            let '(out, info) :=
              if String.eqb (LastMessagesType info) LastMessageTypeThinking || String.eqb (LastMessagesType info) LastMessageTypeTools
              then ([generateStopBlock (Index info)], set_index (i64_add (Index info) 1) info)
              else ([], info) in
            (out ++ [content_block_start Live text], info) in
        (out ++ [content_block_delta Live (text_delta textContent)], set_last LastMessageTypeText info)
      else ([], info)
  end.

Definition StreamResponseOpenAI2Claude (estimate : Z) (r : Chunk) (info : ClaudeConvertInfo) : list (claude_event index) * ClaudeConvertInfo :=
  if Done info then ([], info)
  else if SendResponseCount info =? 1 then first_chunk estimate r info
  else
    match Choices r with
    | [] => ([], info)
    | c :: _ =>
        let info := match finish_of c with Some f => set_finish f info | None => info end in
        let '(out, info) := chunk_content (c_Delta c) info in
        match finish_of c with
        | Some _ =>
            let '(tail, info') := claudeTerminalEvents r info in
            (out ++ [generateStopBlock (Index info)] ++ tail, info')
        | None => (out, info)
        end
    end.

(** [ClaudeData]: an event as it is written. *)
Definition sent (info : ClaudeConvertInfo) (e : claude_event index) : claude_event Z :=
  let n (i : index) := match i with Fixed n => n | Live => Index info end in
  match e with
  | message_start id model t => message_start id model t
  | content_block_start i b => content_block_start (n i) b
  | content_block_delta i d => content_block_delta (n i) d
  | content_block_stop i => content_block_stop (n i)
  | message_delta u s => message_delta u s
  | message_stop => message_stop
  end.

(** ** The usage a vendor reports *)

Definition ChannelTypeMoonshot : Z := 25.
Definition ChannelTypeZhipu_v4 : Z := 26.
Definition ChannelTypeDeepSeek : Z := 43.

(** A chunk with what its vendors put beside the usage: the cached tokens found by
    [extractCachedTokensFromBody] and by [extractMoonshotCachedTokensFromBody]. *)
Record body := mkBody { body_chunk : Chunk; body_cached : option Z; body_moonshot : option Z }.

Definition set_cached (n : Z) (u : Usage) : Usage :=
  mkUsage (PromptTokens u) (CompletionTokens u) (TotalTokens u) (PromptTokensIncludeCached u) n (CachedCreationTokens u) (ImageTokens u)
    (AudioTokens u) (ClaudeCacheCreation5mTokens u) (ClaudeCacheCreation1hTokens u) (Cost u) (ReasoningTokens u) (PromptCacheHitTokens u)
    (InputCachedTokens u).
Definition set_includes_cached (u : Usage) : Usage :=
  mkUsage (PromptTokens u) (CompletionTokens u) (TotalTokens u) true (CachedTokens u) (CachedCreationTokens u) (ImageTokens u)
    (AudioTokens u) (ClaudeCacheCreation5mTokens u) (ClaudeCacheCreation1hTokens u) (Cost u) (ReasoningTokens u) (PromptCacheHitTokens u)
    (InputCachedTokens u).

Definition applyUsagePostProcessing (channelType : Z) (cached moonshot : option Z) (u : Usage) : Usage :=
  let u := set_includes_cached u in
  let from_hits u := if PromptCacheHitTokens u >? 0 then set_cached (PromptCacheHitTokens u) u else u in
  let from_body u := match cached with Some n => set_cached n u | None => from_hits u end in
  let from_details other u :=
    if CachedTokens u =? 0 then
      match InputCachedTokens u with
      | Some n => if n >? 0 then set_cached n u else other u
      | None => other u
      end
    else u in
  if channelType =? ChannelTypeDeepSeek then
    if (CachedTokens u =? 0) && negb (PromptCacheHitTokens u =? 0) then set_cached (PromptCacheHitTokens u) u else u
  else if channelType =? ChannelTypeZhipu_v4 then from_details from_body u
  else if channelType =? ChannelTypeMoonshot then
    from_details (fun u => match moonshot with Some n => set_cached n u | None => from_body u end) u
  else u.

Definition ValidUsage (u : option Usage) : bool :=
  match u with Some u => negb (PromptTokens u =? 0) || negb (CompletionTokens u =? 0) | None => false end.

Definition with_usage (u : option Usage) (r : Chunk) : Chunk := mkChunk (ch_Id r) (ch_Model r) (Choices r) u.

(** The chunk of a body, its usage as the vendor means it. *)
Definition processed (channelType : Z) (b : body) : Chunk :=
  with_usage (applyUsagePostProcessing channelType (body_cached b) (body_moonshot b) <$> ch_Usage (body_chunk b)) (body_chunk b).

(** ** A Claude stream *)

Section Claude.
Context (channelType estimate : Z).

(** One chunk: what is written, and the conversion afterwards. *)
Definition handleClaudeFormat (data : option body) (info : ClaudeConvertInfo) : list (claude_event Z) * ClaudeConvertInfo :=
  match data with
  | None => ([], info)
  | Some b =>
      let r := processed channelType b in
      let info := match ch_Usage r with Some u => set_usage (Some u) info | None => info end in
      let '(out, info) := StreamResponseOpenAI2Claude estimate r info in
      (map (sent info) out, info)
  end.

Definition HandleStreamFormat_claude (data : option body) (info : ClaudeConvertInfo) : list (claude_event Z) * ClaudeConvertInfo :=
  handleClaudeFormat data (count_response info).

Definition claudeLastChunkEvents (data : option body) (usage : Usage) (info : ClaudeConvertInfo)
    : option (list (claude_event index)) * ClaudeConvertInfo :=
  match data with
  | None => (None, info)
  | Some b =>
      let info := set_usage (Some usage) (count_response info) in
      let '(out, info) := StreamResponseOpenAI2Claude estimate (processed channelType b) info in
      (Some out, info)
  end.

Definition HandleFinalResponse_claude (data : option body) (usage : Usage) (info : ClaudeConvertInfo)
    : list (claude_event Z) * ClaudeConvertInfo :=
  match claudeLastChunkEvents data usage info with
  | (None, info) => ([], info)
  | (Some out, info) =>
      let '(tail, info) := CloseClaudeStream info in
      (map (sent info) (out ++ tail), set_done info)
  end.

Definition HandleIncompleteStream_claude (data : option body) (info : ClaudeConvertInfo) : list (claude_event Z) * ClaudeConvertInfo :=
  match claudeLastChunkEvents data no_usage info with
  | (None, info) => ([], set_done info)
  | (Some out, info) => (map (sent info) out, set_done info)
  end.

(** The chunks before the last one, in order. *)
Fixpoint convert_all (items : list (option body)) (info : ClaudeConvertInfo) : list (claude_event Z) * ClaudeConvertInfo :=
  match items with
  | [] => ([], info)
  | d :: items' =>
      let '(out, info) := HandleStreamFormat_claude d info in
      let '(rest, info) := convert_all items' info in
      (out ++ rest, info)
  end.
End Claude.

(** ** The end of a stream *)

Definition choice_sees_finish (c : Choice) : bool :=
  match c_FinishReason c with Some s => negb (String.eqb s "") && negb (String.eqb s "null") | None => false end.

Definition streamSawFinish (items : list (option body)) : bool :=
  existsb (fun d => match d with Some b => existsb choice_sees_finish (Choices (body_chunk b)) | None => false end) items.

(** The text and the number of tool calls a stream is priced on when it reports no usage. *)
Definition chunk_text (r : Chunk) : string :=
  String.concat "" (map (fun c => GetContentString (c_Delta c) +:+ GetReasoningContent (c_Delta c) +:+
    String.concat "" (map (fun t => tc_Name t +:+ tc_Arguments t) (tool_calls (c_Delta c)))) (Choices r)).

Definition count_tools (n : nat) (r : Chunk) : nat := foldl (fun n c => Nat.max n (length (tool_calls (c_Delta c)))) n (Choices r).

(** Chunks are read until one does not parse. *)
Fixpoint processChatCompletions (items : list (option body)) (txt : string) (toolCount : nat) : string * nat :=
  match items with
  | [] => (txt, toolCount)
  | None :: _ => (txt, toolCount)
  | Some b :: items' => processChatCompletions items' (txt +:+ chunk_text (body_chunk b)) (count_tools toolCount (body_chunk b))
  end.

(** Whether [Path2RelayMode] makes a path a chat completion. *)
Definition is_chat_completions (path : string) : bool :=
  HasPrefix path "/v1/chat/completions" || HasPrefix path "/pg/chat/completions".

(** The text is only collected for the paths of chat completions. *)
Definition processTokens (path : string) (items : list (option body)) : string * nat :=
  if is_chat_completions path then processChatCompletions items "" 0 else ("", O).

(** [EstimateTokenByModel] is given. *)
Definition ResponseText2Usage (estimateTokens : string -> Z) (responseText : string) (promptTokens : Z) : Usage :=
  let n := estimateTokens responseText in
  mkUsage promptTokens n (i64_add promptTokens n) false 0 0 0 0 0 0 None 0 0 None.

Definition add_completion (n : Z) (u : Usage) : Usage :=
  mkUsage (PromptTokens u) (i64_add (CompletionTokens u) n) (TotalTokens u) (PromptTokensIncludeCached u) (CachedTokens u)
    (CachedCreationTokens u) (ImageTokens u) (AudioTokens u) (ClaudeCacheCreation5mTokens u) (ClaudeCacheCreation1hTokens u) (Cost u)
    (ReasoningTokens u) (PromptCacheHitTokens u) (InputCachedTokens u).

(** What a finished stream is settled on: the usage of the last chunk (of the one before, on
    an audio model), or an estimate; nothing when the upstream did not finish it. *)
Definition stream_usage (channelType : Z) (path : string) (isAudio : bool) (estimateTokens : string -> Z) (promptTokens : Z) (sawDone : bool)
    (items : list (option body)) : Usage :=
  let last := match List.rev items with Some b :: _ => Some b | _ => None end in
  let second := match List.rev items with _ :: Some b :: _ => if isAudio then ch_Usage (body_chunk b) else None | _ => None end in
  let reported := match last with
                  | Some b => if ValidUsage (ch_Usage (body_chunk b)) then ch_Usage (body_chunk b)
                              else if ValidUsage second then second else None
                  | None => if ValidUsage second then second else None
                  end in
  let u := match reported with
           | Some u => u
           | None =>
               let '(txt, toolCount) := processTokens path items in
               add_completion (i64_mul (Z.of_nat toolCount) 7) (ResponseText2Usage estimateTokens txt promptTokens)
           end in
  let u := if sawDone then u else no_usage in
  applyUsagePostProcessing channelType
    (match last with Some b => body_cached b | None => None end) (match last with Some b => body_moonshot b | None => None end) u.

Inductive stream_end :=
  | Settled (u : Usage)                (* the stream is over for the caller *)
  | Failover                           (* nothing was written: the relay loop goes on *)
  | Incomplete (u : Usage).            (* an error frame follows what was written *)

(** [OaiStreamHandler] for a caller on the Claude wire: what is written and how it ends.
    [pinged]: a keep-alive was written; [listening]: the caller is still there. *)
Definition OaiStreamHandler_claude (channelType : Z) (path : string) (isAudio : bool) (estimateTokens : string -> Z) (promptTokens : Z)
    (sawDone pinged listening : bool) (items : list (option body)) (info : ClaudeConvertInfo) : list (claude_event Z) * stream_end :=
  match List.rev items with
  | [] =>
      if negb sawDone && listening && negb pinged then ([], Failover)
      else
        let u := stream_usage channelType path isAudio estimateTokens promptTokens sawDone items in
        if negb sawDone && listening then ([], Incomplete u) else ([], Settled u)
  | lastStreamData :: before =>
      let '(out, info) := convert_all channelType promptTokens (List.rev before) info in
      let written := pinged || match out with [] => false | _ => true end in
      if negb sawDone && negb (streamSawFinish items) && listening && negb written then (out, Failover)
      else
        let u := stream_usage channelType path isAudio estimateTokens promptTokens sawDone items in
        if negb sawDone && negb (streamSawFinish items) && listening then
          (out ++ fst (HandleIncompleteStream_claude channelType promptTokens lastStreamData info), Incomplete u)
        else (out ++ fst (HandleFinalResponse_claude channelType promptTokens lastStreamData u info), Settled u)
  end.

(** The stream of an in-process Bifrost upstream, chunk by chunk, without a close. *)
Fixpoint tryBifrostClaude_stream (estimate : Z) (chunks : list Chunk) (info : ClaudeConvertInfo) : list (claude_event Z) :=
  match chunks with
  | [] => []
  | r :: chunks' =>
      let '(out, info) := StreamResponseOpenAI2Claude estimate r info in
      map (sent info) out ++ tryBifrostClaude_stream estimate chunks' info
  end.

(** ** A Gemini stream *)

Record GeminiUsageMetadata := mkGeminiUsage {
  PromptTokenCount : Z;
  CandidatesTokenCount : Z;
  ThoughtsTokenCount : Z;
  TotalTokenCount : Z;
  CachedContentTokenCount : Z
}.

Definition geminiUsageMetadata (u : Usage) : GeminiUsageMetadata :=
  let total := if TotalTokens u =? 0 then i64_add (PromptTokens u) (CompletionTokens u) else TotalTokens u in
  mkGeminiUsage (PromptTokens u) (i64_sub (CompletionTokens u) (ReasoningTokens u)) (ReasoningTokens u) total (CachedTokens u).

Definition geminiFinishReason (reason : string) : string :=
  if String.eqb reason "length" then "MAX_TOKENS"
  else if String.eqb reason "content_filter" then "SAFETY"
  else "STOP".

(** The arguments of a call: an object, the text that is not one, or none. *)
Inductive arguments :=
  | parsed_object (json : string)
  | raw_arguments (s : string)
  | no_arguments.

Inductive part :=
  | text_part (s : string)
  | function_call (name : string) (args : arguments).

Record candidate := mkCandidate {
  g_Index : Z;
  g_FinishReason : option string;
  Parts : list part
}.

Record GeminiChatResponse := mkGemini {
  Candidates : list candidate;
  UsageMetadata : GeminiUsageMetadata
}.

(** Whether a text is a JSON object is asked of encoding/json. *)
Section Gemini.
Context (is_object : string -> bool) (estimate : Z).

Definition call_part (t : ToolCallResponse) : part :=
  function_call (tc_Name t)
    (if String.eqb (tc_Arguments t) "" then no_arguments
     else if is_object (tc_Arguments t) then parsed_object (tc_Arguments t) else raw_arguments (tc_Arguments t)).

Definition text_parts (s : string) : list part := if String.eqb s "" then [] else [text_part s].

Definition gemini_candidate (c : Choice) : candidate :=
  mkCandidate (c_Index c) (geminiFinishReason <$> c_FinishReason c)
    (match ToolCalls (c_Delta c) with
     | Some ts => map call_part ts
     | None => text_parts (GetContentString (c_Delta c))
     end).

(** The finish reason the conversion remembers, and the frame; [None] is no frame. *)
Definition StreamResponseOpenAI2Gemini (r : Chunk) (streamFinish : string) : option GeminiChatResponse * string :=
  let hasContent := existsb (fun c => negb (String.eqb (GetContentString (c_Delta c)) "") || negb (length (tool_calls (c_Delta c)) =? 0)%nat) (Choices r) in
  let hasFinishReason := existsb (fun c => bool_decide (is_Some (c_FinishReason c))) (Choices r) in
  let streamFinish := foldl (fun f c => default f (c_FinishReason c)) streamFinish (Choices r) in
  match ch_Usage r with
  | None =>
      if negb hasContent && negb hasFinishReason then (None, streamFinish)
      else (Some (mkGemini (map gemini_candidate (Choices r)) (mkGeminiUsage estimate 0 0 estimate 0)), streamFinish)
  | Some u =>
      let terminal :=
        match Choices r with
        | [] => [mkCandidate 0 (if String.eqb streamFinish "" then None else Some (geminiFinishReason streamFinish)) []]
        | _ => []
        end in
      (Some (mkGemini (map gemini_candidate (Choices r) ++ terminal) (geminiUsageMetadata u)), streamFinish)
  end.

(** The finish reason of a chunk that has one and no content. *)
Fixpoint contentless (cs : list Choice) (finish : string) : option string :=
  match cs with
  | [] => if String.eqb finish "" then None else Some finish
  | c :: cs' =>
      if negb (String.eqb (GetContentString (c_Delta c)) "") || negb (length (tool_calls (c_Delta c)) =? 0)%nat then None
      else contentless cs' (default finish (finish_of c))
  end.

Definition contentlessFinish (r : Chunk) : option string := contentless (Choices r) "".

Definition handleGeminiFormat (data : option body) (streamFinish : string) : list GeminiChatResponse * string :=
  match data with
  | None => ([], streamFinish)
  | Some b =>
      let r := body_chunk b in
      match contentlessFinish r, ch_Usage r with
      | Some finish, None => ([], finish)
      | _, _ =>
          let '(frame, streamFinish) := StreamResponseOpenAI2Gemini r streamFinish in
          (match frame with Some f => [f] | None => [] end, streamFinish)
      end
  end.

Definition geminiLastChunkFrame (data : option body) (usage : option Usage) (streamFinish : string) : option GeminiChatResponse :=
  match data with
  | None => None
  | Some b =>
      let r := body_chunk b in
      let r := match usage with
               | Some u => if (PromptTokens u >? 0) || (CompletionTokens u >? 0) || (TotalTokens u >? 0) then with_usage (Some u) r else r
               | None => r
               end in
      fst (StreamResponseOpenAI2Gemini r streamFinish)
  end.

Fixpoint gemini_all (items : list (option body)) (streamFinish : string) : list GeminiChatResponse * string :=
  match items with
  | [] => ([], streamFinish)
  | d :: items' =>
      let '(out, streamFinish) := handleGeminiFormat d streamFinish in
      let '(rest, streamFinish) := gemini_all items' streamFinish in
      (out ++ rest, streamFinish)
  end.

(** The frames of a stream that ended as it should, its last chunk with the usage settled. *)
Definition gemini_stream (items : list (option body)) (usage : Usage) : list GeminiChatResponse :=
  match List.rev items with
  | [] => []
  | lastStreamData :: before =>
      let '(out, streamFinish) := gemini_all (List.rev before) "" in
      out ++ match geminiLastChunkFrame lastStreamData (Some usage) streamFinish with Some f => [f] | None => [] end
  end.
End Gemini.

(** ** An OpenAI stream whose thinking goes into the content *)

Record ThinkingContentInfo := mkThinking {
  IsFirstThinkingContent : bool;
  SendLastThinkingContent : bool;
  HasSentThinkingContent : bool
}.

Definition genThinkingInfo : ThinkingContentInfo := mkThinking true false false.

Definition newline : string := String (Ascii.ascii_of_nat 10) "".

Definition set_content (s : string) (c : Choice) : Choice :=
  mkChoice (mkDelta (Some s) None None (ToolCalls (c_Delta c))) (c_FinishReason c) (c_Index c).

Definition with_choices (cs : list Choice) (r : Chunk) : Chunk := mkChunk (ch_Id r) (ch_Model r) cs (ch_Usage r).

(** One chunk with thinkToContent: the chunks sent.  The closing tag goes out once, on the
    first choice of the first chunk with content after thinking was sent. *)
Definition sendStreamData (r : Chunk) (i : ThinkingContentInfo) : list Chunk * ThinkingContentInfo :=
  let hasThinkingContent := existsb (fun c => negb (String.eqb (GetReasoningContent (c_Delta c)) "")) (Choices r) in
  let hasContent := existsb (fun c => negb (String.eqb (GetContentString (c_Delta c)) "")) (Choices r) in
  let thinkingContent := String.concat "" (map (fun c => GetReasoningContent (c_Delta c)) (Choices r)) in
  if IsFirstThinkingContent i && hasThinkingContent then
    ([with_choices (map (set_content ("<think>" +:+ newline +:+ thinkingContent)) (Choices r)) r],
     mkThinking false (SendLastThinkingContent i) true)
  else
    match Choices r with
    | [] => ([r], i)
    | _ =>
        let closes := hasContent && negb (SendLastThinkingContent i) && HasSentThinkingContent i in
        let one c :=
          if negb (String.eqb (GetReasoningContent (c_Delta c)) "") then set_content (GetReasoningContent (c_Delta c)) c
          else if negb hasThinkingContent && negb hasContent
          then mkChoice (mkDelta (Content (c_Delta c)) None None (ToolCalls (c_Delta c))) (c_FinishReason c) (c_Index c)
          else c in
        ((if closes then [with_choices (map (set_content (newline +:+ "</think>" +:+ newline)) (Choices r)) r] else []) ++
           [with_choices (map one (Choices r)) r],
         if closes then mkThinking (IsFirstThinkingContent i) true (HasSentThinkingContent i) else i)
    end.

Fixpoint send_all (rs : list Chunk) (i : ThinkingContentInfo) : list Chunk :=
  match rs with
  | [] => []
  | r :: rs' => let '(out, i) := sendStreamData r i in out ++ send_all rs' i
  end.

(** ** Answers in one piece *)

Record Message := mkMessage { StringContent : string; ParseToolCalls : list ToolCallResponse }.

Record TextChoice := mkTextChoice { t_Index : Z; t_Message : Message; t_FinishReason : string }.

Record OpenAITextResponse := mkText {
  o_Id : string;
  o_Model : string;
  o_Choices : list TextChoice;
  o_Usage : Usage
}.

Inductive content :=
  | text_content (s : string)
  | tool_content (id name : string) (input : arguments).

Record ClaudeResponse := mkClaude {
  r_Id : string;
  r_Model : string;
  r_Content : list content;
  r_StopReason : string;
  r_Usage : ClaudeUsage
}.

Section Whole.
Context (is_object : string -> bool).

Definition claude_content (c : TextChoice) : list content :=
  if String.eqb (t_FinishReason c) "tool_calls" then
    map (fun t => tool_content (tc_ID t) (tc_Name t)
                    (if is_object (tc_Arguments t) then parsed_object (tc_Arguments t) else raw_arguments (tc_Arguments t)))
      (ParseToolCalls (t_Message c))
  else [text_content (StringContent (t_Message c))].

Definition ResponseOpenAI2Claude (r : OpenAITextResponse) : ClaudeResponse :=
  mkClaude (o_Id r) (o_Model r) (concat (map claude_content (o_Choices r)))
    (foldl (fun _ c => stopReasonOpenAI2Claude (t_FinishReason c)) "" (o_Choices r)) (claudeTerminalUsage (o_Usage r)).

Definition ResponseOpenAI2Gemini (r : OpenAITextResponse) : GeminiChatResponse :=
  mkGemini (map (fun c => mkCandidate (t_Index c) (Some (geminiFinishReason (t_FinishReason c)))
                            (match ParseToolCalls (t_Message c) with
                             | [] => text_parts (StringContent (t_Message c))
                             | ts => map (call_part is_object) ts
                             end)) (o_Choices r))
    (geminiUsageMetadata (o_Usage r)).
End Whole.
End StreamConvert.
