(* ===== verification/StreamConvertSpec.v ===== *)
(** * Answers in the caller's format: theorems

    A client of the Claude wire that is strict about the order of events, and what it reads
    from the streams the gateway writes. *)

From S2P Require Import Prelude GoStrings Decimal Prices Settlement StreamConvert.

Section ClaudeClient.
Import GoStrings Settlement StreamConvert.

(** ** The client *)

(** A block received, with its text. *)
Abbreviation got := (list (block * string)).

Inductive client :=
  | Waiting
  | Between (bs : got)
  | Within (bs : got) (b : block) (acc : string)
  | Ending (bs : got) (stop : string) (u : ClaudeUsage)
  | Over (bs : got) (stop : string) (u : ClaudeUsage).

Definition piece_of (b : block) (d : piece) : option string :=
  match b, d with
  | thinking, thinking_delta s => Some s
  | text, text_delta s => Some s
  | tool_use _ _, input_json_delta s => Some s
  | _, _ => None
  end.

Definition at_index (n : Z) (bs : got) : bool := n =? Z.of_nat (length bs).

(** One event: blocks are numbered from zero, one is open at a time, a delta is of the open
    block, and the message ends when none is open. *)
Definition read (k : client) (e : claude_event Z) : option client :=
  match k, e with
  | Waiting, message_start _ _ _ => Some (Between [])
  | Between bs, content_block_start n b => if at_index n bs then Some (Within bs b "") else None
  | Within bs b acc, content_block_delta n d =>
      if at_index n bs then (fun s => Within bs b (acc +:+ s)) <$> piece_of b d else None
  | Within bs b acc, content_block_stop n => if at_index n bs then Some (Between (bs ++ [(b, acc)])) else None
  | Between bs, message_delta u stop => Some (Ending bs stop u)
  | Ending bs stop u, message_stop => Some (Over bs stop u)
  | _, _ => None
  end.

Fixpoint reads (k : client) (es : list (claude_event Z)) : option client :=
  match es with
  | [] => Some k
  | e :: es' => k' ← read k e; reads k' es'
  end.

Lemma reads_app k es es' : reads k (es ++ es') = (k' ← reads k es; reads k' es').
Proof.
  revert k. induction es as [|e es IH]; intros k; [done|]. cbn. destruct (read k e); [|done]. cbn. apply IH.
Qed.

(** ** Streams of thinking and text *)

Inductive kind :=
  | Nothing
  | Thinks (s : string)
  | Says (s : string).

Definition kind_of (d : Delta) : option kind :=
  match tool_calls d with
  | _ :: _ => None
  | [] =>
      let r := GetReasoningContent d in let t := GetContentString d in
      if String.eqb r "" then Some (if String.eqb t "" then Nothing else Says t)
      else if String.eqb t "" then Some (Thinks r) else None
  end.

(** What was told so far: thinking, then text, then the reason to finish. *)
Record story := mkStory { told_thinking : string; told_text : string; told_finish : option string }.

Definition told (s : story) : bool := negb (String.eqb (told_thinking s) "" && String.eqb (told_text s) "").

Definition advance (s : story) (k : kind) : option story :=
  match told_finish s, k with
  | _, Nothing => Some s
  | None, Thinks x => if String.eqb (told_text s) "" then Some (mkStory (told_thinking s +:+ x) "" None) else None
  | None, Says x => Some (mkStory (told_thinking s) (told_text s +:+ x) None)
  | Some _, _ => None
  end.

Definition tell (s : story) (r : Chunk) : option story :=
  match Choices r with
  | [] => Some s
  | c :: _ =>
      k ← kind_of (c_Delta c);
      s' ← advance s k;
      match finish_of c, told_finish s with
      | None, _ => Some s'
      | Some f, None => if told s' then Some (mkStory (told_thinking s') (told_text s') (Some f)) else None
      | Some _, Some _ => None
      end
  end.

Fixpoint tells (s : story) (bs : list body) : option story :=
  match bs with
  | [] => Some s
  | b :: bs' => s' ← tell s (body_chunk b); tells s' bs'
  end.

Definition untold : story := mkStory "" "" None.

(** The blocks of a story. *)
Definition done_blocks (s : story) : got :=
  (if String.eqb (told_thinking s) "" then [] else [(thinking, told_thinking s)]) ++
  (if String.eqb (told_text s) "" then [] else [(text, told_text s)]).

(** The client after the events of a story, before its end. *)
Definition reading (s : story) : client :=
  match told_finish s with
  | Some _ => Between (done_blocks s)
  | None =>
      if negb (String.eqb (told_text s) "") then
        Within (if String.eqb (told_thinking s) "" then [] else [(thinking, told_thinking s)]) text (told_text s)
      else if negb (String.eqb (told_thinking s) "") then Within [] thinking (told_thinking s)
      else Between []
  end.

(** The state of the conversion that goes with it. *)
Definition live_index (s : story) : Z :=
  if negb (String.eqb (told_text s) "") && negb (String.eqb (told_thinking s) "") then 1 else 0.

Record shape (s : story) (info : ClaudeConvertInfo) : Prop := {
  sh_last : LastMessagesType info =
    if negb (String.eqb (told_text s) "") then LastMessageTypeText
    else if negb (String.eqb (told_thinking s) "") then LastMessageTypeThinking else LastMessageTypeNone;
  sh_index : Index info = live_index s
}.

(** What the content of a chunk leaves alone. *)
Definition same_end (i i' : ClaudeConvertInfo) : Prop :=
  info_Usage i' = info_Usage i /\ FinishReason i' = FinishReason i /\ Done i' = Done i /\ SendResponseCount i' = SendResponseCount i.

Lemma app_empty (a b : string) : String.eqb (a +:+ b) "" = String.eqb a "" && String.eqb b "".
Proof. by destruct a, b. Qed.

Lemma at_length bs : at_index (Z.of_nat (length bs)) bs = true.
Proof. apply Z.eqb_refl. Qed.

Lemma content_read s k s' d info i :
  told_finish s = None -> kind_of d = Some k -> advance s k = Some s' -> shape s info ->
  let '(out, info') := chunk_content d info in
  told_finish s' = None /\ shape s' info' /\ same_end info info' /\
  (Index i = Index info' -> reads (reading s) (map (sent i) out) = Some (reading s')).
Proof.
  unfold kind_of, chunk_content, advance. intros Hf Hk Ha [Hl Hi]. rewrite Hf in Ha.
  destruct (tool_calls d); [|done]. destruct s as [r t f]. cbn in Hf. subst f. unfold reading, live_index in *. cbn in *.
  destruct (String.eqb (GetReasoningContent d) "") eqn:Er, (String.eqb (GetContentString d) "") eqn:Et; cbn [negb] in *;
    try done; injection Hk as <-; cbn in Ha.
  - injection Ha as <-. by repeat split.
  - injection Ha as <-. rewrite Hl. cbn. rewrite !app_empty, Et, andb_false_r. cbn.
    destruct (String.eqb t "") eqn:E1, (String.eqb r "") eqn:E2; cbn in Hl, Hi |- *.
    all: split; [done|split; [by split; unfold live_index; cbn; rewrite ?app_empty, ?Et, ?andb_false_r, ?E1, ?E2, ?Hi|split; [by repeat split|]]].
    all: cbn; intros H; rewrite ?H, ?Hi; try (apply String.eqb_eq in E1; subst); cbn; done.
  - destruct (String.eqb t "") eqn:E1; [|done]. injection Ha as <-. rewrite Hl. cbn. rewrite !app_empty, Er, andb_false_r. cbn.
    destruct (String.eqb r "") eqn:E2; cbn in Hl, Hi |- *.
    all: split; [done|split; [by split; unfold live_index; cbn; rewrite ?app_empty, ?Er, ?andb_false_r, ?E1, ?E2, ?Hi|split; [by repeat split|]]].
    all: cbn; intros H; rewrite ?H, ?Hi; try (apply String.eqb_eq in E2; subst); cbn; done.
Qed.

(** The open block of a story is closed at the live index. *)
Lemma stop_read s n :
  told_finish s = None -> told s = true -> n = live_index s ->
  reads (reading s) [content_block_stop n] = Some (Between (done_blocks s)).
Proof.
  destruct s as [r t f]. unfold told, reading, live_index, done_blocks. cbn. intros -> Ht ->.
  destruct (String.eqb t ""), (String.eqb r ""); done.
Qed.

(** A chunk that is not the first one. *)
Definition later_chunk (r : Chunk) (info : ClaudeConvertInfo) : list (claude_event index) * ClaudeConvertInfo :=
  match Choices r with
  | [] => ([], info)
  | c :: _ =>
      let info := match finish_of c with Some f => set_finish f info | None => info end in
      let '(out, info) := chunk_content (c_Delta c) info in
      match finish_of c with
      | Some _ =>
          let '(tail, info') := claudeTerminalEvents r info in
          (out ++ [generateStopBlock (Index info)] ++ tail, info')
      | None => (out, info)
      end
  end.

Lemma later_eq estimate r info :
  Done info = false -> SendResponseCount info <> 1 -> StreamResponseOpenAI2Claude estimate r info = later_chunk r info.
Proof. intros Hd Hc. unfold StreamResponseOpenAI2Claude. rewrite Hd. by apply Z.eqb_neq in Hc as ->. Qed.

(** The first chunk says what a later one would, after opening the message. *)
Lemma first_eq estimate r s' info :
  Done info = false -> SendResponseCount info = 1 -> LastMessagesType info = LastMessageTypeNone -> tell untold r = Some s' ->
  StreamResponseOpenAI2Claude estimate r info =
  (let '(out, info') := later_chunk r info in (message_start (ch_Id r) (ch_Model r) estimate :: out, info')).
Proof.
  intros Hd Hc Hl Ht. unfold StreamResponseOpenAI2Claude. rewrite Hd, Hc. cbn [Z.eqb Pos.eqb].
  unfold first_chunk, later_chunk, tell in *. destruct (Choices r) as [|c cs]; [done|]. apply bind_Some in Ht as (k & Hk & Ht).
  unfold kind_of, chunk_content in *. destruct (tool_calls (c_Delta c)); [|done].
  set (rs := GetReasoningContent (c_Delta c)) in *. set (tx := GetContentString (c_Delta c)) in *.
  assert (LastMessagesType (match finish_of c with Some f => set_finish f info | None => info end) = LastMessageTypeNone) as Hl'
    by (by destruct (finish_of c)).
  rewrite Hl'. cbn.
  destruct (finish_of c) as [f|], (String.eqb rs ""), (String.eqb tx ""); cbn; try done;
    unfold claudeTerminalEvents; cbn; by destruct (ch_Usage r), (info_Usage info).
Qed.

(** The conversion follows the story. *)
Record converting (s : story) (info : ClaudeConvertInfo) : Prop := {
  cv_shape : shape s info;
  cv_finish : FinishReason info = default "" (told_finish s);
  cv_reason : told_finish s <> Some "";
  cv_told : told_finish s = None \/ told s = true;
  cv_open : Done info = false
}.

Lemma finish_nonempty c f : finish_of c = Some f -> f <> "".
Proof.
  unfold finish_of. destruct (c_FinishReason c) as [x|]; [|done]. destruct (String.eqb_spec x ""); [done|]. by intros [= <-].
Qed.

Lemma later_read s r s' info i :
  tell s r = Some s' -> converting s info -> info_Usage info = None -> ch_Usage r = None ->
  let '(out, info') := later_chunk r info in
  converting s' info' /\ info_Usage info' = None /\ SendResponseCount info' = SendResponseCount info /\
  (Index i = Index info' -> reads (reading s) (map (sent i) out) = Some (reading s')).
Proof.
  unfold tell, later_chunk. intros Ht Hv Hu Hr. destruct (Choices r) as [|c cs]; [by injection Ht as <-|].
  destruct Hv as [Hs Hf Hn Htold Hd]. apply bind_Some in Ht as (k & Hk & Ht). apply bind_Some in Ht as (s1 & Ha & Ht).
  destruct (told_finish s) as [f0|] eqn:E0.
  { destruct (finish_of c) as [f|]; [done|]. injection Ht as <-. unfold advance in Ha. rewrite E0 in Ha. destruct k; [|done|done].
    injection Ha as <-. unfold kind_of, chunk_content in *. destruct (tool_calls _); [|done].
    destruct (String.eqb (GetReasoningContent _) ""), (String.eqb (GetContentString _) ""); try done. cbn.
    split; [by split; rewrite ?E0|done]. }
  set (info0 := match finish_of c with Some f => set_finish f info | None => info end).
  assert (shape s info0) as Hs0 by (unfold info0; destruct (finish_of c); [destruct Hs; by split|done]).
  pose proof (content_read s k s1 (c_Delta c) info0 i E0 Hk Ha Hs0) as Hc.
  destruct (chunk_content (c_Delta c) info0) as [out info1]. destruct Hc as (Hf1 & Hs1 & (U1 & U2 & U3 & U4) & Hr1).
  destruct (finish_of c) as [f|] eqn:Ef.
  - destruct (told s1) eqn:Et; [|done]. injection Ht as <-. unfold claudeTerminalEvents. rewrite Hr, U1. cbn. rewrite Hu.
    split; [|split; [by rewrite U1|split; [by rewrite U4|]]].
    + destruct Hs1 as [A B]. split; [by split|by cbn; rewrite U2|intros [=]; by apply (finish_nonempty c f)|right; exact Et|by cbn; rewrite U3; unfold info0; rewrite ?Ef].
    + intros Hi. rewrite map_app, reads_app, (Hr1 Hi). cbn [mbind option_bind map sent generateStopBlock].
      rewrite (stop_read s1); [done|done|done|]. apply Hs1.
  - injection Ht as <-. split; [|split; [by rewrite U1|split; [by rewrite U4|done]]].
    + split; [done|by rewrite U2, Hf1|by rewrite Hf1|by left|by rewrite U3].
Qed.

(** What the client has at the end. *)
Definition ended (s : story) (u : Usage) : client :=
  Over (done_blocks s) (stopReasonOpenAI2Claude (default "stop" (told_finish s))) (claudeTerminalUsage u).

Lemma reading_finished s f : told_finish s = Some f -> reading s = Between (done_blocks s).
Proof. unfold reading. by intros ->. Qed.

Lemma close_read s info u :
  converting s info -> told s = true -> info_Usage info = Some u ->
  let '(tail, info') := CloseClaudeStream info in
  Index info' = Index info /\ forall i, reads (reading s) (map (sent i) tail) = Some (ended s u).
Proof.
  intros [[Hl Hx] Hf Hn Ht Hd] Htold Hu. unfold CloseClaudeStream. rewrite Hd, Hf.
  destruct (told_finish s) as [f|] eqn:Ef; cbn [from_option id] in *.
  - destruct (String.eqb_spec f ""); [by destruct Hn; f_equal|]. unfold claudeTerminalEvents. cbn. rewrite !Hu. cbn. rewrite ?Hu. split; [done|].
    intros i. rewrite (reading_finished s f Ef). unfold ended. rewrite Ef, Hf. reflexivity.
  - cbn. assert (String.eqb (LastMessagesType info) "" = false) as -> by (rewrite Hl; by repeat case_match).
    unfold claudeTerminalEvents. cbn. rewrite !Hu. cbn. rewrite ?Hu. split; [done|]. intros i.
    cbn [map app sent generateStopBlock]. change (?a :: ?b) with ([a] ++ b). rewrite reads_app, (stop_read s) by done.
    unfold ended. rewrite Ef. reflexivity.
Qed.

Lemma last_read s r s' info u :
  tell s r = Some s' -> converting s info -> info_Usage info = Some u -> ch_Usage r = None \/ ch_Usage r = Some u -> told s' = true ->
  let '(out, info1) := later_chunk r info in
  let '(tail, info2) := CloseClaudeStream info1 in
  reads (reading s) (map (sent info2) (out ++ tail)) = Some (ended s' u).
Proof.
  intros Ht Hv Hu Hr Htold.
  assert (forall info1 out, converting s' info1 -> info_Usage info1 = Some u ->
    (forall i, Index i = Index info1 -> reads (reading s) (map (sent i) out) = Some (reading s')) ->
    let '(tail, info2) := CloseClaudeStream info1 in reads (reading s) (map (sent info2) (out ++ tail)) = Some (ended s' u)) as Hclose.
  { intros info1 out H1 H2 H3. pose proof (close_read s' info1 u H1 Htold H2) as Hc. destruct (CloseClaudeStream info1) as [tail info2].
    destruct Hc as [Hi Hc]. rewrite map_app, reads_app, (H3 info2 Hi). apply Hc. }
  unfold tell, later_chunk in *. destruct (Choices r) as [|c cs]; [injection Ht as <-; by apply (Hclose info [])|].
  destruct Hv as [Hs Hf Hn Hor Hd]. apply bind_Some in Ht as (k & Hk & Ht). apply bind_Some in Ht as (s1 & Ha & Ht).
  destruct (told_finish s) as [f0|] eqn:E0.
  { destruct (finish_of c) as [f|]; [done|]. injection Ht as <-. unfold advance in Ha. rewrite E0 in Ha. destruct k; [|done|done].
    injection Ha as <-. unfold kind_of, chunk_content in *. destruct (tool_calls _); [|done].
    destruct (String.eqb (GetReasoningContent _) ""), (String.eqb (GetContentString _) ""); try done. cbn.
    apply (Hclose info []); [by split; rewrite ?E0|done|done]. }
  set (info0 := match finish_of c with Some f => set_finish f info | None => info end).
  assert (shape s info0) as Hs0 by (unfold info0; destruct (finish_of c); [destruct Hs; by split|done]).
  destruct (chunk_content (c_Delta c) info0) as [out info1] eqn:Ec.
  assert (forall i, _) as Hc by (intros i; pose proof (content_read s k s1 (c_Delta c) info0 i E0 Hk Ha Hs0) as Hc; rewrite Ec in Hc; exact Hc).
  destruct (Hc info1) as (Hf1 & Hs1 & (U1 & U2 & U3 & U4) & _).
  destruct (finish_of c) as [f|] eqn:Ef.
  - destruct (told s1) eqn:Et; [|done]. injection Ht as <-. unfold claudeTerminalEvents. rewrite U1. cbn. rewrite Hu.
    replace (match ch_Usage r with Some u0 => Some u0 | None => Some u end) with (Some u) by (by destruct Hr as [->| ->]).
    unfold CloseClaudeStream. cbn. rewrite app_nil_r, map_app, reads_app.
    destruct (Hc (set_done info1)) as (_ & _ & _ & Hr1). rewrite (Hr1 eq_refl). cbn [mbind option_bind map sent generateStopBlock].
    change (?a :: ?b) with ([a] ++ b). rewrite reads_app, (stop_read s1) by (done || apply Hs1).
    unfold ended. cbn. by rewrite U2.
  - injection Ht as <-. apply Hclose; [|by rewrite U1|intros i Hi; destruct (Hc i) as (_ & _ & _ & Hr1); by apply Hr1].
    split; [done|by rewrite U2, Hf1|by rewrite Hf1|by left|by rewrite U3].
Qed.

(** ** A whole stream *)

(** The client [k] before the chunk numbered [n] of a story. *)
Definition before (n : Z) (s : story) (k : client) : Prop := (n = 1 /\ s = untold /\ k = Waiting) \/ (1 < n /\ k = reading s).

Lemma respond estimate r s s' k info :
  before (SendResponseCount info) s k -> tell s r = Some s' -> shape s info -> Done info = false ->
  exists pre, StreamResponseOpenAI2Claude estimate r info = (pre ++ fst (later_chunk r info), snd (later_chunk r info)) /\
    forall i, reads k (map (sent i) pre) = Some (reading s).
Proof.
  intros [(Hn & -> & ->)|(Hn & ->)] Ht [Hl _] Hd.
  - exists [message_start (ch_Id r) (ch_Model r) estimate]. split; [|done].
    rewrite (first_eq estimate r s') by done. by destruct (later_chunk r info).
  - exists []. split; [|done]. rewrite later_eq by (done || lia). by destruct (later_chunk r info).
Qed.

Lemma tell_processed ct s b : tell s (processed ct b) = tell s (body_chunk b).
Proof. done. Qed.

(** The chunks before the last one, none of which reports a usage. *)
Lemma convert_all_read ct estimate bs : forall s s' k info,
  tells s bs = Some s' -> Forall (fun b => ch_Usage (body_chunk b) = None) bs ->
  converting s info -> info_Usage info = None -> 0 <= SendResponseCount info -> SendResponseCount info + Z.of_nat (length bs) < 2 ^ 63 - 1 ->
  before (SendResponseCount info + 1) s k ->
  let '(out, info') := convert_all ct estimate (map Some bs) info in
  converting s' info' /\ info_Usage info' = None /\ SendResponseCount info' = SendResponseCount info + Z.of_nat (length bs) /\
  exists k', before (SendResponseCount info' + 1) s' k' /\ reads k out = Some k'.
Proof.
  induction bs as [|b bs IH]; intros s s' k info Ht Hu Hv Hi Hc Hlen Hb; cbn [map convert_all length].
  { injection Ht as <-. split; [done|]. split; [done|]. split; [lia|]. by exists k. }
  apply bind_Some in Ht as (s1 & Ht & Hts). apply Forall_cons in Hu as [Hu Hus]. cbn [length] in Hlen.
  assert (ch_Usage (processed ct b) = None) as Hpu by (cbn; by rewrite Hu).
  unfold HandleStreamFormat_claude, handleClaudeFormat. rewrite Hpu.
  assert (SendResponseCount (count_response info) = SendResponseCount info + 1) as Hcount.
  { cbn. unfold i64_add. apply wrap64_id. unfold64. lia. }
  assert (converting s (count_response info)) as Hv' by (destruct Hv as [[? ?] ? ? ? ?]; split; by try split).
  destruct (respond estimate (processed ct b) s s1 k (count_response info)) as (pre & -> & Hpre);
    [by rewrite Hcount|done|apply Hv'|apply Hv'|].
  destruct (later_chunk (processed ct b) (count_response info)) as [out1 info1] eqn:El. cbn [fst snd].
  pose proof (later_read s (processed ct b) s1 (count_response info) info1 Ht Hv') as Hr. rewrite El in Hr.
  destruct Hr as (Hv1 & Hi1 & Hc1 & Hr1); [done|done|]. rewrite Hcount in Hc1.
  assert (before (SendResponseCount info1 + 1) s1 (reading s1)) as Hb1 by (right; split; [lia|done]).
  specialize (IH s1 s' (reading s1) info1 Hts Hus Hv1 Hi1 ltac:(lia) ltac:(lia) Hb1).
  destruct (convert_all ct estimate (map Some bs) info1) as [rest info2]. destruct IH as (A & B & C & k' & D & E).
  split; [done|]. split; [done|]. split; [lia|]. exists k'. split; [done|].
  rewrite map_app, !reads_app, Hpre. cbn [mbind option_bind]. by rewrite (Hr1 eq_refl).
Qed.

Lemma genConvert_converting : converting untold GenRelayInfoClaude.
Proof. split; [by split|done|done|by left|done]. Qed.

(** Where the last chunk reports a usage, it is what is settled. *)
Lemma settled_usage ct path audio est pt b bs :
  ValidUsage (ch_Usage (body_chunk b)) = true ->
  ch_Usage (processed ct b) = Some (stream_usage ct path audio est pt true (map Some (bs ++ [b]))).
Proof.
  intros Hu. unfold stream_usage. rewrite map_app, rev_app_distr. cbn [map List.rev app]. rewrite Hu.
  cbn. by destruct (ch_Usage (body_chunk b)).
Qed.

(** C25. A caller on the Claude wire reads what an OpenAI-wire upstream said: for a stream of
    thinking, then text, with or without a finish reason, whose usage comes in its last
    chunk or not at all, a client that insists on the order and the numbering of the events
    accepts what is written and has the whole thinking, the whole text, the stop reason and
    the usage the request is settled on. *)
Theorem claude_stream_faithful ct path audio est pt pinged listening bs b s :
  tells untold (bs ++ [b]) = Some s -> told s = true ->
  Forall (fun b => ch_Usage (body_chunk b) = None) bs ->
  ch_Usage (body_chunk b) = None \/ ValidUsage (ch_Usage (body_chunk b)) = true ->
  Z.of_nat (length bs) < 2 ^ 62 ->
  let items := map Some (bs ++ [b]) in
  let u := stream_usage ct path audio est pt true items in
  let '(events, end_) := OaiStreamHandler_claude ct path audio est pt true pinged listening items GenRelayInfoClaude in
  end_ = Settled u /\
  reads Waiting events =
    Some (Over (done_blocks s) (stopReasonOpenAI2Claude (default "stop" (told_finish s))) (claudeTerminalUsage u)).
Proof.
  intros Ht Htold Hbs Hb Hlen items u. unfold OaiStreamHandler_claude, items. rewrite map_app, rev_app_distr. cbn [map List.rev app].
  rewrite rev_involutive. cbn [negb andb].
  assert (exists s0, tells untold bs = Some s0 /\ tell s0 (body_chunk b) = Some s) as (s0 & H0 & H1).
  { clear -Ht. revert Ht. generalize untold. induction bs as [|x bs IH]; intros s1; cbn.
    - destruct (tell s1 (body_chunk b)) as [s2|] eqn:E; [|done]. cbn. intros [= <-]. by exists s1.
    - destruct (tell s1 (body_chunk x)) as [s2|]; [|done]. cbn. apply IH. }
  pose proof (convert_all_read ct pt bs untold s0 Waiting GenRelayInfoClaude H0 Hbs genConvert_converting eq_refl) as Hc.
  destruct (convert_all ct pt (map Some bs) GenRelayInfoClaude) as [out info].
  destruct Hc as (Hv & Hi & Hn & k & Hk & Hr); [done|cbn; lia|by left|]. cbn in Hn. split; [unfold u, items; by rewrite map_app|].
  unfold HandleFinalResponse_claude, claudeLastChunkEvents.
  replace (stream_usage _ _ _ _ _ _ _) with u by (unfold u, items; by rewrite map_app). set (info1 := set_usage (Some u) (count_response info)).
  assert (converting s0 info1) as Hv1 by (destruct Hv as [[? ?] ? ? ? ?]; split; by try split).
  destruct (respond pt (processed ct b) s0 s k info1) as (pre & -> & Hpre); [|done|apply Hv1|apply Hv1|].
  { replace (SendResponseCount info1) with (SendResponseCount info + 1); [done|]. cbn. unfold i64_add. rewrite wrap64_id; [done|]. unfold64. lia. }
  pose proof (last_read s0 (processed ct b) s info1 u H1 Hv1 eq_refl) as Hlast.
  destruct (later_chunk (processed ct b) info1) as [o1 i1]. cbn [fst snd].
  destruct (CloseClaudeStream i1) as [tail i2]. cbn [fst].
  rewrite reads_app, Hr. cbn [mbind option_bind]. rewrite <- app_assoc, map_app, reads_app, Hpre. cbn [mbind option_bind].
  apply Hlast; [|done]. destruct Hb as [Hb|Hb]; [left; cbn; by rewrite Hb|right]. unfold u, items. by apply settled_usage.
Qed.

(** ** Every stream is opened and closed once *)

(** An event of a content block. *)
Definition of_block {I} (e : claude_event I) : Prop :=
  match e with message_start _ _ _ | message_delta _ _ | message_stop => False | _ => True end.

Lemma sent_of_block i es : Forall of_block es -> Forall of_block (map (sent i) es).
Proof. induction 1 as [|e es He Hes IH]; constructor; [by destruct e|done]. Qed.

Lemma tool_events_blocks many ts : forall n info,
  Forall of_block (fst (tool_events many n ts info)) /\ same_end info (snd (tool_events many n ts info)).
Proof.
  induction ts as [|t ts IH]; intros n info; cbn [tool_events]; [by repeat split|].
  set (bi := match tc_Index t with Some n => n | None => _ end). destruct (IH (n + 1) (set_index bi info)) as [H1 H2].
  destruct (tool_events many (n + 1) ts (set_index bi info)) as [rest info']. cbn [fst snd] in *.
  split; [|exact H2]. rewrite !Forall_app. repeat split; [destruct (String.eqb (tc_Name t) "")|destruct (String.eqb (tc_Arguments t) "")|];
    try done; by constructor.
Qed.

Lemma chunk_content_blocks d info : Forall of_block (fst (chunk_content d info)) /\ same_end info (snd (chunk_content d info)).
Proof.
  unfold chunk_content. destruct (tool_calls d) as [|t ts].
  - destruct (negb (String.eqb (GetReasoningContent d) "")).
    { destruct (String.eqb (LastMessagesType info) _); cbn; split; by repeat constructor. }
    destruct (negb (String.eqb (GetContentString d) "")); [|cbn; split; by repeat constructor].
    destruct (String.eqb (LastMessagesType info) LastMessageTypeText); [|match goal with |- context [if ?b then _ else _] => destruct b end];
      cbn; split; by repeat constructor.
  - destruct (negb _).
    + set (i1 := set_last _ _). destruct (tool_events_blocks (1 <? length (t :: ts))%nat (t :: ts) 0 i1) as [H1 H2].
      destruct (tool_events _ _ _ i1) as [es i2]. cbn [fst snd] in *. split; [constructor; done|exact H2].
    + set (i1 := set_last _ _). destruct (tool_events_blocks (1 <? length (t :: ts))%nat (t :: ts) 0 i1) as [H1 H2].
      destruct (tool_events _ _ _ i1) as [es i2]. cbn [fst snd] in *. split; [done|exact H2].
Qed.

(** The end of a message, where there is one. *)
Definition closing {I} (done : bool) (tail : list (claude_event I)) : Prop :=
  if done then exists u stop, tail = [message_delta u stop; message_stop] else tail = [].

Lemma terminal_closing r info :
  Done info = false -> let '(tail, info') := claudeTerminalEvents r info in closing (Done info') tail /\ SendResponseCount info' = SendResponseCount info.
Proof.
  intros Hd. unfold claudeTerminalEvents. destruct (match ch_Usage r with Some _ => _ | None => _ end).
  - split; [cbn; by eexists _, _|done].
  - split; [by rewrite Hd|done].
Qed.

Definition opening {I} (n : Z) (r : Chunk) (estimate : Z) : list (claude_event I) :=
  if n =? 1 then [message_start (ch_Id r) (ch_Model r) estimate] else [].

(** What was written so far: the message opened, then blocks. *)
Definition opened (estimate : Z) (r : Chunk) (info : ClaudeConvertInfo) (out : list (claude_event index)) (info' : ClaudeConvertInfo) : Prop :=
  SendResponseCount info' = SendResponseCount info /\ Done info' = false /\
  exists mid, out = [message_start (ch_Id r) (ch_Model r) estimate] ++ mid /\ Forall of_block mid.

Lemma opened_app estimate r info out info' es k :
  opened estimate r info out info' -> Forall of_block es -> opened estimate r info (out ++ es) (set_last k info').
Proof.
  intros (Hc & Hd & mid & -> & Hm) He. split; [done|split; [done|]]. exists (mid ++ es). by rewrite <- app_assoc, Forall_app.
Qed.

(** Closing after the first chunk's finish reason. *)
Definition shaped (estimate : Z) (r : Chunk) (info : ClaudeConvertInfo) (res : list (claude_event index) * ClaudeConvertInfo) : Prop :=
  SendResponseCount (snd res) = SendResponseCount info /\
  exists mid tail, fst res = opening (SendResponseCount info) r estimate ++ mid ++ tail /\ Forall of_block mid /\ closing (Done (snd res)) tail.

Lemma first_shaped estimate r info : Done info = false -> SendResponseCount info = 1 -> shaped estimate r info (first_chunk estimate r info).
Proof.
  intros Hd Hn. unfold shaped, opening. rewrite Hn. cbn [Z.eqb Pos.eqb]. unfold first_chunk.
  match goal with |- context [let '(out, info) := ?p in match Choices r with [] => _ | _ => _ end] => destruct p as [out1 info1] eqn:E1 end.
  assert (opened estimate r info out1 info1) as H1.
  { assert (opened estimate r info [message_start (ch_Id r) (ch_Model r) estimate] info) by (repeat split; [done|by exists []]).
    destruct (Choices r) as [|c cs]; [by injection E1 as <- <-|]. destruct (tool_calls (c_Delta c)) as [|t ts]; injection E1 as <- <-; [done|].
    apply (opened_app _ _ _ [_] _ _ LastMessageTypeTools); [done|]. destruct (String.eqb _ ""); by repeat constructor. }
  clear E1. destruct (Choices r) as [|c cs].
  { destruct H1 as (Hc & Hd1 & mid & -> & Hm). cbn [fst snd]. split; [by rewrite <- Hn|]. exists mid, []. by rewrite app_nil_r, Hd1. }
  match goal with |- context [let '(out, info) := ?p in match finish_of c with Some _ => _ | None => _ end] => destruct p as [out2 info2] eqn:E2 end.
  assert (opened estimate r info out2 info2) as (Hc & Hd2 & mid & -> & Hm).
  { destruct (negb (String.eqb (GetReasoningContent _) "")); [|destruct (negb (String.eqb (GetContentString _) ""))]; injection E2 as <- <-;
      [| |done]; apply opened_app; try done; by repeat constructor. }
  destruct (finish_of c) as [f|].
  - pose proof (terminal_closing r (set_finish f info2) Hd2) as Ht. destruct (claudeTerminalEvents r (set_finish f info2)) as [tail info3].
    destruct Ht as [Ht Hc3]. cbn [fst snd]. split; [rewrite Hc3, <- Hn; done|]. exists (mid ++ [generateStopBlock (Index (set_finish f info2))]), tail.
    rewrite <- !app_assoc. split; [done|]. split; [apply Forall_app; split; [done|by constructor]|done].
  - cbn [fst snd]. split; [by rewrite <- Hn|]. exists mid, []. by rewrite app_nil_r, Hd2.
Qed.

(** One chunk: the message is opened by the first, content follows, and it is closed when
    the conversion is done. *)
Lemma response_shape estimate r info : Done info = false -> shaped estimate r info (StreamResponseOpenAI2Claude estimate r info).
Proof.
  intros Hd. unfold StreamResponseOpenAI2Claude. rewrite Hd. destruct (Z.eqb_spec (SendResponseCount info) 1) as [Hn|Hn]; [by apply first_shaped|].
  unfold shaped, opening. apply Z.eqb_neq in Hn as ->.
  destruct (Choices r) as [|c cs]; [cbn [fst snd]; split; [done|]; exists [], []; by rewrite Hd|].
  set (info0 := match finish_of c with Some f => set_finish f info | None => info end).
  assert (Done info0 = false /\ SendResponseCount info0 = SendResponseCount info) as [Hd0 Hc0] by (unfold info0; by destruct (finish_of c)).
  destruct (chunk_content_blocks (c_Delta c) info0) as [Hb (_ & _ & Hd1 & Hc1)].
  destruct (chunk_content (c_Delta c) info0) as [out info1]. cbn [fst snd] in *. rewrite Hd0 in Hd1. rewrite Hc0 in Hc1.
  destruct (finish_of c) as [f|].
  - pose proof (terminal_closing r info1 Hd1) as Ht. destruct (claudeTerminalEvents r info1) as [tail info2]. destruct Ht as [Ht Hc2].
    cbn [fst snd]. split; [by rewrite Hc2|]. exists (out ++ [generateStopBlock (Index info1)]), tail. cbn [app]. rewrite <- app_assoc.
    split; [done|]. split; [apply Forall_app; split; [done|by constructor]|done].
  - cbn [fst snd]. split; [done|]. exists out, []. by rewrite app_nil_r, Hd1.
Qed.

(** A chunk leaves the usage the conversion knows. *)
Lemma response_usage estimate r info : info_Usage (snd (StreamResponseOpenAI2Claude estimate r info)) = info_Usage info.
Proof.
  assert (forall i, info_Usage (snd (claudeTerminalEvents r i)) = info_Usage i) as Ht.
  { intros i. unfold claudeTerminalEvents. by destruct (match ch_Usage r with Some _ => _ | None => _ end). }
  unfold StreamResponseOpenAI2Claude, first_chunk. destruct (Done info); [done|]. destruct (_ =? 1), (Choices r) as [|c cs]; try done.
  - destruct (tool_calls (c_Delta c)), (negb (String.eqb (GetReasoningContent (c_Delta c)) "")), (negb (String.eqb (GetContentString (c_Delta c)) "")),
      (finish_of c) as [f|]; try done; cbn; match goal with |- context [claudeTerminalEvents r ?i] => pose proof (Ht i); by destruct (claudeTerminalEvents r i) end.
  - destruct (chunk_content_blocks (c_Delta c) (match finish_of c with Some f => set_finish f info | None => info end)) as [_ (H & _)].
    destruct (chunk_content _ _) as [out i1]. cbn [snd] in H.
    assert (info_Usage i1 = info_Usage info) as H1 by (rewrite H; by destruct (finish_of c)).
    destruct (finish_of c); [|done]. pose proof (Ht i1). by destruct (claudeTerminalEvents r i1); cbn in *; rewrite <- H1.
Qed.

(** What a client is sent: the message opened or not, blocks, the message closed or not. *)
Definition well_written (o d : bool) (es : list (claude_event Z)) : Prop :=
  exists open mid tail, es = open ++ mid ++ tail /\
    (if o then exists id model n, open = [message_start id model n] else open = []) /\ Forall of_block mid /\ closing d tail.

Lemma well_written_app o d es es' : well_written o false es -> well_written false d es' -> well_written o d (es ++ es').
Proof.
  intros (op & mid & tail & -> & Ho & Hm & Ht) (op' & mid' & tail' & -> & Ho' & Hm' & Ht'). cbn in Ht, Ho'. subst.
  exists op, (mid ++ mid'), tail'. split; [by rewrite app_nil_r, <- !app_assoc|]. split; [done|]. split; [by apply Forall_app|done].
Qed.

Lemma nothing_written : well_written false false [].
Proof. by exists [], [], []. Qed.

Lemma closing_sent i d tail : closing d tail -> closing d (map (sent i) tail).
Proof. destruct d; cbn; [intros (u & stop & ->); by exists u, stop|by intros ->]. Qed.

Lemma shaped_written estimate r info i res :
  shaped estimate r info res -> well_written (SendResponseCount info =? 1) (Done (snd res)) (map (sent i) (fst res)).
Proof.
  intros (_ & mid & tail & -> & Hm & Ht). rewrite !map_app.
  exists (map (sent i) (opening (SendResponseCount info) r estimate)), (map (sent i) mid), (map (sent i) tail).
  split; [done|]. split; [|split; [by apply sent_of_block|by apply closing_sent]]. unfold opening.
  destruct (_ =? 1); [by eexists _, _, _|done].
Qed.

Definition counts (info : ClaudeConvertInfo) (n : Z) : Prop := SendResponseCount info = n /\ 0 <= n < 2 ^ 63 - 1.

Lemma counted info n : counts info n -> SendResponseCount (count_response info) = n + 1.
Proof. intros [<- Hn]. cbn. unfold i64_add. apply wrap64_id. unfold64. lia. Qed.

Definition parses (d : option body) : bool := match d with Some _ => true | None => false end.

Lemma handle_written ct estimate d info n :
  counts info n ->
  let '(out, info') := HandleStreamFormat_claude ct estimate d info in
  SendResponseCount info' = n + 1 /\
  if Done info then out = [] /\ Done info' = true else well_written ((n =? 0) && parses d) (Done info') out.
Proof.
  intros Hn. pose proof (counted info n Hn) as Hc. unfold HandleStreamFormat_claude, handleClaudeFormat.
  destruct d as [b|]; cbn [parses].
  2: { rewrite andb_false_r. split; [done|]. cbn [count_response Done]. destruct (Done info); [done|apply nothing_written]. }
  rewrite andb_true_r. set (info1 := match ch_Usage (processed ct b) with Some u => _ | None => _ end).
  assert (SendResponseCount info1 = n + 1 /\ Done info1 = Done info) as [Hc1 Hd1] by (unfold info1; by destruct (ch_Usage (processed ct b))).
  destruct (Done info).
  - unfold StreamResponseOpenAI2Claude. by rewrite Hd1.
  - pose proof (response_shape estimate (processed ct b) info1 Hd1) as Hs.
    destruct (StreamResponseOpenAI2Claude estimate (processed ct b) info1) as [out info2] eqn:E.
    pose proof (shaped_written _ _ _ info2 _ Hs) as Hw. destruct Hs as [Hc2 _]. cbn [fst snd] in *. split; [by rewrite Hc2|].
    rewrite Hc1 in Hw. replace (n =? 0) with (n + 1 =? 1) by (destruct (Z.eqb_spec n 0), (Z.eqb_spec (n + 1) 1); lia). done.
Qed.

Definition first_parses (items : list (option body)) : bool := match items with d :: _ => parses d | [] => false end.

Lemma convert_all_written ct estimate items : forall info n,
  SendResponseCount info = n -> 0 <= n -> n + Z.of_nat (length items) < 2 ^ 63 - 1 ->
  let '(out, info') := convert_all ct estimate items info in
  SendResponseCount info' = n + Z.of_nat (length items) /\
  if Done info then out = [] /\ Done info' = true else well_written ((n =? 0) && first_parses items) (Done info') out.
Proof.
  induction items as [|d items IH]; intros info n Hc Hn Hlen; cbn [convert_all length] in *.
  { split; [lia|]. rewrite andb_false_r. destruct (Done info); [done|apply nothing_written]. }
  pose proof (handle_written ct estimate d info n ltac:(split; [done|lia])) as Hh.
  destruct (HandleStreamFormat_claude ct estimate d info) as [out info1]. destruct Hh as [Hc1 Hw].
  specialize (IH info1 (n + 1) Hc1 ltac:(lia) ltac:(lia)). destruct (convert_all ct estimate items info1) as [rest info2].
  destruct IH as [Hc2 Hrest]. split; [lia|]. destruct (Done info).
  - destruct Hw as [-> Hd1]. by rewrite Hd1 in Hrest.
  - destruct (Done info1) eqn:Hd1; [destruct Hrest as [-> ->]; by rewrite app_nil_r|].
    apply well_written_app; [done|]. replace (n + 1 =? 0) with false in Hrest by (symmetry; apply Z.eqb_neq; lia). done.
Qed.

Lemma last_chunk_written ct estimate b u info n :
  counts info n -> Done info = false ->
  let '(out, info') := claudeLastChunkEvents ct estimate (Some b) u info in
  info_Usage info' = Some u /\
  exists es, out = Some es /\ forall i, well_written (n =? 0) (Done info') (map (sent i) es).
Proof.
  intros Hn Hd. pose proof (counted info n Hn) as Hc. unfold claudeLastChunkEvents. set (info1 := set_usage (Some u) (count_response info)).
  pose proof (response_shape estimate (processed ct b) info1 Hd) as Hs.
  assert (info_Usage (snd (StreamResponseOpenAI2Claude estimate (processed ct b) info1)) = Some u) as Hu.
  { apply response_usage. }
  destruct (StreamResponseOpenAI2Claude estimate (processed ct b) info1) as [out info2]. split; [done|]. exists out. split; [done|].
  intros i. pose proof (shaped_written _ _ _ i _ Hs) as Hw. cbn [fst snd] in Hw. replace (SendResponseCount info1) with (n + 1) in Hw by done.
  replace (n =? 0) with (n + 1 =? 1) by (destruct (Z.eqb_spec n 0), (Z.eqb_spec (n + 1) 1); lia). done.
Qed.

Lemma close_written info u :
  info_Usage info = Some u ->
  let '(tail, info') := CloseClaudeStream info in
  if Done info then tail = [] else forall i, well_written false true (map (sent i) tail).
Proof.
  intros Hu. unfold CloseClaudeStream. destruct (Done info); [done|].
  assert (forall (mid : list (claude_event Z)) u stop, Forall of_block mid -> well_written false true (mid ++ [message_delta u stop; message_stop])) as Hw.
  { intros mid v stop Hm. exists [], mid, [message_delta v stop; message_stop]. repeat split; [done|by eexists _, _]. }
  destruct (String.eqb (FinishReason info) ""); [destruct (String.eqb (LastMessagesType info) "")|]; unfold claudeTerminalEvents; cbn;
    rewrite !Hu; cbn; rewrite ?Hu; intros i; cbn.
  - by apply (Hw []).
  - apply (Hw [content_block_stop (Index info)]). by constructor.
  - by apply (Hw []).
Qed.

(** The last chunk after the others: it opens the message where it is the only one. *)
Lemma last_after rest b out es d :
  (rest = [] -> out = []) -> well_written (first_parses rest) false out -> well_written (Z.of_nat (length rest) =? 0) d es ->
  well_written (first_parses (rest ++ [Some b])) d (out ++ es).
Proof. intros H0 H1 H2. destruct rest as [|x rest]; [by rewrite (H0 eq_refl)|]. by apply well_written_app. Qed.

Lemma final_written ct estimate b u info n out o :
  counts info n -> (if Done info then well_written o true out else True) ->
  (forall d es, Done info = false -> well_written (n =? 0) d es -> well_written o d (out ++ es)) ->
  well_written o true (out ++ fst (HandleFinalResponse_claude ct estimate (Some b) u info)).
Proof.
  intros Hn Hdone Hafter. unfold HandleFinalResponse_claude. destruct (Done info) eqn:Hd.
  { unfold claudeLastChunkEvents, StreamResponseOpenAI2Claude. cbn [set_usage count_response Done]. rewrite Hd. unfold CloseClaudeStream.
    cbn [set_usage count_response Done]. rewrite Hd. cbn. by rewrite app_nil_r. }
  pose proof (last_chunk_written ct estimate b u info n Hn Hd) as Hl. destruct (claudeLastChunkEvents ct estimate (Some b) u info) as [o1 i1].
  destruct Hl as (Hu & es & -> & He). pose proof (close_written i1 u Hu) as Hc. destruct (CloseClaudeStream i1) as [tail i2]. cbn [fst].
  apply Hafter; [done|]. rewrite map_app. destruct (Done i1); [subst; rewrite app_nil_r; apply He|]. apply well_written_app; [apply He|apply Hc].
Qed.

Lemma incomplete_written ct estimate b info n out o :
  counts info n -> (if Done info then well_written o true out else True) ->
  (forall d es, Done info = false -> well_written (n =? 0) d es -> well_written o d (out ++ es)) ->
  exists d, well_written o d (out ++ fst (HandleIncompleteStream_claude ct estimate (Some b) info)).
Proof.
  intros Hn Hdone Hafter. unfold HandleIncompleteStream_claude. destruct (Done info) eqn:Hd.
  { exists true. unfold claudeLastChunkEvents, StreamResponseOpenAI2Claude. cbn [set_usage count_response Done]. rewrite Hd. cbn. by rewrite app_nil_r. }
  pose proof (last_chunk_written ct estimate b no_usage info n Hn Hd) as Hl.
  destruct (claudeLastChunkEvents ct estimate (Some b) no_usage info) as [o1 i1]. destruct Hl as (_ & es & -> & He). cbn [fst].
  exists (Done i1). by apply Hafter.
Qed.

(** What is said of the events of a stream: they are written as one message, opened only
    where the first chunk parses, and opened and closed where the stream is settled and its
    first and its last chunk parse. *)
Definition last_parses (items : list (option body)) : bool := match List.rev items with d :: _ => parses d | [] => false end.

Definition one_message (items : list (option body)) (res : list (claude_event Z) * stream_end) : Prop :=
  exists o d, well_written o d (fst res) /\ (o = true -> first_parses items = true) /\
    (forall u, snd res = Settled u -> last_parses items = true -> o = first_parses items /\ d = true).

Lemma first_parses_app rest x : first_parses rest = true -> first_parses (rest ++ [x]) = true.
Proof. by destruct rest. Qed.

Section OneMessage.
Context (ct : Z) (path : string) (audio : bool) (est : string -> Z) (pt : Z) (sawDone pinged listening : bool).
Notation handled items := (OaiStreamHandler_claude ct path audio est pt sawDone pinged listening items GenRelayInfoClaude).

(** The last chunk does not parse: nothing is written after the others. *)
Lemma unparsed_last rest : Z.of_nat (length rest) < 2 ^ 62 -> one_message (rest ++ [None]) (handled (rest ++ [None])).
Proof.
  intros Hlen. unfold OaiStreamHandler_claude. rewrite rev_app_distr. cbn [List.rev app]. rewrite rev_involutive.
  pose proof (convert_all_written ct pt rest GenRelayInfoClaude 0 eq_refl ltac:(lia) ltac:(lia)) as Hc.
  destruct (convert_all ct pt rest GenRelayInfoClaude) as [out info]. destruct Hc as [_ Hw]. cbn in Hw.
  exists (first_parses rest), (Done info).
  assert (last_parses (rest ++ [None]) = false) as Hl by (unfold last_parses; by rewrite rev_app_distr).
  split; [|split; [apply first_parses_app|by rewrite Hl]].
  destruct (_ && negb (pinged || _)); [done|]. destruct (_ && listening); cbn; by rewrite app_nil_r.
Qed.

Lemma parsed_last rest b : Z.of_nat (length rest) < 2 ^ 62 -> one_message (rest ++ [Some b]) (handled (rest ++ [Some b])).
Proof.
  intros Hlen. unfold OaiStreamHandler_claude. rewrite rev_app_distr. cbn [List.rev app]. rewrite rev_involutive.
  pose proof (convert_all_written ct pt rest GenRelayInfoClaude 0 eq_refl ltac:(lia) ltac:(lia)) as Hc.
  assert (rest = [] -> fst (convert_all ct pt rest GenRelayInfoClaude) = []) as H0 by (by intros ->).
  destruct (convert_all ct pt rest GenRelayInfoClaude) as [out info]. destruct Hc as [Hc Hw].
  cbn [GenRelayInfoClaude Done Z.eqb andb fst] in Hw, H0.
  destruct (_ && negb (pinged || _));
    [exists (first_parses rest), (Done info); split; [done|split; [apply first_parses_app|done]]|].
  assert (counts info (Z.of_nat (length rest))) as Hn by (split; lia).
  assert (if Done info then well_written (first_parses (rest ++ [Some b])) true out else True) as Hdone.
  { destruct (Done info) eqn:Hd; [|done]. destruct rest; [|done]. destruct Hw as (? & ? & ? & H & _ & _ & (? & ? & ->)).
    rewrite (H0 eq_refl) in H. by destruct x, x0. }
  assert (forall d es, Done info = false -> well_written (Z.of_nat (length rest) =? 0) d es ->
    well_written (first_parses (rest ++ [Some b])) d (out ++ es)) as Hafter.
  { intros d es Hd. apply last_after; [done|]. by rewrite Hd in Hw. }
  destruct (_ && listening); exists (first_parses (rest ++ [Some b])).
  - destruct (incomplete_written ct pt b info _ out _ Hn Hdone Hafter) as [d Hd]. by exists d.
  - exists true. split; [by apply (final_written ct pt b _ info _ out _ Hn)|done].
Qed.

(** C26. Whatever the chunks of a stream are, tool calls and chunks that do not parse
    included, a caller on the Claude wire is sent at most one message: nothing stands
    before its opening, which is written only where the first chunk parses, and nothing
    behind its closing, which is written at most once.  Where the stream is settled and its
    last chunk parses, the closing is written, and the opening exactly where the first
    chunk parses too. *)
Theorem claude_stream_closed_once items :
  Z.of_nat (length items) <= 2 ^ 62 -> one_message items (handled items).
Proof.
  destruct items as [|[b|] rest _] using rev_ind; intros Hlen.
  - exists false, false. unfold OaiStreamHandler_claude. cbn. split; [|done].
    destruct (_ && negb pinged); [apply nothing_written|]. destruct (_ && _); apply nothing_written.
  - apply parsed_last. rewrite length_app in Hlen. cbn in Hlen. lia.
  - apply unparsed_last. rewrite length_app in Hlen. cbn in Hlen. lia.
Qed.
End OneMessage.

(** ** Streams a strict client does not accept *)

Definition is_start {I} (e : claude_event I) : bool := match e with message_start _ _ _ => true | _ => false end.

Lemma no_start_rejected es : Forall (fun e => is_start e = false) es -> es <> [] -> reads Waiting es = None.
Proof. intros H Hne. destruct H as [|e es He _]; [done|]. by destruct e. Qed.

(** A stream of an in-process Bifrost upstream is never opened for a caller on the
    Claude wire, whatever its chunks are, because nothing counts them there: a client that
    waits for the start of the message accepts no such stream. *)
Theorem bifrost_never_opens estimate chunks :
  let events := tryBifrostClaude_stream estimate chunks GenRelayInfoClaude in
  Forall (fun e => is_start e = false) events /\ (events = [] \/ reads Waiting events = None).
Proof.
  intros events. enough (Forall (fun e => is_start e = false) events) as H.
  { split; [done|]. destruct events as [|e es]; [by left|right]. by apply no_start_rejected. }
  unfold events. assert (SendResponseCount GenRelayInfoClaude = 0) as Hc by done. revert Hc. generalize GenRelayInfoClaude.
  induction chunks as [|r chunks IH]; intros info Hc; cbn [tryBifrostClaude_stream]; [done|].
  destruct (Done info) eqn:Hd.
  { unfold StreamResponseOpenAI2Claude. rewrite Hd. by apply IH. }
  pose proof (response_shape estimate r info Hd) as (Hc' & mid & tail & Hout & Hm & Ht).
  destruct (StreamResponseOpenAI2Claude estimate r info) as [out info']. cbn [fst snd] in *. subst out.
  apply Forall_app. split; [|apply IH; by rewrite Hc']. rewrite Hc. cbn [opening Z.eqb app]. rewrite map_app. apply Forall_app. split.
  - apply (sent_of_block info') in Hm. eapply Forall_impl; [exact Hm|]. by intros [].
  - destruct (Done info'); [|cbn in Ht; by subst]. destruct Ht as (u & stop & ->). by repeat constructor.
Qed.

(** *** Tool calls, as an OpenAI-wire upstream sends them *)

Definition ex_chunk (d : Delta) (finish : option string) : body := mkBody (mkChunk "chatcmpl-1" "glm-4.5" [mkChoice d finish 0] None) None None.
Definition ex_role : body := ex_chunk (mkDelta (Some "") None None None) None.
Definition ex_says (s : string) : body := ex_chunk (mkDelta (Some s) None None None) None.
Definition ex_thinks (s : string) : body := ex_chunk (mkDelta None (Some s) None None) None.
Definition ex_calls (ts : list ToolCallResponse) : body := ex_chunk (mkDelta None None None (Some ts)) None.
Definition ex_finish (s : string) : body := ex_chunk (mkDelta None None None None) (Some s).
Definition ex_reported : Usage := mkUsage 120 30 150 false 50 0 0 0 0 0 None 0 0 None.
Definition ex_last : body := mkBody (mkChunk "chatcmpl-1" "glm-4.5" [] (Some ex_reported)) None None.
Definition ex_call (n : Z) (name args : string) : ToolCallResponse := mkToolCall (Some n) ("call_" +:+ name) name args.

(** What a client of the Claude wire makes of the chunks of an upstream. *)
Definition read_stream (bs : list body) : option client :=
  reads Waiting (fst (OaiStreamHandler_claude 1 "/v1/messages" false (fun s => Z.of_nat (String.length s)) 100 true false true (map Some bs) GenRelayInfoClaude)).

(** A call that the first chunk opens reaches the client whole. *)
Example ex_tool_stream_read :
  read_stream [ex_calls [ex_call 0 "weather" "{}"]; ex_finish "tool_calls"; ex_last] =
    Some (Over [(tool_use "call_weather" "weather", "{}")] "tool_use" (mkClaudeUsage 70 30 0 50)).
Proof. vm_compute. done. Qed.

Section ToolStreams.
Context (ct : Z) (path : string) (audio : bool) (est : string -> Z) (pt : Z) (sawDone pinged listening : bool).
Notation handled items := (OaiStreamHandler_claude ct path audio est pt sawDone pinged listening items GenRelayInfoClaude).

(** What is written starts with what the chunks before the last one are turned into. *)
Lemma handled_prefix pre x : exists tail, fst (handled (pre ++ [x])) = fst (convert_all ct pt pre GenRelayInfoClaude) ++ tail.
Proof.
  unfold OaiStreamHandler_claude. rewrite rev_app_distr. cbn [List.rev app]. rewrite rev_involutive.
  destruct (convert_all ct pt pre GenRelayInfoClaude) as [out info].
  destruct (_ && negb (pinged || _)); [exists []; by rewrite app_nil_r|]. destruct (_ && listening); by eexists.
Qed.

Lemma rejected_prefix es es' k : reads k es = None -> reads k (es ++ es') = None.
Proof. intros H. by rewrite reads_app, H. Qed.

(** The first chunk leaves the client between the blocks, within the block of its text or
    its thinking, or within a call, and the conversion knows it. *)
Definition left_in (c : Choice) (k : client) (i : ClaudeConvertInfo) : Prop :=
  match tool_calls (c_Delta c), kind_of (c_Delta c) with
  | _ :: _, _ => (exists b acc, k = Within [] b acc) /\ LastMessagesType i = LastMessageTypeTools
  | [], Some Nothing => k = Between [] /\ LastMessagesType i = LastMessageTypeNone
  | [], Some (Says _) => (exists acc, k = Within [] text acc) /\ LastMessagesType i = LastMessageTypeText
  | [], Some (Thinks _) => (exists acc, k = Within [] thinking acc) /\ LastMessagesType i = LastMessageTypeThinking
  | [], None => True
  end.

Lemma first_opens b c cs :
  Choices (body_chunk b) = c :: cs -> finish_of c = None ->
  let '(out, info) := HandleStreamFormat_claude ct pt (Some b) GenRelayInfoClaude in
  Index info = 0 /\ Done info = false /\ SendResponseCount info = 1 /\
  match reads Waiting out with Some k => left_in c k info | None => True end.
Proof.
  intros Hb Hf. unfold HandleStreamFormat_claude, handleClaudeFormat.
  set (info := match ch_Usage (processed ct b) with Some u => _ | None => _ end).
  assert (Index info = 0 /\ Done info = false /\ SendResponseCount info = 1 /\ LastMessagesType info = LastMessageTypeNone) as (Hi & Hd & Hc & Hl)
    by (unfold info; by destruct (ch_Usage (processed ct b))).
  clearbody info. unfold StreamResponseOpenAI2Claude. rewrite Hd, Hc. cbn [Z.eqb Pos.eqb]. unfold first_chunk.
  change (Choices (processed ct b)) with (Choices (body_chunk b)). rewrite Hb, Hf. unfold left_in, kind_of.
  destruct (tool_calls (c_Delta c)) as [|t ts].
  - destruct (String.eqb (GetReasoningContent (c_Delta c)) "") eqn:Hr; cbn [negb].
    + destruct (String.eqb (GetContentString (c_Delta c)) ""); cbn; rewrite ?Hi; cbn; repeat split; eauto.
    + destruct (String.eqb (GetContentString (c_Delta c)) ""); cbn; rewrite ?Hi; cbn; repeat split; eauto.
  - destruct (String.eqb (tc_Arguments t) ""), (String.eqb (GetReasoningContent (c_Delta c)) "") eqn:Hr,
      (String.eqb (GetContentString (c_Delta c)) ""); cbn; rewrite ?Hi; cbn; repeat split; eauto.
Qed.

(** What the call of the second chunk runs into. *)
Definition misplaced (c : Choice) (t : ToolCallResponse) : Prop :=
  match tool_calls (c_Delta c), kind_of (c_Delta c) with
  | _ :: _, _ => tc_Name t <> ""
  | [], Some Nothing => True
  | [], Some _ => tc_Name t <> "" /\ tc_Index t = Some 0
  | [], None => False
  end.

Lemma named_call many i t ts info :
  tc_Name t <> "" ->
  exists es, fst (tool_events many i (t :: ts) info) =
    content_block_start (Fixed (match tc_Index t with Some n => n | None => if many then i64_add (Index info) i else Index info end))
      (tool_use (tc_ID t) (tc_Name t)) :: es.
Proof.
  intros Hn. cbn [tool_events]. destruct (tool_events _ _ ts _) as [rest info']. apply String.eqb_neq in Hn as ->.
  by eexists.
Qed.

Lemma second_rejected b2 c1 c2 cs2 t ts k info :
  Index info = 0 -> Done info = false -> SendResponseCount info = 1 -> left_in c1 k info ->
  Choices (body_chunk b2) = c2 :: cs2 -> tool_calls (c_Delta c2) = t :: ts -> misplaced c1 t ->
  reads k (fst (HandleStreamFormat_claude ct pt (Some b2) info)) = None.
Proof.
  intros Hi Hd Hc Ho Hb Ht Hm. unfold HandleStreamFormat_claude, handleClaudeFormat.
  set (i1 := match ch_Usage (processed ct b2) with Some u => _ | None => _ end).
  assert (Index i1 = 0 /\ Done i1 = false /\ SendResponseCount i1 = 2 /\ LastMessagesType i1 = LastMessagesType info) as (Hi1 & Hd1 & Hc1 & Hl1).
  { unfold i1. destruct (ch_Usage (processed ct b2)); cbn; rewrite Hi, Hd, Hc; done. }
  clearbody i1. unfold StreamResponseOpenAI2Claude. rewrite Hd1, Hc1. cbn [Z.eqb Pos.eqb].
  change (Choices (processed ct b2)) with (Choices (body_chunk b2)). rewrite Hb.
  set (i2 := match finish_of c2 with Some f => set_finish f i1 | None => i1 end).
  assert (Index i2 = 0 /\ LastMessagesType i2 = LastMessagesType info) as [Hi2 Hl2] by (unfold i2; by destruct (finish_of c2)).
  clearbody i2. enough (Hrej : forall i, reads k (map (sent i) (fst (chunk_content (c_Delta c2) i2))) = None).
  { destruct (chunk_content (c_Delta c2) i2) as [out i3]. cbn [fst] in Hrej. destruct (finish_of c2).
    - destruct (claudeTerminalEvents _ i3) as [tail i4]. cbn [fst]. rewrite map_app. apply rejected_prefix, Hrej.
    - apply Hrej. }
  intros i. unfold chunk_content. rewrite Ht, Hl2, Hi2. unfold left_in in Ho. unfold misplaced in Hm.
  destruct (tool_calls (c_Delta c1)); [destruct (kind_of (c_Delta c1)) as [[|s|s]|]; [| | |done]|].
  - destruct Ho as [-> ->]. change (negb (String.eqb LastMessageTypeNone LastMessageTypeTools)) with true. cbv iota beta. by destruct (tool_events _ _ _ _).
  - destruct Ho as [(acc & ->) ->]. destruct Hm as [Hn Hx].
    change (negb (String.eqb LastMessageTypeThinking LastMessageTypeTools)) with true. cbv iota beta.
    destruct (named_call (1 <? length (t :: ts))%nat 0 t ts
      (set_last LastMessageTypeTools (set_index (i64_add 0 1) i2)) Hn) as [es He].
    destruct (tool_events _ _ _ _) as [out i3]. cbn [fst] in He. subst out. by rewrite Hx.
  - destruct Ho as [(acc & ->) ->]. destruct Hm as [Hn Hx].
    change (negb (String.eqb LastMessageTypeText LastMessageTypeTools)) with true. cbv iota beta.
    destruct (named_call (1 <? length (t :: ts))%nat 0 t ts
      (set_last LastMessageTypeTools (set_index (i64_add 0 1) i2)) Hn) as [es He].
    destruct (tool_events _ _ _ _) as [out i3]. cbn [fst] in He. subst out. by rewrite Hx.
  - destruct Ho as [(b & acc & ->) ->]. rewrite String.eqb_refl. cbn [negb].
    destruct (named_call (1 <? length (t :: ts))%nat 0 t ts (set_last LastMessageTypeTools i2) Hm) as [es He].
    destruct (tool_events _ _ _ _) as [out i3]. cbn [fst] in He. by subst out.
Qed.

(** C38. Tool calls from the second chunk on break a Claude stream.  Where the second chunk
    of a stream carries tool calls and more chunks follow, whatever they and the rest of
    the two chunks are, a client that insists on the order and numbering of events rejects
    the stream: after an unfinished first chunk that says nothing (one that only names the
    role) because a block is closed that was not opened; after one with text or with
    thinking, where the call is named and numbered zero, because the index of that block is
    used again; after one with a tool call, where the call is named, because the block of
    the first call is still open. *)
Theorem tool_streams_rejected b1 b2 rest c1 cs1 c2 cs2 t ts :
  Choices (body_chunk b1) = c1 :: cs1 -> finish_of c1 = None ->
  Choices (body_chunk b2) = c2 :: cs2 -> tool_calls (c_Delta c2) = t :: ts ->
  misplaced c1 t -> rest <> [] ->
  reads Waiting (fst (handled (Some b1 :: Some b2 :: rest))) = None.
Proof.
  intros H1 Hf H2 Ht Hm Hr. destruct rest as [|x rest _] using rev_ind; [done|].
  destruct (handled_prefix (Some b1 :: Some b2 :: rest) x) as [tail Htail]. cbn [app] in Htail. rewrite Htail.
  apply rejected_prefix. cbn [convert_all]. pose proof (first_opens b1 c1 cs1 H1 Hf) as Ho.
  destruct (HandleStreamFormat_claude ct pt (Some b1) GenRelayInfoClaude) as [out1 i1]. destruct Ho as (Hi & Hd & Hc & Ho).
  pose proof (second_rejected b2 c1 c2 cs2 t ts) as Hs.
  destruct (HandleStreamFormat_claude ct pt (Some b2) i1) as [out2 i2] eqn:E2. destruct (convert_all ct pt rest i2) as [out3 i3].
  cbn [fst]. rewrite reads_app. destruct (reads Waiting out1) as [k|]; [|done]. cbn.
  apply rejected_prefix. specialize (Hs k i1 Hi Hd Hc Ho H2 Ht Hm). by rewrite E2 in Hs.
Qed.
End ToolStreams.

(** A finish reason of the text null is taken for one here, and not by [streamSawFinish]. *)
Example ex_null_finish :
  let b := ex_chunk (mkDelta (Some "Hi") None None None) (Some "null") in
  streamSawFinish [Some b] = false /\ read_stream [b; b; ex_last] = None.
Proof. vm_compute. by split. Qed.

(** ** Streams nobody reports a usage for *)

(** No chunk reports a usage that counts. *)
Definition unreported (items : list (option body)) : Prop :=
  forall b, Some b ∈ items -> ValidUsage (ch_Usage (body_chunk b)) = false.

(** Where the upstream of a stream reports no usage, only the routes of chat
    completions count what was generated: on the Claude route, whatever was streamed, the
    request is settled on no completion tokens at all. *)
Theorem claude_completion_unmetered ct path audio est pt items :
  is_chat_completions path = false -> est "" = 0 -> unreported items ->
  CompletionTokens (stream_usage ct path audio est pt true items) = 0.
Proof.
  intros Hp He Hu. unfold stream_usage, processTokens. rewrite Hp.
  assert (forall c m u, CompletionTokens (applyUsagePostProcessing ct c m u) = CompletionTokens u) as Hpost.
  { intros c m u. unfold applyUsagePostProcessing. repeat case_match; done. }
  rewrite Hpost. clear Hpost.
  assert (forall x, x ∈ List.rev items -> x ∈ items) as Hrev by (intros x; by rewrite !list_elem_of_In, <- in_rev).
  assert (match match List.rev items with Some b :: _ => Some b | _ => None end with
          | Some b => ValidUsage (ch_Usage (body_chunk b)) | None => false end = false) as H1.
  { destruct (List.rev items) as [|[b|] l] eqn:E; try done. apply Hu, Hrev. by left. }
  assert (ValidUsage match List.rev items with _ :: Some b :: _ => if audio then ch_Usage (body_chunk b) else None | _ => None end = false) as H2.
  { destruct (List.rev items) as [|x [|[b|] l]] eqn:E; try done. destruct audio; [|done]. apply Hu, Hrev. right. by left. }
  rewrite H2. destruct (match List.rev items with Some b :: _ => Some b | _ => None end) as [b|]; [rewrite H1|];
    cbn; rewrite He; reflexivity.
Qed.

(** ** Thinking inside the content *)

Definition content_of (r : Chunk) : string := String.concat "" (map (fun c => GetContentString (c_Delta c)) (Choices r)).
Definition contents (rs : list Chunk) : string := String.concat "" (map content_of rs).

Lemma string_app_nil (a : string) : a +:+ "" = a.
Proof. induction a as [|c a IH]; [done|]. exact (f_equal (String c) IH). Qed.

Lemma concat_cons (a : string) l : String.concat "" (a :: l) = a +:+ String.concat "" l.
Proof. destruct l; cbn; [by rewrite string_app_nil|done]. Qed.

Lemma contents_app a b : contents (a ++ b) = contents a +:+ contents b.
Proof. unfold contents. induction a as [|x a IH]; [done|]. cbn [map app]. by rewrite !concat_cons, IH, string_app_assoc. Qed.

(** A story in one text, as far as it goes. *)
Definition in_content (s : story) : string :=
  if String.eqb (told_thinking s) "" then told_text s
  else "<think>" +:+ newline +:+ told_thinking s +:+
       (if String.eqb (told_text s) "" then "" else newline +:+ "</think>" +:+ newline +:+ told_text s).

Definition thinking_info (s : story) : ThinkingContentInfo :=
  let r := negb (String.eqb (told_thinking s) "") in
  mkThinking (negb r) (r && negb (String.eqb (told_text s) "")) r.

(** One chunk adds to the content what it adds to the story. *)
Lemma think_step s r s' :
  tell s r = Some s' -> (length (Choices r) <= 1)%nat ->
  let '(out, i) := sendStreamData r (thinking_info s) in
  i = thinking_info s' /\ in_content s' = in_content s +:+ contents out.
Proof.
  intros Ht Hlen. destruct r as [id model cs u]. unfold tell in Ht. cbn in *. destruct cs as [|c [|c' cs]]; [|clear Hlen|cbn in Hlen; lia].
  { injection Ht as <-. unfold sendStreamData. cbn. rewrite andb_false_r. split; [done|]. by rewrite !string_app_nil. }
  apply bind_Some in Ht as (k & Hk & Ht). apply bind_Some in Ht as (s1 & Ha & Ht).
  assert (thinking_info s' = thinking_info s1 /\ in_content s' = in_content s1) as [-> ->].
  { destruct (finish_of c), (told_finish s); try done; [|by injection Ht as <-|by injection Ht as <-].
    destruct (told s1); [|done]. by injection Ht as <-. }
  unfold sendStreamData. cbn. rewrite !orb_false_r.
  unfold kind_of in Hk. destruct (tool_calls (c_Delta c)); [|done]. destruct s as [r t f]. unfold advance in Ha. cbn in Ha |- *.
  destruct (String.eqb (GetReasoningContent (c_Delta c)) "") eqn:Er, (String.eqb (GetContentString (c_Delta c)) "") eqn:Et; cbn in Hk |- *;
    try done; injection Hk as <-; rewrite ?andb_false_r, ?andb_true_r; cbn.
  - assert (mkStory r t f = s1) as <- by (destruct f; by injection Ha as <-). split; [done|].
    apply String.eqb_eq in Et. unfold contents, content_of, GetContentString in *. cbn in Et |- *. rewrite Et. by rewrite !string_app_nil.
  - destruct f; [done|]. injection Ha as <-. unfold thinking_info, in_content. cbn. rewrite !app_empty, Et, andb_false_r. cbn.
    destruct (String.eqb r "") eqn:E1, (String.eqb t "") eqn:E2; cbn; split; try done; unfold contents; cbn;
      rewrite ?string_app_nil, ?string_app_assoc; try done.
    apply String.eqb_eq in E2 as ->. done.
  - destruct f; [done|]. destruct (String.eqb t "") eqn:E2; [|done]. injection Ha as <-. unfold thinking_info, in_content. cbn.
    rewrite !app_empty, Er, andb_false_r, E2. cbn. destruct (String.eqb r "") eqn:E1; cbn; split; try done; unfold contents; cbn;
      rewrite ?string_app_nil, ?string_app_assoc; try done.
    apply String.eqb_eq in E1 as ->. apply String.eqb_eq in E2 as ->. done.
Qed.

(** With thinking put into the content, a caller on the OpenAI wire reads one text: the
    thinking between the tags, each of which is sent once, and then the answer; without
    thinking the answer alone. *)
Theorem thinking_in_content bs s :
  tells untold bs = Some s -> Forall (fun b => (length (Choices (body_chunk b)) <= 1)%nat) bs ->
  contents (send_all (map body_chunk bs) genThinkingInfo) = in_content s.
Proof.
  intros Ht Hb. change genThinkingInfo with (thinking_info untold).
  enough (forall s0, tells s0 bs = Some s ->
    in_content s = in_content s0 +:+ contents (send_all (map body_chunk bs) (thinking_info s0))) as H by (by rewrite (H untold Ht)).
  clear Ht. induction Hb as [|b bs Hb Hbs IH]; intros s0 Ht; cbn [map send_all].
  { injection Ht as <-. by rewrite string_app_nil. }
  apply bind_Some in Ht as (s1 & H1 & Ht). pose proof (think_step s0 (body_chunk b) s1 H1 Hb) as Hs.
  destruct (sendStreamData (body_chunk b) (thinking_info s0)) as [out i]. destruct Hs as [-> Hs].
  by rewrite (IH s1 Ht), Hs, contents_app, string_app_assoc.
Qed.

(** ** The Gemini wire *)

Definition part_text (p : part) : string := match p with text_part s => s | function_call _ _ => "" end.
Definition frame_text (f : GeminiChatResponse) : string :=
  String.concat "" (map (fun c => String.concat "" (map part_text (Parts c))) (Candidates f)).

(** The text of a choice, unless it has a list of tool calls. *)
Definition choice_text (c : Choice) : string :=
  match ToolCalls (c_Delta c) with Some _ => "" | None => GetContentString (c_Delta c) end.
Definition said (r : Chunk) : string := String.concat "" (map choice_text (Choices r)).

Lemma concat_app (a b : list string) : String.concat "" (a ++ b) = String.concat "" a +:+ String.concat "" b.
Proof. induction a as [|x a IH]; [done|]. cbn [app]. by rewrite !concat_cons, IH, string_app_assoc. Qed.

Lemma concat_empty {A} (f : A -> string) l : Forall (fun x => f x = "") l -> String.concat "" (map f l) = "".
Proof. induction 1 as [|x l Hx Hl IH]; [done|]. cbn [map]. by rewrite concat_cons, Hx, IH. Qed.

Section GeminiClient.
Context (is_object : string -> bool) (estimate : Z).

Lemma candidate_text c : String.concat "" (map part_text (Parts (gemini_candidate is_object c))) = choice_text c.
Proof.
  unfold gemini_candidate, choice_text. destruct (ToolCalls (c_Delta c)) as [ts|]; cbn.
  - rewrite map_map. apply concat_empty, Forall_forall. by intros.
  - unfold text_parts. destruct (String.eqb_spec (GetContentString (c_Delta c)) "") as [->|]; done.
Qed.

Lemma candidates_text cs :
  String.concat "" (map (fun c => String.concat "" (map part_text (Parts c))) (map (gemini_candidate is_object) cs)) =
  String.concat "" (map choice_text cs).
Proof. rewrite map_map. f_equal. apply map_ext. apply candidate_text. Qed.

Lemma silent_choice c : GetContentString (c_Delta c) = "" -> choice_text c = "".
Proof. unfold choice_text. by destruct (ToolCalls (c_Delta c)). Qed.

(** A frame has the text of its chunk, and there is one wherever there is text. *)
Lemma gemini_frame_text r fin :
  String.concat "" (map frame_text (match fst (StreamResponseOpenAI2Gemini is_object estimate r fin) with Some f => [f] | None => [] end)) = said r.
Proof.
  unfold StreamResponseOpenAI2Gemini, said. destruct (ch_Usage r) as [u|].
  - cbn. unfold frame_text. cbn. rewrite map_app, concat_app, candidates_text. destruct (Choices r); cbn; by rewrite string_app_nil.
  - set (hc := existsb (fun c => negb (String.eqb _ "") || _) (Choices r)). set (hf := existsb _ (Choices r)).
    destruct hc eqn:Hc; [cbn; unfold frame_text; cbn; apply candidates_text|].
    destruct hf; [cbn; unfold frame_text; cbn; apply candidates_text|]. symmetry. apply concat_empty, Forall_forall. intros c Hin.
    apply silent_choice. apply not_true_iff_false in Hc. unfold hc in Hc. rewrite existsb_exists in Hc.
    destruct (String.eqb_spec (GetContentString (c_Delta c)) "") as [|Hn]; [done|]. exfalso. apply Hc. exists c.
    split; [by apply list_elem_of_In|]. by apply String.eqb_neq in Hn as ->.
Qed.

Lemma contentless_silent cs : forall fin f, contentless cs fin = Some f -> String.concat "" (map choice_text cs) = "".
Proof.
  induction cs as [|c cs IH]; intros fin f H; [done|]. cbn in H. cbn [map]. rewrite concat_cons.
  destruct (String.eqb_spec (GetContentString (c_Delta c)) "") as [Hc|]; [|done]. destruct (_ =? 0)%nat; [|done]. cbn in H.
  by rewrite (silent_choice c Hc), (IH _ _ H).
Qed.

Lemma gemini_handle_text b fin :
  String.concat "" (map frame_text (fst (handleGeminiFormat is_object estimate (Some b) fin))) = said (body_chunk b).
Proof.
  unfold handleGeminiFormat. pose proof (gemini_frame_text (body_chunk b) fin) as H.
  destruct (StreamResponseOpenAI2Gemini is_object estimate (body_chunk b) fin) as [fr fin']. cbn [fst] in H.
  destruct (contentlessFinish (body_chunk b)) eqn:E; [|exact H]. destruct (ch_Usage (body_chunk b)); [exact H|].
  symmetry. by apply (contentless_silent _ _ _ E).
Qed.

Lemma gemini_all_text bs : forall fin,
  String.concat "" (map frame_text (fst (gemini_all is_object estimate (map Some bs) fin))) = String.concat "" (map said (map body_chunk bs)).
Proof.
  induction bs as [|b bs IH]; intros fin; [done|]. cbn [map gemini_all]. pose proof (gemini_handle_text b fin) as H.
  destruct (handleGeminiFormat is_object estimate (Some b) fin) as [out fin1]. specialize (IH fin1).
  destruct (gemini_all is_object estimate (map Some bs) fin1) as [rest fin2]. cbn [fst] in *.
  by rewrite map_app, concat_app, H, IH, concat_cons.
Qed.

(** A caller on the Gemini wire reads the whole text of a stream, whichever chunks are
    held back or make no frame, and where the stream was counted the last frame carries the
    usage the request is settled on. *)
Theorem gemini_stream_faithful bs b u :
  let frames := gemini_stream is_object estimate (map Some (bs ++ [b])) u in
  String.concat "" (map frame_text frames) = String.concat "" (map said (map body_chunk (bs ++ [b]))) /\
  (0 < PromptTokens u -> exists pre f, frames = pre ++ [f] /\ UsageMetadata f = geminiUsageMetadata u).
Proof.
  unfold gemini_stream. rewrite map_app, rev_app_distr. cbn [map List.rev app]. rewrite rev_involutive. cbv zeta.
  pose proof (gemini_all_text bs "") as Hall. destruct (gemini_all is_object estimate (map Some bs) "") as [out fin]. cbn [fst] in Hall. split.
  - rewrite !map_app, !concat_app, Hall. f_equal. unfold geminiLastChunkFrame.
    destruct (_ || _); rewrite gemini_frame_text; cbn [map app]; rewrite concat_cons; cbn; by rewrite string_app_nil.
  - intros Hp. unfold geminiLastChunkFrame. assert ((PromptTokens u >? 0) = true) as -> by lia. cbn. by eexists _, _.
Qed.
End GeminiClient.

(** A chunk with an empty list of tool calls loses its text on the Gemini wire. *)
Example ex_gemini_empty_calls :
  let b := ex_chunk (mkDelta (Some "Hello") None None (Some [])) None in
  map Candidates (gemini_stream (fun _ => true) 10 [Some b; Some ex_last] ex_reported) =
    [[mkCandidate 0 None []]; [mkCandidate 0 None []]].
Proof. reflexivity. Qed.

(** ** Examples *)

Definition ex_story : list body := [ex_role; ex_thinks "The sky "; ex_thinks "scatters."; ex_says "It is "; ex_says "blue."; ex_finish "stop"].

Lemma claude_stream_faithful_witness :
  reads Waiting (fst (OaiStreamHandler_claude 1 "/v1/messages" false (fun s => Z.of_nat (String.length s)) 100 true false true
    (map Some (ex_story ++ [ex_last])) GenRelayInfoClaude)) =
  Some (Over [(thinking, "The sky scatters."); (text, "It is blue.")] "end_turn" (mkClaudeUsage 70 30 0 50)).
Proof.
  pose proof (claude_stream_faithful 1 "/v1/messages" false (fun s => Z.of_nat (String.length s)) 100 false true ex_story ex_last
    (mkStory "The sky scatters." "It is blue." (Some "stop"))) as H.
  assert (tells untold (ex_story ++ [ex_last]) = Some (mkStory "The sky scatters." "It is blue." (Some "stop"))) as H1 by reflexivity.
  specialize (H H1 eq_refl). assert (Forall (fun b => ch_Usage (body_chunk b) = None) ex_story) as H2 by (repeat constructor).
  specialize (H H2 (or_intror eq_refl) eq_refl). clear H1 H2.
  vm_compute in H |- *. exact (proj2 H).
Defined.

(** A chunk in the middle that does not parse, and two tool calls. *)
Definition ex_rest : list (option body) :=
  [Some ex_role; None; Some (ex_calls [ex_call 0 "weather" "{}"; ex_call 1 "time" "{}"]); Some (ex_finish "tool_calls")].

Lemma tool_streams_rejected_witness :
  read_stream [ex_role; ex_calls [ex_call 0 "weather" "{}"]; ex_finish "tool_calls"; ex_last] = None /\
  read_stream [ex_calls [ex_call 0 "weather" "{}"]; ex_calls [ex_call 1 "time" "{}"]; ex_finish "tool_calls"; ex_last] = None /\
  read_stream [ex_says "Let me look."; ex_calls [ex_call 0 "weather" "{}"]; ex_finish "tool_calls"; ex_last] = None.
Proof.
  split; [|split].
  - eapply (tool_streams_rejected _ _ _ _ _ _ _ _ ex_role (ex_calls [ex_call 0 "weather" "{}"]));
      [reflexivity|reflexivity|reflexivity|reflexivity|vm_compute; exact I|discriminate].
  - eapply (tool_streams_rejected _ _ _ _ _ _ _ _ (ex_calls [ex_call 0 "weather" "{}"]) (ex_calls [ex_call 1 "time" "{}"]));
      [reflexivity|reflexivity|reflexivity|reflexivity|vm_compute; discriminate|discriminate].
  - eapply (tool_streams_rejected _ _ _ _ _ _ _ _ (ex_says "Let me look.") (ex_calls [ex_call 0 "weather" "{}"]));
      [reflexivity|reflexivity|reflexivity|reflexivity|vm_compute; split; [discriminate|reflexivity]|discriminate].
Defined.

Lemma claude_stream_closed_once_witness :
  well_written true true (fst (OaiStreamHandler_claude 1 "/v1/messages" false (fun s => Z.of_nat (String.length s)) 100 true false true
    (ex_rest ++ [Some ex_last]) GenRelayInfoClaude)).
Proof.
  destruct (claude_stream_closed_once 1 "/v1/messages" false (fun s => Z.of_nat (String.length s)) 100 true false true
    (ex_rest ++ [Some ex_last]) ltac:(vm_compute; discriminate)) as (o & d & Hw & _ & Hs).
  destruct (Hs _ eq_refl eq_refl) as [Ho Hd]. rewrite Ho, Hd in Hw. exact Hw.
Defined.

Lemma claude_completion_unmetered_witness :
  CompletionTokens (stream_usage 1 "/v1/messages" false (fun s => Z.of_nat (String.length s)) 100 true (map Some ex_story)) = 0 /\
  CompletionTokens (stream_usage 1 "/v1/chat/completions" false (fun s => Z.of_nat (String.length s)) 100 true (map Some ex_story)) = 28.
Proof.
  split; [|reflexivity]. apply claude_completion_unmetered.
  - reflexivity.
  - reflexivity.
  - intros b Hb. repeat (apply elem_of_cons in Hb as [Hb|Hb]; [injection Hb as ->; reflexivity|]). by apply not_elem_of_nil in Hb.
Defined.

Lemma thinking_in_content_witness :
  contents (send_all (map body_chunk ex_story) genThinkingInfo) =
  "<think>" +:+ newline +:+ "The sky scatters." +:+ newline +:+ "</think>" +:+ newline +:+ "It is blue.".
Proof.
  rewrite (thinking_in_content ex_story (mkStory "The sky scatters." "It is blue." (Some "stop"))).
  - reflexivity.
  - reflexivity.
  - repeat constructor.
Defined.

Lemma gemini_stream_faithful_witness :
  let frames := gemini_stream (fun _ => true) 100 (map Some (ex_story ++ [ex_last])) ex_reported in
  String.concat "" (map frame_text frames) = "It is blue." /\
  exists pre f, frames = pre ++ [f] /\ UsageMetadata f = mkGeminiUsage 120 30 0 150 50.
Proof.
  destruct (gemini_stream_faithful (fun _ => true) 100 ex_story ex_last ex_reported) as [H1 H2]. split.
  - etransitivity; [exact H1|reflexivity].
  - apply H2. reflexivity.
Defined.
End ClaudeClient.
