(* ===== verification/Sessions.v ===== *)
(** * Browser sessions and their registry

    Model of internal/adapter/repo/user_session.go (one row per device, the cap on
    active sessions, revocation and the sweep), internal/adapter/middleware/
    session_rotation.go (a fresh session id at every login), the cookie arms of
    resolveSessionIdentity in internal/adapter/middleware/auth.go, the logins that write
    an identity into the session (handler/oauth.go, zita_bootstrap.go, v2_bridge.go) and
    handler/v2_session_revoke.go, zita_logout.go (ending a session).

    The session store is Redis: a session is its id and its values, and a save writes
    all of them.  What a request presents that other code resolves, the platform account
    of its cookie, the user of its bearer token, the cached user row and the tenant's
    gate, are fields of the request.  Every statement and every Redis command may fail. *)

From stdpp Require Import sorting.
From S2P Require Import Prelude GoStrings Redis.

Module Sessions.
Import GoStrings.

(** ** Rows *)

Record UserSession := mkSession {
  s_Id : Z;
  s_SessionKey : string;
  s_UserId : Z;
  s_TenantId : string;
  s_IP : string;
  s_UserAgent : string;
  s_AuthMethod : string;
  s_CreatedAt : Z;
  s_LastSeenAt : Z;
  s_RevokedAt : Z;
  s_RevokeReason : string
}.

Definition SessionRevokeReasonUserRevoked : string := "user_revoked".
Definition SessionRevokeReasonUserRevokedOthers : string := "user_revoked_others".
Definition SessionRevokeReasonLogout : string := "logout".
Definition SessionRevokeReasonAdminRevoked : string := "admin_revoked".
Definition SessionRevokeReasonCapExceeded : string := "cap_exceeded".
Definition SessionRevokeReasonRotated : string := "rotated".

Definition set_revoked (now : Z) (reason : string) (s : UserSession) : UserSession :=
  mkSession (s_Id s) (s_SessionKey s) (s_UserId s) (s_TenantId s) (s_IP s) (s_UserAgent s) (s_AuthMethod s)
    (s_CreatedAt s) (s_LastSeenAt s) now reason.

Definition set_seen (now : Z) (s : UserSession) : UserSession :=
  mkSession (s_Id s) (s_SessionKey s) (s_UserId s) (s_TenantId s) (s_IP s) (s_UserAgent s) (s_AuthMethod s)
    (s_CreatedAt s) now (s_RevokedAt s) (s_RevokeReason s).

(** Session values keep their Go type. *)
Inductive sval :=
| SInt (z : Z)
| SInt64 (z : Z)
| SString (s : string).

Abbreviation session := (gmap string sval).

Inductive sess_err :=
| ErrSessDB            (* the database, Redis or the session store *)
| ErrSessUnique.       (* the unique index on session_key *)

#[export] Instance sess_db_error : DbError sess_err := ErrSessDB.

(** The audit events handed to the writer: the action, and the detail or the part of it
    that tells events apart. *)
Abbreviation event := (string * string)%type.

Section Registry.
Context {R : Type} `{RedisStrings R}.

Record sessdb := mkSessdb {
  cookies : gmap string session;   (* session_<id> in Redis *)
  registry : list UserSession;
  seq_session : Z;
  touched : gmap string Z;         (* sessionTouchFallback *)
  redis : R;
  audit : list event               (* newest first *)
}.

Definition set_cookies (c : gmap string session) (db : sessdb) : sessdb :=
  mkSessdb c (registry db) (seq_session db) (touched db) (redis db) (audit db).
Definition set_registry (rows : list UserSession) (db : sessdb) : sessdb :=
  mkSessdb (cookies db) rows (seq_session db) (touched db) (redis db) (audit db).
Definition set_redis (r : R) (db : sessdb) : sessdb :=
  mkSessdb (cookies db) (registry db) (seq_session db) (touched db) r (audit db).

Abbreviation S A := (M sessdb sess_err A).

(** Reading or writing memory never fails. *)
Definition local {A} (f : sessdb -> A * sessdb) : S A :=
  fun s => let (a, db) := f (tables s) in (Ok a, mkStore db (faults s)).

Definition RecordAuditEvent (e : event) : S unit :=
  local (fun db => (tt, mkSessdb (cookies db) (registry db) (seq_session db) (touched db) (redis db) (e :: audit db))).

(** ** The registry *)

(** The environment: SESSION_REGISTRY_ENABLED, SESSION_MAX_ACTIVE_PER_USER, and whether
    Redis is configured. *)
Record sessenv := mkSessenv {
  REGISTRY_ENABLED : string;
  MAX_ACTIVE : string;
  RedisEnabled : bool
}.

Definition SessionRegistryEnabled (e : sessenv) : bool := String.eqb (REGISTRY_ENABLED e) "true".

Definition sessionMaxActivePerUser (e : sessenv) : Z :=
  if String.eqb (MAX_ACTIVE e) "" then 0
  else match Atoi (MAX_ACTIVE e) with
       | Some n => if n <? 0 then 0 else n
       | None => 0
       end.

Definition sessionLastSeenThrottleWindow : Z := 60 * second.

(** Unix milliseconds, the clock of the Redis server. *)
Definition unix_ms (t : Z) : Z := t / 1000000 - unix_offset * 1000.

Definition ShouldThrottleSessionTouch (e : sessenv) (sessionKey : string) (now : Z) : S bool :=
  if RedisEnabled e then
    try! won := stmt (fun db =>
      let (won, r) := SETNX (unix_ms now) ("session_touch:" +:+ sessionKey) "1" (sessionLastSeenThrottleWindow / 1000000) (redis db) in
      Ok (won, set_redis r db)) in
    ret (match won with Ok won => negb won | Err _ => false end)
  else
    local (fun db =>
      let store := mkSessdb (cookies db) (registry db) (seq_session db) (<[sessionKey := now]> (touched db)) (redis db) (audit db) in
      match touched db !! sessionKey with
      | Some last => if time_Sub now last <? sessionLastSeenThrottleWindow then (true, db) else (false, store)
      | None => (false, store)
      end).

(** Bytes, not code points. *)
Definition truncateForColumn (s : string) (n : nat) : string :=
  if (String.length s <=? n)%nat then s else String.substring 0 n s.

Definition of_key (key : string) (s : UserSession) : bool := String.eqb (s_SessionKey s) key.
Definition of_id (id : Z) (s : UserSession) : bool := s_Id s =? id.
Definition active_of (userId : Z) (s : UserSession) : bool := (s_UserId s =? userId) && (s_RevokedAt s =? 0).

Definition update_registry (P : UserSession -> bool) (f : UserSession -> UserSession) : S unit :=
  stmt (fun db => Ok (tt, set_registry (update_where P f (registry db)) db)).

Definition seen_after (a b : UserSession) : Prop := s_LastSeenAt b <= s_LastSeenAt a.

#[export] Instance seen_after_dec a b : Decision (seen_after a b).
Proof. unfold seen_after. apply _. Defined.

(** [Order("last_seen_at DESC")]; rows seen in the same second come in any order, here
    the table's. *)
Definition by_last_seen (rows : list UserSession) : list UserSession :=
  merge_sort seen_after rows.

(** A failed update leaves its session active and out of the result. *)
Fixpoint revoke_rows (now : Z) (capped : list UserSession) : S (list UserSession) :=
  match capped with
  | [] => ret []
  | s :: rest =>
      try! r := update_registry (of_id (s_Id s)) (set_revoked now SessionRevokeReasonCapExceeded) in
      let! revoked := revoke_rows now rest in
      ret (match r with Ok _ => s :: revoked | Err _ => revoked end)
  end.

Definition enforceSessionCap (e : sessenv) (userId now : Z) : S (list UserSession) :=
  let maxActive := sessionMaxActivePerUser e in
  if maxActive <=? 0 then ret []
  else
    try! active := query (fun db => by_last_seen (List.filter (active_of userId) (registry db))) in
    match active with
    | Err _ => ret []
    | Ok active =>
        if Z.of_nat (length active) <=? maxActive then ret []
        else revoke_rows now (drop (Z.to_nat maxActive) active)
    end.

(** [DEL session_<key>], whose failure is logged. *)
Definition redisDeleteSessionKey (e : sessenv) (sessionKey : string) : S unit :=
  if String.eqb sessionKey "" || negb (RedisEnabled e) then ret tt
  else
    try! _ := stmt (fun db => Ok (tt, set_cookies (delete sessionKey (cookies db)) db)) in
    ret tt.

Fixpoint deleteSessionKeys (e : sessenv) (rows : list UserSession) : S unit :=
  match rows with
  | [] => ret tt
  | s :: rest => let! _ := redisDeleteSessionKey e (s_SessionKey s) in deleteSessionKeys e rest
  end.

Definition ActionAuthSessionRevoked : string := "auth.session_revoked".

Definition quote : string := String (Ascii.ascii_of_nat 34) "".

Definition session_event (id : Z) (reason : string) : event :=
  (ActionAuthSessionRevoked,
   "{" +:+ quote +:+ "session_id" +:+ quote +:+ ":" +:+ Itoa id +:+ "," +:+ quote +:+ "reason" +:+ quote +:+ ":" +:+
     quote +:+ reason +:+ quote +:+ "}").

Fixpoint recordCapExceededAuditEvent (capped : list UserSession) : S unit :=
  match capped with
  | [] => ret tt
  | s :: rest =>
      let! _ := RecordAuditEvent (session_event (s_Id s) SessionRevokeReasonCapExceeded) in
      recordCapExceededAuditEvent rest
  end.

(** [INSERT INTO user_sessions]; an empty tenant takes the column's default. *)
Definition insert_session (key : string) (userId : Z) (tenantId ip ua method : string) (now : Z) : S unit :=
  stmt (fun db =>
    if negb (pg_text_ok 128 key && pg_text_ok 36 tenantId && pg_text_ok 45 ip && pg_text_ok 255 ua && pg_text_ok 32 method)
    then Err ErrSessDB
    else if existsb (of_key key) (registry db) then Err ErrSessUnique
    else
      let row := mkSession (seq_session db) key userId (if String.eqb tenantId "" then "default" else tenantId) ip ua method now now 0 "" in
      Ok (tt, mkSessdb (cookies db) (registry db ++ [row]) (seq_session db + 1) (touched db) (redis db) (audit db))).

(** [t] is the clock at the throttle and [now] the timestamp read next, [later] the one
    the cap stamps. *)
Definition UpsertUserSessionSeen (e : sessenv) (sessionKey : string) (userId : Z) (tenantId ip userAgent authMethod : string)
    (t now later : Z) : S unit :=
  if String.eqb sessionKey "" then ret tt
  else
    let! throttled := ShouldThrottleSessionTouch e sessionKey t in
    if throttled : bool then ret tt
    else
      let! existing := query (fun db => first_where (of_key sessionKey) (registry db)) in
      match existing with
      | Some row => update_registry (of_id (s_Id row)) (set_seen now)
      | None =>
          try! created := insert_session sessionKey userId tenantId (truncateForColumn ip 45)
                            (truncateForColumn userAgent 255) (truncateForColumn authMethod 32) now in
          match created with
          | Err ErrSessUnique => update_registry (of_key sessionKey) (set_seen now)
          | Err err => throw err
          | Ok _ =>
              let! capped := enforceSessionCap e userId later in
              let! _ := deleteSessionKeys e capped in
              recordCapExceededAuditEvent capped
          end
      end.

Definition sessionActiveWindow : Z := 90 * 24 * 3600.

Definition ListActiveUserSessions (userId now : Z) : S (list UserSession) :=
  let cutoff := i64_sub now sessionActiveWindow in
  query (fun db => by_last_seen (List.filter (fun s =>
    active_of userId s && (s_LastSeenAt s >? cutoff) && (s_CreatedAt s >? cutoff)) (registry db))).

Definition GetUserSessionByID (id : Z) : S (option UserSession) :=
  query (fun db => first_where (of_id id) (registry db)).

Definition not_revoked (s : UserSession) : bool := s_RevokedAt s =? 0.

Definition RevokeUserSessionRow (id : Z) (reason : string) (now : Z) : S unit :=
  update_registry (fun s => of_id id s && not_revoked s) (set_revoked now reason).

Definition RevokeUserSessionByKey (sessionKey reason : string) (now : Z) : S unit :=
  if String.eqb sessionKey "" then ret tt
  else update_registry (fun s => of_key sessionKey s && not_revoked s) (set_revoked now reason).

Definition RevokeOtherUserSessions (userId : Z) (currentSessionKey reason : string) (now : Z) : S (list UserSession) :=
  let! rows := query (fun db => List.filter (fun s =>
    active_of userId s && (String.eqb currentSessionKey "" || negb (of_key currentSessionKey s))) (registry db)) in
  match rows with
  | [] => ret []
  | _ =>
      let! _ := update_registry (fun s => existsb (fun r => s_Id r =? s_Id s) rows) (set_revoked now reason) in
      ret rows
  end.

Definition RevokeAllUserSessions (userId : Z) (reason : string) (now : Z) : S (list UserSession) :=
  RevokeOtherUserSessions userId "" reason now.

Definition IsUserSessionRevoked (sessionKey : string) : S bool :=
  if String.eqb sessionKey "" then ret false
  else
    let! row := query (fun db => first_where (of_key sessionKey) (registry db)) in
    ret (match row with Some row => s_RevokedAt row >? 0 | None => false end).

Definition sessionSweepRevokedRetention : Z := 30 * 24 * hour.
Definition sessionSweepInactiveRetention : Z := 90 * 24 * hour.

Definition sweepable (now : Z) (s : UserSession) : bool :=
  ((s_RevokedAt s >? 0) && (s_RevokedAt s <? time_Unix (time_Add now (- sessionSweepRevokedRetention)))) ||
  ((s_RevokedAt s =? 0) && (s_LastSeenAt s <? time_Unix (time_Add now (- sessionSweepInactiveRetention)))).

(** Rows deleted. *)
Definition SweepExpiredUserSessions (now : Z) : S nat :=
  stmt (fun db => Ok (affected (sweepable now) (registry db),
                      set_registry (List.filter (fun s => negb (sweepable now s)) (registry db)) db)).

(** *** What the list of devices shows *)

Definition uaFamilyMarkers : list (string * string) :=
  [("edg/", "Edge"); ("edge/", "Edge"); ("chrome/", "Chrome"); ("crios/", "Chrome"); ("firefox/", "Firefox");
   ("fxios/", "Firefox"); ("opr/", "Opera"); ("opera/", "Opera"); ("safari/", "Safari"); ("curl/", "curl");
   ("okhttp", "OkHttp"); ("postman", "Postman"); ("python-requests", "python-requests")].

Definition UserAgentFamily (ua : string) : string :=
  if String.eqb ua "" then "unknown"
  else match List.find (fun m => Contains (ToLower ua) m.1) uaFamilyMarkers with
       | Some m => m.2
       | None => "other"
       end.

(** ** The session of a request *)

(** A store that cannot be read gives an empty session under the presented id. *)
Definition load_session (sid : string) : S session :=
  try! v := query (fun db => default ∅ (cookies db !! sid)) in
  ret (match v with Ok ses => ses | Err _ => ∅ end).

(** [session.Save]: a session without an id gets [fresh]. *)
Definition save (sid fresh : string) (ses : session) : S unit :=
  stmt (fun db => Ok (tt, set_cookies (<[(if String.eqb sid "" then fresh else sid) := ses]> (cookies db)) db)).

(** [session.Clear], [session.Options(SessionClearOptions())] and [session.Save], whose
    error is dropped: a negative age removes the store's record. *)
Definition expire_session (sid : string) : S unit :=
  try! _ := stmt (fun db => Ok (tt, set_cookies (delete sid (cookies db)) db)) in
  ret tt.

Definition sessionRotatedAtKey : string := "session_rotated_at".

(** The id and the values the session has afterwards, and whether the call returned no
    error.  [supported]: the session object exposes its id; [fresh] is the id the store
    mints. *)
Definition RotateSessionID (e : sessenv) (supported : bool) (oldID fresh : string) (now : Z) (ses : session)
    : S (string * session * bool) :=
  if negb supported then ret (oldID, ∅, false)
  else
    let ses := <[sessionRotatedAtKey := SInt64 now]> ses in
    try! saved := save "" fresh ses in
    match saved with
    | Err _ => ret ("", ses, false)
    | Ok _ =>
        if String.eqb oldID "" || String.eqb oldID fresh then ret (fresh, ses, true)
        else
          let! _ := redisDeleteSessionKey e oldID in
          if SessionRegistryEnabled e then
            try! _ := RevokeUserSessionByKey oldID SessionRevokeReasonRotated now in
            ret (fresh, ses, true)
          else ret (fresh, ses, true)
    end.

(** ** Logins *)

Record user := mkUser {
  u_Id : Z;
  u_Username : string;
  u_Role : Z;
  u_Status : Z;
  u_Group : string
}.

Definition UserStatusEnabled : Z := 1.
Definition UserStatusDisabled : Z := 2.

Definition write_identity (u : user) (ses : session) : session :=
  <["group" := SString (u_Group u)]> (<["status" := SInt (u_Status u)]> (<["role" := SInt (u_Role u)]>
    (<["username" := SString (u_Username u)]> (<["id" := SInt (u_Id u)]> ses)))).

(** What a login presents: the id of its cookie, the id the store would mint and the
    second it arrives. *)
Record visit := mkVisit { v_sid : string; v_fresh : string; v_now : Z; v_supported : bool }.

(** The end of every login: a fresh id, the identity among the values the session
    already had, and the save.  The session id the browser holds afterwards. *)
Definition login_session (e : sessenv) (v : visit) (identity : session -> session) : S (option string) :=
  let! ses := load_session (v_sid v) in
  let! r := RotateSessionID e (v_supported v) (v_sid v) (v_fresh v) (v_now v) ses in
  let '(sid, ses, _) := r in
  try! saved := save sid (v_fresh v) (identity ses) in
  ret (match saved with Ok _ => Some (if String.eqb sid "" then v_fresh v else sid) | Err _ => None end).

(** Status and the session the browser holds.  [lookup] is [repo.GetUserById]. *)
Definition BridgeExchange (e : sessenv) (E2E_BRIDGE_TOKEN token user_id : string) (lookup : Z -> option user) (v : visit)
    : S (Z * option string) :=
  if String.eqb E2E_BRIDGE_TOKEN "" then ret (403, None)
  else if String.eqb token "" || negb (String.eqb token E2E_BRIDGE_TOKEN) then ret (403, None)
  else if String.eqb user_id "" then ret (400, None)
  else match Atoi user_id with
       | None => ret (400, None)
       | Some id =>
           if id <=? 0 then ret (400, None)
           else match lookup id with
                | None => ret (404, None)
                | Some u =>
                    if negb (u_Status u =? UserStatusEnabled) then ret (403, None)
                    else
                      let! sid := login_session e v (write_identity u) in
                      ret (match sid with Some _ => (200, sid) | None => (500, None) end)
                end
       end.

(** The end of [ZitaBootstrap], for the user found or created for the account. *)
Definition bootstrap_session (e : sessenv) (u : user) (accountID : Z) (tenantSlug : string) (v : visit) : S (Z * option string) :=
  if negb (u_Status u =? UserStatusEnabled) then ret (403, None)
  else
    let! sid := login_session e v (fun ses =>
      <["tenant_slug" := SString tenantSlug]> (<["identity_account_id" := SInt64 accountID]> (write_identity u ses))) in
    ret (match sid with Some _ => (200, sid) | None => (500, None) end).

(** The end of [OIDCCallback], after the token exchange. *)
Record tokens := mkTokens { access_token : string; refresh_token : string; id_token : string; expires_at : Z }.

Definition callback_session (e : sessenv) (u : user) (accountID : option Z) (tk : tokens) (tenantSlug : string) (v : visit)
    : S (Z * option string) :=
  let! sid := login_session e v (fun ses =>
    let ses := match accountID with Some a => <["identity_account_id" := SInt64 a]> ses | None => ses end in
    let ses := write_identity u (delete "oauth_nonce" (delete "pkce_code_verifier" ses)) in
    <["tenant_slug" := SString tenantSlug]> (<["oauth_token_expires_at" := SInt64 (expires_at tk)]>
      (<["oauth_id_token" := SString (id_token tk)]> (<["oauth_refresh_token" := SString (refresh_token tk)]>
        (<["oauth_access_token" := SString (access_token tk)]> ses))))) in
  match sid with
  | Some _ => let! _ := RecordAuditEvent ("auth.login_success", "oidc") in ret (302, sid)
  | None => ret (500, None)
  end.

(** ** Who is asking *)

Definition RoleCommonUser : Z := 1.
Definition RoleAdminUser : Z := 10.
Definition RoleRootUser : Z := 100.

Definition IsValidateRole (role : Z) : bool := existsb (Z.eqb role) [0; RoleCommonUser; 5; RoleAdminUser; RoleRootUser].

Definition validUserInfo (username : string) (role : Z) : bool :=
  negb (String.eqb (TrimSpace username) "") && IsValidateRole role.

(** The cached row of a user. *)
Record usercache := mkCache { k_Status : Z; k_Role : Z; k_TenantId : string }.

(** A request, with what other code resolves of it: the user of the platform cookie's
    account, of a platform session token and of an access token; the cached row of the
    user it turns out to be ([None]: not found or an error) and the tenant's gate. *)
Record request := mkReq {
  q_sid : string;
  q_fresh : string;
  q_supported : bool;
  q_Authorization : string;
  q_api_user : string;           (* lurus-api-User *)
  q_new_api_user : string;       (* New-Api-User *)
  q_ip : string;
  q_user_agent : string;
  q_bridge : option (Z * option user);
  q_platform : option user;
  q_access : option user;
  q_cache : Z -> option usercache;
  q_tenant_gate : string -> bool;
  q_time : Z                     (* the clock *)
}.

Inductive refusal :=
| NotAuthenticated             (* 401 *)
| InvalidToken                 (* 200 *)
| InvalidUserInfo              (* 200 *)
| UserHeader                   (* 401 *)
| InvalidSession               (* 401 *)
| SessionRevoked               (* 401 SESSION_REVOKED *)
| UserBanned                   (* 200 *)
| RoleTooLow                   (* 200 *)
| TenantDisabled.              (* 403 TENANT_DISABLED *)

(** What the handlers read from the context. *)
Record identity := mkIdentity {
  i_id : Z;
  i_username : string;
  i_role : Z;
  i_useAccessToken : bool;
  i_tenant : string
}.

Inductive verdict :=
| Pass (who : identity) (ses : session)
| Refuse (why : refusal).

(** The four session values a login writes, the session and its id, and whether they
    come from something else than the cookie. *)
Record claimed := mkClaimed {
  cl_username : option sval;
  cl_role : option sval;
  cl_id : option sval;
  cl_status : option sval;
  cl_ses : session;
  cl_sid : string;
  cl_token : bool;
  cl_healed : bool               (* sdkSelfHealed *)
}.

Definition claim_user (u : user) (ses : session) (sid : string) (healed : bool) : claimed :=
  mkClaimed (Some (SString (u_Username u))) (Some (SInt (u_Role u))) (Some (SInt (u_Id u))) (Some (SInt (u_Status u)))
    ses sid true healed.

(** The platform cookie: the account's user is written into the session. *)
Definition claim_bridge (e : sessenv) (q : request) (account : Z) (u : user) (ses : session) : S claimed :=
  let! r :=
    (if String.eqb (q_sid q) "" then ret (q_sid q, ses, true)
     else RotateSessionID e (q_supported q) (q_sid q) (q_fresh q) (time_Unix (q_time q)) ses) in
  let '(sid, ses, _) := r in
  let ses := <["identity_account_id" := SInt64 account]> (write_identity u ses) in
  try! saved := save sid (q_fresh q) ses in
  ret (claim_user u ses (if String.eqb sid "" then q_fresh q else sid) (is_ok saved)).

(** The [Authorization] header. *)
Definition claim_token (q : request) (ses : session) : S (claimed + refusal) :=
  if String.eqb (q_Authorization q) "" then
    let! _ := (if String.eqb (q_sid q) "" then ret tt else expire_session (q_sid q)) in
    ret (inr NotAuthenticated)
  else match q_platform q with
       | Some u => ret (inl (claim_user u ses (q_sid q) false))
       | None =>
           match q_access q with
           | Some u =>
               if String.eqb (u_Username u) "" then ret (inr InvalidToken)
               else if negb (validUserInfo (u_Username u) (u_Role u)) then ret (inr InvalidUserInfo)
               else ret (inl (claim_user u ses (q_sid q) false))
           | None => ret (inr InvalidToken)
           end
       end.

Definition bridge_user (q : request) : option (Z * user) :=
  match q_bridge q with
  | Some (account, Some u) =>
      if (account >? 0) && (u_Status u =? UserStatusEnabled) && validUserInfo (u_Username u) (u_Role u)
      then Some (account, u) else None
  | _ => None
  end.

Definition claim (e : sessenv) (q : request) (ses : session) : S (claimed + refusal) :=
  match ses !! "username" with
  | Some name =>
      ret (inl (mkClaimed (Some name) (ses !! "role") (ses !! "id") (ses !! "status") ses (q_sid q) false false))
  | None =>
      match bridge_user q with
      | Some (account, u) => let! c := claim_bridge e q account u ses in ret (inl c)
      | None => claim_token q ses
      end
  end.

Definition header_mismatch (q : request) (id : option sval) : bool :=
  let h := if String.eqb (q_api_user q) "" then q_new_api_user q else q_api_user q in
  if String.eqb h "" then false
  else match Atoi h with
       | None => true
       | Some n => match id with Some (SInt z) => negb (z =? n) | _ => true end
       end.

(** The revoked check of a cookie session; a failing lookup lets it through. *)
Definition revoked_session (e : sessenv) (c : claimed) : S bool :=
  if SessionRegistryEnabled e && negb (cl_token c) && negb (String.eqb (cl_sid c) "") then
    try! r := IsUserSessionRevoked (cl_sid c) in
    ret (match r with Ok b => b | Err _ => false end)
  else ret false.

(** Status, role, user name and tenant. *)
Definition authorise (q : request) (minRole userId : Z) (c : claimed) : identity + refusal :=
  let cache := q_cache q userId in
  let status := match cache with Some k => Some (SInt (k_Status k)) | None => cl_status c end in
  let role := match cache with Some k => if k_Role k >? 0 then Some (SInt (k_Role k)) else cl_role c | None => cl_role c end in
  match status with
  | Some (SInt statusVal) =>
      if statusVal =? UserStatusDisabled then inr UserBanned
      else match role with
           | Some (SInt roleVal) =>
               if roleVal <? minRole then inr RoleTooLow
               else match cl_username c with
                    | Some (SString name) =>
                        if negb (validUserInfo name roleVal) then inr InvalidUserInfo
                        else
                          let tenantId := match cache with
                                          | Some k => if String.eqb (k_TenantId k) "" then "default" else k_TenantId k
                                          | None => "default"
                                          end in
                          if negb (q_tenant_gate q tenantId) then inr TenantDisabled
                          else inl (mkIdentity userId name roleVal (cl_token c) tenantId)
                    | _ => inr InvalidSession
                    end
           | _ => inr InvalidSession
           end
  | _ => inr InvalidSession
  end.

(** The session follows the cache on the request that healed it. *)
Definition follow_cache (q : request) (userId : Z) (c : claimed) : S session :=
  match q_cache q userId with
  | Some k =>
      if cl_healed c && negb (k_Status k =? UserStatusEnabled) then
        let ses := <["status" := SInt (k_Status k)]> (cl_ses c) in
        try! _ := save (cl_sid c) (q_fresh q) ses in ret ses
      else ret (cl_ses c)
  | None => ret (cl_ses c)
  end.

Definition register_session (e : sessenv) (q : request) (c : claimed) (who : identity) : S unit :=
  if SessionRegistryEnabled e && negb (cl_token c) && negb (String.eqb (cl_sid c) "") then
    let now := time_Unix (q_time q) in
    try! _ := UpsertUserSessionSeen e (cl_sid c) (i_id who) (i_tenant who) (q_ip q) (q_user_agent q) "session" (q_time q) now now in
    ret tt
  else ret tt.

Definition resolveSessionIdentity (e : sessenv) (q : request) (minRole : Z) : S verdict :=
  let! ses := load_session (q_sid q) in
  let! c := claim e q ses in
  match c with
  | inr why => ret (Refuse why)
  | inl c =>
      if header_mismatch q (cl_id c) then ret (Refuse UserHeader)
      else match cl_id c with
           | Some (SInt userId) =>
               let! revoked := revoked_session e c in
               if revoked : bool then
                 let! _ := expire_session (cl_sid c) in ret (Refuse SessionRevoked)
               else
                 let! ses := follow_cache q userId c in
                 match authorise q minRole userId c with
                 | inr why => ret (Refuse why)
                 | inl who =>
                     let! _ := register_session e q c who in
                     ret (Pass who ses)
                 end
           | _ => ret (Refuse InvalidSession)
           end
  end.

(** ** Ending sessions *)

(** Status. *)
Definition RevokeCurrentSessionV2 (e : sessenv) (userID : Z) (sid : string) (now : Z) : S Z :=
  if userID =? 0 then ret 401
  else
    let! _ := expire_session sid in
    let! _ :=
      (if SessionRegistryEnabled e && negb (String.eqb sid "") then
         try! _ := RevokeUserSessionByKey sid SessionRevokeReasonLogout now in ret tt
       else ret tt) in
    ret 200.

Definition RevokeSessionByIDV2 (e : sessenv) (userID : Z) (sid param : string) (now : Z) : S Z :=
  if userID =? 0 then ret 401
  else if negb (SessionRegistryEnabled e) then ret 404
  else match Atoi param with
       | None => ret 400
       | Some id =>
           try! row := GetUserSessionByID id in
           match row with
           | Err _ => ret 500
           | Ok None => ret 404
           | Ok (Some row) =>
               if negb (s_UserId row =? userID) then ret 404
               else
                 try! r := RevokeUserSessionRow (s_Id row) SessionRevokeReasonUserRevoked now in
                 match r with
                 | Err _ => ret 500
                 | Ok _ =>
                     let! _ := redisDeleteSessionKey e (s_SessionKey row) in
                     let! _ := (if negb (String.eqb sid "") && String.eqb sid (s_SessionKey row) then expire_session sid else ret tt) in
                     let! _ := RecordAuditEvent (session_event (s_Id row) SessionRevokeReasonUserRevoked) in
                     ret 204
                 end
           end
       end.

(** Status and the number of sessions revoked. *)
Definition RevokeOtherSessionsV2 (e : sessenv) (userID : Z) (sid : string) (now : Z) : S (Z * Z) :=
  if userID =? 0 then ret (401, 0)
  else if negb (SessionRegistryEnabled e) then ret (409, 0)
  else
    try! rows := RevokeOtherUserSessions userID sid SessionRevokeReasonUserRevokedOthers now in
    match rows with
    | Err _ => ret (500, 0)
    | Ok rows =>
        let! _ := deleteSessionKeys e rows in
        let! _ := (match rows with
                   | [] => ret tt
                   | _ => RecordAuditEvent (ActionAuthSessionRevoked, SessionRevokeReasonUserRevokedOthers)
                   end) in
        ret (200, Z.of_nat (length rows))
    end.

(** [ZitaLogout] ends the session; its registry row stays. *)
Definition ZitaLogout (sid : string) : S unit :=
  let! _ := expire_session sid in RecordAuditEvent ("auth.logout", "zita-bridge").

(** [OIDCLogout]: the values go, the id stays. *)
Definition OIDCLogout (sid fresh : string) : S unit :=
  try! _ := save sid fresh ∅ in RecordAuditEvent ("auth.logout", "oidc").
End Registry.

#[global] Arguments sessdb R : clear implicits.

End Sessions.
