(* ===== verification/StepUp.v ===== *)
(** * The second factor and step-up verification

    Model of internal/app/totp/totp.go (the encrypted secret, recovery codes, single use
    of a code and the throttle on wrong ones), internal/adapter/repo/user_totp.go and
    user_totp_backup_code.go (their rows), the handlers of internal/adapter/handler/
    totp.go, secure_verification.go and v2_admin_security.go, and the gate of
    internal/adapter/middleware/secure_verification.go.

    Outside the program, and parameters here: the authenticated cipher ([AEAD], the Go
    interface), the check of a TOTP code at a time (pquerna/otp) and the random draws of
    recovery codes.  Redis and the sessions are those of [Sessions]; readings of the clock
    are arguments.  The two tables exist (the lazy migration is left out), as do the log
    lines and the notification of a force-disable. *)

From S2P Require Import Prelude GoStrings Sha256 Redis Sessions.

Module StepUp.
Import GoStrings Sha256 Sessions.

(** ** Encodings of the standard library *)

(** HMAC-SHA256, in hexadecimal: [common.GenerateHMAC] under the deployment's secret. *)
Definition hmac_key (key : list Z) : list Z :=
  let k := if (64 <? length key)%nat then sha256 key else key in
  k ++ replicate (64 - length k) 0.

Definition hmac_sha256 (key data : list Z) : list Z :=
  let k := hmac_key key in
  sha256 ((Z.lxor 92 <$> k) ++ sha256 ((Z.lxor 54 <$> k) ++ data)).

Definition GenerateHMAC (CryptoSecret data : string) : string :=
  EncodeToString (hmac_sha256 (bytes CryptoSecret) (bytes data)).

(** base64, the standard alphabet with padding. *)
Definition b64char (n : Z) : Z :=
  if n <? 26 then 65 + n else if n <? 52 then 71 + n else if n <? 62 then n - 4 else if n =? 62 then 43 else 47.

Definition b64value (c : Z) : option Z :=
  if (65 <=? c) && (c <=? 90) then Some (c - 65)
  else if (97 <=? c) && (c <=? 122) then Some (c - 71)
  else if (48 <=? c) && (c <=? 57) then Some (c + 4)
  else if c =? 43 then Some 62 else if c =? 47 then Some 63 else None.

Definition b64pad : Z := 61.

Fixpoint b64encode (bs : list Z) : list Z :=
  match bs with
  | [] => []
  | [a] => [b64char (a / 4); b64char (a mod 4 * 16); b64pad; b64pad]
  | [a; b] => [b64char (a / 4); b64char (a mod 4 * 16 + b / 16); b64char (b mod 16 * 4); b64pad]
  | a :: b :: c :: rest =>
      b64char (a / 4) :: b64char (a mod 4 * 16 + b / 16) :: b64char (b mod 16 * 4 + c / 64) :: b64char (c mod 64) :: b64encode rest
  end.

(** Groups of four; padding only at the end; the bits beyond the last byte are ignored. *)
Fixpoint b64decode (cs : list Z) : option (list Z) :=
  match cs with
  | [] => Some []
  | c1 :: c2 :: c3 :: c4 :: rest =>
      v1 ← b64value c1; v2 ← b64value c2;
      if (c3 =? b64pad) && (c4 =? b64pad) && bool_decide (rest = []) then Some [v1 * 4 + v2 / 16]
      else
        v3 ← b64value c3;
        if (c4 =? b64pad) && bool_decide (rest = []) then Some [v1 * 4 + v2 / 16; v2 mod 16 * 16 + v3 / 4]
        else
          v4 ← b64value c4; bs ← b64decode rest;
          Some (v1 * 4 + v2 / 16 :: v2 mod 16 * 16 + v3 / 4 :: v3 mod 4 * 64 + v4 :: bs)
  | _ => None
  end.

Definition newline (c : Z) : bool := (c =? 10) || (c =? 13).

Definition base64_EncodeToString (bs : list Z) : string := of_bytes (b64encode bs).

(** Line breaks are skipped. *)
Definition base64_DecodeString (s : string) : option (list Z) := b64decode (List.filter (fun c => negb (newline c)) (bytes s)).

(** [strings.ToUpper] as a comparison with ASCII text observes it. *)
Definition upper_rune (r : Z) : Z :=
  if (97 <=? r) && (r <=? 122) then r - 32
  else if r =? 305 then 73 else if r =? 383 then 83 else r.

Definition ToUpper (s : string) : string := string_of_runes (upper_rune <$> runes s).

(** [strconv.ParseBool]. *)
Definition ParseBool (s : string) : option bool :=
  if existsb (String.eqb s) ["1"; "t"; "T"; "TRUE"; "true"; "True"] then Some true
  else if existsb (String.eqb s) ["0"; "f"; "F"; "FALSE"; "false"; "False"] then Some false
  else None.

Definition GetEnvOrDefaultBool (value : string) (defaultValue : bool) : bool :=
  if String.eqb value "" then defaultValue else default defaultValue (ParseBool value).

(** ** The secret at rest *)

(** [cipher.AEAD]; [Seal] and [Open] without additional data. *)
Record AEAD := mkAEAD {
  NonceSize : nat;
  Seal : list Z -> list Z -> list Z;
  Open : list Z -> list Z -> option (list Z)
}.

(** The documented contract: opening what was sealed gives it back, and a sealed text
    is a sequence of bytes. *)
Definition is_bytes (bs : list Z) : Prop := Forall is_byte bs.

Record AEADLaws (c : AEAD) : Prop := {
  open_seal nonce p : is_bytes nonce -> length nonce = NonceSize c -> is_bytes p -> Open c nonce (Seal c nonce p) = Some p;
  seal_bytes nonce p : is_bytes nonce -> is_bytes p -> is_bytes (Seal c nonce p)
}.

Definition encVersionPrefix : string := "v1:".

Section Secret.
(** AES-256-GCM under a key of 32 bytes. *)
Context (gcm : list Z -> AEAD).

Definition gcmFromSecret (CryptoSecret : string) : AEAD := gcm (sha256 (bytes CryptoSecret)).

(** [nonce]: the random bytes read, [None] when the source fails. *)
Definition EncryptSecret (CryptoSecret : string) (nonce : option (list Z)) (plain : string) : option string :=
  let c := gcmFromSecret CryptoSecret in
  nonce ← nonce;
  Some (encVersionPrefix +:+ base64_EncodeToString (nonce ++ Seal c nonce (bytes plain))).

(** [None] is [ErrDecryptFailed]. *)
Definition DecryptSecret (CryptoSecret enc : string) : option string :=
  if negb (HasPrefix enc encVersionPrefix) then None
  else
    raw ← base64_DecodeString (TrimPrefix enc encVersionPrefix);
    let c := gcmFromSecret CryptoSecret in
    if (length raw <? NonceSize c)%nat then None
    else
      plain ← Open c (take (NonceSize c) raw) (drop (NonceSize c) raw);
      Some (of_bytes plain).
End Secret.

(** ** Recovery codes *)

Definition BackupCodeCount : nat := 10.
Definition backupCodeAlphabet : string := "ABCDEFGHJKMNPQRSTUVWXYZ23456789".

(** The draws of [rand.Int], each below the alphabet's length; [None] is an error. *)
Abbreviation draws := (list (option Z)).

Fixpoint draw_chars (n : nat) (ds : draws) : option (list Z * draws) :=
  match n with
  | O => Some ([], ds)
  | S n' =>
      match ds with
      | Some idx :: ds' =>
          b ← bytes backupCodeAlphabet !! Z.to_nat idx;
          '(bs, ds'') ← draw_chars n' ds';
          Some (b :: bs, ds'')
      | _ => None
      end
  end.

Definition generateOneBackupCode (ds : draws) : option (string * draws) :=
  '(b, ds') ← draw_chars 8 ds;
  Some (of_bytes (take 4 b) +:+ "-" +:+ of_bytes (drop 4 b), ds').

Fixpoint GenerateBackupCodes (n : nat) (ds : draws) : option (list string) :=
  match n with
  | O => Some []
  | S n' =>
      '(code, ds') ← generateOneBackupCode ds;
      codes ← GenerateBackupCodes n' ds';
      Some (code :: codes)
  end.

Definition dash : Z := 45.

Definition normalizeBackupCode (code : string) : string :=
  let trimmed := ToUpper (TrimSpace code) in
  let stripped := List.filter (fun r => negb ((r =? dash) || is_space r)) (runes trimmed) in
  if negb (length stripped =? 8)%nat then trimmed
  else string_of_runes (take 4 stripped) +:+ "-" +:+ string_of_runes (drop 4 stripped).

Definition HashBackupCode (userId : Z) (code : string) : string :=
  EncodeToString (sha256 (bytes (Itoa userId +:+ ":" +:+ normalizeBackupCode code))).

(** ** Rows *)

Record UserTOTP := mkTOTP {
  t_UserId : Z;
  t_SecretEncrypted : string;
  t_Enabled : bool;
  t_CreatedAt : Z;
  t_ConfirmedAt : Z
}.

Record UserTOTPBackupCode := mkCode {
  c_Id : Z;
  c_UserId : Z;
  c_CodeHash : string;
  c_CreatedAt : Z;
  c_UsedAt : Z
}.

(** The columns of [users] used here; the deleted rows are not in the map. *)
Record account := mkAccount {
  a_Username : string;
  a_Email : string;
  a_Status : Z;
  a_TenantId : string
}.

Section World.
Context {R : Type} `{RedisStrings R}.

Record world := mkWorld {
  totps : list UserTOTP;
  codes : list UserTOTPBackupCode;
  seq_code : Z;
  accounts : gmap Z account;
  memUsed : gmap string Z;            (* digest to the end of its block, nanoseconds *)
  memFails : gmap string (list Z);
  sess : sessdb R
}.

Definition set_totps (l : list UserTOTP) (w : world) : world :=
  mkWorld l (codes w) (seq_code w) (accounts w) (memUsed w) (memFails w) (sess w).
Definition set_codes (l : list UserTOTPBackupCode) (w : world) : world :=
  mkWorld (totps w) l (seq_code w) (accounts w) (memUsed w) (memFails w) (sess w).
Definition set_mem (used : gmap string Z) (fails : gmap string (list Z)) (w : world) : world :=
  mkWorld (totps w) (codes w) (seq_code w) (accounts w) used fails (sess w).
Definition set_sess (d : sessdb R) (w : world) : world :=
  mkWorld (totps w) (codes w) (seq_code w) (accounts w) (memUsed w) (memFails w) d.

Inductive step_err :=
| ErrStepDB
| ErrStepUnique.

#[export] Instance step_db_error : DbError step_err := ErrStepDB.

Abbreviation W A := (M world step_err A).

(** A computation on the sessions. *)
Definition on_sess {A} (m : M (sessdb R) sess_err A) : W A :=
  fun s =>
    let (r, s') := m (mkStore (sess (tables s)) (faults s)) in
    (match r with Ok a => Ok a | Err _ => Err ErrStepDB end, mkStore (set_sess (tables s') (tables s)) (faults s')).

(** Process memory, which does not fail. *)
Definition in_memory {A} (f : world -> A * world) : W A :=
  fun s => let (a, w) := f (tables s) in (Ok a, mkStore w (faults s)).

(** A Redis command. *)
Definition redis_cmd {A} (f : R -> A * R) : W A :=
  stmt (fun w => let (a, r) := f (redis (sess w)) in Ok (a, set_sess (set_redis r (sess w)) w)).

(** ** Tables *)

Definition totp_of (userId : Z) (r : UserTOTP) : bool := t_UserId r =? userId.
Definition code_of (userId : Z) (r : UserTOTPBackupCode) : bool := c_UserId r =? userId.
Definition unused (r : UserTOTPBackupCode) : bool := c_UsedAt r =? 0.

Definition GetUserTOTP (userId : Z) : W (option UserTOTP) := query (fun w => first_where (totp_of userId) (totps w)).

(** gorm keeps the creation time of a row it updates on a conflict. *)
Definition UpsertUserTOTP (rec : UserTOTP) : W unit :=
  stmt (fun w =>
    Ok (tt, set_totps
      (if existsb (totp_of (t_UserId rec)) (totps w) then
         update_where (totp_of (t_UserId rec)) (fun r =>
           mkTOTP (t_UserId rec) (t_SecretEncrypted rec) (t_Enabled rec) (t_CreatedAt r) (t_ConfirmedAt rec)) (totps w)
       else totps w ++ [rec]) w)).

Definition DeleteUserTOTP (userId : Z) : W unit :=
  stmt (fun w => Ok (tt, set_totps (List.filter (fun r => negb (totp_of userId r)) (totps w)) w)).

Definition delete_codes (userId : Z) : W unit :=
  stmt (fun w => Ok (tt, set_codes (List.filter (fun r => negb (code_of userId r)) (codes w)) w)).

(** The rows of one INSERT: ids in order, the unique index on the hash. *)
Fixpoint number_codes (id : Z) (rows : list UserTOTPBackupCode) : list UserTOTPBackupCode :=
  match rows with
  | [] => []
  | r :: rest => mkCode id (c_UserId r) (c_CodeHash r) (c_CreatedAt r) (c_UsedAt r) :: number_codes (id + 1) rest
  end.

Definition insert_backup_rows (rows : list UserTOTPBackupCode) : W unit :=
  stmt (fun w =>
    if bool_decide (NoDup (c_CodeHash <$> codes w ++ rows)) then
      Ok (tt, mkWorld (totps w) (codes w ++ number_codes (seq_code w) rows) (seq_code w + Z.of_nat (length rows))
                (accounts w) (memUsed w) (memFails w) (sess w))
    else Err ErrStepUnique).

Definition ReplaceUserTOTPBackupCodes (userId : Z) (rows : list UserTOTPBackupCode) : W unit :=
  transaction (
    let! _ := delete_codes userId in
    match rows with
    | [] => ret tt
    | _ => insert_backup_rows rows
    end).

Definition DeleteUserTOTPBackupCodes (userId : Z) : W unit := delete_codes userId.

Definition CountUnusedUserTOTPBackupCodes (userId : Z) : W Z :=
  query (fun w => Z.of_nat (affected (fun r => code_of userId r && unused r) (codes w))).

Definition set_used (at_ : Z) (r : UserTOTPBackupCode) : UserTOTPBackupCode :=
  mkCode (c_Id r) (c_UserId r) (c_CodeHash r) (c_CreatedAt r) at_.

Definition consumable (userId : Z) (codeHash : string) (r : UserTOTPBackupCode) : bool :=
  String.eqb (c_CodeHash r) codeHash && code_of userId r && unused r.

Definition ConsumeUserTOTPBackupCode (userId : Z) (codeHash : string) (usedAt : Z) : W bool :=
  stmt (fun w =>
    Ok (affected (consumable userId codeHash) (codes w) =? 1,
        set_codes (update_where (consumable userId codeHash) (set_used usedAt) (codes w)) w)%nat).

(** *** Adoption *)

Record TOTPAdoptionStats := mkStats { Enrolled : Z; Pending : Z; TotalUsers : Z; NoCodesIssued : Z; Exhausted : Z }.

Definition in_tenant (tenantID : string) (w : world) (userId : Z) : bool :=
  match accounts w !! userId with
  | Some a => String.eqb tenantID "" || String.eqb (a_TenantId a) tenantID
  | None => false
  end.

Definition enrolled_rows (tenantID : string) (on : bool) (w : world) : list UserTOTP :=
  List.filter (fun r => in_tenant tenantID w (t_UserId r) && Bool.eqb (t_Enabled r) on) (totps w).

Definition issued (w : world) (userId : Z) : list UserTOTPBackupCode := List.filter (code_of userId) (codes w).

Definition GetTOTPAdoptionStats (tenantID : string) : W TOTPAdoptionStats :=
  let! total := query (fun w => Z.of_nat (length (List.filter (in_tenant tenantID w) (map_to_list (accounts w)).*1))) in
  let! enrolled := query (fun w => Z.of_nat (length (enrolled_rows tenantID true w))) in
  let! pending := query (fun w => Z.of_nat (length (enrolled_rows tenantID false w))) in
  let! rows := query (fun w => (fun r => (length (issued w (t_UserId r)), affected unused (issued w (t_UserId r))))
                                 <$> enrolled_rows tenantID true w) in
  let none (r : nat * nat) := (r.1 =? 0)%nat in
  ret (mkStats enrolled pending total
         (Z.of_nat (length (List.filter none rows)))
         (Z.of_nat (length (List.filter (fun r => negb (none r) && (r.2 =? 0)%nat) rows)))).

(** ** Single use of a code *)

Definition replayTTL : Z := 90 * second.
Definition failWindow : Z := 5 * minute.
Definition failLimit : Z := 5.

Definition recent (now t : Z) : bool := time_Sub now t <? failWindow.

Definition sweepLocked (now : Z) (w : world) : world :=
  set_mem (filter (fun kv : string * Z => kv.2 >= now) (memUsed w))
          (omap (fun ts => nonempty (List.filter (recent now) ts)) (memFails w)) w.

Section Codes.
Context (e : sessenv) (CryptoSecret : string).

Definition used_digest (userId : Z) (code : string) : string :=
  GenerateHMAC CryptoSecret (Itoa userId +:+ ":" +:+ TrimSpace code).

(** [true] when this is the first use. *)
Definition MarkCodeUsed (userId : Z) (code : string) (now : Z) : W bool :=
  let digest := used_digest userId code in
  if RedisEnabled e then
    try! ok := redis_cmd (SETNX (unix_ms now) ("totp:used:" +:+ digest) "1" (replayTTL / 1000000)) in
    ret (match ok with Ok ok => ok | Err _ => false end)
  else
    in_memory (fun w =>
      let w := sweepLocked now w in
      match memUsed w !! digest with
      | Some _ => (false, w)
      | None => (true, set_mem (<[digest := time_Add now replayTTL]> (memUsed w)) (memFails w) w)
      end).

(** ** The throttle *)

Definition failKey (userId : Z) : string := "totp:fail:" +:+ Itoa userId.

Definition allowAttemptFromMemory (userId now : Z) : W bool :=
  in_memory (fun w =>
    let w := sweepLocked now w in
    (Z.of_nat (length (default [] (memFails w !! failKey userId))) <? failLimit, w)).

(** The error of [Atoi] is dropped. *)
Definition AllowAttempt (userId now : Z) : W bool :=
  if RedisEnabled e then
    try! v := redis_cmd (fun r => (GET (unix_ms now) (failKey userId) r, r)) in
    match v with
    | Ok None => ret true
    | Err _ => allowAttemptFromMemory userId now
    | Ok (Some v) => ret (Atoi_value v <? failLimit)
    end
  else allowAttemptFromMemory userId now.

Definition recordFailureInMemory (userId now : Z) : W unit :=
  in_memory (fun w =>
    let k := failKey userId in
    (tt, set_mem (memUsed w) (<[k := default [] (memFails w !! k) ++ [now]]> (memFails w)) w)).

Definition RecordFailure (userId now : Z) : W unit :=
  if RedisEnabled e then
    try! n := redis_cmd (INCR (unix_ms now) (failKey userId)) in
    match n with
    | Ok (Some n) =>
        if n =? 1 then
          try! _ := redis_cmd (fun r => (tt, SEXPIRE (unix_ms now) (failKey userId) (failWindow / 1000000) r)) in ret tt
        else ret tt
    | _ => recordFailureInMemory userId now
    end
  else recordFailureInMemory userId now.

Definition ClearFailures (userId now : Z) : W unit :=
  let! _ := in_memory (fun w => (tt, set_mem (memUsed w) (delete (failKey userId) (memFails w)) w)) in
  if RedisEnabled e then
    try! _ := redis_cmd (fun r => (tt, SDEL (unix_ms now) (failKey userId) r)) in ret tt
  else ret tt.
End Codes.

(** ** Step-up verification *)

Definition SecureVerificationSessionKey : string := "secure_verified_at".
Definition SecureVerificationTimeout : Z := 300.

Record UniversalVerifyRequest := mkVerify { v_Method : string; v_Code : string }.

(** The clock where the throttle is read, where the code is checked, marked and a failure
    or success recorded, and where the session is stamped. *)
Record ticks := mkTicks { k_attempt : Z; k_check : Z; k_mark : Z; k_record : Z; k_stamp : Z }.

(** The user and the session the authentication left. *)
Record ctx := mkCtx { x_id : Z; x_sid : string; x_fresh : string; x_ses : session }.

Inductive reply :=
| NotLoggedIn                          (* 401 *)
| ApiError                             (* 200, success false *)
| UserDisabled                         (* 403 *)
| TotpRequired                         (* 403 TOTP_REQUIRED *)
| Throttled                            (* 429 *)
| BadBackupCode                        (* 403 *)
| BadCode                              (* 403 *)
| Replayed                             (* 403 *)
| BadMethod                            (* 400 *)
| EnrollmentRequired                   (* 403 STEP_UP_ENROLLMENT_REQUIRED *)
| Verified (expires_at : Z) (totp_enrolled : bool).

Definition ActionAuthFailed : string := "auth.failed".
Definition ActionAuthLoginSuccess : string := "auth.login_success".
Definition ActionAuthStepUpNoCredential : string := "auth.stepup_without_credential".
Definition ActionUserSelfUpdated : string := "user.self_updated".
Definition ActionAuthTotpBackupRegenerated : string := "auth.totp_backup_regenerated".
Definition ActionTotpAdminDisabled : string := "auth.totp_admin_disabled".

Definition emit (action reason : string) : W unit := on_sess (RecordAuditEvent (action, reason)).

Section Handlers.
Context (e : sessenv) (CryptoSecret : string) (gcm : list Z -> AEAD).
(** pquerna/otp: whether a passcode is valid for a secret at a time. *)
Context (Validate : Z -> string -> string -> bool).
(** SECURE_VERIFICATION_REQUIRE_ENROLLMENT. *)
Context (REQUIRE_ENROLLMENT : string).

Definition secureVerificationRequireEnrollment : bool := GetEnvOrDefaultBool REQUIRE_ENROLLMENT false.

Definition ValidateCode (secret code : string) (now : Z) : bool :=
  let code := TrimSpace code in
  if String.eqb code "" then false else Validate now code secret.

(** The status [FillUserById] leaves: its query's errors are dropped. *)
Definition user_status (userId : Z) : W Z :=
  try! a := query (fun w => accounts w !! userId) in
  ret (match a with Ok (Some a) => a_Status a | _ => 0 end).

(** A wrong or replayed credential. *)
Definition fail_attempt (userId now : Z) (reason : string) (r : reply) : W (option reply) :=
  let! _ := RecordFailure e userId now in
  let! _ := emit ActionAuthFailed reason in
  ret (Some r).

Definition check_backup (userId : Z) (code : string) (k : ticks) : W (option reply) :=
  try! consumed := ConsumeUserTOTPBackupCode userId (HashBackupCode userId code) (time_Unix (k_check k)) in
  match consumed with
  | Err _ => ret (Some ApiError)
  | Ok false => fail_attempt userId (k_record k) "totp_backup_invalid_or_replayed" BadBackupCode
  | Ok true =>
      try! remaining := CountUnusedUserTOTPBackupCodes userId in
      match remaining with
      | Err _ => ret (Some ApiError)
      | Ok _ => ret None
      end
  end.

Definition check_totp (userId : Z) (rec : UserTOTP) (code : string) (k : ticks) : W (option reply) :=
  match DecryptSecret gcm CryptoSecret (t_SecretEncrypted rec) with
  | None => ret (Some ApiError)
  | Some secret =>
      if negb (ValidateCode secret code (k_check k)) then fail_attempt userId (k_record k) "totp_invalid_code" BadCode
      else
        let! first := MarkCodeUsed e CryptoSecret userId code (k_mark k) in
        if first : bool then ret None
        else fail_attempt userId (k_record k) "totp_code_replayed" Replayed
  end.

(** The enrolled arm: [None] when the credential was accepted. *)
Definition check_factor (userId : Z) (rec : UserTOTP) (req : UniversalVerifyRequest) (k : ticks) : W (option reply) :=
  if negb (String.eqb (v_Method req) "totp") && negb (String.eqb (v_Method req) "totp_backup") then ret (Some TotpRequired)
  else
    let! allowed := AllowAttempt e userId (k_attempt k) in
    if negb allowed then let! _ := emit ActionAuthFailed "totp_throttled" in ret (Some Throttled)
    else
      let! refused :=
        (if String.eqb (v_Method req) "totp_backup" then check_backup userId (v_Code req) k
         else check_totp userId rec (v_Code req) k) in
      match refused with
      | Some r => ret (Some r)
      | None =>
          let! _ := ClearFailures e userId (k_record k) in
          let! _ := (if String.eqb (v_Method req) "totp_backup" then emit ActionAuthLoginSuccess "totp_backup" else ret tt) in
          ret None
      end.

(** The arm of a user without the factor. *)
Definition check_session (req : UniversalVerifyRequest) : W (option reply) :=
  if negb (String.eqb (v_Method req) "session") then ret (Some BadMethod)
  else if secureVerificationRequireEnrollment then
    let! _ := emit ActionAuthFailed "enrollment_required" in ret (Some EnrollmentRequired)
  else
    let! _ := emit ActionAuthStepUpNoCredential "no_totp_enrollment" in ret None.

Definition stamp_session (x : ctx) (k : ticks) (enrolled : bool) : W reply :=
  let now := time_Unix (k_stamp k) in
  try! saved := on_sess (save (x_sid x) (x_fresh x) (<[SecureVerificationSessionKey := SInt64 now]> (x_ses x))) in
  ret (match saved with
       | Ok _ => Verified (i64_add now SecureVerificationTimeout) enrolled
       | Err _ => ApiError
       end).

Definition enrolled_rec (rec : option UserTOTP) : option UserTOTP :=
  match rec with Some r => if t_Enabled r then Some r else None | None => None end.

Definition with_default_method (req : UniversalVerifyRequest) : UniversalVerifyRequest :=
  if String.eqb (v_Method req) "" then mkVerify "session" (v_Code req) else req.

Definition UniversalVerify (x : ctx) (req : UniversalVerifyRequest) (k : ticks) : W reply :=
  if x_id x =? 0 then ret NotLoggedIn
  else
    let! status := user_status (x_id x) in
    if negb (status =? UserStatusEnabled) then ret UserDisabled
    else
      let req := with_default_method req in
      try! rec := GetUserTOTP (x_id x) in
      match rec with
      | Err _ => ret ApiError
      | Ok rec =>
          let! refused :=
            match enrolled_rec rec with
            | Some rec => check_factor (x_id x) rec req k
            | None => check_session req
            end in
          match refused with
          | Some r => ret r
          | None => stamp_session x k (bool_decide (is_Some (enrolled_rec rec)))
          end
      end.

(** *** The gate *)

Inductive gate :=
| GateOpen
| GateLogin                 (* 401 *)
| VERIFICATION_REQUIRED     (* 403 *)
| VERIFICATION_INVALID
| VERIFICATION_EXPIRED.

(** [session.Delete] of the stamp and [session.Save], whose error is dropped. *)
Definition drop_stamp (x : ctx) : W unit :=
  try! _ := on_sess (save (x_sid x) (x_fresh x) (delete SecureVerificationSessionKey (x_ses x))) in ret tt.

Definition elapsed_since (verifiedAt now : Z) : Z := i64_sub (time_Unix now) verifiedAt.

Definition SecureVerificationRequired (x : ctx) (now : Z) : W gate :=
  if x_id x =? 0 then ret GateLogin
  else match x_ses x !! SecureVerificationSessionKey with
       | None => ret VERIFICATION_REQUIRED
       | Some (SInt64 verifiedAt) =>
           if elapsed_since verifiedAt now >=? SecureVerificationTimeout then
             let! _ := drop_stamp x in ret VERIFICATION_EXPIRED
           else ret GateOpen
       | Some _ => let! _ := drop_stamp x in ret VERIFICATION_INVALID
       end.

(** The time of the verification, when there is a valid one. *)
Definition OptionalSecureVerification (x : ctx) (now : Z) : W (option Z) :=
  if x_id x =? 0 then ret None
  else match x_ses x !! SecureVerificationSessionKey with
       | Some (SInt64 verifiedAt) =>
           if elapsed_since verifiedAt now >=? SecureVerificationTimeout then let! _ := drop_stamp x in ret None
           else ret (Some verifiedAt)
       | _ => ret None
       end.

Definition ClearSecureVerification (x : ctx) : W unit := drop_stamp x.

Definition CheckSecureVerification (x : ctx) (now : Z) : W bool :=
  match x_ses x !! SecureVerificationSessionKey with
  | Some (SInt64 verifiedAt) =>
      if elapsed_since verifiedAt now >=? SecureVerificationTimeout then let! _ := drop_stamp x in ret false
      else ret true
  | _ => ret false
  end.

Record VerificationStatusResponse := mkStatus { vs_Verified : bool; vs_ExpiresAt : Z; vs_TotpEnrolled : bool; vs_EnrollmentRequired : bool }.

(** [None]: not logged in, or the database failed. *)
Definition GetVerificationStatus (x : ctx) (now : Z) : W (option VerificationStatusResponse) :=
  if x_id x =? 0 then ret None
  else
    try! rec := GetUserTOTP (x_id x) in
    match rec with
    | Err _ => ret None
    | Ok rec =>
        let enrolled := bool_decide (is_Some (enrolled_rec rec)) in
        let unverified := Some (mkStatus false 0 enrolled secureVerificationRequireEnrollment) in
        match x_ses x !! SecureVerificationSessionKey with
        | Some (SInt64 verifiedAt) =>
            if elapsed_since verifiedAt now >=? SecureVerificationTimeout then let! _ := drop_stamp x in ret unverified
            else ret (Some (mkStatus true (i64_add verifiedAt SecureVerificationTimeout) enrolled secureVerificationRequireEnrollment))
        | _ => ret unverified
        end
    end.

(** ** Enrolment *)

Inductive totp_reply :=
| T401
| T400
| T404
| T429
| TError                                   (* 200, success false *)
| TStatus (enrolled pending : bool) (backup_codes_remaining : Z)
| TSecret (secret url : string)
| TCodes (backup_codes : list string)
| TDone.

Definition GetTotpStatus (userId : Z) : W totp_reply :=
  if userId =? 0 then ret T401
  else
    try! rec := GetUserTOTP userId in
    match rec with
    | Err _ => ret TError
    | Ok None => ret (TStatus false false 0)
    | Ok (Some rec) =>
        if t_Enabled rec then
          try! n := CountUnusedUserTOTPBackupCodes userId in
          ret (match n with Ok n => TStatus true false n | Err _ => TError end)
        else ret (TStatus false true 0)
    end.

(** [generated]: the secret and the URL of [GenerateEnrollment] for the account's name;
    [nonce]: the random bytes of the encryption. *)
Definition TotpEnroll (userId : Z) (generated : string -> option (string * string)) (nonce : option (list Z)) (now : Z) : W totp_reply :=
  if userId =? 0 then ret T401
  else
    try! rec := GetUserTOTP userId in
    match rec with
    | Err _ => ret TError
    | Ok rec =>
        if bool_decide (is_Some (enrolled_rec rec)) then ret T400
        else
          try! a := query (fun w => accounts w !! userId) in
          let name := match a with Ok (Some a) => if String.eqb (a_Username a) "" then a_Email a else a_Username a | _ => "" end in
          match generated (if String.eqb name "" then "user" else name) with
          | None => ret TError
          | Some (secret, url) =>
              match EncryptSecret gcm CryptoSecret nonce secret with
              | None => ret TError
              | Some encrypted =>
                  try! r := UpsertUserTOTP (mkTOTP userId encrypted false now 0) in
                  ret (match r with Ok _ => TSecret secret url | Err _ => TError end)
              end
          end
    end.

Definition issueBackupCodes (userId : Z) (ds : draws) (now : Z) : W (list string) :=
  match GenerateBackupCodes BackupCodeCount ds with
  | None => throw ErrStepDB
  | Some cs =>
      let! _ := ReplaceUserTOTPBackupCodes userId ((fun c => mkCode 0 userId (HashBackupCode userId c) now 0) <$> cs) in
      ret cs
  end.

Definition TotpConfirm (userId : Z) (code : string) (ds : draws) (k : ticks) : W totp_reply :=
  if userId =? 0 then ret T401
  else if String.eqb code "" then ret T400
  else
    try! rec := GetUserTOTP userId in
    match rec with
    | Err _ => ret TError
    | Ok None => ret T400
    | Ok (Some rec) =>
        if t_Enabled rec then ret T400
        else
          let! allowed := AllowAttempt e userId (k_attempt k) in
          if negb allowed then ret T429
          else
            match DecryptSecret gcm CryptoSecret (t_SecretEncrypted rec) with
            | None => ret TError
            | Some secret =>
                let! ok :=
                  (if ValidateCode secret code (k_check k) then MarkCodeUsed e CryptoSecret userId code (k_mark k) else ret false) in
                if negb ok then
                  let! _ := RecordFailure e userId (k_record k) in
                  let! _ := emit ActionAuthFailed "invalid_code" in
                  ret T400
                else
                  let! _ := ClearFailures e userId (k_record k) in
                  try! backup := issueBackupCodes userId ds (time_Unix (k_stamp k)) in
                  match backup with
                  | Err _ => ret TError
                  | Ok backup =>
                      try! r := UpsertUserTOTP (mkTOTP (t_UserId rec) (t_SecretEncrypted rec) true (t_CreatedAt rec) (time_Unix (k_stamp k))) in
                      match r with
                      | Err _ => ret TError
                      | Ok _ => let! _ := emit ActionUserSelfUpdated "totp_enrolled" in ret (TCodes backup)
                      end
                  end
            end
    end.

Definition RegenerateTotpBackupCodes (userId : Z) (ds : draws) (now : Z) : W totp_reply :=
  if userId =? 0 then ret T401
  else
    try! rec := GetUserTOTP userId in
    match rec with
    | Err _ => ret TError
    | Ok rec =>
        match enrolled_rec rec with
        | None => ret T400
        | Some _ =>
            try! backup := issueBackupCodes userId ds now in
            match backup with
            | Err _ => ret TError
            | Ok backup => let! _ := emit ActionAuthTotpBackupRegenerated "" in ret (TCodes backup)
            end
        end
    end.

(** The enrolment and then the codes, two statements of their own. *)
Definition remove_factor (userId : Z) (missing : totp_reply) (action : string) : W totp_reply :=
  try! rec := GetUserTOTP userId in
  match rec with
  | Err _ => ret TError
  | Ok None => ret missing
  | Ok (Some _) =>
      try! r := DeleteUserTOTP userId in
      match r with
      | Err _ => ret TError
      | Ok _ =>
          try! r := DeleteUserTOTPBackupCodes userId in
          match r with
          | Err _ => ret TError
          | Ok _ => let! _ := emit action "totp_disabled" in ret TDone
          end
      end
  end.

Definition TotpDisable (userId : Z) : W totp_reply :=
  if userId =? 0 then ret T401 else remove_factor userId T400 ActionUserSelfUpdated.

Definition ForceDisableTotpV2 (param reason : string) : W totp_reply :=
  match Atoi param with
  | None => ret T400
  | Some targetID =>
      if targetID <=? 0 then ret T400
      else
        let reason := TrimSpace reason in
        if String.eqb reason "" || (200 <? RuneCountInString reason)%nat then ret T400
        else remove_factor targetID T404 ActionTotpAdminDisabled
  end.
End Handlers.
End World.

#[global] Arguments world R : clear implicits.
#[global] Arguments GenerateHMAC : simpl never.
#[global] Arguments HashBackupCode : simpl never.
#[global] Arguments used_digest : simpl never.
#[global] Arguments failKey : simpl never.
#[global] Arguments DecryptSecret : simpl never.
#[global] Arguments GenerateBackupCodes : simpl never.
End StepUp.
