(* ===== verification/StepUpSpec.v ===== *)
(** * What the second factor guarantees

    Theorems on [StepUp] and [Sessions]: what a step-up verification needs, that a code
    passes once, how many guesses there are, that an enabled factor has its recovery
    codes, and what a session keeps across logins. *)

From S2P Require Import Prelude Wp GoStrings Sha256 Redis Sessions StepUp.

Section StepUpSpec.
Import GoStrings Sha256 Sessions StepUp.
Context {R : Type} `{RL : RedisStringLaws R}.
Implicit Types (w : world R).

#[local] Opaque used_digest HashBackupCode DecryptSecret.

(** ** Rules *)

Lemma wp_in_memory {A} (f : world R -> A * world R) Q w : Q (Ok (f w).1) (f w).2 -> wp (in_memory f) Q w.
Proof. intros HQ fs. unfold in_memory. cbn. by destruct (f w). Qed.

Lemma wp_redis {A} (f : R -> A * R) Q w :
  Q (Err ErrStepDB) w -> Q (Ok (f (redis (sess w))).1) (set_sess (set_redis (f (redis (sess w))).2 (sess w)) w) ->
  wp (redis_cmd f) Q w.
Proof. intros He HQ. apply wp_stmt; [done|]. by destruct (f _). Qed.

Lemma wp_on_sess {A} (m : M (sessdb R) sess_err A) Q w :
  wp m (fun r d => Q (match r with Ok a => Ok a | Err _ => Err ErrStepDB end) (set_sess d w)) (sess w) ->
  wp (on_sess m) Q w.
Proof.
  intros Hw fs. specialize (Hw fs). unfold on_sess. cbn.
  by destruct (m _) as [r [d fs']].
Qed.

Lemma wp_local {A} (f : sessdb R -> A * sessdb R) Q d : Q (Ok (f d).1) (f d).2 -> wp (local f) Q d.
Proof. intros HQ fs. unfold local. cbn. by destruct (f d). Qed.

(** ** What the throttle leaves alone *)

(** The tables and the sessions of [w] and [w'] are the same; Redis and the maps of the
    process may differ. *)
Record frame w w' : Prop := {
  f_totps : totps w' = totps w;
  f_codes : codes w' = codes w;
  f_seq : seq_code w' = seq_code w;
  f_accounts : accounts w' = accounts w;
  f_cookies : cookies (sess w') = cookies (sess w);
  f_registry : registry (sess w') = registry (sess w)
}.

#[local] Instance frame_refl : Reflexive frame.
Proof. by split. Qed.

#[local] Instance frame_trans : Transitive frame.
Proof. intros w1 w2 w3 [] []. split; congruence. Qed.

(** The code of a user is spent at [t]. *)
Definition blocked (e : sessenv) (CryptoSecret : string) (userId : Z) (code : string) (t : Z) w : Prop :=
  let digest := used_digest CryptoSecret userId code in
  if RedisEnabled e then peeks (unix_ms t) ("totp:used:" +:+ digest) (redis (sess w)) <> None
  else exists x, memUsed w !! digest = Some x /\ t <= x.

Lemma blocked_code e CryptoSecret userId code code' t w :
  TrimSpace code = TrimSpace code' -> blocked e CryptoSecret userId code t w -> blocked e CryptoSecret userId code' t w.
Proof.
  #[local] Transparent used_digest.
  unfold blocked, used_digest. by intros ->.
  #[local] Opaque used_digest.
Qed.

Section Throttle.
Context (e : sessenv) (CryptoSecret : string).

Lemma AllowAttempt_frame userId now w :
  wp (AllowAttempt e userId now) (fun r w' => is_ok r = true /\ frame w w' /\
    redis (sess w') = redis (sess w) /\
    (memUsed w' = memUsed w \/ memUsed w' = filter (fun kv : string * Z => kv.2 >= now) (memUsed w))) w.
Proof.
  assert (Hm : forall w', w' = w -> wp (allowAttemptFromMemory userId now) (fun r w' => is_ok r = true /\ frame w w' /\
    redis (sess w') = redis (sess w) /\
    (memUsed w' = memUsed w \/ memUsed w' = filter (fun kv : string * Z => kv.2 >= now) (memUsed w))) w').
  { intros w' ->. apply wp_in_memory. cbn. split; [done|]. split; [by split|]. eauto. }
  unfold AllowAttempt. destruct (RedisEnabled e); [|by apply Hm].
  apply wp_catch, wp_redis; [by apply Hm|]. cbn [fst snd].
  assert (Hf : frame w (set_sess (set_redis (redis (sess w)) (sess w)) w)) by by split.
  destruct (GET _ _ _); apply wp_ret; split_and!; eauto.
Qed.

Lemma RecordFailure_frame userId now w :
  wp (RecordFailure e userId now) (fun r w' => r = Ok tt /\ frame w w' /\ memUsed w' = memUsed w) w.
Proof.
  assert (Hm : forall w', frame w w' -> memUsed w' = memUsed w ->
    wp (recordFailureInMemory userId now) (fun r w' => r = Ok tt /\ frame w w' /\ memUsed w' = memUsed w) w').
  { intros w' Hf Hu. apply wp_in_memory. cbn. split_and!; [done|by etrans|done]. }
  unfold RecordFailure. destruct (RedisEnabled e); [|by apply Hm].
  apply wp_catch, wp_redis; [by apply Hm|]. cbn [fst snd].
  set (w1 := set_sess _ w). assert (H1 : frame w w1) by by split.
  destruct (INCR _ _ _).1 as [n|]; [|by apply Hm].
  destruct (n =? 1); [|by apply wp_ret].
  apply wp_catch, wp_redis; apply wp_ret; cbn; split_and!; (done || (etrans; [exact H1|by split])).
Qed.

Lemma ClearFailures_frame userId now w :
  wp (ClearFailures e userId now) (fun r w' => r = Ok tt /\ frame w w' /\ memUsed w' = memUsed w) w.
Proof.
  unfold ClearFailures. apply wp_bind, wp_in_memory. cbn [fst snd].
  set (w1 := set_mem _ _ w). assert (H1 : frame w w1) by by split.
  destruct (RedisEnabled e); [|by apply wp_ret].
  apply wp_catch, wp_redis; apply wp_ret; cbn; split_and!; (done || (etrans; [exact H1|by split])).
Qed.

(** A first use was not blocked. *)
Lemma MarkCodeUsed_frame userId code now w :
  wp (MarkCodeUsed e CryptoSecret userId code now) (fun r w' => frame w w' /\
    (r = Ok false \/ r = Ok true /\ ~ blocked e CryptoSecret userId code now w)) w.
Proof.
  unfold MarkCodeUsed, blocked. destruct (RedisEnabled e) eqn:Hr.
  - apply wp_catch, wp_redis; apply wp_ret; [split; [by split|by left]|]. cbn [fst snd]. split; [by split|].
    set (k := _ +:+ _). destruct (peeks (unix_ms now) k (redis (sess w))) as [v|] eqn:Hp.
    + left. destruct (setnx_taken (unix_ms now) k "1" (replayTTL / 1000000) (redis (sess w))) as [-> _]; [by rewrite Hp|done].
    + destruct (SETNX _ _ _ _ _).1; [right; tauto|by left].
  - apply wp_in_memory. set (d := used_digest CryptoSecret userId code). cbn.
    set (used := filter _ (memUsed w)). destruct (used !! d) as [x|] eqn:Hd; cbn; (split; [by split|]); [by left|right].
    split; [done|]. intros (x & Hx & Hle).
    eapply map_lookup_filter_None in Hd as [Hd|Hd]; [congruence|]. specialize (Hd x Hx). cbn in Hd. lia.
Qed.
End Throttle.

Lemma wp_emit action reason Q w :
  (forall w', frame w w' -> redis (sess w') = redis (sess w) -> memUsed w' = memUsed w -> memFails w' = memFails w ->
    audit (sess w') = (action, reason) :: audit (sess w) -> Q (Ok tt) w') ->
  wp (emit action reason) Q w.
Proof. intros HQ. apply wp_on_sess, wp_local. by apply HQ. Qed.

Lemma check_session_allows REQUIRE_ENROLLMENT req w :
  wp (check_session REQUIRE_ENROLLMENT req) (fun r w' =>
    cookies (sess w') = cookies (sess w) /\ exists rep, r = Ok rep /\
    (rep = None -> v_Method req = "session" /\ secureVerificationRequireEnrollment REQUIRE_ENROLLMENT = false /\
       audit (sess w') = (ActionAuthStepUpNoCredential, "no_totp_enrollment") :: audit (sess w)) /\
    (forall x b, rep <> Some (Verified x b))) w.
Proof.
  unfold check_session. destruct (String.eqb_spec (v_Method req) "session") as [Hm|Hm]; cbn [negb]; [|apply wp_ret; naive_solver].
  destruct (secureVerificationRequireEnrollment _) eqn:He.
  all: apply wp_bind, wp_emit; intros w1 Hf _ _ _ Ha; apply wp_ret; (split; [by rewrite (f_cookies _ _ Hf)|]).
  - naive_solver.
  - eexists. split; [done|]. split; [|done]. by intros _.
Qed.

Section Verify.
Context (e : sessenv) (CryptoSecret : string) (gcm : list Z -> AEAD).
Context (Validate : Z -> string -> string -> bool).

Definition ordered (k : ticks) : Prop :=
  k_attempt k <= k_check k <= k_mark k /\ k_mark k <= k_record k <= k_stamp k.

(** A recovery code of the user that is not used, spent by the request. *)
Definition spends_backup (userId : Z) (code : string) (used_at : Z) w w' : Prop :=
  let P r := String.eqb (c_CodeHash r) (HashBackupCode userId code) && (c_UserId r =? userId) && (c_UsedAt r =? 0) in
  affected P (codes w) = 1%nat /\ codes w' = update_where P (set_used used_at) (codes w).

(** A code that is valid when it is checked and was not spent. *)
Definition spends_totp (userId : Z) (rec : UserTOTP) (code : string) (k : ticks) w : Prop :=
  exists secret, DecryptSecret gcm CryptoSecret (t_SecretEncrypted rec) = Some secret /\
    ValidateCode Validate secret code (k_check k) = true /\ ~ blocked e CryptoSecret userId code (k_mark k) w.

Definition refused_none (r : result step_err (option reply)) : bool :=
  match r with Ok None => true | _ => false end.

Lemma fail_attempt_refuses userId now reason rep w :
  wp (fail_attempt e userId now reason rep) (fun r w' => r = Ok (Some rep) /\ frame w w') w.
Proof.
  unfold fail_attempt. apply wp_bind. wp_use RecordFailure_frame as (-> & Hf & _).
  apply wp_bind, wp_emit. intros w2 H2 _ _ _ _. apply wp_ret. split; [done|by etrans].
Qed.

Lemma check_backup_spends userId code k w :
  wp (check_backup e userId code k) (fun r w' =>
    cookies (sess w') = cookies (sess w) /\ exists rep, r = Ok rep /\
    (rep = None -> spends_backup userId code (time_Unix (k_check k)) w w') /\
    (forall x b, rep <> Some (Verified x b))) w.
Proof.
  unfold check_backup. apply wp_catch, wp_stmt; [apply wp_ret; naive_solver|].
  set (P := consumable _ _). set (w1 := set_codes _ w).
  destruct (affected P (codes w) =? 1)%nat eqn:Ha; cbv beta iota.
  - apply wp_catch, wp_query; apply wp_ret; (split; [done|]).
    + naive_solver.
    + eexists. split; [done|]. split; [|done]. intros _. split; [by apply Nat.eqb_eq|done].
  - wp_use fail_attempt_refuses as [-> Hf]. split; [by rewrite (f_cookies _ _ Hf)|naive_solver].
Qed.

Lemma check_totp_spends userId rec code k w :
  wp (check_totp e CryptoSecret gcm Validate userId rec code k) (fun r w' =>
    cookies (sess w') = cookies (sess w) /\ exists rep, r = Ok rep /\
    (rep = None -> spends_totp userId rec code k w) /\
    (forall x b, rep <> Some (Verified x b))) w.
Proof.
  unfold check_totp. destruct (DecryptSecret _ _ _) as [secret|] eqn:Hd; [|apply wp_ret; naive_solver].
  destruct (ValidateCode _ _ _ _) eqn:Hv; cbn [negb].
  - apply wp_bind. wp_use MarkCodeUsed_frame as [Hf [->|[-> Hb]]].
    + wp_use fail_attempt_refuses as [-> Hf']. split; [by rewrite (f_cookies _ _ Hf'), (f_cookies _ _ Hf)|naive_solver].
    + apply wp_ret. split; [by rewrite (f_cookies _ _ Hf)|]. eexists. split; [done|]. split; [|done]. intros _. by exists secret.
  - wp_use fail_attempt_refuses as [-> Hf]. split; [by rewrite (f_cookies _ _ Hf)|naive_solver].
Qed.

Lemma blocked_swept userId code t now w w1 :
  now <= t -> redis (sess w1) = redis (sess w) ->
  memUsed w1 = memUsed w \/ memUsed w1 = filter (fun kv : string * Z => kv.2 >= now) (memUsed w) ->
  blocked e CryptoSecret userId code t w -> blocked e CryptoSecret userId code t w1.
Proof.
  intros Ht Hr Hm. unfold blocked. destruct (RedisEnabled e); [by rewrite Hr|].
  intros (x & Hx & Hle). exists x. split; [|done]. destruct Hm as [->| ->]; [done|].
  apply map_lookup_filter_Some. cbn. split; [done|lia].
Qed.

(** What an accepted credential is, for a user with the factor. *)
Definition spends (userId : Z) (rec : UserTOTP) (req : UniversalVerifyRequest) (k : ticks) w w' : Prop :=
  v_Method req = "totp" /\ spends_totp userId rec (v_Code req) k w \/
  v_Method req = "totp_backup" /\ spends_backup userId (v_Code req) (time_Unix (k_check k)) w w'.

Lemma check_factor_spends userId rec req k w :
  ordered k ->
  wp (check_factor e CryptoSecret gcm Validate userId rec req k) (fun r w' =>
    cookies (sess w') = cookies (sess w) /\ exists rep, r = Ok rep /\
    (rep = None -> spends userId rec req k w w') /\
    (forall x b, rep <> Some (Verified x b))) w.
Proof.
  intros Hk. unfold check_factor, spends.
  destruct (String.eqb_spec (v_Method req) "totp") as [Hm|Hm]; [|destruct (String.eqb_spec (v_Method req) "totp_backup") as [Hb|Hb]].
  3:{ apply wp_ret. naive_solver. }
  all: cbn [negb andb]; apply wp_bind; wp_use AllowAttempt_frame as (Hok & Hf & Hr & Hu); destruct r as [allowed|]; [|done].
  all: destruct allowed; cbn [negb]; [|apply wp_bind, wp_emit; intros w2 H2 _ _ _ _; apply wp_ret;
         split; [by rewrite (f_cookies _ _ H2), (f_cookies _ _ Hf)|naive_solver]].
  - rewrite Hm. cbn [String.eqb Ascii.eqb Bool.eqb]. apply wp_bind. wp_use check_totp_spends as (Hc & rep & -> & Hn & Hv).
    destruct rep as [rep|]; [apply wp_ret; split; [by rewrite Hc, (f_cookies _ _ Hf)|naive_solver]|].
    apply wp_bind. wp_use ClearFailures_frame as (-> & Hf2 & _). apply wp_bind, wp_ret, wp_ret.
    split; [by rewrite (f_cookies _ _ Hf2), Hc, (f_cookies _ _ Hf)|]. eexists. split; [done|]. split; [|done]. intros _. left.
    split; [done|]. destruct (Hn eq_refl) as (secret & Hd & Hval & Hnb). exists secret. split_and!; [done..|].
    intros Hbl. apply Hnb. eapply blocked_swept; [|done..]. unfold ordered in Hk. lia.
  - rewrite Hb. cbn [String.eqb Ascii.eqb Bool.eqb]. apply wp_bind. wp_use check_backup_spends as (Hc & rep & -> & Hn & Hv).
    destruct rep as [rep|]; [apply wp_ret; split; [by rewrite Hc, (f_cookies _ _ Hf)|naive_solver]|].
    apply wp_bind. wp_use ClearFailures_frame as (-> & Hf2 & _). apply wp_bind, wp_emit. intros w3 H3 _ _ _ _. apply wp_ret.
    split; [by rewrite (f_cookies _ _ H3), (f_cookies _ _ Hf2), Hc, (f_cookies _ _ Hf)|]. eexists. split; [done|]. split; [|done]. intros _. right.
    split; [done|]. destruct (Hn eq_refl) as [Ha Hcs]. unfold spends_backup.
    by rewrite (f_codes _ _ H3), (f_codes _ _ Hf2), Hcs, (f_codes _ _ Hf) in *.
Qed.

(** SECURE_VERIFICATION_REQUIRE_ENROLLMENT. *)
Context (REQUIRE_ENROLLMENT : string).

(** What a verification rests on: with the factor, a credential spent by this request;
    without it, nothing, as long as that is allowed, and then an audit event. *)
Definition credential (userId : Z) (req : UniversalVerifyRequest) (k : ticks) (enrolled : bool) w w' : Prop :=
  match enrolled_rec (first_where (totp_of userId) (totps w)) with
  | Some rec => enrolled = true /\ spends userId rec req k w w'
  | None =>
      enrolled = false /\ (v_Method req = "" \/ v_Method req = "session") /\
      secureVerificationRequireEnrollment REQUIRE_ENROLLMENT = false /\
      audit (sess w') = (ActionAuthStepUpNoCredential, "no_totp_enrollment") :: audit (sess w)
  end.

(** The session is stamped with the second of the verification, and no other changes. *)
Definition stamped (x : ctx) (k : ticks) w w' : Prop :=
  cookies (sess w') =
    <[(if String.eqb (x_sid x) "" then x_fresh x else x_sid x) :=
       <[SecureVerificationSessionKey := SInt64 (time_Unix (k_stamp k))]> (x_ses x)]> (cookies (sess w)).

Lemma stamp_session_stamps x k enrolled w :
  wp (stamp_session x k enrolled) (fun r w' =>
    r = Ok (Verified (i64_add (time_Unix (k_stamp k)) SecureVerificationTimeout) enrolled) /\
      codes w' = codes w /\ audit (sess w') = audit (sess w) /\ stamped x k w w' \/
    r = Ok ApiError /\ cookies (sess w') = cookies (sess w)) w.
Proof.
  unfold stamp_session. apply wp_catch, wp_on_sess, wp_stmt; apply wp_ret; [by right|]. by left.
Qed.

(** With the factor, a spent credential stays spent while the session is stamped. *)
Lemma spends_codes userId rec req k w w1 w2 :
  codes w2 = codes w1 -> spends userId rec req k w w1 -> spends userId rec req k w w2.
Proof. intros Hc [?|[? [? ?]]]; [by left|]. right. unfold spends_backup. by rewrite Hc. Qed.

Definition verified (x : ctx) (req : UniversalVerifyRequest) (k : ticks) w (r : result step_err reply) w' : Prop :=
  match r with
  | Ok (Verified expires_at enrolled) =>
      (exists a, accounts w !! x_id x = Some a /\ a_Status a = UserStatusEnabled) /\
      credential (x_id x) req k enrolled w w' /\ stamped x k w w' /\
      expires_at = i64_add (time_Unix (k_stamp k)) SecureVerificationTimeout
  | _ => cookies (sess w') = cookies (sess w)
  end.

Lemma verify_wp x req k w :
  ordered k -> wp (UniversalVerify e CryptoSecret gcm Validate REQUIRE_ENROLLMENT x req k) (verified x req k w) w.
Proof.
  intros Hk. unfold UniversalVerify, verified.
  destruct (x_id x =? 0); [by apply wp_ret|].
  apply wp_bind. unfold user_status. apply wp_catch, wp_query; apply wp_ret; [by apply wp_ret|].
  destruct (accounts w !! x_id x) as [a|] eqn:Ha; [|by apply wp_ret].
  destruct (Z.eqb_spec (a_Status a) UserStatusEnabled) as [Hs|Hs]; cbn [negb]; [|by apply wp_ret].
  apply wp_catch, wp_query; [by apply wp_ret|]. apply wp_bind. unfold credential.
  destruct (enrolled_rec (first_where (totp_of (x_id x)) (totps w))) as [rec|] eqn:Hrec; cbn [is_Some].
  - wp_use check_factor_spends as (Hc & rep & -> & Hn & Hv); [done|].
    destruct rep as [rep|]; [apply wp_ret; destruct rep; try done; by edestruct Hv|].
    rewrite bool_decide_eq_true_2 by eauto. wp_use stamp_session_stamps as [(-> & Hcs & _ & Hst)|[-> Hcs]]; [|by rewrite Hcs].
    split_and!; [by eauto|done| |by unfold stamped in *; rewrite <- Hc|done].
    eapply spends_codes; [exact Hcs|]. specialize (Hn eq_refl). unfold with_default_method in Hn.
    destruct (String.eqb_spec (v_Method req) ""); [|done]. destruct Hn as [[? _]|[? _]]; done.
  - wp_use check_session_allows as (Hc & rep & -> & Hn & Hv).
    destruct rep as [rep|]; [apply wp_ret; destruct rep; try done; by edestruct Hv|].
    rewrite bool_decide_eq_false_2 by (by intros [? ?]).
    wp_use stamp_session_stamps as [(-> & _ & Hau & Hst)|[-> Hcs]]; [|by rewrite Hcs].
    destruct (Hn eq_refl) as (Hm & Hreq & Haud).
    split_and!; [by eauto|done| |done|by rewrite Hau|by unfold stamped in *; rewrite <- Hc|done].
    unfold with_default_method in Hm. destruct (String.eqb_spec (v_Method req) ""); eauto.
Qed.

(** C20. A step-up verification succeeds only for an enabled account, and for a user with
    the factor only when the request itself spends a credential: a code valid when it was
    checked and not yet used, or exactly one unused recovery code, which is marked used.
    Without the factor it succeeds only where that is allowed and hands an event to the
    audit.  A success stamps the session of the request and no other; any other answer
    changes no session, whatever fails. *)
Theorem step_up_needs_credential x req k s r s' :
  ordered k ->
  UniversalVerify e CryptoSecret gcm Validate REQUIRE_ENROLLMENT x req k s = (r, s') ->
  match r with
  | Ok (Verified expires_at enrolled) =>
      (exists a, accounts (tables s) !! x_id x = Some a /\ a_Status a = UserStatusEnabled) /\
      credential (x_id x) req k enrolled (tables s) (tables s') /\
      stamped x k (tables s) (tables s') /\
      expires_at = i64_add (time_Unix (k_stamp k)) SecureVerificationTimeout
  | _ => cookies (sess (tables s')) = cookies (sess (tables s))
  end.
Proof. intros Hk He. exact (wp_run _ _ _ _ _ (verify_wp x req k (tables s) Hk) He). Qed.
End Verify.

(** ** A code passes once *)

(** The time step of a code, thirty seconds each. *)
Definition time_step (t : Z) : Z := time_Unix t / 30.

Lemma unix_ms_mono t t' : t <= t' -> unix_ms t <= unix_ms t'.
Proof. intros Ht. unfold unix_ms. assert (t / 1000000 <= t' / 1000000) by (apply Z.div_le_mono; lia). lia. Qed.

(** The block of a code lasts at least until the third step from now. *)
Lemma block_covers now t :
  time_step t < time_step now + 3 -> unix_ms t < unix_ms now + replayTTL / 1000000 /\ t <= time_Add now replayTTL.
Proof.
  unfold time_step, time_Unix, unix_ms, time_Add, replayTTL, second. intros Ht.
  assert (t / 1000000000 = t / 1000000 / 1000) as E1 by (by rewrite Z.div_div by lia).
  assert (now / 1000000000 = now / 1000000 / 1000) as E2 by (by rewrite Z.div_div by lia).
  pose proof (Z.div_mod t 1000000 ltac:(lia)). pose proof (Z.mod_pos_bound t 1000000 ltac:(lia)).
  pose proof (Z.div_mod now 1000000 ltac:(lia)). pose proof (Z.mod_pos_bound now 1000000 ltac:(lia)).
  rewrite E1, E2 in Ht. set (a := t / 1000000) in *. set (b := now / 1000000) in *.
  pose proof (Z.div_mod a 1000 ltac:(lia)). pose proof (Z.mod_pos_bound a 1000 ltac:(lia)).
  pose proof (Z.div_mod b 1000 ltac:(lia)). pose proof (Z.mod_pos_bound b 1000 ltac:(lia)).
  set (c := a / 1000) in *. set (d := b / 1000) in *.
  pose proof (Z.div_mod (c - unix_offset) 30 ltac:(lia)). pose proof (Z.mod_pos_bound (c - unix_offset) 30 ltac:(lia)).
  pose proof (Z.div_mod (d - unix_offset) 30 ltac:(lia)). pose proof (Z.mod_pos_bound (d - unix_offset) 30 ltac:(lia)).
  replace (90 * 1000000000 / 1000000) with 90000 by done. lia.
Qed.

Section Replay.
Context (e : sessenv) (CryptoSecret : string) (gcm : list Z -> AEAD).
Context (Validate : Z -> string -> string -> bool) (REQUIRE_ENROLLMENT : string).
(** A user, a code and a time. *)
Context (user0 : Z) (code0 : string) (T : Z).

Definition digest0 : string := used_digest CryptoSecret user0 code0.
Definition key0 : string := "totp:used:" +:+ digest0.
Abbreviation held := (blocked e CryptoSecret user0 code0 T).

(** The key is there at [T]. *)
Definition present (r : R) : Prop := peeks (unix_ms T) key0 r <> None.

(** A command at an earlier time that does not change what it sees of the key does not
    change what is seen at [T]. *)
Lemma present_same t r r' :
  t <= T -> peeks (unix_ms t) key0 r' = peeks (unix_ms t) key0 r -> present r -> present r'.
Proof.
  intros Ht He. unfold present. pose proof (unix_ms_mono _ _ Ht).
  rewrite !(peeks_age (unix_ms t) (unix_ms T)) by done. by rewrite He.
Qed.

Lemma present_before t r : t <= T -> present r -> peeks (unix_ms t) key0 r <> None.
Proof.
  intros Ht. unfold present. rewrite (peeks_age (unix_ms t) (unix_ms T)) by by apply unix_ms_mono.
  by intros Hp He; rewrite He in Hp.
Qed.

Lemma present_setnx t k v ttl r : t <= T -> present r -> present (SETNX (unix_ms t) k v ttl r).2.
Proof.
  intros Ht Hp. eapply present_same; [done| |done]. destruct (decide (k = key0)) as [->|Hk].
  - by apply setnx_taken, present_before.
  - by apply setnx_ne.
Qed.

Lemma kept_mem w w' : memUsed w' = memUsed w -> redis (sess w') = redis (sess w) -> held w -> held w'.
Proof. unfold blocked. by intros -> ->. Qed.

Lemma kept_stmt {A} (f : world R -> result step_err (A * world R)) :
  (forall w a w', f w = Ok (a, w') -> memUsed w' = memUsed w /\ redis (sess w') = redis (sess w)) -> preserves held (stmt f).
Proof. intros Hf. apply preserves_stmt. intros w a w' Hk He. apply Hf in He as [Hm Hr]. by eapply kept_mem. Qed.

Lemma kept_cmd {A} (f : R -> A * R) :
  (forall r, present r -> present (f r).2) -> preserves held (redis_cmd f).
Proof.
  intros Hf. apply preserves_stmt. intros w a w' Hk He. destruct (f (redis (sess w))) as [a' r] eqn:Ef.
  injection He as <- <-. unfold blocked in *. cbn. destruct (RedisEnabled e); [|done].
  specialize (Hf _ Hk). by rewrite Ef in Hf.
Qed.

Lemma kept_memory {A} (f : world R -> A * world R) :
  (forall w, held w -> held (f w).2) -> preserves held (in_memory f).
Proof. intros Hf [w fs] Hk. unfold in_memory. cbn in *. specialize (Hf w Hk). by destruct (f w). Qed.

Lemma kept_sweep now w : now <= T -> held w -> held (sweepLocked now w).
Proof. intros Hn. eapply blocked_swept; [done| |right]; done. Qed.

Lemma kept_fails used fails w : used = memUsed w -> held w -> held (set_mem used fails w).
Proof. intros ->. by apply kept_mem. Qed.

Lemma kept_session {A} (m : M (sessdb R) sess_err A) :
  preserves (fun d => present (redis d)) m -> preserves held (on_sess m).
Proof.
  intros Hm [w fs] Hk. unfold on_sess. cbn in *. specialize (Hm (mkStore (sess w) fs)). cbn in *.
  destruct (m _) as [r [d fs']]. cbn in *. unfold blocked in *. cbn.
  destruct (RedisEnabled e); [by apply Hm|done].
Qed.

Lemma MarkCodeUsed_kept userId code now : now <= T -> preserves held (MarkCodeUsed e CryptoSecret userId code now).
Proof.
  intros Hn. unfold MarkCodeUsed. destruct (RedisEnabled e) eqn:Hr.
  - apply preserves_catch; [|intros; apply preserves_ret]. apply kept_cmd. intros r. by apply present_setnx.
  - apply kept_memory. intros w Hk. apply (kept_sweep now) in Hk; [|done].
    set (w1 := sweepLocked now w) in *. destruct (memUsed w1 !! _) eqn:Hd; cbn [snd]; [done|].
    unfold blocked in *. rewrite Hr in *. destruct Hk as (y & Hy & Hle). exists y. cbn. split; [|done].
    rewrite lookup_insert_ne; [done|]. congruence.
Qed.

Lemma allowMemory_kept userId now : now <= T -> preserves held (allowAttemptFromMemory userId now).
Proof. intros Hn. apply kept_memory. intros w Hk. by apply kept_sweep. Qed.

Lemma AllowAttempt_kept userId now : now <= T -> preserves held (AllowAttempt e userId now).
Proof.
  intros Hn. unfold AllowAttempt. destruct (RedisEnabled e); [|by apply allowMemory_kept].
  apply preserves_catch; [by apply kept_cmd|]. intros [[v|]|]; [apply preserves_ret..|by apply allowMemory_kept].
Qed.

Lemma recordMemory_kept userId now : preserves held (recordFailureInMemory userId now).
Proof. apply kept_memory. intros w Hk. by apply kept_fails. Qed.

Lemma fail_key_other userId : failKey userId <> key0.
Proof. by unfold failKey, key0. Qed.

Lemma RecordFailure_kept userId now : now <= T -> preserves held (RecordFailure e userId now).
Proof.
  intros Hn. unfold RecordFailure. destruct (RedisEnabled e); [|by apply recordMemory_kept].
  apply preserves_catch.
  - apply kept_cmd. intros r. apply (present_same now); [done|]. by apply incr_ne, fail_key_other.
  - intros [[n|]|]; [|apply recordMemory_kept..]. destruct (n =? 1); [|apply preserves_ret].
    apply preserves_catch; [|intros; apply preserves_ret].
    apply kept_cmd. intros r. apply (present_same now); [done|]. by apply sexpire_ne, fail_key_other.
Qed.

Lemma ClearFailures_kept userId now : now <= T -> preserves held (ClearFailures e userId now).
Proof.
  intros Hn. unfold ClearFailures. apply preserves_bind; [apply kept_memory; intros w; by apply kept_fails|]. intros _.
  destruct (RedisEnabled e); [|apply preserves_ret]. apply preserves_catch; [|intros; apply preserves_ret].
  apply kept_cmd. intros r. apply (present_same now); [done|]. by apply sdel_ne, fail_key_other.
Qed.

(** *** Sessions *)

Abbreviation P := (fun d : sessdb R => present (redis d)).

Lemma sess_stmt {A} (f : sessdb R -> result sess_err (A * sessdb R)) :
  (forall d a d', f d = Ok (a, d') -> redis d' = redis d) -> preserves P (stmt f).
Proof. intros Hf. apply preserves_stmt. intros d a d' Hp He. cbn. by rewrite (Hf _ _ _ He). Qed.

Lemma sess_local {A} (f : sessdb R -> A * sessdb R) : (forall d, redis (f d).2 = redis d) -> preserves P (local f).
Proof. intros Hf [d fs] Hp. unfold local. cbn in *. specialize (Hf d). destruct (f d). cbn in *. by rewrite Hf. Qed.

Ltac sess_simple :=
  repeat first
    [ progress solve_preserves
    | apply sess_stmt; intros ? ? ? [= <- <-]; done
    | apply sess_local; done ].

Lemma throttle_present key now : now <= T -> preserves P (ShouldThrottleSessionTouch e key now).
Proof.
  intros Hn. unfold ShouldThrottleSessionTouch. destruct (RedisEnabled e).
  - apply preserves_catch; [|intros; apply preserves_ret]. apply preserves_stmt. intros d a d' Hp He.
    destruct (SETNX _ _ _ _ _) as [won r] eqn:Hs. injection He as <- <-. cbn.
    pose proof (present_setnx now ("session_touch:" +:+ key) "1" (sessionLastSeenThrottleWindow / 1000000) (redis d) Hn Hp) as Hq.
    by rewrite Hs in Hq.
  - apply sess_local. intros d. by repeat case_match.
Qed.

Lemma revoke_rows_present now rows : preserves P (revoke_rows now rows).
Proof. induction rows as [|s rows IH]; cbn [revoke_rows]; sess_simple. exact IH. Qed.

Lemma delete_key_present key : preserves P (redisDeleteSessionKey e key).
Proof. unfold redisDeleteSessionKey. sess_simple. Qed.

Lemma delete_keys_present rows : preserves P (deleteSessionKeys e rows).
Proof.
  induction rows as [|s rows IH]; cbn [deleteSessionKeys]; sess_simple; [apply delete_key_present|exact IH].
Qed.

Lemma cap_audit_present rows : preserves P (recordCapExceededAuditEvent rows).
Proof. induction rows as [|s rows IH]; cbn [recordCapExceededAuditEvent]; unfold RecordAuditEvent; sess_simple. exact IH. Qed.

Lemma upsert_present key userId tenantId ip ua method t now later :
  t <= T -> preserves P (UpsertUserSessionSeen e key userId tenantId ip ua method t now later).
Proof.
  intros Ht. unfold UpsertUserSessionSeen, enforceSessionCap, insert_session, update_registry.
  sess_simple; try by apply throttle_present.
  - apply sess_stmt. intros d a d' He. by repeat case_match; simplify_eq.
  - apply revoke_rows_present.
  - apply delete_keys_present.
  - apply cap_audit_present.
Qed.

Lemma rotate_present supported oldID fresh now ses : preserves P (RotateSessionID e supported oldID fresh now ses).
Proof. unfold RotateSessionID, RevokeUserSessionByKey, save, update_registry. sess_simple; apply delete_key_present. Qed.

Lemma login_present v f : preserves P (login_session e v f).
Proof. unfold login_session, load_session, save. sess_simple. apply rotate_present. Qed.

Lemma resolve_present q minRole : q_time q <= T -> preserves P (resolveSessionIdentity e q minRole).
Proof.
  intros Hq. unfold resolveSessionIdentity, load_session, claim, claim_bridge, claim_token, revoked_session, follow_cache,
    register_session, expire_session, save, IsUserSessionRevoked.
  sess_simple; first [apply rotate_present|by apply upsert_present].
Qed.
End Replay.

(** ** Requests *)

(** The requests that reach the second factor or the sessions, with the readings of the
    clock. *)
Inductive op :=
| OpVerify (x : ctx) (req : UniversalVerifyRequest) (k : ticks)
| OpConfirm (userId : Z) (code : string) (ds : draws) (k : ticks)
| OpEnroll (userId : Z) (generated : string -> option (string * string)) (nonce : option (list Z)) (now : Z)
| OpRegenerate (userId : Z) (ds : draws) (now : Z)
| OpDisable (userId : Z)
| OpForceDisable (param reason : string)
| OpGate (x : ctx) (now : Z)
| OpAuth (q : request) (minRole : Z)
| OpLogin (u : user) (accountID : Z) (tenantSlug : string) (v : visit).

Inductive answer :=
| AnsVerify (r : reply)
| AnsConfirm (r : totp_reply)
| AnsOther.

(** The readings of the clock are no later than [t]. *)
Definition by_then (t : Z) (o : op) : Prop :=
  match o with
  | OpVerify _ _ k | OpConfirm _ _ _ k => ordered k /\ k_stamp k <= t
  | OpAuth q _ => q_time q <= t
  | _ => True
  end.

Section Requests.
Context (e : sessenv) (CryptoSecret : string) (gcm : list Z -> AEAD).
Context (Validate : Z -> string -> string -> bool) (REQUIRE_ENROLLMENT : string).

Definition run (o : op) : M (world R) step_err answer :=
  match o with
  | OpVerify x req k => let! r := UniversalVerify e CryptoSecret gcm Validate REQUIRE_ENROLLMENT x req k in ret (AnsVerify r)
  | OpConfirm userId code ds k => let! r := TotpConfirm e CryptoSecret gcm Validate userId code ds k in ret (AnsConfirm r)
  | OpEnroll userId generated nonce now => let! _ := TotpEnroll CryptoSecret gcm userId generated nonce now in ret AnsOther
  | OpRegenerate userId ds now => let! _ := RegenerateTotpBackupCodes userId ds now in ret AnsOther
  | OpDisable userId => let! _ := TotpDisable userId in ret AnsOther
  | OpForceDisable param reason => let! _ := ForceDisableTotpV2 param reason in ret AnsOther
  | OpGate x now => let! _ := SecureVerificationRequired x now in ret AnsOther
  | OpAuth q minRole => let! _ := on_sess (resolveSessionIdentity e q minRole) in ret AnsOther
  | OpLogin u accountID tenantSlug v => let! _ := on_sess (bootstrap_session e u accountID tenantSlug v) in ret AnsOther
  end.

Fixpoint exec (os : list op) (s : store (world R)) : store (world R) :=
  match os with
  | [] => s
  | o :: os' => exec os' (run o s).2
  end.

Lemma exec_preserves (I : world R -> Prop) os s :
  Forall (fun o => preserves I (run o)) os -> I (tables s) -> I (tables (exec os s)).
Proof. intros Hos. revert s. induction Hos as [|o os Ho _ IH]; cbn; intros s HI; [done|]. by apply IH, Ho. Qed.

Section Kept.
Context (user0 : Z) (code0 : string) (T : Z).
Abbreviation held := (blocked e CryptoSecret user0 code0 T).

Lemma emit_kept action reason : preserves held (emit action reason).
Proof. apply kept_session. apply sess_local; done. Qed.

Lemma save_kept sid fresh ses : preserves held (on_sess (save sid fresh ses)).
Proof. apply kept_session. apply sess_stmt. by intros d a d' [= <- <-]. Qed.

#[local] Opaque ClearFailures.

(** Every statement of the second factor's own tables. *)
Ltac kept_simple :=
  repeat first
    [ progress solve_preserves
    | apply emit_kept | apply save_kept
    | apply kept_stmt; intros ? ? ? ?; by repeat case_match; simplify_eq ].

Lemma issue_kept userId ds now : preserves held (issueBackupCodes userId ds now).
Proof. unfold issueBackupCodes, ReplaceUserTOTPBackupCodes, delete_codes, insert_backup_rows. kept_simple. Qed.

Lemma verify_kept x req k : ordered k -> k_stamp k <= T -> preserves held (UniversalVerify e CryptoSecret gcm Validate REQUIRE_ENROLLMENT x req k).
Proof.
  unfold ordered. intros Hk HT. unfold UniversalVerify, user_status, GetUserTOTP, check_factor, check_session, stamp_session,
    check_backup, check_totp, fail_attempt, ConsumeUserTOTPBackupCode, CountUnusedUserTOTPBackupCodes.
  kept_simple; first [apply AllowAttempt_kept; lia|apply MarkCodeUsed_kept; lia|apply RecordFailure_kept; lia|apply ClearFailures_kept; lia].
Qed.

Lemma confirm_kept userId code ds k : ordered k -> k_stamp k <= T -> preserves held (TotpConfirm e CryptoSecret gcm Validate userId code ds k).
Proof.
  unfold ordered. intros Hk HT. unfold TotpConfirm, GetUserTOTP, UpsertUserTOTP.
  kept_simple; first [apply AllowAttempt_kept; lia|apply MarkCodeUsed_kept; lia|apply RecordFailure_kept; lia
                     |apply ClearFailures_kept; lia|apply issue_kept].
Qed.

Lemma run_kept o : by_then T o -> preserves held (run o).
Proof.
  intros Ho. destruct o; cbn [run by_then] in *; (apply preserves_bind; [|intros; apply preserves_ret]).
  - apply verify_kept; tauto.
  - apply confirm_kept; tauto.
  - unfold TotpEnroll, GetUserTOTP, UpsertUserTOTP. kept_simple.
  - unfold RegenerateTotpBackupCodes, GetUserTOTP. kept_simple. apply issue_kept.
  - unfold TotpDisable, remove_factor, GetUserTOTP, DeleteUserTOTP, DeleteUserTOTPBackupCodes, delete_codes. kept_simple.
  - unfold ForceDisableTotpV2, remove_factor, GetUserTOTP, DeleteUserTOTP, DeleteUserTOTPBackupCodes, delete_codes. kept_simple.
  - unfold SecureVerificationRequired, drop_stamp. kept_simple.
  - apply kept_session. by apply resolve_present.
  - apply kept_session. unfold bootstrap_session. destruct (negb _); [apply preserves_ret|].
    apply preserves_bind; [apply login_present|intros; apply preserves_ret].
Qed.
End Kept.

(** A first use blocks the code. *)
Lemma MarkCodeUsed_blocks userId code now t w :
  now <= t -> time_step t < time_step now + 3 ->
  wp (MarkCodeUsed e CryptoSecret userId code now) (fun r w' => r = Ok true -> blocked e CryptoSecret userId code t w') w.
Proof.
  intros Hn Ht. apply block_covers in Ht as [Hms Hns]. unfold MarkCodeUsed, blocked. destruct (RedisEnabled e) eqn:Hr.
  - apply wp_catch, wp_redis; apply wp_ret; [done|]. cbn [fst snd sess set_sess redis set_redis].
    set (k := _ +:+ _). set (r := redis (sess w)). intros [= Hs].
    destruct (peeks (unix_ms now) k r) as [v|] eqn:Hp.
    { destruct (setnx_taken (unix_ms now) k "1" (replayTTL / 1000000) r) as [Hf _]; [by rewrite Hp|congruence]. }
    destruct (setnx_free (unix_ms now) k "1" (replayTTL / 1000000) r) as [_ Hq]; [done|done|].
    rewrite (peeks_age (unix_ms now)) by by apply unix_ms_mono. rewrite Hq. cbn [age].
    by replace (_ <=? unix_ms t) with false by lia.
  - apply wp_in_memory. cbn beta zeta. set (w1 := sweepLocked now w). destruct (memUsed w1 !! _); cbn [fst snd]; [done|].
    intros _. eexists. split; [apply lookup_insert_eq|done].
Qed.

Section Accepted.
Context (t : Z).

Lemma check_totp_blocks userId rec code k w :
  ordered k -> k_stamp k <= t -> time_step t < time_step (k_mark k) + 3 ->
  wp (check_totp e CryptoSecret gcm Validate userId rec code k) (fun r w' =>
    r = Ok None -> blocked e CryptoSecret userId code t w') w.
Proof.
  unfold ordered. intros Hk Ht Hs. unfold check_totp. destruct (DecryptSecret _ _ _); [|by apply wp_ret].
  destruct (ValidateCode _ _ _ _); cbn [negb]; [|by wp_use fail_attempt_refuses as [-> _]].
  apply wp_bind. wp_use (MarkCodeUsed_blocks _ _ _ t) as Hb; [lia|exact Hs|]. destruct r as [[|]|]; [|by wp_use fail_attempt_refuses as [-> _]|done].
  apply wp_ret. intros _. by apply Hb.
Qed.

Lemma check_factor_blocks userId rec req k w :
  ordered k -> k_stamp k <= t -> time_step t < time_step (k_mark k) + 3 -> v_Method req = "totp" ->
  wp (check_factor e CryptoSecret gcm Validate userId rec req k) (fun r w' =>
    r = Ok None -> blocked e CryptoSecret userId (v_Code req) t w') w.
Proof.
  intros Hk Ht Hs Hm. unfold check_factor. rewrite Hm. cbn [String.eqb Ascii.eqb Bool.eqb negb andb].
  apply wp_bind. wp_use AllowAttempt_frame as (Hok & _). destruct r as [[]|]; cbn [negb]; [| |done].
  - apply wp_bind. wp_use check_totp_blocks as Hb; [done..|]. destruct r as [[]|]; [by apply wp_ret| |done].
    apply wp_bind. eapply wp_mono; [apply preserves_wp; [|by apply Hb]; apply (ClearFailures_kept e CryptoSecret userId (v_Code req) t); unfold ordered in *; lia|].
    cbn beta. intros [] w2 H2; [|done]. by apply wp_bind, wp_ret, wp_ret.
  - apply wp_bind, wp_emit. intros. by apply wp_ret.
Qed.

Lemma verify_blocks x req k w :
  ordered k -> k_stamp k <= t -> time_step t < time_step (k_mark k) + 3 -> v_Method req = "totp" ->
  wp (UniversalVerify e CryptoSecret gcm Validate REQUIRE_ENROLLMENT x req k) (fun r w' =>
    match r with Ok (Verified _ _) => blocked e CryptoSecret (x_id x) (v_Code req) t w' | _ => True end) w.
Proof.
  intros Hk Ht Hs Hm. unfold UniversalVerify. destruct (x_id x =? 0); [by apply wp_ret|].
  apply wp_bind. unfold user_status. apply wp_catch, wp_query; apply wp_ret; [by apply wp_ret|].
  destruct (negb _); [by apply wp_ret|]. apply wp_catch, wp_query; [by apply wp_ret|]. apply wp_bind.
  assert (with_default_method req = req) as -> by (unfold with_default_method; by rewrite Hm).
  destruct (enrolled_rec _) as [rec|].
  - apply (wp_mono _ (fun r w' => (r = Ok None -> blocked e CryptoSecret (x_id x) (v_Code req) t w') /\
      (forall rep y b, r = Ok (Some rep) -> rep <> Verified y b))).
    { intros fs. split; [by apply check_factor_blocks|]. intros rep y b He ->.
      destruct (check_factor_spends e CryptoSecret gcm Validate (x_id x) rec req k w Hk fs) as (_ & rep' & Hrep & _ & Hv).
      rewrite Hrep in He. injection He as ->. by eapply Hv. }
    intros r w' [Hn Hv]. destruct r as [[rep|]|]; [apply wp_ret; destruct rep; try done; by edestruct Hv| |done].
    eapply wp_mono; [apply (preserves_wp _ (blocked e CryptoSecret (x_id x) (v_Code req) t)); [|by apply Hn]|by intros [[]|]].
    unfold stamp_session. apply preserves_catch; [apply save_kept|intros; apply preserves_ret].
  - wp_use check_session_allows as (_ & rep & -> & Hn & Hv).
    destruct rep as [rep|]; [apply wp_ret; destruct rep; try done; by edestruct Hv|].
    destruct (Hn eq_refl) as [Hm' _]. congruence.
Qed.

Definition confirmed (userId : Z) (code : string) (k : ticks) w (r : result step_err totp_reply) w' : Prop :=
  match r with
  | Ok (TCodes _) =>
      ~ blocked e CryptoSecret userId code (k_mark k) w /\
      (time_step t < time_step (k_mark k) + 3 -> blocked e CryptoSecret userId code t w')
  | _ => True
  end.

Lemma confirm_blocks userId code ds k w :
  ordered k -> k_stamp k <= t ->
  wp (TotpConfirm e CryptoSecret gcm Validate userId code ds k) (confirmed userId code k w) w.
Proof.
  intros Hk Ht. unfold TotpConfirm. destruct (userId =? 0); [by apply wp_ret|]. destruct (String.eqb code ""); [by apply wp_ret|].
  apply wp_catch, wp_query; [by apply wp_ret|]. destruct (first_where _ _) as [rec|]; [|by apply wp_ret].
  destruct (t_Enabled rec); [by apply wp_ret|]. apply wp_bind. wp_use AllowAttempt_frame as (Hok & _ & Hr & Hu).
  destruct r as [[]|]; cbn [negb]; [|by apply wp_ret|done].
  destruct (DecryptSecret _ _ _); [|by apply wp_ret]. apply wp_bind.
  assert (forall w1, wp (let! _ := RecordFailure e userId (k_record k) in let! _ := emit ActionAuthFailed "invalid_code" in ret T400)
    (confirmed userId code k w) w1) as Hfail.
  { intros w1. apply wp_bind. wp_use RecordFailure_frame as (-> & _). apply wp_bind, wp_emit. intros. by apply wp_ret. }
  destruct (ValidateCode _ _ _ _); [|apply wp_ret; apply Hfail].
  apply (wp_mono _ (fun r w' => r = Ok true -> (time_step t < time_step (k_mark k) + 3 -> blocked e CryptoSecret userId code t w') /\
    ~ blocked e CryptoSecret userId code (k_mark k) w)).
  { intros fs He. unfold ordered in Hk. split; [intros Hs; by apply MarkCodeUsed_blocks; [lia|..]|]. intros Hb.
    destruct (MarkCodeUsed_frame e CryptoSecret userId code (k_mark k) t' fs) as [_ [Hf|[_ Hnb]]]; [congruence|].
    apply Hnb. eapply blocked_swept; [|done..]. lia. }
  intros r w1 Hb. destruct r as [[]|]; cbn [negb]; [|apply Hfail|done]. destruct (Hb eq_refl) as [Hbl Hnb].
  apply (wp_mono _ (fun _ w' => time_step t < time_step (k_mark k) + 3 -> blocked e CryptoSecret userId code t w')); [|by intros [[]|]].
  intros fs Hs. specialize (Hbl Hs). clear Hb. revert fs. apply preserves_wp; [|exact Hbl].
  apply preserves_bind; [apply ClearFailures_kept; unfold ordered in *; lia|intros _].
  apply preserves_catch; [apply issue_kept|]. intros [cs|]; [|apply preserves_ret].
  apply preserves_catch; [unfold UpsertUserTOTP; apply kept_stmt; by intros ? ? ? [= <- <-]|]. intros [|]; [|apply preserves_ret].
  apply preserves_bind; [apply emit_kept|intros; apply preserves_ret].
Qed.
End Accepted.

(** The user, code and clock of a request that passed on a TOTP code. *)
Definition accepts (o : op) (a : answer) : option (Z * string * ticks) :=
  match o, a with
  | OpVerify x req k, AnsVerify (Verified _ true) => if String.eqb (v_Method req) "totp" then Some (x_id x, v_Code req, k) else None
  | OpConfirm userId code _ k, AnsConfirm (TCodes _) => Some (userId, code, k)
  | _, _ => None
  end.

Lemma run_bind {A} (m : M (world R) step_err A) (f : A -> answer) s a s' :
  bind m (fun r => ret (f r)) s = (Ok a, s') -> exists r, m s = (Ok r, s') /\ a = f r.
Proof. intros (r & s1 & Hm & [= <- <-])%bind_ok. eauto. Qed.

Lemma accepts_ordered o a userId code k t : accepts o a = Some (userId, code, k) -> by_then t o -> ordered k.
Proof. destruct o; try done; cbn; repeat (case_match; try done); naive_solver. Qed.

(** Such a request was not blocked, and blocks its code until the third time step. *)
Lemma accepted_blocks o s a s' userId code k t :
  run o s = (Ok a, s') -> accepts o a = Some (userId, code, k) -> by_then t o -> 
  ~ blocked e CryptoSecret userId code (k_mark k) (tables s) /\
  (time_step t < time_step (k_mark k) + 3 -> blocked e CryptoSecret userId code t (tables s')).
Proof.
  intros Hrun Ha Ht. destruct o; cbn [accepts] in Ha; try done; cbn [run] in Hrun; apply run_bind in Hrun as (r & Hrun & ->).
  - destruct r as [| | | | | | | | | |y []]; try done. destruct (String.eqb_spec (v_Method req) "totp") as [Hm|]; [|done].
    injection Ha as <- <- <-. destruct Ht as [Hk Hk']. split.
    + apply (wp_run _ _ _ _ _ (verify_wp _ _ _ _ REQUIRE_ENROLLMENT x req k0 (tables s) Hk)) in Hrun as (_ & Hc & _). unfold credential in Hc.
      destruct (enrolled_rec _); [|naive_solver]. destruct Hc as [_ [[_ (secret & _ & _ & Hb)]|[Hm' _]]]; [done|congruence].
    + intros Hs. by apply (wp_run _ _ _ _ _ (verify_blocks t x req k0 (tables s) Hk Hk' Hs Hm)) in Hrun.
  - destruct r; try done. injection Ha as <- <- <-. destruct Ht as [Hk Hk'].
    exact (wp_run _ _ _ _ _ (confirm_blocks t userId0 code0 ds k0 (tables s) Hk Hk') Hrun).
Qed.

(** C21. A TOTP code passes once: when requests run one after the other, of two requests
    by one user that pass on the same code, spaces aside, to verify a step-up or to
    confirm an enrolment, with any requests in between, the second is checked at a time
    step so much later that no time step lies within one step, the skew the check accepts,
    of both. The second request marks its code in the time step in which it checked it,
    and no clock was read before it that is later than its mark. *)
Theorem totp_code_once o1 os o2 s s1 s2 a1 a2 userId code1 code2 k1 k2 :
  run o1 s = (Ok a1, s1) -> run o2 (exec os s1) = (Ok a2, s2) ->
  accepts o1 a1 = Some (userId, code1, k1) -> accepts o2 a2 = Some (userId, code2, k2) ->
  TrimSpace code1 = TrimSpace code2 ->
  Forall (by_then (k_mark k2)) (o1 :: os) -> by_then (k_stamp k2) o2 ->
  time_step (k_check k2) = time_step (k_mark k2) ->
  forall c, Z.abs (c - time_step (k_check k1)) <= 1 -> 1 < Z.abs (c - time_step (k_check k2)).
Proof.
  intros Hr1 Hr2 Ha1 Ha2 Hcode Hos Ho2 Hstep c Hc.
  apply Forall_cons in Hos as [Ho1 Hos].
  destruct (accepted_blocks _ _ _ _ _ _ _ _ Hr2 Ha2 Ho2) as [Hfree _].
  destruct (accepted_blocks _ _ _ _ _ _ _ _ Hr1 Ha1 Ho1) as [_ Hblock].
  assert (Hfar : time_step (k_mark k1) + 3 <= time_step (k_mark k2)).
  { apply Z.nlt_ge. intros Hnear. apply Hfree, (blocked_code _ _ _ code1); [done|].
    apply (exec_preserves (blocked e CryptoSecret userId code1 (k_mark k2))); [|by apply Hblock].
    eapply Forall_impl; [exact Hos|]. intros o. apply run_kept. }
  assert (time_step (k_check k1) <= time_step (k_mark k1)); [|lia].
  pose proof (accepts_ordered _ _ _ _ _ _ Ha1 Ho1) as Hk. unfold ordered in Hk.
  unfold time_step, time_Unix. apply Z.div_le_mono; [lia|].
  assert (k_check k1 / second <= k_mark k1 / second) by (apply Z.div_le_mono; [done|lia]). lia.
Qed.
End Requests.

(** ** An enabled factor has its recovery codes *)

Record factor_inv w : Prop := {
  one_row : NoDup (t_UserId <$> totps w);
  has_codes r : r ∈ totps w -> t_Enabled r = true -> length (issued w (t_UserId r)) = BackupCodeCount
}.

(** The codes were issued to this user. *)
Definition covered (userId : Z) w : Prop := length (issued w userId) = BackupCodeCount.

Lemma issued_update P f l u :
  (forall r, c_UserId (f r) = c_UserId r) ->
  length (List.filter (code_of u) (update_where P f l)) = length (List.filter (code_of u) l).
Proof.
  intros Hf. unfold update_where. induction l as [|r l IH]; [done|]. cbn.
  replace (code_of u (if P r then f r else r)) with (code_of u r) by (unfold code_of; destruct (P r); by rewrite ?Hf).
  destruct (code_of u r); cbn; by rewrite IH.
Qed.

Lemma issued_delete u u' l :
  List.filter (code_of u) (List.filter (fun r => negb (code_of u' r)) l) = if u =? u' then [] else List.filter (code_of u) l.
Proof.
  unfold code_of. destruct (Z.eqb_spec u u') as [->|Hu]; induction l as [|r l IH]; cbn; try done;
    destruct (Z.eqb_spec (c_UserId r) u') as [Hr|Hr]; cbn; try done.
  - by replace (c_UserId r =? u') with false by lia.
  - rewrite IH. by replace (c_UserId r =? u) with false by lia.
  - destruct (c_UserId r =? u); cbn; by rewrite IH.
Qed.

Lemma issued_numbered u u' id rows :
  Forall (fun r => c_UserId r = u') rows ->
  length (List.filter (code_of u) (number_codes id rows)) = if u =? u' then length rows else 0%nat.
Proof.
  intros Hr. revert id. induction Hr as [|r rows Hr _ IH]; intros id; cbn [number_codes].
  - by destruct (u =? u').
  - cbn [List.filter]. unfold code_of at 1. cbn [c_UserId]. rewrite Hr.
    destruct (Z.eqb_spec u u') as [->|Hu].
    + rewrite Z.eqb_refl. cbn [length]. by rewrite IH, ?Z.eqb_refl.
    + replace (u' =? u) with false by lia. rewrite IH. by replace (u =? u') with false by lia.
Qed.

Lemma generated_count n ds cs : GenerateBackupCodes n ds = Some cs -> length cs = n.
Proof.
  revert ds cs. induction n as [|n IH]; intros ds cs; unfold GenerateBackupCodes; fold GenerateBackupCodes; [by intros [= <-]|].
  destruct (generateOneBackupCode ds) as [[c ds']|]; [|done]. cbn.
  destruct (GenerateBackupCodes n ds') as [cs'|] eqn:Hg; [|done]. intros [= <-]. cbn. f_equal. by eapply IH.
Qed.

Section Factor.
Context (e : sessenv) (CryptoSecret : string) (gcm : list Z -> AEAD).
Context (Validate : Z -> string -> string -> bool) (REQUIRE_ENROLLMENT : string).

Lemma inv_same w w' : totps w' = totps w -> codes w' = codes w -> factor_inv w -> factor_inv w'.
Proof. intros Ht Hc [Hu Hh]. split; unfold issued in *; by rewrite ?Ht, ?Hc. Qed.

Lemma inv_frame w w' : frame w w' -> factor_inv w -> factor_inv w'.
Proof. intros Hf. apply inv_same; apply Hf. Qed.

Lemma inv_wp {A} (m : M (world R) step_err A) :
  (forall w, wp m (fun _ w' => frame w w') w) -> preserves factor_inv m.
Proof. intros Hm. apply wp_preserves. intros w Hw. eapply wp_mono; [apply Hm|]. cbn. intros _ w' Hf. by eapply inv_frame. Qed.

Lemma inv_stmt {A} (f : world R -> result step_err (A * world R)) :
  (forall w a w', f w = Ok (a, w') -> totps w' = totps w /\ codes w' = codes w) -> preserves factor_inv (stmt f).
Proof. intros Hf. apply preserves_stmt. intros w a w' Hi He. apply Hf in He as [Ht Hc]. by eapply inv_same. Qed.

Lemma inv_sess {A} (m : M (sessdb R) sess_err A) : preserves factor_inv (on_sess m).
Proof. intros [w fs] Hi. unfold on_sess. cbn in *. destruct (m _) as [r [d fs']]. cbn. by eapply inv_same, Hi. Qed.

Lemma consume_inv userId h now : preserves factor_inv (ConsumeUserTOTPBackupCode userId h now).
Proof.
  apply preserves_stmt. intros w a w' [Hu Hh] [= <- <-]. split; [done|]. intros r Hr Hen. cbn in *.
  unfold issued. cbn. rewrite issued_update by done. by apply Hh.
Qed.

Lemma issue_covers userId ds now w :
  factor_inv w ->
  wp (issueBackupCodes userId ds now) (fun r w' =>
    factor_inv w' /\ totps w' = totps w /\ (is_ok r = true -> covered userId w')) w.
Proof.
  intros Hi. unfold issueBackupCodes. destruct (GenerateBackupCodes _ _) as [cs|] eqn:Hg; [|by apply wp_throw].
  apply generated_count in Hg. set (rows := _ <$> cs).
  assert (Hrows : Forall (fun r => c_UserId r = userId) rows) by (apply Forall_fmap, Forall_true; done).
  assert (Hlen : length rows = BackupCodeCount) by (unfold rows; by rewrite length_fmap).
  apply wp_bind, wp_transaction; [done|]. apply wp_bind. unfold delete_codes. apply wp_stmt; [done|]. cbn beta iota.
  destruct rows as [|r0 rows0] eqn:Hr0; [done|]. rewrite <- Hr0 in *. unfold insert_backup_rows. apply wp_stmt; [done|].
  cbn [codes set_codes]. destruct (bool_decide _); [|done]. apply wp_ret.
  assert (Hiss : forall u, length (issued (mkWorld (totps w) (List.filter (fun r => negb (code_of userId r)) (codes w) ++ number_codes (seq_code w) rows)
    (seq_code w + Z.of_nat (length rows)) (accounts w) (memUsed w) (memFails w) (sess w)) u) =
    if u =? userId then BackupCodeCount else length (issued w u)).
  { intros u. unfold issued. cbn. rewrite List.filter_app, length_app, issued_delete, (issued_numbered u userId) by done.
    destruct (u =? userId); [done|lia]. }
  destruct Hi as [Hu Hh]. split; [split; [done|]|split; [done|]].
  - intros r Hr Hen. etrans; [apply Hiss|]. destruct (t_UserId r =? userId); [done|by apply Hh].
  - intros _. etrans; [apply Hiss|]. by rewrite Z.eqb_refl.
Qed.

(** A row that is off, or whose user has the codes, may be written. *)
Lemma upsert_inv rec w :
  factor_inv w -> (t_Enabled rec = true -> covered (t_UserId rec) w) ->
  wp (UpsertUserTOTP rec) (fun _ => factor_inv) w.
Proof.
  intros Hi Hrec. apply wp_stmt; [done|]. cbn beta iota. destruct Hi as [Hu Hh].
  destruct (existsb (totp_of (t_UserId rec)) (totps w)) eqn:He; split; cbn [totps set_totps codes].
  - replace (t_UserId <$> update_where _ _ _) with (t_UserId <$> totps w); [done|].
    unfold update_where. rewrite <- list_fmap_compose. apply list_fmap_ext. intros i r _. unfold compose, totp_of.
    destruct (Z.eqb_spec (t_UserId r) (t_UserId rec)); done.
  - intros r (r0 & Hr0 & ->)%elem_of_update_where Hen. destruct (totp_of (t_UserId rec) r0); [|by apply Hh].
    cbn in *. by apply Hrec.
  - rewrite fmap_app. apply NoDup_app. split; [done|]. split; [|apply NoDup_singleton].
    intros u (r & -> & Hr)%list_elem_of_fmap Hin. apply list_elem_of_singleton in Hin.
    assert (existsb (totp_of (t_UserId rec)) (totps w) = true); [|congruence].
    apply existsb_exists. exists r. split; [by apply list_elem_of_In|]. unfold totp_of. lia.
  - intros r [Hr| ->%list_elem_of_singleton]%elem_of_app Hen; [by apply Hh|by apply Hrec].
Qed.

Lemma inv_allow userId now : preserves factor_inv (AllowAttempt e userId now).
Proof. apply inv_wp. intros w. wp_use AllowAttempt_frame as (_ & Hf & _). exact Hf. Qed.

Lemma inv_mark userId code now : preserves factor_inv (MarkCodeUsed e CryptoSecret userId code now).
Proof. apply inv_wp. intros w. wp_use MarkCodeUsed_frame as [Hf _]. exact Hf. Qed.

Lemma inv_record userId now : preserves factor_inv (RecordFailure e userId now).
Proof. apply inv_wp. intros w. wp_use RecordFailure_frame as (_ & Hf & _). exact Hf. Qed.

Lemma inv_clear userId now : preserves factor_inv (ClearFailures e userId now).
Proof. apply inv_wp. intros w. wp_use ClearFailures_frame as (_ & Hf & _). exact Hf. Qed.

#[local] Opaque ClearFailures.

Ltac inv_simple :=
  repeat first
    [ progress solve_preserves
    | apply inv_sess | apply inv_allow | apply inv_mark | apply inv_record | apply inv_clear | apply consume_inv ].

Lemma verify_inv x req k : preserves factor_inv (UniversalVerify e CryptoSecret gcm Validate REQUIRE_ENROLLMENT x req k).
Proof.
  unfold UniversalVerify, user_status, GetUserTOTP, check_factor, check_session, stamp_session, check_backup, check_totp,
    fail_attempt, CountUnusedUserTOTPBackupCodes, emit. inv_simple.
Qed.

(** The codes come before the switch. *)
Lemma confirm_inv userId code ds k w :
  factor_inv w -> wp (TotpConfirm e CryptoSecret gcm Validate userId code ds k) (fun _ => factor_inv) w.
Proof.
  intros Hi. unfold TotpConfirm. destruct (userId =? 0); [by apply wp_ret|]. destruct (String.eqb code ""); [by apply wp_ret|].
  apply wp_catch, wp_query; [by apply wp_ret|]. destruct (first_where _ _) as [rec|] eqn:Hrec; [|by apply wp_ret].
  apply first_where_some in Hrec as [_ Huser]. unfold totp_of in Huser. apply Z.eqb_eq in Huser.
  destruct (t_Enabled rec); [by apply wp_ret|].
  apply wp_bind. eapply wp_mono; [by apply preserves_wp; [apply inv_allow|]|]. cbn beta. intros [[]|] w1 H1; cbn [negb]; [|by apply wp_ret|done].
  destruct (DecryptSecret _ _ _); [|by apply wp_ret].
  apply wp_bind. eapply (wp_mono _ (fun _ => factor_inv)).
  { apply preserves_wp; [|done]. destruct (ValidateCode _ _ _ _); [apply inv_mark|apply preserves_ret]. }
  intros [[]|] w2 H2; cbn [negb]; [| |done].
  - apply wp_bind. eapply wp_mono; [by apply preserves_wp; [apply inv_clear|]|]. cbn beta. intros [[]|] w3 H3; [|done].
    apply wp_catch. eapply wp_mono; [by apply issue_covers|]. cbn beta. intros [cs|] w4 (H4 & _ & Hcov); [|by apply wp_ret].
    apply wp_catch. eapply wp_mono; [apply upsert_inv; [done|]|].
    { intros _. cbn. rewrite Huser. by apply Hcov. }
    cbn beta. intros [[]|] w5 H5; [|by apply wp_ret].
    apply (preserves_wp _ factor_inv); [|done]. apply preserves_bind; [apply inv_sess|intros; apply preserves_ret].
  - apply (preserves_wp _ factor_inv); [|done]. unfold emit. inv_simple.
Qed.

Lemma remove_inv userId missing action w : factor_inv w -> wp (remove_factor userId missing action) (fun _ => factor_inv) w.
Proof.
  intros [Hu Hh]. unfold remove_factor. apply wp_catch, wp_query; [by apply wp_ret|].
  destruct (first_where _ _); [|by apply wp_ret].
  apply wp_catch. unfold DeleteUserTOTP. apply wp_stmt; [by apply wp_ret|]. cbn beta iota.
  set (w1 := set_totps _ w).
  assert (Hin : forall r, r ∈ totps w1 -> r ∈ totps w /\ t_UserId r <> userId).
  { intros r Hr. unfold w1 in Hr. cbn in Hr. apply list_elem_of_In, filter_In in Hr as [Hr Hn].
    apply list_elem_of_In in Hr. split; [done|]. unfold totp_of in Hn. lia. }
  assert (H1 : NoDup (t_UserId <$> totps w1)) by (apply NoDup_fmap_filter, Hu).
  assert (I1 : factor_inv w1) by (split; [done|]; intros r [Hr _]%Hin; by apply Hh).
  apply wp_catch. unfold DeleteUserTOTPBackupCodes, delete_codes. apply wp_stmt; [by apply wp_ret|]. cbn beta iota.
  set (w2 := set_codes _ w1). assert (I2 : factor_inv w2).
  { split; [done|]. intros r [Hr Hne]%Hin Hen. unfold issued, w2, w1. cbn. rewrite issued_delete.
    replace (t_UserId r =? userId) with false by lia. by apply Hh. }
  apply (preserves_wp _ factor_inv); [|done]. apply preserves_bind; [apply inv_sess|intros; apply preserves_ret].
Qed.

Lemma run_factor_inv o : preserves factor_inv (run e CryptoSecret gcm Validate REQUIRE_ENROLLMENT o).
Proof.
  destruct o; cbn [run]; (apply preserves_bind; [|intros; apply preserves_ret]).
  - apply verify_inv.
  - apply wp_preserves. intros w. apply confirm_inv.
  - unfold TotpEnroll, GetUserTOTP. inv_simple. apply wp_preserves. intros w Hi. by apply upsert_inv.
  - unfold RegenerateTotpBackupCodes, GetUserTOTP. inv_simple.
    apply wp_preserves. intros w Hi. wp_use issue_covers as [Hi' _]; done.
  - unfold TotpDisable. repeat case_match; (apply preserves_ret || (apply wp_preserves; intros w; apply remove_inv)).
  - unfold ForceDisableTotpV2. repeat case_match; (apply preserves_ret || (apply wp_preserves; intros w; apply remove_inv)).
  - unfold SecureVerificationRequired, drop_stamp. inv_simple.
  - apply inv_sess.
  - apply inv_sess.
Qed.

(** C22. Starting from a database in which a user has at most one enrolment and an
    enabled one has exactly ten recovery codes, used or not (an empty one is such; one with
    enrolments from before there were recovery codes is not), this stays so whatever
    requests are made one after the other and whichever of their statements fail:
    confirming stores the codes before it switches the factor on, and disabling removes
    the enrolment before the codes. *)
Theorem enabled_factor_has_codes os s :
  factor_inv (tables s) -> factor_inv (tables (exec e CryptoSecret gcm Validate REQUIRE_ENROLLMENT os s)).
Proof. intros Hi. eapply exec_preserves; [|exact Hi]. apply Forall_true. intros o. apply run_factor_inv. Qed.
End Factor.

(** ** The budget of guesses *)

Section Budget.
Context (e : sessenv) (CryptoSecret : string) (gcm : list Z -> AEAD).
Context (Validate : Z -> string -> string -> bool) (REQUIRE_ENROLLMENT : string).
(** The process-local throttle, and a user. *)
Context (Hmem : RedisEnabled e = false) (user0 : Z) (Huser : in64 user0).

Definition fails w : list Z := default [] (memFails w !! failKey user0).

(** At [t] and later, the throttle counts at least the guesses of [G]. *)
Definition covers (t : Z) (G : list Z) w : Prop :=
  forall now, t <= now -> (length (List.filter (recent now) G) <= length (List.filter (recent now) (fails w)))%nat.

Lemma recent_earlier now now' t : now <= now' -> recent now' t = true -> recent now t = true.
Proof. unfold recent, time_Sub, sat64. lia. Qed.

Lemma covers_later t t' G w : t <= t' -> covers t G w -> covers t' G w.
Proof. intros Ht Hc now Hn. apply Hc. lia. Qed.

Lemma covers_same t G w w' : memFails w' = memFails w -> covers t G w -> covers t G w'.
Proof. unfold covers, fails. by intros ->. Qed.

Lemma covers_nil t w : covers t [] w.
Proof. intros now _. cbn. lia. Qed.

Lemma filter_recent_twice now now' l :
  now <= now' -> List.filter (recent now') (List.filter (recent now) l) = List.filter (recent now') l.
Proof.
  intros Hn. induction l as [|x l IH]; [done|]. cbn. destruct (recent now' x) eqn:Hx.
  - rewrite (recent_earlier now now') by done. cbn. by rewrite Hx, IH.
  - destruct (recent now x); cbn; by rewrite ?Hx, IH.
Qed.

Lemma fails_sweep now w : fails (sweepLocked now w) = List.filter (recent now) (fails w).
Proof.
  unfold fails, sweepLocked. cbn. rewrite lookup_omap. destruct (memFails w !! failKey user0) as [l|]; [|done]. cbn.
  by destruct (List.filter (recent now) l).
Qed.

Lemma covers_sweep t now G w : t <= now -> covers t G w -> covers now G (sweepLocked now w).
Proof. intros Ht Hc now' Hn. rewrite fails_sweep, filter_recent_twice by done. apply Hc. lia. Qed.

Lemma fail_key_inj u : in64 u -> failKey u = failKey user0 -> u = user0.
Proof. intros Hu [=He]. by apply Itoa_inj. Qed.

Lemma allow_covers u now t G w :
  t <= now -> covers t G w ->
  wp (AllowAttempt e u now) (fun r w' => covers now G w' /\
    (r = Ok true -> u = user0 -> (length (List.filter (recent now) G) < 5)%nat)) w.
Proof.
  intros Ht Hc. unfold AllowAttempt. rewrite Hmem. apply wp_in_memory. cbn [fst snd].
  split; [by eapply covers_sweep|]. intros [= Ha] ->. change ((Z.of_nat (length (fails (sweepLocked now w))) <? failLimit) = true) in Ha.
  rewrite fails_sweep in Ha. specialize (Hc now Ht). unfold failLimit in Ha. lia.
Qed.

Lemma mark_covers u code now t G w :
  t <= now -> covers t G w -> wp (MarkCodeUsed e CryptoSecret u code now) (fun r w' => is_ok r = true /\ covers now G w') w.
Proof.
  intros Ht Hc. unfold MarkCodeUsed. rewrite Hmem. apply wp_in_memory. set (w1 := sweepLocked now w).
  assert (covers now G w1) by by eapply covers_sweep. by destruct (memUsed w1 !! _).
Qed.

Lemma record_covers u now t G w :
  in64 u -> t <= now -> covers t G w ->
  wp (RecordFailure e u now) (fun r w' => r = Ok tt /\ covers now (if u =? user0 then G ++ [now] else G) w') w.
Proof.
  intros Hu Ht Hc. unfold RecordFailure. rewrite Hmem. apply wp_in_memory. cbn [fst snd]. split; [done|].
  intros now' Hn. unfold fails. cbn. destruct (Z.eqb_spec u user0) as [->|Hne].
  - rewrite lookup_insert_eq. cbn. rewrite !List.filter_app, !length_app. specialize (Hc now' ltac:(lia)). unfold fails in Hc. lia.
  - rewrite lookup_insert_ne by (by intros Hk%fail_key_inj). apply Hc. lia.
Qed.

Lemma clear_covers u now t G w :
  in64 u -> covers t G w ->
  wp (ClearFailures e u now) (fun r w' => r = Ok tt /\ covers t (if u =? user0 then [] else G) w') w.
Proof.
  intros Hu Hc. unfold ClearFailures. rewrite Hmem. apply wp_bind, wp_in_memory. cbn [fst snd]. apply wp_ret. split; [done|].
  intros now' Hn. unfold fails. cbn. destruct (Z.eqb_spec u user0) as [->|Hne]; [cbn; lia|].
  rewrite lookup_delete_ne by (by intros Hk%fail_key_inj). by apply Hc.
Qed.

(** What an answer means for the guesses since the user last passed: a wrong or replayed
    code adds one, at the time it is recorded. *)
Definition wrong (r : reply) : bool :=
  match r with BadCode | BadBackupCode | Replayed => true | _ => false end.

Definition after_reply (u : Z) (now : Z) (r : reply) (G : list Z) : list Z :=
  if negb (u =? user0) then G
  else if wrong r then G ++ [now]
  else match r with Verified _ true | ApiError => [] | _ => G end.

Definition guessed (u : Z) (k : ticks) (G : list Z) (r : reply) w' : Prop :=
  covers (k_stamp k) (after_reply u (k_record k) r G) w' /\
  (u = user0 -> wrong r = true -> (length (List.filter (recent (k_attempt k)) G) < 5)%nat).

Lemma fail_attempt_covers u k reason rep t G w :
  in64 u -> ordered k -> t <= k_record k -> covers t G w -> wrong rep = true ->
  (u = user0 -> (length (List.filter (recent (k_attempt k)) G) < 5)%nat) ->
  wp (fail_attempt e u (k_record k) reason rep) (fun r w' => exists rep, r = Ok (Some rep) /\ guessed u k G rep w') w.
Proof.
  intros Hu Hk Ht Hc Hr Hb. unfold fail_attempt. apply wp_bind. wp_use (record_covers u (k_record k) t G) as [-> H1]; [done..|].
  apply wp_bind, wp_emit. intros w2 _ _ _ Hf _. apply wp_ret. exists rep. split; [done|].
  split; [|by intros Hu0 _; apply Hb]. unfold after_reply. rewrite Hr.
  apply (covers_later (k_record k)); [unfold ordered in Hk; lia|]. eapply covers_same; [exact Hf|]. by destruct (u =? user0).
Qed.

(** A reply that is no guess. *)
Lemma guessed_idle u k t G rep w :
  wrong rep = false -> match rep with Verified _ true => False | _ => True end ->
  t <= k_stamp k -> covers t G w -> guessed u k G rep w.
Proof.
  intros Hw Hv Ht Hc. split; [|by rewrite Hw]. apply (covers_later t); [done|]. unfold after_reply. rewrite Hw.
  destruct (u =? user0); cbn [negb]; [|done]. destruct rep as [| | | | | | | | | |y []]; (done || apply covers_nil).
Qed.

Lemma check_backup_guessed u code k t G w :
  in64 u -> ordered k -> t <= k_attempt k -> covers t G w ->
  (u = user0 -> (length (List.filter (recent (k_attempt k)) G) < 5)%nat) ->
  wp (check_backup e u code k) (fun r w' => exists rep, r = Ok rep /\
    match rep with Some rep => guessed u k G rep w' | None => covers t G w' end) w.
Proof.
  intros Hu Hk Ht Hc Hb. unfold check_backup. assert (Hle : t <= k_record k /\ t <= k_stamp k) by (unfold ordered in Hk; lia).
  apply wp_catch, wp_stmt; [apply wp_ret; eexists; split; [done|]; apply (guessed_idle u k t); [done|done|tauto|exact Hc]|].
  set (w1 := set_codes _ w). assert (H1 : covers t G w1) by done. destruct (affected _ _ =? 1)%nat; cbv beta iota.
  - apply wp_catch, wp_query; apply wp_ret; eexists; (split; [done|]); [apply (guessed_idle u k t); [done|done|tauto|exact H1]|done].
  - wp_use (fail_attempt_covers u k _ _ t G) as (rep & -> & Hg); [done|done|tauto|done|done|done|]. eauto.
Qed.

Lemma check_totp_guessed u rec code k t G w :
  in64 u -> ordered k -> t <= k_attempt k -> covers t G w ->
  (u = user0 -> (length (List.filter (recent (k_attempt k)) G) < 5)%nat) ->
  wp (check_totp e CryptoSecret gcm Validate u rec code k) (fun r w' => exists rep, r = Ok rep /\
    match rep with Some rep => guessed u k G rep w' | None => covers (k_mark k) G w' end) w.
Proof.
  intros Hu Hk Ht Hc Hb. unfold check_totp.
  assert (Hle : t <= k_mark k /\ t <= k_record k /\ t <= k_stamp k /\ k_mark k <= k_record k) by (unfold ordered in Hk; lia).
  destruct (DecryptSecret _ _ _); [|apply wp_ret; eexists; split; [done|]; apply (guessed_idle u k t); [done|done|tauto|exact Hc]].
  destruct (ValidateCode _ _ _ _); cbn [negb].
  - apply wp_bind. wp_use (mark_covers u code (k_mark k) t G) as [Hok H1]; [tauto|done|]. destruct r as [[]|]; [apply wp_ret; eauto| |done].
    wp_use (fail_attempt_covers u k _ _ (k_mark k) G) as (rep & -> & Hg); [done|done|tauto|done|done|done|]. eauto.
  - wp_use (fail_attempt_covers u k _ _ t G) as (rep & -> & Hg); [done|done|tauto|done|done|done|]. eauto.
Qed.

Lemma check_factor_guessed u rec req k t G w :
  in64 u -> ordered k -> t <= k_attempt k -> covers t G w ->
  wp (check_factor e CryptoSecret gcm Validate u rec req k) (fun r w' => exists rep, r = Ok rep /\
    match rep with Some rep => guessed u k G rep w' | None => covers (k_stamp k) (if u =? user0 then [] else G) w' end) w.
Proof.
  intros Hu Hk Ht Hc. unfold check_factor. assert (Hle : t <= k_stamp k) by (unfold ordered in Hk; lia).
  destruct (negb _ && negb _); [apply wp_ret; eexists; split; [done|]; by eapply guessed_idle|].
  apply wp_bind. eapply (wp_mono _ (fun r w' => is_ok r = true /\ covers (k_attempt k) G w' /\
    (r = Ok true -> u = user0 -> (length (List.filter (recent (k_attempt k)) G) < 5)%nat))).
  { intros fs. destruct (AllowAttempt_frame e u (k_attempt k) w fs) as [Hok _].
    destruct (allow_covers u (k_attempt k) t G w Ht Hc fs) as [H1 H2]. done. }
  intros r w1 (Hok & H1 & Hb). destruct r as [[]|]; cbn [negb]; [| |done].
  - specialize (Hb eq_refl). apply wp_bind.
    eapply (wp_mono _ (fun r w' => exists rep, r = Ok rep /\ match rep with Some rep => guessed u k G rep w' | None => covers (k_mark k) G w' end)).
    + destruct (String.eqb _ _); [|by apply (check_totp_guessed u rec _ k (k_attempt k))].
      wp_use (check_backup_guessed u _ k (k_attempt k) G) as (rep & -> & Hg); [done|done|done|done|done|].
      eexists; split; [done|]. destruct rep; [done|]. eapply covers_later, Hg. unfold ordered in Hk. lia.
    + intros r w2 (rep & -> & Hg). destruct rep as [rep|]; [apply wp_ret; eauto|].
      apply wp_bind. wp_use (clear_covers u (k_record k) (k_mark k) G) as [-> H3]; [done|done|].
      assert (H4 : covers (k_stamp k) (if u =? user0 then [] else G) t') by (eapply covers_later, H3; unfold ordered in Hk; lia).
      apply wp_bind. destruct (String.eqb _ _); [|apply wp_ret, wp_ret; eauto].
      apply wp_emit. intros w5 _ _ _ Hf _. apply wp_ret. eexists; split; [done|]. by eapply covers_same.
  - apply wp_bind, wp_emit. intros w2 _ _ _ Hf _. apply wp_ret. eexists; split; [done|].
    apply (guessed_idle u k (k_attempt k)); [done|done| |by eapply covers_same]. unfold ordered in Hk. lia.
Qed.

Lemma verify_guessed x req k t G w :
  in64 (x_id x) -> ordered k -> t <= k_attempt k -> covers t G w ->
  wp (UniversalVerify e CryptoSecret gcm Validate REQUIRE_ENROLLMENT x req k) (fun r w' =>
    exists rep, r = Ok rep /\ guessed (x_id x) k G rep w') w.
Proof.
  intros Hu Hk Ht Hc. assert (Hle : t <= k_stamp k) by (unfold ordered in Hk; lia). unfold UniversalVerify.
  assert (Hidle : forall rep w1, wrong rep = false -> match rep with Verified _ true => False | _ => True end -> covers t G w1 ->
    exists r, Ok rep = Ok r :> result step_err reply /\ guessed (x_id x) k G r w1).
  { intros rep w1 Hw Hv H1. eexists. split; [done|]. by eapply guessed_idle. }
  destruct (x_id x =? 0); [by apply wp_ret, Hidle|].
  apply wp_bind. unfold user_status. apply wp_catch, wp_query; apply wp_ret; [by apply wp_ret, Hidle|].
  destruct (negb _); [by apply wp_ret, Hidle|]. apply wp_catch, wp_query; [by apply wp_ret, Hidle|]. apply wp_bind.
  destruct (enrolled_rec _) as [rec|].
  - wp_use (check_factor_guessed (x_id x) rec _ k t G) as (rep & -> & Hg); [done..|].
    destruct rep as [rep|]; [apply wp_ret; eauto|]. unfold stamp_session.
    rewrite bool_decide_eq_true_2 by eauto.
    apply wp_catch, wp_on_sess, wp_stmt; apply wp_ret; (eexists; split; [done|]); (split; [|done]); unfold after_reply; cbn [wrong];
      destruct (x_id x =? user0); exact Hg.
  - unfold check_session. destruct (negb _); [by apply wp_ret, wp_ret, Hidle|]. destruct (secureVerificationRequireEnrollment _).
    all: apply wp_bind, wp_emit; intros w2 _ _ _ Hf _; apply wp_ret.
    + apply wp_ret, Hidle; [done|done|by eapply covers_same].
    + rewrite bool_decide_eq_false_2 by (by intros [? ?]). unfold stamp_session.
      apply wp_catch, wp_on_sess, wp_stmt; apply wp_ret, Hidle; (done || by eapply covers_same).
Qed.

Definition after_confirm (u : Z) (r : totp_reply) (G : list Z) : list Z :=
  if negb (u =? user0) then G else match r with TCodes _ | TError => [] | _ => G end.

(** What leaves the throttle of the process alone. *)
Lemma fails_stmt F {A} (f : world R -> result step_err (A * world R)) :
  (forall w a w', f w = Ok (a, w') -> memFails w' = memFails w) -> preserves (fun w => memFails w = F) (stmt f).
Proof. intros Hf. apply preserves_stmt. intros w a w' Hi He. by rewrite (Hf _ _ _ He). Qed.

Lemma fails_sess F {A} (m : M (sessdb R) sess_err A) : preserves (fun w => memFails w = F) (on_sess m).
Proof. intros [w fs] Hi. unfold on_sess. cbn in *. by destruct (m _) as [r [d fs']]. Qed.

Ltac fails_simple :=
  repeat first
    [ progress solve_preserves
    | apply fails_sess
    | apply fails_stmt; intros ? ? ? ?; by repeat case_match; simplify_eq ].

Lemma issue_fails F u ds now : preserves (fun w => memFails w = F) (issueBackupCodes u ds now).
Proof. unfold issueBackupCodes, ReplaceUserTOTPBackupCodes, delete_codes, insert_backup_rows. fails_simple. Qed.

Lemma covers_idle {A} (m : M (world R) step_err A) t G w :
  (forall F, preserves (fun w => memFails w = F) m) -> covers t G w -> wp m (fun _ => covers t G) w.
Proof.
  intros Hm Hc. eapply wp_mono; [apply (preserves_wp _ (fun w' => memFails w' = memFails w)); [apply Hm|done]|].
  cbn beta. intros _ w' Hw. by eapply covers_same.
Qed.

(** After a valid code: the codes are issued and the factor is switched on. *)
Lemma confirm_rest rec u ds k G w :
  covers (k_stamp k) (if u =? user0 then [] else G) w ->
  wp (try! backup := issueBackupCodes u ds (time_Unix (k_stamp k)) in
      match backup with
      | Err _ => ret TError
      | Ok backup =>
          try! r := UpsertUserTOTP rec in
          match r with
          | Err _ => ret TError
          | Ok _ => let! _ := emit ActionUserSelfUpdated "totp_enrolled" in ret (TCodes backup)
          end
      end) (fun r w' => exists rep, r = Ok rep /\ covers (k_stamp k) (after_confirm u rep G) w') w.
Proof.
  intros Hc. set (G1 := if u =? user0 then [] else G) in *.
  assert (Herr : forall w1, covers (k_stamp k) G1 w1 -> exists rep, Ok TError = Ok rep :> result step_err totp_reply /\ covers (k_stamp k) (after_confirm u rep G) w1).
  { intros w1 H1. eexists; split; [done|]. unfold after_confirm. unfold G1 in H1. by destruct (u =? user0). }
  apply wp_catch. eapply wp_mono; [apply covers_idle; [intros F; apply issue_fails|exact Hc]|]. cbn beta.
  intros [cs|] w1 H1; [|by apply wp_ret, Herr]. unfold UpsertUserTOTP. apply wp_catch, wp_stmt; [by apply wp_ret, Herr|].
  apply wp_bind, wp_emit. intros w2 _ _ _ Hf _. apply wp_ret. eexists; split; [done|].
  eapply covers_same; [exact Hf|]. unfold after_confirm. unfold G1 in H1. by destruct (u =? user0).
Qed.

Lemma confirm_guessed u code ds k t G w :
  in64 u -> ordered k -> t <= k_attempt k -> covers t G w ->
  wp (TotpConfirm e CryptoSecret gcm Validate u code ds k) (fun r w' =>
    exists rep, r = Ok rep /\ covers (k_stamp k) (after_confirm u rep G) w') w.
Proof.
  intros Hu Hk Ht Hc. unfold ordered in Hk. unfold TotpConfirm.
  assert (Hidle : forall rep w1 t1, t1 <= k_stamp k -> covers t1 G w1 ->
    exists r, Ok rep = Ok r :> result step_err totp_reply /\ covers (k_stamp k) (after_confirm u r G) w1).
  { intros rep w1 t1 Ht1 H1. eexists. split; [done|]. apply (covers_later t1); [done|]. unfold after_confirm.
    destruct (u =? user0); cbn [negb]; [|done]. destruct rep; (done || apply covers_nil). }
  destruct (u =? 0); [apply wp_ret, (Hidle _ _ t); [lia|done]|]. destruct (String.eqb code ""); [apply wp_ret, (Hidle _ _ t); [lia|done]|].
  apply wp_catch, wp_query; [apply wp_ret, (Hidle _ _ t); [lia|done]|].
  destruct (first_where _ _) as [rec|]; [|apply wp_ret, (Hidle _ _ t); [lia|done]].
  destruct (t_Enabled rec); [apply wp_ret, (Hidle _ _ t); [lia|done]|]. apply wp_bind.
  eapply (wp_mono _ (fun r w' => is_ok r = true /\ covers (k_attempt k) G w')).
  { intros fs. split; [by destruct (AllowAttempt_frame e u (k_attempt k) w fs)|].
    by destruct (allow_covers u (k_attempt k) t G w Ht Hc fs) as [H1 _]. }
  intros r w1 [Hok H1]. destruct r as [[]|]; cbn [negb]; [|apply wp_ret, (Hidle _ _ (k_attempt k)); [lia|done]|done].
  destruct (DecryptSecret _ _ _); [|apply wp_ret, (Hidle _ _ (k_attempt k)); [lia|done]]. apply wp_bind.
  eapply (wp_mono _ (fun r w' => is_ok r = true /\ covers (k_mark k) G w')).
  { destruct (ValidateCode _ _ _ _); [apply (mark_covers u code (k_mark k) (k_attempt k)); [lia|done]|].
    apply wp_ret. split; [done|]. eapply covers_later, H1. lia. }
  intros r w2 [Hok2 H2]. destruct r as [[]|]; cbn [negb]; [| |done].
  - apply wp_bind. wp_use (clear_covers u (k_record k) (k_mark k) G) as [-> H3]; [done|done|].
    apply confirm_rest. eapply covers_later, H3. lia.
  - apply wp_bind. wp_use (record_covers u (k_record k) (k_mark k) G) as [-> H3]; [done|lia|done|].
    apply wp_bind, wp_emit. intros w4 _ _ _ Hf _. apply wp_ret, (Hidle _ _ (k_record k)); [lia|].
    eapply covers_same; [exact Hf|]. intros now Hn. specialize (H3 now Hn). destruct (u =? user0); [|done].
    rewrite List.filter_app, length_app in H3. lia.
Qed.

(** *** Requests in turn *)

(** One request after the other, by users whose ids are Go ints. *)
Fixpoint in_turn (t : Z) (os : list op) : Prop :=
  match os with
  | [] => True
  | OpVerify x _ k :: os' => in64 (x_id x) /\ t <= k_attempt k /\ ordered k /\ in_turn (k_stamp k) os'
  | OpConfirm u _ _ k :: os' => in64 u /\ t <= k_attempt k /\ ordered k /\ in_turn (k_stamp k) os'
  | _ :: os' => in_turn t os'
  end.

Definition after (o : op) (a : result step_err answer) (G : list Z) : list Z :=
  match o, a with
  | OpVerify x _ k, Ok (AnsVerify r) => after_reply (x_id x) (k_record k) r G
  | OpConfirm u _ _ _, Ok (AnsConfirm r) => after_confirm u r G
  | _, _ => G
  end.

(** The times of the user's wrong codes since a request of theirs last passed or met an
    error. *)
Fixpoint guesses (os : list op) (s : store (world R)) (G : list Z) : list Z :=
  match os with
  | [] => G
  | o :: os' =>
      let (a, s') := run e CryptoSecret gcm Validate REQUIRE_ENROLLMENT o s in guesses os' s' (after o a G)
  end.

Definition spaced (G : list Z) : Prop :=
  forall i g g', G !! i = Some g -> G !! (i + 5)%nat = Some g' -> failWindow <= g' - g.

Record budget (t : Z) (G : list Z) w : Prop := {
  b_covers : covers t G w;
  b_spaced : spaced G;
  b_sorted i j g g' : (i <= j)%nat -> G !! i = Some g -> G !! j = Some g' -> g <= g';
  b_past g : g ∈ G -> g <= t
}.

Lemma spaced_snoc G a now :
  (forall i j g g', (i <= j)%nat -> G !! i = Some g -> G !! j = Some g' -> g <= g') ->
  (length (List.filter (recent a) G) < 5)%nat -> a <= now -> spaced G -> spaced (G ++ [now]).
Proof.
  intros Hs Hb Ha Hsp i g g' Hi Hj. assert (i < length (G ++ [now]))%nat by (by eapply lookup_lt_Some).
  apply lookup_app_Some in Hj as [Hj|[Hl Hj]].
  { eapply Hsp; [|exact Hj]. apply lookup_lt_Some in Hj. rewrite lookup_app_l in Hi; [done|lia]. }
  apply list_lookup_singleton_Some in Hj as [Hz <-]. rewrite lookup_app_l in Hi by lia.
  destruct (recent a g) eqn:Hr; [|unfold recent, time_Sub, sat64, failWindow in *; unfold64; unfold minute, second in *; lia].
  exfalso. assert (Hall : List.filter (recent a) (drop i G) = drop i G).
  { apply forallb_filter_id, forallb_forall. intros x Hx. apply list_elem_of_In, list_elem_of_lookup in Hx as [j Hj].
    rewrite lookup_drop in Hj. assert (g <= x) by (eapply Hs; [|exact Hi|exact Hj]; lia).
    unfold recent, time_Sub, sat64 in *. lia. }
  rewrite <- (take_drop i G), List.filter_app, length_app, Hall, length_drop in Hb. lia.
Qed.

Lemma budget_later t t' G w : t <= t' -> budget t G w -> budget t' G w.
Proof. intros Ht [H1 H2 H3 H4]. split; [by eapply covers_later|done|done|]. intros g Hg. specialize (H4 g Hg). lia. Qed.

Lemma budget_nil t w : budget t [] w.
Proof. split; [apply covers_nil|by intros ? ? ?|by intros ? ? ? ?|]. by intros g ?%not_elem_of_nil. Qed.

Lemma budget_covers t G w w' : covers t G w' -> budget t G w -> budget t G w'.
Proof. intros Hc [_ H2 H3 H4]. by split. Qed.

Lemma budget_reply u k t G r w w' :
  ordered k -> t <= k_attempt k -> budget t G w -> guessed u k G r w' -> budget (k_stamp k) (after_reply u (k_record k) r G) w'.
Proof.
  intros Hk Ht [_ Hsp Hs Hp] [Hc Hb]. unfold ordered in Hk. split; [done|..].
  all: unfold after_reply; destruct (Z.eqb_spec u user0) as [Hu|Hu]; cbn [negb]; [|try done; intros g Hg; specialize (Hp g Hg); lia].
  all: destruct (wrong r) eqn:Hw.
  - apply (spaced_snoc G (k_attempt k)); [done|by apply Hb|lia|done].
  - destruct r as [| | | | | | | | | |y []]; (done || by intros ? ? ?).
  - intros i j g g' Hij Hi Hj. apply lookup_app_Some in Hj as [Hj|[Hl Hj]].
    + rewrite lookup_app_l in Hi by (apply lookup_lt_Some in Hj; lia). by eapply Hs.
    + apply list_lookup_singleton_Some in Hj as [Hz <-]. apply lookup_app_Some in Hi as [Hi|[_ Hi]].
      * apply list_elem_of_lookup_2, Hp in Hi. lia.
      * apply list_lookup_singleton_Some in Hi as [_ <-]. lia.
  - destruct r as [| | | | | | | | | |y []]; (done || by intros ? ? ? ?).
  - intros g [Hg| ->%list_elem_of_singleton]%elem_of_app; [specialize (Hp g Hg); lia|lia].
  - assert (Hp' : forall g, g ∈ G -> g <= k_stamp k) by (intros g Hg; specialize (Hp g Hg); lia).
    destruct r as [| | | | | | | | | |y []]; (done || by intros g ?%not_elem_of_nil).
Qed.

Lemma budget_confirm u k t G r w w' :
  t <= k_stamp k -> budget t G w -> covers (k_stamp k) (after_confirm u r G) w' -> budget (k_stamp k) (after_confirm u r G) w'.
Proof.
  intros Ht Hb Hc. apply (budget_later _ (k_stamp k)) in Hb; [|done].
  unfold after_confirm in *. destruct (u =? user0); cbn [negb] in *; [|by eapply budget_covers].
  destruct r; (apply budget_nil || by eapply budget_covers).
Qed.

Lemma run_idle o G w t :
  match o with OpVerify _ _ _ | OpConfirm _ _ _ _ => False | _ => True end -> covers t G w ->
  wp (run e CryptoSecret gcm Validate REQUIRE_ENROLLMENT o) (fun _ => covers t G) w.
Proof.
  intros Ho. apply covers_idle. intros F.
  destruct o; try done; cbn [run]; (apply preserves_bind; [|intros; apply preserves_ret]).
  - unfold TotpEnroll, GetUserTOTP, UpsertUserTOTP. fails_simple.
  - unfold RegenerateTotpBackupCodes, GetUserTOTP, emit. fails_simple. apply issue_fails.
  - unfold TotpDisable, remove_factor, GetUserTOTP, DeleteUserTOTP, DeleteUserTOTPBackupCodes, delete_codes, emit. fails_simple.
  - unfold ForceDisableTotpV2, remove_factor, GetUserTOTP, DeleteUserTOTP, DeleteUserTOTPBackupCodes, delete_codes, emit. fails_simple.
  - unfold SecureVerificationRequired, drop_stamp. fails_simple.
  - apply fails_sess.
  - apply fails_sess.
Qed.

Lemma guesses_spaced os : forall t s G, in_turn t os -> budget t G (tables s) -> spaced (guesses os s G).
Proof.
  induction os as [|o os IH]; intros t s G Hin Hb; cbn [guesses]; [apply Hb|].
  destruct (run _ _ _ _ _ o s) as [a s'] eqn:Hrun.
  assert (Hidle : match o with OpVerify _ _ _ | OpConfirm _ _ _ _ => False | _ => True end ->
    in_turn t os -> spaced (guesses os s' G)).
  { intros Ho Hin'. apply (IH t); [done|]. eapply budget_covers; [|exact Hb].
    exact (wp_run _ _ _ _ _ (run_idle o G (tables s) t Ho (b_covers _ _ _ Hb)) Hrun). }
  destruct o; try (by apply Hidle); cbn [in_turn run] in *; destruct Hin as (Hu & Ht & Hk & Hin).
  - assert (Hw : wp (run e CryptoSecret gcm Validate REQUIRE_ENROLLMENT (OpVerify x req k)) (fun r w' =>
      exists rep, r = Ok (AnsVerify rep) /\ guessed (x_id x) k G rep w') (tables s)).
    { cbn [run]. apply wp_bind. wp_use (verify_guessed x req k t G) as (rep & -> & Hg); [done..|by apply Hb|]. apply wp_ret. eauto. }
    apply (wp_run _ _ _ _ _ Hw) in Hrun as (rep & -> & Hg). apply (IH (k_stamp k)); [done|]. cbn [after]. by eapply budget_reply.
  - assert (Hw : wp (run e CryptoSecret gcm Validate REQUIRE_ENROLLMENT (OpConfirm userId code ds k)) (fun r w' =>
      exists rep, r = Ok (AnsConfirm rep) /\ covers (k_stamp k) (after_confirm userId rep G) w') (tables s)).
    { cbn [run]. apply wp_bind. wp_use (confirm_guessed userId code ds k t G) as (rep & -> & Hg); [done..|by apply Hb|]. apply wp_ret. eauto. }
    apply (wp_run _ _ _ _ _ Hw) in Hrun as (rep & -> & Hg). apply (IH (k_stamp k)); [done|]. cbn [after].
    eapply budget_confirm; [|exact Hb|exact Hg]. unfold ordered in Hk. lia.
Qed.

(** C23. With the throttle of the process, when requests come one after the other, from
    any state: among a user's wrong or replayed codes since a request of theirs last
    passed or met an error, any six in a row span at least the window of five minutes,
    so that at most five guesses fall into any window, whichever factor they try and
    whatever other users do. *)
Theorem guess_budget os t s i g g' :
  in_turn t os ->
  guesses os s [] !! i = Some g -> guesses os s [] !! (i + 5)%nat = Some g' -> failWindow <= g' - g.
Proof. intros Hin. apply (guesses_spaced os t s []); [done|apply budget_nil]. Qed.
End Budget.
End StepUpSpec.

(** ** An instance *)

Section Demo.
Import GoStrings Sha256 Sessions StepUp.

(** A cipher that satisfies the contract of an AEAD, and a check that takes the number of
    a time step as its code. *)
Definition plain_aead : AEAD := mkAEAD 12 (fun _ p => p) (fun _ c => Some c).

Lemma plain_aead_laws : AEADLaws plain_aead.
Proof. by split. Qed.

Definition step_code (t : Z) (code secret : string) : bool :=
  match Atoi code with Some c => Z.abs (c - time_step t) <=? 1 | None => false end.

Definition demo_env : sessenv := mkSessenv "true" "" true.
Definition local_env : sessenv := mkSessenv "true" "" false.

(** Seconds after the epoch. *)
Definition at_s (s : Z) : Z := time_of_unix s.
Definition demo_ticks (s : Z) : ticks := mkTicks (at_s s) (at_s s) (at_s s) (at_s s) (at_s s).

Definition demo_secret : string := default "" (EncryptSecret (fun _ => plain_aead) "key" (Some (replicate 12 7)) "SECRET").

Definition demo_world : world strs :=
  mkWorld [mkTOTP 7 demo_secret true 1 1] [mkCode 1 7 (HashBackupCode 7 "ABCD-EFGH") 1 0] 2
    {[7 := mkAccount "ann" "" 1 "default"]} ∅ ∅ (mkSessdb ∅ [] 1 ∅ ∅ []).

Definition demo_ctx : ctx := mkCtx 7 "sid" "fresh" {["id" := SInt 7]}.

Abbreviation demo_verify req s st := (UniversalVerify demo_env "key" (fun _ => plain_aead) step_code "" demo_ctx req (demo_ticks s) st).
Abbreviation demo_run := (run demo_env "key" (fun _ => plain_aead) step_code "").

Lemma demo_ordered s : ordered (demo_ticks s).
Proof. unfold ordered. cbn. lia. Qed.

Lemma step_up_needs_credential_witness :
  let st := mkStore demo_world [] in
  let st' := (demo_verify (mkVerify "totp_backup" "abcd efgh") 3000 st).2 in
  (exists a, accounts (tables st) !! 7 = Some a /\ a_Status a = UserStatusEnabled) /\
  credential demo_env "key" (fun _ => plain_aead) step_code "" 7 (mkVerify "totp_backup" "abcd efgh") (demo_ticks 3000) true (tables st) (tables st') /\
  stamped demo_ctx (demo_ticks 3000) (tables st) (tables st') /\ 3300 = i64_add (time_Unix (at_s 3000)) SecureVerificationTimeout.
Proof.
  intros st st'.
  apply (step_up_needs_credential demo_env "key" (fun _ => plain_aead) step_code "" demo_ctx (mkVerify "totp_backup" "abcd efgh")
           (demo_ticks 3000) st (Ok (Verified 3300 true)) st').
  - apply demo_ordered.
  - unfold st'. etransitivity; [apply surjective_pairing|]. apply f_equal2; [vm_compute; reflexivity|reflexivity].
Defined.

(** The code of step 100 passes at 3000 s; asked again five steps later, a later code
    passes. *)
Definition demo_first : op := OpVerify demo_ctx (mkVerify "totp" "100") (demo_ticks 3000).
Definition demo_again : op := OpVerify demo_ctx (mkVerify "totp" " 100") (demo_ticks 3030).
Definition demo_wide (t : Z) (code secret : string) : bool := String.eqb code "100".
Definition demo_second : op := OpVerify demo_ctx (mkVerify "totp" " 100 ") (demo_ticks 3090).

Example demo_replayed :
  (demo_run demo_again (demo_run demo_first (mkStore demo_world [])).2).1 = Ok (AnsVerify Replayed).
Proof. vm_compute. reflexivity. Qed.

(** Were a check to accept a code for ever, it would pass again after three steps. *)
Lemma totp_code_once_witness :
  Z.abs (101 - time_step (at_s 3000)) <= 1 /\ 1 < Z.abs (101 - time_step (at_s 3090)).
Proof.
  split; [vm_compute; discriminate|].
  pose (st := mkStore demo_world []).
  pose (go := run demo_env "key" (fun _ => plain_aead) demo_wide "").
  apply (totp_code_once demo_env "key" (fun _ => plain_aead) demo_wide "" demo_first [demo_again] demo_second
           st (go demo_first st).2 (go demo_second (go demo_again (go demo_first st).2).2).2
           (AnsVerify (Verified 3300 true)) (AnsVerify (Verified 3390 true)) 7 "100" " 100 " (demo_ticks 3000) (demo_ticks 3090)).
  - etransitivity; [apply surjective_pairing|]. apply f_equal2; [vm_compute; reflexivity|reflexivity].
  - etransitivity; [apply surjective_pairing|]. apply f_equal2; [vm_compute; reflexivity|reflexivity].
  - reflexivity.
  - reflexivity.
  - vm_compute. reflexivity.
  - constructor; [|constructor; [|constructor]]; (split; [apply demo_ordered|cbn; unfold at_s, time_of_unix, second; lia]).
  - split; [apply demo_ordered|cbn; lia].
  - reflexivity.
  - vm_compute. discriminate.
Defined.

Definition confirm_draws : draws := Some <$> seqZ 0 31 ++ seqZ 0 31 ++ seqZ 0 31.

Lemma enabled_factor_has_codes_witness :
  let w := tables (exec demo_env "key" (fun _ => plain_aead) step_code ""
             [OpEnroll 7 (fun _ => Some ("SECRET", "")) (Some (replicate 12 7)) 1; OpConfirm 7 "100" confirm_draws (demo_ticks 3000)]
             (mkStore (set_totps [] demo_world) [])) in
  (t_Enabled <$> totps w = [true]) /\ factor_inv w.
Proof.
  intros w. split; [vm_compute; reflexivity|]. apply enabled_factor_has_codes.
  split; [vm_compute; constructor|intros r Hr; by apply not_elem_of_nil in Hr].
Defined.

(** Two requests at a time: a confirmation has stored the recovery codes of a pending
    enrolment, a disabling removes the enrolment and the codes, and the confirmation
    switches the factor on, which inserts it again.  An enabled factor is left that has no
    recovery code. *)
Example confirm_races_disable :
  let pending := mkTOTP 7 demo_secret false 1 0 in
  let s := mkStore (set_totps [pending] (set_codes [] demo_world)) [] in
  let s1 := snd (issueBackupCodes 7 confirm_draws 3000 s) in
  let s2 := snd (TotpDisable 7 s1) in
  let w := tables (snd (UpsertUserTOTP (mkTOTP 7 demo_secret true 1 3000) s2)) in
  length (issued (tables s1) 7) = BackupCodeCount /\ (t_Enabled <$> totps w) = [true] /\ issued w 7 = [].
Proof. vm_compute. done. Qed.

Definition demo_guess (s : Z) : op := OpVerify demo_ctx (mkVerify "totp" "1") (demo_ticks s).

(** Five wrong codes, a refusal, and a sixth wrong code when the first has aged. *)
Lemma guess_budget_witness :
  guesses local_env "key" (fun _ => plain_aead) step_code "" 7 (demo_guess <$> [3000; 3001; 3002; 3003; 3004; 3005; 3300]) (mkStore demo_world []) []
    = at_s <$> [3000; 3001; 3002; 3003; 3004; 3300] /\
  failWindow <= at_s 3300 - at_s 3000.
Proof.
  pose (os := demo_guess <$> [3000; 3001; 3002; 3003; 3004; 3005; 3300]).
  split; [vm_compute; reflexivity|].
  apply (guess_budget local_env "key" (fun _ => plain_aead) step_code "" eq_refl 7 ltac:(unfold64; lia) os (at_s 3000) (mkStore demo_world []) 0 (at_s 3000) (at_s 3300)).
  - cbn. repeat split; (unfold at_s, time_of_unix, second; lia) || (unfold64; lia) || (cbn; lia).
  - vm_compute. reflexivity.
  - vm_compute. reflexivity.
Defined.
End Demo.
