(* ===== verification/AuthSpec.v ===== *)
(** * Sessions across logins and revocations

    Theorems on [Sessions] and, for the stamp of a step-up verification, [StepUp]: what a
    login carries over, that a revoked session stays refused, which sessions the registry
    never sees, what a lost expiry does to the throttle, and the secret at rest. *)

From S2P Require Import Prelude Wp GoStrings Json Sha256 Redis Sessions StepUp StepUpSpec.

Section AuthSpec.
Import GoStrings Sha256 Sessions StepUp.
Context {R : Type} `{RL : RedisStringLaws R}.

Implicit Types (d : sessdb R).

(** ** A login keeps the values of the session *)

Lemma login_keeps (e : sessenv) v f d ses sid (s' : store (sessdb R)) :
  v_supported v = true -> v_fresh v <> "" -> cookies d !! v_sid v = Some ses ->
  login_session e v f (mkStore d []) = (Ok (Some sid), s') ->
  sid = v_fresh v /\
  cookies (tables s') !! sid = Some (f (<[sessionRotatedAtKey := SInt64 (v_now v)]> ses)).
Proof.
  intros Hv Hf Hs. unfold login_session, load_session, RotateSessionID, redisDeleteSessionKey, RevokeUserSessionByKey, save, update_registry.
  rewrite Hv. unfold bind, catch, query, stmt, ret. cbn [negb tables faults next_fault]. rewrite Hs. cbn [from_option id].
  apply String.eqb_neq in Hf.
  destruct (String.eqb (v_sid v) "" || String.eqb (v_sid v) (v_fresh v)) eqn:Hold; cbn; rewrite ?Hf; cbn.
  - intros [= <- <-]. cbn. by rewrite lookup_insert_eq.
  - destruct (_ || negb (RedisEnabled e)); cbn; (destruct (SessionRegistryEnabled e); cbn; [rewrite (proj1 (orb_false_elim _ _ Hold)); cbn|]);
      rewrite Hf; cbn; intros [= <- <-]; cbn; by rewrite lookup_insert_eq.
Qed.

(** C39. The stamp of a step-up verification belongs to the session and not to the user
    who passed it: when another user signs in on a session that carries a stamp, the
    fresh session id keeps it, and every route behind step-up verification is open to
    that user until the stamp is five minutes old, whether or not they have a second
    factor. *)
Theorem step_up_survives_login (e : sessenv) u accountID tenantSlug v d ses t0 sid (s' : store (sessdb R)) :
  v_supported v = true -> v_fresh v <> "" ->
  cookies d !! v_sid v = Some ses -> ses !! SecureVerificationSessionKey = Some (SInt64 t0) ->
  bootstrap_session e u accountID tenantSlug v (mkStore d []) = (Ok (200, Some sid), s') ->
  exists ses', cookies (tables s') !! sid = Some ses' /\ ses' !! "id" = Some (SInt (u_Id u)) /\
    forall fresh now (st : store (world R)),
      u_Id u <> 0 -> elapsed_since t0 now < SecureVerificationTimeout ->
      SecureVerificationRequired (mkCtx (u_Id u) sid fresh ses') now st = (Ok GateOpen, st).
Proof.
  intros Hv Hf Hs Ht. unfold bootstrap_session. destruct (negb _); [done|].
  intros (r & s1 & Hl & Hret)%bind_ok. destruct r as [sid'|]; [|done]. injection Hret as -> <-.
  eapply login_keeps in Hl as [-> Hc]; [|done..]. eexists. split; [exact Hc|].
  split; [unfold write_identity; rewrite !lookup_insert_ne by done; by rewrite lookup_insert_eq|].
  intros fresh now st Hid Hnow. unfold SecureVerificationRequired. cbn [x_id x_ses].
  replace (u_Id u =? 0) with false by lia. unfold write_identity, sessionRotatedAtKey.
  rewrite !lookup_insert_ne by done. rewrite Ht. by replace (_ >=? _) with false by lia.
Qed.

(** ** A revoked session stays refused *)

Section Revoked.
Context (e : sessenv) (key0 : string).

(** The registry finds the session and it is revoked. *)
Definition dead d : Prop :=
  exists row, first_where (of_key key0) (registry d) = Some row /\ s_RevokedAt row > 0.

Lemma first_update P f rows row :
  (forall r, s_SessionKey (f r) = s_SessionKey r) ->
  first_where (of_key key0) rows = Some row ->
  first_where (of_key key0) (update_where P f rows) = Some (if P row then f row else row).
Proof.
  intros Hf. unfold first_where, update_where. induction rows as [|r rows IH]; [done|]. cbn.
  replace (of_key key0 (if P r then f r else r)) with (of_key key0 r) by (unfold of_key; destruct (P r); by rewrite ?Hf).
  destruct (of_key key0 r); [by intros [= <-]|done].
Qed.

Lemma dead_update P f :
  (forall r, s_SessionKey (f r) = s_SessionKey r) -> (forall r, s_RevokedAt r > 0 -> s_RevokedAt (f r) > 0) ->
  preserves dead (update_registry (R := R) P f).
Proof.
  intros Hk Hr. apply preserves_stmt. intros d a d' (row & Hrow & Hd) [= <- <-].
  eexists. split; [by apply first_update|]. destruct (P row); [by apply Hr|done].
Qed.

Lemma dead_stmt {A} (f : sessdb R -> result sess_err (A * sessdb R)) :
  (forall d a d', f d = Ok (a, d') -> exists rows, registry d' = registry d ++ rows) -> preserves dead (stmt f).
Proof.
  intros Hf. apply preserves_stmt. intros d a d' (row & Hrow & Hd) He. apply Hf in He as [rows Hr]. exists row. split; [|done].
  rewrite Hr. unfold first_where in *. clear Hr. induction (registry d) as [|x l IH]; [done|]. cbn in *. by destruct (of_key key0 x); eauto.
Qed.

Lemma dead_same {A} (f : sessdb R -> result sess_err (A * sessdb R)) :
  (forall d a d', f d = Ok (a, d') -> registry d' = registry d) -> preserves dead (stmt f).
Proof. intros Hf. apply dead_stmt. intros d a d' He. exists []. rewrite app_nil_r. by eapply Hf. Qed.

Lemma dead_local {A} (f : sessdb R -> A * sessdb R) : (forall d, registry (f d).2 = registry d) -> preserves dead (local f).
Proof. intros Hf [d fs] Hp. unfold local. cbn in *. specialize (Hf d). destruct (f d). cbn in *. unfold dead. by rewrite Hf. Qed.

Lemma dead_revoke P now reason : now > 0 -> preserves dead (update_registry (R := R) P (set_revoked now reason)).
Proof. intros Hn. by apply dead_update. Qed.

Lemma dead_seen P now : preserves dead (update_registry (R := R) P (set_seen now)).
Proof. by apply dead_update. Qed.

#[local] Opaque update_registry.

Ltac dead_simple :=
  repeat first
    [ progress solve_preserves
    | apply dead_seen
    | apply dead_revoke; assumption
    | apply dead_same; intros ? ? ? [= <- <-]; done
    | apply dead_local; done ].

Lemma revoke_rows_dead now rows : now > 0 -> preserves dead (revoke_rows (R := R) now rows).
Proof. intros Hn. induction rows as [|s rows IH]; cbn [revoke_rows]; dead_simple. exact IH. Qed.

Lemma delete_key_dead key : preserves dead (redisDeleteSessionKey (R := R) e key).
Proof. unfold redisDeleteSessionKey. dead_simple. Qed.

Lemma delete_keys_dead rows : preserves dead (deleteSessionKeys (R := R) e rows).
Proof. induction rows as [|s rows IH]; cbn [deleteSessionKeys]; dead_simple; [apply delete_key_dead|exact IH]. Qed.

Lemma cap_audit_dead rows : preserves dead (recordCapExceededAuditEvent (R := R) rows).
Proof. induction rows as [|s rows IH]; cbn [recordCapExceededAuditEvent]; unfold RecordAuditEvent; dead_simple. exact IH. Qed.

Lemma throttle_dead key now : preserves dead (ShouldThrottleSessionTouch e key now).
Proof.
  unfold ShouldThrottleSessionTouch. destruct (RedisEnabled e).
  - apply preserves_catch; [|intros; apply preserves_ret]. apply dead_same. intros d a d'. destruct (SETNX _ _ _ _ _). by intros [= <- <-].
  - apply dead_local. intros d. by repeat case_match.
Qed.

Lemma upsert_dead key userId tenantId ip ua method t now later :
  later > 0 -> preserves dead (UpsertUserSessionSeen e key userId tenantId ip ua method t now later).
Proof.
  intros Hl. unfold UpsertUserSessionSeen, enforceSessionCap, insert_session.
  dead_simple; try apply throttle_dead.
  - apply dead_stmt. intros d a d'. repeat case_match; simplify_eq; try done; (intros [= <- <-]; by eexists).
  - by apply revoke_rows_dead.
  - apply delete_keys_dead.
  - apply cap_audit_dead.
Qed.

Lemma rotate_dead supported oldID fresh now ses : now > 0 -> preserves dead (RotateSessionID (R := R) e supported oldID fresh now ses).
Proof. intros Hn. unfold RotateSessionID, RevokeUserSessionByKey, save. dead_simple; apply delete_key_dead. Qed.

Lemma resolve_dead q minRole : time_Unix (q_time q) > 0 -> preserves dead (resolveSessionIdentity e q minRole).
Proof.
  intros Hq. unfold resolveSessionIdentity, load_session, claim, claim_bridge, claim_token, revoked_session, follow_cache,
    register_session, expire_session, save, IsUserSessionRevoked.
  dead_simple; first [by apply rotate_dead|by apply upsert_dead].
Qed.

(** What may happen to the sessions, the sweep of old rows apart. *)
Inductive sop :=
| SAuth (q : request) (minRole : Z)
| SLogin (u : user) (accountID : Z) (tenantSlug : string) (v : visit)
| SRevokeCurrent (userID : Z) (sid : string) (now : Z)
| SRevokeByID (userID : Z) (sid param : string) (now : Z)
| SRevokeOthers (userID : Z) (sid : string) (now : Z)
| SZitaLogout (sid : string)
| SOIDCLogout (sid fresh : string).

(** The clock is past the epoch. *)
Definition sop_time (o : sop) : Z :=
  match o with
  | SAuth q _ => time_Unix (q_time q)
  | SLogin _ _ _ v => v_now v
  | SRevokeCurrent _ _ now | SRevokeByID _ _ _ now | SRevokeOthers _ _ now => now
  | _ => 1
  end.

Definition srun (o : sop) : M (sessdb R) sess_err unit :=
  match o with
  | SAuth q minRole => let! _ := resolveSessionIdentity e q minRole in ret tt
  | SLogin u accountID tenantSlug v => let! _ := bootstrap_session e u accountID tenantSlug v in ret tt
  | SRevokeCurrent userID sid now => let! _ := RevokeCurrentSessionV2 e userID sid now in ret tt
  | SRevokeByID userID sid param now => let! _ := RevokeSessionByIDV2 e userID sid param now in ret tt
  | SRevokeOthers userID sid now => let! _ := RevokeOtherSessionsV2 e userID sid now in ret tt
  | SZitaLogout sid => ZitaLogout sid
  | SOIDCLogout sid fresh => OIDCLogout sid fresh
  end.

Lemma srun_dead o : sop_time o > 0 -> preserves dead (srun o).
Proof.
  intros Ho. destruct o; cbn [srun sop_time] in *; try (apply preserves_bind; [|intros; apply preserves_ret]).
  - by apply resolve_dead.
  - unfold bootstrap_session, login_session, load_session, save. dead_simple. by apply rotate_dead.
  - unfold RevokeCurrentSessionV2, expire_session, RevokeUserSessionByKey. dead_simple.
  - unfold RevokeSessionByIDV2, GetUserSessionByID, RevokeUserSessionRow, expire_session, RecordAuditEvent. dead_simple; apply delete_key_dead.
  - unfold RevokeOtherSessionsV2, RevokeOtherUserSessions, RecordAuditEvent. dead_simple; apply delete_keys_dead.
  - unfold ZitaLogout, expire_session, RecordAuditEvent. dead_simple.
  - unfold OIDCLogout, save, RecordAuditEvent. dead_simple.
Qed.

Fixpoint sexec (os : list sop) (s : store (sessdb R)) : store (sessdb R) :=
  match os with
  | [] => s
  | o :: os' => sexec os' (srun o s).2
  end.

Lemma sexec_dead os s : Forall (fun o => sop_time o > 0) os -> dead (tables s) -> dead (tables (sexec os s)).
Proof. intros Hos. revert s. induction Hos as [|o os Ho _ IH]; cbn; intros s Hd; [done|]. by apply IH, srun_dead. Qed.

(** C24. With the registry on, a session that was revoked is never accepted again: after
    any requests, logins, logouts and revocations, whichever of their statements fail, a
    request that rests on the cookie of the revoked session is refused when the database
    answers.  (Rows revoked more than thirty days ago are swept.) *)
Theorem revoked_session_stays_out os s q minRole ses :
  SessionRegistryEnabled e = true -> key0 <> "" -> dead (tables s) -> Forall (fun o => sop_time o > 0) os ->
  q_sid q = key0 -> cookies (tables (sexec os s)) !! key0 = Some ses -> ses !! "username" <> None ->
  exists why s', resolveSessionIdentity e q minRole (mkStore (tables (sexec os s)) []) = (Ok (Refuse why), s').
Proof.
  intros He Hk Hd Hos Hq Hc Hu. apply (sexec_dead os) in Hd; [|done]. set (d := tables (sexec os s)) in *. clearbody d.
  destruct Hd as (row & Hrow & Hrev).
  unfold resolveSessionIdentity, load_session. unfold bind at 1, catch at 1. unfold query, stmt. cbn [faults tables next_fault]. rewrite Hq, Hc. cbn [from_option id].
  unfold ret at 1. unfold claim. destruct (ses !! "username") as [name|]; [|done]. unfold bind at 1, ret at 1. cbn [cl_id].
  destruct (header_mismatch _ _); [unfold ret; eauto|]. destruct (ses !! "id") as [[z| |]|]; [|unfold ret; by eauto..].
  unfold revoked_session. rewrite He. cbn [cl_token cl_sid negb andb]. rewrite Hq. apply String.eqb_neq in Hk as Hk'. rewrite Hk'. cbn [negb].
  unfold IsUserSessionRevoked. rewrite Hk'. unfold bind, catch, query, stmt, ret. cbn [faults tables next_fault]. rewrite Hrow.
  replace (s_RevokedAt row >? 0) with true by lia. unfold expire_session, bind, catch, stmt, ret. cbn. eauto.
Qed.
End Revoked.

(** ** Sessions the registry never sees *)

(** A device whose user agent, cut to 255 bytes, is not valid UTF-8 is never registered:
    the insert fails each time and the request goes on, so that no list, cap or
    revocation of sessions reaches it. *)
Theorem unregistrable_session (e : sessenv) key userId tenantId ip ua method t now later (s : store (sessdb R)) :
  pg_text_ok 255 (truncateForColumn ua 255) = false ->
  first_where (of_key key) (registry (tables s)) = None ->
  registry (tables (UpsertUserSessionSeen e key userId tenantId ip ua method t now later s).2) = registry (tables s).
Proof.
  intros Hua Hnew. destruct s as [d fs]. cbn [tables] in *. revert fs.
  change (wp (UpsertUserSessionSeen e key userId tenantId ip ua method t now later) (fun _ d' => registry d' = registry d) d).
  unfold UpsertUserSessionSeen. destruct (String.eqb key ""); [by apply wp_ret|]. apply wp_bind.
  eapply (wp_mono _ (fun _ d' => registry d' = registry d)).
  { unfold ShouldThrottleSessionTouch. destruct (RedisEnabled e).
    - apply wp_catch, wp_stmt; [by apply wp_ret|]. destruct (SETNX _ _ _ _ _). by apply wp_ret.
    - apply wp_local. by repeat case_match. }
  intros [[]|] d1 H1; [by apply wp_ret| |done]. apply wp_bind, wp_query; [done|]. rewrite H1, Hnew.
  apply wp_catch. unfold insert_session. apply wp_stmt; [by apply wp_throw|].
  rewrite Hua, !andb_false_r. cbn [andb negb]. by apply wp_throw.
Qed.

(** ** A lost expiry *)

Section Lockout.
Context (e : sessenv) (u : Z) (He : RedisEnabled e = true).

(** The counter of wrong codes, without an expiry. *)
Definition stuck (n t : Z) (w : world R) : Prop := peeks (unix_ms t) (failKey u) (redis (sess w)) = Some (Itoa n, None).

Lemma stuck_later n t t' w : t <= t' -> stuck n t w -> stuck n t' w.
Proof. unfold stuck. intros Ht Hs. by rewrite (peeks_age (unix_ms t)), Hs by by apply unix_ms_mono. Qed.

Lemma stuck_counts n t w : 0 < n < 1000 -> stuck n t w -> stuck (n + 1) t (tables (RecordFailure e u t (mkStore w [])).2).
Proof.
  intros Hn Hs. unfold RecordFailure. rewrite He. unfold catch, redis_cmd, stmt. cbn [faults next_fault tables].
  destruct (incr_counts (unix_ms t) (failKey u) (redis (sess w)) n) as [H1 H2].
  { unfold stuck in Hs. by rewrite Hs. } { unfold64. lia. }
  destruct (INCR _ _ _) as [a r]. cbn in H1, H2. subst a. replace (n + 1 =? 1) with false by lia. cbn.
  unfold stuck. cbn. rewrite H2. unfold stuck in Hs. by rewrite Hs.
Qed.

Lemma lost_expiry t w :
  peeks (unix_ms t) (failKey u) (redis (sess w)) = None -> stuck 1 t (tables (RecordFailure e u t (mkStore w [false; true])).2).
Proof.
  intros Hnone. unfold RecordFailure. rewrite He. unfold catch, redis_cmd, stmt. cbn [faults next_fault tables].
  destruct (incr_counts (unix_ms t) (failKey u) (redis (sess w)) 0) as [H1 H2].
  { by rewrite Hnone. } { unfold64. lia. }
  destruct (INCR _ _ _) as [a r]. cbn in H1, H2. subst a. change (0 + 1 =? 1) with true. cbn. unfold stuck. cbn. by rewrite H2, Hnone.
Qed.

(** On Redis the counter of wrong codes gets its expiry in a second command after the
    first failure.  When that command is lost, the counter never expires: after four more
    wrong codes, however far apart, the user is refused for good, since only a success,
    which needs an attempt, clears the counter. *)
Theorem lost_expiry_locks_out t1 t2 t3 t4 t5 w :
  t1 <= t2 <= t3 -> t3 <= t4 <= t5 ->
  peeks (unix_ms t1) (failKey u) (redis (sess w)) = None ->
  let fail t w := tables (RecordFailure e u t (mkStore w [])).2 in
  let w1 := tables (RecordFailure e u t1 (mkStore w [false; true])).2 in
  let w5 := fail t5 (fail t4 (fail t3 (fail t2 w1))) in
  forall now, t5 <= now -> (AllowAttempt e u now (mkStore w5 [])).1 = Ok false.
Proof.
  intros H12 H34 Hnone fail w1 w5 now Hnow.
  assert (stuck 1 t2 w1) as Hs1 by (apply (stuck_later 1 t1); [lia|by apply lost_expiry]).
  apply stuck_counts, (stuck_later _ t2 t3) in Hs1; [|lia..]. apply stuck_counts, (stuck_later _ t3 t4) in Hs1; [|lia..].
  apply stuck_counts, (stuck_later _ t4 t5) in Hs1; [|lia..]. apply stuck_counts, (stuck_later _ t5 now) in Hs1; [|lia..].
  unfold AllowAttempt. rewrite He. unfold catch, redis_cmd, stmt. cbn [faults next_fault tables].
  change (stuck 5 now w5) in Hs1. unfold GET. unfold stuck in Hs1. by rewrite Hs1.
Qed.
End Lockout.
End AuthSpec.

(** ** The secret at rest *)

Section Secret.
Import GoStrings Sha256 StepUp.

(** Every digit of the alphabet reads back, and is no padding and no line break. *)
Lemma b64char_spec n : 0 <= n < 64 -> b64value (b64char n) = Some n /\ b64char n <> b64pad /\ newline (b64char n) = false /\ is_byte (b64char n).
Proof.
  intros Hn. assert (forallb (fun n => bool_decide (b64value (b64char n) = Some n) && negb (b64char n =? b64pad) && negb (newline (b64char n)) &&
    (0 <=? b64char n) && (b64char n <? 256)) (seqZ 0 64) = true) as Hall by (vm_compute; reflexivity).
  rewrite forallb_forall in Hall. specialize (Hall n). rewrite <- list_elem_of_In, elem_of_seqZ in Hall.
  specialize (Hall ltac:(lia)). rewrite !andb_true_iff, !negb_true_iff, bool_decide_eq_true in Hall.
  unfold is_byte. split_and!; [tauto|lia|tauto|lia|lia].
Qed.

#[local] Ltac Zify.zify_post_hook ::= Z.to_euclidean_division_equations.

Lemma sextets a b c : is_byte a -> is_byte b -> is_byte c ->
  0 <= a / 4 < 64 /\ 0 <= a mod 4 * 16 + b / 16 < 64 /\ 0 <= b mod 16 * 4 + c / 64 < 64 /\ 0 <= c mod 64 < 64 /\
  a / 4 * 4 + (a mod 4 * 16 + b / 16) / 16 = a /\
  (a mod 4 * 16 + b / 16) mod 16 * 16 + (b mod 16 * 4 + c / 64) / 4 = b /\
  (b mod 16 * 4 + c / 64) mod 4 * 64 + c mod 64 = c.
Proof. unfold is_byte. lia. Qed.

#[local] Ltac Zify.zify_post_hook ::= idtac.

Lemma pad_plain : newline b64pad = false /\ is_byte b64pad.
Proof. by unfold is_byte. Qed.

Lemma b64_ind (P : list Z -> Prop) :
  P [] -> (forall a, P [a]) -> (forall a b, P [a; b]) -> (forall a b c l, P l -> P (a :: b :: c :: l)) -> forall l, P l.
Proof.
  intros H0 H1 H2 H3 l. remember (length l) as n eqn:Hn. revert l Hn. induction n as [n IH] using lt_wf_ind.
  intros [|a [|b [|c l]]] Hn; auto. apply H3, (IH (length l)); [cbn in Hn; lia|done].
Qed.

(** What the encoder writes decodes to what it read, and holds no line break. *)
Lemma b64_roundtrip bs : is_bytes bs ->
  b64decode (b64encode bs) = Some bs /\ Forall (fun c => newline c = false /\ is_byte c) (b64encode bs).
Proof.
  unfold is_bytes. induction bs as [|a|a b|a b c l IH] using b64_ind; intros Hb; [by split; [|constructor]|..].
  - apply Forall_cons in Hb as [Ha _]. destruct (sextets a 0 0) as (S1 & S2 & _ & _ & E1 & _); [done|by unfold is_byte..|].
    change (0 / 16) with 0 in *. rewrite Z.add_0_r in *.
    destruct (b64char_spec _ S1) as (V1 & P1 & N1 & B1), (b64char_spec _ S2) as (V2 & P2 & N2 & B2).
    cbn [b64encode b64decode]. rewrite V1, V2. cbn. rewrite E1. split; [done|]. pose proof pad_plain. repeat (constructor; [done|]). constructor.
  - apply Forall_cons in Hb as [Ha [Hb _]%Forall_cons]. destruct (sextets a b 0) as (S1 & S2 & S3 & _ & E1 & E2 & _); [done|done|by unfold is_byte|].
    change (0 / 64) with 0 in *. rewrite Z.add_0_r in *.
    destruct (b64char_spec _ S1) as (V1 & P1 & N1 & B1), (b64char_spec _ S2) as (V2 & P2 & N2 & B2), (b64char_spec _ S3) as (V3 & P3 & N3 & B3).
    cbn [b64encode b64decode]. rewrite V1, V2. cbn [mbind option_bind]. apply Z.eqb_neq in P3. rewrite P3. cbn [andb]. rewrite V3. cbn.
    rewrite E1, E2. split; [done|]. pose proof pad_plain. repeat (constructor; [done|]). constructor.
  - apply Forall_cons in Hb as [Ha [Hb [Hc Hl]%Forall_cons]%Forall_cons].
    destruct (sextets a b c) as (S1 & S2 & S3 & S4 & E1 & E2 & E3); [done..|]. destruct (IH Hl) as [D F].
    destruct (b64char_spec _ S1) as (V1 & P1 & N1 & B1), (b64char_spec _ S2) as (V2 & P2 & N2 & B2),
      (b64char_spec _ S3) as (V3 & P3 & N3 & B3), (b64char_spec _ S4) as (V4 & P4 & N4 & B4).
    cbn [b64encode b64decode]. rewrite V1, V2. cbn [mbind option_bind]. apply Z.eqb_neq in P3, P4. rewrite P3, P4. cbn [andb].
    rewrite V3, V4, D. cbn. rewrite E1, E2, E3. split; [done|]. repeat (constructor; [done|]). exact F.
Qed.

(** An encrypted secret decrypts to what was encrypted, under any cipher that keeps the
    contract of an AEAD and any nonce. *)
Theorem secret_roundtrip gcm CryptoSecret nonce plain enc :
  AEADLaws (gcmFromSecret gcm CryptoSecret) -> is_bytes nonce -> length nonce = NonceSize (gcmFromSecret gcm CryptoSecret) ->
  EncryptSecret gcm CryptoSecret (Some nonce) plain = Some enc -> DecryptSecret gcm CryptoSecret enc = Some plain.
Proof.
  intros [Hopen Hseal] Hn Hlen. unfold EncryptSecret. cbn [mbind option_bind]. intros [= <-].
  set (c := gcmFromSecret gcm CryptoSecret) in *. unfold DecryptSecret. fold c.
  pose proof (bytes_range plain) as Hp.
  destruct (b64_roundtrip (nonce ++ Seal c nonce (bytes plain))) as [D F].
  { apply Forall_app. split; [done|]. by apply Hseal. }
  rewrite (proj2 (HasPrefix_spec _ _)), TrimPrefix_app by eauto. cbn [negb].
  unfold base64_DecodeString, base64_EncodeToString. rewrite bytes_of_bytes by (eapply Forall_impl; [exact F|]; naive_solver).
  rewrite (forallb_filter_id (fun c0 => negb (newline c0))).
  2:{ apply forallb_forall. intros x Hx. apply negb_true_iff. rewrite Forall_forall in F. apply F. by apply list_elem_of_In. }
  rewrite D. cbn [mbind option_bind]. rewrite length_app, Hlen, <- Hlen.
  replace (_ <? _)%nat with false by (symmetry; apply Nat.ltb_ge; lia).
  rewrite take_app_length, drop_app_length, Hopen by done. cbn [mbind option_bind]. by rewrite of_bytes_bytes.
Qed.
End Secret.

(** ** Instances *)

Section AuthDemo.
Import GoStrings Sessions StepUp.

(** Ann stepped up without a factor; Bob, who has one, signs in on her browser. *)
Definition ann_session : session := {["id" := SInt 7; SecureVerificationSessionKey := SInt64 3000]}.
Definition shared_browser : sessdb strs := mkSessdb {["sid" := ann_session]} [] 1 ∅ ∅ [].
Definition bob : user := mkUser 8 "bob" 1 1 "default".
Definition bob_visit : visit := mkVisit "sid" "fresh" 3010 true.

Lemma step_up_survives_login_witness :
  exists ses', cookies (tables (bootstrap_session demo_env bob 1 "default" bob_visit (mkStore shared_browser [])).2) !! "fresh" = Some ses' /\
    ses' !! "id" = Some (SInt 8) /\
    forall fresh now (st : store (world strs)), 8 <> 0 -> elapsed_since 3000 now < SecureVerificationTimeout ->
      SecureVerificationRequired (mkCtx 8 "fresh" fresh ses') now st = (Ok GateOpen, st).
Proof.
  apply (step_up_survives_login demo_env bob 1 "default" bob_visit shared_browser ann_session 3000 "fresh"
           (bootstrap_session demo_env bob 1 "default" bob_visit (mkStore shared_browser [])).2).
  - reflexivity.
  - discriminate.
  - reflexivity.
  - reflexivity.
  - etransitivity; [apply surjective_pairing|]. apply f_equal2; [vm_compute; reflexivity|reflexivity].
Defined.

(** A revoked device that keeps its cookie. *)
Definition revoked_row : UserSession := mkSession 1 "sid" 7 "default" "" "" "session" 1 1 2000 "user_revoked".
Definition stale_browser : sessdb strs :=
  mkSessdb {["sid" := {["id" := SInt 7; "username" := SString "ann"; "role" := SInt 1; "status" := SInt 1]}]} [revoked_row] 2 ∅ ∅ [].
Definition stale_request : request :=
  mkReq "sid" "fresh" true "" "" "" "" "" None None None (fun _ => None) (fun _ => true) (at_s 3000).

Lemma revoked_session_stays_out_witness :
  exists why s', resolveSessionIdentity demo_env stale_request 1
    (mkStore (tables (sexec demo_env [SZitaLogout "other"; SRevokeOthers 7 "other" 2500] (mkStore stale_browser [true; false; true; true; true]))) []) = (Ok (Refuse why), s').
Proof.
  eapply (revoked_session_stays_out demo_env "sid" [SZitaLogout "other"; SRevokeOthers 7 "other" 2500]).
  - reflexivity.
  - discriminate.
  - exists revoked_row. split; [reflexivity|cbn; lia].
  - repeat constructor.
  - reflexivity.
  - vm_compute. reflexivity.
  - vm_compute. discriminate.
Defined.

(** A user without the factor steps up on nothing but the session, enrols, and within five
    minutes may switch the factor off again: the stamp is still good. *)
Definition plain_user : world strs :=
  mkWorld [] [] 1 {[7 := mkAccount "ann" "" 1 "default"]} ∅ ∅ (mkSessdb ∅ [] 1 ∅ ∅ []).

Example disable_without_totp :
  let go := run demo_env "key" (fun _ => plain_aead) step_code "" in
  let s1 := (go (OpVerify demo_ctx (mkVerify "" "") (demo_ticks 2900)) (mkStore plain_user [])).2 in
  let s2 := (go (OpEnroll 7 (fun _ => Some ("SECRET", "")) (Some (replicate 12 7)) 2990) s1).2 in
  let s3 := (go (OpConfirm 7 "100" (Some <$> seqZ 0 31 ++ seqZ 0 31 ++ seqZ 0 31) (demo_ticks 3000)) s2).2 in
  t_Enabled <$> totps (tables s3) = [true] /\
  (SecureVerificationRequired (mkCtx 7 "sid" "" (default ∅ (cookies (sess (tables s3)) !! "sid"))) (at_s 3100) s3).1 = Ok GateOpen.
Proof. vm_compute. split; reflexivity. Qed.

(** On Redis the window starts with the first wrong code: nine of them fit into less than
    five minutes. *)
Fixpoint attempts (ts : list Z) (s : store (world strs)) : list bool :=
  match ts with
  | [] => []
  | t :: ts' =>
      let (a, s1) := AllowAttempt demo_env 7 (at_s t) s in
      match a with
      | Ok true => true :: attempts ts' (RecordFailure demo_env 7 (at_s t) s1).2
      | _ => false :: attempts ts' s1
      end
  end.

Example nine_guesses_in_a_window :
  attempts [1000; 1297; 1297; 1298; 1298; 1299; 1300; 1300; 1301; 1301; 1302; 1303] (mkStore plain_user []) =
  [true; true; true; true; true; false; true; true; true; true; true; false].
Proof. vm_compute. reflexivity. Qed.

(** The block lasts exactly as long as a code can be valid: a code first used as early as
    possible passes again when it is checked at the end of its validity and marked a
    second later. *)
Example late_mark_replays :
  let go := run demo_env "key" (fun _ => plain_aead) step_code "" in
  let s0 := mkStore demo_world [] in
  let first := OpVerify demo_ctx (mkVerify "totp" "101") (demo_ticks 3000) in
  let late := OpVerify demo_ctx (mkVerify "totp" "101") (mkTicks (at_s 3089) (at_s 3089) (at_s 3090) (at_s 3090) (at_s 3090)) in
  (go first s0).1 = Ok (AnsVerify (Verified 3300 true)) /\ (go late (go first s0).2).1 = Ok (AnsVerify (Verified 3390 true)).
Proof. vm_compute. split; reflexivity. Qed.

(** An agent string the column would hold is cut inside a two-byte character. *)
Definition long_agent : string := of_bytes (replicate 254 97 ++ [195; 169]).

Example agent_cut : pg_text_ok 255 long_agent = true /\ pg_text_ok 255 (truncateForColumn long_agent 255) = false.
Proof. vm_compute. split; reflexivity. Qed.

(** Opera names Chrome first, and the markers are tried in their own order. *)
Example opera_is_chrome :
  UserAgentFamily "Mozilla/5.0 (Windows NT 10.0) AppleWebKit/537.36 (KHTML, like Gecko) Chrome/125.0 Safari/537.36 OPR/111.0" = "Chrome".
Proof. vm_compute. reflexivity. Qed.

Lemma secret_roundtrip_witness :
  DecryptSecret (fun _ => plain_aead) "key" demo_secret = Some "SECRET".
Proof.
  apply (secret_roundtrip (fun _ => plain_aead) "key" (replicate 12 7) "SECRET" demo_secret).
  - apply plain_aead_laws.
  - apply Forall_replicate. unfold is_byte. lia.
  - reflexivity.
  - vm_compute. reflexivity.
Defined.
End AuthDemo.
