(* ===== verification/TokenCache.v ===== *)
(** * API keys: the rows and their copy in Redis

    Model of the struct of internal/adapter/repo/token.go, of the hashes of
    internal/pkg/common/redis.go (RedisHSetObj, RedisHGetObj, RedisHIncrBy,
    RedisHSetField) and of internal/adapter/repo/token_cache.go.

    A struct is written to a hash field by field, each as text, and read back by walking
    the fields of the struct; a [Struct] instance lists the fields the way reflection
    sees them.  Every command may fail, and the two halves of an increment, reading the
    time to live and writing, are separate commands. *)

From coqutil Require Import Datatypes.RecordSetters.
From Stdlib Require Import Ascii.
From stdpp Require Import sorting.
From S2P Require Import Prelude GoStrings Redis StepUp.

Module TokenCache.
Import GoStrings.
Export TriangleBracketNotations.

(** ** Structs as hashes *)

Inductive field (T : Type) :=
| FInt (get : T -> Z) (set : Z -> T -> T)
| FString (get : T -> string) (set : string -> T -> T)
| FBool (get : T -> bool) (set : bool -> T -> T)
| FStringPtr (get : T -> option string) (set : option string -> T -> T)
| FDeletedAt (set : option Z -> T -> T).
Arguments FInt {T}.
Arguments FString {T}.
Arguments FBool {T}.
Arguments FStringPtr {T}.
Arguments FDeletedAt {T}.

Class Struct (T : Type) := {
  zero : T;
  struct_fields : list (string * field T)
}.

(** [time.Parse(time.RFC3339, _)]. *)
Class TimeParse := time_Parse : string -> option Z.

Inductive tok_err :=
| ErrTokDB                       (* the database or Redis *)
| ErrRecordNotFound
| ErrKeyNotCached
| ErrParse (field : string)
| ErrHash                        (* HINCRBY on a value that is no integer *)
| ErrDuplicateKey                (* the unique index on the key *)
| ErrEmptyId
| ErrNoTokenProvided
| ErrInvalidToken
| ErrTokenQuotaExhausted (available : bool) (remain : Z)
| ErrTokenDisabled
| ErrTokenExpired
| ErrTokenLookupFailed
| ErrRotationRaceLost
| ErrRejected (message : string).

#[export] Instance tok_db_error : DbError tok_err := ErrTokDB.

Definition FormatBool (b : bool) : string := if b then "true" else "false".

Definition ParseBool (s : string) : option bool :=
  if bool_decide (s ∈ ["1"; "t"; "T"; "true"; "TRUE"; "True"]) then Some true
  else if bool_decide (s ∈ ["0"; "f"; "F"; "false"; "FALSE"; "False"]) then Some false
  else None.

Section Codec.
Context {T : Type} `{Struct T} {TP : TimeParse}.

(** The text of a field; a deletion time is not written. *)
Definition encode_field (t : T) (f : field T) : option string :=
  match f with
  | FInt get _ => Some (Itoa (get t))
  | FString get _ => Some (get t)
  | FBool get _ => Some (FormatBool (get t))
  | FStringPtr get _ => Some (default "" (get t))
  | FDeletedAt _ => None
  end.

Definition encode (t : T) : gmap string string :=
  list_to_map (omap (fun '(name, f) => (fun v => (name, v)) <$> encode_field t f) struct_fields).

#[global] Arguments encode : simpl never.

Definition decode_text (name value : string) (f : field T) (t : T) : result tok_err T :=
  match f with
  | FInt _ set => match Atoi value with Some n => Ok (set n t) | None => Err (ErrParse name) end
  | FString _ set => Ok (set value t)
  | FBool _ set => match ParseBool value with Some b => Ok (set b t) | None => Err (ErrParse name) end
  | FStringPtr _ set => Ok (if String.eqb value "" then t else set (Some value) t)
  | FDeletedAt set =>
      if String.eqb value "" then Ok t
      else match time_Parse value with Some d => Ok (set (Some d) t) | None => Err (ErrParse name) end
  end.

(** The fields of the struct that the hash has, in order; the first that does not parse
    ends it. *)
Fixpoint decode_fields (h : gmap string string) (fs : list (string * field T)) (t : T) : result tok_err T :=
  match fs with
  | [] => Ok t
  | (name, f) :: fs' =>
      match h !! name with
      | None => decode_fields h fs' t
      | Some value =>
          match decode_text name value f t with
          | Ok t' => decode_fields h fs' t'
          | Err e => Err e
          end
      end
  end.
End Codec.

(** ** Commands on hashes *)

Section Commands.
Context {R : Type} `{RedisHashes R} {TP : TimeParse}.

Abbreviation HM A := (M R tok_err A).

Definition command {A} (f : R -> A * R) : HM A := stmt (fun r => Ok (f r)).

Definition RedisDelKey (now : Z) (key : string) : HM unit := command (fun r => (tt, HashDEL now key r)).

(** A transaction of HSET and EXPIRE; the expiration is in seconds. *)
Definition RedisHSetObj {T} `{Struct T} (now : Z) (key : string) (obj : T) (expiration : Z) : HM unit :=
  command (fun r =>
    let r := HSET now key (encode obj) r in
    (tt, if 0 <? expiration then HashEXPIRE now key (expiration * 1000) r else r)).

Definition RedisHGetObj {T} `{Struct T} (now : Z) (key : string) : HM T :=
  let! h := query (HGETALL now key) in
  if bool_decide (h = ∅) then throw ErrKeyNotCached
  else match decode_fields h struct_fields zero with
       | Ok t => ret t
       | Err e => throw e
       end.

Definition redisTTLNoExpire : Z := -1.

(** What an increment sends once it knows the time to live: a transaction of HINCRBY and
    EXPIRE, HINCRBY alone, or nothing.  A transaction runs to its end when a command in it
    is refused. *)
Definition hincr_write (now : Z) (key fld : string) (delta ttl : Z) : HM unit :=
  if 0 <? ttl then
    let! v := command (fun r => let (v, r) := HINCRBY now key fld delta r in (v, HashEXPIRE now key (ttl * 1000) r)) in
    match v with Some _ => ret tt | None => throw ErrHash end
  else if ttl =? redisTTLNoExpire then
    let! v := command (HINCRBY now key fld delta) in
    match v with Some _ => ret tt | None => throw ErrHash end
  else ret tt.

Definition RedisHIncrBy (now : Z) (key fld : string) (delta : Z) : HM unit :=
  let! ttl := query (TTL now key) in
  hincr_write now key fld delta ttl.

Definition RedisHSetField (now : Z) (key fld value : string) : HM unit :=
  let! ttl := query (TTL now key) in
  if 0 <? ttl then
    command (fun r => (tt, HashEXPIRE now key (ttl * 1000) (HSET now key {[fld := value]} r)))
  else if ttl =? redisTTLNoExpire then
    command (fun r => (tt, HSET now key {[fld := value]} r))
  else ret tt.
End Commands.

(** ** Tokens *)

Record Token := mkToken {
  t_Id : Z;
  t_UserId : Z;
  t_TenantId : string;
  t_Key : string;
  t_Status : Z;
  t_Name : string;
  t_CreatedTime : Z;
  t_AccessedTime : Z;
  t_ExpiredTime : Z;
  t_RemainQuota : Z;
  t_UnlimitedQuota : bool;
  t_ModelLimitsEnabled : bool;
  t_ModelLimits : string;
  t_AllowIps : option string;
  t_UsedQuota : Z;
  t_Group : string;
  t_CrossGroupRetry : bool;
  t_Scopes : string;
  t_IdentityAccountID : Z;
  t_CreatorUserId : Z;
  t_LastUsedAt : Z;
  t_AutoRotateDays : Z;
  t_RotatedAt : Z;
  t_RateLimitRPM : Z;
  t_RateLimitTPM : Z;
  t_ProjectId : Z;
  t_TrustedIdentityHeaders : bool;
  t_EmployeeRef : string;
  t_SourceProduct : string;
  t_LogRetention : string;
  t_DeletedAt : option Z
}.

(** [Token{}]. *)
Definition zero_token : Token :=
  mkToken 0 0 "" "" 0 "" 0 0 0 0 false false "" None 0 "" false "" 0 0 0 0 0 0 0 0 false "" "" "" None.

(** The fields in the order reflection walks them. *)
#[export] Instance token_struct : Struct Token := {
  zero := zero_token;
  struct_fields := [
    ("Id", FInt t_Id (fun v t => t <| t_Id := v |>));
    ("UserId", FInt t_UserId (fun v t => t <| t_UserId := v |>));
    ("TenantId", FString t_TenantId (fun v t => t <| t_TenantId := v |>));
    ("Key", FString t_Key (fun v t => t <| t_Key := v |>));
    ("Status", FInt t_Status (fun v t => t <| t_Status := v |>));
    ("Name", FString t_Name (fun v t => t <| t_Name := v |>));
    ("CreatedTime", FInt t_CreatedTime (fun v t => t <| t_CreatedTime := v |>));
    ("AccessedTime", FInt t_AccessedTime (fun v t => t <| t_AccessedTime := v |>));
    ("ExpiredTime", FInt t_ExpiredTime (fun v t => t <| t_ExpiredTime := v |>));
    ("RemainQuota", FInt t_RemainQuota (fun v t => t <| t_RemainQuota := v |>));
    ("UnlimitedQuota", FBool t_UnlimitedQuota (fun v t => t <| t_UnlimitedQuota := v |>));
    ("ModelLimitsEnabled", FBool t_ModelLimitsEnabled (fun v t => t <| t_ModelLimitsEnabled := v |>));
    ("ModelLimits", FString t_ModelLimits (fun v t => t <| t_ModelLimits := v |>));
    ("AllowIps", FStringPtr t_AllowIps (fun v t => t <| t_AllowIps := v |>));
    ("UsedQuota", FInt t_UsedQuota (fun v t => t <| t_UsedQuota := v |>));
    ("Group", FString t_Group (fun v t => t <| t_Group := v |>));
    ("CrossGroupRetry", FBool t_CrossGroupRetry (fun v t => t <| t_CrossGroupRetry := v |>));
    ("Scopes", FString t_Scopes (fun v t => t <| t_Scopes := v |>));
    ("IdentityAccountID", FInt t_IdentityAccountID (fun v t => t <| t_IdentityAccountID := v |>));
    ("CreatorUserId", FInt t_CreatorUserId (fun v t => t <| t_CreatorUserId := v |>));
    ("LastUsedAt", FInt t_LastUsedAt (fun v t => t <| t_LastUsedAt := v |>));
    ("AutoRotateDays", FInt t_AutoRotateDays (fun v t => t <| t_AutoRotateDays := v |>));
    ("RotatedAt", FInt t_RotatedAt (fun v t => t <| t_RotatedAt := v |>));
    ("RateLimitRPM", FInt t_RateLimitRPM (fun v t => t <| t_RateLimitRPM := v |>));
    ("RateLimitTPM", FInt t_RateLimitTPM (fun v t => t <| t_RateLimitTPM := v |>));
    ("ProjectId", FInt t_ProjectId (fun v t => t <| t_ProjectId := v |>));
    ("TrustedIdentityHeaders", FBool t_TrustedIdentityHeaders (fun v t => t <| t_TrustedIdentityHeaders := v |>));
    ("EmployeeRef", FString t_EmployeeRef (fun v t => t <| t_EmployeeRef := v |>));
    ("SourceProduct", FString t_SourceProduct (fun v t => t <| t_SourceProduct := v |>));
    ("LogRetention", FString t_LogRetention (fun v t => t <| t_LogRetention := v |>));
    ("DeletedAt", FDeletedAt (fun v t => t <| t_DeletedAt := v |>))
  ]
}.

Definition TokenStatusEnabled : Z := 1.
Definition TokenStatusDisabled : Z := 2.
Definition TokenStatusExpired : Z := 3.
Definition TokenStatusExhausted : Z := 4.

Definition Clean (t : Token) : Token := t <| t_Key := "" |>.

Definition QuotaAvailable (t : Token) : bool := t_UnlimitedQuota t || (0 <? t_RemainQuota t).

(** The configuration: whether Redis is on, CRYPTO_SECRET and SYNC_FREQUENCY. *)
Record keyenv := mkKeyenv {
  RedisEnabled : bool;
  CryptoSecret : string;
  SyncFrequency : Z
}.

Definition RedisKeyCacheSeconds (e : keyenv) : Z := SyncFrequency e.

Definition cache_key (e : keyenv) (key : string) : string := "token:" +:+ StepUp.GenerateHMAC (CryptoSecret e) key.

#[global] Arguments cache_key : simpl never.

Definition TokenFiledRemainQuota : string := "RemainQuota".

Section Cache.
Context {R : Type} `{RedisHashes R} {TP : TimeParse} (e : keyenv).

Abbreviation HM A := (M R tok_err A).

Definition cacheSetToken (now : Z) (t : Token) : HM unit :=
  RedisHSetObj now (cache_key e (t_Key t)) (Clean t) (RedisKeyCacheSeconds e).

Definition cacheDeleteToken (now : Z) (key : string) : HM unit := RedisDelKey now (cache_key e key).

Definition cacheIncrTokenQuota (now : Z) (key : string) (increment : Z) : HM unit :=
  RedisHIncrBy now (cache_key e key) TokenFiledRemainQuota increment.

Definition cacheDecrTokenQuota (now : Z) (key : string) (decrement : Z) : HM unit :=
  cacheIncrTokenQuota now key (wrap64 (- decrement)).

Definition cacheSetTokenField (now : Z) (key fld value : string) : HM unit :=
  RedisHSetField now (cache_key e key) fld value.

Definition cacheGetTokenByKey (now : Z) (key : string) : HM Token :=
  if negb (RedisEnabled e) then throw ErrKeyNotCached
  else
    let! t := RedisHGetObj now (cache_key e key) in
    ret (t <| t_Key := key |>).
End Cache.

(** ** Reading the lists of a token *)

(** [strings.ReplaceAll] of one byte by nothing. *)
Fixpoint DropByte (c : ascii) (s : string) : string :=
  match s with
  | EmptyString => EmptyString
  | String a s' => if Ascii.eqb a c then DropByte c s' else String a (DropByte c s')
  end.

Definition lf : ascii := ascii_of_nat 10.
Definition blank : ascii := ascii_of_nat 32.
Definition comma : ascii := ascii_of_nat 44.

Definition GetIpLimits (t : Token) : list string :=
  match t_AllowIps t with
  | None => []
  | Some ips =>
      let cleanIps := DropByte blank ips in
      if String.eqb cleanIps "" then []
      else List.filter (fun ip => negb (String.eqb ip "")) ((fun ip => DropByte comma (TrimSpace ip)) <$> Split cleanIps lf)
  end.

Definition GetModelLimits (t : Token) : list string :=
  if String.eqb (t_ModelLimits t) "" then [] else Split (t_ModelLimits t) comma.

Definition GetModelLimitsMap (t : Token) : gmap string bool := list_to_map ((fun m => (m, true)) <$> GetModelLimits t).

Definition GetScopes (t : Token) : list string :=
  if String.eqb (t_Scopes t) "" then []
  else List.filter (fun p => negb (String.eqb p "")) (TrimSpace <$> Split (t_Scopes t) comma).

Definition HasScope (scope : string) (t : Token) : bool :=
  match GetScopes t with
  | [] => true
  | scopes => bool_decide (scope ∈ scopes)
  end.

(** ** A struct read back from its hash *)

Section CodecLemmas.
Context {T : Type} `{Struct T} {TP : TimeParse}.

(** Go's integers. *)
Definition field_ok (t : T) (f : field T) : Prop :=
  match f with FInt get _ => in64 (get t) | _ => True end.

Definition struct_ok (t : T) : Prop := Forall (fun nf => field_ok t nf.2) struct_fields.

(** What reading the text of a field of [t] does: an empty text under a pointer, and a
    deletion time, are left alone. *)
Definition apply_field (t : T) (f : field T) (acc : T) : T :=
  match f with
  | FInt get set => set (get t) acc
  | FString get set => set (get t) acc
  | FBool get set => set (get t) acc
  | FStringPtr get set => if String.eqb (default "" (get t)) "" then acc else set (get t) acc
  | FDeletedAt _ => acc
  end.

Definition reads_back (t : T) : T := foldl (fun acc nf => apply_field t nf.2 acc) zero struct_fields.

Lemma ParseBool_FormatBool b : ParseBool (FormatBool b) = Some b.
Proof. by destruct b. Qed.

Lemma decode_encode_field name (f : field T) t v acc :
  field_ok t f -> encode_field t f = Some v -> decode_text name v f acc = Ok (apply_field t f acc).
Proof.
  destruct f as [get set|get set|get set|get set|set]; cbn; intros Hok [= <-].
  - by rewrite Atoi_Itoa.
  - done.
  - by rewrite ParseBool_FormatBool.
  - by destruct (get t) as [s|]; cbn; [destruct (String.eqb_spec s "")|].
Qed.

Lemma decode_fields_encode (h : gmap string string) t fs acc :
  Forall (fun nf => field_ok t nf.2 /\ h !! nf.1 = encode_field t nf.2) fs ->
  decode_fields h fs acc = Ok (foldl (fun acc nf => apply_field t nf.2 acc) acc fs).
Proof.
  intros Hfs. revert acc. induction Hfs as [|[name f] fs [Hok Hh] _ IH]; intros acc; [done|].
  cbn in Hok, Hh |- *. rewrite Hh. destruct (encode_field t f) as [v|] eqn:Hv.
  - by erewrite decode_encode_field by done.
  - by destruct f.
Qed.

Context (Hnames : NoDup (struct_fields (T := T)).*1).

Lemma encode_lookup t name f : (name, f) ∈ struct_fields -> encode t !! name = encode_field t f.
Proof using Hnames.
  intros Hin. unfold encode. destruct (encode_field t f) as [v|] eqn:Hv.
  - apply elem_of_list_to_map_1.
    + eapply sublist_NoDup; [exact Hnames|]. clear. induction struct_fields as [|[n f] fs IH]; [done|].
      cbn. destruct (encode_field t f); cbn; by constructor.
    + apply list_elem_of_omap. exists (name, f). by rewrite Hv.
  - apply not_elem_of_list_to_map_1. intros ([n v] & -> & ([n' f'] & Hin' & Hf)%list_elem_of_omap)%list_elem_of_fmap.
    cbn in *. destruct (encode_field t f') as [v'|] eqn:Hv'; [|done]. cbn in Hf. simplify_eq.
    assert (f = f') as <-; [|congruence].
    apply list_elem_of_lookup in Hin as [i Hi]. apply list_elem_of_lookup in Hin' as [j Hj].
    assert (i = j) as <-; [|congruence].
    eapply (NoDup_lookup _ i j n Hnames); by rewrite list_lookup_fmap, ?Hi, ?Hj.
Qed.
End CodecLemmas.

(** ** The cached token *)

(** What the cache keeps of a token: an empty allow-list reads back as none. *)
Definition cached (t : Token) : Token :=
  t <| t_AllowIps := (if String.eqb (default "" (t_AllowIps t)) "" then None else t_AllowIps t) |> <| t_DeletedAt := None |>.

Abbreviation token_ok := (struct_ok (T := Token)).

Lemma token_names : NoDup (struct_fields (T := Token)).*1.
Proof. apply (bool_decide_unpack _). vm_compute. exact I. Qed.

Lemma token_reads_back t : reads_back t = cached t.
Proof. unfold reads_back, cached. destruct t as [????????????? ips]. cbn. by destruct (String.eqb (default "" ips) ""). Qed.

Lemma cached_allow_ips t : GetIpLimits (cached t) = GetIpLimits t.
Proof. unfold GetIpLimits, cached. cbn. destruct (t_AllowIps t) as [ips|]; [|done]. cbn. by destruct (String.eqb_spec ips ""); subst. Qed.

(** A hash that holds every field of a token, as its text, decodes to it. *)
Definition holds (h : gmap string string) (t : Token) : Prop :=
  forall name f, (name, f) ∈ struct_fields -> h !! name = encode_field t f.

Lemma decode_token {TP : TimeParse} (h : gmap string string) t :
  struct_ok t -> holds h t ->
  decode_fields h struct_fields zero = Ok (cached t).
Proof.
  intros Hok Hh. rewrite <- token_reads_back. apply decode_fields_encode. apply Forall_forall.
  intros [name f] Hin. split; [|by apply Hh]. by eapply Forall_forall in Hok; [|exact Hin].
Qed.

Lemma token_ok_Clean t : token_ok t -> token_ok (Clean t).
Proof.
  unfold struct_ok, struct_fields, token_struct. intros Hok.
  repeat (apply Forall_cons in Hok as [Hf Hok]; apply Forall_cons_2; [exact Hf|clear Hf]). constructor.
Qed.

Lemma token_texts t name f : (name, f) ∈ struct_fields -> name <> "DeletedAt" -> is_Some (encode_field (T := Token) t f).
Proof.
  intros Hin Hne. assert (Forall (fun nf => nf.1 = "DeletedAt" \/ is_Some (encode_field t nf.2)) (struct_fields (T := Token))) as Hall.
  { unfold struct_fields, token_struct.
    repeat (apply Forall_cons_2; [(left; reflexivity) || (right; eexists; reflexivity)|]). constructor. }
  eapply Forall_forall in Hall as [?|?]; [| |exact Hin]; done.
Qed.

Lemma encode_names {T} `{Struct T} (t : T) name : name ∉ (struct_fields (T := T)).*1 -> encode t !! name = None.
Proof.
  intros Hn. apply not_elem_of_list_to_map_1. intros ([n v] & -> & ([n' f] & Hin & Hf)%list_elem_of_omap)%list_elem_of_fmap.
  destruct (encode_field t f); [|done]. cbn in Hf. simplify_eq. apply Hn, list_elem_of_fmap. by exists (n, f).
Qed.

Lemma token_encode_nonempty (t : Token) : encode t <> ∅.
Proof.
  intros He. pose proof (encode_lookup token_names t "Id" (FInt t_Id (fun v t => t <| t_Id := v |>))) as Hl.
  rewrite He, lookup_empty in Hl. cbn in Hl. by discriminate Hl; left.
Qed.

Section CacheLemmas.
Context {R : Type} `{RedisHashLaws R} {TP : TimeParse} (e : keyenv).

Lemma command_ok {A} (f : R -> A * R) s a s' : command f s = (Ok a, s') -> f (tables s) = (a, tables s').
Proof. intros Hc%stmt_ok. cbn in Hc. by destruct (f (tables s)); simplify_eq. Qed.

Lemma cacheSet_healthy now t r : cacheSetToken e now t (mkStore r []) = (Ok tt, (cacheSetToken e now t (mkStore r [])).2).
Proof. reflexivity. Qed.

(** The hash a cached token is written to. *)
Lemma peek_cacheSetToken now t s s' :
  0 < SyncFrequency e -> cacheSetToken e now t s = (Ok tt, s') ->
  peekh now (cache_key e (t_Key t)) (tables s') =
    Some (encode (Clean t) ∪ hfields now (cache_key e (t_Key t)) (tables s), Some (now + SyncFrequency e * 1000)).
Proof.
  intros Hf Hs%command_ok. unfold RedisKeyCacheSeconds in Hs. rewrite (proj2 (Z.ltb_lt _ _) Hf) in Hs.
  injection Hs as <-. rewrite hexpire_sets by lia. by rewrite hset_merges by apply token_encode_nonempty.
Qed.

Lemma cacheGet_hash now key h d s :
  RedisEnabled e = true -> faults s = [] -> peekh now (cache_key e key) (tables s) = Some (h, d) -> h <> ∅ ->
  cacheGetTokenByKey e now key s =
    (match decode_fields h struct_fields zero with Ok t => Ok (t <| t_Key := key |>) | Err x => Err x end, s).
Proof.
  intros He Hs Hp Hh. destruct s as [r fs]. cbn in Hs, Hp. subst fs. unfold cacheGetTokenByKey. rewrite He. cbn [negb].
  unfold RedisHGetObj, bind, query, stmt, HGETALL, hfields. cbn [tables faults next_fault]. rewrite Hp. cbn [fmap option_fmap option_map fst default]. unfold id.
  rewrite bool_decide_eq_false_2 by done. destruct (decode_fields h struct_fields zero); reflexivity.
Qed.

Lemma cacheGet_none now key s :
  RedisEnabled e = true -> faults s = [] -> peekh now (cache_key e key) (tables s) = None ->
  cacheGetTokenByKey e now key s = (Err ErrKeyNotCached, s).
Proof.
  intros He Hs Hp. destruct s as [r fs]. cbn in Hs, Hp. subst fs. unfold cacheGetTokenByKey. rewrite He. cbn [negb].
  unfold RedisHGetObj, bind, query, stmt, HGETALL, hfields. cbn [tables faults next_fault]. rewrite Hp. cbn [fmap option_fmap option_map fst default].
  by rewrite bool_decide_eq_true_2.
Qed.
End CacheLemmas.

(** What a write leaves of a hash that had no deletion time. *)
Lemma holds_written t (h : gmap string string) : h !! "DeletedAt" = None -> holds (encode t ∪ h) t.
Proof.
  intros Hdel name f Hin. destruct (decide (name = "DeletedAt")) as [->|Hne].
  - rewrite lookup_union, Hdel, (encode_lookup token_names t _ f Hin). by destruct (encode_field t f).
  - rewrite lookup_union_l'; rewrite (encode_lookup token_names t _ f Hin); [done|]. by eapply token_texts.
Qed.

Lemma holds_nonempty t h : holds h t -> h <> ∅.
Proof.
  intros Hh ->. specialize (Hh "Id" (FInt t_Id (fun v t => t <| t_Id := v |>))). rewrite lookup_empty in Hh.
  by discriminate Hh; left.
Qed.

(** C13. A token written to the cache is read back by its key as it was, until it
    expires, whatever an earlier entry of the key held: every field survives the text
    form, an empty allow-list of addresses reads back as no list, which restricts the
    same, and past the expiry the key is not found. *)
Theorem cached_token_roundtrip {R} `{RedisHashLaws R} {TP : TimeParse} e now now' t r s :
  RedisEnabled e = true -> 0 < SyncFrequency e -> struct_ok t -> t_DeletedAt t = None -> now <= now' ->
  hfields now (cache_key e (t_Key t)) r !! "DeletedAt" = None ->
  cacheSetToken e now t (mkStore r []) = (Ok tt, s) ->
  exists t', t_AllowIps t' = (if String.eqb (default "" (t_AllowIps t)) "" then None else t_AllowIps t) /\
    t' <| t_AllowIps := t_AllowIps t |> = t /\ GetIpLimits t' = GetIpLimits t /\
    (cacheGetTokenByKey e now' (t_Key t) s).1 =
      (if now' <? now + SyncFrequency e * 1000 then Ok t' else Err ErrKeyNotCached).
Proof.
  intros He Hf Hok Hd Hnow Hdel Hset. exists (cached t).
  split; [done|]. split; [destruct t; cbn in *; by subst|]. split; [apply cached_allow_ips|].
  assert (faults s = []) as Hs by (injection Hset as <-; done).
  apply peek_cacheSetToken in Hset; [|done]. cbn [tables] in Hset.
  assert (Hp := peekh_age now now' (cache_key e (t_Key t)) (tables s) Hnow). rewrite Hset in Hp. cbn [age] in Hp.
  destruct (Z.leb_spec (now + SyncFrequency e * 1000) now'), (Z.ltb_spec now' (now + SyncFrequency e * 1000)); try lia.
  - by rewrite cacheGet_none.
  - assert (Hh := holds_written (Clean t) _ Hdel).
    rewrite (cacheGet_hash _ _ _ _ _ _ He Hs Hp) by by eapply holds_nonempty.
    rewrite (decode_token _ _ (token_ok_Clean _ Hok) Hh). cbn. by destruct t.
Qed.

(** ** Traffic on a cached key *)

Section Traffic.
Context {R : Type} `{RedisHashLaws R} {TP : TimeParse} (e : keyenv) (key : string).

(** Changes of the quota of a key: the time since the one before, and the amount.  What
    a change answers is logged and forgotten. *)
Fixpoint traffic (now : Z) (l : list (Z * Z)) (s : store R) : Z * store R :=
  match l with
  | [] => (now, s)
  | (gap, delta) :: l' => traffic (now + gap) l' (cacheIncrTokenQuota e (now + gap) key delta s).2
  end.

(** The entry of a key, but for the quota, with a full time to live. *)
Definition fresh_entry (t : Token) (now : Z) (s : store R) : Prop :=
  faults s = [] /\
  exists h q, peekh now (cache_key e key) (tables s) = Some (h, Some (now + SyncFrequency e * 1000)) /\
    in64 q /\ holds h (t <| t_RemainQuota := q |>).

Lemma quota_texts :
  Forall (fun nf => (nf.1 = "RemainQuota" /\ forall t, encode_field t nf.2 = Some (Itoa (t_RemainQuota t))) \/
    (nf.1 <> "RemainQuota" /\ forall t q, encode_field (t <| t_RemainQuota := q |>) nf.2 = encode_field t nf.2))
    (struct_fields (T := Token)).
Proof.
  unfold struct_fields, token_struct.
  repeat (apply Forall_cons_2; [(left; split; reflexivity) || (right; split; [discriminate|intros [] ?; reflexivity])|]).
  constructor.
Qed.

Lemma holds_requota t q (h : gmap string string) q' :
  holds h (t <| t_RemainQuota := q |>) -> holds (<["RemainQuota" := Itoa q']> h) (t <| t_RemainQuota := q' |>).
Proof.
  intros Hh name f Hin. specialize (Hh name f Hin). pose proof quota_texts as Hq.
  eapply Forall_forall in Hq as [[Hn Ht]|[Hn Ht]]; [| |exact Hin]; cbn [fst snd] in *.
  - subst. rewrite lookup_insert_eq. by rewrite Ht.
  - rewrite lookup_insert_ne by done. by rewrite Hh, !Ht.
Qed.

(** Half a second rounds up: an increment in time renews the entry in full. *)
Lemma incr_renews t now gap delta s :
  0 < SyncFrequency e -> 0 <= gap <= 500 -> fresh_entry t now s ->
  fresh_entry t (now + gap) (cacheIncrTokenQuota e (now + gap) key delta s).2.
Proof.
  intros Hf Hg (Hs & h & q & Hp & Hq & Hh). destruct s as [r fs]. cbn in Hs, Hp. subst fs.
  assert (peekh (now + gap) (cache_key e key) r = Some (h, Some (now + SyncFrequency e * 1000))) as Hp'.
  { rewrite (peekh_age now) by lia. rewrite Hp. cbn [age]. destruct (Z.leb_spec (now + SyncFrequency e * 1000) (now + gap)); [lia|done]. }
  unfold cacheIncrTokenQuota, RedisHIncrBy, TTL, ttl_seconds, query, bind, stmt. cbn [tables faults next_fault]. rewrite Hp'.
  replace ((now + SyncFrequency e * 1000 - (now + gap) + 500) / 1000) with (SyncFrequency e) by (Z.to_euclidean_division_equations; lia).
  unfold hincr_write. rewrite (proj2 (Z.ltb_lt _ _) Hf). unfold command, bind, stmt. cbn [tables faults next_fault].
  destruct (HINCRBY (now + gap) (cache_key e key) TokenFiledRemainQuota delta r) as [v r'] eqn:Hi. split; [by destruct v|].
  destruct v as [m|]; cbn [snd ret throw tables].
  - exists (<["RemainQuota" := Itoa m]> h), m. rewrite hexpire_sets by lia.
    pose proof (hincr_stores (now + gap) (cache_key e key) TokenFiledRemainQuota delta r m) as Hst.
    pose proof (hincr_range (now + gap) (cache_key e key) TokenFiledRemainQuota delta r m) as Hrg.
    rewrite Hi in Hst, Hrg. cbn [fst snd] in Hst, Hrg. rewrite Hst by done. unfold hfields. rewrite Hp'. cbn.
    split; [done|]. split; [by apply Hrg|]. by eapply holds_requota.
  - exists h, q. rewrite hexpire_sets by lia.
    pose proof (hincr_refuses (now + gap) (cache_key e key) TokenFiledRemainQuota delta r) as Hst.
    rewrite Hi in Hst. cbn [fst snd] in Hst. rewrite Hst, Hp' by done. done.
Qed.

Lemma traffic_renews t now l s :
  0 < SyncFrequency e -> Forall (fun gd => 0 <= gd.1 <= 500) l -> fresh_entry t now s ->
  fresh_entry t (traffic now l s).1 (traffic now l s).2.
Proof.
  intros Hf Hl. revert now s. induction Hl as [|[gap delta] l Hg _ IH]; intros now s Hs; [done|].
  cbn [traffic]. apply IH, incr_renews; done.
Qed.

Lemma token_ok_requota t q : token_ok t -> in64 q -> token_ok (t <| t_RemainQuota := q |>).
Proof.
  unfold struct_ok, struct_fields, token_struct. intros Hok Hq.
  repeat (apply Forall_cons in Hok as [Hf Hok]; apply Forall_cons_2; [exact Hf || exact Hq|clear Hf]). constructor.
Qed.

Lemma fresh_lookup t now s :
  RedisEnabled e = true -> token_ok t -> fresh_entry t now s ->
  exists q, (cacheGetTokenByKey e now key s).1 = Ok (cached t <| t_RemainQuota := q |> <| t_Key := key |>).
Proof.
  intros He Hok (Hs & h & q & Hp & Hq & Hh). exists q.
  rewrite (cacheGet_hash _ _ _ _ _ _ He Hs Hp) by by eapply holds_nonempty.
  rewrite (decode_token _ _ (token_ok_requota _ _ Hok Hq) Hh). reflexivity.
Qed.
End Traffic.

(** While the quota of a cached key changes at least every half second its copy in
    Redis does not expire: each change re-arms the remaining time rounded to the nearest
    second, so however long ago the token was cached a lookup still answers it as it was
    then, status, expiry and limits included, and only its quota moves. *)
Theorem busy_entry_never_expires {R} `{RedisHashLaws R} {TP : TimeParse} e now t l r s :
  RedisEnabled e = true -> 0 < SyncFrequency e -> struct_ok t ->
  hfields now (cache_key e (t_Key t)) r !! "DeletedAt" = None ->
  cacheSetToken e now t (mkStore r []) = (Ok tt, s) ->
  Forall (fun gd => 0 <= gd.1 <= 500) l ->
  let (now', s') := traffic e (t_Key t) now l s in
  exists q, (cacheGetTokenByKey e now' (t_Key t) s').1 = Ok (cached t <| t_RemainQuota := q |>).
Proof.
  intros He Hf Hok Hdel Hset Hl. destruct (traffic e (t_Key t) now l s) as [now' s'] eqn:Ht.
  assert (faults s = []) as Hs by (injection Hset as <-; done).
  apply peek_cacheSetToken in Hset; [|done].
  assert (in64 (t_RemainQuota t)) as Hq.
  { eapply Forall_forall in Hok; [|do 9 right; left; reflexivity]. exact Hok. }
  assert (fresh_entry e (t_Key t) (Clean t) now s) as Hfr.
  { split; [done|]. eexists _, (t_RemainQuota t). split; [exact Hset|]. split; [done|]. apply (holds_written (Clean t) _ Hdel). }
  eapply traffic_renews in Hfr; [|done..]. rewrite Ht in Hfr.
  apply fresh_lookup in Hfr as [q Hget]; [|done|by apply token_ok_Clean]. exists q. cbn [fst snd] in Hget. rewrite Hget. by destruct t.
Qed.

(** ** A key in use *)

Definition demo_env : keyenv := mkKeyenv true "secret" 60.

Definition demo_token : Token :=
  zero_token <| t_Id := 7 |> <| t_UserId := 3 |> <| t_TenantId := "acme" |> <| t_Key := "k1" |> <| t_Status := 1 |>
    <| t_ExpiredTime := -1 |> <| t_RemainQuota := 500 |> <| t_AllowIps := Some "" |>.

#[local] Instance demo_times : TimeParse := fun _ => None.

Lemma demo_token_ok : struct_ok demo_token.
Proof.
  unfold struct_ok, struct_fields, token_struct.
  repeat (apply Forall_cons_2; [first [exact I | vm_compute; split; discriminate]|]). constructor.
Qed.

Definition demo_cached : store hashes := (cacheSetToken demo_env 1000 demo_token (mkStore ∅ [])).2.

Lemma cached_token_roundtrip_witness :
  exists t', t' <| t_AllowIps := t_AllowIps demo_token |> = demo_token /\
    (cacheGetTokenByKey demo_env 5000 "k1" demo_cached).1 = Ok t' /\
    (cacheGetTokenByKey demo_env 61000 "k1" demo_cached).1 = Err ErrKeyNotCached.
Proof.
  destruct (cached_token_roundtrip demo_env 1000 5000 demo_token (∅ : hashes) demo_cached) as (t' & _ & Ht & _ & Hg);
    [reflexivity|reflexivity|exact demo_token_ok|reflexivity|discriminate|vm_compute; reflexivity|apply cacheSet_healthy|].
  exists t'. split; [exact Ht|]. split; [exact Hg|]. vm_compute. reflexivity.
Defined.

(** An entry of one second, three seconds later. *)
Definition brief_env : keyenv := mkKeyenv true "secret" 1.
Definition brief_cached : store hashes := (cacheSetToken brief_env 1000 demo_token (mkStore ∅ [])).2.

Lemma busy_entry_never_expires_witness :
  exists q, (cacheGetTokenByKey brief_env 4000 "k1" (traffic brief_env "k1" 1000 (repeat (500, -1) 6) brief_cached).2).1 =
    Ok (cached demo_token <| t_RemainQuota := q |>).
Proof.
  pose proof (busy_entry_never_expires brief_env 1000 demo_token (repeat (500, -1) 6) (∅ : hashes) brief_cached) as Hb.
  assert ((traffic brief_env "k1" 1000 (repeat (500, -1) 6) brief_cached).1 = 4000) as Ht by reflexivity.
  change (t_Key demo_token) with "k1" in Hb.
  destruct (traffic brief_env "k1" 1000 (repeat (500, -1) 6) brief_cached) as [now s] eqn:E. cbn in Ht. subst now.
  apply Hb; [reflexivity|reflexivity|exact demo_token_ok|vm_compute; reflexivity|apply cacheSet_healthy|].
  apply Forall_forall. intros gd Hin. apply list_elem_of_In, repeat_spec in Hin. subst gd. split; discriminate.
Defined.

End TokenCache.
