(* ===== verification/TokenStore.v ===== *)
(** * API keys: the operations on the rows

    Model of internal/adapter/repo/token.go (lookup with the copy in Redis, validation,
    creation, edits, rotation of the key, deletion, changes of the quota),
    internal/app/token_service.go and token_rotation.go, and of the handlers of
    internal/adapter/handler/token.go and RotateTokenV2.

    An operation answers before the copy in Redis is refreshed: the refresh is a goroutine,
    here a [task] put aside, whose commands run later, each when the scheduler likes.  The
    clock is Unix milliseconds. *)

From coqutil Require Import Datatypes.RecordSetters.
From Stdlib Require Import Ascii.
From stdpp Require Import sorting.
From S2P Require Import Prelude GoStrings Redis StepUp TokenCache.

Module TokenStore.
Import GoStrings TokenCache.

(** What a goroutine of [AsyncGo] still has to send. *)
Inductive task :=
| TaskSet (t : Token)
| TaskDelete (keys : list string)
| TaskRotated (oldKey : string) (t : Token)
| TaskQuota (key : string) (delta : Z)
| TaskQuotaWrite (key : string) (delta ttl : Z).

Section Store.
Context {R : Type} `{RedisHashes R} {TP : TimeParse} (e : keyenv).

Record keydb := mkKeydb {
  rows : list Token;
  seq_token : Z;
  redis : R;
  pending : list task;
  audit : list (Z * string)   (* auth.token_rotated: the token and the old key's prefix, newest first *)
}.

Definition set_rows (ts : list Token) (db : keydb) : keydb := mkKeydb ts (seq_token db) (redis db) (pending db) (audit db).
Definition set_redis (r : R) (db : keydb) : keydb := mkKeydb (rows db) (seq_token db) r (pending db) (audit db).
Definition set_pending (p : list task) (db : keydb) : keydb := mkKeydb (rows db) (seq_token db) (redis db) p (audit db).

Abbreviation K A := (M keydb tok_err A).

(** A command of the cache, on the server's state. *)
Definition on_redis {A} (m : M R tok_err A) : K A :=
  fun s => let (a, s') := m (mkStore (redis (tables s)) (faults s)) in
    (a, mkStore (set_redis (tables s') (tables s)) (faults s')).

(** Memory, which does not fail. *)
Definition local {A} (f : keydb -> A * keydb) : K A :=
  fun s => let (a, db) := f (tables s) in (Ok a, mkStore db (faults s)).

Definition AsyncGo (tk : task) : K unit := local (fun db => (tt, set_pending (pending db ++ [tk]) db)).

(** [shouldUpdateRedis(true, nil)]. *)
Definition refresh (tk : task) : K unit := if RedisEnabled e then AsyncGo tk else ret tt.

Definition GetTimestamp (now : Z) : Z := now / 1000.

Definition live (t : Token) : bool := bool_decide (t_DeletedAt t = None).
Definition with_key (key : string) (t : Token) : bool := live t && String.eqb (t_Key t) key.
Definition with_id (id : Z) (t : Token) : bool := live t && (t_Id t =? id).

Definition First (P : Token -> bool) : K Token :=
  let! r := query (fun db => first_where P (rows db)) in
  match r with Some t => ret t | None => throw ErrRecordNotFound end.

(** [UPDATE tokens SET ... WHERE P], the number of rows it changed. *)
Definition Updates (P : Token -> bool) (f : Token -> Token) : K nat :=
  stmt (fun db => Ok (affected P (rows db), set_rows (update_where P f (rows db)) db)).

(** The same where the key changes: the index on it is unique, deleted rows included. *)
Definition UpdateKey (P : Token -> bool) (newKey : string) (f : Token -> Token) : K nat :=
  stmt (fun db =>
    if existsb P (rows db) && existsb (fun t => negb (P t) && String.eqb (t_Key t) newKey) (rows db)
    then Err ErrDuplicateKey
    else Ok (affected P (rows db), set_rows (update_where P f (rows db)) db)).

(** ** Lookup and validation *)

Definition GetTokenByKey (now : Z) (key : string) (fromDB : bool) : K Token :=
  let from_database :=
    let! t := First (with_key key) in
    let! _ := refresh (TaskSet t) in
    ret t in
  if negb fromDB && RedisEnabled e then
    try! c := on_redis (cacheGetTokenByKey e now key) in
    match c with Ok t => ret t | Err _ => from_database end
  else from_database.

Definition GetTokenByIds (id userId : Z) : K Token :=
  if (id =? 0) || (userId =? 0) then throw ErrEmptyId
  else First (fun t => with_id id t && (t_UserId t =? userId)).

Definition GetTokenById (id : Z) : K Token :=
  if id =? 0 then throw ErrEmptyId
  else
    let! t := First (with_id id) in
    let! _ := refresh (TaskSet t) in
    ret t.

Definition SelectUpdate (t : Token) : K unit :=
  let! _ := Updates (with_id (t_Id t)) (fun row => row <| t_AccessedTime := t_AccessedTime t |> <| t_Status := t_Status t |>) in
  refresh (TaskSet t).

Definition tokenExhaustedMessage (remainQuota : Z) : tok_err := ErrTokenQuotaExhausted false remainQuota.

(** Without Redis a token found expired or spent is marked so in its row. *)
Definition downgrade (status : Z) (t : Token) : K Token :=
  if RedisEnabled e then ret t
  else
    let t := t <| t_Status := status |> in
    try! _ := SelectUpdate t in
    ret t.

(** The token and the error, as the function returns both. *)
Definition ValidateUserToken (now : Z) (key : string) : K (option Token * option tok_err) :=
  if String.eqb key "" then ret (None, Some ErrNoTokenProvided)
  else
    try! found := GetTokenByKey now key false in
    match found with
    | Ok t =>
        if t_Status t =? TokenStatusExhausted then
          if QuotaAvailable t then ret (Some t, Some (ErrTokenQuotaExhausted true (t_RemainQuota t)))
          else ret (Some t, Some (tokenExhaustedMessage (t_RemainQuota t)))
        else if t_Status t =? TokenStatusExpired then ret (Some t, Some ErrTokenExpired)
        else if negb (t_Status t =? TokenStatusEnabled) then ret (Some t, Some ErrTokenDisabled)
        else if negb (t_ExpiredTime t =? -1) && (t_ExpiredTime t <? GetTimestamp now) then
          let! t := downgrade TokenStatusExpired t in
          ret (Some t, Some ErrTokenExpired)
        else if negb (t_UnlimitedQuota t) && (t_RemainQuota t <=? 0) then
          let! t := downgrade TokenStatusExhausted t in
          ret (Some t, Some (tokenExhaustedMessage (t_RemainQuota t)))
        else ret (Some t, None)
    | Err ErrRecordNotFound => ret (None, Some ErrInvalidToken)
    | Err _ => ret (None, Some ErrTokenLookupFailed)
    end.

(** ** Creation and edits *)

(** The database fills in what the struct leaves at its zero value. *)
Definition with_defaults (t : Token) : Token :=
  t <| t_Status := (if t_Status t =? 0 then TokenStatusEnabled else t_Status t) |>
    <| t_ExpiredTime := (if t_ExpiredTime t =? 0 then -1 else t_ExpiredTime t) |>
    <| t_AllowIps := Some (default "" (t_AllowIps t)) |>.

Definition Insert (t : Token) : K Token :=
  if String.eqb (t_TenantId t) "" then throw (ErrRejected "tenant_id is required for create operations")
  else
    stmt (fun db =>
      if existsb (fun row => String.eqb (t_Key row) (t_Key t)) (rows db) then Err ErrDuplicateKey
      else
        let t := with_defaults t <| t_Id := seq_token db + 1 |> in
        Ok (t, mkKeydb (rows db ++ [t]) (seq_token db + 1) (redis db) (pending db) (audit db))).

(** The columns an edit writes. *)
Definition edited (t row : Token) : Token :=
  row <| t_Name := t_Name t |> <| t_Status := t_Status t |> <| t_ExpiredTime := t_ExpiredTime t |>
    <| t_RemainQuota := t_RemainQuota t |> <| t_UnlimitedQuota := t_UnlimitedQuota t |>
    <| t_ModelLimitsEnabled := t_ModelLimitsEnabled t |> <| t_ModelLimits := t_ModelLimits t |>
    <| t_AllowIps := t_AllowIps t |> <| t_Group := t_Group t |> <| t_CrossGroupRetry := t_CrossGroupRetry t |>
    <| t_Scopes := t_Scopes t |> <| t_RateLimitRPM := t_RateLimitRPM t |> <| t_RateLimitTPM := t_RateLimitTPM t |>
    <| t_ProjectId := t_ProjectId t |> <| t_TrustedIdentityHeaders := t_TrustedIdentityHeaders t |>
    <| t_EmployeeRef := t_EmployeeRef t |>.

(** An update that finds no row is no error. *)
Definition Update (t : Token) : K unit :=
  let! _ := Updates (with_id (t_Id t)) (edited t) in
  refresh (TaskSet t).

Definition UpdateModelLimits (t : Token) : K unit :=
  let! _ := Updates (with_id (t_Id t))
    (fun row => row <| t_ModelLimitsEnabled := t_ModelLimitsEnabled t |> <| t_ModelLimits := t_ModelLimits t |>) in
  refresh (TaskSet t).

(** ** Rotation of the key *)

(** The struct keeps the new key whatever the update answers. *)
Definition rotateKey (t : Token) (newKey : string) (f : Token -> Token) : K Token :=
  let oldKey := t_Key t in
  let t := t <| t_Key := newKey |> in
  let! _ := UpdateKey (with_id (t_Id t)) newKey f in
  let! _ := refresh (TaskRotated oldKey t) in
  ret t.

Definition RotateKey (t : Token) (newKey : string) : K Token :=
  rotateKey t newKey (fun row => row <| t_Key := newKey |>).

Definition RotateKeyWithTimestamp (t : Token) (newKey : string) (rotatedAt : Z) : K Token :=
  rotateKey (t <| t_RotatedAt := rotatedAt |>) newKey (fun row => row <| t_Key := newKey |> <| t_RotatedAt := rotatedAt |>).

Definition RotateKeyWithTimestampCAS (t : Token) (newKey : string) (prevRotatedAt newRotatedAt : Z) : K Token :=
  let oldKey := t_Key t in
  let! n := UpdateKey (fun row => with_id (t_Id t) row && (t_RotatedAt row =? prevRotatedAt)) newKey
    (fun row => row <| t_Key := newKey |> <| t_RotatedAt := newRotatedAt |>) in
  if (n =? 0)%nat then throw ErrRotationRaceLost
  else
    let t := t <| t_Key := newKey |> <| t_RotatedAt := newRotatedAt |> in
    let! _ := refresh (TaskRotated oldKey t) in
    ret t.

Definition ListAutoRotateTokens : K (list Token) :=
  query (fun db => List.filter (fun t => live t && (0 <? t_AutoRotateDays t) && (t_Status t =? TokenStatusEnabled)) (rows db)).

(** ** Deletion *)

Definition Delete (now : Z) (t : Token) : K unit :=
  let! _ := Updates (with_id (t_Id t)) (fun row => row <| t_DeletedAt := Some now |>) in
  refresh (TaskDelete [t_Key t]).

Definition DeleteTokenById (now id userId : Z) : K unit :=
  if (id =? 0) || (userId =? 0) then throw ErrEmptyId
  else
    let! t := First (fun t => with_id id t && (t_UserId t =? userId)) in
    Delete now t.

Definition BatchDeleteTokens (now : Z) (ids : list Z) (userId : Z) : K Z :=
  match ids with
  | [] => throw (ErrRejected "ids cannot be empty")
  | _ =>
      let mine (t : Token) := live t && (t_UserId t =? userId) && bool_decide (t_Id t ∈ ids) in
      let! tokens := transaction (
        let! tokens := query (fun db => List.filter mine (rows db)) in
        let! _ := Updates mine (fun row => row <| t_DeletedAt := Some now |>) in
        ret tokens) in
      let! _ := refresh (TaskDelete (t_Key <$> tokens)) in
      ret (Z.of_nat (length tokens))
  end.

(** ** The quota *)

(** [remain_quota = remain_quota + delta, used_quota = used_quota - delta, accessed_time =
    now]; a sum out of the column's range is an error of the statement. *)
Definition UpdateQuota (P : Token -> bool) (delta now : Z) : K nat :=
  stmt (fun db =>
    if forallb (fun t => negb (P t) || (in64b (t_RemainQuota t + delta) && in64b (t_UsedQuota t - delta))) (rows db)
    then Ok (affected P (rows db),
      set_rows (update_where P (fun row =>
        row <| t_RemainQuota := t_RemainQuota row + delta |> <| t_UsedQuota := t_UsedQuota row - delta |>
            <| t_AccessedTime := GetTimestamp now |>) (rows db)) db)
    else Err ErrTokDB).

Definition increaseTokenQuota (id quota now : Z) : K unit := let! _ := UpdateQuota (with_id id) quota now in ret tt.
Definition decreaseTokenQuota (id quota now : Z) : K unit := let! _ := UpdateQuota (with_id id) (- quota) now in ret tt.

(** The goroutine of the cache starts before the row is written; with the batch updater on,
    the row is written by its flush. *)
Definition IncreaseTokenQuota (batch : bool) (id : Z) (key : string) (quota now : Z) : K unit :=
  if quota <? 0 then throw (ErrRejected "quota cannot be negative")
  else
    let! _ := refresh (TaskQuota key quota) in
    if batch then ret tt else increaseTokenQuota id quota now.

Definition DecreaseTokenQuota (batch : bool) (id : Z) (key : string) (quota now : Z) : K unit :=
  if quota <? 0 then throw (ErrRejected "quota cannot be negative")
  else
    let! _ := refresh (TaskQuota key (- quota)) in
    if batch then ret tt else decreaseTokenQuota id quota now.

Definition DecreaseTokenQuotaIfEnough (id : Z) (key : string) (quota now : Z) : K bool :=
  if quota <? 0 then throw (ErrRejected "quota cannot be negative")
  else
    let! n := UpdateQuota (fun row => with_id id row && (t_RemainQuota row >=? quota)) (- quota) now in
    if (n =? 0)%nat then ret false
    else
      let! _ := refresh (TaskQuota key (- quota)) in
      ret true.

(** ** Goroutines *)

(** The next command of a goroutine and what is left of it.  Errors are logged. *)
Definition run_task (now : Z) (tk : task) : K (option task) :=
  match tk with
  | TaskSet t => try! _ := on_redis (cacheSetToken e now t) in ret None
  | TaskDelete [] => ret None
  | TaskDelete (key :: keys) =>
      try! _ := on_redis (cacheDeleteToken e now key) in
      ret (match keys with [] => None | _ => Some (TaskDelete keys) end)
  | TaskRotated oldKey t => try! _ := on_redis (cacheDeleteToken e now oldKey) in ret (Some (TaskSet t))
  | TaskQuota key delta =>
      try! ttl := on_redis (query (TTL now (cache_key e key))) in
      ret (match ttl with Ok ttl => Some (TaskQuotaWrite key delta ttl) | Err _ => None end)
  | TaskQuotaWrite key delta ttl =>
      try! _ := on_redis (hincr_write now (cache_key e key) TokenFiledRemainQuota delta ttl) in ret None
  end.

(** The scheduler picks a goroutine. *)
Definition run_nth (now : Z) (i : nat) : K unit :=
  let! tk := local (fun db => (pending db !! i, set_pending (delete i (pending db)) db)) in
  match tk with
  | None => ret tt
  | Some tk =>
      let! rest := run_task now tk in
      match rest with Some tk' => AsyncGo tk' | None => ret tt end
  end.

(** ** Rules of internal/app/token_service.go *)

Definition TokenNameMaxLength : nat := 50.
Definition MaxTokenExpiredTime : Z := 32503680000.
Definition MaxRateLimitPerMinute : Z := 1000000000.
Definition MaxTokenModelLimitsLength : nat := 1024.

Definition ValidateTokenName (name : string) : bool := (String.length name <=? TokenNameMaxLength)%nat.

(** [maxQuotaValue] is 10^9 units of quota, 5*10^14 with the value the program starts with. *)
Definition ValidateTokenQuota (maxQuotaValue remainQuota : Z) (unlimitedQuota : bool) : bool :=
  unlimitedQuota || ((0 <=? remainQuota) && (remainQuota <=? maxQuotaValue)).

Definition ValidateTokenExpiredTime (expiredTime : Z) : bool := expiredTime <=? MaxTokenExpiredTime.

Definition ValidateRateLimits (rpm tpm : Z) : bool :=
  negb ((rpm <? 0) || (tpm <? 0)) && negb ((rpm >? MaxRateLimitPerMinute) || (tpm >? MaxRateLimitPerMinute)).

Definition ValidateTokenModelLimits (modelLimits : string) (enabled : bool) : bool :=
  negb enabled ||
  ((String.length modelLimits <=? MaxTokenModelLimitsLength)%nat &&
   forallb (fun m => negb (String.eqb (TrimSpace m) "")) (Split modelLimits comma)).

Definition CanEnableToken (now : Z) (t : Token) : bool :=
  negb ((t_Status t =? TokenStatusExpired) && (t_ExpiredTime t <=? GetTimestamp now) && negb (t_ExpiredTime t =? -1)) &&
  negb ((t_Status t =? TokenStatusExhausted) && (t_RemainQuota t <=? 0) && negb (t_UnlimitedQuota t)).

Definition BuildCleanToken (now userId : Z) (tenantId : string) (t : Token) (key : string) (identityAccountID : Z) : Token :=
  zero_token <| t_UserId := userId |> <| t_TenantId := tenantId |> <| t_Name := t_Name t |> <| t_Key := key |>
    <| t_CreatedTime := GetTimestamp now |> <| t_AccessedTime := GetTimestamp now |> <| t_ExpiredTime := t_ExpiredTime t |>
    <| t_RemainQuota := t_RemainQuota t |> <| t_UnlimitedQuota := t_UnlimitedQuota t |>
    <| t_ModelLimitsEnabled := t_ModelLimitsEnabled t |> <| t_ModelLimits := t_ModelLimits t |>
    <| t_AllowIps := t_AllowIps t |> <| t_Group := t_Group t |> <| t_CrossGroupRetry := t_CrossGroupRetry t |>
    <| t_Scopes := t_Scopes t |> <| t_RateLimitRPM := t_RateLimitRPM t |> <| t_RateLimitTPM := t_RateLimitTPM t |>
    <| t_IdentityAccountID := identityAccountID |>.

Definition ApplyTokenUpdate (target source : Token) : Token :=
  target <| t_Name := t_Name source |> <| t_ExpiredTime := t_ExpiredTime source |> <| t_RemainQuota := t_RemainQuota source |>
    <| t_UnlimitedQuota := t_UnlimitedQuota source |> <| t_ModelLimitsEnabled := t_ModelLimitsEnabled source |>
    <| t_ModelLimits := t_ModelLimits source |> <| t_AllowIps := t_AllowIps source |> <| t_Group := t_Group source |>
    <| t_CrossGroupRetry := t_CrossGroupRetry source |> <| t_Scopes := t_Scopes source |>
    <| t_RateLimitRPM := t_RateLimitRPM source |> <| t_RateLimitTPM := t_RateLimitTPM source |>.

(** The scopes a token may carry, in the order they are stored. *)
Definition ValidTokenScopes : list string := ["chat"; "embedding"; "image"; "audio"; "realtime"; "mj"; "task"; "admin"].

Definition IsValidTokenScope (s : string) : bool := bool_decide (s ∈ ValidTokenScopes).

Fixpoint Join (l : list string) (sep : string) : string :=
  match l with
  | [] => ""
  | [s] => s
  | s :: l' => s +:+ sep +:+ Join l' sep
  end.

(** [None]: a scope that does not exist. *)
Definition NormalizeTokenScopes (scopes : list string) : option string :=
  let given := List.filter (fun s => negb (String.eqb s "")) (TrimSpace <$> scopes) in
  if forallb IsValidTokenScope given then Some (Join (List.filter (fun v => bool_decide (v ∈ given)) ValidTokenScopes) ",")
  else None.

(** ** Handlers *)

Section Handlers.
Context (maxQuotaValue : Z).

Definition valid_body (t : Token) : bool :=
  ValidateTokenName (t_Name t) && ValidateTokenQuota maxQuotaValue (t_RemainQuota t) (t_UnlimitedQuota t) &&
  ValidateTokenExpiredTime (t_ExpiredTime t) && ValidateRateLimits (t_RateLimitRPM t) (t_RateLimitTPM t).

(** The body of the request, the random key ([None]: none could be drawn), the caller and
    its platform account. *)
Definition AddToken (now userId : Z) (tenantId : string) (identityAccountID : Z) (body : Token) (newKey : option string) : K Token :=
  if negb (valid_body body) then throw (ErrRejected "body")
  else match newKey with
       | None => throw (ErrRejected "key")
       | Some key =>
           Insert (BuildCleanToken now userId (if String.eqb tenantId "" then "default" else tenantId) body key identityAccountID)
       end.

(** The edit of a key: the row is read and changed in memory, then written. *)
Definition UpdateToken_read (now userId : Z) (statusOnly : string) (body : Token) : K Token :=
  if negb (valid_body body) then throw (ErrRejected "body")
  else
    let! cleanToken := GetTokenByIds (t_Id body) userId in
    if (t_Status body =? TokenStatusEnabled) && negb (CanEnableToken now cleanToken) then throw (ErrRejected "enable")
    else
      ret (if String.eqb statusOnly "" then ApplyTokenUpdate cleanToken body
           else cleanToken <| t_Status := t_Status body |>).

Definition UpdateToken (now userId : Z) (statusOnly : string) (body : Token) : K Token :=
  let! t := UpdateToken_read now userId statusOnly body in
  let! _ := Update t in
  ret t.

(** The row is read for its tenant, then the key is drawn and written. *)
Definition RotateTokenV2_read (userId : Z) (tenantId : string) (id : Z) : K Token :=
  let! t := GetTokenByIds id userId in
  if String.eqb (t_TenantId t) tenantId then ret t else throw (ErrRejected "Access denied").

Definition RotateTokenV2 (userId : Z) (tenantId : string) (id : Z) (newKey : option string) : K Token :=
  let! t := RotateTokenV2_read userId tenantId id in
  match newKey with
  | None => throw (ErrRejected "key")
  | Some key => RotateKey t key
  end.
End Handlers.

(** ** The heartbeat of a client *)

(** The key of the Authorization header: without the scheme, the sk- and a channel. *)
Definition heartbeat_key (rawAuth : string) : string :=
  let key := TrimSpace rawAuth in
  let key := if HasPrefix key "Bearer " || HasPrefix key "bearer " then TrimSpace (String.substring 7 (String.length key) key) else key in
  let key := TrimPrefix key "sk-" in
  match Cut key "-"%char with
  | Some (k, _) => if String.eqb k "" then key else k
  | None => key
  end.

Inductive heartbeat :=
| HbRefused (code : Z) (status : string)   (* the HTTP status and data.status, if any *)
| HbExpired
| HbActive (t : Token).                    (* the row to write back *)

(** What else the request meets: whether its body parses, the status of the token's user
    (none if there is none), the id of the tenant in the path ([None]: no slug in it,
    [Some None]: no such tenant), and the gate of the token's tenant. *)
Record hbenv := mkHbenv {
  hb_body : bool;
  hb_user : Z -> option Z;
  hb_slug : option (option string);
  hb_gate : string -> bool
}.

Definition UserStatusDisabled : Z := 2.

(** Up to the write: the token as it was found, in the cache or in its row. *)
Definition UserHeartbeat_read (now : Z) (rawAuth : string) (env : hbenv) : K heartbeat :=
  let key := heartbeat_key rawAuth in
  if String.eqb (TrimSpace rawAuth) "" || String.eqb key "" then ret (HbRefused 401 "revoked")
  else if negb (hb_body env) then ret (HbRefused 400 "")
  else
    try! found := GetTokenByKey now key false in
    ret (match found with
    | Err ErrRecordNotFound => HbRefused 401 "revoked"
    | Err _ => HbRefused 500 ""
    | Ok t =>
        if t_Status t =? TokenStatusDisabled then HbRefused 401 "revoked"
        else if (t_Status t =? TokenStatusExpired) || (t_Status t =? TokenStatusExhausted) then HbExpired
        else if negb (t_ExpiredTime t =? -1) && (t_ExpiredTime t <? GetTimestamp now) then HbExpired
        else if negb (t_UnlimitedQuota t) && (t_RemainQuota t <=? 0) then HbExpired
        else match hb_user env (t_UserId t) with
        | None => HbRefused 401 "revoked"
        | Some status =>
            if status =? UserStatusDisabled then HbRefused 401 "revoked"
            else if match hb_slug env with
                    | None => false
                    | Some None => true
                    | Some (Some tenant) => negb (String.eqb (t_TenantId t) tenant)
                    end then HbRefused 403 ""
            else if negb (hb_gate env (t_TenantId t)) then HbRefused 403 "suspended"
            else HbActive (t <| t_AccessedTime := GetTimestamp now |>)
        end
    end).

(** The write is best effort. *)
Definition UserHeartbeat (now : Z) (rawAuth : string) (env : hbenv) : K heartbeat :=
  let! answer := UserHeartbeat_read now rawAuth env in
  match answer with
  | HbActive t => try! _ := SelectUpdate t in ret answer
  | _ => ret answer
  end.

(** ** Rotation on schedule *)

Definition secondsPerDay : Z := 86400.

Definition NeedsRotationAt (autoRotateDays rotatedAt now : Z) : bool :=
  if autoRotateDays <=? 0 then false
  else i64_sub now rotatedAt >=? i64_mul autoRotateDays secondsPerDay.

Definition keyPrefix (key : string) : string := if (String.length key <=? 8)%nat then key else String.substring 0 8 key.

(** Whether a listed token is due: measured from the last rotation, or from its creation. *)
Definition rotation_due (t : Token) (now : Z) : bool :=
  let baseline := if t_RotatedAt t =? 0 then t_CreatedTime t else t_RotatedAt t in
  negb (baseline =? 0) && NeedsRotationAt (t_AutoRotateDays t) baseline now.

(** One listed token: what is drawn for its key; whether it was rotated. *)
Definition rotate_due (now : Z) (t : Token) (newKey : option string) : K bool :=
  if negb (rotation_due t now) then ret false
  else match newKey with
       | None => ret false
       | Some key =>
           try! r := RotateKeyWithTimestampCAS t key (t_RotatedAt t) now in
           match r with
           | Err _ => ret false
           | Ok _ =>
               let! _ := local (fun db => (tt, mkKeydb (rows db) (seq_token db) (redis db) (pending db) ((t_Id t, keyPrefix (t_Key t)) :: audit db))) in
               ret true
           end
       end.

(** The pass over the listed tokens; [draws] has, per token, whether the context has ended,
    which ends the pass, and the drawn key.  The number rotated, and whether it was cut. *)
Fixpoint rotate_listed (now : Z) (tokens : list Token) (draws : list (bool * option string)) (rotated : Z) : K (Z * bool) :=
  match tokens with
  | [] => ret (rotated, false)
  | t :: tokens' =>
      let '(stop, newKey) := default (false, None) (head draws) in
      if stop then ret (rotated, true)
      else
        let! won := rotate_due now t newKey in
        rotate_listed now tokens' (tail draws) (if won then rotated + 1 else rotated)
  end.

Definition RotateDueTokens (now : Z) (draws : list (bool * option string)) : K (Z * bool) :=
  let! tokens := ListAutoRotateTokens in
  rotate_listed now tokens draws 0.
End Store.
End TokenStore.
