(* ===== verification/TokenStoreSpec.v ===== *)
(** * API keys under concurrency

    The operations of [TokenStore] as the steps of one system: requests, edits, rotations
    and heartbeats that read a row or its copy and write later, the goroutines that refresh
    Redis, and the clock.  What a step must not break is a [discipline], a set of rows,
    copies and hashes closed under everything the program does with them; two instances give
    the theorems: whom a key authenticates, and when a retired key stays out. *)

From coqutil Require Import Datatypes.RecordSetters.
From stdpp Require Import sorting.
From S2P Require Import Prelude Wp GoStrings Redis StepUp TokenCache TokenStore.

Module TokenStoreSpec.
Import GoStrings TokenCache TokenStore.

(** ** What a hash says about a token *)

Definition dec_int (h : gmap string string) (name : string) : option Z :=
  match h !! name with None => Some 0 | Some s => Atoi s end.

Definition field_keeps {T A} (g : T -> A) (f : field T) : Prop :=
  match f with
  | FInt _ set => forall v t, g (set v t) = g t
  | FString _ set => forall v t, g (set v t) = g t
  | FBool _ set => forall v t, g (set v t) = g t
  | FStringPtr _ set => forall v t, g (set v t) = g t
  | FDeletedAt set => forall v t, g (set v t) = g t
  end.

Section Decode.
Context {T : Type} {TP : TimeParse}.

Lemma decode_text_keeps {A} (g : T -> A) name value f t t' :
  field_keeps g f -> decode_text name value f t = Ok t' -> g t' = g t.
Proof. destruct f; cbn; intros Hf; repeat case_match; intros; simplify_eq; done. Qed.

Lemma decode_fields_keeps {A} (g : T -> A) h fs t t' :
  Forall (fun nf => field_keeps g nf.2) fs -> decode_fields h fs t = Ok t' -> g t' = g t.
Proof.
  intros Hfs. revert t. induction Hfs as [|[name f] fs Hf _ IH]; intros t; cbn; [by intros [= ->]|].
  destruct (h !! name) as [v|]; [|apply IH]. destruct (decode_text name v f t) as [t1|] eqn:Ht; [|done].
  intros He%IH. rewrite He. by eapply decode_text_keeps.
Qed.

Lemma decode_fields_app h fs1 fs2 (t : T) :
  decode_fields h (fs1 ++ fs2) t = match decode_fields h fs1 t with Ok t' => decode_fields h fs2 t' | Err x => Err x end.
Proof.
  revert t. induction fs1 as [|[name f] fs1 IH]; intros t; cbn; [done|].
  destruct (h !! name) as [v|]; [|apply IH]. destruct (decode_text name v f t); [apply IH|done].
Qed.

Lemma decode_int_field h fs1 name get set fs2 (t t' : T) :
  Forall (fun nf => field_keeps get nf.2) fs1 -> Forall (fun nf => field_keeps get nf.2) fs2 ->
  (forall v t, get (set v t) = v) -> get t = 0 ->
  decode_fields h (fs1 ++ (name, FInt get set) :: fs2) t = Ok t' -> dec_int h name = Some (get t').
Proof.
  intros H1 H2 Hset Hz. rewrite decode_fields_app. destruct (decode_fields h fs1 t) as [t1|] eqn:E1; [|done].
  apply (decode_fields_keeps get) in E1; [|done]. cbn. unfold dec_int. destruct (h !! name) as [v|].
  - cbn. destruct (Atoi v) as [n|]; [|done]. intros He%(decode_fields_keeps get); [|done]. by rewrite He, Hset.
  - intros He%(decode_fields_keeps get); [|done]. by rewrite He, E1, Hz.
Qed.

Lemma decode_string_field h fs1 name get set fs2 (t t' : T) :
  Forall (fun nf => field_keeps get nf.2) fs1 -> Forall (fun nf => field_keeps get nf.2) fs2 ->
  (forall v t, get (set v t) = v) -> get t = "" ->
  decode_fields h (fs1 ++ (name, FString get set) :: fs2) t = Ok t' -> default "" (h !! name) = get t'.
Proof.
  intros H1 H2 Hset Hz. rewrite decode_fields_app. destruct (decode_fields h fs1 t) as [t1|] eqn:E1; [|done].
  apply (decode_fields_keeps get) in E1; [|done]. cbn. destruct (h !! name) as [v|]; cbn.
  - intros He%(decode_fields_keeps get); [|done]. by rewrite He, Hset.
  - intros He%(decode_fields_keeps get); [|done]. by rewrite He, E1, Hz.
Qed.
End Decode.

#[global] Arguments decode_fields : simpl never.

Ltac keeps_fields := repeat (apply Forall_cons_2; [cbn; intros; reflexivity|]); constructor.

(** The fields the theorems below are about. *)
Lemma decode_token_fields {TP : TimeParse} h (t : Token) :
  decode_fields h struct_fields zero = Ok t ->
  dec_int h "Id" = Some (t_Id t) /\ dec_int h "UserId" = Some (t_UserId t) /\ default "" (h !! "TenantId") = t_TenantId t /\
  dec_int h "Status" = Some (t_Status t) /\ dec_int h "ExpiredTime" = Some (t_ExpiredTime t).
Proof.
  intros Hd. split_and!.
  - eapply (decode_int_field h [] "Id" t_Id); [..|exact Hd]; [keeps_fields|keeps_fields|done|done].
  - eapply (decode_int_field h (take 1 struct_fields) "UserId" t_UserId); [..|exact Hd]; [keeps_fields|keeps_fields|done|done].
  - eapply (decode_string_field h (take 2 struct_fields) "TenantId" t_TenantId); [..|exact Hd]; [keeps_fields|keeps_fields|done|done].
  - eapply (decode_int_field h (take 4 struct_fields) "Status" t_Status); [..|exact Hd]; [keeps_fields|keeps_fields|done|done].
  - eapply (decode_int_field h (take 8 struct_fields) "ExpiredTime" t_ExpiredTime); [..|exact Hd]; [keeps_fields|keeps_fields|done|done].
Qed.

(** What a write of a token leaves under its fields. *)
Lemma written_text (t : Token) (h : gmap string string) name f v :
  (name, f) ∈ struct_fields -> encode_field t f = Some v -> (encode t ∪ h) !! name = Some v.
Proof. intros Hin Hf. rewrite lookup_union_l'; by rewrite (encode_lookup token_names t _ _ Hin), Hf. Qed.

Lemma written_fields (t : Token) (h : gmap string string) :
  let h' := encode (Clean t) ∪ h in
  h' !! "Id" = Some (Itoa (t_Id t)) /\ h' !! "UserId" = Some (Itoa (t_UserId t)) /\ h' !! "TenantId" = Some (t_TenantId t) /\
  h' !! "Status" = Some (Itoa (t_Status t)).
Proof.
  cbn zeta. split_and!.
  - eapply written_text; [by left|done].
  - eapply written_text; [by do 1 right; left|done].
  - eapply written_text; [by do 2 right; left|done].
  - eapply written_text; [by do 4 right; left|done].
Qed.

(** ** Disciplines *)

(** What a row or a copy of it says of whom it is and whether it is enabled. *)
Record face := mkFace { f_id : Z; f_user : Z; f_tenant : string; f_key : string; f_status : Z }.

Definition face_of (t : Token) : face := mkFace (t_Id t) (t_UserId t) (t_TenantId t) (t_Key t) (t_Status t).

Definition restatus (st : Z) (f : face) : face := mkFace (f_id f) (f_user f) (f_tenant f) (f_key f) st.
Definition rekey (key : string) (f : face) : face := mkFace (f_id f) (f_user f) (f_tenant f) key (f_status f).

Record discipline := {
  okrow : face -> bool -> Prop;                       (* a row, and whether it is live *)
  okcopy : face -> Prop;                              (* a row in memory *)
  okhash : string -> gmap string string -> Prop;      (* the entry of a key *)
  okrotate : face -> string -> Prop                   (* a key drawn for a row in memory *)
}.

Class Closed {TP : TimeParse} (keys : list string) (D : discipline) : Prop := {
  copy_key f : okcopy D f -> f_key f ∈ keys;
  copy_down f st : okcopy D f -> st = TokenStatusExpired \/ st = TokenStatusExhausted -> okcopy D (restatus st f);
  copy_rotate f key : okcopy D f -> okrotate D f key -> okcopy D (rekey key f);
  row_copy f : okrow D f true -> okcopy D f;
  row_delete f b : okrow D f b -> okrow D f false;
  row_status f b g : okrow D f b -> okcopy D g -> f_id g = f_id f -> okrow D (restatus (f_status g) f) b;
  row_rotate f b g key : okrow D f b -> okrotate D g key -> f_id g = f_id f -> okrow D (rekey key f) b;
  hash_empty key : okhash D key ∅;
  hash_set t h : okcopy D (face_of t) -> okhash D (t_Key t) h -> okhash D (t_Key t) (encode (Clean t) ∪ h);
  hash_quota key h v : okhash D key h -> okhash D key (<["RemainQuota" := v]> h);
  hash_copy key h t now :
    okhash D key h -> decode_fields h struct_fields zero = Ok t -> t_Status t ∉ [2; 3; 4] ->
    0 < GetTimestamp now -> t_ExpiredTime t = -1 \/ GetTimestamp now <= t_ExpiredTime t ->
    okcopy D (face_of (t <| t_Key := key |>))
}.

Section Discipline.
Context {R : Type} `{RedisHashLaws R} {TP : TimeParse} (e : keyenv) (keys : list string).
Context (collision_free : forall k k', k ∈ keys -> k' ∈ keys -> cache_key e k = cache_key e k' -> k = k').
Context (D : discipline) `{!Closed keys D} (now seq : Z).

Abbreviation K A := (M (keydb (R := R)) tok_err A).

Definition oktask (tk : task) : Prop :=
  match tk with
  | TaskSet t | TaskRotated _ t => okcopy D (face_of t)
  | TaskDelete _ => True
  | TaskQuota key _ | TaskQuotaWrite key _ _ => key ∈ keys
  end.

Definition row_ok (t : Token) : Prop := okrow D (face_of t) (live t).

Definition cache_ok (t : Z) (r : R) : Prop :=
  forall key h d, key ∈ keys -> peekh t (cache_key e key) r = Some (h, d) -> okhash D key h.

Record inv (t : Z) (db : keydb) : Prop := {
  inv_rows : Forall row_ok (rows db);
  inv_tasks : Forall oktask (pending db);
  inv_cache : cache_ok t (redis db);
  inv_seq : seq_token db = seq
}.

(** A computation that keeps the invariant and whose answer satisfies [P]. *)
Definition keeps {A} (m : K A) (P : A -> Prop) : Prop :=
  forall db, inv now db -> wp m (fun r db' => inv now db' /\ match r with Ok a => P a | Err _ => True end) db.

Lemma keeps_pure {A} (a : A) (P : A -> Prop) : P a -> keeps (ret a) P.
Proof. intros HP db Hi. by apply wp_ret. Qed.

Lemma keeps_throw {A} x (P : A -> Prop) : keeps (throw x) P.
Proof. intros db Hi. by apply wp_throw. Qed.

Lemma keeps_seq {A B} (m : K A) (k : A -> K B) P Q :
  keeps m P -> (forall a, P a -> keeps (k a) Q) -> keeps (bind m k) Q.
Proof.
  intros Hm Hk db Hi. apply wp_bind. eapply wp_mono; [by apply Hm|]. intros [a|x] db' [Hi' HP]; [|done]. by apply Hk.
Qed.

Lemma keeps_catch {A B} (m : K A) (k : result tok_err A -> K B) P Q :
  keeps m P -> (forall r, match r with Ok a => P a | Err _ => True end -> keeps (k r) Q) -> keeps (catch m k) Q.
Proof. intros Hm Hk db Hi. apply wp_catch. eapply wp_mono; [by apply Hm|]. intros r db' [Hi' HP]. by apply Hk. Qed.

Lemma keeps_mono {A} (m : K A) (P Q : A -> Prop) : keeps m P -> (forall a, P a -> Q a) -> keeps m Q.
Proof. intros Hm HPQ db Hi. eapply wp_mono; [by apply Hm|]. intros [a|x] db' [Hi' HP]; eauto. Qed.

Lemma keeps_stmt {A} (f : keydb -> result tok_err (A * keydb)) (P : A -> Prop) :
  (forall db a db', inv now db -> f db = Ok (a, db') -> inv now db' /\ P a) -> keeps (stmt f) P.
Proof.
  intros Hf db Hi. apply wp_stmt; [done|]. destruct (f db) as [[a db']|x] eqn:E; [by eapply Hf|done].
Qed.

Lemma keeps_local {A} (f : keydb -> A * keydb) (P : A -> Prop) :
  (forall db, inv now db -> inv now (f db).2 /\ P (f db).1) -> keeps (local f) P.
Proof. intros Hf db Hi fs. unfold local. cbn. specialize (Hf db Hi). by destruct (f db). Qed.

(** Rows *)

Lemma keeps_First P : keeps (First P) (fun t => row_ok t /\ P t = true).
Proof.
  eapply keeps_seq with (P := fun r => match r with Some t => row_ok t /\ P t = true | None => True end).
  - apply keeps_stmt. intros db a db' Hi [= <- <-]. split; [done|].
    unfold first_where. destruct (List.find P (rows db)) as [t|] eqn:E; [|done].
    apply List.find_some in E as [Hin HP]. split; [|done]. destruct Hi as [Hr _ _ _].
    rewrite Forall_forall in Hr. by apply Hr, list_elem_of_In.
  - intros [t|] Ht; [by apply keeps_pure|apply keeps_throw].
Qed.

Lemma rows_update_inv P f db :
  inv now db -> (forall row, row_ok row -> P row = true -> row_ok (f row)) ->
  inv now (set_rows (update_where P f (rows db)) db).
Proof.
  intros [Hr Ht Hc Hq] Hf. split; [|done..]. cbn. unfold update_where. apply Forall_fmap. eapply Forall_impl; [exact Hr|].
  intros row Hrow. cbn. destruct (P row) eqn:HP; [by apply Hf|done].
Qed.

Lemma keeps_Updates P f :
  (forall row, row_ok row -> P row = true -> row_ok (f row)) -> keeps (Updates P f) (fun _ => True).
Proof. intros Hf. apply keeps_stmt. intros db a db' Hi [= <- <-]. split; [by apply rows_update_inv|done]. Qed.

Lemma keeps_UpdateKey P key f :
  (forall row, row_ok row -> P row = true -> row_ok (f row)) -> keeps (UpdateKey P key f) (fun _ => True).
Proof.
  intros Hf. apply keeps_stmt. intros db a db' Hi. case_match; [done|]. intros [= <- <-]. split; [by apply rows_update_inv|done].
Qed.

Lemma keeps_UpdateQuota P delta : keeps (UpdateQuota P delta now) (fun _ => True).
Proof.
  apply keeps_stmt. intros db a db' Hi. case_match; [|done]. intros [= <- <-]. split; [|done]. apply rows_update_inv; [done|].
  by intros row Hrow _.
Qed.

(** Goroutines *)

Lemma keeps_AsyncGo tk : oktask tk -> keeps (AsyncGo tk) (fun _ => True).
Proof.
  intros Htk. apply keeps_local. intros db [Hr Ht Hc Hq]. split; [|done]. split; [done| |done..].
  cbn. apply Forall_app. split; [done|]. by constructor.
Qed.

Lemma keeps_refresh tk : oktask tk -> keeps (refresh e tk) (fun _ => True).
Proof. intros Htk. unfold refresh. destruct (RedisEnabled e); [by apply keeps_AsyncGo|by apply keeps_pure]. Qed.

(** Redis *)

Lemma keeps_redis {A} (m : M R tok_err A) (P : A -> Prop) :
  (forall r, cache_ok now r -> wp m (fun a r' => cache_ok now r' /\ match a with Ok a => P a | Err _ => True end) r) ->
  keeps (on_redis m) P.
Proof.
  intros Hm db [Hr Ht Hc Hq] fs. specialize (Hm (redis db) Hc fs). unfold on_redis. cbn [tables faults].
  destruct (m (mkStore (redis db) fs)) as [a s']. cbn [fst snd tables] in *. destruct Hm as [Hc' HP]. by split.
Qed.

Lemma cache_ok_fields r key : cache_ok now r -> key ∈ keys -> okhash D key (hfields now (cache_key e key) r).
Proof.
  intros Hc Hk. unfold hfields. destruct (peekh now (cache_key e key) r) as [[h d]|] eqn:E; cbn; [by eapply Hc|apply hash_empty].
Qed.

(** A change of one entry. *)
Lemma cache_ok_at r r' key :
  cache_ok now r -> key ∈ keys ->
  (forall h d, peekh now (cache_key e key) r' = Some (h, d) -> okhash D key h) ->
  (forall k, k <> cache_key e key -> peekh now k r' = peekh now k r) -> cache_ok now r'.
Proof.
  intros Hc Hk Hat Hne k h d Hin Hp. destruct (decide (k = key)) as [->|Hkey]; [by eapply Hat|].
  rewrite Hne in Hp; [by eapply Hc|]. intros He. by apply Hkey, collision_free.
Qed.

Lemma cache_ok_del r k : cache_ok now r -> cache_ok now (HashDEL now k r).
Proof.
  intros Hc key h d Hin Hp. destruct (decide (cache_key e key = k)) as [<-|Hne].
  - by rewrite hdel_deletes in Hp.
  - rewrite hdel_ne in Hp by done. by eapply Hc.
Qed.

Lemma cache_ok_expire r key ttl : cache_ok now r -> key ∈ keys -> 0 < ttl -> cache_ok now (HashEXPIRE now (cache_key e key) ttl r).
Proof.
  intros Hc Hk Ht. apply (cache_ok_at r _ key); [done..| |intros k Hne; by rewrite hexpire_ne].
  intros h d. rewrite hexpire_sets by done. destruct (peekh now (cache_key e key) r) as [[h' d']|] eqn:E; cbn; [|done].
  intros [= <- <-]. by eapply Hc.
Qed.

Lemma cache_ok_incr r key delta : cache_ok now r -> key ∈ keys ->
  cache_ok now (HINCRBY now (cache_key e key) TokenFiledRemainQuota delta r).2.
Proof.
  intros Hc Hk. apply (cache_ok_at r _ key); [done..| |intros k Hne; by rewrite hincr_ne].
  intros h d. destruct (HINCRBY now (cache_key e key) TokenFiledRemainQuota delta r).1 as [m|] eqn:E.
  - rewrite (hincr_stores _ _ _ _ _ _ E). intros [= <- <-]. by apply hash_quota, cache_ok_fields.
  - rewrite (hincr_refuses _ _ _ _ _ E). intros Hp. by eapply Hc.
Qed.

Lemma cache_ok_set r t : cache_ok now r -> okcopy D (face_of t) ->
  cache_ok now (HSET now (cache_key e (t_Key t)) (encode (Clean t)) r).
Proof.
  intros Hc Hcopy. assert (t_Key t ∈ keys) as Hk by by apply copy_key in Hcopy.
  apply (cache_ok_at r _ (t_Key t)); [done..| |intros k Hne; by rewrite hset_ne].
  intros h d. rewrite hset_merges by apply token_encode_nonempty. intros [= <- <-]. by apply hash_set, cache_ok_fields.
Qed.

Lemma keeps_cacheSet t : okcopy D (face_of t) -> keeps (on_redis (cacheSetToken e now t)) (fun _ => True).
Proof.
  intros Hcopy. apply keeps_redis. intros r Hc. apply wp_stmt; [done|]. split; [|done].
  destruct (0 <? RedisKeyCacheSeconds e) eqn:Hs; bool_to_prop; [|by apply cache_ok_set].
  apply cache_ok_expire; [by apply cache_ok_set|by apply copy_key in Hcopy|lia].
Qed.

Lemma keeps_cacheDelete key : keeps (on_redis (cacheDeleteToken e now key)) (fun _ => True).
Proof. apply keeps_redis. intros r Hc. apply wp_stmt; [done|]. split; [by apply cache_ok_del|done]. Qed.

Lemma keeps_hincr key delta ttl :
  key ∈ keys -> keeps (on_redis (hincr_write now (cache_key e key) TokenFiledRemainQuota delta ttl)) (fun _ => True).
Proof.
  intros Hk. apply keeps_redis. intros r Hc. unfold hincr_write. pose proof (cache_ok_incr r key delta Hc Hk) as Hi.
  destruct (0 <? ttl) eqn:Ht; bool_to_prop.
  - apply wp_bind, wp_stmt; [done|]. destruct (HINCRBY _ _ _ _ _) as [v r'] eqn:E. cbn in Hi.
    assert (cache_ok now (HashEXPIRE now (cache_key e key) (ttl * 1000) r')) by (apply cache_ok_expire; [done..|lia]).
    destruct v; [by apply wp_ret|by apply wp_throw].
  - destruct (ttl =? redisTTLNoExpire); [|by apply wp_ret].
    apply wp_bind, wp_stmt; [done|]. destruct (HINCRBY _ _ _ _ _) as [v r'] eqn:E. cbn in Hi.
    destruct v; [by apply wp_ret|by apply wp_throw].
Qed.

Lemma keeps_redis_query {A} (f : R -> A) : keeps (on_redis (query f)) (fun _ => True).
Proof. apply keeps_redis. intros r Hc. by apply wp_query. Qed.

Lemma keeps_run_task tk : oktask tk -> keeps (run_task e now tk) (fun o => match o with Some tk' => oktask tk' | None => True end).
Proof.
  destruct tk as [t|[|key ks]|old t|key delta|key delta ttl]; cbn [run_task oktask]; intros Htk.
  - eapply keeps_catch; [by apply keeps_cacheSet|]. intros r _. by apply keeps_pure.
  - by apply keeps_pure.
  - eapply keeps_catch; [apply keeps_cacheDelete|]. intros r _. apply keeps_pure. by destruct ks.
  - eapply keeps_catch; [apply keeps_cacheDelete|]. intros r _. by apply keeps_pure.
  - eapply keeps_catch; [apply keeps_redis_query|]. intros r _. apply keeps_pure. by destruct r.
  - eapply keeps_catch; [by apply keeps_hincr|]. intros r _. by apply keeps_pure.
Qed.

Lemma keeps_run_nth i : keeps (run_nth e now i) (fun _ => True).
Proof.
  eapply keeps_seq with (P := fun o => match o with Some tk => oktask tk | None => True end).
  - apply keeps_local. intros db [Hr Ht Hc Hq]. cbn. split.
    + split; [done| |done..]. cbn. by apply Forall_delete.
    + destruct (pending db !! i) as [tk|] eqn:E; [|done]. by eapply Forall_lookup_1 in E.
  - intros [tk|] Htk; [|by apply keeps_pure]. eapply keeps_seq; [by apply keeps_run_task|].
    intros [tk'|] Htk'; [by apply keeps_AsyncGo|by apply keeps_pure].
Qed.

(** *** Lookup *)

(** What is found under a key: a copy of a row, or an entry of the cache. *)
Definition found (key : string) (t : Token) : Prop :=
  t_Key t = key /\
  (okcopy D (face_of t) \/
   RedisEnabled e = true /\ exists h t0, okhash D key h /\ decode_fields h struct_fields zero = Ok t0 /\ t = t0 <| t_Key := key |>).

Lemma found_copy key t :
  found key t -> 0 < GetTimestamp now -> t_Status t ∉ [2; 3; 4] -> t_ExpiredTime t = -1 \/ GetTimestamp now <= t_ExpiredTime t ->
  okcopy D (face_of t).
Proof. intros [_ [Hc|(_ & h & t0 & Hh & Hd & ->)]] Hn Hs He; [done|]. by eapply hash_copy. Qed.

Lemma row_live_copy t P : row_ok t -> live t && P = true -> okcopy D (face_of t).
Proof. unfold row_ok. intros Hr [Hl _]%andb_true_iff. rewrite Hl in Hr. by apply row_copy. Qed.

Lemma keeps_GetTokenByKey key fromDB : key ∈ keys -> keeps (GetTokenByKey e now key fromDB) (found key).
Proof.
  intros Hk. unfold GetTokenByKey.
  assert (keeps (let! t := First (with_key key) in let! _ := refresh e (TaskSet t) in ret t) (found key)) as Hdb.
  { eapply keeps_seq; [apply keeps_First|]. intros t [Hr HP]. assert (okcopy D (face_of t)) by by eapply row_live_copy.
    eapply keeps_seq; [by apply keeps_refresh|]. intros _ _. apply keeps_pure. split; [|by left].
    unfold with_key in HP. bool_to_prop. by apply String.eqb_eq. }
  destruct (negb fromDB && RedisEnabled e) eqn:He; [|done]. apply andb_true_iff in He as [_ He].
  eapply keeps_catch with (P := found key).
  - apply keeps_redis. intros r Hc. unfold cacheGetTokenByKey. destruct (negb (RedisEnabled e)); [by apply wp_throw|].
    apply wp_bind. unfold RedisHGetObj. apply wp_bind, wp_query; [done|]. case_bool_decide; [by apply wp_throw|].
    destruct (decode_fields _ _ _) as [t|x] eqn:E; [|by apply wp_throw]. do 2 apply wp_ret. split; [done|].
    split; [done|]. right. split; [done|]. exists (hfields now (cache_key e key) r), t. split; [by apply cache_ok_fields|done].
  - intros [t|x] Ht; [by apply keeps_pure|done].
Qed.

Lemma keeps_GetTokenByIds id userId : keeps (GetTokenByIds id userId) (fun t => row_ok t /\ live t = true /\ t_Id t = id /\ t_UserId t = userId).
Proof.
  unfold GetTokenByIds. destruct (_ || _); [apply keeps_throw|]. eapply keeps_mono; [apply keeps_First|].
  intros t [Hr HP]. unfold with_id in HP. by bool_to_prop.
Qed.

(** A write of the status of a copy to its row. *)
Lemma row_restatus t row row' :
  okcopy D (face_of t) -> row_ok row -> t_Id row = t_Id t -> live row' = live row ->
  face_of row' = restatus (t_Status t) (face_of row) -> row_ok row'.
Proof. unfold row_ok. intros Hc Hr Hid Hl Hf. rewrite Hl, Hf. by apply (row_status (face_of row) (live row) (face_of t)). Qed.

Lemma keeps_status_write t f :
  okcopy D (face_of t) ->
  (forall row, live (f row) = live row /\ face_of (f row) = restatus (t_Status t) (face_of row)) ->
  keeps (let! _ := Updates (with_id (t_Id t)) f in refresh e (TaskSet t)) (fun _ => True).
Proof.
  intros Hc Hf. eapply keeps_seq; [|intros _ _; by apply keeps_refresh]. apply keeps_Updates.
  intros row Hr HP. unfold with_id in HP. bool_to_prop. destruct (Hf row). by eapply row_restatus.
Qed.

Lemma keeps_SelectUpdate t : okcopy D (face_of t) -> keeps (SelectUpdate e t) (fun _ => True).
Proof. intros Hc. by apply keeps_status_write. Qed.

Lemma keeps_Update t : okcopy D (face_of t) -> keeps (Update e t) (fun _ => True).
Proof. intros Hc. by apply keeps_status_write. Qed.

Lemma keeps_UpdateModelLimits t : okcopy D (face_of t) -> keeps (UpdateModelLimits e t) (fun _ => True).
Proof.
  intros Hc. eapply keeps_seq; [|intros _ _; by apply keeps_refresh]. apply keeps_Updates. by intros row Hr _.
Qed.

(** What a validated token is. *)
Definition passed (key : string) (t : Token) : Prop :=
  t_Key t = key /\ okcopy D (face_of t) /\ t_Status t = TokenStatusEnabled /\
  (t_ExpiredTime t = -1 \/ GetTimestamp now <= t_ExpiredTime t) /\ QuotaAvailable t = true.

Definition validated (key : string) (v : option Token * option tok_err) : Prop :=
  match v with (Some t, None) => passed key t | (None, None) => False | _ => True end.

Lemma keeps_downgrade t status :
  (RedisEnabled e = false -> okcopy D (face_of t)) -> status = TokenStatusExpired \/ status = TokenStatusExhausted ->
  keeps (downgrade e status t) (fun _ => True).
Proof.
  intros Hc Hst. unfold downgrade. destruct (RedisEnabled e) eqn:He; [by apply keeps_pure|].
  eapply keeps_catch; [|intros; by apply keeps_pure]. apply keeps_SelectUpdate. apply (copy_down (face_of t)); [by apply Hc|done].
Qed.

Lemma found_row key t : found key t -> RedisEnabled e = false -> okcopy D (face_of t).
Proof. intros [_ [Hc|[He _]]] He'; congruence. Qed.

Lemma keeps_ValidateUserToken key :
  key ∈ keys -> 0 < GetTimestamp now -> keeps (ValidateUserToken e now key) (validated key).
Proof.
  intros Hk Hn. unfold ValidateUserToken. destruct (String.eqb key ""); [by apply keeps_pure|].
  eapply keeps_catch; [by apply keeps_GetTokenByKey|]. intros [t|x] Hf; [|destruct x; by apply keeps_pure].
  destruct (t_Status t =? TokenStatusExhausted) eqn:E4; [by destruct (QuotaAvailable t); apply keeps_pure|].
  destruct (t_Status t =? TokenStatusExpired) eqn:E3; [by apply keeps_pure|].
  destruct (negb (t_Status t =? TokenStatusEnabled)) eqn:E1; [by apply keeps_pure|].
  destruct (negb (t_ExpiredTime t =? -1) && (t_ExpiredTime t <? GetTimestamp now)) eqn:Ex.
  { eapply keeps_seq; [eapply keeps_downgrade; [by eapply found_row|by left]|]. intros. by apply keeps_pure. }
  destruct (negb (t_UnlimitedQuota t) && (t_RemainQuota t <=? 0)) eqn:Eq.
  { eapply keeps_seq; [eapply keeps_downgrade; [by eapply found_row|by right]|]. intros. by apply keeps_pure. }
  apply keeps_pure. cbn. bool_to_prop.
  assert (t_ExpiredTime t = -1 \/ GetTimestamp now <= t_ExpiredTime t) as He.
  { apply andb_false_iff in Ex as [Ex|Ex]; bool_to_prop; lia. }
  split; [by destruct Hf|]. split; [|split; [done|split; [done|]]].
  - eapply found_copy; [done|done| |done]. unfold TokenStatusEnabled in *. rewrite E1. set_solver.
  - unfold QuotaAvailable. destruct (t_UnlimitedQuota t); [done|]. cbn in *. bool_to_prop. lia.
Qed.

Definition active_copy (a : heartbeat) : Prop := match a with HbActive t => okcopy D (face_of t) | _ => True end.

Lemma keeps_UserHeartbeat_read raw env :
  heartbeat_key raw ∈ keys -> 0 < GetTimestamp now -> keeps (UserHeartbeat_read e now raw env) active_copy.
Proof.
  intros Hk Hn. unfold UserHeartbeat_read. destruct (_ || _); [by apply keeps_pure|].
  destruct (negb (hb_body env)); [by apply keeps_pure|].
  eapply keeps_catch; [by apply keeps_GetTokenByKey|]. intros r Hf. apply keeps_pure. destruct r as [t|x]; [|by destruct x].
  destruct (t_Status t =? TokenStatusDisabled) eqn:E2; [done|].
  destruct ((t_Status t =? TokenStatusExpired) || (t_Status t =? TokenStatusExhausted)) eqn:E3; [done|].
  destruct (negb (t_ExpiredTime t =? -1) && (t_ExpiredTime t <? GetTimestamp now)) eqn:Ex; [done|].
  destruct (_ && (t_RemainQuota t <=? 0)); [done|]. destruct (hb_user env (t_UserId t)) as [st|]; [|done].
  destruct (st =? UserStatusDisabled); [done|]. match goal with |- context [if ?b then HbRefused 403 "" else _] => destruct b end; [done|].
  destruct (negb (hb_gate env (t_TenantId t))); [done|]. cbn.
  change (okcopy D (face_of t)). bool_to_prop. eapply found_copy; [done|done| |].
  - unfold TokenStatusDisabled, TokenStatusExpired, TokenStatusExhausted in *. set_solver.
  - apply andb_false_iff in Ex as [Ex|Ex]; bool_to_prop; lia.
Qed.

(** *** Rotation, deletion, the quota *)

Lemma keeps_rotateKey t key f g :
  okcopy D (face_of t) -> okrotate D (face_of t) key -> t_Id g = t_Id t -> face_of g = face_of t ->
  (forall row, live (f row) = live row /\ face_of (f row) = rekey key (face_of row)) ->
  keeps (rotateKey e g key f) (fun _ => True).
Proof.
  intros Hc Hrot Hid Hg Hf. unfold rotateKey. eapply keeps_seq.
  - apply keeps_UpdateKey. intros row Hr HP. unfold with_id in HP. bool_to_prop. unfold row_ok.
    destruct (Hf row) as [-> ->]. eapply (row_rotate _ _ (face_of t)); [exact Hr|done|].
    match goal with E : t_Id row = _ |- _ => change (t_Id row = t_Id g) in E end. cbn. congruence.
  - intros _ _. eapply keeps_seq; [|intros; by apply keeps_pure]. apply keeps_refresh. cbn.
    change (okcopy D (rekey key (face_of g))). rewrite Hg. by apply copy_rotate.
Qed.

Lemma keeps_RotateKey t key : okcopy D (face_of t) -> okrotate D (face_of t) key -> keeps (RotateKey e t key) (fun _ => True).
Proof. intros Hc Hr. by apply (keeps_rotateKey t key _ t). Qed.

Lemma keeps_CAS t key prev new :
  okcopy D (face_of t) -> okrotate D (face_of t) key -> keeps (RotateKeyWithTimestampCAS e t key prev new) (fun _ => True).
Proof.
  intros Hc Hrot. unfold RotateKeyWithTimestampCAS. eapply keeps_seq.
  - apply keeps_UpdateKey. intros row Hr HP. unfold with_id in HP. bool_to_prop. unfold row_ok.
    change (okrow D (rekey key (face_of row)) (live row)). by eapply (row_rotate _ _ (face_of t)).
  - intros n _. destruct (n =? 0)%nat; [apply keeps_throw|].
    eapply keeps_seq; [|intros; by apply keeps_pure]. apply keeps_refresh. cbn.
    change (okcopy D (rekey key (face_of t))). by apply copy_rotate.
Qed.

Lemma keeps_delete_where P d : keeps (Updates P (fun row => row <| t_DeletedAt := Some d |>)) (fun _ => True).
Proof. apply keeps_Updates. intros row Hr _. unfold row_ok in *. cbn. by eapply row_delete. Qed.

Lemma keeps_DeleteTokenById id userId : keeps (DeleteTokenById e now id userId) (fun _ => True).
Proof.
  unfold DeleteTokenById. destruct (_ || _); [apply keeps_throw|]. eapply keeps_seq; [apply keeps_First|].
  intros t _. eapply keeps_seq; [apply keeps_delete_where|]. intros _ _. by apply keeps_refresh.
Qed.

Lemma keeps_transaction {A} (m : K A) P : keeps m P -> keeps (transaction m) P.
Proof.
  intros Hm db Hi. apply wp_transaction; [done|]. eapply wp_mono; [by apply Hm|]. intros [a|x] db' [Hi' HP]; done.
Qed.

Lemma keeps_BatchDeleteTokens ids userId : keeps (BatchDeleteTokens e now ids userId) (fun _ => True).
Proof.
  destruct ids as [|id ids]; [apply keeps_throw|]. eapply keeps_seq with (P := fun _ => True).
  - apply keeps_transaction. eapply keeps_seq with (P := fun _ => True); [apply keeps_stmt; by intros db a db' Hi [= <- <-]|].
    intros ts _. eapply keeps_seq; [apply keeps_delete_where|]. intros. by apply keeps_pure.
  - intros ts _. eapply keeps_seq; [by apply keeps_refresh|]. intros. by apply keeps_pure.
Qed.

Lemma keeps_IncreaseTokenQuota batch id key quota :
  key ∈ keys -> keeps (IncreaseTokenQuota e batch id key quota now) (fun _ => True).
Proof.
  intros Hk. unfold IncreaseTokenQuota. destruct (quota <? 0); [apply keeps_throw|].
  eapply keeps_seq; [by apply keeps_refresh|]. intros _ _. destruct batch; [by apply keeps_pure|].
  eapply keeps_seq; [apply keeps_UpdateQuota|]. intros. by apply keeps_pure.
Qed.

Lemma keeps_DecreaseTokenQuota batch id key quota :
  key ∈ keys -> keeps (DecreaseTokenQuota e batch id key quota now) (fun _ => True).
Proof.
  intros Hk. unfold DecreaseTokenQuota. destruct (quota <? 0); [apply keeps_throw|].
  eapply keeps_seq; [by apply keeps_refresh|]. intros _ _. destruct batch; [by apply keeps_pure|].
  eapply keeps_seq; [apply keeps_UpdateQuota|]. intros. by apply keeps_pure.
Qed.

Lemma keeps_DecreaseTokenQuotaIfEnough id key quota :
  key ∈ keys -> keeps (DecreaseTokenQuotaIfEnough e id key quota now) (fun _ => True).
Proof.
  intros Hk. unfold DecreaseTokenQuotaIfEnough. destruct (quota <? 0); [apply keeps_throw|].
  eapply keeps_seq; [apply keeps_UpdateQuota|]. intros n _. destruct (n =? 0)%nat; [by apply keeps_pure|].
  eapply keeps_seq; [by apply keeps_refresh|]. intros. by apply keeps_pure.
Qed.
End Discipline.

End TokenStoreSpec.
