(* ===== verification/TokenSystem.v ===== *)
(** * API keys: who a key speaks for, and when it no longer does

    Every request, edit, rotation, heartbeat and goroutine of [TokenStore] as a step of one
    system, in any order and with any statement or command failing.  A key is drawn at
    random, 48 characters of 62: here a key that was not drawn before, from a set of keys
    no two of which the keyed digest confuses. *)

From coqutil Require Import Datatypes.RecordSetters.
From stdpp Require Import sorting.
From S2P Require Import Prelude Wp GoStrings Redis StepUp TokenCache TokenStore TokenStoreSpec.

Module TokenSystem.
Import GoStrings TokenCache TokenStore TokenStoreSpec.

(** A row in memory that is still to be written. *)
Inductive inflight :=
| FlightEdit (t : Token)
| FlightTouch (t : Token)
| FlightModels (t : Token)
| FlightRotate (t : Token) (key : string)
| FlightScheduled (t : Token) (key : string) (at_ : Z).

(** The token of a key, its user and its tenant. *)
Abbreviation owner := (Z * Z * string)%type.

Definition owner_of (t : Token) : owner := (t_Id t, t_UserId t, t_TenantId t).

Section System.
Context {R : Type} `{RedisHashLaws R} {TP : TimeParse} (e : keyenv) (keys : list string) (maxQuotaValue : Z).

Record sys := mkSys {
  db : keydb (R := R);
  flight : list inflight;
  clock : Z;
  issued : gmap string owner   (* every key that was ever drawn *)
}.

Abbreviation K A := (M (keydb (R := R)) tok_err A).

(** The write that ends an operation. *)
Definition land (f : inflight) : K unit :=
  match f with
  | FlightEdit t => Update e t
  | FlightTouch t => SelectUpdate e t
  | FlightModels t => UpdateModelLimits e t
  | FlightRotate t key => let! _ := RotateKey e t key in ret tt
  | FlightScheduled t key at_ => let! _ := rotate_due e at_ t (Some key) in ret tt
  end.

(** Run an operation; what it answers decides what it leaves in flight and which key it
    issued. *)
Definition after {A} (m : K A) (fs : list bool) (f : A -> list inflight) (iss : A -> gmap string owner -> gmap string owner)
    (s : sys) : sys :=
  let (r, s') := m (mkStore (db s) fs) in
  match r with
  | Ok a => mkSys (tables s') (flight s ++ f a) (clock s) (iss a (issued s))
  | Err _ => mkSys (tables s') (flight s) (clock s) (issued s)
  end.

Definition plainly {A} (m : K A) (fs : list bool) (s : sys) : sys := after m fs (fun _ => []) (fun _ m => m) s.

Definition fresh (key : string) (s : sys) : Prop := key ∈ keys /\ issued s !! key = None.

(** [allow]: the edits that are considered. *)
Inductive step (allow : Token -> Prop) (s : sys) : sys -> Prop :=
| step_auth key fs :
    key ∈ keys -> step allow s (plainly (ValidateUserToken e (clock s) key) fs s)
| step_heartbeat raw env fs :
    heartbeat_key raw ∈ keys ->
    step allow s (after (UserHeartbeat_read e (clock s) raw env) fs
      (fun a => match a with HbActive t => [FlightTouch t] | _ => [] end) (fun _ m => m) s)
| step_edit userId statusOnly body fs :
    in64 (t_Status body) ->
    (forall t s', UpdateToken_read maxQuotaValue (clock s) userId statusOnly body (mkStore (db s) fs) = (Ok t, s') -> allow t) ->
    step allow s (after (UpdateToken_read maxQuotaValue (clock s) userId statusOnly body) fs (fun t => [FlightEdit t]) (fun _ m => m) s)
| step_models t enabled limits :
    t ∈ rows (db s) -> live t = true ->
    step allow s (mkSys (db s) (flight s ++ [FlightModels (t <| t_ModelLimitsEnabled := enabled |> <| t_ModelLimits := limits |>)]) (clock s) (issued s))
| step_rotate userId tenantId id key fs :
    fresh key s ->
    step allow s (after (RotateTokenV2_read userId tenantId id) fs (fun t => [FlightRotate t key]) (fun t m => <[key := owner_of t]> m) s)
| step_scheduled t key :
    t ∈ rows (db s) -> live t = true -> fresh key s ->
    step allow s (mkSys (db s) (flight s ++ [FlightScheduled t key (GetTimestamp (clock s))]) (clock s) (<[key := owner_of t]> (issued s)))
| step_add userId tenantId identity body key fs :
    fresh key s -> in64 userId -> in64 (seq_token (db s) + 1) ->
    step allow s (after (AddToken maxQuotaValue (clock s) userId tenantId identity body (Some key)) fs (fun _ => []) (fun t m => <[key := owner_of t]> m) s)
| step_delete id userId fs : step allow s (plainly (DeleteTokenById e (clock s) id userId) fs s)
| step_batch_delete ids userId fs : step allow s (plainly (BatchDeleteTokens e (clock s) ids userId) fs s)
| step_increase batch id key quota fs :
    key ∈ keys -> step allow s (plainly (IncreaseTokenQuota e batch id key quota (clock s)) fs s)
| step_decrease batch id key quota fs :
    key ∈ keys -> step allow s (plainly (DecreaseTokenQuota e batch id key quota (clock s)) fs s)
| step_decrease_if_enough id key quota fs :
    key ∈ keys -> step allow s (plainly (DecreaseTokenQuotaIfEnough e id key quota (clock s)) fs s)
| step_land i f fs :
    flight s !! i = Some f ->
    step allow s (plainly (land f) fs (mkSys (db s) (delete i (flight s)) (clock s) (issued s)))
| step_run i fs : step allow s (plainly (run_nth e (clock s) i) fs s)
| step_tick dt : 0 <= dt -> step allow s (mkSys (db s) (flight s) (clock s + dt) (issued s)).

(** Nothing yet: no rows, no keys, nothing under the keys in Redis. *)
Definition initial (s : sys) : Prop :=
  rows (db s) = [] /\ pending (db s) = [] /\ flight s = [] /\ issued s = ∅ /\ 1000 <= clock s /\
  forall key, key ∈ keys -> peekh (clock s) (cache_key e key) (redis (db s)) = None.
End System.

(** ** The owner of a key *)

Section Owner.
Context {TP : TimeParse} (keys : list string).

(** A row or a copy of the owner its key was issued to. *)
Definition known (m : gmap string owner) (f : face) : Prop :=
  m !! f_key f = Some (f_id f, f_user f, f_tenant f) /\ f_key f ∈ keys /\ in64 (f_id f) /\ in64 (f_user f) /\ in64 (f_status f).

(** An entry of a key: the owner it was issued to, or a quota that outlived the rest. *)
Definition known_hash (m : gmap string owner) (key : string) (h : gmap string string) : Prop :=
  (forall name, name <> "RemainQuota" -> h !! name = None) \/
  exists id u tn st, m !! key = Some (id, u, tn) /\ key ∈ keys /\ in64 id /\ in64 u /\ in64 st /\
    h !! "Id" = Some (Itoa id) /\ h !! "UserId" = Some (Itoa u) /\ h !! "TenantId" = Some tn /\ h !! "Status" = Some (Itoa st).

Definition owned (m : gmap string owner) : discipline := {|
  okrow f _ := known m f;
  okcopy f := known m f;
  okhash key h := known_hash m key h;
  okrotate f key := m !! key = Some (f_id f, f_user f, f_tenant f) /\ key ∈ keys
|}.

(** The keys of a token have one user and one tenant. *)
Definition consistent (m : gmap string owner) : Prop :=
  forall k k' id u u' tn tn', m !! k = Some (id, u, tn) -> m !! k' = Some (id, u', tn') -> u = u' /\ tn = tn'.

Lemma dec_int_text h name z : in64 z -> h !! name = Some (Itoa z) -> dec_int h name = Some z.
Proof. intros Hz Hh. unfold dec_int. rewrite Hh. by apply Atoi_Itoa. Qed.

Lemma owned_closed m : consistent m -> Closed keys (owned m).
Proof.
  intros Hm. split; cbn.
  - by intros f (_ & ? & _).
  - intros f st (H1 & H2 & H3 & H4 & _) Hst. split_and!; try done. destruct Hst as [-> | ->]; cbn; unfold64; unfold TokenStatusExpired, TokenStatusExhausted; lia.
  - intros f key (H1 & H2 & H3 & H4 & H5) [Hk Hin]. by split_and!.
  - done.
  - done.
  - intros f b g (H1 & H2 & H3 & H4 & _) (_ & _ & _ & _ & Hst) _. by split_and!.
  - intros f b g key (H1 & H2 & H3 & H4 & H5) [Hk Hin] Hid. cbn in *. rewrite Hid in Hk.
    destruct (Hm _ _ _ _ _ _ _ H1 Hk) as [Hu Ht]. split_and!; cbn; try done. by rewrite Hu, Ht.
  - intros key. left. intros name _. apply lookup_empty.
  - intros t h (H1 & H2 & H3 & H4 & H5) _. cbn in *. right. destruct (written_fields t h) as (W1 & W2 & W3 & W4).
    exists (t_Id t), (t_UserId t), (t_TenantId t), (t_Status t). by split_and!.
  - intros key h v [Hp|(id & u & tn & st & ?)]; [left|right].
    + intros name Hn. rewrite lookup_insert_ne by done. by apply Hp.
    + exists id, u, tn, st. by rewrite !lookup_insert_ne by done.
  - intros key h t now [Hp|(id & u & tn & st & Hm' & Hk & I1 & I2 & I3 & T1 & T2 & T3 & T4)] Hd Hs Hn He;
      apply decode_token_fields in Hd as (D1 & D2 & D3 & D4 & D5).
    + unfold dec_int in D5. rewrite Hp in D5 by done. simplify_eq. lia.
    + rewrite (dec_int_text _ _ id) in D1 by done. rewrite (dec_int_text _ _ u) in D2 by done.
      rewrite (dec_int_text _ _ st) in D4 by done. rewrite T3 in D3. cbn in D3. simplify_eq. by split_and!.
Qed.
End Owner.

(** ** Invariants of the system *)

Section Invariant.
Context {R : Type} `{RedisHashLaws R} {TP : TimeParse} (e : keyenv) (keys : list string) (maxQuotaValue : Z).
Context (collision_free : forall k k', k ∈ keys -> k' ∈ keys -> cache_key e k = cache_key e k' -> k = k').

(** A discipline that may depend on the keys issued so far, and what it needs to know of
    them and of the last id given out. *)
Context (D : gmap string owner -> discipline) (side : gmap string owner -> Z -> Prop) (allow : Token -> Prop).

Record sub (D1 D2 : discipline) : Prop := {
  sub_row f b : okrow D1 f b -> okrow D2 f b;
  sub_copy f : okcopy D1 f -> okcopy D2 f;
  sub_hash k h : okhash D1 k h -> okhash D2 k h;
  sub_rotate f k : okrotate D1 f k -> okrotate D2 f k
}.

Class Policy : Prop := {
  policy_closed m : consistent m -> Closed keys (D m);
  policy_sub m m' : m ⊆ m' -> sub (D m) (D m');
  policy_known m f : okcopy (D m) f -> known keys m f;
  policy_rotate m seq f key :
    side m seq -> m !! key = None -> key ∈ keys -> okcopy (D m) f ->
    okrotate (D (<[key := (f_id f, f_user f, f_tenant f)]> m)) f key;
  policy_insert m seq f :
    side m seq -> m !! f_key f = None -> f_id f = seq + 1 ->
    known keys (<[f_key f := (f_id f, f_user f, f_tenant f)]> m) f ->
    okrow (D (<[f_key f := (f_id f, f_user f, f_tenant f)]> m)) f true;
  policy_edit m t f : allow t -> okrow (D m) f true -> in64 (t_Status t) -> face_of t = restatus (t_Status t) f -> okcopy (D m) (face_of t);
  policy_side m m' seq seq' : m ⊆ m' -> seq <= seq' -> side m seq -> side m' seq'
}.
Context {Hpol : Policy}.

Definition flight_ok (m : gmap string owner) (f : inflight) : Prop :=
  match f with
  | FlightEdit t | FlightTouch t | FlightModels t => okcopy (D m) (face_of t)
  | FlightRotate t key | FlightScheduled t key _ => okcopy (D m) (face_of t) /\ okrotate (D m) (face_of t) key
  end.

Record sysinv (s : sys (R := R)) : Prop := {
  si_db : inv e keys (D (issued s)) (seq_token (db s)) (clock s) (db s);
  si_flight : Forall (flight_ok (issued s)) (flight s);
  si_consistent : consistent (issued s);
  si_ids key o : issued s !! key = Some o -> o.1.1 <= seq_token (db s);
  si_side : side (issued s) (seq_token (db s));
  si_clock : 0 < GetTimestamp (clock s)
}.

Lemma inv_sub m m' seq t d : m ⊆ m' -> inv e keys (D m) seq t d -> inv e keys (D m') seq t d.
Proof.
  intros Hs [Hr Ht Hc Hq]. pose proof (policy_sub m m' Hs) as Hsub. split; [| | |done].
  - eapply Forall_impl; [exact Hr|]. intros t0. apply (sub_row _ _ Hsub).
  - eapply Forall_impl; [exact Ht|]. intros [?|?|??|??|???]; cbn; try done; apply (sub_copy _ _ Hsub).
  - intros key h dl Hk Hp. by eapply (sub_hash _ _ Hsub), Hc.
Qed.

Lemma flight_sub m m' l : m ⊆ m' -> Forall (flight_ok m) l -> Forall (flight_ok m') l.
Proof.
  intros Hs Hl. pose proof (policy_sub m m' Hs) as Hsub. eapply Forall_impl; [exact Hl|].
  intros [t|t|t|t key|t key at_]; cbn; try apply (sub_copy _ _ Hsub);
    (intros [Hx Hy]; split; [by apply (sub_copy _ _ Hsub)|by apply (sub_rotate _ _ Hsub)]).
Qed.

(** An operation that keeps the rows, copies and entries in order. *)
Lemma after_keeps {A} (m : M (keydb (R := R)) tok_err A) P fs f s :
  sysinv s -> keeps e keys (D (issued s)) (clock s) (seq_token (db s)) m P ->
  (forall a s', m (mkStore (db s) fs) = (Ok a, s') -> P a -> Forall (flight_ok (issued s)) (f a)) ->
  sysinv (after m fs f (fun _ m => m) s).
Proof.
  intros Hs Hm Hf. specialize (Hm (db s) (si_db s Hs) fs). unfold after.
  destruct (m (mkStore (db s) fs)) as [r s'] eqn:E. cbn [fst snd tables] in Hm. destruct Hm as [Hi HP].
  destruct Hs as [_ Hfl Hc Hids Hside Hcl]. pose proof (inv_seq _ _ _ _ _ _ Hi) as Hseq.
  destruct r as [a|x]; (split; cbn [db flight clock issued]; rewrite ?Hseq; [done| |done..]); [|done].
  apply Forall_app. split; [done|by eapply Hf].
Qed.

Lemma plainly_keeps {A} (m : M (keydb (R := R)) tok_err A) P fs s :
  sysinv s -> keeps e keys (D (issued s)) (clock s) (seq_token (db s)) m P -> sysinv (plainly m fs s).
Proof. intros Hs Hm. eapply after_keeps; [done|exact Hm|]. by constructor. Qed.

Lemma consistent_insert m key key' o :
  consistent m -> m !! key' = Some o -> consistent (<[key := o]> m).
Proof.
  intros Hm Ho k k' id u u' tn tn'. rewrite !lookup_insert_Some.
  intros [[-> Hk]|[_ Hk]] [[-> Hk']|[_ Hk']]; simplify_eq; eauto.
Qed.

(** A key drawn for a row in memory. *)
Lemma issue_keeps s t key f :
  sysinv s -> fresh keys key s -> okcopy (D (issued s)) (face_of t) ->
  (forall m, okcopy (D m) (face_of t) -> okrotate (D m) (face_of t) key -> flight_ok m f) ->
  sysinv (mkSys (db s) (flight s ++ [f]) (clock s) (<[key := owner_of t]> (issued s))).
Proof.
  intros [Hi Hfl Hc Hids Hside Hcl] [Hin Hnew] Hcopy Hf.
  assert (issued s ⊆ <[key := owner_of t]> (issued s)) as Hsub by by apply insert_subseteq.
  pose proof (policy_known _ _ Hcopy) as (Hk & _).
  split; cbn [db flight clock issued].
  - by eapply inv_sub.
  - apply Forall_app. split; [by eapply flight_sub|]. constructor; [|done]. apply Hf.
    + by eapply (sub_copy _ _ (policy_sub _ _ Hsub)).
    + by eapply (policy_rotate (issued s) _ (face_of t)).
  - by eapply consistent_insert.
  - intros k o. rewrite lookup_insert_Some. intros [[<- <-]|[_ Ho]]; [|by eapply Hids]. by apply (Hids _ _ Hk).
  - by eapply policy_side.
  - done.
Qed.

Abbreviation keeps_at s := (keeps e keys (D (issued (R := R) s)) (clock s) (seq_token (db s))).

Lemma keeps_edit_read s userId statusOnly body :
  in64 (t_Status body) -> (forall t, row_ok (D (issued s)) t -> live t = true -> in64 (t_Status t)) ->
  keeps_at s (UpdateToken_read maxQuotaValue (clock s) userId statusOnly body)
    (fun t => exists f, okrow (D (issued s)) f true /\ face_of t = restatus (t_Status t) f /\ in64 (t_Status t)).
Proof.
  intros Hb Hrows. unfold UpdateToken_read. destruct (negb _); [apply keeps_throw|].
  eapply keeps_seq; [apply keeps_GetTokenByIds|]. intros t (Hr & Hl & _ & _).
  destruct (_ && _); [apply keeps_throw|]. apply keeps_pure. exists (face_of t).
  split; [unfold row_ok in Hr; by rewrite Hl in Hr|]. destruct (String.eqb statusOnly ""); (split; [done|]); [by apply Hrows|done].
Qed.

Lemma keeps_rotate_read s userId tenantId id :
  consistent (issued s) ->
  keeps_at s (RotateTokenV2_read userId tenantId id) (fun t => okcopy (D (issued s)) (face_of t)).
Proof.
  intros Hc. pose proof (policy_closed _ Hc) as Hcl. eapply keeps_seq; [apply keeps_GetTokenByIds|].
  intros t (Hr & Hl & _ & _). destruct (String.eqb _ _); [|apply keeps_throw]. apply keeps_pure.
  unfold row_ok in Hr. rewrite Hl in Hr. by eapply row_copy.
Qed.

Lemma keeps_land (s : sys (R := R)) f : consistent (issued s) -> flight_ok (issued s) f -> keeps_at s (land e f) (fun _ => True).
Proof.
  intros Hc. pose proof (policy_closed _ Hc) as Hcl. destruct f as [t|t|t|t key|t key at_]; cbn [land flight_ok].
  - by apply keeps_Update.
  - by apply keeps_SelectUpdate.
  - by apply keeps_UpdateModelLimits.
  - intros [Hcp Hrt]. eapply keeps_seq; [by apply keeps_RotateKey|]. intros. by apply keeps_pure.
  - intros [Hcp Hrt]. eapply keeps_seq with (P := fun _ => True); [|intros; by apply keeps_pure].
    unfold rotate_due. destruct (negb _); [by apply keeps_pure|].
    eapply keeps_catch; [by apply keeps_CAS|]. intros [t'|x] _; [|by apply keeps_pure].
    eapply keeps_seq with (P := fun _ => True); [|intros; by apply keeps_pure].
    apply keeps_local. intros d [Hr Ht Hch Hq]. by split.
Qed.

Lemma row_statuses (s : sys (R := R)) t : consistent (issued s) -> row_ok (D (issued s)) t -> live t = true -> in64 (t_Status t).
Proof.
  intros Hc Hr Hl. pose proof (policy_closed _ Hc) as Hcl. unfold row_ok in Hr. rewrite Hl in Hr.
  apply row_copy, policy_known in Hr. apply Hr.
Qed.

Lemma add_keeps s userId tenantId identity body key fs :
  sysinv s -> fresh keys key s -> in64 userId -> in64 (seq_token (db s) + 1) ->
  sysinv (after (AddToken maxQuotaValue (clock s) userId tenantId identity body (Some key)) fs (fun _ => [])
    (fun t m => <[key := owner_of t]> m) s).
Proof.
  intros Hs Hfresh Hu Hid. unfold after, AddToken. destruct (negb _); [by destruct s, Hs|]. unfold Insert.
  destruct (String.eqb _ ""); [by destruct s, Hs|]. unfold stmt. cbn [faults tables].
  destruct (next_fault fs) as [[] fs']; [by destruct s, Hs|].
  destruct (existsb _ _); [by destruct s, Hs|]. cbn [tables].
  set (t := with_defaults _ <| t_Id := seq_token (db s) + 1 |>).
  assert (t_Key t = key) as Hkey by done. assert (t_Id t = seq_token (db s) + 1) as Htid by done.
  assert (t_UserId t = userId) as Htu by done. assert (in64 (t_Status t)) as Hst by (change (in64 1); by unfold64).
  assert (live t = true) as Hl by done. clearbody t. subst key.
  destruct Hs as [Hi Hfl Hc Hids Hside Hcl], Hfresh as [Hin Hnew].
  assert (issued s ⊆ <[t_Key t := owner_of t]> (issued s)) as Hsub by by apply insert_subseteq.
  split; cbn [db flight clock issued].
  - apply (inv_sub _ _ _ _ _ Hsub) in Hi. destruct Hi as [Hr Ht Hch Hq]. split; [|done..].
    cbn. apply Forall_app. split; [done|]. constructor; [|done]. unfold row_ok. rewrite Hl.
    apply (policy_insert (issued s) (seq_token (db s)) (face_of t)); [done..|]. split_and!; cbn; try done.
    + by rewrite lookup_insert_eq.
    + by rewrite Htid.
    + by rewrite Htu.
  - rewrite app_nil_r. by eapply flight_sub.
  - intros k k' id u u' tn tn'. rewrite !lookup_insert_Some. unfold owner_of. rewrite Htid.
    intros [[<- Hk]|[_ Hk]] [[<- Hk']|[_ Hk']]; [naive_solver| | |by eapply Hc].
    + simplify_eq. apply Hids in Hk'. cbn in Hk'. lia.
    + simplify_eq. apply Hids in Hk. cbn in Hk. lia.
  - intros k o. rewrite lookup_insert_Some. cbn. intros [[<- <-]|[_ Ho]]; [unfold owner_of; cbn; lia|]. apply Hids in Ho. lia.
  - eapply policy_side; [exact Hsub| |exact Hside]. cbn. lia.
  - done.
Qed.

Lemma rotate_step s userId tenantId id key fs :
  sysinv s -> fresh keys key s ->
  sysinv (after (RotateTokenV2_read userId tenantId id) fs (fun t => [FlightRotate t key]) (fun t m => <[key := owner_of t]> m) s).
Proof.
  intros Hs Hfresh. pose proof (keeps_rotate_read s userId tenantId id (si_consistent s Hs)) as Hm.
  assert (sysinv (after (RotateTokenV2_read userId tenantId id) fs (fun _ => []) (fun _ m => m) s)) as Hs'.
  { eapply after_keeps; [done|exact Hm|]. by constructor. }
  specialize (Hm (db s) (si_db s Hs) fs). unfold after in *.
  destruct (RotateTokenV2_read userId tenantId id (mkStore (db s) fs)) as [[t|x] s']; cbn [fst snd] in Hm; destruct Hm as [_ Hcopy].
  - rewrite app_nil_r in Hs'. by apply (issue_keeps (mkSys (tables s') (flight s) (clock s) (issued s))).
  - done.
Qed.

Lemma tick_keeps s dt : sysinv s -> 0 <= dt -> sysinv (mkSys (db s) (flight s) (clock s + dt) (issued s)).
Proof.
  intros [[Hr Ht Hch Hq] Hfl Hc Hids Hside Hcl] Hdt. split; try done.
  - split; try done. intros key h d Hk Hp. cbn in Hp. rewrite (peekh_age (clock s)) in Hp by lia.
    destruct (peekh (clock s) _ _) as [[h' d']|] eqn:E; [|done]. eapply Hch; [done|].
    cbn [age] in Hp. destruct d' as [x|]; [destruct (x <=? clock s + dt)|]; by simplify_eq.
  - cbn [clock]. unfold GetTimestamp in *. assert (clock s / 1000 <= (clock s + dt) / 1000) by (apply Z.div_le_mono; lia). lia.
Qed.

Lemma step_keeps s s' : step e keys maxQuotaValue allow s s' -> sysinv s -> sysinv s'.
Proof.
  intros Hstep Hs. pose proof Hs as [Hi Hfl Hc Hids Hside Hcl]. pose proof (policy_closed _ Hc) as Hcd. destruct Hstep.
  - eapply plainly_keeps; [done|]. by apply keeps_ValidateUserToken.
  - eapply after_keeps; [done|by apply keeps_UserHeartbeat_read|]. intros [? ?| |t] s' _ Ha; by repeat constructor.
  - eapply after_keeps; [done|apply keeps_edit_read; [done|intros; by eapply row_statuses]|].
    intros t s' He (f & Hr & Hf & Hst). constructor; [|done]. cbn. eapply policy_edit; [by eapply H2|done..].
  - split; [done| |done..]. cbn. apply Forall_app. split; [done|]. constructor; [|done]. cbn.
    destruct Hi as [Hr _ _ _]. eapply Forall_forall in Hr; [|done]. unfold row_ok in Hr. rewrite H2 in Hr.
    by apply row_copy in Hr.
  - by apply rotate_step.
  - apply issue_keeps; [done..| |done]. destruct Hi as [Hr _ _ _]. eapply Forall_forall in Hr; [|done].
    unfold row_ok in Hr. rewrite H2 in Hr. by apply row_copy in Hr.
  - by apply add_keeps.
  - eapply plainly_keeps; [done|]. by apply keeps_DeleteTokenById.
  - eapply plainly_keeps; [done|]. by apply keeps_BatchDeleteTokens.
  - eapply plainly_keeps; [done|]. by apply keeps_IncreaseTokenQuota.
  - eapply plainly_keeps; [done|]. by apply keeps_DecreaseTokenQuota.
  - eapply plainly_keeps; [done|]. by apply keeps_DecreaseTokenQuotaIfEnough.
  - eapply plainly_keeps; [|apply (keeps_land (mkSys (db s) (delete i (flight s)) (clock s) (issued s)))].
    + split; [done| |done..]. cbn. by apply Forall_delete.
    + done.
    + by eapply Forall_lookup_1 in Hfl.
  - eapply plainly_keeps; [done|]. by apply keeps_run_nth.
  - by apply tick_keeps.
Qed.

Lemma reach_keeps s s' : reachable (step e keys maxQuotaValue allow) s s' -> sysinv s -> sysinv s'.
Proof. intros Hr Hs. induction Hr; [done|]. by eapply step_keeps. Qed.
End Invariant.

(** ** Whom a key authenticates *)

Section Authenticates.
Context {TP : TimeParse} (keys : list string).

Lemma known_sub m m' f : m ⊆ m' -> known keys m f -> known keys m' f.
Proof. intros Hs (Hk & ? & ? & ? & ?). split_and!; try done. by eapply lookup_weaken. Qed.

Lemma owned_sub m m' : m ⊆ m' -> sub (owned keys m) (owned keys m').
Proof.
  intros Hs. split; cbn.
  - intros f b. by apply known_sub.
  - intros f. by apply known_sub.
  - intros k h [Hp|(id & u & tn & st & Hk & Hr)]; [by left|]. right. exists id, u, tn, st. split; [by eapply lookup_weaken|done].
  - intros f k [Hk ?]. split; [by eapply lookup_weaken|done].
Qed.

#[export] Instance owned_policy : Policy keys (owned keys) (fun _ _ => True) (fun _ => True).
Proof.
  split; cbn; try done.
  - apply owned_closed.
  - apply owned_sub.
  - intros m seq f key _ _ Hk _. by rewrite lookup_insert_eq.
  - intros m t f _ (Hk & Hin & Hid & Hu & _) Hst ->. by split_and!.
Qed.
End Authenticates.

(** ** Keys that are out *)

(** A token that was disabled, or a key that no live row has. *)
Inductive retirement :=
| Disabled (tid : Z)
| Gone (key : string).

Definition bad (ρ : retirement) (f : face) : Prop :=
  f_status f = TokenStatusEnabled /\ match ρ with Disabled tid => f_id f = tid | Gone key => f_key f = key end.

Definition elsewhere (ρ : retirement) (key : string) : Prop :=
  match ρ with Disabled _ => True | Gone key' => key <> key' end.

(** No enabled copy is left: not in a live row, not on its way to a row or to Redis, not in
    Redis; and the key of a [Gone] is of no live row and not drawn for one. *)
Section NoCopy.
Context {R : Type} `{RedisHashes R} (e : keyenv) (keys : list string) (ρ : retirement).

Definition clear_task (tk : task) : Prop :=
  match tk with TaskSet t | TaskRotated _ t => ~ bad ρ (face_of t) | _ => True end.

Definition clear_flight (f : inflight) : Prop :=
  match f with
  | FlightEdit t | FlightTouch t | FlightModels t => ~ bad ρ (face_of t)
  | FlightRotate t key | FlightScheduled t key _ => ~ bad ρ (face_of t) /\ elsewhere ρ key
  end.

Definition no_copy (s : sys (R := R)) : Prop :=
  Forall (fun t => live t = true -> ~ bad ρ (face_of t) /\ elsewhere ρ (t_Key t)) (rows (db s)) /\
  Forall clear_task (pending (db s)) /\ Forall clear_flight (flight s) /\
  forall key id u tn st, key ∈ keys ->
    let h := hfields (clock s) (cache_key e key) (redis (db s)) in
    dec_int h "Id" = Some id -> dec_int h "Status" = Some st -> ~ bad ρ (mkFace id u tn key st).
End NoCopy.

Section Retired.
Context {TP : TimeParse} (keys : list string) (ρ : retirement).

Definition out (m : gmap string owner) : discipline := {|
  okrow f b := known keys m f /\ (b = true -> ~ bad ρ f /\ elsewhere ρ (f_key f));
  okcopy f := known keys m f /\ ~ bad ρ f;
  okhash key h := known_hash keys m key h /\
    forall id u tn st, dec_int h "Id" = Some id -> dec_int h "Status" = Some st -> ~ bad ρ (mkFace id u tn key st);
  okrotate f key := okrotate (owned keys m) f key /\ elsewhere ρ key
|}.

Definition out_side (m : gmap string owner) (seq : Z) : Prop :=
  match ρ with Disabled tid => tid <= seq | Gone key => is_Some (m !! key) end.

Lemma bad_rekey f key : ~ bad ρ f -> elsewhere ρ key -> ~ bad ρ (rekey key f).
Proof. unfold bad, elsewhere. destruct ρ; naive_solver. Qed.

Lemma not_enabled f : f_status f <> TokenStatusEnabled -> ~ bad ρ f.
Proof. by intros Hf [He _]. Qed.

Lemma out_closed m : consistent m -> Closed keys (out m).
Proof.
  intros Hm. pose proof (owned_closed keys m Hm) as HC. split; cbn.
  - intros f [Hk _]. exact (copy_key (D := owned keys m) f Hk).
  - intros f st [Hk _] Hst. split; [exact (copy_down (D := owned keys m) f st Hk Hst)|].
    apply not_enabled. unfold restatus. cbn. unfold TokenStatusExpired, TokenStatusExhausted, TokenStatusEnabled in *. lia.
  - intros f key [Hk Hb] [Hr He]. split; [exact (copy_rotate (D := owned keys m) f key Hk Hr)|by apply bad_rekey].
  - intros f [Hk Hb]. split; [done|by apply Hb].
  - by intros f b [Hk _].
  - intros f b g [Hk Hb] [Hg Hbg] Hid. split; [exact (row_status (D := owned keys m) f b g Hk Hg Hid)|].
    intros Hl. destruct (Hb Hl) as [Hbf He]. split; [|done]. unfold bad, elsewhere in *. destruct ρ; cbn in *; naive_solver.
  - intros f b g key [Hk Hb] [Hr He] Hid. split; [exact (row_rotate (D := owned keys m) f b g key Hk Hr Hid)|].
    intros Hl. destruct (Hb Hl) as [Hbf _]. split; [by apply bad_rekey|done].
  - intros key. split; [exact (hash_empty (D := owned keys m) key)|]. intros id u tn st _ Hst. apply not_enabled. cbn.
    unfold dec_int in Hst. rewrite lookup_empty in Hst. by simplify_eq.
  - intros t h [Hk Hb] [Hh _]. split; [exact (hash_set (D := owned keys m) t h Hk Hh)|].
    destruct Hk as (_ & _ & I1 & I2 & I3). destruct (written_fields t h) as (W1 & W2 & W3 & W4). intros id u tn st.
    rewrite (dec_int_text _ _ (t_Id t)), (dec_int_text _ _ (t_Status t)) by done. intros [= <-] [= <-].
    unfold bad in *. destruct ρ; cbn in *; naive_solver.
  - intros key h v [Hh Hb]. split; [exact (hash_quota (D := owned keys m) key h v Hh)|].
    intros id u tn st. unfold dec_int. rewrite !lookup_insert_ne by done. apply Hb.
  - intros key h t now [Hh Hb] Hd Hs Hn He. split; [exact (hash_copy (D := owned keys m) key h t now Hh Hd Hs Hn He)|].
    apply decode_token_fields in Hd as (D1 & D2 & D3 & D4 & D5). by eapply Hb.
Qed.

#[export] Instance out_policy : Policy keys out out_side (fun t => ~ bad ρ (face_of t)).
Proof.
  split.
  - apply out_closed.
  - intros m m' Hs. pose proof (owned_sub keys m m' Hs) as [S1 S2 S3 S4]. split; cbn.
    + intros f b [Hk Hb]. split; [by apply (S1 f b)|done].
    + intros f [Hk Hb]. split; [by apply (S2 f)|done].
    + intros k h [Hk Hb]. split; [by apply (S3 k h)|done].
    + intros f k [Hk Hb]. split; [by apply (S4 f k)|done].
  - by intros m f [Hk _].
  - intros m seq f key Hside Hnew Hin [Hk Hb]. cbn. rewrite lookup_insert_eq. split; [done|].
    unfold elsewhere, out_side in *. destruct ρ; [done|]. intros ->. destruct Hside as [? Hs]. congruence.
  - intros m seq f Hside Hnew Hid Hk. split; [done|]. intros _. unfold bad, elsewhere, out_side in *. destruct ρ; cbn.
    + split; [|done]. intros [_ ?]. lia.
    + assert (f_key f <> key) by (intros <-; destruct Hside as [? Hs]; congruence). split; [|done]. by intros [_ ?].
  - intros m t f Hal [Hk Hb] Hst Hf. split; [|done]. destruct Hk as (Hk & ? & ? & ? & _). rewrite Hf. by split_and!.
  - intros m m' seq seq' Hs Hle. unfold out_side. destruct ρ; [lia|]. intros [o Ho]. exists o. by eapply lookup_weaken.
Qed.
End Retired.

Section Theorems.
Context {R : Type} `{RedisHashLaws R} {TP : TimeParse} (e : keyenv) (keys : list string) (maxQuotaValue : Z).
Context (collision_free : forall k k', k ∈ keys -> k' ∈ keys -> cache_key e k = cache_key e k' -> k = k').

Lemma initial_owned s : initial e keys s -> sysinv e keys (owned keys) (fun _ _ => True) s.
Proof.
  intros (Hr & Hp & Hf & Hi & Hc & Hk). split.
  - split; [by rewrite Hr|by rewrite Hp| |done]. intros key h d Hin Hpk. rewrite Hk in Hpk by done. done.
  - by rewrite Hf.
  - rewrite Hi. by intros k k' id u u' tn tn' ?%lookup_empty_Some.
  - intros k o. rewrite Hi. by intros ?%lookup_empty_Some.
  - done.
  - unfold GetTimestamp. assert (1 <= clock s / 1000) by (apply Z.div_le_lower_bound; lia). lia.
Qed.

Lemma validated_known (D : gmap string owner -> discipline) side s key fs t s' :
  Closed keys (D (issued s)) -> sysinv e keys D side s -> key ∈ keys ->
  ValidateUserToken e (clock s) key (mkStore (db s) fs) = (Ok (Some t, None), s') ->
  passed (D (issued s)) (clock s) key t.
Proof.
  intros HC Hs Hk Hv.
  pose proof (keeps_ValidateUserToken e keys collision_free (D (issued s)) (clock s) (seq_token (db s)) key Hk (si_clock _ _ _ _ _ Hs)
    (db s) (si_db _ _ _ _ _ Hs) fs) as [_ Hp].
  by rewrite Hv in Hp.
Qed.

(** A key no live row has, or of a token that was disabled. *)
Definition names (ρ : retirement) (key : string) (s : sys (R := R)) : Prop :=
  match ρ with Disabled tid => exists u tn, issued s !! key = Some (tid, u, tn) | Gone key' => key = key' end.

Lemma no_copy_out ρ s :
  sysinv e keys (owned keys) (fun _ _ => True) s -> no_copy e keys ρ s -> out_side ρ (issued s) (seq_token (db s)) ->
  sysinv e keys (out keys ρ) (out_side ρ) s.
Proof.
  intros [[Hr Ht Hch Hq] Hfl Hc Hids _ Hcl] (Nr & Nt & Nf & Nc) Hside. split; try done.
  - split; [| | |done].
    + apply Forall_forall. intros t Hin. rewrite Forall_forall in Hr, Nr. split; [by apply (Hr t)|]. intros Hl. by apply Nr.
    + apply Forall_forall. intros tk Hin. rewrite Forall_forall in Ht, Nt. specialize (Ht tk Hin). specialize (Nt tk Hin).
      destruct tk; try done; by split.
    + intros key h d Hin Hp. split; [by eapply Hch|]. intros id u tn st Hid Hst. eapply Nc; [exact Hin| |];
        unfold hfields; rewrite Hp; done.
  - apply Forall_forall. intros f Hin. rewrite Forall_forall in Hfl, Nf. specialize (Hfl f Hin). specialize (Nf f Hin).
    destruct f; cbn in *; naive_solver.
Qed.
End Theorems.

(** C11. Whatever edits, rotations, deletions, heartbeats, quota changes and cache
    refreshes are under way, in any order and with any statement or command failing, a key
    that authenticates a request authenticates it as the token, the user and the tenant it
    was issued to, and the token that passed is enabled, not expired and not spent.  An entry
    of the cache that lost its fields never passes. *)
Theorem key_authenticates_owner {R} `{RedisHashLaws R} {TP : TimeParse} e keys maxQuotaValue s0 s key fs t s' :
  (forall k k', k ∈ keys -> k' ∈ keys -> cache_key e k = cache_key e k' -> k = k') ->
  initial (R := R) e keys s0 -> reachable (step e keys maxQuotaValue (fun _ => True)) s0 s -> key ∈ keys ->
  ValidateUserToken e (clock s) key (mkStore (db s) fs) = (Ok (Some t, None), s') ->
  issued s !! key = Some (owner_of t) /\ t_Key t = key /\ t_Status t = TokenStatusEnabled /\
  (t_ExpiredTime t = -1 \/ GetTimestamp (clock s) <= t_ExpiredTime t) /\ QuotaAvailable t = true.
Proof.
  intros Hcf H0' Hr Hk Hv. apply initial_owned in H0'.
  eapply (reach_keeps e keys maxQuotaValue Hcf) in Hr; [|apply owned_policy|exact H0'].
  apply (validated_known e keys Hcf (owned keys) (fun _ _ => True)) in Hv as (Hkey & (Ho & _) & Hst & He & Hq); [|by apply owned_closed, (si_consistent _ _ _ _ _ Hr)|done..].
  cbn in Ho. rewrite Hkey in Ho. done.
Qed.

(** C12. Once no enabled copy of a token is left anywhere, in its row, in memory on its way
    to the row or to Redis, or in Redis, a disabled token stays out under all its keys until
    an edit enables it, and a key that was rotated away or deleted stays out for good,
    whatever else the system does. *)
Theorem retired_key_stays_out {R} `{RedisHashLaws R} {TP : TimeParse} e keys maxQuotaValue ρ s0 s s' key fs t s1 :
  (forall k k', k ∈ keys -> k' ∈ keys -> cache_key e k = cache_key e k' -> k = k') ->
  initial (R := R) e keys s0 -> reachable (step e keys maxQuotaValue (fun _ => True)) s0 s ->
  no_copy e keys ρ s -> out_side ρ (issued s) (seq_token (db s)) ->
  reachable (step e keys maxQuotaValue (fun t => ~ bad ρ (face_of t))) s s' ->
  key ∈ keys -> names ρ key s' ->
  ValidateUserToken e (clock s') key (mkStore (db s') fs) <> (Ok (Some t, None), s1).
Proof.
  intros Hcf H0' Hr Hno Hside Hr' Hk Hn Hv. apply initial_owned in H0'.
  eapply (reach_keeps e keys maxQuotaValue Hcf) in Hr; [|apply owned_policy|exact H0'].
  eapply no_copy_out in Hr; [|done..]. eapply (reach_keeps e keys maxQuotaValue Hcf) in Hr'; [|apply out_policy|exact Hr].
  apply (validated_known e keys Hcf (out keys ρ) (out_side ρ)) in Hv as (Hkey & [(Ho & _) Hb] & Hst & _); [|by apply out_closed, (si_consistent _ _ _ _ _ Hr')|done..].
  apply Hb. split; [done|]. cbn in *. destruct ρ; cbn in *; [|congruence]. destruct Hn as (u & tn & Hn). rewrite Hkey in Ho. congruence.
Qed.

(** ** A key that is created, used and disabled *)

#[local] Instance demo_times : TimeParse := fun _ => None.

Definition demo_keys : list string := ["k1"; "k2"].

Lemma demo_collision_free k k' : k ∈ demo_keys -> k' ∈ demo_keys -> cache_key demo_env k = cache_key demo_env k' -> k = k'.
Proof.
  assert (cache_key demo_env "k1" <> cache_key demo_env "k2") as Hne.
  { apply (bool_decide_unpack _). vm_compute. exact I. }
  unfold demo_keys. rewrite !elem_of_cons, !elem_of_nil. intros [->|[->|[]]] [->|[->|[]]] Hk; congruence.
Qed.

Definition demo_max : Z := 500000000000000.
Definition demo_start : sys (R := hashes) := mkSys (mkKeydb [] 0 ∅ [] []) [] 1000 ∅.

Definition demo_body : Token := zero_token <| t_Name := "n" |> <| t_RemainQuota := 500 |>.
Definition demo_created : sys :=
  after (AddToken demo_max 1000 3 "acme" 0 demo_body (Some "k1")) [] (fun _ => []) (fun t m => <["k1" := owner_of t]> m) demo_start.
Definition demo_row : Token :=
  demo_body <| t_Id := 1 |> <| t_UserId := 3 |> <| t_TenantId := "acme" |> <| t_Key := "k1" |> <| t_Status := 1 |>
    <| t_CreatedTime := 1 |> <| t_AccessedTime := 1 |> <| t_ExpiredTime := -1 |> <| t_AllowIps := Some "" |>.

Lemma demo_initial : initial demo_env demo_keys demo_start.
Proof. repeat split; try done. Qed.

Lemma demo_create : reachable (step demo_env demo_keys demo_max (fun _ => True)) demo_start demo_created.
Proof. eapply reach_step; [apply reach_init|]. apply step_add; [split; [by left|done]|by unfold64..]. Qed.

Lemma key_authenticates_owner_witness :
  exists s', ValidateUserToken demo_env 1000 "k1" (mkStore (db demo_created) []) = (Ok (Some demo_row, None), s') /\
    issued demo_created !! "k1" = Some (owner_of demo_row).
Proof.
  eexists. refine ((fun Hv => conj Hv _) _).
  - eapply (key_authenticates_owner demo_env demo_keys demo_max demo_start demo_created "k1" []);
      [exact demo_collision_free|exact demo_initial|exact demo_create|by left|exact Hv].
  - vm_compute. reflexivity.
Defined.

(** The owner disables the key; the row and then its copy in Redis are written. *)
Definition demo_disable : Token := zero_token <| t_Id := 1 |> <| t_Status := 2 |>.
Definition demo_editing : sys :=
  after (UpdateToken_read demo_max 1000 3 "true" demo_disable) [] (fun t => [FlightEdit t]) (fun _ m => m) demo_created.
Definition demo_edited : sys :=
  plainly (land demo_env (FlightEdit (demo_row <| t_Status := 2 |>))) []
    (mkSys (db demo_editing) (delete 0%nat (flight demo_editing)) (clock demo_editing) (issued demo_editing)).
Definition demo_disabled : sys := plainly (run_nth demo_env (clock demo_edited) 0) [] demo_edited.

Lemma demo_disabling : reachable (step demo_env demo_keys demo_max (fun _ => True)) demo_start demo_disabled.
Proof.
  eapply reach_step; [eapply reach_step; [eapply reach_step; [exact demo_create|]|]|].
  - apply (step_edit _ _ _ _ _ 3 "true" demo_disable []); [by unfold64|done].
  - apply (step_land _ _ _ _ demo_editing 0 (FlightEdit (demo_row <| t_Status := 2 |>)) []). vm_compute. reflexivity.
  - apply (step_run _ _ _ _ demo_edited 0 []).
Qed.

Lemma demo_no_copy : no_copy demo_env demo_keys (Disabled 1) demo_disabled.
Proof.
  assert (rows (db demo_disabled) = [demo_row <| t_Status := 2 |>]) as Hrows by (vm_compute; reflexivity).
  assert (pending (db demo_disabled) = []) as Hp by (vm_compute; reflexivity).
  assert (flight demo_disabled = []) as Hf by (vm_compute; reflexivity).
  assert (dec_int (hfields (clock demo_disabled) (cache_key demo_env "k1") (redis (db demo_disabled))) "Status" = Some 2) as H1 by (vm_compute; reflexivity).
  assert (dec_int (hfields (clock demo_disabled) (cache_key demo_env "k2") (redis (db demo_disabled))) "Status" = Some 0) as H2 by (vm_compute; reflexivity).
  unfold no_copy. revert Hrows Hp Hf H1 H2. generalize demo_disabled. intros s -> -> -> H1 H2.
  split; [constructor; [|constructor]; intros _; split; [intros [? _]; discriminate|exact I]|].
  split; [constructor|]. split; [constructor|]. intros key id u tn st Hk. cbv zeta. intros _ Hst [He _]. cbn in He. subst st.
  apply elem_of_cons in Hk as [->|Hk]; [rewrite H1 in Hst; discriminate|].
  apply elem_of_cons in Hk as [->|Hk%elem_of_nil]; [rewrite H2 in Hst; discriminate|done].
Qed.

Lemma retired_key_stays_out_witness :
  reachable (step demo_env demo_keys demo_max (fun _ => True)) demo_start demo_disabled /\
  forall fs t s1, ValidateUserToken demo_env 1000 "k1" (mkStore (db demo_disabled) fs) <> (Ok (Some t, None), s1).
Proof.
  split; [exact demo_disabling|]. intros fs t s1.
  eapply (retired_key_stays_out demo_env demo_keys demo_max (Disabled 1) demo_start demo_disabled demo_disabled "k1" fs t s1);
    [exact demo_collision_free|exact demo_initial|exact demo_disabling|exact demo_no_copy|vm_compute; discriminate|apply reach_init|by left|].
  exists 3, "acme". vm_compute. reflexivity.
Defined.

End TokenSystem.
