(* ===== verification/TokenRaces.v ===== *)
(** * API keys: what the delayed writes let through

    A refresh of the cache is sent after the operation it belongs to, and a heartbeat writes
    back what it found: a copy that is out of date can outlive, or undo, a revocation.  Also
    the scheduled rotation, whose conditional update lets one of several rotators win. *)

From coqutil Require Import Datatypes.RecordSetters.
From stdpp Require Import sorting.
From S2P Require Import Prelude Wp GoStrings Redis StepUp TokenCache TokenStore TokenStoreSpec TokenSystem.

Module TokenRaces.
Import GoStrings TokenCache TokenStore TokenStoreSpec TokenSystem.

(** ** Heartbeats on a cached key *)

Section Heartbeats.
Context {R : Type} `{RedisHashLaws R} {TP : TimeParse} (e : keyenv) (raw : string) (env : hbenv).

(** A client that calls the heartbeat at the given times; its refresh of the cache runs at
    once. *)
Fixpoint beats (ts : list Z) (s : store (keydb (R := R))) : store keydb :=
  match ts with
  | [] => s
  | t :: ts' => beats ts' (run_nth e t 0 (UserHeartbeat e t raw env s).2).2
  end.

(** Each within the time to live of the one before. *)
Fixpoint paced (now : Z) (ts : list Z) : Prop :=
  match ts with
  | [] => True
  | t :: ts' => now <= t < now + SyncFrequency e * 1000 /\ in64 t /\ paced t ts'
  end.

(** A copy that passes on its own. *)
Definition usable (o : owner) (t : Token) : Prop :=
  t_Key t = heartbeat_key raw /\ owner_of t = o /\ t_Status t = TokenStatusEnabled /\ t_ExpiredTime t = -1 /\
  QuotaAvailable t = true /\ struct_ok t.

(** It is in the cache, for the full time to live, and no goroutine is under way. *)
Definition lives (o : owner) (now : Z) (s : store (keydb (R := R))) : Prop :=
  faults s = [] /\ pending (tables s) = [] /\
  exists h t, peekh now (cache_key e (heartbeat_key raw)) (redis (tables s)) = Some (h, Some (now + SyncFrequency e * 1000)) /\
    holds h (Clean t) /\ usable o t.

Lemma token_ok_cached t a key : token_ok t -> in64 a -> token_ok (cached (Clean t) <| t_Key := key |> <| t_AccessedTime := a |>).
Proof.
  unfold struct_ok, struct_fields, token_struct. intros Hok Ha.
  repeat (apply Forall_cons in Hok as [Hf Hok]; apply Forall_cons_2; [exact Hf || exact Ha|clear Hf]). constructor.
Qed.

Definition kept (t : Token) : Token := cached (Clean t) <| t_Key := heartbeat_key raw |>.

Lemma kept_usable o t now : in64 now -> usable o t -> usable o (kept t <| t_AccessedTime := GetTimestamp now |>).
Proof.
  intros Hn (Hk & Ho & Hs & He & Hq & Hok). split_and!; try done. apply (token_ok_cached t (GetTimestamp now) (heartbeat_key raw)); [done|].
  unfold GetTimestamp. unfold64. split; [apply Z.div_le_lower_bound|apply Z.div_le_upper_bound]; lia.
Qed.

Lemma set_redis_same (d : keydb (R := R)) : set_redis (redis d) d = d.
Proof. by destruct d. Qed.

(** The lookup answers the copy and changes nothing. *)
Lemma lookup_cached now h d t s :
  RedisEnabled e = true -> faults s = [] -> peekh now (cache_key e (heartbeat_key raw)) (redis (tables s)) = Some (h, d) ->
  holds h (Clean t) -> struct_ok t ->
  GetTokenByKey e now (heartbeat_key raw) false s = (Ok (kept t), s).
Proof.
  intros He Hs Hp Hh Hok. destruct s as [d0 fs]. cbn in Hs, Hp. subst fs. unfold GetTokenByKey. rewrite He. cbn [negb andb].
  unfold catch, on_redis. cbn [tables faults].
  rewrite (cacheGet_hash e now (heartbeat_key raw) h d (mkStore (redis d0) []) He eq_refl Hp) by by eapply holds_nonempty.
  rewrite (decode_token h (Clean t) (token_ok_Clean _ Hok) Hh). cbn [tables faults]. by rewrite set_redis_same.
Qed.

Context (He : RedisEnabled e = true) (Hf : 0 < SyncFrequency e).
Context (o : owner) (Hkey : heartbeat_key raw <> "") (Hraw : TrimSpace raw <> "").
Context (Hbody : hb_body env = true) (Hslug : hb_slug env = None) (Hgate : hb_gate env o.2 = true).
Context (Huser : hb_user env o.1.2 = Some 1).

(** The answer is the copy itself, to be written back. *)
Lemma heartbeat_active now h d t s :
  faults s = [] -> peekh now (cache_key e (heartbeat_key raw)) (redis (tables s)) = Some (h, d) ->
  holds h (Clean t) -> usable o t ->
  UserHeartbeat_read e now raw env s = (Ok (HbActive (kept t <| t_AccessedTime := GetTimestamp now |>)), s).
Proof using He Hkey Hraw Hbody Hslug Hgate Huser.
  intros Hs Hp Hh (Hk & Ho & Hst & Hex & Hq & Hok). unfold UserHeartbeat_read.
  rewrite (proj2 (String.eqb_neq _ _) Hraw), (proj2 (String.eqb_neq _ _) Hkey), Hbody. cbn [orb negb].
  unfold catch. rewrite (lookup_cached now h d t s He Hs Hp Hh Hok). unfold ret.
  change (t_Status (kept t)) with (t_Status t). change (t_ExpiredTime (kept t)) with (t_ExpiredTime t).
  change (t_UnlimitedQuota (kept t)) with (t_UnlimitedQuota t). change (t_RemainQuota (kept t)) with (t_RemainQuota t).
  change (t_UserId (kept t)) with (t_UserId t). change (t_TenantId (kept t)) with (t_TenantId t).
  subst o. cbn in Hgate, Huser. rewrite Hst, Hex, Huser, Hslug, Hgate. cbn.
  unfold QuotaAvailable in Hq. destruct (t_UnlimitedQuota t); [done|]. cbn in *. bool_to_prop.
  by rewrite (proj2 (Z.leb_gt _ _) Hq).
Qed.

(** A beat leaves the copy in the cache for another full time to live, and enables its row. *)
Lemma beat_lives now t' s :
  lives o now s -> now <= t' < now + SyncFrequency e * 1000 -> in64 t' ->
  let s' := (run_nth e t' 0 (UserHeartbeat e t' raw env s).2).2 in
  lives o t' s' /\ Forall (fun row => with_id o.1.1 row = true -> t_Status row = TokenStatusEnabled) (rows (tables s')).
Proof using All.
  intros (Hs & Hpd & h & t & Hp & Hh & Hu) Hnow Hin s'.
  assert (peekh t' (cache_key e (heartbeat_key raw)) (redis (tables s)) = Some (h, Some (now + SyncFrequency e * 1000))) as Hp'.
  { rewrite (peekh_age now), Hp by lia. cbn [age]. by destruct (Z.leb_spec (now + SyncFrequency e * 1000) t'); [lia|]. }
  pose proof (kept_usable o t t' Hin Hu) as Hu'. set (c := kept t <| t_AccessedTime := GetTimestamp t' |>) in *.
  destruct s as [d fs]. cbn in Hs, Hpd, Hp, Hp'. subst fs.
  assert (s' = mkStore (set_pending [] (set_redis (tables (cacheSetToken e t' c (mkStore (redis d) [])).2)
    (set_rows (update_where (with_id (t_Id c)) (fun row => row <| t_AccessedTime := t_AccessedTime c |> <| t_Status := t_Status c |>) (rows d)) d))) []) as ->.
  { unfold s', UserHeartbeat, bind. rewrite (heartbeat_active t' h _ t (mkStore d [])) by done. fold c.
    unfold catch, SelectUpdate, bind, Updates, stmt, refresh. cbn [tables faults next_fault]. rewrite He.
    unfold AsyncGo, local. cbn [tables faults ret snd]. unfold run_nth, bind, local. cbn [tables faults pending set_pending set_rows].
    rewrite Hpd. reflexivity. }
  split.
  - split; [done|]. split; [done|]. exists (encode (Clean c) ∪ h), c. split_and!; [|apply holds_written|done].
    + cbn [tables redis set_pending set_redis].
      rewrite <- (proj1 Hu' : t_Key c = heartbeat_key raw).
      rewrite (peek_cacheSetToken e t' c (mkStore (redis d) []) _ Hf (cacheSet_healthy e t' c (redis d))).
      unfold hfields. rewrite (proj1 Hu' : t_Key c = heartbeat_key raw). cbn [tables]. by rewrite Hp'.
    + specialize (Hh "DeletedAt" (FDeletedAt (fun v t => t <| t_DeletedAt := v |>))). apply Hh.
      unfold struct_fields, token_struct. do 30 right. left.
  - cbn [tables rows set_pending set_redis set_rows]. unfold update_where. apply Forall_fmap, Forall_forall. intros row _. unfold compose. cbn beta.
    destruct Hu' as (_ & Ho & Hst & _). assert (t_Id c = o.1.1) as Hid by by rewrite <- Ho.
    rewrite Hid. destruct (with_id o.1.1 row) eqn:E; [done|]. by rewrite E.
Qed.

Lemma beats_live ts : forall now s,
  lives o now s -> paced now ts ->
  lives o (foldl (fun _ t => t) now ts) (beats ts s) /\
  (ts = [] \/ Forall (fun row => with_id o.1.1 row = true -> t_Status row = TokenStatusEnabled) (rows (tables (beats ts s)))).
Proof using All.
  induction ts as [|t ts IH]; intros now s Hl Hp; [by split; [|left]|].
  destruct Hp as (Hnow & Hin & Hp). destruct (beat_lives now t s Hl Hnow Hin) as [Hl' Hr].
  destruct (IH t _ Hl' Hp) as [Hl'' Hr'']. split.
  - done.
  - right. destruct Hr'' as [-> | Hr'']; [done|exact Hr''].
Qed.

Lemma lives_passes now s : lives o now s ->
  exists t, (ValidateUserToken e now (heartbeat_key raw) s).1 = Ok (Some t, None) /\ owner_of t = o.
Proof using He Hkey Hf.
  intros (Hs & _ & h & t & Hp & Hh & (Hk & Ho & Hst & Hex & Hq & Hok)). exists (kept t). split; [|done].
  unfold ValidateUserToken. rewrite (proj2 (String.eqb_neq _ _) Hkey). unfold catch.
  rewrite (lookup_cached now h _ t s He Hs Hp Hh Hok).
  change (t_Status (kept t)) with (t_Status t). change (t_ExpiredTime (kept t)) with (t_ExpiredTime t).
  change (t_UnlimitedQuota (kept t)) with (t_UnlimitedQuota t). change (t_RemainQuota (kept t)) with (t_RemainQuota t).
  rewrite Hst, Hex. cbn. unfold QuotaAvailable in Hq. destruct (t_UnlimitedQuota t); [done|]. cbn in *. bool_to_prop.
  by rewrite (proj2 (Z.leb_gt _ _) Hq).
Qed.
End Heartbeats.

(** C40. A heartbeat reads the copy of a key in Redis, writes its status back to the row and
    caches it anew.  So a client that holds a key of which an enabled copy is still cached,
    whatever its row says by then, keeps it alive by calling the heartbeat once per time to
    live: after any number of calls the key still authenticates as before, and a row that was
    disabled is enabled again. *)
Theorem heartbeat_revives_key {R} `{RedisHashLaws R} {TP : TimeParse} e raw env o now ts s :
  RedisEnabled e = true -> 0 < SyncFrequency e -> heartbeat_key raw <> "" -> TrimSpace raw <> "" ->
  hb_body env = true -> hb_slug env = None -> hb_gate env o.2 = true -> hb_user env o.1.2 = Some 1 ->
  lives (R := R) e raw o now s -> paced e now ts ->
  (exists t, (ValidateUserToken e (foldl (fun _ t => t) now ts) (heartbeat_key raw) (beats e raw env ts s)).1 = Ok (Some t, None) /\ owner_of t = o) /\
  (ts = [] \/ Forall (fun row => with_id o.1.1 row = true -> t_Status row = TokenStatusEnabled) (rows (tables (beats e raw env ts s)))).
Proof.
  intros He Hf Hk Hr Hb Hsl Hg Hu Hl Hp. destruct (beats_live e raw env He Hf o Hk Hr Hb Hsl Hg Hu ts now s Hl Hp) as [Hl' Hrows].
  split; [|done]. by eapply (lives_passes e raw He Hf o Hk).
Qed.

(** *** A copy that comes late *)

#[local] Instance demo_times : TimeParse := fun _ => None.

(** A request reads the row of a key that is not cached; the key is disabled and the cache
    refreshed; only then is the copy the request read cached. *)
Definition late_read : sys := plainly (ValidateUserToken demo_env 1000 "k1") [] demo_created.
Definition late_editing : sys :=
  after (UpdateToken_read demo_max 1000 3 "true" demo_disable) [] (fun t => [FlightEdit t]) (fun _ m => m) late_read.
Definition late_edited : sys :=
  plainly (land demo_env (FlightEdit (demo_row <| t_Status := 2 |>))) []
    (mkSys (db late_editing) (delete 0%nat (flight late_editing)) (clock late_editing) (issued late_editing)).
Definition late_refreshed : sys := plainly (run_nth demo_env (clock late_edited) 1) [] late_edited.
Definition late_cached : sys := plainly (run_nth demo_env (clock late_refreshed) 0) [] late_refreshed.

Lemma late_reached : reachable (step demo_env demo_keys demo_max (fun _ => True)) demo_start late_cached.
Proof.
  apply (reach_step _ _ late_refreshed); [|exact (step_run _ _ _ _ late_refreshed 0 [])].
  apply (reach_step _ _ late_edited); [|exact (step_run _ _ _ _ late_edited 1 [])].
  apply (reach_step _ _ late_editing).
  - apply (reach_step _ _ late_read).
    + apply (reach_step _ _ demo_created); [exact demo_create|]. apply (step_auth _ _ _ _ demo_created "k1" []). by left.
    + apply (step_edit _ _ _ _ late_read 3 "true" demo_disable []); [by unfold64|done].
  - apply (step_land _ _ _ _ late_editing 0 (FlightEdit (demo_row <| t_Status := 2 |>)) []). vm_compute. reflexivity.
Qed.

Definition demo_hb : hbenv := mkHbenv true (fun _ => Some 1) None (fun _ => true).

(** Nothing is under way any more, the row is disabled, and the key passes. *)
Example late_copy_passes :
  pending (db late_cached) = [] /\ flight late_cached = [] /\ (t_Status <$> rows (db late_cached)) = [2] /\
  (fun v => match v with Ok (Some _, None) => true | _ => false end)
    (ValidateUserToken demo_env 1000 "k1" (mkStore (db late_cached) [])).1 = true.
Proof. vm_compute. split_and!; reflexivity. Qed.

Lemma late_lives : lives demo_env "k1" (1, 3, "acme") 1000 (mkStore (db late_cached) []).
Proof.
  split; [reflexivity|]. split; [vm_compute; reflexivity|].
  exists (hfields 1000 (cache_key demo_env "k1") (redis (db late_cached))), demo_row. split_and!.
  - assert (hdeadline 1000 (cache_key demo_env "k1") (redis (db late_cached)) = Some 61000) as Hd by (vm_compute; reflexivity).
    change (heartbeat_key "k1") with "k1". cbn [tables].
    unfold hdeadline, hfields in *. destruct (peekh 1000 (cache_key demo_env "k1") (redis (db late_cached))) as [[h d]|]; cbn in Hd; [|discriminate].
    cbn. by subst d.
  - assert (forallb (fun nf => bool_decide (hfields 1000 (cache_key demo_env "k1") (redis (db late_cached)) !! nf.1 = encode_field (Clean demo_row) nf.2))
      struct_fields = true) as Hall by (vm_compute; reflexivity).
    revert Hall. generalize (hfields 1000 (cache_key demo_env "k1") (redis (db late_cached))). intros h Hall name f Hin%list_elem_of_In.
    pose proof (proj1 (forallb_forall _ _) Hall _ Hin) as Hb. apply bool_decide_eq_true in Hb. exact Hb.
  - split_and!; try reflexivity. unfold struct_ok, struct_fields, token_struct.
    repeat (apply Forall_cons_2; [first [exact I | vm_compute; split; discriminate]|]). constructor.
Qed.

Lemma heartbeat_revives_key_witness :
  (t_Status <$> rows (db late_cached)) = [2] /\
  Forall (fun row => with_id 1 row = true -> t_Status row = TokenStatusEnabled)
    (rows (tables (beats demo_env "k1" demo_hb [60000; 119000] (mkStore (db late_cached) [])))).
Proof.
  split; [vm_compute; reflexivity|].
  destruct (heartbeat_revives_key demo_env "k1" demo_hb (1, 3, "acme") 1000 [60000; 119000] (mkStore (db late_cached) [])) as [_ [Hn|Hr]];
    [reflexivity|reflexivity|discriminate|discriminate|reflexivity|reflexivity|reflexivity|reflexivity|exact late_lives| |discriminate Hn|exact Hr].
  repeat split; vm_compute; discriminate.
Defined.

(** ** An increment that comes late *)

Lemma decode_fields_none {T} {TP : TimeParse} (h : gmap string string) (fs : list (string * field T)) t :
  Forall (fun nf => h !! nf.1 = None) fs -> decode_fields h fs t = Ok t.
Proof. induction 1 as [|[name f] fs Hn _ IH]; [done|]. cbn in Hn |- *. unfold decode_fields. rewrite Hn. exact IH. Qed.

Lemma decode_fields_some {T} {TP : TimeParse} (h : gmap string string) name f v (fs : list (string * field T)) t :
  h !! name = Some v ->
  decode_fields h ((name, f) :: fs) t = match decode_text name v f t with Ok t' => decode_fields h fs t' | Err x => Err x end.
Proof. intros Hh. unfold decode_fields. by rewrite Hh. Qed.

Lemma decode_quota {TP : TimeParse} q :
  in64 q -> decode_fields ({["RemainQuota" := Itoa q]} : gmap string string) struct_fields zero = Ok (zero_token <| t_RemainQuota := q |>).
Proof.
  intros Hq. change (struct_fields (T := Token)) with (take 9 struct_fields ++ drop 9 (struct_fields (T := Token))).
  rewrite decode_fields_app, decode_fields_none
    by (cbn; repeat (apply Forall_cons_2; [apply lookup_singleton_ne; discriminate|]); constructor).
  cbn [drop struct_fields token_struct]. rewrite (decode_fields_some _ _ _ (Itoa q)) by apply lookup_singleton_eq. cbn [decode_text].
  rewrite Atoi_Itoa by done. apply decode_fields_none.
  repeat (apply Forall_cons_2; [apply lookup_singleton_ne; discriminate|]). constructor.
Qed.

(** The time to live was read while the entry was there; the write finds it expired or
    deleted, and makes one with the quota alone: until it expires the key is refused as
    disabled, whatever its row says. *)
Theorem late_increment_shadows_key {R} `{RedisHashLaws R} {TP : TimeParse} e now now' key delta ttl d s :
  RedisEnabled e = true -> key <> "" -> in64 delta -> 0 < ttl -> now <= now' < now + ttl * 1000 ->
  peekh now (cache_key e key) (redis d) = None ->
  on_redis (R := R) (hincr_write now (cache_key e key) TokenFiledRemainQuota delta ttl) (mkStore d []) = (Ok tt, s) ->
  exists t, (ValidateUserToken e now' key s).1 = Ok (Some t, Some ErrTokenDisabled).
Proof.
  intros He Hk Hd Ht Hnow Hp Hw. unfold on_redis, hincr_write in Hw. rewrite (proj2 (Z.ltb_lt _ _) Ht) in Hw.
  unfold command, bind, stmt in Hw. cbn [tables faults next_fault] in Hw.
  assert ((HINCRBY now (cache_key e key) TokenFiledRemainQuota delta (redis d)).1 = Some delta) as Hi.
  { rewrite (hincr_adds _ _ _ _ _ 0); [done|unfold hcount, hfields; by rewrite Hp|done]. }
  pose proof (hincr_stores _ _ _ _ _ _ Hi) as Hst. destruct (HINCRBY _ _ _ _ _) as [v r'] eqn:E. cbn in Hi, Hst. subst v.
  cbn in Hw. injection Hw as <-.
  assert (peekh now' (cache_key e key) (HashEXPIRE now (cache_key e key) (ttl * 1000) r') =
    Some ({["RemainQuota" := Itoa delta]}, Some (now + ttl * 1000))) as Hp'.
  { rewrite (peekh_age now), hexpire_sets, Hst by lia. unfold hfields. rewrite Hp. cbn.
    by destruct (Z.leb_spec (now + ttl * 1000) now'); [lia|]. }
  exists (zero_token <| t_RemainQuota := delta |> <| t_Key := key |>).
  unfold ValidateUserToken. rewrite (proj2 (String.eqb_neq _ _) Hk). unfold catch, GetTokenByKey. rewrite He. cbn [negb andb].
  unfold catch, on_redis. cbn [tables faults redis set_redis].
  rewrite (cacheGet_hash e now' key _ _ (mkStore _ []) He eq_refl Hp'), decode_quota by (done || apply map_non_empty_singleton).
  reflexivity.
Qed.

(** ** Scheduled rotation *)

Section Rotation.
Context {R : Type} `{RedisHashLaws R} {TP : TimeParse} (e : keyenv).

Abbreviation K A := (M (keydb (R := R)) tok_err A).

(** Ids are given out once. *)
Definition ids_ok (d : keydb (R := R)) : Prop := NoDup (t_Id <$> rows d) /\ Forall (fun t => t_Id t <= seq_token d) (rows d).

(** The row of a token was rotated after [b]. *)
Definition beyond (id b : Z) (d : keydb (R := R)) : Prop := Forall (fun t => t_Id t = id -> b < t_RotatedAt t) (rows d).

Definition later (d d' : keydb (R := R)) : Prop :=
  seq_token d <= seq_token d' /\ forall id b, id <= seq_token d -> beyond id b d -> beyond id b d'.

(** An operation that does not take the time of the last rotation back. *)
Definition steady {A} (m : K A) : Prop := forall d, ids_ok d -> wp m (fun _ d' => ids_ok d' /\ later d d') d.

Lemma later_refl d : later d d.
Proof. split; [lia|done]. Qed.

Lemma later_trans d1 d2 d3 : later d1 d2 -> later d2 d3 -> later d1 d3.
Proof. intros [S1 L1] [S2 L2]. split; [lia|]. intros id b Hid Hb. apply L2; [lia|]. by apply L1. Qed.

Lemma steady_ret {A} (a : A) : steady (ret a : K A).
Proof. intros d Hd. apply wp_ret. split; [done|apply later_refl]. Qed.

Lemma steady_throw {A} x : steady (throw x : K A).
Proof. intros d Hd. apply wp_throw. split; [done|apply later_refl]. Qed.

Lemma steady_bind {A B} (m : K A) (k : A -> K B) : steady m -> (forall a, steady (k a)) -> steady (bind m k).
Proof.
  intros Hm Hk d Hd. apply wp_bind. eapply wp_mono; [by apply Hm|]. intros [a|x] d' [Hd' Hl]; [|done].
  eapply wp_mono; [by apply Hk|]. intros r d2 [Hd2 Hl2]. split; [done|by eapply later_trans].
Qed.

Lemma steady_catch {A B} (m : K A) (k : result tok_err A -> K B) : steady m -> (forall r, steady (k r)) -> steady (catch m k).
Proof.
  intros Hm Hk d Hd. apply wp_catch. eapply wp_mono; [by apply Hm|]. intros r0 d' [Hd' Hl].
  eapply wp_mono; [by apply Hk|]. intros r d2 [Hd2 Hl2]. split; [done|by eapply later_trans].
Qed.

Lemma steady_transaction {A} (m : K A) : steady m -> steady (transaction m).
Proof.
  intros Hm d Hd. apply wp_transaction; [split; [done|apply later_refl]|]. eapply wp_mono; [by apply Hm|].
  intros [a|x] d' Hl; [done|]. split; [done|apply later_refl].
Qed.

(** What leaves the rows and the sequence alone. *)
Lemma steady_same {A} (m : K A) :
  (forall s, rows (tables (m s).2) = rows (tables s) /\ seq_token (tables (m s).2) = seq_token (tables s)) -> steady m.
Proof.
  intros Hm d Hd fs. destruct (Hm (mkStore d fs)) as [Hr Hq]. cbn in Hr, Hq. unfold ids_ok, later, beyond. rewrite Hr, Hq.
  split; [done|]. split; [lia|done].
Qed.

Lemma steady_query {A} (f : keydb -> A) : steady (query f : K A).
Proof. apply steady_same. intros s. unfold query, stmt. by destruct (next_fault (faults s)) as [[] ?]. Qed.

Lemma steady_redis {A} (m : M R tok_err A) : steady (on_redis m).
Proof. apply steady_same. intros s. unfold on_redis. by destruct (m _). Qed.

Lemma steady_AsyncGo tk : steady (AsyncGo (R := R) tk).
Proof. by apply steady_same. Qed.

Lemma steady_refresh tk : steady (refresh (R := R) e tk).
Proof. unfold refresh. destruct (RedisEnabled e); [apply steady_AsyncGo|apply steady_ret]. Qed.

Lemma later_update P f d :
  ids_ok d -> (forall t, P t = true -> t_Id (f t) = t_Id t /\ t_RotatedAt t <= t_RotatedAt (f t)) ->
  ids_ok (set_rows (update_where P f (rows d)) d) /\ later d (set_rows (update_where P f (rows d)) d).
Proof.
  intros [Hnd Hle] Hf. unfold update_where.
  assert ((t_Id <$> ((fun r => if P r then f r else r) <$> rows d)) = (t_Id <$> rows d)) as Hids.
  { rewrite <- list_fmap_compose. apply list_fmap_ext. intros _ t _. unfold compose. destruct (P t) eqn:E; [|done]. by apply Hf. }
  split; [split; cbn|split; cbn; [lia|]].
  - by rewrite Hids.
  - apply Forall_fmap. eapply Forall_impl; [exact Hle|]. intros t Ht. cbn. destruct (P t) eqn:E; [|done]. destruct (Hf t E) as [-> _]. done.
  - intros id b _ Hb. unfold beyond in *. cbn. apply Forall_fmap. eapply Forall_impl; [exact Hb|]. intros t Ht. cbn.
    destruct (P t) eqn:E; [|done]. destruct (Hf t E) as [-> Hr]. intros Hid. specialize (Ht Hid). lia.
Qed.

Lemma steady_Updates P f : (forall t, t_Id (f t) = t_Id t /\ t_RotatedAt t <= t_RotatedAt (f t)) -> steady (Updates (R := R) P f).
Proof. intros Hf d Hd. apply wp_stmt; [split; [done|apply later_refl]|]. apply later_update; [done|]. intros; apply Hf. Qed.

Lemma steady_UpdateKey P key f :
  (forall t, P t = true -> t_Id (f t) = t_Id t /\ t_RotatedAt t <= t_RotatedAt (f t)) -> steady (UpdateKey (R := R) P key f).
Proof.
  intros Hf d Hd. apply wp_stmt; [split; [done|apply later_refl]|]. destruct (existsb P _ && _); [split; [done|apply later_refl]|]. by apply later_update.
Qed.

Lemma steady_UpdateQuota P delta now : steady (UpdateQuota (R := R) P delta now).
Proof.
  intros d Hd. apply wp_stmt; [split; [done|apply later_refl]|]. destruct (forallb _ _); [|split; [done|apply later_refl]].
  apply later_update; [done|]. intros t _. split; [done|]. cbn. reflexivity.
Qed.

Lemma steady_First P : steady (First (R := R) P).
Proof. eapply steady_bind; [apply steady_query|]. intros [t|]; [apply steady_ret|apply steady_throw]. Qed.

Lemma steady_local {A} (f : keydb (R := R) -> A * keydb) :
  (forall d, rows (f d).2 = rows d /\ seq_token (f d).2 = seq_token d) -> steady (local f).
Proof. intros Hf. apply steady_same. intros s. unfold local. specialize (Hf (tables s)). by destruct (f (tables s)). Qed.

Lemma steady_Insert t : steady (Insert (R := R) t).
Proof.
  unfold Insert. destruct (String.eqb _ _); [apply steady_throw|]. intros d [Hnd Hle].
  apply wp_stmt; [split; [done|apply later_refl]|]. destruct (existsb _ _); [split; [done|apply later_refl]|].
  set (t' := with_defaults t <| t_Id := seq_token d + 1 |>). assert (t_Id t' = seq_token d + 1) as Hid by done. clearbody t'.
  split; [split; cbn|split; cbn; [lia|]].
  - rewrite fmap_app. apply NoDup_app. split; [done|]. split; [|apply NoDup_singleton].
    intros x Hx Hx'. apply list_elem_of_singleton in Hx'. apply list_elem_of_fmap in Hx as (r & -> & Hr).
    rewrite Forall_forall in Hle. specialize (Hle r Hr). lia.
  - apply Forall_app. split; [|constructor; [lia|done]]. eapply Forall_impl; [exact Hle|]. cbn. intros; lia.
  - intros id b Hb Hbey. unfold beyond in *. cbn. apply Forall_app. split; [done|]. constructor; [intros; lia|done].
Qed.
End Rotation.

Ltac steady_step :=
  first [ apply steady_ret | apply steady_throw | apply steady_query | apply steady_redis | apply steady_refresh | apply steady_AsyncGo
        | apply steady_First | apply steady_UpdateQuota | apply steady_Insert | apply steady_transaction
        | apply steady_Updates; intros; split; [reflexivity|cbn; reflexivity]
        | apply steady_UpdateKey; intros; split; [reflexivity|cbn; reflexivity]
        | apply steady_local; intros; split; reflexivity
        | apply steady_bind; [|intros ?] | apply steady_catch; [|intros ?]
        | match goal with |- steady (match ?x with _ => _ end) => destruct x end
        | match goal with |- steady (let '(_, _) := ?x in _) => destruct x end ].

Section Rotators.
Context {R : Type} `{RedisHashLaws R} {TP : TimeParse} (e : keyenv) (maxQuotaValue : Z).

Abbreviation K A := (M (keydb (R := R)) tok_err A).

(** Everything else that happens to tokens. *)
Inductive keyop :=
| OpValidate (now : Z) (key : string)
| OpHeartbeat (now : Z) (raw : string) (env : hbenv)
| OpAdd (now userId : Z) (tenantId : string) (identity : Z) (body : Token) (newKey : option string)
| OpEdit (now userId : Z) (statusOnly : string) (body : Token)
| OpUpdate (t : Token)
| OpSelectUpdate (t : Token)
| OpModels (t : Token)
| OpRotate (t : Token) (key : string)
| OpDelete (now id userId : Z)
| OpBatchDelete (now : Z) (ids : list Z) (userId : Z)
| OpIncrease (batch : bool) (id : Z) (key : string) (quota now : Z)
| OpDecrease (batch : bool) (id : Z) (key : string) (quota now : Z)
| OpDecreaseIfEnough (id : Z) (key : string) (quota now : Z)
| OpRun (now : Z) (i : nat).

Definition quietly {A} (m : K A) : K unit := try! _ := m in ret tt.

Definition run_op (op : keyop) : K unit :=
  match op with
  | OpValidate now key => quietly (ValidateUserToken e now key)
  | OpHeartbeat now raw env => quietly (UserHeartbeat e now raw env)
  | OpAdd now userId tenantId identity body newKey => quietly (AddToken maxQuotaValue now userId tenantId identity body newKey)
  | OpEdit now userId statusOnly body => quietly (UpdateToken e maxQuotaValue now userId statusOnly body)
  | OpUpdate t => Update e t
  | OpSelectUpdate t => SelectUpdate e t
  | OpModels t => UpdateModelLimits e t
  | OpRotate t key => quietly (RotateKey e t key)
  | OpDelete now id userId => DeleteTokenById e now id userId
  | OpBatchDelete now ids userId => quietly (BatchDeleteTokens e now ids userId)
  | OpIncrease batch id key quota now => IncreaseTokenQuota e batch id key quota now
  | OpDecrease batch id key quota now => DecreaseTokenQuota e batch id key quota now
  | OpDecreaseIfEnough id key quota now => quietly (DecreaseTokenQuotaIfEnough e id key quota now)
  | OpRun now i => run_nth e now i
  end.

Lemma steady_op op : steady (run_op op).
Proof.
  destruct op; cbn [run_op]; unfold quietly, ValidateUserToken, UserHeartbeat, UserHeartbeat_read, GetTokenByKey, downgrade, SelectUpdate, AddToken,
    UpdateToken, UpdateToken_read, GetTokenByIds, Update, UpdateModelLimits, RotateKey, rotateKey, DeleteTokenById, Delete,
    BatchDeleteTokens, IncreaseTokenQuota, DecreaseTokenQuota, DecreaseTokenQuotaIfEnough, increaseTokenQuota, decreaseTokenQuota,
    run_nth, run_task; cbv zeta; repeat steady_step.
Qed.

(** A rotator with what it listed earlier: the token it read, the key it drew, when its pass
    began; and how the statements it sends fare. *)
Inductive event :=
| Rotator (t : Token) (key : string) (at_ : Z) (fs : list bool)
| Other (op : keyop) (fs : list bool).

(** Columns and clocks in range. *)
Definition sane (t : Token) (at_ : Z) : Prop :=
  0 <= t_AutoRotateDays t < 2147483648 /\ 0 <= t_CreatedTime t < 4611686018427387904 /\
  0 <= t_RotatedAt t < 4611686018427387904 /\ 0 <= at_ < 4611686018427387904.

Definition sane_event (ev : event) : Prop := match ev with Rotator t _ at_ _ => sane t at_ | Other _ _ => True end.

(** Rotations of the token that found it last rotated at [b] and won. *)
Fixpoint wins (id b : Z) (evs : list event) (d : keydb (R := R)) : nat :=
  match evs with
  | [] => 0%nat
  | Rotator t key at_ fs :: evs' =>
      let (r, s) := rotate_due e at_ t (Some key) (mkStore d fs) in
      let won := (t_Id t =? id) && (t_RotatedAt t =? b) && match r with Ok won => won | Err _ => false end in
      ((if won then 1 else 0) + wins id b evs' (tables s))%nat
  | Other op fs :: evs' => wins id b evs' (tables (run_op op (mkStore d fs)).2)
  end.

Lemma due_later t at_ : sane t at_ -> rotation_due t at_ = true -> t_RotatedAt t < at_.
Proof.
  intros (Hd & Hc & Hr & Ha). unfold rotation_due, NeedsRotationAt, secondsPerDay.
  assert (forall x, 0 <= x < 4611686018427387904 -> i64_sub at_ x = at_ - x) as Hsub.
  { intros x Hx. unfold i64_sub. apply wrap64_id. unfold64. lia. }
  assert (i64_mul (t_AutoRotateDays t) 86400 = t_AutoRotateDays t * 86400) as -> by (unfold i64_mul; apply wrap64_id; unfold64; lia).
  rewrite Hsub by (destruct (t_RotatedAt t =? 0); lia).
  destruct (t_RotatedAt t =? 0) eqn:E0; destruct (t_AutoRotateDays t <=? 0) eqn:E1; intros; bool_to_prop; (discriminate || lia).
Qed.

Lemma steady_rotate_due t key at_ : sane t at_ -> steady (rotate_due (R := R) e at_ t (Some key)).
Proof.
  intros Hs. unfold rotate_due, RotateKeyWithTimestampCAS. destruct (rotation_due t at_) eqn:E; cbn [negb]; [|apply steady_ret].
  apply due_later in E; [|done]. apply steady_catch.
  - apply steady_bind.
    + apply steady_UpdateKey. intros row HP. bool_to_prop. split; [reflexivity|]. change (t_RotatedAt row <= at_). lia.
    + intros n. destruct (n =? 0)%nat; repeat steady_step.
  - intros r. repeat steady_step.
Qed.

(** Once the row is past [b] nobody wins from there. *)
Lemma past_loses t key at_ fs (d : keydb (R := R)) : beyond (t_Id t) (t_RotatedAt t) d -> (rotate_due e at_ t (Some key) (mkStore d fs)).1 <> Ok true.
Proof.
  intros Hb. unfold rotate_due. destruct (negb _); [done|]. unfold catch, RotateKeyWithTimestampCAS, bind, UpdateKey, stmt.
  cbn [tables faults]. destruct (next_fault fs) as [[] fs']; [done|]. destruct (existsb _ _ && _); [done|].
  assert (affected (fun row => with_id (t_Id t) row && (t_RotatedAt row =? t_RotatedAt t)) (rows d) = 0%nat) as ->; [|done].
  unfold affected. enough (List.filter (fun row => with_id (t_Id t) row && (t_RotatedAt row =? t_RotatedAt t)) (rows d) = []) as -> by done.
  unfold beyond in Hb. induction Hb as [|row rs Hr _ IH]; [done|]. cbn.
  destruct (with_id (t_Id t) row) eqn:E; cbn; [|done]. unfold with_id in E. bool_to_prop. specialize (Hr ltac:(done)).
  by destruct (Z.eqb_spec (t_RotatedAt row) (t_RotatedAt t)); [lia|].
Qed.

Lemma win_past t key at_ fs (d : keydb (R := R)) :
  ids_ok d -> sane t at_ -> (rotate_due e at_ t (Some key) (mkStore d fs)).1 = Ok true ->
  t_Id t <= seq_token d /\ beyond (t_Id t) (t_RotatedAt t) (tables (rotate_due e at_ t (Some key) (mkStore d fs)).2).
Proof.
  intros [Hnd Hle] Hs. unfold rotate_due. destruct (negb (rotation_due t at_)) eqn:Hdue; [done|]. bool_to_prop.
  apply due_later in Hdue; [|done]. unfold catch, RotateKeyWithTimestampCAS, bind, UpdateKey, stmt. cbn [tables faults].
  destruct (next_fault fs) as [[] fs']; [done|]. destruct (existsb _ _ && _); [done|].
  set (P := fun row => with_id (t_Id t) row && (t_RotatedAt row =? t_RotatedAt t)).
  destruct (affected P (rows d) =? 0)%nat eqn:En; [done|]. intros _.
  assert (exists row, row ∈ rows d /\ P row = true) as (row & Hin & HP).
  { unfold affected in En. destruct (List.filter P (rows d)) as [|row rs] eqn:Ef; [done|]. exists row.
    assert (In row (List.filter P (rows d))) as Hi by (rewrite Ef; by left).
    apply filter_In in Hi as [Hi HP]. split; [by apply list_elem_of_In|done]. }
  assert (t_Id row = t_Id t) as Hid by (unfold P, with_id in HP; by bool_to_prop).
  split; [rewrite <- Hid; by eapply (proj1 (Forall_forall _ _)) in Hle|].
  assert (beyond (t_Id t) (t_RotatedAt t)
    (set_rows (update_where P (fun row => row <| t_Key := key |> <| t_RotatedAt := at_ |>) (rows d)) d)) as Hb.
  { unfold beyond, update_where. cbn. apply Forall_fmap, Forall_forall. intros r Hr. unfold compose. cbn beta.
    destruct (P r) eqn:Ep; [intros _; change (t_RotatedAt t < at_); lia|]. intros Hrid.
    assert (r = row) as ->; [|congruence]. apply list_elem_of_lookup in Hr as [i Hi]. apply list_elem_of_lookup in Hin as [j Hj].
    assert (i = j) as <-; [|congruence]. eapply (NoDup_lookup _ i j (t_Id t) Hnd); rewrite list_lookup_fmap, ?Hi, ?Hj; cbn; congruence. }
  unfold refresh. destruct (RedisEnabled e); exact Hb.
Qed.

Lemma past_no_wins id b evs : forall d, Forall sane_event evs -> ids_ok d -> id <= seq_token d -> beyond id b d -> wins id b evs d = 0%nat.
Proof.
  induction evs as [|[t key at_ fs|op fs] evs IH]; intros d Hs Hd Hid Hb; [done|..]; apply Forall_cons in Hs as [Hev Hs]; cbn [wins].
  - pose proof (steady_rotate_due t key at_ Hev d Hd fs) as [Hd' [Hseq Hl]]. pose proof (past_loses t key at_ fs d) as Hlose.
    destruct (rotate_due e at_ t (Some key) (mkStore d fs)) as [r s]. cbn [fst snd tables] in *.
    rewrite IH; [|done|done|lia|by apply Hl]. destruct (t_Id t =? id) eqn:E1, (t_RotatedAt t =? b) eqn:E2; try done. bool_to_prop. subst.
    specialize (Hlose Hb). cbn. by destruct r as [[]|].
  - pose proof (steady_op op d Hd fs) as [Hd' [Hseq Hl]]. apply IH; [done|done|lia|by apply Hl].
Qed.
End Rotators.

(** C14. However rotators interleave with one another and with everything else that
    happens to tokens, and whichever statements fail, of the rotators that found a token
    last rotated at the same time at most one rotates it: the others change nothing and
    report no rotation. *)
Theorem scheduled_rotation_once {R} `{RedisHashLaws R} {TP : TimeParse} e maxQuotaValue id b evs d :
  ids_ok d -> Forall sane_event evs -> (wins (R := R) e maxQuotaValue id b evs d <= 1)%nat.
Proof.
  intros Hd Hs. revert d Hd. induction Hs as [|[t key at_ fs|op fs] evs Hev Hs IH]; intros d Hd; cbn [wins]; [lia|..].
  - pose proof (steady_rotate_due e t key at_ Hev d Hd fs) as [Hd' [Hseq Hl]]. pose proof (win_past e t key at_ fs d Hd Hev) as Hwin.
    destruct (rotate_due e at_ t (Some key) (mkStore d fs)) as [r s]. cbn [fst snd tables] in *.
    destruct (t_Id t =? id) eqn:E1, (t_RotatedAt t =? b) eqn:E2; cbn [andb]; try by apply IH. bool_to_prop. subst.
    destruct r as [[]|]; try by apply IH. destruct (Hwin eq_refl) as [Hid Hb]. rewrite past_no_wins; [lia|done|done|lia|done].
  - pose proof (steady_op e maxQuotaValue op d Hd fs) as [Hd' _]. by apply IH.
Qed.

(** Two rotators listed the token before either wrote, a third after the first won. *)
Definition old_token : Token := demo_row <| t_AutoRotateDays := 30 |>.
Definition old_keys : keydb (R := hashes) := mkKeydb [old_token] 1 ∅ [] [].

Lemma scheduled_rotation_once_witness :
  ids_ok old_keys /\
  wins demo_env demo_max 1 0 [Rotator old_token "k2" 5000000 []; Rotator old_token "k3" 5000001 []] old_keys = 1%nat /\
  (wins demo_env demo_max 1 0 [Rotator old_token "k2" 5000000 []; Rotator old_token "k3" 5000001 []] old_keys <= 1)%nat.
Proof.
  assert (ids_ok old_keys) as Hd by (split; [apply NoDup_singleton|by repeat constructor]).
  split; [exact Hd|]. split; [vm_compute; reflexivity|].
  apply (scheduled_rotation_once demo_env demo_max 1 0 _ old_keys); [exact Hd|]. repeat constructor; vm_compute; (reflexivity || discriminate).
Defined.

(** ** An edit that undoes a charge *)

(** The owner changes the status of a key; between the read and the write of the edit a
    request pays 400 of its 500.  The edit writes all columns it read, the quota too. *)
Definition spend_reading : sys := after (UpdateToken_read demo_max 1000 3 "true" demo_disable) [] (fun t => [FlightEdit t]) (fun _ m => m) demo_created.
Definition spend_paid : sys := plainly (DecreaseTokenQuotaIfEnough demo_env 1 "k1" 400 1000) [] spend_reading.
Definition spend_edited : sys :=
  plainly (land demo_env (FlightEdit (demo_row <| t_Status := 2 |>))) []
    (mkSys (db spend_paid) (delete 0%nat (flight spend_paid)) (clock spend_paid) (issued spend_paid)).

Example edit_undoes_charge :
  (t_RemainQuota <$> rows (db spend_paid)) = [100] /\
  flight spend_paid !! 0%nat = Some (FlightEdit (demo_row <| t_Status := 2 |>)) /\
  (t_RemainQuota <$> rows (db spend_edited)) = [500] /\ (t_UsedQuota <$> rows (db spend_edited)) = [400].
Proof. vm_compute. split_and!; reflexivity. Qed.

(** ** An expiry of zero *)

(** Left at zero a new key never expires; an edit that leaves it at zero expires the key. *)
Definition zero_expiry : sys :=
  plainly (UpdateToken demo_env demo_max 1000 3 "" (demo_body <| t_Id := 1 |>)) [] demo_created.

Example zero_expiry_created : (t_ExpiredTime <$> rows (db demo_created)) = [-1].
Proof. vm_compute. reflexivity. Qed.

Example zero_expiry_edited :
  (t_ExpiredTime <$> rows (db zero_expiry)) = [0] /\
  (ValidateUserToken (mkKeyenv false "secret" 60) 1000 "k1" (mkStore (db zero_expiry) [])).1 =
    Ok (Some (demo_row <| t_ExpiredTime := 0 |> <| t_Status := 3 |> <| t_AllowIps := None |>), Some ErrTokenExpired).
Proof. vm_compute. split; reflexivity. Qed.
End TokenRaces.
