(* ===== verification/TokenAuth.v ===== *)
(** * API keys: the middleware of the relay

    Model of TokenAuth in internal/adapter/middleware/auth.go with auth_token_reject.go,
    auth_token_context.go and identity_attribution.go, of internal/pkg/types/token_scope.go,
    internal/pkg/common/ip.go, TenantGate of internal/adapter/repo/tenant.go and
    GetUserUsableGroups of internal/app/group.go.

    What the middleware asks of the rest, the cached user, the row of the tenant, the role of
    the user, the project of a department and the settings of groups, are functions of the
    environment; so is the parsing of addresses by package net. *)

From coqutil Require Import Datatypes.RecordSetters.
From Stdlib Require Import Ascii.
From stdpp Require Import sorting.
From S2P Require Import Prelude Wp GoStrings Redis StepUp TokenCache TokenStore TokenStoreSpec TokenSystem.

Module TokenAuth.
Import GoStrings TokenCache TokenStore TokenStoreSpec TokenSystem.

(** ** Scopes *)

(** The scope a relay path asks for; the empty string asks for none. *)
Definition PathToRequiredScope (method path : string) : string :=
  if HasPrefix path "/v1/audio/music" || HasPrefix path "/suno/" then "task"
  else if Contains path "/mj/" then "mj"
  else if String.eqb path "/v1/realtime" then "realtime"
  else if HasPrefix path "/v1/chat" || HasPrefix path "/v1/completions" || HasPrefix path "/v1/messages" ||
          HasPrefix path "/v1/responses" || HasPrefix path "/v1/moderations" then "chat"
  else if HasPrefix path "/v1beta/models/" || HasPrefix path "/v1beta/openai/models/" then
    (if String.eqb method "GET" then "" else "chat")
  else if HasPrefix path "/v1/models/" then (if String.eqb method "GET" then "" else "chat")
  else if HasPrefix path "/v1/embeddings" || (Contains path "/engines/" && Contains path "/embeddings") then "embedding"
  else if HasPrefix path "/v1/rerank" then "embedding"
  else if HasPrefix path "/v1/images/" || String.eqb path "/v1/edits" then "image"
  else if HasPrefix path "/v1/audio/" then "audio"
  else "".

(** ** Addresses *)

(** Package net: an address, a network as the addresses it contains. *)
Class NetIP (IP : Type) := {
  ParseIP : string -> option IP;
  ParseCIDR : string -> option (IP -> bool);
  ip_Equal : IP -> IP -> bool
}.

Definition IsIpInCIDRList {IP} `{NetIP IP} (ip : IP) (cidrList : list string) : bool :=
  existsb (fun cidr =>
    match ParseCIDR cidr with
    | Some network => network ip
    | None => match ParseIP cidr with Some allowed => ip_Equal ip allowed | None => false end
    end) cidrList.

(** ** Tenants *)

(** What the lookup of a tenant's row gives. *)
Inductive tenant_row :=
| TenantStatus (status : Z)
| TenantMissing
| TenantFault.

Definition tenant_IsDisabled (status : Z) : bool := (status =? 2) || (status =? 3).

(** [TENANT_MISSING_MODE]. *)
Definition TenantMissingEnforced (mode : string) : bool := String.eqb (TrimSpace mode) "enforce".

Definition TenantGate (missingMode : string) (lookup : string -> tenant_row) (tenantID : string) : bool * string :=
  if String.eqb tenantID "" || String.eqb tenantID "default" then (true, "")
  else match lookup tenantID with
       | TenantStatus status => if tenant_IsDisabled status then (false, "tenant_disabled") else (true, "")
       | TenantMissing => if TenantMissingEnforced missingMode then (false, "tenant_missing") else (true, "")
       | TenantFault => (true, "")
       end.

(** ** Groups *)

(** The special settings of a group come from a map: in some order. *)
Definition apply_special (groups : gmap string string) (special : string * string) : gmap string string :=
  let (name, desc) := special in
  if HasPrefix name "-:" then delete (TrimPrefix name "-:") groups
  else if HasPrefix name "+:" then <[TrimPrefix name "+:" := desc]> groups
  else <[name := desc]> groups.

Definition GetUserUsableGroups (usable : gmap string string) (special : string -> option (list (string * string))) (userGroup : string)
    : gmap string string :=
  if String.eqb userGroup "" then usable
  else
    let groups := foldl apply_special usable (default [] (special userGroup)) in
    match groups !! userGroup with Some _ => groups | None => <[userGroup := "用户分组"]> groups end.

(** ** Attribution to an employee and a department *)

Definition byte_between (lo hi b : Z) : bool := (lo <=? b) && (b <=? hi).

Definition validEmployeeRef (s : string) : bool :=
  negb (String.eqb s "") && (String.length s <=? 64)%nat &&
  forallb (fun b => byte_between 97 122 b || byte_between 65 90 b || byte_between 48 57 b ||
    (b =? 46) || (b =? 95) || (b =? 64) || (b =? 58) || (b =? 45)) (bytes s).

Definition IsControl (r : Z) : bool := byte_between 0 31 r || byte_between 127 159 r.

Definition validDeptHeader (s : string) : bool :=
  negb (String.eqb s "") && (String.length s <=? 128)%nat && ValidString s &&
  forallb (fun r => negb (IsControl r || (r =? RuneError))) (runes s).

(** ** Requests and what they are given *)

Record request := mkRequest {
  q_method : string;
  q_path : string;
  q_websocket : string;      (* Sec-WebSocket-Protocol *)
  q_x_api_key : string;
  q_key : string;            (* the query parameter *)
  q_x_goog_api_key : string;
  q_authorization : string;
  q_mj_api_secret : string;
  q_client_ip : string;
  q_employee : string;
  q_dept : string;
  q_identity : option Z      (* the platform account a session left on the context *)
}.

Record UserBase := mkUserBase { ub_Status : Z; ub_Group : string }.

Section Middleware.
Context {IP : Type} `{NetIP IP}.

Record authenv := mkAuthenv {
  user_cache : Z -> option UserBase;          (* GetUserCache *)
  tenant_lookup : string -> tenant_row;
  missing_mode : string;
  usable_groups : gmap string string;
  special_groups : string -> option (list (string * string));
  has_ratio : string -> bool;                 (* ContainsGroupRatio *)
  role_of : Z -> option Z;                    (* the role column, if the query answers *)
  dept_project : string -> string -> option Z (* ResolveProjectByDeptCode *)
}.

(** What the rest of the relay reads off the context. *)
Record context := mkContext {
  c_id : Z;
  c_token_id : Z;
  c_token_key : string;
  c_token_name : string;
  c_unlimited : bool;
  c_token_quota : option Z;
  c_model_limit : option (gmap string bool);
  c_token_group : string;
  c_cross_group_retry : bool;
  c_user_group : string;
  c_using_group : string;
  c_tenant_id : string;
  c_project : Z;
  c_source_product : string;
  c_employee : string;
  c_identity : option Z;
  c_channel : option string;
  c_root_override : bool
}.

(** A refusal: the HTTP status, the code and the state header, if it sets one. *)
Inductive answer :=
| Refuse (status : Z) (code : string) (state : string)
| Next (c : context).

(** ** The key of a request *)

(** The protocol that carries a key, or the whole list. *)
Fixpoint websocket_key (parts : list string) (whole : string) : string :=
  match parts with
  | [] => whole
  | part :: parts' =>
      let part := TrimSpace part in
      if HasPrefix part "openai-insecure-api-key" then TrimPrefix part "openai-insecure-api-key."
      else websocket_key parts' whole
  end.

Definition bearer (key : string) : string :=
  if HasPrefix key "Bearer " || HasPrefix key "bearer " then TrimSpace (String.substring 7 (String.length key) key) else key.

Definition dash : ascii := ascii_of_nat 45.

(** The Authorization header once the other places a key may be in have been looked at. *)
Definition authorization (q : request) : string :=
  let a := if String.eqb (q_websocket q) "" then q_authorization q
           else "Bearer " +:+ websocket_key (Split (q_websocket q) comma) (q_websocket q) in
  let a := if (Contains (q_path q) "/v1/messages" || Contains (q_path q) "/v1/models") && negb (String.eqb (q_x_api_key q) "")
           then "Bearer " +:+ q_x_api_key q else a in
  if HasPrefix (q_path q) "/v1beta/models" || HasPrefix (q_path q) "/v1beta/openai/models" || HasPrefix (q_path q) "/v1/models/" then
    let a := if String.eqb (q_key q) "" then a else "Bearer " +:+ q_key q in
    if String.eqb (q_x_goog_api_key q) "" then a else "Bearer " +:+ q_x_goog_api_key q
  else a.

(** The key, then what follows it: sk-<key>-<channel>. *)
Definition key_parts (q : request) : list string :=
  let key := bearer (authorization q) in
  let key := if String.eqb key "" || String.eqb key "midjourney-proxy" then bearer (q_mj_api_secret q) else key in
  Split (TrimPrefix key "sk-") dash.

Definition request_key (q : request) : string := default "" (head (key_parts q)).

(** ** Refusals of the key itself *)

Definition rejectTokenError (err : tok_err) : answer :=
  match err with
  | ErrTokenQuotaExhausted _ _ => Refuse 402 "token_quota_exhausted" ""
  | ErrTokenLookupFailed => Refuse 503 "query_data_error" "lookup_failed"
  | ErrTokenDisabled => Refuse 401 "token_disabled" "disabled"
  | ErrTokenExpired => Refuse 401 "token_expired" "expired"
  | _ => Refuse 401 "invalid_request" "unknown"
  end.

(** ** The context of an accepted key *)

Definition applyIdentityAttribution (env : authenv) (q : request) (t : Token) : string * Z :=
  let emp := TrimSpace (q_employee q) in
  let dept := TrimSpace (q_dept q) in
  if (String.eqb emp "" && String.eqb dept "") || negb (t_TrustedIdentityHeaders t) then (t_EmployeeRef t, t_ProjectId t)
  else
    (if negb (String.eqb emp "") && validEmployeeRef emp then emp else t_EmployeeRef t,
     if String.eqb dept "" || negb (validDeptHeader dept) then t_ProjectId t
     else default (t_ProjectId t) (dept_project env (if String.eqb (t_TenantId t) "" then "default" else t_TenantId t) dept)).

Definition role_at_least (env : authenv) (role userId : Z) : bool :=
  negb (userId =? 0) && match role_of env userId with Some r => role <=? r | None => false end.

Definition IsAdmin (env : authenv) (userId : Z) : bool := role_at_least env 10 userId.
Definition IsRoot (env : authenv) (userId : Z) : bool := role_at_least env 100 userId.

Definition SetupContextForToken (env : authenv) (q : request) (t : Token) (parts : list string) (tenant userGroup group : string) : answer :=
  let (employee, project) := applyIdentityAttribution env q t in
  let ctx channel root :=
    mkContext (t_UserId t) (t_Id t) (t_Key t) (t_Name t) (t_UnlimitedQuota t) (if t_UnlimitedQuota t then None else Some (t_RemainQuota t))
      (if t_ModelLimitsEnabled t then Some (GetModelLimitsMap t) else None) (t_Group t) (t_CrossGroupRetry t)
      userGroup group tenant project (t_SourceProduct t) employee
      (match q_identity q with Some a => Some a | None => if 0 <? t_IdentityAccountID t then Some (t_IdentityAccountID t) else None end)
      channel root in
  match parts with
  | _ :: channel :: _ =>
      if IsAdmin env (t_UserId t) then Next (ctx (Some channel) (IsRoot env (t_UserId t)))
      else Refuse 403 "channel_specify_forbidden" ""
  | _ => Next (ctx None false)
  end.

(** ** The middleware *)

(** The group a request runs in: the token's own, where its user may use it. *)
Definition using_group (env : authenv) (t : Token) (user : option UserBase) : option string :=
  match user with
  | None => Some (if String.eqb (t_Group t) "" then "default" else t_Group t)
  | Some u =>
      if String.eqb (t_Group t) "" then Some (ub_Group u)
      else match GetUserUsableGroups (usable_groups env) (special_groups env) (ub_Group u) !! t_Group t with
           | None => None
           | Some _ => if negb (has_ratio env (t_Group t)) && negb (String.eqb (t_Group t) "auto") then None else Some (t_Group t)
           end
  end.

Definition allowed_ip (q : request) (t : Token) : bool :=
  match GetIpLimits t with
  | [] => true
  | limits => match ParseIP (q_client_ip q) with Some ip => IsIpInCIDRList ip limits | None => false end
  end.

Definition allowed_scope (q : request) (t : Token) : bool :=
  let scope := PathToRequiredScope (q_method q) (q_path q) in
  String.eqb scope "" || HasScope scope t.

(** A key of a tenant without a user. *)
Definition provisioned (t : Token) : bool := (t_UserId t =? 0) && negb (String.eqb (t_TenantId t) "").

Definition UserStatusEnabled : Z := 1.

(** What is decided once the key is known to be valid. *)
Definition authorize (env : authenv) (q : request) (t : Token) : answer :=
  if negb (allowed_ip q t) then Refuse 403 "ip_not_allowed" ""
  else if negb (allowed_scope q t) then Refuse 403 "scope_not_granted" ""
  else
    let enter (user : option UserBase) :=
      let tenant := if String.eqb (t_TenantId t) "" then "default" else t_TenantId t in
      if negb (TenantGate (missing_mode env) (tenant_lookup env) tenant).1 then Refuse 403 "tenant_suspended" ""
      else match using_group env t user with
           | None => Refuse 403 "group_not_allowed" ""
           | Some group => SetupContextForToken env q t (key_parts q) tenant (match user with Some u => ub_Group u | None => group end) group
           end in
    if provisioned t then enter None
    else match user_cache env (t_UserId t) with
         | None => Refuse 500 "gateway_internal" ""
         | Some u => if ub_Status u =? UserStatusEnabled then enter (Some u) else Refuse 403 "user_banned" ""
         end.

Section Run.
Context {R : Type} `{RedisHashes R} {TP : TimeParse} (e : keyenv).

Definition TokenAuth (env : authenv) (now : Z) (q : request) : M (keydb (R := R)) tok_err answer :=
  let! v := ValidateUserToken e now (request_key q) in
  ret (match v with
       | (_, Some err) => rejectTokenError err
       | (Some t, None) => authorize env q t
       | (None, None) => Refuse 500 "" ""   (* not returned *)
       end).
End Run.
End Middleware.

(** ** What an admitted request has *)

Section Admission.
Context {IP : Type} `{NetIP IP}.

(** The request passed every gate of the token [t] it presented, and the context was made
    from that token. *)
Record admitted (env : authenv) (q : request) (t : Token) (c : context) : Prop := {
  ad_ip : allowed_ip q t = true;
  ad_scope : allowed_scope q t = true;
  ad_user : provisioned t = true \/ exists u, user_cache env (t_UserId t) = Some u /\ ub_Status u = UserStatusEnabled;
  ad_tenant : c_tenant_id c = (if String.eqb (t_TenantId t) "" then "default" else t_TenantId t);
  ad_gate : (TenantGate (missing_mode env) (tenant_lookup env) (c_tenant_id c)).1 = true;
  ad_group : exists user, using_group env t user = Some (c_using_group c) /\
    user = (if provisioned t then None else user_cache env (t_UserId t));
  ad_identity : c_token_id c = t_Id t /\ c_id c = t_UserId t /\ c_token_key c = t_Key t;
  ad_models : c_model_limit c = (if t_ModelLimitsEnabled t then Some (GetModelLimitsMap t) else None);
  ad_untrusted : t_TrustedIdentityHeaders t = false -> c_employee c = t_EmployeeRef t /\ c_project c = t_ProjectId t;
  ad_channel : is_Some (c_channel c) -> IsAdmin env (t_UserId t) = true;
  ad_root : c_root_override c = true -> IsRoot env (t_UserId t) = true
}.

Lemma untrusted_attribution env q t : t_TrustedIdentityHeaders t = false ->
  applyIdentityAttribution env q t = (t_EmployeeRef t, t_ProjectId t).
Proof. intros Ht. unfold applyIdentityAttribution. by rewrite Ht, orb_true_r. Qed.

Lemma SetupContext_next env q t parts tenant userGroup group c :
  SetupContextForToken env q t parts tenant userGroup group = Next c ->
  c_tenant_id c = tenant /\ c_using_group c = group /\
  (c_token_id c = t_Id t /\ c_id c = t_UserId t /\ c_token_key c = t_Key t) /\
  c_model_limit c = (if t_ModelLimitsEnabled t then Some (GetModelLimitsMap t) else None) /\
  (c_employee c, c_project c) = applyIdentityAttribution env q t /\
  (is_Some (c_channel c) -> IsAdmin env (t_UserId t) = true) /\
  (c_root_override c = true -> IsRoot env (t_UserId t) = true).
Proof.
  unfold SetupContextForToken. destruct (applyIdentityAttribution env q t) as [employee project]. cbv zeta.
  destruct parts as [|p [|channel parts]].
  1,2: intros [= <-]; cbn; split_and!; try done; by intros [].
  destruct (IsAdmin env (t_UserId t)) eqn:Ha; [|done]. intros [= <-]. by split_and!.
Qed.

Lemma authorize_next env q t c : authorize env q t = Next c -> admitted env q t c.
Proof.
  unfold authorize. destruct (allowed_ip q t) eqn:Hip; [|done]. destruct (allowed_scope q t) eqn:Hsc; [|done]. cbn [negb].
  set (tenant := if String.eqb (t_TenantId t) "" then "default" else t_TenantId t).
  assert (forall user, (if negb (TenantGate (missing_mode env) (tenant_lookup env) tenant).1 then Refuse 403 "tenant_suspended" ""
      else match using_group env t user with
           | None => Refuse 403 "group_not_allowed" ""
           | Some group => SetupContextForToken env q t (key_parts q) tenant (match user with Some u => ub_Group u | None => group end) group
           end) = Next c ->
      (provisioned t = true \/ exists u, user_cache env (t_UserId t) = Some u /\ ub_Status u = UserStatusEnabled) ->
      user = (if provisioned t then None else user_cache env (t_UserId t)) -> admitted env q t c) as Henter.
  { intros user He Hu Huser. destruct (TenantGate _ _ tenant).1 eqn:Hgate; [|done]. cbn [negb] in He.
    destruct (using_group env t user) as [group|] eqn:Hg; [|done].
    apply SetupContext_next in He as (Ht & Hgr & Hid & Hm & Hat & Hch & Hroot). split; try done.
    - by rewrite Ht.
    - exists user. by rewrite Hgr.
    - intros Hun. rewrite untrusted_attribution in Hat by done. by simplify_eq. }
  destruct (provisioned t) eqn:Hp.
  - intros He. apply (Henter None); [done|by left|done].
  - destruct (user_cache env (t_UserId t)) as [u|] eqn:Hu; [|done]. destruct (ub_Status u =? UserStatusEnabled) eqn:Hst; [|done].
    intros He. apply (Henter (Some u)); [done|right; exists u; split; [done|lia]|done].
Qed.
End Admission.

(** C10. A relay request that is let through presents a key that was issued to the token,
    user and tenant on its context, in every state the key store can reach by interleaved
    edits, rotations, deletions, heartbeats and cache refreshes with any failures; that token
    is enabled, unexpired and funded, its addresses and scopes admit the request, its user is
    enabled (or it is a provisioned key of a tenant), its tenant is not suspended and its
    group is one the user may use; the attribution headers count only on a trusted key, and a
    channel is pinned only by an administrator. *)
Theorem admitted_request {R} `{RedisHashLaws R} {TP : TimeParse} {IP} `{NetIP IP} e keys maxQuotaValue s0 s env q fs c s' :
  (forall k k', k ∈ keys -> k' ∈ keys -> cache_key e k = cache_key e k' -> k = k') ->
  initial (R := R) e keys s0 -> reachable (step e keys maxQuotaValue (fun _ => True)) s0 s -> request_key q ∈ keys ->
  TokenAuth e env (clock s) q (mkStore (db s) fs) = (Ok (Next c), s') ->
  exists t, issued s !! request_key q = Some (owner_of t) /\ t_Key t = request_key q /\ t_Status t = TokenStatusEnabled /\
    (t_ExpiredTime t = -1 \/ GetTimestamp (clock s) <= t_ExpiredTime t) /\ QuotaAvailable t = true /\
    admitted env q t c.
Proof.
  intros Hcf H0' Hr Hk. apply initial_owned in H0'.
  eapply (reach_keeps e keys maxQuotaValue Hcf) in Hr; [|apply owned_policy|exact H0'].
  unfold TokenAuth, bind, ret. destruct (ValidateUserToken _ _ _ _) as [[[[t|] [err|]]|x] s1] eqn:Hv; try done.
  1,3: destruct err; done.
  intros [= Ha _]. exists t.
  apply (validated_known e keys Hcf (owned keys) (fun _ _ => True)) in Hv as (Hkey & (Ho & _) & Hst & He & Hq); [|by apply owned_closed, (si_consistent _ _ _ _ _ Hr)|done..].
  cbn in Ho. rewrite Hkey in Ho. split_and!; try done. by apply authorize_next.
Qed.

(** A request with the key of the token of [demo_created], for a user and a tenant that are enabled. *)
#[local] Instance demo_net : NetIP string := {|
  ParseIP s := if String.eqb s "" then None else Some s;
  ParseCIDR _ := None;
  ip_Equal := String.eqb
|}.
#[local] Instance demo_clock : TimeParse := fun _ => None.

Definition demo_auth : authenv :=
  mkAuthenv (fun id => if id =? 3 then Some (mkUserBase 1 "default") else None) (fun _ => TenantStatus 1) "" {["default" := ""]}
    (fun _ => None) (fun _ => true) (fun _ => Some 1) (fun _ _ => None).

Definition demo_request : request :=
  mkRequest "POST" "/v1/chat/completions" "" "" "" "" "Bearer sk-k1" "" "10.0.0.1" "" "" None.

Definition demo_context : context :=
  mkContext 3 1 "k1" "n" false (Some 500) None "" false "default" "default" "acme" 0 "" "" None None false.

Lemma admitted_request_witness :
  exists s', TokenAuth demo_env demo_auth 1000 demo_request (mkStore (db demo_created) []) = (Ok (Next demo_context), s') /\
    exists t, issued demo_created !! "k1" = Some (owner_of t) /\ admitted demo_auth demo_request t demo_context.
Proof.
  eexists. refine ((fun Hv => conj Hv _) _).
  - edestruct (admitted_request demo_env demo_keys demo_max demo_start demo_created demo_auth demo_request [] demo_context)
      as (t & Ho & _ & _ & _ & _ & Ha);
      [exact demo_collision_free|exact demo_initial|exact demo_create|by left|exact Hv|].
    exists t. split; [exact Ho|exact Ha].
  - vm_compute. reflexivity.
Defined.

(** ** What a stored scope list grants *)

Lemma GetScopes_stored (P : string -> bool) t :
  GetScopes (t <| t_Scopes := Join (List.filter P ValidTokenScopes) "," |>) = List.filter P ValidTokenScopes.
Proof.
  unfold ValidTokenScopes. cbn [List.filter].
  destruct (P "chat"), (P "embedding"), (P "image"), (P "audio"), (P "realtime"), (P "mj"), (P "task"), (P "admin");
    reflexivity.
Qed.

(** The scopes the console stores grant what was asked for: the key may use a scope
    exactly when the scope is among the given ones, and every scope when none was given. *)
Theorem scopes_roundtrip scopes str t scope :
  NormalizeTokenScopes scopes = Some str ->
  HasScope scope (t <| t_Scopes := str |>) = true <->
  (forall s, s ∈ scopes -> TrimSpace s = "") \/ (scope <> "" /\ exists s, s ∈ scopes /\ TrimSpace s = scope).
Proof.
  unfold NormalizeTokenScopes. set (given := List.filter _ _).
  assert (forall x, x ∈ given <-> x <> "" /\ exists s, s ∈ scopes /\ TrimSpace s = x) as Hg.
  { intros x. unfold given. rewrite list_elem_of_In, filter_In, <- list_elem_of_In, list_elem_of_fmap, negb_true_iff, String.eqb_neq.
    naive_solver. }
  destruct (forallb IsValidTokenScope given) eqn:Hv; [|done]. intros <-%(inj Some).
  rewrite forallb_forall in Hv.
  assert (forall x, x ∈ List.filter (fun v => bool_decide (v ∈ given)) ValidTokenScopes <-> x ∈ given) as Hf.
  { intros x. rewrite list_elem_of_In, filter_In, <- list_elem_of_In, bool_decide_eq_true. split; [tauto|]. intros Hx. split; [|done].
    apply list_elem_of_In in Hx. specialize (Hv x Hx). unfold IsValidTokenScope in Hv. by apply bool_decide_eq_true in Hv. }
  unfold HasScope. rewrite GetScopes_stored. revert Hf. generalize (List.filter (fun v => bool_decide (v ∈ given)) ValidTokenScopes).
  intros [|x l] Hf.
  - split; [|done]. intros _. left. intros s Hs. destruct (decide (TrimSpace s = "")) as [|Hne]; [done|].
    assert (TrimSpace s ∈ given) as Hin by (apply Hg; naive_solver). by apply Hf, elem_of_nil in Hin.
  - rewrite bool_decide_eq_true, Hf, Hg. split; [naive_solver|]. intros [Hno|?]; [|done].
    assert (x ∈ given) as (Hx & s & Hs & <-)%Hg by (apply Hf; by left). by rewrite Hno in Hx.
Qed.

Lemma scopes_roundtrip_witness :
  NormalizeTokenScopes ["image"; " chat "] = Some "chat,image" /\
  HasScope "image" (zero_token <| t_Scopes := "chat,image" |>) = true.
Proof.
  split; [reflexivity|]. apply (scopes_roundtrip ["image"; " chat "] "chat,image" zero_token "image"); [reflexivity|].
  right. split; [discriminate|]. exists "image". split; [by left|reflexivity].
Defined.

(** ** Gates that are narrower or wider than they look *)

(** Routes that relay and bill without asking for a scope: a key that may only embed reaches
    the video, task and System One endpoints. *)
Example unscoped_relay_routes t :
  Forall (fun path => allowed_scope (mkRequest "POST" path "" "" "" "" "" "" "" "" "" None) t = true)
    ["/v1/videos"; "/v1/video/generations"; "/v1/tasks/suno"; "/v1/systemone"].
Proof. repeat constructor. Qed.

(** The settings of a group are applied in the order of a map: whether a group both removed and
    added may be used depends on the run. *)
Example special_group_order :
  GetUserUsableGroups ∅ (fun _ => Some [("-:vip", ""); ("+:vip", "d")]) "std" !! "vip" = Some "d" /\
  GetUserUsableGroups ∅ (fun _ => Some [("+:vip", "d"); ("-:vip", "")]) "std" !! "vip" = None.
Proof. by vm_compute. Qed.

End TokenAuth.
